(* ===== verification/_CoqProject ===== *)
-Q . S2P
Prelude.v
GoLib.v
Utf8.v
Keyset.v
Float64.v
NsNames.v
NsLedger.v
NsService.v
NsFencing.v
Hoare.v
Janitor.v
Stores.v
ComputeLocks.v
Wipe.v
AdminLifecycle.v
AdminReset.v
RedisStream.v
StreamRetention.v
StreamConsumer.v
NamespaceConfig.v
Ingest.v
Objects.v
Catalog.v
CatalogList.v
IdMap.v
RepairStore.v
Repair.v
RepairSafety.v
Strategy.v
Embedder.v
EmbedderFacts.v
EmbedderRecovery.v
Scoring.v
Recommend.v
ServingSamples.v
RecommendFacts.v
RecommendExclusion.v
RankFacts.v
ComputeVectors.v
Cooccurrence.v
VectorFacts.v
Recompute.v
RecomputeFacts.v
RecomputeExact.v
DenseTraining.v
DensePhase.v
ComputeJob.v
JobFrames.v
JobFacts.v
TickFacts.v
DenseFacts.v
EmbedWire.v
NsConfig.v
NsConfiguration.v
NsConfigRules.v
NsConfigFacts.v
NsConfigSamples.v
NsConfigWrites.v
NsPatchFacts.v
NsPatch.v
Access.v
AccessRules.v
AccessFacts.v
AccessSafety.v
AccessLogin.v
Auth.v
Identity.v
IdentityFacts.v
CatalogOps.v
CatalogOpsFacts.v
