(* ===== verification/Prelude.v ===== *)
(** * Codohue: a verification library

    Codohue is a recommendation service in Go: clients send behavioural events
    and catalog items, cron and an embedder derive vectors and trending lists,
    and the data plane serves recommendations per namespace. PostgreSQL holds
    the rows and the lifecycle ledger, Redis streams, trending sets and caches,
    Qdrant the vectors. This library models the parts that keep that data
    correct and proves what they promise. This file is the prelude: the effect
    monad, Go errors, and the lemmas and tactics every component shares.

    ** How the code is modelled

    A Go function that touches a store is a function in the state monad [M W A]
    on a world [World X]: the lifecycle ledger, the clock, the advisory locks,
    a script of failures, and the component's own stores in [w_ext]. Every call
    to a store first takes one bit from the script, so a theorem about all
    worlds is a theorem about every pattern of failures; an empty script is a
    run in which nothing fails ("calm"). A Go [error] is the list of sentinels
    [errors.Is] finds in it, [nil] being the empty list; a panic is the sentinel
    [ErrPanic]. Integers keep their width where overflow is reachable, doubles
    are IEEE binary64 ([SpecFloat]), strings are byte strings, instants are
    nanoseconds. Loops are structural where the Go loop is over a slice; loops
    that wait for another party or page through a store run on fuel, and the
    termination theorems say how much is enough. Go maps are [gmap] and
    [gset], whose order no result depends on.

    ** Parts, files and sources

    Namespace lifecycle ([internal/core/nslifecycle]): [NsNames] (names.go,
    incarnation.go), [NsLedger] (the statements of repository.go on a ledger),
    [NsService] (service.go: the advisory locks, writer, exclusive and global
    sections), [Hoare] (a program logic for what runs inside a writer section),
    [NsFencing] (interleavings of sections as a step relation on the statements
    of the sections, one read or write each; [WithWriter_steps] and
    [WithNamespaceExclusive_steps] tie it to [NsService]),
    [Janitor] (janitor.go, behind an interface for the physical cleaner).

    Stores and their cleaning: [Stores] (tables, Redis keys, collections and
    compute locks as one state; cmd/cron/generation_cleaner.go, which implements
    the janitor's interface; the admin repository's deletions), [ComputeLocks]
    (the compute locks of internal/compute), [Wipe], [AdminLifecycle] and
    [AdminReset] (internal/admin/service.go: namespace deletion, application
    reset, demo cleanup).

    Streams: [RedisStream] (the commands of the server), [StreamRetention]
    (internal/infra/redis/retention.go), [StreamConsumer] (stream_consumer.go).

    Ingest: [NamespaceConfig], [Ingest] (internal/ingest: service, worker, tail
    publisher), [Objects] (internal/objects), [Catalog] and [CatalogList]
    (internal/catalog and the catalog worker). [Utf8], [Keyset], [Float64] and
    [GoLib] hold what they use of Go's library.

    Embedding ([internal/embedder], [internal/core/embedstrategy]): [Strategy]
    (registry, tokenizer and the hashing strategy, on IEEE binary32),
    [Embedder] (repository, service, worker, recovery sweeper, re-embed
    watcher), [EmbedderFacts] and [EmbedderRecovery]. [CatalogOps] and
    [CatalogOpsFacts] (internal/admin/catalog_ops_*.go) are the operator's side:
    re-embedding, redriving and deleting items on the same stores.

    Id mapping: [IdMap] (internal/core/idmap repository and service, against a
    table other processes change), [RepairStore], [Repair] and [RepairSafety]
    (the id mapping repair and its Qdrant point mover).

    Serving ([internal/recommend]): [Scoring] (the pure scoring, blending and
    paging), [Recommend] (service, repository, stores), [ServingSamples]
    (instances of its interfaces), [RecommendFacts], [RecommendExclusion] and
    [RankFacts].

    Batch compute ([internal/compute]): [ComputeVectors] (decay, sparse vectors
    and the co-occurrence matrix), [Cooccurrence] and [VectorFacts] (what they
    compute), [Recompute] (service.go and the vector writes of the sparse phase;
    an operator who cancels runs is the script [cp_operators]), [RecomputeFacts]
    and [RecomputeExact], [DenseTraining] (item2vec and SVD on IEEE doubles),
    [DensePhase] and [DenseFacts] (phase 2), [ComputeJob] (job.go and the run log:
    phases, locks, ticks, cancellation), [JobFrames], [JobFacts] and [TickFacts].
    [EmbedWire] is the stream entry from the catalog service to the embedder.

    Configuration ([internal/nsconfig], [internal/core/namespace]): [NsConfig]
    (types.go, validate.go, repository.go, service.go and the dense collection
    checker of cmd/admin; a race with other processes is the script
    [nc_others]), [NsConfiguration] (configuration_repository.go and
    configuration_service.go: groups, revisions and conditional patches),
    [NsConfigRules], [NsConfigFacts] and [NsConfigWrites] (upserts, keys and
    provisioning), [NsPatchFacts] and [NsPatch] (patches), [NsConfigSamples].

    Access ([internal/core/access], [internal/auth], the identity boundary of
    [internal/admin]): [Access] (types.go, repository.go: accounts, sessions,
    service tokens, attempt buckets and the audit log, at READ COMMITTED; other
    replicas are the script [ax_others] of what they commit before each
    statement, inside transactions too, except what waits for a lock the open
    transaction holds), [AccessRules] and [AccessFacts] (whatever an operation
    does is a sequence of such committed actions), [AccessSafety] (any schedule of
    calls), [AccessLogin] (guesses and sessions), [Auth] (auth.go,
    observability.go, cmd/api/paused.go: namespace keys, the negative cache and
    the pause guard), [Identity] and [IdentityFacts] (identity.go).

    Interfaces are type classes: the physical cleaner of the janitor, the object
    table that [Objects] shares with [Catalog], the collation of the database,
    [GoSort], [GoMath], [GoPow], [GoRand], [GoRange] and [GoRangeStrings] for
    Go's library and the order in which it walks a map, [GonumSVD] for the
    factorisation, [VectorSearch], [Popularity] (a ranking for each limit, since
    ties may be broken differently) and [SqlOrder] for what Qdrant and
    PostgreSQL answer, [RepairDigests] (SHA-256 and the text forms of protobuf
    values, in [HashPayload] and [HashVectors]), [Bcrypt] (a hash matches its
    password), [CryptoRand], [ProvisionDigest], [GoFmt] and [StringRange] for
    what the configuration service uses of its libraries, [Sha256] and [GoNet]
    (net, net/netip, net/url) for what authentication does.

    ** What the theorems show

    Fencing: in every interleaving a writer section excludes deletions of its
    namespace and resets, and holds a lease of the active generation; a retired
    generation never comes back; the sections fail closed and release their
    locks; physical names of different generations differ.

    Destruction: deletion and reset, under every failure pattern, touch no row
    they do not own and no key or collection without a physical name of theirs,
    remove nothing before the fence is durable, and report completion only over
    empty stores; retried without failures they complete. The janitor reclaims
    every superseded generation in a bounded number of passes when nothing
    fails. Physical names of two namespaces can coincide when one of them ends
    like a generation token; examples show what is lost then. The compute locks
    exclude as documented and never leak.

    Streams: retention trims only what every group has acknowledged, and fails
    closed; reclaiming reaches every pending entry.

    Ingest: events and catalog items are stored once and whole or not at all,
    but for a catalog row whose work item could not be published, which is
    reported; an entry is acknowledged only when it is settled; sanitised text is
    storable; reconciliation pages list every object once and end.

    Embedding: an item reported embedded has its vector in the collection of the
    active generation; an entry is acknowledged only when its item is settled,
    or, which is a defect, when the writer section refused; a failing item is
    dead-lettered exactly when its attempts exceed the limit or the failure is
    terminal; the sweeper republishes exactly the oldest stranded rows and the
    watcher closes exactly the finished runs. A re-embed starts whole or not at
    all and its run stays open while a row it reset waits; deleting an item
    leaves no point behind. Two examples show races the code does not exclude:
    two replicas both start a run, and an item in flight under the old strategy
    escapes a re-embed.

    Id mapping: concurrent batch upserts agree on one id; applying a repair loses
    no vector when identities share no place, the rebuild leaves the copied
    collections alone and digests do not collide, and an example shows the first
    condition is needed.

    Serving: every response is a well-formed page, and only undegraded responses
    reach the cache; fallbacks page exactly through one list; where the
    namespace excludes them, the newest authored objects are never recommended;
    ranking returns exactly the caller's candidates; object deletion and
    embedding writes change exactly what they should.

    Batch compute: a run's row is closed with what really happened, a cancelled
    run writes no vector, and a tick closes one row per scheduled namespace. The
    sparse and the dense phase leave exactly the vectors of the events they
    read, and under failures remove only points the events no longer speak of;
    co-occurrence in budgeted passes is the matrix of one pass; training indexes
    in range and ends. Scrolling for stale points takes one page more than
    points at most, negative sampling one probe per table slot; both are the
    fuel given.

    Configuration: an upsert writes exactly the fields it names, or leaves no
    half-written row; a key that was handed out opens the namespace, whoever
    raced for it; provisioning can be retried and never overwrites. A patch
    changes only the fields it names and only from the generation and revision
    its author saw, an outdated one is answered with the current values, and the
    shape of existing dense collections is never edited.

    Access: an enabled owner always remains; an account change ends every
    session, login and pending issue that rested on the earlier state; a revoked
    token stays dead and the streams it opened are closed at the next check; an
    address tries at most ten passwords a minute, and cannot choose the address
    it is counted under; a session stands for the login that created it. Whoever
    reaches an admin handler was identified, authorised and recorded; whoever
    reaches a namespace holds a credential for it, and the cache of rejected
    credentials changes an answer only within thirty seconds of a change of key.

    ** Not modelled

    HTTP routing and JSON codecs, metrics, logs and tracing; process wiring and
    shutdown; the admin dashboards and live streams, which only read; the Go SDK.
    The in-memory sessions and rate limiter of handlers without an identity store
    are left out, since production never uses them, and of a cookie only its
    value is kept. Of the batch job, the ticker and the Redis run observer are
    left out. The size and distance of a dense collection are recorded by the
    embedder; the batch job ([DensePhase]) and the client's embeddings
    ([Recommend]) create collections without them, so a write they make is not
    refused for its size. A configuration value is compared decoded, not by its
    spelling ([NsConfiguration]). The others' transactions on the identity store
    are single actions at their commit, which is what [AccessRules] shows of this
    process's own. Goroutines are modelled where their
    interleaving matters (sections, streams, id mappings, the embedder's stores,
    the identity store, the negative cache) and run in program order elsewhere. *)

From stdpp Require Import base tactics gmap strings list pretty.
From Stdlib Require Import ZArith Lia.

(** ** Effects

    Stateful Go code is modelled by explicit state passing: [M W A] runs in a
    world [W] and returns a Go result of type [A] together with the world it
    leaves behind. *)

Definition M (W A : Type) : Type := W → A * W.

Definition ret {W A} (a : A) : M W A := λ w, (a, w).
Definition bind {W A B} (m : M W A) (k : A → M W B) : M W B := λ w, let r := m w in k r.1 r.2.

Declare Scope go_scope.
Delimit Scope go_scope with go.
Notation "'let!' x ':=' m 'in' k" := (bind m (λ x, k))
  (at level 10, x name, m at level 100, k at level 200) : go_scope.
Notation "'let!' ' p ':=' m 'in' k" := (bind m (λ x, match x with p => k end))
  (at level 10, p pattern, m at level 100, k at level 200) : go_scope.
Notation "m ;;! k" := (bind m (λ _, k))
  (at level 199, k at level 200, right associativity) : go_scope.
Open Scope go_scope.

Definition get {W} : M W W := λ w, (w, w).
Definition put {W} (w : W) : M W () := λ _, (tt, w).
Definition modify {W} (f : W → W) : M W () := λ w, (tt, f w).
Definition gets {W A} (f : W → A) : M W A := λ w, (f w, w).

Lemma bind_run {W A B} (m : M W A) (k : A → M W B) w :
  bind m k w = k (m w).1 (m w).2.
Proof. reflexivity. Qed.

(** ** Go errors

    A Go [error] is the set of sentinels [errors.Is] finds in it: [nil] is
    the empty list, [errors.Join] is concatenation, and wrapping with [%w]
    keeps the list. Message texts are not modelled. *)

Section errors.
Context {S : Type} `{EqDecision S}.

Definition nil_err (e : list S) : bool := match e with [] => true | _ => false end.
Definition errors_join (e1 e2 : list S) : list S := e1 ++ e2.
Definition errors_is (e : list S) (s : S) : bool := bool_decide (s ∈ e).

Lemma errors_is_join e1 e2 s :
  errors_is (errors_join e1 e2) s = errors_is e1 s || errors_is e2 s.
Proof.
  unfold errors_is, errors_join. rewrite <- bool_decide_or.
  apply bool_decide_ext. apply elem_of_app.
Qed.

Lemma errors_join_nil e1 e2 : errors_join e1 e2 = [] ↔ e1 = [] ∧ e2 = [].
Proof. unfold errors_join. destruct e1, e2; naive_solver. Qed.
End errors.

(** The sentinels of the repository, by name; [ErrDriver] stands for a failure
    a database, Redis or Qdrant client reports. *)
Definition error : Type := list string.
Definition ErrDriver : string := "driver".

(** A Go panic that unwinds the request. *)
Definition ErrPanic : string := "panic".

(** ** Machine integers *)

Definition max_int64 : Z := 2 ^ 63 - 1.
Definition max_uint64 : Z := 2 ^ 64 - 1.
Definition in_int64 (z : Z) : Prop := (- 2 ^ 63 <= z <= max_int64)%Z.

(** Reinterpretation of a 64-bit pattern as a signed integer ([int64(x)]). *)
Definition to_int64 (z : Z) : Z :=
  let u := (z mod 2 ^ 64)%Z in if (u <? 2 ^ 63)%Z then u else (u - 2 ^ 64)%Z.

Lemma to_int64_range z : in_int64 (to_int64 z).
Proof.
  unfold in_int64, to_int64, max_int64.
  pose proof (Z.mod_pos_bound z (2 ^ 64) ltac:(lia)).
  destruct (Z.ltb_spec (z mod 2 ^ 64)%Z (2 ^ 63)); lia.
Qed.

Lemma to_int64_inj x y :
  (0 <= x < 2 ^ 64)%Z → (0 <= y < 2 ^ 64)%Z → to_int64 x = to_int64 y → x = y.
Proof.
  intros Hx Hy. unfold to_int64.
  rewrite !Z.mod_small by lia.
  destruct (Z.ltb_spec x (2 ^ 63)), (Z.ltb_spec y (2 ^ 63)); lia.
Qed.

(** ** External faults

    Every call that leaves the process (a PostgreSQL statement, a Redis or
    Qdrant command) may fail. A world carries a script of outcomes: each call
    consumes one entry, [true] meaning that the call fails; an exhausted
    script means that nothing fails any more. Quantifying over the script
    quantifies over every failure pattern. *)

Class Faulty (W : Type) := {
  faults : W → list bool;
  set_faults : list bool → W → W;
  faults_set : ∀ l w, faults (set_faults l w) = l;
}.

Definition pop_fault `{Faulty W} : M W bool := λ w,
  match faults w with
  | [] => (false, w)
  | b :: l => (b, set_faults l w)
  end.

Lemma pop_fault_nil `{Faulty W} w : faults w = [] → pop_fault w = (false, w).
Proof. intros H0. unfold pop_fault. by rewrite H0. Qed.

(** ** Lists *)

Lemma list_filter_all {A} (P : A → Prop) `{∀ x, Decision (P x)} (l : list A) :
  (∀ x, x ∈ l → P x) → filter P l = l.
Proof.
  induction l as [|x l IH]; intros Hl; [done|].
  rewrite filter_cons_True by (apply Hl; set_solver). f_equal. apply IH. set_solver.
Qed.

Lemma list_filter_none {A} (P : A → Prop) `{∀ x, Decision (P x)} (l : list A) :
  (∀ x, x ∈ l → ¬ P x) → filter P l = [].
Proof.
  induction l as [|x l IH]; intros Hl; [done|].
  rewrite filter_cons_False by (apply Hl; set_solver). apply IH. set_solver.
Qed.

(** ** Automation *)

Create HintDb codohue.

(** Step through monadic code without unfolding the operations it calls. *)
Ltac go := cbn [fst snd nil_err negb ret bind].

(** [split_if] destructs the conditionals of a hypothesis or the goal, keeping
    the equations. *)
Ltac split_if_in H :=
  match type of H with
  | context [if ?b then _ else _] => destruct b eqn:?
  | context [match ?x with _ => _ end] => destruct x eqn:?
  end.

Ltac split_if :=
  match goal with
  | |- context [if ?b then _ else _] => destruct b eqn:?
  | |- context [match ?x with _ => _ end] => destruct x eqn:?
  end.

(** Turn the boolean tests the code performs into propositions. *)
Ltac btests :=
  repeat match goal with
  | H : (_ =? _)%Z = true |- _ => apply Z.eqb_eq in H
  | H : (_ =? _)%Z = false |- _ => apply Z.eqb_neq in H
  | H : (_ <? _)%Z = true |- _ => apply Z.ltb_lt in H
  | H : (_ <? _)%Z = false |- _ => apply Z.ltb_ge in H
  | H : (_ <=? _)%Z = true |- _ => apply Z.leb_le in H
  | H : (_ <=? _)%Z = false |- _ => apply Z.leb_gt in H
  | H : (_ && _) = true |- _ => apply andb_true_iff in H; destruct H
  | H : (_ || _) = false |- _ => apply orb_false_iff in H; destruct H
  | H : bool_decide _ = true |- _ => apply bool_decide_eq_true in H
  | H : bool_decide _ = false |- _ => apply bool_decide_eq_false in H
  | H : negb _ = true |- _ => apply negb_true_iff in H
  | H : negb _ = false |- _ => apply negb_false_iff in H
  end.
