(* ===== verification/GoLib.v ===== *)
(** * The parts of Go's standard library the modelled code calls

    [fmt]'s and [strconv]'s decimal conversions, [strings.Cut] and
    [strings.Contains], the raw-URL alphabet of [encoding/base64],
    [hash/fnv]'s 64-bit FNV-1a and [unicode/utf8]'s validity. Go strings are
    byte sequences, modelled by [string]. *)

From stdpp Require Import base tactics strings list pretty.
From Stdlib Require Import ZArith Ascii Lia.
From S2P Require Import Prelude.

(** ** Strings *)

Lemma string_app_inj_l (p s t : string) : p +:+ s = p +:+ t → s = t.
Proof. apply (inj (String.append p)). Qed.

Lemma string_app_cons c (s t : string) : String c s +:+ t = String c (s +:+ t).
Proof. done. Qed.

Lemma string_app_nil_l (t : string) : "" +:+ t = t.
Proof. done. Qed.

Lemma string_app_assoc (s t u : string) : s +:+ (t +:+ u) = (s +:+ t) +:+ u.
Proof. induction s as [|c s IH]; [done|]. by rewrite !string_app_cons, IH. Qed.

Lemma string_app_nil_r (s : string) : s +:+ "" = s.
Proof. induction s as [|c s IH]; [done|]. by rewrite !string_app_cons, IH. Qed.

(** The characters of a string satisfy [P]. *)
Fixpoint str_all (P : ascii → bool) (s : string) : bool :=
  match s with
  | EmptyString => true
  | String c s' => P c && str_all P s'
  end.

Lemma str_all_app P s t : str_all P (s +:+ t) = str_all P s && str_all P t.
Proof.
  induction s as [|c s IH]; [done|]. rewrite string_app_cons. simpl. rewrite IH.
  apply andb_assoc.
Qed.

(** Two strings that agree after prefixes free of the separator [sep]
    have equal prefixes and equal tails. *)
Lemma string_split_unique (sep : ascii) (s1 s2 t1 t2 : string) :
  str_all (λ c, negb (bool_decide (c = sep))) s1 →
  str_all (λ c, negb (bool_decide (c = sep))) s2 →
  s1 +:+ String sep t1 = s2 +:+ String sep t2 → s1 = s2 ∧ t1 = t2.
Proof.
  revert s2.
  induction s1 as [|c s1 IH]; intros [|c2 s2]; rewrite ?string_app_cons, ?string_app_nil_l; simpl.
  - intros _ _ [= ->]. done.
  - intros _ H2 [= -> _]. rewrite bool_decide_true in H2 by done. done.
  - intros H1 _ [= -> _]. rewrite bool_decide_true in H1 by done. done.
  - intros [_ H1]%andb_True [_ H2]%andb_True [= -> H].
    destruct (IH s2 H1 H2 H) as [-> ->]. done.
Qed.

(** [strings.Cut s "-"]. *)
Fixpoint cut_dash (s : string) : option (string * string) :=
  match s with
  | EmptyString => None
  | String c s' =>
      if bool_decide (c = "-"%char) then Some ("", s')
      else '(a, b) ← cut_dash s'; Some (String c a, b)
  end.

Lemma cut_dash_app a b :
  str_all (λ c, negb (bool_decide (c = "-"%char))) a →
  cut_dash (a +:+ String "-" b) = Some (a, b).
Proof.
  induction a as [|c a IH]; intros Ha.
  - done.
  - rewrite string_app_cons. simpl in Ha |- *. apply andb_True in Ha as [Hc Ha].
    case_bool_decide; [done|]. by rewrite IH.
Qed.

(** [strings.Contains s sub]. *)
Fixpoint str_contains (s sub : string) : bool :=
  String.prefix sub s ||
  match s with
  | EmptyString => false
  | String _ s' => str_contains s' sub
  end.

(** ** Decimal integers *)

(** [fmt.Sprintf("%d", z)] *)
Definition itoa (z : Z) : string := pretty z.

Definition is_digit (c : ascii) : bool :=
  let n := N_of_ascii c in (48 <=? n)%N && (n <=? 57)%N.

Definition digit_val (c : ascii) : Z := (Z.of_N (N_of_ascii c) - 48)%Z.

Fixpoint parse_digits (s : string) (acc : Z) : option Z :=
  match s with
  | EmptyString => Some acc
  | String c s' =>
      if is_digit c then
        let acc' := (acc * 10 + digit_val c)%Z in
        if (max_uint64 <? acc')%Z then None else parse_digits s' acc'
      else None
  end.

(** [strconv.ParseUint(s, 10, 64)], [None] for either error. *)
Definition parse_uint (s : string) : option Z :=
  match s with
  | EmptyString => None
  | _ => parse_digits s 0
  end.

Lemma pretty_N_char_digit n :
  (n < 10)%N → is_digit (pretty_N_char n) = true ∧ digit_val (pretty_N_char n) = Z.of_N n.
Proof.
  intros Hn. assert (n = 0 ∨ n = 1 ∨ n = 2 ∨ n = 3 ∨ n = 4 ∨ n = 5 ∨ n = 6 ∨ n = 7
    ∨ n = 8 ∨ n = 9)%N as Hc by lia.
  repeat (destruct Hc as [-> | Hc]; [done|]). by subst.
Qed.

Lemma pretty_N_go_ind (P : N → string → string → Prop) :
  (∀ s, P 0%N s s) →
  (∀ x s r, (0 < x)%N →
     P (x `div` 10)%N (String (pretty_N_char (x `mod` 10)) s) r → P x s r) →
  ∀ x s, P x s (pretty_N_go x s).
Proof.
  intros H0 Hs x. induction (N.lt_wf_0 x) as [x _ IH]; intros s.
  destruct (decide (x = 0)%N) as [-> | Hne]; [apply H0|].
  rewrite pretty_N_go_step by lia. apply Hs; [lia|].
  apply IH. apply N.div_lt; lia.
Qed.

Lemma parse_digits_go x s :
  (Z.of_N x <= max_uint64)%Z →
  parse_digits (pretty_N_go x s) 0 = parse_digits s (Z.of_N x).
Proof.
  revert x s. apply (pretty_N_go_ind
    (λ x s r, (Z.of_N x <= max_uint64)%Z → parse_digits r 0 = parse_digits s (Z.of_N x))).
  - done.
  - intros x s r Hx IH Hle.
    assert (x `mod` 10 < 10)%N as Hm by (apply N.mod_lt; lia).
    rewrite IH by (rewrite N2Z.inj_div; unfold max_uint64 in *; Z.to_euclidean_division_equations; lia).
    destruct (pretty_N_char_digit _ Hm) as [Hd Hv]. cbn [parse_digits]. rewrite Hd, Hv.
    assert (Z.of_N (x `div` 10) * 10 + Z.of_N (x `mod` 10) = Z.of_N x)%Z as ->
      by (rewrite N2Z.inj_div, N2Z.inj_mod; Z.to_euclidean_division_equations; lia).
    destruct (Z.ltb_spec max_uint64 (Z.of_N x)); [lia|done].
Qed.

Lemma pretty_N_go_all (P : ascii → bool) x s :
  (∀ n, (n < 10)%N → P (pretty_N_char n)) → str_all P s → str_all P (pretty_N_go x s).
Proof.
  intros HP. revert x s. apply (pretty_N_go_ind (λ x s r, str_all P s → str_all P r)).
  - done.
  - intros x s r Hx IH Hs. apply IH. simpl. apply andb_True. split; [|done].
    apply HP, N.mod_lt. lia.
Qed.

Lemma itoa_pos_all (P : ascii → bool) z :
  (0 <= z)%Z → (∀ n, (n < 10)%N → P (pretty_N_char n)) → str_all P (itoa z).
Proof.
  intros Hz HP. unfold itoa, pretty, pretty_Z. destruct z as [|p|p]; [|..|lia].
  - simpl. specialize (HP 0%N ltac:(lia)). simpl in HP. by destruct (P "0"%char).
  - unfold pretty, pretty_positive, pretty, pretty_N. rewrite decide_False by done.
    by apply pretty_N_go_all.
Qed.

Lemma itoa_no_char c z :
  (0 <= z)%Z → is_digit c = false → str_all (λ c', negb (bool_decide (c' = c))) (itoa z).
Proof.
  intros Hz Hc. apply itoa_pos_all; [done|]. intros n Hn.
  case_bool_decide as E; [|done]. subst c.
  by rewrite (proj1 (pretty_N_char_digit n Hn)) in Hc.
Qed.

Lemma itoa_inj x y : itoa x = itoa y → x = y.
Proof. apply (inj (pretty (A := Z))). Qed.

Lemma pretty_N_go_empty x s : pretty_N_go x s = "" → x = 0%N ∧ s = "".
Proof.
  revert x s. apply (pretty_N_go_ind (λ x s r, r = "" → x = 0%N ∧ s = "")); [done|].
  intros x s r Hx IH Hr. by destruct (IH Hr).
Qed.

Lemma itoa_pos p : itoa (Z.pos p) = pretty_N_go (N.pos p) "".
Proof. done. Qed.

Lemma itoa_not_empty z : itoa z ≠ "".
Proof.
  destruct z as [|p|p]; [done| |done]. rewrite itoa_pos.
  intros [H _]%pretty_N_go_empty. done.
Qed.

(** Decimal printing and parsing are inverse on [uint64]. *)
Lemma parse_uint_itoa z : (0 <= z <= max_uint64)%Z → parse_uint (itoa z) = Some z.
Proof.
  intros Hz. pose proof (itoa_not_empty z) as Hne.
  assert (parse_digits (itoa z) 0 = Some z) as H.
  { destruct z as [|p|p]; [done| |lia].
    rewrite itoa_pos, parse_digits_go by (simpl; lia). done. }
  unfold parse_uint. by destruct (itoa z).
Qed.

Lemma parse_digits_bound s acc z :
  (0 <= acc <= max_uint64)%Z → parse_digits s acc = Some z → (0 <= z <= max_uint64)%Z.
Proof.
  revert acc. induction s as [|c s IH]; simpl; intros acc Hacc H; [naive_solver|].
  destruct (is_digit c) eqn:Hd; [|done].
  destruct (Z.ltb_spec max_uint64 (acc * 10 + digit_val c)); [done|].
  eapply IH; [|exact H]. unfold is_digit, digit_val in *.
  apply andb_true_iff in Hd as [?%N.leb_le ?%N.leb_le]. lia.
Qed.

Lemma parse_uint_bound s z : parse_uint s = Some z → (0 <= z <= max_uint64)%Z.
Proof.
  unfold parse_uint. destruct s; [done|]. apply parse_digits_bound. unfold max_uint64. lia.
Qed.

(** ** Bytes *)

(** [[]byte(s)], each byte a number below 256. *)
Fixpoint bytes_of (s : string) : list N :=
  match s with
  | EmptyString => []
  | String c s' => N_of_ascii c :: bytes_of s'
  end.

(** [string(b)] *)
Fixpoint string_of (l : list N) : string :=
  match l with
  | [] => EmptyString
  | b :: l' => String (ascii_of_N b) (string_of l')
  end.

Definition is_bytes (l : list N) : Prop := Forall (λ b, b < 256)%N l.

Lemma bytes_of_is_bytes s : is_bytes (bytes_of s).
Proof. induction s; simpl; constructor; [apply N_ascii_bounded|done]. Qed.

Lemma string_of_bytes_of s : string_of (bytes_of s) = s.
Proof. induction s as [|c s IH]; simpl; [done|]. by rewrite ascii_N_embedding, IH. Qed.

Lemma bytes_of_string_of l : is_bytes l → bytes_of (string_of l) = l.
Proof. induction 1 as [|b l Hb _ IH]; simpl; [done|]. by rewrite N_ascii_embedding, IH. Qed.

Lemma bytes_of_app s t : bytes_of (s +:+ t) = bytes_of s ++ bytes_of t.
Proof. induction s as [|c s IH]; [done|]. rewrite string_app_cons. simpl. by rewrite IH. Qed.

Lemma bytes_of_inj s t : bytes_of s = bytes_of t → s = t.
Proof. intros H. by rewrite <- (string_of_bytes_of s), H, string_of_bytes_of. Qed.

(** ** [encoding/hex] *)

Definition hex_digit (v : N) : N := if (v <? 10)%N then (48 + v)%N else (87 + v)%N.

Definition EncodeToString (raw : list N) : string :=
  string_of (mjoin ((λ b, [hex_digit (b / 16); hex_digit (b mod 16)]%N) <$> raw)).

Lemma hex_digit_byte v : (v < 16 → hex_digit v < 256)%N.
Proof. unfold hex_digit. destruct (N.ltb_spec v 10); lia. Qed.

Lemma hex_digit_inj v v' : (v < 16 → v' < 16 → hex_digit v = hex_digit v' → v = v')%N.
Proof. unfold hex_digit. destruct (N.ltb_spec v 10), (N.ltb_spec v' 10); lia. Qed.

Lemma EncodeToString_inj l l' : is_bytes l → is_bytes l' → EncodeToString l = EncodeToString l' → l = l'.
Proof.
  set (enc := λ l : list N, mjoin ((λ b, [hex_digit (b / 16); hex_digit (b mod 16)]%N) <$> l)).
  assert (∀ b, (b < 256 → b / 16 < 16 ∧ b mod 16 < 16)%N) as Hr.
  { intros b Hb. split; [apply N.Div0.div_lt_upper_bound; lia|by apply N.mod_lt]. }
  assert (∀ l, is_bytes l → is_bytes (enc l)) as Hb.
  { induction 1 as [|b k Hk _ IH]; [constructor|]. destruct (Hr b Hk). by repeat constructor; [apply hex_digit_byte..|]. }
  intros Hl Hl' He. change (string_of (enc l) = string_of (enc l')) in He. apply (f_equal bytes_of) in He.
  rewrite !bytes_of_string_of in He by auto. revert l' Hl' He. induction Hl as [|b l Hb1 Hl IH]; intros [|b' l'] Hl' He; try done.
  apply Forall_cons in Hl' as [Hb2 Hl']. injection He as H1 H2 He. destruct (Hr b Hb1), (Hr b' Hb2).
  apply hex_digit_inj in H1, H2; [|done..]. f_equal; [|by apply IH].
  rewrite (N.div_mod b 16), (N.div_mod b' 16) by done. congruence.
Qed.

(** ** [base64.RawURLEncoding] *)

Definition b64_alphabet : list ascii :=
  String.list_ascii_of_string
    "ABCDEFGHIJKLMNOPQRSTUVWXYZabcdefghijklmnopqrstuvwxyz0123456789-_".

Definition b64_char (v : N) : ascii := default zero (b64_alphabet !! N.to_nat v).

Definition b64_val (c : ascii) : option N :=
  N.of_nat ∘ fst <$> list_find (c =.) b64_alphabet.

Fixpoint b64_enc (l : list N) : list N :=
  match l with
  | [] => []
  | [a] => [a / 4; (a mod 4) * 16]
  | [a; b] => [a / 4; (a mod 4) * 16 + b / 16; (b mod 16) * 4]
  | a :: b :: c :: r =>
      a / 4 :: (a mod 4) * 16 + b / 16 :: (b mod 16) * 4 + c / 64 :: c mod 64 :: b64_enc r
  end%N.

Fixpoint b64_dec (l : list N) : option (list N) :=
  match l with
  | [] => Some []
  | [_] => None
  | [a; b] => Some [a * 4 + b / 16]
  | [a; b; c] => Some [a * 4 + b / 16; (b mod 16) * 16 + c / 4]
  | a :: b :: c :: d :: r =>
      r' ← b64_dec r;
      Some (a * 4 + b / 16 :: (b mod 16) * 16 + c / 4 :: (c mod 4) * 64 + d :: r')
  end%N.

(** [EncodeToString] and [DecodeString]; decoding skips CR and LF. *)
Definition b64_encode (s : string) : string :=
  String.string_of_list_ascii (b64_char <$> b64_enc (bytes_of s)).

Definition b64_decode (s : string) : option string :=
  vals ← mapM b64_val
    (filter (λ c, c ≠ "010"%char ∧ c ≠ "013"%char) (String.list_ascii_of_string s));
  string_of <$> b64_dec vals.

Lemma list_ind3 {A} (P : list A → Prop) :
  P [] → (∀ a, P [a]) → (∀ a b, P [a; b]) →
  (∀ a b c r, P r → P (a :: b :: c :: r)) → ∀ l, P l.
Proof.
  intros H0 H1 H2 H3. fix IH 1. intros [|a [|b [|c r]]]; [done|done|done|]. apply H3, IH.
Qed.

Lemma b64_enc_range l : is_bytes l → Forall (λ v, v < 64)%N (b64_enc l).
Proof.
  unfold is_bytes. induction l as [|a|a b|a b c r IH] using list_ind3;
    intros Hl; decompose_Forall; simpl; repeat constructor; auto;
    Z.to_euclidean_division_equations; try lia.
  all: zify; Z.to_euclidean_division_equations; lia.
Qed.

Lemma b64_dec_enc l : is_bytes l → b64_dec (b64_enc l) = Some l.
Proof.
  unfold is_bytes. induction l as [|a|a b|a b c r IH] using list_ind3;
    intros Hl; decompose_Forall; simpl; auto.
  3: rewrite IH by done; simpl.
  all: repeat f_equal; zify; Z.to_euclidean_division_equations; lia.
Qed.

Lemma b64_table_ok :
  forallb (λ n : nat, let v := N.of_nat n in
    bool_decide (b64_val (b64_char v) = Some v) &&
    bool_decide (b64_char v ≠ "010"%char ∧ b64_char v ≠ "013"%char)) (seq 0 64) = true.
Proof. vm_compute. done. Qed.

Lemma b64_val_char v : (v < 64)%N →
  b64_val (b64_char v) = Some v ∧ b64_char v ≠ "010"%char ∧ b64_char v ≠ "013"%char.
Proof.
  intros Hv. pose proof b64_table_ok as Ht. rewrite forallb_forall in Ht.
  specialize (Ht (N.to_nat v)). rewrite in_seq, N2Nat.id in Ht.
  specialize (Ht ltac:(lia)). cbv zeta in Ht.
  apply andb_true_iff in Ht as [H1%bool_decide_eq_true H2%bool_decide_eq_true]. tauto.
Qed.

Lemma b64_roundtrip s : b64_decode (b64_encode s) = Some s.
Proof.
  unfold b64_decode, b64_encode. rewrite String.list_ascii_of_string_of_list_ascii.
  pose proof (b64_enc_range _ (bytes_of_is_bytes s)) as Hr.
  assert (filter (λ c, c ≠ "010"%char ∧ c ≠ "013"%char) (b64_char <$> b64_enc (bytes_of s))
          = b64_char <$> b64_enc (bytes_of s)) as ->.
  { apply list_filter_all. intros c (v & -> & Hv)%list_elem_of_fmap.
    rewrite Forall_forall in Hr. by apply b64_val_char, Hr. }
  assert (mapM b64_val (b64_char <$> b64_enc (bytes_of s)) = Some (b64_enc (bytes_of s))) as ->.
  { apply mapM_Some. induction Hr; simpl; constructor; [by apply b64_val_char|done]. }
  simpl. rewrite b64_dec_enc by apply bytes_of_is_bytes. simpl. by rewrite string_of_bytes_of.
Qed.

Lemma b64_encode_inj s t : b64_encode s = b64_encode t → s = t.
Proof. intros H. pose proof (b64_roundtrip s). rewrite H, b64_roundtrip in *. congruence. Qed.

(** Encoded text consists of letters of the alphabet. *)
Lemma b64_encode_all (P : ascii → bool) s :
  forallb (λ n : nat, P (b64_char (N.of_nat n))) (seq 0 64) = true → str_all P (b64_encode s) = true.
Proof.
  intros Ht. unfold b64_encode. pose proof (b64_enc_range _ (bytes_of_is_bytes s)) as Hr.
  induction Hr as [|v l Hv Hr IH]; [done|]. simpl. apply andb_true_iff. split; [|done].
  rewrite forallb_forall in Ht. specialize (Ht (N.to_nat v)). rewrite in_seq, N2Nat.id in Ht. apply Ht. lia.
Qed.

(** ** [hash/fnv]: 64-bit FNV-1a *)

Definition fnv64_offset : Z := 14695981039346656037.
Definition fnv64_prime : Z := 1099511628211.

Definition fnv64a (l : list N) : Z :=
  fold_left (λ h b, (Z.lxor h (Z.of_N b) * fnv64_prime) mod 2 ^ 64)%Z l fnv64_offset.

Lemma fnv64a_range l : (0 <= fnv64a l < 2 ^ 64)%Z.
Proof.
  unfold fnv64a. set (h := fnv64_offset). assert (0 <= h < 2 ^ 64)%Z as Hh by done.
  clearbody h. revert h Hh. induction l as [|b l IH]; simpl; intros h Hh; [done|].
  apply IH, Z.mod_pos_bound. lia.
Qed.
