(* ===== verification/Utf8.v ===== *)
(** * UTF-8 in Go's standard library

    [utf8.DecodeRune], [utf8.ValidString], [strings.ToValidUTF8],
    [strings.ReplaceAll] with NUL and [strings.TrimSpace] on byte sequences, and
    the text values PostgreSQL accepts. *)

From stdpp Require Import base tactics strings list sets.
From Stdlib Require Import ZArith NArith Lia.
From S2P Require Import Prelude GoLib.

Local Open Scope N_scope.

(** ** Decoding *)

Definition between (lo b hi : N) : bool := (lo <=? b) && (b <=? hi).

(** The multi-byte forms: shortest encodings only, no surrogates, nothing
    above U+10FFFF. *)
Definition two (b0 b1 : N) : bool := between 194 b0 223 && between 128 b1 191.

Definition three (b0 b1 b2 : N) : bool :=
  ((b0 =? 224) && between 160 b1 191 ||
   between 225 b0 236 && between 128 b1 191 ||
   (b0 =? 237) && between 128 b1 159 ||
   between 238 b0 239 && between 128 b1 191) && between 128 b2 191.

Definition four (b0 b1 b2 b3 : N) : bool :=
  ((b0 =? 240) && between 144 b1 191 ||
   between 241 b0 243 && between 128 b1 191 ||
   (b0 =? 244) && between 128 b1 143) && between 128 b2 191 && between 128 b3 191.

(** The byte sequence as a list of encoded runes ([inl]) and of bytes that do
    not start one ([inr]), the way repeated [DecodeRune] walks it. *)
Fixpoint utf8_split (l : list N) : list (list N + N) :=
  match l with
  | [] => []
  | b0 :: r0 =>
      if b0 <? 128 then inl [b0] :: utf8_split r0
      else
        match r0 with
        | [] => inr b0 :: utf8_split r0
        | b1 :: r1 =>
            if two b0 b1 then inl [b0; b1] :: utf8_split r1
            else
              match r1 with
              | [] => inr b0 :: utf8_split r0
              | b2 :: r2 =>
                  if three b0 b1 b2 then inl [b0; b1; b2] :: utf8_split r2
                  else
                    match r2 with
                    | [] => inr b0 :: utf8_split r0
                    | b3 :: r3 =>
                        if four b0 b1 b2 b3 then inl [b0; b1; b2; b3] :: utf8_split r3
                        else inr b0 :: utf8_split r0
                    end
              end
        end
  end.

Definition rune_error : N := 65533.

Definition rune_of (c : list N + N) : N :=
  match c with
  | inl [b0] => b0
  | inl [b0; b1] => (b0 - 192) * 64 + (b1 - 128)
  | inl [b0; b1; b2] => ((b0 - 224) * 64 + (b1 - 128)) * 64 + (b2 - 128)
  | inl [b0; b1; b2; b3] => (((b0 - 240) * 64 + (b1 - 128)) * 64 + (b2 - 128)) * 64 + (b3 - 128)
  | _ => rune_error
  end.

Definition runes (s : string) : list N := rune_of <$> utf8_split (bytes_of s).

Definition is_rune (c : list N + N) : bool := match c with inl _ => true | inr _ => false end.

Definition valid_utf8 (s : string) : bool := forallb is_rune (utf8_split (bytes_of s)).

(** [strings.ToValidUTF8(s, "")]. *)
Definition keep_runes (cs : list (list N + N)) : list N :=
  mbind (λ c, match c with inl bs => bs | inr _ => [] end) cs.

Definition to_valid_utf8 (s : string) : string := string_of (keep_runes (utf8_split (bytes_of s))).

(** [strings.ContainsRune(s, 0)] and [strings.ReplaceAll(s, "\x00", "")]. *)
Definition contains_nul (s : string) : bool := bool_decide (0 ∈ bytes_of s).
Definition remove_nul (s : string) : string := string_of (filter (λ b, b ≠ 0) (bytes_of s)).

(** [unicode.IsSpace]. *)
Definition is_space (r : N) : bool :=
  between 9 r 13 || (r =? 32) || (r =? 133) || (r =? 160) || (r =? 5760) || between 8192 r 8202
  || (r =? 8232) || (r =? 8233) || (r =? 8239) || (r =? 8287) || (r =? 12288).

(** [strings.TrimSpace(s) == ""]. *)
Definition trims_to_empty (s : string) : bool := forallb is_space (runes s).

(** [strings.TrimSpace]: a space is always an encoded rune, so trimming works
    on the runes of the walk from either end. *)
Fixpoint drop_space (cs : list (list N + N)) : list (list N + N) :=
  match cs with
  | c :: r => if is_space (rune_of c) then drop_space r else cs
  | [] => []
  end.

Definition chunk_bytes (c : list N + N) : list N := match c with inl bs => bs | inr b => [b] end.

Definition trim_chunks (cs : list (list N + N)) : list (list N + N) :=
  reverse (drop_space (reverse (drop_space cs))).

Definition trim_space (s : string) : string :=
  string_of (mbind chunk_bytes (trim_chunks (utf8_split (bytes_of s)))).

(** What a text or jsonb column of a UTF8 PostgreSQL database accepts; other
    values are refused with an SQLSTATE of class 22. *)
Definition pg_text (s : string) : bool := negb (contains_nul s) && valid_utf8 s.
Definition ErrDataException : string := "pg: data exception".

(** ** Facts *)

Lemma split_ind (P : list N → Prop) :
  P [] → (∀ b r, P r → (∀ r', (length r' <= length r)%nat → P r') → P (b :: r)) → ∀ l, P l.
Proof.
  intros H0 H1 l. remember (length l) as n eqn:Hn. revert l Hn.
  induction n as [n IH] using (well_founded_induction lt_wf). intros [|b r] ->; [done|].
  apply H1; [by eapply IH; [|reflexivity]; simpl; lia|].
  intros r' Hr'. eapply IH; [|reflexivity]. simpl. lia.
Qed.

(** An encoded rune. *)
Definition encoded (bs : list N) : Prop :=
  match bs with
  | [b0] => b0 < 128
  | [b0; b1] => (b0 <? 128) = false ∧ two b0 b1 = true
  | [b0; b1; b2] => (b0 <? 128) = false ∧ two b0 b1 = false ∧ three b0 b1 b2 = true
  | [b0; b1; b2; b3] =>
      (b0 <? 128) = false ∧ two b0 b1 = false ∧ three b0 b1 b2 = false ∧ four b0 b1 b2 b3 = true
  | _ => False
  end.

Lemma split_encoded l bs : inl bs ∈ utf8_split l → encoded bs.
Proof.
  induction l as [|b0 r0 IH IHs] using split_ind; [set_solver|]. simpl.
  destruct (b0 <? 128) eqn:E0.
  { intros [[= ->]|?]%elem_of_cons; [by apply N.ltb_lt|by apply IH]. }
  assert (inl bs ∈ inr b0 :: utf8_split r0 → encoded bs) as Hbad.
  { intros [?|?]%elem_of_cons; [done|by apply IH]. }
  destruct r0 as [|b1 r1]; [done|]. destruct (two b0 b1) eqn:E1.
  { intros [[= ->]|?]%elem_of_cons; [done|]. apply IHs in H; [done|simpl; lia]. }
  destruct r1 as [|b2 r2]; [done|]. destruct (three b0 b1 b2) eqn:E2.
  { intros [[= ->]|?]%elem_of_cons; [done|]. apply IHs in H; [done|simpl; lia]. }
  destruct r2 as [|b3 r3]; [done|]. destruct (four b0 b1 b2 b3) eqn:E3; [|done].
  intros [[= ->]|?]%elem_of_cons; [done|]. apply IHs in H; [done|simpl; lia].
Qed.

Lemma split_rune bs r : encoded bs → utf8_split (bs ++ r) = inl bs :: utf8_split r.
Proof.
  destruct bs as [|b0 [|b1 [|b2 [|b3 [|b4 bs]]]]]; try done.
  - intros Hb. simpl in Hb. apply N.ltb_lt in Hb. simpl. by rewrite Hb.
  - intros (E0 & E1). simpl. by rewrite E0, E1.
  - intros (E0 & E1 & E2). simpl. by rewrite E0, E1, E2.
  - intros (E0 & E1 & E2 & E3). simpl. by rewrite E0, E1, E2, E3.
Qed.

Lemma split_runes cs :
  (∀ bs, inl bs ∈ cs → encoded bs) → utf8_split (keep_runes cs) = filter (λ c, is_rune c = true) cs.
Proof.
  induction cs as [|[bs|b] cs IH]; intros Hcs; [done|..].
  - rewrite filter_cons_True by done. unfold keep_runes in *. rewrite bind_cons.
    rewrite split_rune by (apply Hcs; set_solver). f_equal. apply IH. set_solver.
  - rewrite filter_cons_False by done. apply IH. set_solver.
Qed.

Lemma keep_runes_filter cs : keep_runes (filter (λ c, is_rune c = true) cs) = keep_runes cs.
Proof.
  induction cs as [|[bs|b] cs IH]; [done|..].
  - rewrite filter_cons_True by done. unfold keep_runes in *. by rewrite !bind_cons, IH.
  - rewrite filter_cons_False by done. done.
Qed.

(** Nothing but bytes of the input is kept. *)
Lemma keep_runes_sub l b : b ∈ keep_runes (utf8_split l) → b ∈ l.
Proof.
  induction l as [|b0 r0 IH IHs] using split_ind; [done|]. unfold keep_runes in *. simpl.
  destruct (b0 <? 128) eqn:E0.
  { rewrite bind_cons, elem_of_app. intros [?|?]; [set_solver|]. right. by apply IH. }
  assert (b ∈ (mbind (λ c, match c with inl bs => bs | inr _ => [] end) (inr b0 :: utf8_split r0)) → b ∈ b0 :: r0)
    as Hbad.
  { rewrite bind_cons, elem_of_app. intros [?|?]; [set_solver|]. right. by apply IH. }
  destruct r0 as [|b1 r1]; [done|]. destruct (two b0 b1) eqn:E1.
  { rewrite bind_cons, elem_of_app. intros [?|H]; [set_solver|]. apply IHs in H; [set_solver|simpl; lia]. }
  destruct r1 as [|b2 r2]; [done|]. destruct (three b0 b1 b2) eqn:E2.
  { rewrite bind_cons, elem_of_app. intros [?|H]; [set_solver|]. apply IHs in H; [set_solver|simpl; lia]. }
  destruct r2 as [|b3 r3]; [done|]. destruct (four b0 b1 b2 b3) eqn:E3; [|done].
  rewrite bind_cons, elem_of_app. intros [?|H]; [set_solver|]. apply IHs in H; [set_solver|simpl; lia].
Qed.

(** The runes of a sequence, put together again. *)
Lemma keep_all l : forallb is_rune (utf8_split l) = true → keep_runes (utf8_split l) = l.
Proof.
  induction l as [|b0 r0 IH IHs] using split_ind; [done|]. unfold keep_runes in *. simpl.
  destruct (b0 <? 128) eqn:E0.
  { rewrite bind_cons. simpl. intros H. by rewrite IH. }
  destruct r0 as [|b1 r1]; [done|]. destruct (two b0 b1) eqn:E1.
  { rewrite bind_cons. simpl. intros H. rewrite IHs; [done|simpl; lia|done]. }
  destruct r1 as [|b2 r2]; [done|]. destruct (three b0 b1 b2) eqn:E2.
  { rewrite bind_cons. simpl. intros H. rewrite IHs; [done|simpl; lia|done]. }
  destruct r2 as [|b3 r3]; [done|]. destruct (four b0 b1 b2 b3) eqn:E3; [|done].
  rewrite bind_cons. simpl. intros H. rewrite IHs; [done|simpl; lia|done].
Qed.

Lemma is_bytes_sub l l' : (∀ b, b ∈ l' → b ∈ l) → is_bytes l → is_bytes l'.
Proof. unfold is_bytes. rewrite !Forall_forall. auto. Qed.

Lemma bytes_of_to_valid s : bytes_of (to_valid_utf8 s) = keep_runes (utf8_split (bytes_of s)).
Proof.
  unfold to_valid_utf8. apply bytes_of_string_of. eapply is_bytes_sub, bytes_of_is_bytes.
  intros b. apply keep_runes_sub.
Qed.

Lemma to_valid_utf8_valid s : valid_utf8 (to_valid_utf8 s) = true.
Proof.
  unfold valid_utf8. rewrite bytes_of_to_valid, split_runes by (intros bs; apply split_encoded).
  apply forallb_forall. intros c Hc. apply list_elem_of_In, list_elem_of_filter in Hc. tauto.
Qed.

Lemma to_valid_utf8_id s : valid_utf8 s = true → to_valid_utf8 s = s.
Proof. intros Hv. unfold to_valid_utf8. rewrite keep_all by done. apply string_of_bytes_of. Qed.

Lemma bytes_of_remove_nul s : bytes_of (remove_nul s) = filter (λ b, b ≠ 0) (bytes_of s).
Proof.
  unfold remove_nul. apply bytes_of_string_of. eapply is_bytes_sub, bytes_of_is_bytes.
  intros b [_ Hb]%list_elem_of_filter. exact Hb.
Qed.

Lemma remove_nul_id s : contains_nul s = false → remove_nul s = s.
Proof.
  unfold contains_nul, remove_nul. intros Hc%bool_decide_eq_false. rewrite list_filter_all.
  - apply string_of_bytes_of.
  - intros b Hb ->. done.
Qed.

Lemma to_valid_no_nul s : contains_nul s = false → contains_nul (to_valid_utf8 s) = false.
Proof.
  unfold contains_nul. rewrite !bool_decide_eq_false, bytes_of_to_valid. intros Hn H. by apply Hn, keep_runes_sub.
Qed.

Lemma remove_nul_no_nul s : contains_nul (remove_nul s) = false.
Proof.
  unfold contains_nul. rewrite bool_decide_eq_false, bytes_of_remove_nul, list_elem_of_filter. tauto.
Qed.

(** Trimming keeps a contiguous part of the runes. *)
Lemma drop_space_suffix cs : ∃ pre, cs = pre ++ drop_space cs.
Proof.
  induction cs as [|c cs [pre IH]]; [by exists []|]. simpl. destruct (is_space _); [|by exists []].
  exists (c :: pre). simpl. by rewrite <- IH.
Qed.

Lemma trim_chunks_sub cs c : c ∈ trim_chunks cs → c ∈ cs.
Proof.
  unfold trim_chunks. rewrite elem_of_reverse. intros Hc.
  destruct (drop_space_suffix (reverse (drop_space cs))) as [p1 H1].
  destruct (drop_space_suffix cs) as [p2 H2].
  assert (c ∈ drop_space cs) by (apply elem_of_reverse; rewrite H1; set_solver).
  rewrite H2. set_solver.
Qed.

Lemma drop_space_nil cs : drop_space cs = [] ↔ forallb (λ c, is_space (rune_of c)) cs = true.
Proof. induction cs as [|c cs IH]; simpl; [done|]. destruct (is_space _); simpl; [exact IH|]. split; discriminate. Qed.

Lemma trim_chunks_nil cs : trim_chunks cs = [] ↔ forallb (λ c, is_space (rune_of c)) cs = true.
Proof.
  rewrite <- drop_space_nil. unfold trim_chunks. split; [|by intros ->].
  intros H%(f_equal reverse). rewrite reverse_involutive in H. change (reverse []) with (@nil (list N + N)) in H.
  apply drop_space_nil in H. apply drop_space_nil.
  assert (∀ l, forallb (λ c, is_space (rune_of c)) (reverse l) = forallb (λ c, is_space (rune_of c)) l) as Hrev.
  { intros l. induction l as [|c l IHl]; [done|]. rewrite reverse_cons, forallb_app. simpl.
    rewrite IHl. by destruct (is_space _), (forallb _ l). }
  rewrite Hrev in H. clear Hrev. induction cs as [|c cs IH]; [reflexivity|]. simpl in *.
  destruct (is_space (rune_of c)) eqn:E; [by apply IH|]. simpl in H. by rewrite E in H.
Qed.

Lemma split_chunk_bytes l c : c ∈ utf8_split l → chunk_bytes c ≠ [] ∧ (∀ b, b ∈ chunk_bytes c → b ∈ l).
Proof.
  intros Hc. split.
  - destruct c as [bs|b]; [|done]. apply split_encoded in Hc. by destruct bs.
  - revert c Hc. induction l as [|b0 r0 IH IHs] using split_ind; [set_solver|]. intros c.
    assert (∀ n bs, (length (drop n r0) <= length r0)%nat → (∀ b, b ∈ bs → b ∈ b0 :: r0) →
      c ∈ inl bs :: utf8_split (drop n r0) → ∀ b, b ∈ chunk_bytes c → b ∈ b0 :: r0) as Hgo.
    { intros n bs Hn Hbs [->|Hc]%elem_of_cons b Hb; [by apply Hbs|]. right.
      apply (IHs _ Hn _ Hc) in Hb. rewrite <- (take_drop n r0). apply elem_of_app. by right. }
    assert (c ∈ inr b0 :: utf8_split r0 → ∀ b, b ∈ chunk_bytes c → b ∈ b0 :: r0) as Hbad.
    { intros [->|Hc]%elem_of_cons b Hb; [set_solver|]. right. by eapply IH. }
    simpl. destruct (b0 <? 128); [apply (Hgo 0%nat [b0]); [rewrite length_drop; lia|set_solver]|].
    destruct r0 as [|b1 r1]; [done|].
    destruct (two b0 b1); [apply (Hgo 1%nat [b0; b1]); [rewrite length_drop; lia|set_solver]|].
    destruct r1 as [|b2 r2]; [done|].
    destruct (three b0 b1 b2); [apply (Hgo 2%nat [b0; b1; b2]); [rewrite length_drop; lia|set_solver]|].
    destruct r2 as [|b3 r3]; [done|].
    destruct (four b0 b1 b2 b3); [apply (Hgo 3%nat [b0; b1; b2; b3]); [rewrite length_drop; lia|set_solver]|done].
Qed.

Lemma bytes_of_trim s : bytes_of (trim_space s) = mbind chunk_bytes (trim_chunks (utf8_split (bytes_of s))).
Proof.
  unfold trim_space. apply bytes_of_string_of. eapply is_bytes_sub, bytes_of_is_bytes.
  intros b (c & Hb & Hc)%list_elem_of_bind. apply trim_chunks_sub, split_chunk_bytes in Hc as [_ Hc]. eauto.
Qed.

Lemma trim_space_empty s : trim_space s = "" ↔ trims_to_empty s = true.
Proof.
  unfold trims_to_empty, runes. transitivity (trim_chunks (utf8_split (bytes_of s)) = []).
  - split; [|intros H; unfold trim_space; by rewrite H].
    intros H%(f_equal bytes_of). rewrite bytes_of_trim in H. simpl in H.
    destruct (trim_chunks _) as [|c cs] eqn:E; [done|]. rewrite bind_cons in H.
    assert (c ∈ utf8_split (bytes_of s)) as Hc by (apply trim_chunks_sub; rewrite E; set_solver).
    apply split_chunk_bytes in Hc as [Hc _]. by apply app_nil in H as [? _].
  - rewrite trim_chunks_nil. generalize (utf8_split (bytes_of s)). intros cs.
    induction cs as [|c cs IH]; [done|]. simpl. rewrite !andb_true_iff. by rewrite IH.
Qed.

(** What PostgreSQL accepts it still accepts trimmed. *)
Lemma trim_space_pg_text s : pg_text s = true → pg_text (trim_space s) = true.
Proof.
  unfold pg_text, contains_nul, valid_utf8. rewrite !andb_true_iff, !negb_true_iff, !bool_decide_eq_false.
  rewrite !bytes_of_trim. intros [Hn Hv]. set (cs := utf8_split (bytes_of s)) in *.
  assert (∀ c, c ∈ trim_chunks cs → is_rune c = true) as Hr.
  { intros c Hc%trim_chunks_sub. rewrite forallb_forall in Hv. apply Hv. by apply list_elem_of_In. }
  assert (mbind chunk_bytes (trim_chunks cs) = keep_runes (trim_chunks cs)) as ->.
  { clear -Hr. induction (trim_chunks cs) as [|[bs|b] l IH]; [done|..].
    - unfold keep_runes in *. rewrite !bind_cons. f_equal. apply IH. set_solver.
    - assert (is_rune (inr b) = true) by (apply Hr; set_solver). done. }
  split.
  - intros (c & Hb & Hc)%list_elem_of_bind. apply trim_chunks_sub, split_chunk_bytes in Hc as [_ Hc].
    destruct c; [|set_solver]. apply Hn. by apply Hc.
  - rewrite split_runes.
    + rewrite list_filter_all by done. apply forallb_forall. intros c Hc%list_elem_of_In. by apply Hr.
    + intros bs Hb%trim_chunks_sub. by apply split_encoded in Hb.
Qed.

Example trim_example : trim_space (string_of [32; 194; 160; 65; 32; 66; 10; 226; 128; 175]) = "A B".
Proof. reflexivity. Qed.

Example runes_example : runes (string_of [226; 130; 172; 65; 255]) = [8364; 65; 65533].
Proof. reflexivity. Qed.
