(* ===== verification/Keyset.v ===== *)
(** * Keyset pagination

    Pages of a strictly increasing list, each starting after the last element
    of the one before. Shared by the janitor's walk over cleanup candidates and
    the catalog's reconciliation read. *)

From stdpp Require Import base tactics list sorting.
From Stdlib Require Import Lia.
From S2P Require Import Prelude.

Section keyset.
Context {A : Type} (ltb : A → A → bool).
Context (ltb_irrefl : ∀ a, ltb a a = false).
Context (ltb_trans : ∀ a b c, ltb a b = true → ltb b c = true → ltb a c = true).

Abbreviation increasing := (StronglySorted (λ a b, ltb a b = true)).

(** The elements after [a] in a list that contains it are its tail. *)
Lemma filter_after a l1 l2 :
  increasing (l1 ++ a :: l2) → filter (λ c, ltb a c = true) (l1 ++ a :: l2) = l2.
Proof.
  intros Hs. rewrite filter_app, filter_cons_False by (by rewrite ltb_irrefl).
  rewrite (list_filter_all _ l2).
  - induction l1 as [|b l1 IH]; [done|]. simpl in Hs. inversion Hs as [|? ? Hs' Hall]; subst.
    rewrite filter_cons_False; [by apply IH|].
    rewrite Forall_app in Hall. destruct Hall as [_ Hall]. apply Forall_cons in Hall as [Hba _].
    intros Hab. pose proof (ltb_trans _ _ _ Hba Hab) as Hc. by rewrite ltb_irrefl in Hc.
  - intros x Hx. clear -Hs Hx. induction l1 as [|b l1 IH]; simpl in Hs.
    + inversion Hs as [|? ? _ Hall]; subst. rewrite Forall_forall in Hall. by apply Hall.
    + inversion Hs; subst. by apply IH.
Qed.

(** A sorted list without duplicates is increasing when only equal elements are
    incomparable. *)
Lemma sorted_nodup_keyset l :
  (∀ a b, a ∈ l → b ∈ l → ltb a b = false → ltb b a = false → a = b) →
  StronglySorted (λ a b, ltb b a = false) l → NoDup l → increasing l.
Proof.
  intros Htri Hs Hnd. induction Hs as [|a l Hs IH Hall]; [constructor|].
  apply NoDup_cons in Hnd as [Hna Hnd]. constructor; [apply IH; [|done]; intros; apply Htri; by try right|].
  rewrite Forall_forall in *. intros b Hb. destruct (ltb a b) eqn:E; [done|].
  assert (a = b) as -> by (apply Htri; [left|by right|done|by apply Hall]). done.
Qed.

(** Where a cursor resumes: what is left of the list after it. *)
Definition resumes (all : list A) (cursor : A) (todo : list A) : Prop :=
  filter (λ c, ltb cursor c = true) all = todo.

(** What a cursor has left is a suffix. *)
Lemma resumes_suffix all cursor todo :
  increasing all → resumes all cursor todo → ∃ pre, all = pre ++ todo.
Proof.
  unfold resumes. intros Hs <-. induction Hs as [|a all Hs [pre IH] Hall]; [by exists []|].
  destruct (ltb cursor a) eqn:E.
  - exists []. symmetry. apply list_filter_all. intros x [->|Hx]%elem_of_cons; [done|].
    rewrite Forall_forall in Hall. eapply ltb_trans; [exact E|by apply Hall].
  - rewrite filter_cons_False by (by rewrite E). exists (a :: pre). simpl. by rewrite <- IH.
Qed.

(** The last element of a page resumes after the page. *)
Lemma resumes_drop all cursor todo n c :
  increasing all → resumes all cursor todo → last (take n todo) = Some c →
  resumes all c (drop n todo).
Proof.
  intros Hs Hres Hc. destruct (resumes_suffix _ _ _ Hs Hres) as [pre Hpre].
  apply last_Some in Hc as [l Hl].
  assert (all = (pre ++ l) ++ c :: drop n todo) as Hall.
  { rewrite Hpre, <- (take_drop n todo) at 1. rewrite Hl, <- !app_assoc. done. }
  unfold resumes. rewrite Hall. apply filter_after. by rewrite <- Hall.
Qed.
End keyset.
