(* ===== verification/Float64.v ===== *)
(** * IEEE 754 binary64

    Go's [float64] as the Standard Library's executable specification of IEEE
    754: 53 bits of precision, exponents below 1024, round to nearest even. *)

From stdpp Require Import base tactics numbers.
From Stdlib Require Import ZArith SpecFloat Lia.

Definition float64 : Type := spec_float.

Definition f64_prec : Z := 53.
Definition f64_emax : Z := 1024.

Definition f64_add (x y : float64) : float64 := SFadd f64_prec f64_emax x y.
Definition f64_sub (x y : float64) : float64 := SFsub f64_prec f64_emax x y.
Definition f64_mul (x y : float64) : float64 := SFmul f64_prec f64_emax x y.
Definition f64_div (x y : float64) : float64 := SFdiv f64_prec f64_emax x y.
Definition f64_ltb (x y : float64) : bool := SFltb x y.
Definition f64_leb (x y : float64) : bool := SFleb x y.
Definition f64_eqb (x y : float64) : bool := SFeqb x y.
Definition f64_gtb (x y : float64) : bool := SFltb y x.
Definition f64_geb (x y : float64) : bool := SFleb y x.

(** The conversion of an integer, and of [m * 2^e]. *)
Definition f64_of_Z (z : Z) : float64 := binary_normalize f64_prec f64_emax z 0 false.
Definition f64_scaled (m e : Z) : float64 := binary_normalize f64_prec f64_emax m e false.

Definition f64_zero : float64 := S754_zero false.
Definition f64_one : float64 := f64_of_Z 1.
Definition f64_nan : float64 := S754_nan.

Definition is_nan (x : float64) : bool := match x with S754_nan => true | _ => false end.
Definition is_inf (x : float64) : bool := match x with S754_infinity _ => true | _ => false end.

#[export] Instance float64_eq_dec : EqDecision float64.
Proof. intros x y. unfold Decision, float64 in *. decide equality; solve [apply decide, _]. Defined.

(** Comparisons with NaN are false. *)
Lemma f64_ltb_nan_l x : f64_ltb S754_nan x = false.
Proof. done. Qed.
Lemma f64_ltb_nan_r x : f64_ltb x S754_nan = false.
Proof. by destruct x. Qed.
Lemma f64_leb_nan_r x : f64_leb x S754_nan = false.
Proof. by destruct x. Qed.

Example f64_five : f64_add (f64_of_Z 2) (f64_of_Z 3) = f64_of_Z 5.
Proof. reflexivity. Qed.
