(* ===== verification/NsNames.v ===== *)
(** * Physical names of a namespace generation

    [internal/core/nslifecycle/names.go] and the naming half of
    [internal/core/nslifecycle/incarnation.go]: how a (namespace, generation)
    pair becomes Redis keys and Qdrant collection names. *)

From stdpp Require Import base tactics strings list pretty.
From Stdlib Require Import ZArith Ascii Lia.
From S2P Require Import Prelude GoLib.

(** [PhysicalKind] is a Go string type; [KindOther] stands for any value that
    is not one of the declared constants. *)
Inductive PhysicalKind :=
  | KindRecommendationCache
  | KindTrending
  | KindEmbedStream
  | KindSubjects
  | KindObjects
  | KindSubjectsDense
  | KindObjectsDense
  | KindOther (s : string).

#[export] Instance PhysicalKind_eq_dec : EqDecision PhysicalKind.
Proof. solve_decision. Defined.

Definition kind_string (k : PhysicalKind) : string :=
  match k with
  | KindRecommendationCache => "recommendation_cache"
  | KindTrending => "trending"
  | KindEmbedStream => "embed_stream"
  | KindSubjects => "subjects"
  | KindObjects => "objects"
  | KindSubjectsDense => "subjects_dense"
  | KindObjectsDense => "objects_dense"
  | KindOther s => s
  end.

Inductive name_error :=
  | NamespaceRequired
  | GenerationNotPositive
  | UnknownKind (k : PhysicalKind).

Definition RedisNamespace (namespace : string) (generation : Z) : string :=
  if (generation <? 2)%Z then namespace
  else namespace +:+ ":g" +:+ itoa generation.

Definition QdrantNamespace (namespace : string) (generation : Z) : string :=
  if (generation <? 2)%Z then namespace
  else namespace +:+ "_g" +:+ itoa generation.

Definition PhysicalName (kind : PhysicalKind) (namespace : string) (generation : Z)
    : string + name_error :=
  if bool_decide (namespace = "") then inr NamespaceRequired
  else if (generation <? 1)%Z then inr GenerationNotPositive
  else
    let qualified := RedisNamespace namespace generation in
    match kind with
    | KindRecommendationCache => inl ("rec:v3:" +:+ b64_encode qualified)
    | KindTrending => inl ("trending:" +:+ qualified)
    | KindEmbedStream => inl ("catalog:embed:" +:+ qualified)
    | KindSubjects | KindObjects | KindSubjectsDense | KindObjectsDense =>
        inl (QdrantNamespace namespace generation +:+ "_" +:+ kind_string kind)
    | KindOther _ => inr (UnknownKind kind)
    end.

(** [None] is the panic. *)
Definition MustPhysicalName (kind : PhysicalKind) (namespace : string) (generation : Z)
    : option string :=
  match PhysicalName kind namespace generation with
  | inl name => Some name
  | inr _ => None
  end.

Record Incarnation := {
  inc_namespace : string;
  inc_generation : Z;
}.

Definition NewIncarnation (ns : string) (generation : Z) : Incarnation :=
  {| inc_namespace := ns; inc_generation := generation |}.

Definition Generation (i : Incarnation) : Z :=
  if (inc_generation i <? 1)%Z then 1%Z else inc_generation i.

Definition Incarnation_PhysicalName (i : Incarnation) (kind : PhysicalKind) : string + name_error :=
  PhysicalName kind (inc_namespace i) (Generation i).

Definition Incarnation_MustPhysicalName (i : Incarnation) (kind : PhysicalKind) : option string :=
  MustPhysicalName kind (inc_namespace i) (Generation i).

Definition Incarnation_QdrantNamespace (i : Incarnation) : string :=
  QdrantNamespace (inc_namespace i) (Generation i).

Definition Incarnation_RedisNamespace (i : Incarnation) : string :=
  RedisNamespace (inc_namespace i) (Generation i).

(** The store that holds a resource kind; names only have to be distinct
    within one store. *)
Inductive store := Redis | Qdrant.

#[export] Instance store_eq_dec : EqDecision store.
Proof. solve_decision. Defined.

Definition kind_store (k : PhysicalKind) : option store :=
  match k with
  | KindRecommendationCache | KindTrending | KindEmbedStream => Some Redis
  | KindSubjects | KindObjects | KindSubjectsDense | KindObjectsDense => Some Qdrant
  | KindOther _ => None
  end.

(** ** Lemmas on generation tokens *)

Lemma string_split_last (sep : ascii) (s1 s2 t1 t2 : string) :
  str_all (λ c, negb (bool_decide (c = sep))) t1 →
  str_all (λ c, negb (bool_decide (c = sep))) t2 →
  s1 +:+ String sep t1 = s2 +:+ String sep t2 → s1 = s2 ∧ t1 = t2.
Proof.
  revert s2. induction s1 as [|c s1 IH]; intros [|c2 s2] H1 H2;
    rewrite ?string_app_cons, ?string_app_nil_l; intros Hs; simplify_eq.
  - done.
  - rewrite str_all_app in H1. simpl in H1. rewrite bool_decide_true in H1 by done.
    by destruct (str_all _ s2).
  - rewrite str_all_app in H2. simpl in H2. rewrite bool_decide_true in H2 by done.
    by destruct (str_all _ s1).
  - match goal with H : _ +:+ _ = _ +:+ _ |- _ => destruct (IH _ H1 H2 H) as [-> ->] end. done.
Qed.

Lemma string_app_inj_r (s t u : string) : s +:+ u = t +:+ u → s = t.
Proof.
  assert (∀ a b, String.length (a +:+ b) = String.length a + String.length b) as Hl.
  { intros a b. induction a as [|c a IH]; [done|]. rewrite string_app_cons. simpl. by rewrite IH. }
  revert t. induction s as [|c s IH]; intros [|c2 t]; rewrite ?string_app_cons, ?string_app_nil_l; intros H.
  - done.
  - apply (f_equal String.length) in H. simpl in H. rewrite Hl in H. lia.
  - apply (f_equal String.length) in H. simpl in H. rewrite Hl in H. lia.
  - injection H as -> H. f_equal. by apply IH.
Qed.

Lemma gen_token_free (sep : ascii) g :
  (2 <= g)%Z → is_digit sep = false → sep ≠ "g"%char →
  str_all (λ c, negb (bool_decide (c = sep))) (String "g" (itoa g)).
Proof.
  intros Hg Hd Hne. simpl. rewrite bool_decide_false by congruence.
  by apply itoa_no_char; [lia|].
Qed.

(** Both qualifications are instances of one scheme, with separator [:] or
    [_]. *)
Definition qualify (sep : ascii) (ns : string) (g : Z) : string :=
  if (g <? 2)%Z then ns else ns +:+ String sep (String "g" (itoa g)).

Lemma RedisNamespace_qualify ns g : RedisNamespace ns g = qualify ":" ns g.
Proof. done. Qed.
Lemma QdrantNamespace_qualify ns g : QdrantNamespace ns g = qualify "_" ns g.
Proof. done. Qed.

Lemma qualify_inj_generation sep ns g1 g2 :
  (1 <= g1)%Z → (1 <= g2)%Z → qualify sep ns g1 = qualify sep ns g2 → g1 = g2.
Proof.
  unfold qualify. intros H1 H2.
  destruct (Z.ltb_spec g1 2), (Z.ltb_spec g2 2); intros Heq.
  - lia.
  - rewrite <- (string_app_nil_r ns) in Heq at 1. by apply string_app_inj_l in Heq.
  - rewrite <- (string_app_nil_r ns) in Heq at 2. by apply string_app_inj_l in Heq.
  - apply string_app_inj_l in Heq. injection Heq as Heq. by apply itoa_inj.
Qed.

(** A namespace whose own name ends like a generation token. *)
Definition gen_suffixed (sep : ascii) (ns : string) : Prop :=
  ∃ p g, (2 <= g)%Z ∧ ns = p +:+ String sep (String "g" (itoa g)).

Lemma qualify_inj sep ns1 ns2 g1 g2 :
  is_digit sep = false → sep ≠ "g"%char →
  ¬ gen_suffixed sep ns1 → ¬ gen_suffixed sep ns2 →
  (1 <= g1)%Z → (1 <= g2)%Z →
  qualify sep ns1 g1 = qualify sep ns2 g2 → ns1 = ns2 ∧ g1 = g2.
Proof.
  intros Hd Hne Hn1 Hn2 H1 H2 Heq.
  enough (ns1 = ns2) as -> by (split; [done|]; by eapply qualify_inj_generation).
  unfold qualify in Heq. destruct (Z.ltb_spec g1 2), (Z.ltb_spec g2 2).
  - done.
  - destruct Hn1. exists ns2, g2. by split.
  - destruct Hn2. exists ns1, g1. by split.
  - apply string_split_last in Heq; [naive_solver| |]; by apply gen_token_free.
Qed.

(** The outcome of [PhysicalName] on every input. *)
Lemma PhysicalName_cases k ns g :
  PhysicalName k ns g =
    if decide (ns = "") then inr NamespaceRequired
    else if decide (g < 1)%Z then inr GenerationNotPositive
    else match kind_store k with
         | None => inr (UnknownKind k)
         | Some Redis =>
             inl (match k with
                  | KindRecommendationCache => "rec:v3:" +:+ b64_encode (qualify ":" ns g)
                  | KindTrending => "trending:" +:+ qualify ":" ns g
                  | _ => "catalog:embed:" +:+ qualify ":" ns g
                  end)
         | Some Qdrant => inl (qualify "_" ns g +:+ "_" +:+ kind_string k)
         end.
Proof.
  unfold PhysicalName. rewrite RedisNamespace_qualify, QdrantNamespace_qualify.
  case_bool_decide; case_decide; try done.
  destruct (Z.ltb_spec g 1); case_decide; try lia; try done. by destruct k.
Qed.

Lemma PhysicalName_inl k ns g n :
  PhysicalName k ns g = inl n → ns ≠ "" ∧ (1 <= g)%Z ∧ is_Some (kind_store k).
Proof.
  rewrite PhysicalName_cases. intros H. repeat case_decide; try done.
  split_and!; [done|lia|]. destruct (kind_store k); [eauto|done].
Qed.

(** What follows the namespace in a Qdrant collection name. *)
Definition qdrant_tail (k : PhysicalKind) (g : Z) : string :=
  (if (g <? 2)%Z then "" else String "_" (String "g" (itoa g))) +:+ "_" +:+ kind_string k.

Lemma qualify_qdrant ns k g :
  qualify "_" ns g +:+ "_" +:+ kind_string k = ns +:+ qdrant_tail k g.
Proof.
  unfold qualify, qdrant_tail. destruct (g <? 2)%Z; [done|].
  by rewrite <- string_app_assoc.
Qed.

Lemma qdrant_tail_inj k1 k2 g1 g2 :
  kind_store k1 = Some Qdrant → kind_store k2 = Some Qdrant →
  (1 <= g1)%Z → (1 <= g2)%Z → qdrant_tail k1 g1 = qdrant_tail k2 g2 → k1 = k2 ∧ g1 = g2.
Proof.
  intros Hk1 Hk2 H1 H2. unfold qdrant_tail.
  destruct (Z.ltb_spec g1 2), (Z.ltb_spec g2 2); rewrite ?string_app_cons, ?string_app_nil_l; intros Heq.
  - split; [|lia]. destruct k1, k2; simpl in *; by simplify_eq.
  - destruct k1; simpl in *; by simplify_eq.
  - destruct k2; simpl in *; by simplify_eq.
  - injection Heq as Heq. apply string_split_unique in Heq as [Hg Hk].
    + split; [|by apply itoa_inj]. destruct k1, k2; simpl in *; by simplify_eq.
    + by apply itoa_no_char; [lia|].
    + by apply itoa_no_char; [lia|].
Qed.

Lemma redis_kind_prefix k1 k2 ns1 ns2 g1 g2 n :
  kind_store k1 = Some Redis → kind_store k2 = Some Redis →
  PhysicalName k1 ns1 g1 = inl n → PhysicalName k2 ns2 g2 = inl n →
  k1 = k2 ∧ qualify ":" ns1 g1 = qualify ":" ns2 g2.
Proof.
  intros Hk1 Hk2. rewrite !PhysicalName_cases, Hk1, Hk2.
  intros H1 H2. repeat case_decide; try done. simplify_eq.
  destruct k1, k2; simpl in *; try done; simplify_eq/=; try done.
  all: split; [done|].
  all: repeat match goal with
    | H : String _ _ +:+ _ = String _ _ +:+ _ |- _ =>
        rewrite !string_app_cons in H; injection H as H
    | H : "" +:+ _ = "" +:+ _ |- _ => rewrite !string_app_nil_l in H
    end.
  all: try (by apply b64_encode_inj); done.
Qed.

(** ** Properties *)

(** Generation fencing by name: two resources of one namespace that live in
    the same store and have the same physical name are the same resource of the
    same generation. A delayed writer of an old generation therefore never
    addresses an artifact of the current one. *)
Theorem PhysicalName_fences_generations k1 k2 ns g1 g2 n :
  kind_store k1 = kind_store k2 →
  PhysicalName k1 ns g1 = inl n → PhysicalName k2 ns g2 = inl n →
  k1 = k2 ∧ g1 = g2.
Proof.
  intros Hs H1 H2.
  destruct (PhysicalName_inl _ _ _ _ H1) as (Hns & Hg1 & [st Hk1]).
  destruct (PhysicalName_inl _ _ _ _ H2) as (_ & Hg2 & _). rewrite Hk1 in Hs.
  destruct st.
  - destruct (redis_kind_prefix _ _ _ _ _ _ _ Hk1 (eq_sym Hs) H1 H2) as [-> Hq].
    split; [done|]. by eapply qualify_inj_generation.
  - revert H1 H2. rewrite !PhysicalName_cases, Hk1, <- Hs. intros H1 H2.
    repeat case_decide; try done. simplify_eq.
    rewrite !qualify_qdrant in *. apply qdrant_tail_inj; try done.
    by eapply string_app_inj_l.
Qed.

Lemma PhysicalName_fences_generations_witness :
  KindTrending = KindTrending ∧ (2 = 2)%Z.
Proof.
  apply (PhysicalName_fences_generations KindTrending KindTrending "demo" 2 2 "trending:demo:g2");
    reflexivity.
Defined.

(** Separation of namespaces: namespaces whose own names do not end in a
    generation token get disjoint names, for the Redis kinds with the token
    separator [:] and for the Qdrant kinds with [_]. *)
Theorem PhysicalName_separates_namespaces k ns1 ns2 g1 g2 n :
  let sep := match kind_store k with Some Redis => ":"%char | _ => "_"%char end in
  ¬ gen_suffixed sep ns1 → ¬ gen_suffixed sep ns2 →
  PhysicalName k ns1 g1 = inl n → PhysicalName k ns2 g2 = inl n →
  ns1 = ns2 ∧ g1 = g2.
Proof.
  intros sep Hn1 Hn2 H1 H2.
  destruct (PhysicalName_inl _ _ _ _ H1) as (_ & Hg1 & [st Hk]).
  destruct (PhysicalName_inl _ _ _ _ H2) as (_ & Hg2 & _).
  subst sep. rewrite Hk in Hn1, Hn2. destruct st.
  - destruct (redis_kind_prefix _ _ _ _ _ _ _ Hk Hk H1 H2) as [_ Hq].
    by apply (qualify_inj ":").
  - revert H1 H2. rewrite !PhysicalName_cases, Hk. intros H1 H2.
    repeat case_decide; try done. simplify_eq.
    by apply (qualify_inj "_"); [..|symmetry; eapply string_app_inj_r].
Qed.

Lemma PhysicalName_separates_namespaces_witness : "demo" = "demo" ∧ (2 = 2)%Z.
Proof.
  apply (PhysicalName_separates_namespaces KindObjects "demo" "demo" 2 2 "demo_g2_objects");
    [| |reflexivity|reflexivity].
  all: intros (p & g & Hg & Hp); apply (f_equal (str_all (λ c, negb (bool_decide (c = "_"%char))))) in Hp.
  all: rewrite str_all_app in Hp; simpl in Hp; rewrite andb_false_r in Hp; discriminate.
Defined.

(** Without that restriction the names collide: generation [g >= 2] of [ns]
    and generation 1 of the namespace literally called [ns_g<g>] (Qdrant) or
    [ns:g<g>] (Redis) own the same physical resource. No code under [internal/]
    rejects such a namespace name. *)
Theorem PhysicalName_collides k ns g :
  is_Some (kind_store k) → ns ≠ "" → (2 <= g)%Z →
  PhysicalName k ns g =
    PhysicalName k (match kind_store k with
                    | Some Redis => RedisNamespace ns g
                    | _ => QdrantNamespace ns g end) 1.
Proof.
  intros Hk Hns Hg.
  assert (∀ sep, qualify sep ns g ≠ "") as Hq.
  { intros sep. unfold qualify. destruct (Z.ltb_spec g 2); [lia|]. by destruct ns. }
  rewrite RedisNamespace_qualify, QdrantNamespace_qualify, !PhysicalName_cases.
  rewrite (decide_False (P := ns = "")) by done. rewrite (decide_False (P := (g < 1)%Z)) by lia.
  destruct Hk as [[] Hk]; rewrite Hk; rewrite decide_False by done; by destruct k.
Qed.

Lemma PhysicalName_collides_witness :
  PhysicalName KindObjectsDense "demo" 2 = PhysicalName KindObjectsDense "demo_g2" 1 ∧
  PhysicalName KindObjectsDense "demo" 2 = inl "demo_g2_objects_dense".
Proof.
  split; [|reflexivity].
  apply (PhysicalName_collides KindObjectsDense "demo" 2); [by eexists|done|done].
Defined.

(** An incarnation addresses a resource whatever raw generation it was built
    from: for a named namespace and a declared kind the "must" form never
    panics, and generations below 1 address generation 1. *)
Theorem Incarnation_total ns raw k :
  ns ≠ "" → is_Some (kind_store k) →
  let i := NewIncarnation ns raw in
  (1 <= Generation i)%Z ∧
  (∃ n, Incarnation_MustPhysicalName i k = Some n ∧ Incarnation_PhysicalName i k = inl n) ∧
  ((raw <= 1)%Z → Incarnation_QdrantNamespace i = ns ∧ Incarnation_RedisNamespace i = ns).
Proof.
  intros Hns [st Hk] i. subst i. unfold Incarnation_MustPhysicalName, MustPhysicalName,
    Incarnation_PhysicalName, Incarnation_QdrantNamespace, Incarnation_RedisNamespace,
    RedisNamespace, QdrantNamespace, Generation; simpl.
  destruct (Z.ltb_spec raw 1) as [Hr|Hr]; rewrite !PhysicalName_cases, Hk;
    rewrite (decide_False (P := ns = "")) by done; rewrite decide_False by lia;
    (split_and!; [lia|destruct st; eauto|]); [done|].
  intros ?. destruct (Z.ltb_spec raw 2); [done|lia].
Qed.

Lemma Incarnation_total_witness :
  (1 <= Generation (NewIncarnation "demo" (-7)))%Z ∧
  Incarnation_MustPhysicalName (NewIncarnation "demo" (-7)) KindTrending = Some "trending:demo".
Proof.
  split; [|reflexivity].
  refine (proj1 (Incarnation_total "demo" (-7) KindTrending _ _)); [done|by eexists].
Defined.
