(* ===== verification/NsLedger.v ===== *)
(** * The durable namespace ledger

    [internal/core/nslifecycle/types.go] and
    [internal/core/nslifecycle/repository.go]: the [namespace_lifecycles] table
    and the [system_lifecycle] singleton with the statements that read and
    change them. Each statement is a pure function on the two relations
    ([sql_*]); the repository methods run one statement each in the world,
    where the call to PostgreSQL may fail. *)

From stdpp Require Import base tactics gmap strings list sorting.
From Stdlib Require Import ZArith Lia.
From S2P Require Import Prelude GoLib.

(** ** Types *)

Inductive NamespaceState := StateActive | StateDeleting | StateDeleted.
Inductive SystemState := SystemActive | SystemResetting.

#[export] Instance NamespaceState_eq_dec : EqDecision NamespaceState.
Proof. solve_decision. Defined.
#[export] Instance SystemState_eq_dec : EqDecision SystemState.
Proof. solve_decision. Defined.

(** Sentinels are named after the Go variables. *)
Definition ErrNamespaceNotFound : string := "nslifecycle.ErrNamespaceNotFound".
Definition ErrNamespaceNotActive : string := "nslifecycle.ErrNamespaceNotActive".
Definition ErrSystemResetting : string := "nslifecycle.ErrSystemResetting".
Definition ErrLeaseRequired : string := "nslifecycle.ErrLeaseRequired".
Definition ErrGlobalExclusiveRequired : string := "nslifecycle.ErrGlobalExclusiveRequired".
Definition ErrLegacyEnvelopesOpen : string := "nslifecycle.ErrLegacyEnvelopesOpen".
Definition ErrAdoptionEvidence : string := "nslifecycle.ErrAdoptionEvidence".

Record NamespaceLifecycle := {
  nl_namespace : string;
  nl_generation : Z;
  nl_state : NamespaceState;
  nl_activated_at : Z;
  nl_legacy : bool;
  nl_last_error : string;
  nl_updated_at : Z;
}.

Record SystemLifecycle := {
  sl_state : SystemState;
  sl_disabled_at : option Z;
  sl_evidence : string;
  sl_last_error : string;
  sl_updated_at : Z;
}.

Inductive EnvelopeDisposition := EnvelopeProcess | EnvelopeStale.

#[export] Instance EnvelopeDisposition_eq_dec : EqDecision EnvelopeDisposition.
Proof. solve_decision. Defined.

Record CleanupCandidate := { cc_namespace : string; cc_generation : Z }.

#[export] Instance CleanupCandidate_eq_dec : EqDecision CleanupCandidate.
Proof. solve_decision. Defined.

(** ** Relations *)

Record ns_row := {
  r_generation : Z;
  r_state : NamespaceState;
  r_activated_at : Z;
  r_legacy : bool;
  r_last_error : option string;
  r_updated_at : Z;
}.

Record sys_row := {
  y_state : SystemState;
  y_disabled_at : option Z;
  y_evidence : option string;
  y_last_error : option string;
  y_updated_at : Z;
}.

(** Both relations together, as one PostgreSQL snapshot. *)
Record ledger := {
  l_rows : gmap string ns_row;
  l_sys : sys_row;
}.

Definition set_rows (f : gmap string ns_row → gmap string ns_row) (l : ledger) : ledger :=
  {| l_rows := f (l_rows l); l_sys := l_sys l |}.
Definition set_sys (f : sys_row → sys_row) (l : ledger) : ledger :=
  {| l_rows := l_rows l; l_sys := f (l_sys l) |}.

(** The row scan of [scanNamespace]. *)
Definition scanNamespace (ns : string) (r : ns_row) : NamespaceLifecycle :=
  {| nl_namespace := ns; nl_generation := r_generation r; nl_state := r_state r;
     nl_activated_at := r_activated_at r; nl_legacy := r_legacy r;
     nl_last_error := default "" (r_last_error r); nl_updated_at := r_updated_at r |}.

Definition scanSystem (y : sys_row) : SystemLifecycle :=
  {| sl_state := y_state y; sl_disabled_at := y_disabled_at y;
     sl_evidence := default "" (y_evidence y);
     sl_last_error := default "" (y_last_error y); sl_updated_at := y_updated_at y |}.

(** ** Statements *)

(** The result of an [INSERT ... ON CONFLICT DO UPDATE ... RETURNING]: the
    statement may raise, return no row, or return one. *)
Inductive sql_result (A : Type) := SqlRaise | SqlNoRow | SqlRow (a : A).
Arguments SqlRaise {A}.
Arguments SqlNoRow {A}.
Arguments SqlRow {A} a.

Definition sql_activate (now : Z) (ns : string) (l : ledger) : sql_result ns_row * ledger :=
  let write r := (SqlRow r, set_rows (<[ns := r]>) l) in
  match l_rows l !! ns with
  | None =>
      write {| r_generation := 1; r_state := StateActive; r_activated_at := now;
               r_legacy := bool_decide (y_disabled_at (l_sys l) = None);
               r_last_error := None; r_updated_at := now |}
  | Some r =>
      match r_state r with
      | StateDeleting => (SqlNoRow, l)
      | StateActive =>
          write {| r_generation := r_generation r; r_state := StateActive;
                   r_activated_at := r_activated_at r; r_legacy := r_legacy r;
                   r_last_error := r_last_error r; r_updated_at := r_updated_at r |}
      | StateDeleted =>
          (* bigint addition raises on overflow *)
          if (max_int64 <? r_generation r + 1)%Z then (SqlRaise, l)
          else write {| r_generation := r_generation r + 1; r_state := StateActive;
                        r_activated_at := now; r_legacy := false;
                        r_last_error := None; r_updated_at := now |}
      end
  end.

Definition sql_start_delete (now : Z) (ns : string) (l : ledger) : sql_result ns_row * ledger :=
  match l_rows l !! ns with
  | Some r =>
      if bool_decide (r_state r = StateActive ∨ r_state r = StateDeleting) then
        let r' := {| r_generation := r_generation r; r_state := StateDeleting;
                     r_activated_at := r_activated_at r; r_legacy := r_legacy r;
                     r_last_error := None; r_updated_at := now |} in
        (SqlRow r', set_rows (<[ns := r']>) l)
      else (SqlNoRow, l)
  | None => (SqlNoRow, l)
  end.

(** Returns [RowsAffected]. *)
Definition sql_complete_delete (now : Z) (ns : string) (generation : Z) (l : ledger)
    : nat * ledger :=
  match l_rows l !! ns with
  | Some r =>
      if bool_decide (r_generation r = generation ∧ r_state r = StateDeleting) then
        (1, set_rows (<[ns := {| r_generation := r_generation r; r_state := StateDeleted;
                                 r_activated_at := r_activated_at r; r_legacy := r_legacy r;
                                 r_last_error := None; r_updated_at := now |}]>) l)
      else (0, l)
  | None => (0, l)
  end.

Definition sql_record_error (now : Z) (ns : string) (generation : Z) (message : string)
    (l : ledger) : ledger :=
  match l_rows l !! ns with
  | Some r =>
      if bool_decide (r_generation r = generation ∧ r_state r = StateDeleting) then
        set_rows (<[ns := {| r_generation := r_generation r; r_state := r_state r;
                             r_activated_at := r_activated_at r; r_legacy := r_legacy r;
                             r_last_error := Some message; r_updated_at := now |}]>) l
      else l
  | None => l
  end.

Definition sql_start_reset (now : Z) : ledger → ledger :=
  set_sys (λ y, {| y_state := SystemResetting; y_disabled_at := y_disabled_at y;
                   y_evidence := y_evidence y; y_last_error := None; y_updated_at := now |}).

Definition sql_complete_reset (now : Z) : ledger → ledger :=
  set_sys (λ y, if bool_decide (y_state y = SystemResetting) then
                  {| y_state := SystemActive; y_disabled_at := y_disabled_at y;
                     y_evidence := y_evidence y; y_last_error := None; y_updated_at := now |}
                else y).

Definition sql_record_reset_error (now : Z) (message : string) : ledger → ledger :=
  set_sys (λ y, if bool_decide (y_state y = SystemResetting) then
                  {| y_state := y_state y; y_disabled_at := y_disabled_at y;
                     y_evidence := y_evidence y; y_last_error := Some message;
                     y_updated_at := now |}
                else y).

(** The two statements of [DisableLegacy]'s transaction; the first returns
    whether it changed the singleton. *)
Definition sql_close_gate (now : Z) (evidence : string) (at_ : Z) (l : ledger) : bool * ledger :=
  match y_disabled_at (l_sys l) with
  | Some _ => (false, l)
  | None =>
      (true, set_sys (λ y, {| y_state := y_state y; y_disabled_at := Some at_;
                              y_evidence := Some evidence; y_last_error := y_last_error y;
                              y_updated_at := now |}) l)
  end.

Definition sql_close_namespace_gates (now : Z) : ledger → ledger :=
  set_rows (fmap (λ r, if r_legacy r then
    {| r_generation := r_generation r; r_state := r_state r;
       r_activated_at := r_activated_at r; r_legacy := false;
       r_last_error := r_last_error r; r_updated_at := now |} else r)).

(** Cleanup candidates. [ORDER BY] and the row comparison on [TEXT] use the
    database's collation, an interface of this component. *)
Class Collation := {
  coll_ltb : string → string → bool;
  coll_irrefl : ∀ s, coll_ltb s s = false;
  coll_trans : ∀ s t u, coll_ltb s t = true → coll_ltb t u = true → coll_ltb s u = true;
  coll_total : ∀ s t, s = t ∨ coll_ltb s t = true ∨ coll_ltb t s = true;
  coll_empty : ∀ s, s ≠ "" → coll_ltb "" s = true;
}.

(** The "C" collation compares bytes. *)
#[export] Program Instance bytewise_collation : Collation := {
  coll_ltb s t := String.ltb s t;
}.
Next Obligation.
  intros s. unfold String.ltb. assert (String.compare s s = Eq) as ->; [|done].
  induction s as [|c s IH]; simpl; [done|]. unfold Ascii.compare. by rewrite N.compare_refl.
Qed.
Next Obligation.
  intros s t u. unfold String.ltb. revert s u.
  induction t as [|c t IH]; intros s u; [by destruct s|].
  destruct s as [|a s], u as [|b u]; simpl; try done.
  destruct (Ascii.compare a c) eqn:Hac; [|intros _|done];
  destruct (Ascii.compare c b) eqn:Hcb; try done;
    unfold Ascii.compare in *.
  - apply N.compare_eq_iff in Hac, Hcb. rewrite Hac, Hcb, N.compare_refl. apply IH.
  - apply N.compare_eq_iff in Hac. by rewrite Hac, Hcb.
  - apply N.compare_eq_iff in Hcb. by rewrite <- Hcb, Hac.
  - intros _. apply N.compare_lt_iff in Hac, Hcb.
    by rewrite (proj2 (N.compare_lt_iff _ _) (N.lt_trans _ _ _ Hac Hcb)).
Qed.
Next Obligation.
  intros s t. unfold String.ltb. rewrite (String.compare_antisym t s).
  destruct (String.compare s t) eqn:E; simpl; auto.
  left. by apply String.compare_eq_iff.
Qed.
Next Obligation. by intros [|c s]. Qed.

Section candidates.
Context `{Collation}.

(** [(a.namespace, a.generation) < (b.namespace, b.generation)] *)
Definition cand_ltb (a b : CleanupCandidate) : bool :=
  coll_ltb (cc_namespace a) (cc_namespace b) ||
  (bool_decide (cc_namespace a = cc_namespace b) && (cc_generation a <? cc_generation b)%Z).

Definition cand_le (a b : CleanupCandidate) : Prop := cand_ltb b a = false.

#[export] Instance cand_le_dec a b : Decision (cand_le a b).
Proof. unfold cand_le. apply _. Defined.

(** [ORDER BY namespace] on ledger rows. *)
Definition row_le (p q : string * ns_row) : Prop := coll_ltb q.1 p.1 = false.

#[export] Instance row_le_dec p q : Decision (row_le p q).
Proof. unfold row_le. apply _. Defined.

(** [generate_series(1, n)] *)
Definition series (n : Z) : list Z := Z.of_nat <$> seq 1 (Z.to_nat n).

(** The superseded generations of one ledger row. *)
Definition row_candidates (ns : string) (r : ns_row) : list CleanupCandidate :=
  (λ g, {| cc_namespace := ns; cc_generation := g |}) <$>
    series (match r_state r with
            | StateDeleted => r_generation r
            | _ => r_generation r - 1
            end)%Z.

Definition all_candidates (rows : gmap string ns_row) : list CleanupCandidate :=
  p ← map_to_list rows; row_candidates p.1 p.2.

Definition sql_list_candidates (after : CleanupCandidate) (limit : nat) (l : ledger)
    : list CleanupCandidate :=
  take limit
    (filter (λ c, cand_ltb after c = true)
      (merge_sort cand_le (all_candidates (l_rows l)))).
End candidates.

(** ** World

    [X] is the rest of the state an application callback may change. The
    advisory locks PostgreSQL holds for each session are in [w_adv]; the Go
    lock objects, which remember what they hold and whether they have been
    released, are in [w_lockobjs]. *)

Record lock_obj := {
  lo_held : list (Z * bool);  (* key, shared? *)
  lo_done : bool;
  lo_err : error;
}.

Record World (X : Type) := {
  w_ledger : ledger;
  w_now : Z;
  w_adv : list (nat * Z * bool);  (* session, key, shared? *)
  w_lockobjs : gmap nat lock_obj;
  w_next : nat;
  w_faults : list bool;
  w_ext : X;
}.
Arguments w_ledger {X} _.
Arguments w_now {X} _.
Arguments w_adv {X} _.
Arguments w_lockobjs {X} _.
Arguments w_next {X} _.
Arguments w_faults {X} _.
Arguments w_ext {X} _.

Section world.
Context {X : Type}.
Implicit Types w : World X.

Definition set_ledger (l : ledger) w : World X :=
  {| w_ledger := l; w_now := w_now w; w_adv := w_adv w; w_lockobjs := w_lockobjs w;
     w_next := w_next w; w_faults := w_faults w; w_ext := w_ext w |}.
Definition set_adv (a : list (nat * Z * bool)) w : World X :=
  {| w_ledger := w_ledger w; w_now := w_now w; w_adv := a; w_lockobjs := w_lockobjs w;
     w_next := w_next w; w_faults := w_faults w; w_ext := w_ext w |}.
Definition set_lockobjs (o : gmap nat lock_obj) w : World X :=
  {| w_ledger := w_ledger w; w_now := w_now w; w_adv := w_adv w; w_lockobjs := o;
     w_next := w_next w; w_faults := w_faults w; w_ext := w_ext w |}.
Definition bump_next w : World X :=
  {| w_ledger := w_ledger w; w_now := w_now w; w_adv := w_adv w; w_lockobjs := w_lockobjs w;
     w_next := S (w_next w); w_faults := w_faults w; w_ext := w_ext w |}.
Definition set_w_faults (l : list bool) w : World X :=
  {| w_ledger := w_ledger w; w_now := w_now w; w_adv := w_adv w; w_lockobjs := w_lockobjs w;
     w_next := w_next w; w_faults := l; w_ext := w_ext w |}.
Definition set_ext (x : X) w : World X :=
  {| w_ledger := w_ledger w; w_now := w_now w; w_adv := w_adv w; w_lockobjs := w_lockobjs w;
     w_next := w_next w; w_faults := w_faults w; w_ext := x |}.

#[export] Program Instance World_faulty : Faulty (World X) :=
  { faults := w_faults; set_faults := set_w_faults }.
Next Obligation. done. Qed.
End world.

(** ** Repository

    Go's [(value, error)] results are pairs; [None] is the nil pointer. *)
Section repository.
Context {X : Type}.
Abbreviation W := (World X).

(** The outcome of the next external call. *)
Definition fault : M W bool := pop_fault.

(** Run one statement: a fault of the driver leaves the ledger unchanged. *)
Definition run_sql {A} (fail : A) (stmt : Z → ledger → A * ledger) : M W A :=
  let! f := fault in
  if f then ret fail
  else λ w, let r := stmt (w_now w) (w_ledger w) in (r.1, set_ledger r.2 w).

Definition lifecycle_of (ns : string) (no_row : error) (r : sql_result ns_row)
    : option NamespaceLifecycle * error :=
  match r with
  | SqlRow row => (Some (scanNamespace ns row), [])
  | SqlNoRow => (None, no_row)
  | SqlRaise => (None, [ErrDriver])
  end.

Definition repo_Activate (ns : string) : M W (option NamespaceLifecycle * error) :=
  let! r := run_sql SqlRaise (λ now l, sql_activate now ns l) in
  ret (lifecycle_of ns [ErrNamespaceNotActive] r).

Definition repo_GetNamespace (ns : string) : M W (option NamespaceLifecycle * error) :=
  let! r := run_sql SqlRaise (λ _ l,
    (match l_rows l !! ns with Some r => SqlRow r | None => SqlNoRow end, l)) in
  ret (lifecycle_of ns [ErrNamespaceNotFound] r).

Definition repo_StartDelete (ns : string) : M W (option NamespaceLifecycle * error) :=
  let! r := run_sql SqlRaise (λ now l, sql_start_delete now ns l) in
  ret (lifecycle_of ns [ErrNamespaceNotFound] r).

Definition repo_CompleteDelete (ns : string) (generation : Z) : M W error :=
  let! r := run_sql None (λ now l, let r := sql_complete_delete now ns generation l in
                             (Some r.1, r.2)) in
  ret (match r with
        | None => [ErrDriver]
        | Some affected => if bool_decide (affected ≠ 1) then [ErrNamespaceNotActive] else []
        end).

Definition exec_sql (stmt : Z → ledger → ledger) : M W error :=
  run_sql [ErrDriver] (λ now l, ([], stmt now l)).

Definition repo_RecordNamespaceError (ns : string) (generation : Z) (message : string) : M W error :=
  exec_sql (λ now, sql_record_error now ns generation message).

Definition repo_GetSystem : M W (option SystemLifecycle * error) :=
  run_sql (None, [ErrDriver]) (λ _ l, ((Some (scanSystem (l_sys l)), []), l)).

Definition repo_StartReset : M W error := exec_sql sql_start_reset.
Definition repo_CompleteReset : M W error := exec_sql sql_complete_reset.
Definition repo_RecordResetError (message : string) : M W error :=
  exec_sql (λ now, sql_record_reset_error now message).

(** [pgx.BeginFunc]: begin, the body, commit; any failure rolls back. *)
Definition repo_DisableLegacy (evidence : string) (at_ : Z) : M W (bool * error) :=
  if bool_decide (evidence = "") then ret (false, [ErrAdoptionEvidence])
  else
    let! begin_fails := fault in
    if begin_fails then ret (false, [ErrDriver]) else
    let! before := gets w_ledger in
    let rollback : M W (bool * error) := (modify (set_ledger before) ;;! ret (false, [ErrDriver])) in
    let! r1 := run_sql None (λ now l, let r := sql_close_gate now evidence at_ l in (Some r.1, r.2)) in
    match r1 with
    | None => rollback
    | Some changed =>
        let! e2 := (if changed then exec_sql sql_close_namespace_gates else ret []) in
        if nil_err e2 then
          let! commit_fails := fault in
          if commit_fails then rollback else ret (changed, [])
        else rollback
    end.

Definition repo_ListCleanupCandidates `{Collation} (after : CleanupCandidate) (limit : Z)
    : M W (list CleanupCandidate * error) :=
  if (limit <=? 0)%Z then ret ([], [])
  else run_sql ([], [ErrDriver]) (λ _ l,
         ((sql_list_candidates after (Z.to_nat limit) l, []), l)).

Definition repo_ListNonDeleted `{Collation} : M W (list NamespaceLifecycle * error) :=
  run_sql ([], [ErrDriver]) (λ _ l,
    (((λ p, scanNamespace p.1 p.2) <$>
        merge_sort row_le
          (filter (λ p, r_state p.2 ≠ StateDeleted) (map_to_list (l_rows l))), []), l)).
End repository.

(** ** The ledger as a state machine *)

(** Every way the repository changes the ledger. The two statements of
    [DisableLegacy] commit together. *)
Inductive ledger_op :=
  | OpActivate (ns : string)
  | OpStartDelete (ns : string)
  | OpCompleteDelete (ns : string) (generation : Z)
  | OpRecordError (ns : string) (generation : Z) (message : string)
  | OpStartReset
  | OpCompleteReset
  | OpRecordResetError (message : string)
  | OpDisableLegacy (evidence : string) (at_ : Z).

Definition sql_disable_legacy (now : Z) (evidence : string) (at_ : Z) (l : ledger) : bool * ledger :=
  let r := sql_close_gate now evidence at_ l in
  if r.1 then (true, sql_close_namespace_gates now r.2) else (false, l).

Definition apply_op (now : Z) (op : ledger_op) (l : ledger) : ledger :=
  match op with
  | OpActivate ns => (sql_activate now ns l).2
  | OpStartDelete ns => (sql_start_delete now ns l).2
  | OpCompleteDelete ns g => (sql_complete_delete now ns g l).2
  | OpRecordError ns g m => sql_record_error now ns g m l
  | OpStartReset => sql_start_reset now l
  | OpCompleteReset => sql_complete_reset now l
  | OpRecordResetError m => sql_record_reset_error now m l
  | OpDisableLegacy e at_ => (sql_disable_legacy now e at_ l).2
  end.

Definition run_ops (l : ledger) (ops : list (Z * ledger_op)) : ledger :=
  foldl (λ l op, apply_op op.1 op.2 l) l ops.

(** Well-formedness: generations are positive [bigint]s, only generation 1 may
    accept generation-less envelopes and only while the global gate is open,
    and the gate carries its evidence (the CHECK constraints of migration 024
    and the rule the repository comments state). *)
Definition row_wf (y : sys_row) (r : ns_row) : Prop :=
  (1 <= r_generation r <= max_int64)%Z ∧
  (r_legacy r = true → r_generation r = 1%Z ∧ y_disabled_at y = None).

Definition ledger_wf (l : ledger) : Prop :=
  map_Forall (λ _ r, row_wf (l_sys l) r) (l_rows l) ∧
  (y_disabled_at (l_sys l) = None ↔ y_evidence (l_sys l) = None).

(** What one operation may do to one row. *)
Inductive row_trans : ns_row → ns_row → Prop :=
  | trans_stay r r' :
      r_generation r' = r_generation r → r_state r' = r_state r → row_trans r r'
  | trans_deleting r r' :
      r_generation r' = r_generation r → r_state r = StateActive →
      r_state r' = StateDeleting → row_trans r r'
  | trans_deleted r r' :
      r_generation r' = r_generation r → r_state r = StateDeleting →
      r_state r' = StateDeleted → row_trans r r'
  | trans_recreate r r' :
      r_generation r' = (r_generation r + 1)%Z → (r_generation r + 1 <= max_int64)%Z →
      r_state r = StateDeleted → r_state r' = StateActive → r_legacy r' = false → row_trans r r'.

#[export] Hint Constructors row_trans : codohue.

(** The rows an operation leaves behind. *)
Lemma apply_op_row now op l ns r :
  l_rows l !! ns = Some r →
  ∃ r', l_rows (apply_op now op l) !! ns = Some r' ∧ row_trans r r' ∧
        (r_legacy r' = true → r_legacy r = true).
Proof.
  intros Hr. destruct op as [n|n|n g|n g m| | |m|e a]; simpl; eauto 6 with codohue.
  - unfold sql_activate. destruct (decide (n = ns)) as [->|Hne].
    + rewrite Hr. destruct (r_state r) eqn:Hs; simpl; rewrite ?lookup_insert_eq;
        [|eauto 6 with codohue|destruct (Z.ltb_spec max_int64 (r_generation r + 1)); simpl;
          rewrite ?lookup_insert_eq; eauto 6 with codohue].
      eexists; split; [done|]. split; [apply trans_stay; auto|done].
      eexists; split; [done|]. split; [apply trans_recreate; auto|done].
    + exists r. split; [|eauto with codohue].
      destruct (l_rows l !! n) as [r0|]; [destruct (r_state r0)|]; simpl;
        rewrite ?lookup_insert_ne by done; try done.
      destruct (max_int64 <? _)%Z; simpl; by rewrite ?lookup_insert_ne.
  - unfold sql_start_delete. destruct (decide (n = ns)) as [->|Hne].
    + rewrite Hr. case_bool_decide as Hs; simpl; rewrite ?lookup_insert_eq; [|eauto 6 with codohue].
      eexists; split; [done|]. split; [|done]. destruct Hs; [by apply trans_deleting|by apply trans_stay].
    + exists r. split; [|eauto with codohue].
      destruct (l_rows l !! n) as [r0|]; [case_bool_decide|]; simpl; by rewrite ?lookup_insert_ne.
  - unfold sql_complete_delete. destruct (decide (n = ns)) as [->|Hne].
    + rewrite Hr. case_bool_decide as Hs; simpl; rewrite ?lookup_insert_eq; [|eauto 6 with codohue].
      eexists; split; [done|]. split; [|done]. destruct Hs. by apply trans_deleted.
    + exists r. split; [|eauto with codohue].
      destruct (l_rows l !! n) as [r0|]; [case_bool_decide|]; simpl; by rewrite ?lookup_insert_ne.
  - unfold sql_record_error. destruct (decide (n = ns)) as [->|Hne].
    + rewrite Hr. case_bool_decide as Hs; simpl; rewrite ?lookup_insert_eq; eauto 6 with codohue.
    + exists r. split; [|eauto with codohue].
      destruct (l_rows l !! n) as [r0|]; [case_bool_decide|]; simpl; by rewrite ?lookup_insert_ne.
  - unfold sql_disable_legacy, sql_close_gate.
    destruct (y_disabled_at (l_sys l)); simpl; [eauto 6 with codohue|].
    rewrite lookup_fmap, Hr. simpl. destruct (r_legacy r) eqn:?; eauto 6 with codohue.
Qed.

(** The gate only ever closes. *)
Lemma apply_op_gate now op l :
  y_disabled_at (l_sys (apply_op now op l)) = None → y_disabled_at (l_sys l) = None.
Proof.
  destruct op as [n|n|n g|n g m| | |m|e a]; simpl.
  - unfold sql_activate. repeat split_if; done.
  - unfold sql_start_delete. repeat split_if; done.
  - unfold sql_complete_delete. repeat split_if; done.
  - unfold sql_record_error. repeat split_if; done.
  - done.
  - by case_bool_decide.
  - by case_bool_decide.
  - unfold sql_disable_legacy, sql_close_gate.
    destruct (y_disabled_at (l_sys l)) eqn:E; simpl; congruence.
Qed.

(** A row that an operation creates. *)
Lemma apply_op_fresh now op l ns r' :
  l_rows l !! ns = None → l_rows (apply_op now op l) !! ns = Some r' →
  op = OpActivate ns ∧ r_generation r' = 1%Z ∧ r_state r' = StateActive ∧
  l_sys (apply_op now op l) = l_sys l ∧
  r_legacy r' = bool_decide (y_disabled_at (l_sys l) = None).
Proof.
  intros Hn. destruct op as [n|n|n g|n g m| | |m|e a]; simpl; try congruence.
  - unfold sql_activate. destruct (decide (n = ns)) as [->|Hne].
    + rewrite Hn. simpl. rewrite lookup_insert_eq. by intros [= <-].
    + repeat split_if; simpl; rewrite ?lookup_insert_ne by done; congruence.
  - unfold sql_start_delete. destruct (decide (n = ns)) as [->|Hne]; [rewrite Hn; simpl; congruence|].
    repeat split_if; simpl; rewrite ?lookup_insert_ne by done; congruence.
  - unfold sql_complete_delete. destruct (decide (n = ns)) as [->|Hne]; [rewrite Hn; simpl; congruence|].
    repeat split_if; simpl; rewrite ?lookup_insert_ne by done; congruence.
  - unfold sql_record_error. destruct (decide (n = ns)) as [->|Hne]; [rewrite Hn; simpl; congruence|].
    repeat split_if; simpl; rewrite ?lookup_insert_ne by done; congruence.
  - unfold sql_disable_legacy, sql_close_gate.
    repeat split_if; simplify_eq/=; rewrite ?lookup_fmap, ?Hn; simpl; congruence.
Qed.

Lemma row_trans_generation r r' :
  row_trans r r' → (r_generation r <= r_generation r')%Z ∧
  (r_generation r' = r_generation r → r_state r ≠ StateActive → r_state r' ≠ StateActive).
Proof. destruct 1; split; try lia; intros; congruence || (exfalso; lia) || idtac. Qed.

(** Once a generation has left the active state, no sequence of operations
    makes it active again; what becomes active later is a later generation. *)
Definition retired (g : Z) (r : ns_row) : Prop :=
  (g < r_generation r)%Z ∨ (r_generation r = g ∧ r_state r ≠ StateActive).

Lemma run_ops_retired ops l ns g r :
  l_rows l !! ns = Some r → retired g r →
  ∃ r', l_rows (run_ops l ops) !! ns = Some r' ∧ retired g r'.
Proof.
  revert l r. induction ops as [|[now op] ops IH]; intros l r Hr Hret; [by exists r|].
  destruct (apply_op_row now op l ns r Hr) as (r1 & Hr1 & Ht & _).
  apply (IH _ r1 Hr1). destruct (row_trans_generation _ _ Ht) as [Hle Hst].
  unfold retired in *. destruct Hret as [?|[Hg Hs]]; [left; lia|].
  destruct (decide (r_generation r1 = r_generation r)) as [He|]; [|left; lia].
  right. split; [congruence|auto].
Qed.

(** Only [DisableLegacy] moves the gate, and it leaves no row accepting
    generation-less envelopes. *)
Lemma apply_op_gate_moves now op l :
  (y_disabled_at (l_sys (apply_op now op l)) = y_disabled_at (l_sys l) ∧
   y_evidence (l_sys (apply_op now op l)) = y_evidence (l_sys l)) ∨
  (is_Some (y_disabled_at (l_sys (apply_op now op l))) ∧
   is_Some (y_evidence (l_sys (apply_op now op l))) ∧
   ∀ ns r, l_rows (apply_op now op l) !! ns = Some r → r_legacy r = false).
Proof.
  destruct op as [n|n|n g|n g m| | |m|e a]; simpl.
  - left. unfold sql_activate. repeat split_if; done.
  - left. unfold sql_start_delete. repeat split_if; done.
  - left. unfold sql_complete_delete. repeat split_if; done.
  - left. unfold sql_record_error. repeat split_if; done.
  - by left.
  - left. by case_bool_decide.
  - left. by case_bool_decide.
  - unfold sql_disable_legacy, sql_close_gate.
    destruct (y_disabled_at (l_sys l)) eqn:E; simpl; [by left; rewrite E|right].
    split_and!; [eauto|eauto|]. intros ns r.
    rewrite lookup_fmap, fmap_Some. intros (r0 & _ & ->). by destruct (r_legacy r0) eqn:?.
Qed.

Lemma apply_op_bound now op l ns r :
  map_Forall (λ _ r, (1 <= r_generation r <= max_int64)%Z) (l_rows l) →
  l_rows (apply_op now op l) !! ns = Some r → (1 <= r_generation r <= max_int64)%Z.
Proof.
  intros Hl Hr. destruct (l_rows l !! ns) as [r0|] eqn:H0.
  - pose proof (Hl _ _ H0) as Hb. simpl in Hb.
    destruct (apply_op_row now op l ns r0 H0) as (r' & Hr' & Ht & _). simplify_eq.
    destruct Ht; lia.
  - destruct (apply_op_fresh _ _ _ _ _ H0 Hr) as (_ & -> & _). unfold max_int64. lia.
Qed.

Lemma apply_op_wf now op l : ledger_wf l → ledger_wf (apply_op now op l).
Proof.
  intros [Hrows Hev]. split.
  - intros ns r' Hr'. split.
    { eapply apply_op_bound; [|done]. intros i r Hr. by apply (Hrows i r). }
    intros Hleg. destruct (apply_op_gate_moves now op l) as [[Hd _]|(_ & _ & Hall)];
      [|specialize (Hall _ _ Hr'); congruence].
    rewrite Hd. destruct (l_rows l !! ns) as [r|] eqn:Hr.
    + destruct (apply_op_row now op l ns r Hr) as (r1 & Hr1 & Ht & Hl). simplify_eq.
      destruct (Hrows _ _ Hr) as [_ Hw]. destruct (Hw (Hl Hleg)) as [Hg ?].
      split; [|done]. destruct Ht; congruence.
    + destruct (apply_op_fresh _ _ _ _ _ Hr Hr') as (_ & ? & _ & _ & Hb).
      split; [done|]. rewrite Hb in Hleg. by apply bool_decide_eq_true in Hleg.
  - destruct (apply_op_gate_moves now op l) as [[-> ->]|([? ->] & [? ->] & _)]; [done|].
    split; discriminate.
Qed.

Lemma run_ops_wf ops l : ledger_wf l → ledger_wf (run_ops l ops).
Proof.
  revert l. induction ops as [|[now op] ops IH]; intros l Hl; [done|].
  by apply IH, apply_op_wf.
Qed.

(** A repository method changes the ledger by one operation or, when the
    driver fails or no row matches, not at all. *)
Lemma run_sql_cases {X A} (fail : A) stmt (w : World X) :
  (∃ w', faults w = true :: w_faults w' ∧ w_ledger w' = w_ledger w ∧ w_now w' = w_now w ∧
         w_adv w' = w_adv w ∧ w_lockobjs w' = w_lockobjs w ∧ w_next w' = w_next w ∧
         w_ext w' = w_ext w ∧ run_sql fail stmt w = (fail, w')) ∨
  (∃ w', w_ledger w' = (stmt (w_now w) (w_ledger w)).2 ∧ w_now w' = w_now w ∧
         w_adv w' = w_adv w ∧ w_lockobjs w' = w_lockobjs w ∧ w_next w' = w_next w ∧
         w_ext w' = w_ext w ∧
         run_sql fail stmt w = ((stmt (w_now w) (w_ledger w)).1, w')).
Proof.
  unfold run_sql, bind, fault, pop_fault. simpl.
  destruct (w_faults w) as [|[] fs] eqn:Hf; simpl.
  - right. exists (set_ledger (stmt (w_now w) (w_ledger w)).2 w). split_and!; reflexivity.
  - left. exists (set_w_faults fs w). split_and!; done.
  - right. exists (set_ledger (stmt (w_now w) (w_ledger w)).2 (set_w_faults fs w)).
    split_and!; reflexivity.
Qed.

(** Without faults a read is just its answer. *)
Lemma run_sql_read_nil {X A} (fail : A) (f : ledger → A) (w : World X) :
  w_faults w = [] → run_sql fail (λ _ l, (f l, l)) w = (f (w_ledger w), w).
Proof.
  intros Hf. unfold run_sql, bind, fault. rewrite pop_fault_nil by done. simpl.
  by destruct w.
Qed.

Lemma repo_DisableLegacy_ledger {X} evidence at_ (w : World X) :
  let r := repo_DisableLegacy evidence at_ w in
  (evidence = "" ∧ r.1 = (false, [ErrAdoptionEvidence]) ∧ w_ledger r.2 = w_ledger w) ∨
  (r.1 = (false, [ErrDriver]) ∧ w_ledger r.2 = w_ledger w) ∨
  (evidence ≠ "" ∧ r.1 = ((sql_disable_legacy (w_now w) evidence at_ (w_ledger w)).1, []) ∧
   w_ledger r.2 = (sql_disable_legacy (w_now w) evidence at_ (w_ledger w)).2).
Proof.
  intros r. subst r. unfold repo_DisableLegacy. case_bool_decide as He; [by left|]. right.
  unfold bind, fault, exec_sql, sql_disable_legacy, sql_close_gate.
  assert (∀ w0 : World X, w_ledger (pop_fault w0).2 = w_ledger w0 ∧ w_now (pop_fault w0).2 = w_now w0) as Hp.
  { intros w0. unfold pop_fault. simpl. by destruct (w_faults w0). }
  destruct (Hp w) as [Hp1 Hp2].
  destruct (pop_fault w) as [[] w1]; simpl in *; [by left|].
  match goal with |- context [run_sql ?f ?s w1] =>
    destruct (run_sql_cases f s w1) as [(w2 & _ & Hw2 & Hn2 & _ & _ & _ & _ & ->)
                                      |(w2 & Hw2 & Hn2 & _ & _ & _ & _ & ->)] end; simpl.
  { left. by rewrite Hp1. }
  rewrite Hp1, Hp2 in *. simpl in *.
  destruct (y_disabled_at (l_sys (w_ledger w))) eqn:Hd; simpl in *.
  - destruct (Hp w2) as [Hq1 Hq2]. destruct (pop_fault w2) as [[] w3]; simpl in *; [by left|].
    right. by rewrite Hq1.
  - match goal with |- context [run_sql ?f ?s w2] =>
      destruct (run_sql_cases f s w2) as [(w3 & _ & Hw3 & Hn3 & _ & _ & _ & _ & ->)
                                        |(w3 & Hw3 & Hn3 & _ & _ & _ & _ & ->)] end; simpl.
    { by left. }
    destruct (Hp w3) as [Hq1 Hq2]. destruct (pop_fault w3) as [[] w4]; simpl in *; [by left|].
    right. split; [done|]. split; [done|]. by rewrite Hq1, Hw3, Hw2, Hn2.
Qed.

(** ** Properties *)

(** The ledger migration 024 leaves behind: every configured namespace at an
    active generation 1 that accepts generation-less envelopes, the system
    active and the legacy gate open. *)
Definition migrated_ledger (configs : gmap string (Z * Z)) (now : Z) : ledger :=
  {| l_rows := (λ c, {| r_generation := 1; r_state := StateActive; r_activated_at := c.1;
                        r_legacy := true; r_last_error := None; r_updated_at := c.2 |}) <$> configs;
     l_sys := {| y_state := SystemActive; y_disabled_at := None; y_evidence := None;
                 y_last_error := None; y_updated_at := now |} |}.

Lemma migrated_ledger_wf configs now : ledger_wf (migrated_ledger configs now).
Proof.
  split; [|done]. intros ns r. simpl. rewrite lookup_fmap, fmap_Some.
  intros (c & _ & ->). split; simpl; [unfold max_int64; lia|done].
Qed.

(** Ledger invariant: every ledger reachable from the migrated database by
    any sequence of repository operations is well-formed, so generations stay
    positive 64-bit values, a generation-less envelope is accepted only for
    generation 1 while the global gate is open, and the gate has evidence. *)
Theorem ledger_reachable_wf configs now ops :
  ledger_wf (run_ops (migrated_ledger configs now) ops).
Proof. apply run_ops_wf, migrated_ledger_wf. Qed.

(** Retired generations stay retired: once the row of a namespace is
    deleting or deleted at generation [g], after any further operations the
    tombstone still exists, and if the namespace is active again then at a
    strictly larger generation. *)
Theorem ledger_retired_stays ops l ns r :
  l_rows l !! ns = Some r → r_state r ≠ StateActive →
  ∃ r', l_rows (run_ops l ops) !! ns = Some r' ∧
        (r_generation r <= r_generation r')%Z ∧
        (r_state r' = StateActive → (r_generation r < r_generation r')%Z).
Proof.
  intros Hr Hs. destruct (run_ops_retired ops l ns (r_generation r) r Hr) as (r' & Hr' & Hret).
  { by right. }
  exists r'. split; [done|]. destruct Hret as [?|[<- ?]]; [lia|]. split; [lia|done].
Qed.

Definition sample_ops : list (Z * ledger_op) :=
  [(10%Z, OpStartDelete "demo"); (11%Z, OpCompleteDelete "demo" 1); (12%Z, OpActivate "demo")].

Lemma ledger_retired_stays_witness :
  let l := run_ops (migrated_ledger {["demo" := (1, 1)%Z]} 0) (take 1 sample_ops) in
  ∃ r', l_rows (run_ops l (drop 1 sample_ops)) !! "demo" = Some r' ∧
        (1 <= r_generation r')%Z ∧ (r_state r' = StateActive → (1 < r_generation r')%Z).
Proof.
  intros l.
  exact (ledger_retired_stays (drop 1 sample_ops) l "demo"
    {| r_generation := 1; r_state := StateDeleting; r_activated_at := 1;
       r_legacy := true; r_last_error := None; r_updated_at := 10 |}
    eq_refl ltac:(discriminate)).
Defined.

(** Closing the legacy gate is all or nothing under every failure pattern of
    the database: on error the ledger is unchanged; on success with [changed]
    the gate is closed with its evidence and no namespace accepts a
    generation-less envelope; without [changed] the ledger is unchanged. *)
Theorem DisableLegacy_atomic {X} evidence at_ (w : World X) :
  let r := repo_DisableLegacy evidence at_ w in
  match r.1 with
  | (false, _) => w_ledger r.2 = w_ledger w
  | (true, e) =>
      e = [] ∧ evidence ≠ "" ∧
      y_disabled_at (l_sys (w_ledger w)) = None ∧
      y_disabled_at (l_sys (w_ledger r.2)) = Some at_ ∧
      y_evidence (l_sys (w_ledger r.2)) = Some evidence ∧
      map_Forall (λ _ row, r_legacy row = false) (l_rows (w_ledger r.2)) ∧
      dom (l_rows (w_ledger r.2)) = dom (l_rows (w_ledger w))
  end.
Proof.
  cbv zeta. destruct (repo_DisableLegacy_ledger evidence at_ w) as [(-> & -> & ->)|[[-> ->]|(He & -> & ->)]];
    [done|done|].
  unfold sql_disable_legacy, sql_close_gate.
  destruct (y_disabled_at (l_sys (w_ledger w))) eqn:Hd; simpl; [done|].
  split_and!; try done; [|by rewrite dom_fmap_L].
  intros ns row. rewrite lookup_fmap, fmap_Some. intros (r0 & _ & ->). by destruct (r_legacy r0) eqn:?.
Qed.
