(* ===== verification/NsService.v ===== *)
(** * Lifecycle coordination

    [internal/core/nslifecycle/service.go] with the lease half of
    [incarnation.go]: advisory locks, the lease carried in the context, the
    writer, exclusive and global sections, and envelope evaluation. *)

From stdpp Require Import base tactics gmap strings list.
From Stdlib Require Import ZArith Lia.
From S2P Require Import Prelude GoLib NsNames NsLedger.

(** ** Context values *)

Inductive LockMode := LockShared | LockExclusive | LockGlobalExclusive.

#[export] Instance LockMode_eq_dec : EqDecision LockMode.
Proof. solve_decision. Defined.

Record leaseValue := {
  lv_namespace : string;
  lv_generation : Z;
  lv_mode : LockMode;
}.

(** The two values the package stores in a [context.Context]. *)
Record Ctx := {
  ctx_lease : option leaseValue;
  ctx_global_exclusive : bool;
}.

Definition background : Ctx := {| ctx_lease := None; ctx_global_exclusive := false |}.

Definition with_lease (l : leaseValue) (ctx : Ctx) : Ctx :=
  {| ctx_lease := Some l; ctx_global_exclusive := ctx_global_exclusive ctx |}.

Definition with_global_exclusive (ctx : Ctx) : Ctx :=
  {| ctx_lease := ctx_lease ctx; ctx_global_exclusive := true |}.

Definition RequireNamespaceLease (ctx : Ctx) (ns : string) : error :=
  match ctx_lease ctx with
  | Some l =>
      if negb (bool_decide (lv_namespace l = ns)) || (lv_generation l <? 1)%Z
      then [ErrLeaseRequired] else []
  | None => [ErrLeaseRequired]
  end.

Definition LeaseGeneration (ctx : Ctx) (ns : string) : Z * bool :=
  match ctx_lease ctx with
  | Some l =>
      if negb (bool_decide (lv_namespace l = ns)) || (lv_generation l <? 1)%Z
      then (0%Z, false) else (lv_generation l, true)
  | None => (0%Z, false)
  end.

Definition LeaseFromGlobalExclusive (ctx : Ctx) (ns : string) (generation : Z) : Ctx + error :=
  if ctx_global_exclusive ctx then
    inl (with_lease {| lv_namespace := ns; lv_generation := generation;
                       lv_mode := LockGlobalExclusive |} ctx)
  else inr [ErrGlobalExclusiveRequired].

(** [ConfigIncarnation]: the generation of the configuration, [None] for a nil
    configuration. *)
Definition ConfigIncarnation (ns : string) (cfg_generation : option Z) : Incarnation :=
  {| inc_namespace := ns; inc_generation := default 0%Z cfg_generation |}.

Definition LeaseIncarnation (ctx : Ctx) (ns : string) : Incarnation * bool :=
  match LeaseGeneration ctx ns with
  | (g, true) => ({| inc_namespace := ns; inc_generation := g |}, true)
  | (_, false) => ({| inc_namespace := ""; inc_generation := 0 |}, false)
  end.

(** ** Advisory locks *)

Definition lockKey (name : string) : Z :=
  to_int64 (fnv64a (bytes_of ("codohue:nslifecycle:" +:+ name))).

(** [pg_advisory_lock_shared] for [LockShared], [pg_advisory_lock] otherwise;
    the unlock statements pair up the same way. *)
Definition lockQuery_shared (m : LockMode) : bool := bool_decide (m = LockShared).

Inductive Lock := NoopLock | PgLock (session : nat).

Record Service := {
  svc_pairwise : bool;  (* the locker implements [pairLocker] *)
}.

Section service.
Context {X : Type}.
Abbreviation W := (World X).

Definition upd_lockobj (s : nat) (o : lock_obj) : M W () :=
  modify (λ w, set_lockobjs (<[s := o]> (w_lockobjs w)) w).

(** One lock or unlock statement on a session. *)
Definition exec_lock (s : nat) (key : Z) (shared : bool) : M W error :=
  let! f := fault in
  if f then ret [ErrDriver]
  else modify (λ w, set_adv ((s, key, shared) :: w_adv w) w) ;;! ret [].

(** Remove one matching entry: advisory locks are counted per session. *)
Fixpoint remove_one (x : nat * Z * bool) (l : list (nat * Z * bool)) : list (nat * Z * bool) :=
  match l with
  | [] => []
  | y :: l' => if bool_decide (x = y) then l' else y :: remove_one x l'
  end.

Definition exec_unlock (s : nat) (key : Z) (shared : bool) : M W error :=
  let! f := fault in
  if f then ret [ErrDriver]
  else modify (λ w, set_adv (remove_one (s, key, shared) (w_adv w)) w) ;;! ret [].

Fixpoint unlock_all (s : nat) (held : list (Z * bool)) : M W error :=
  match held with
  | [] => ret []
  | (key, shared) :: rest =>
      let! e := exec_unlock s key shared in
      let! es := unlock_all s rest in
      ret (errors_join e es)
  end.

(** [postgresLock.Release]: runs once, in reverse acquisition order. *)
Definition Release (l : Lock) : M W error :=
  match l with
  | NoopLock => ret []
  | PgLock s =>
      let! objs := gets w_lockobjs in
      match objs !! s with
      | None => ret []
      | Some o =>
          if lo_done o then ret (lo_err o)
          else
            let! e := unlock_all s (reverse (lo_held o)) in
            upd_lockobj s {| lo_held := lo_held o; lo_done := true; lo_err := e |} ;;!
            ret e
      end
  end.

(** A pooled connection, [None] when the pool fails. *)
Definition pool_acquire : M W (option nat) :=
  let! f := fault in
  if f then ret None
  else
    let! s := gets w_next in
    modify bump_next ;;!
    ret (Some s).

Definition locker_Acquire (name : string) (m : LockMode) : M W (Lock + error) :=
  let! c := pool_acquire in
  match c with
  | None => ret (inr [ErrDriver])
  | Some s =>
      let! e := exec_lock s (lockKey name) (lockQuery_shared m) in
      if nil_err e then
        upd_lockobj s {| lo_held := [(lockKey name, lockQuery_shared m)];
                         lo_done := false; lo_err := [] |} ;;!
        ret (inl (PgLock s))
      else ret (inr e)
  end.

Definition append_held (s : nat) (k : Z * bool) : M W () :=
  modify (λ w, match w_lockobjs w !! s with
               | Some o => set_lockobjs (<[s := {| lo_held := lo_held o ++ [k];
                             lo_done := lo_done o; lo_err := lo_err o |}]> (w_lockobjs w)) w
               | None => w
               end).

Fixpoint acquire_keys (s : nat) (wants : list (Z * bool)) : M W error :=
  match wants with
  | [] => ret []
  | (key, shared) :: rest =>
      let! e := exec_lock s key shared in
      if nil_err e then
        append_held s (key, shared) ;;!
        acquire_keys s rest
      else
        (* release what this session already holds; a failure is logged *)
        Release (PgLock s) ;;!
        ret e
  end.

Definition locker_AcquirePair (ns : string) (m : LockMode) : M W (Lock + error) :=
  let! c := pool_acquire in
  match c with
  | None => ret (inr [ErrDriver])
  | Some s =>
      upd_lockobj s {| lo_held := []; lo_done := false; lo_err := [] |} ;;!
      let! e := acquire_keys s [(lockKey "global", true);
                                (lockKey ("namespace:" +:+ ns), lockQuery_shared m)] in
      if nil_err e then ret (inl (PgLock s)) else ret (inr e)
  end.

Definition acquirePair (svc : Service) (ns : string) (m : LockMode) : M W (Lock * Lock + error) :=
  if svc_pairwise svc then
    let! r := locker_AcquirePair ns m in
    match r with
    | inr e => ret (inr e)
    | inl both => ret (inl (NoopLock, both))
    end
  else
    let! g := locker_Acquire "global" LockShared in
    match g with
    | inr e => ret (inr e)
    | inl global =>
        let! n := locker_Acquire ("namespace:" +:+ ns) m in
        match n with
        | inr e => Release global ;;! ret (inr e)
        | inl namespaceLock => ret (inl (global, namespaceLock))
        end
    end.

Definition releasePair (namespaceLock global : Lock) : M W error :=
  let! e1 := Release namespaceLock in
  let! e2 := Release global in
  ret (errors_join e1 e2).

(** ** Critical sections

    A Go callback returns an error and may assign variables it captured;
    here it returns both, and [a0] is what those variables hold when the
    callback does not run. *)

Definition callback (A : Type) : Type := Ctx → NamespaceLifecycle → M W (A * error).

(** The system gate, reread under the locks. *)
Definition require_active_system : M W error :=
  let! r := repo_GetSystem in
  match r with
  | (Some system, []) =>
      ret (if bool_decide (sl_state system = SystemActive) then [] else [ErrSystemResetting])
  | (_, e) => ret e
  end.

(** What [WithWriter] does between acquiring and releasing the locks. *)
Definition writer_body {A} (a0 : A) (ctx : Ctx) (ns : string) (fn : callback A) : M W (A * error) :=
  let! e := require_active_system in
  if nil_err e then
    let! r := repo_GetNamespace ns in
    match r with
    | (Some lifecycle, []) =>
        if bool_decide (nl_state lifecycle = StateActive) then
          fn (with_lease {| lv_namespace := ns; lv_generation := nl_generation lifecycle;
                            lv_mode := LockShared |} ctx) lifecycle
        else ret (a0, [ErrNamespaceNotActive])
    | (_, e) => ret (a0, e)
    end
  else ret (a0, e).

(** A lease for [ns] the context already carries. *)
Definition existing_lease (ctx : Ctx) (ns : string) : option leaseValue :=
  l ← ctx_lease ctx; if bool_decide (lv_namespace l = ns) then Some l else None.

Definition WithWriter {A} (a0 : A) (svc : Service) (ctx : Ctx) (ns : string) (fn : callback A)
    : M W (A * error) :=
  match existing_lease ctx ns with
  | Some existing =>
      fn ctx {| nl_namespace := ns; nl_generation := lv_generation existing;
                nl_state := StateActive; nl_activated_at := 0; nl_legacy := false;
                nl_last_error := ""; nl_updated_at := 0 |}
  | None =>
      let! locks := acquirePair svc ns LockShared in
      match locks with
      | inr e => ret (a0, e)
      | inl (global, namespaceLock) =>
          let! r := writer_body a0 ctx ns fn in
          releasePair namespaceLock global ;;! (* a failure is only logged *)
          ret r
      end
  end.

Definition exclusive_body {A} (a0 : A) (ctx : Ctx) (ns : string) (fn : callback A) : M W (A * error) :=
  let! e := require_active_system in
  if nil_err e then
    let! r := repo_GetNamespace ns in
    match r with
    | (Some lifecycle, []) =>
        fn (with_lease {| lv_namespace := ns; lv_generation := nl_generation lifecycle;
                          lv_mode := LockExclusive |} ctx) lifecycle
    | (_, e) => ret (a0, e)
    end
  else ret (a0, e).

Definition WithNamespaceExclusive {A} (a0 : A) (svc : Service) (ctx : Ctx) (ns : string)
    (fn : callback A) : M W (A * error) :=
  let! locks := acquirePair svc ns LockExclusive in
  match locks with
  | inr e => ret (a0, e)
  | inl (global, namespaceLock) =>
      let! r := exclusive_body a0 ctx ns fn in
      let! e' := releasePair namespaceLock global in
      ret (r.1, errors_join r.2 e')
  end.

Definition Activate (svc : Service) (ns : string) : M W (option NamespaceLifecycle * error) :=
  let! locks := acquirePair svc ns LockExclusive in
  match locks with
  | inr e => ret (None, e)
  | inl (global, namespaceLock) =>
      let! e := require_active_system in
      let! out := (if nil_err e then repo_Activate ns else ret (None, e)) in
      let! e' := releasePair namespaceLock global in
      ret (out.1, errors_join out.2 e')
  end.

Definition WithGlobalExclusive {A} (a0 : A) (ctx : Ctx)
    (fn : Ctx → SystemLifecycle → M W (A * error)) : M W (A * error) :=
  let! r := locker_Acquire "global" LockExclusive in
  match r with
  | inr e => ret (a0, e)
  | inl lock =>
      let! sys := repo_GetSystem in
      let! out := (match sys with
                   | (Some system, []) => fn (with_global_exclusive ctx) system
                   | (_, e) => ret (a0, e)
                   end) in
      let! e' := Release lock in
      ret (out.1, errors_join out.2 e')
  end.

Definition DisableLegacyEnvelopes (ctx : Ctx) (evidence : string) : M W (bool * error) :=
  if bool_decide (evidence = "") then ret (false, [ErrAdoptionEvidence])
  else
    WithGlobalExclusive false ctx (λ _ _,
      let! now := gets w_now in repo_DisableLegacy evidence now).

(** [None] is Go's nil pointer: an envelope that names no generation. *)
Definition EvaluateEnvelope (ns : string) (generation : option Z) : M W (option EnvelopeDisposition * error) :=
  let! r := repo_GetNamespace ns in
  match r with
  | (Some lifecycle, []) =>
      ret (Some (
        if negb (bool_decide (nl_state lifecycle = StateActive)) then EnvelopeStale
        else if (default 0 generation =? 0)%Z then
          if (nl_generation lifecycle =? 1)%Z && nl_legacy lifecycle
          then EnvelopeProcess else EnvelopeStale
        else if (default 0 generation =? nl_generation lifecycle)%Z
        then EnvelopeProcess else EnvelopeStale), [])
  | (_, e) => ret (None, e)
  end.
End service.

(** ** Lemmas *)

(** The errors with which a section is refused before its callback runs. *)
Definition refusal (e : error) : Prop :=
  ∃ x, e = [x] ∧ x ∈ [ErrDriver; ErrSystemResetting; ErrNamespaceNotFound; ErrNamespaceNotActive].

Lemma refusal_not_nil e : refusal e → e ≠ [].
Proof. by intros (x & -> & _). Qed.

Ltac refused x := exists x; split; [done|set_solver].

(** Worlds that differ at most in the fault script. *)
Record same_but_faults {X} (w w' : World X) : Prop := {
  sbf_ledger : w_ledger w' = w_ledger w;
  sbf_now : w_now w' = w_now w;
  sbf_adv : w_adv w' = w_adv w;
  sbf_lockobjs : w_lockobjs w' = w_lockobjs w;
  sbf_next : w_next w' = w_next w;
  sbf_ext : w_ext w' = w_ext w;
}.

#[export] Instance same_but_faults_preorder {X} : PreOrder (@same_but_faults X).
Proof.
  split; [by intros w|]. intros w1 w2 w3 [] []. split; congruence.
Qed.

Section lemmas.
Context {X : Type}.
Implicit Types w : World X.

Lemma fault_frame w : same_but_faults w (fault w).2.
Proof. unfold fault, pop_fault. simpl. by destruct (w_faults w). Qed.

Lemma fault_nil w : faults w = [] → fault w = (false, w).
Proof. apply pop_fault_nil. Qed.

(** A read returns its answer or the driver's failure, and changes nothing. *)
Lemma run_sql_read {A} (failv : A) (f : ledger → A) w :
  ∃ w', same_but_faults w w' ∧
    ((∃ fs, w_faults w = true :: fs ∧ run_sql failv (λ _ l, (f l, l)) w = (failv, w')) ∨
     run_sql failv (λ _ l, (f l, l)) w = (f (w_ledger w), w')).
Proof.
  destruct (run_sql_cases failv (λ _ l, (f l, l)) w)
    as [(w' & Hf & ? & ? & ? & ? & ? & ? & H)|(w' & ? & ? & ? & ? & ? & ? & H)];
    exists w'; (split; [by split|]); eauto.
Qed.

Lemma repo_GetNamespace_spec ns w :
  ∃ w', same_but_faults w w' ∧
    (repo_GetNamespace ns w = ((None, [ErrDriver]), w') ∨
     repo_GetNamespace ns w =
       (match l_rows (w_ledger w) !! ns with
        | Some r => (Some (scanNamespace ns r), [])
        | None => (None, [ErrNamespaceNotFound]) end, w')).
Proof.
  unfold repo_GetNamespace, bind.
  destruct (run_sql_read SqlRaise (λ l, match l_rows l !! ns with
    Some r => SqlRow r | None => SqlNoRow end) w) as (w' & Hs & [(fs & _ & ->)| ->]);
    exists w'; (split; [done|]); simpl; [by left|right].
  by destruct (l_rows (w_ledger w) !! ns).
Qed.

Lemma require_active_system_spec w :
  ∃ w', same_but_faults w w' ∧
    ((∃ e, refusal e ∧ require_active_system w = (e, w')) ∨
     (y_state (l_sys (w_ledger w)) = SystemActive ∧ require_active_system w = ([], w'))).
Proof.
  unfold require_active_system, bind, repo_GetSystem.
  destruct (run_sql_read (None, [ErrDriver]) (λ l, (Some (scanSystem (l_sys l)), [])) w)
    as (w' & Hs & [(fs & _ & ->)| ->]); exists w'; (split; [done|]); simpl.
  - left. exists [ErrDriver]. split; [refused ErrDriver|done].
  - case_bool_decide; [by right|]. left. exists [ErrSystemResetting]. split; [refused ErrSystemResetting|done].
Qed.

(** *** Lock balance *)

Definition session_locks (s : nat) (held : list (Z * bool)) : list (nat * Z * bool) :=
  (λ k, (s, k.1, k.2)) <$> held.

Lemma unlock_all_balanced s held rest w :
  w_faults w = [] → w_adv w = session_locks s held ++ rest →
  unlock_all s held w = ([], set_adv rest w).
Proof.
  revert w. induction held as [|[key shared] held IH]; intros w Hf Ha.
  - simpl in *. destruct w; simpl in *. by subst.
  - cbn [unlock_all]. unfold exec_unlock, bind. rewrite fault_nil by done. go.
    unfold modify. go. rewrite IH; [done|done|].
    simpl. rewrite Ha. simpl. by rewrite bool_decide_true.
Qed.

Lemma Release_balanced s o rest w :
  w_faults w = [] → w_lockobjs w !! s = Some o → lo_done o = false →
  w_adv w = session_locks s (reverse (lo_held o)) ++ rest →
  Release (PgLock s) w =
    ([], set_lockobjs (<[s := {| lo_held := lo_held o; lo_done := true; lo_err := [] |}]> (w_lockobjs w))
           (set_adv rest w)).
Proof.
  intros Hf Ho Hd Ha. unfold Release, bind, gets. go. rewrite Ho, Hd.
  by rewrite (unlock_all_balanced _ _ rest).
Qed.

(** A second release does nothing and returns what the first returned. *)
Lemma Release_once s o w :
  w_lockobjs w !! s = Some o → lo_done o = true → Release (PgLock s) w = (lo_err o, w).
Proof. intros Ho Hd. unfold Release, bind, gets. go. by rewrite Ho, Hd. Qed.

Lemma pool_acquire_nil w : w_faults w = [] → pool_acquire w = (Some (w_next w), bump_next w).
Proof. intros Hf. unfold pool_acquire, bind, gets, modify. rewrite fault_nil by done. done. Qed.

Lemma exec_lock_nil s k b w :
  w_faults w = [] → exec_lock s k b w = ([], set_adv ((s, k, b) :: w_adv w) w).
Proof. intros Hf. unfold exec_lock, bind, modify. rewrite fault_nil by done. done. Qed.

(** Worlds a callback may produce from [w]: the lock bookkeeping and the fault
    script are untouched. *)
Record locks_kept (w w' : World X) : Prop := {
  lk_adv : w_adv w' = w_adv w;
  lk_lockobjs : w_lockobjs w' = w_lockobjs w;
  lk_faults : w_faults w' = w_faults w;
}.

Lemma acquirePair_balanced svc ns m w :
  w_faults w = [] →
  ∃ g n w', acquirePair svc ns m w = (inl (g, n), w') ∧
    w_faults w' = [] ∧ w_ledger w' = w_ledger w ∧ w_now w' = w_now w ∧ w_ext w' = w_ext w ∧
    ∀ w2, locks_kept w' w2 →
      ∃ w3, releasePair n g w2 = ([], w3) ∧ w_adv w3 = w_adv w ∧
            w_ledger w3 = w_ledger w2 ∧ w_ext w3 = w_ext w2 ∧ w_now w3 = w_now w2.
Proof.
  intros Hf. unfold acquirePair. destruct (svc_pairwise svc).
  - unfold locker_AcquirePair, bind. rewrite pool_acquire_nil by done. go.
    unfold upd_lockobj, modify. go. cbn [acquire_keys]. unfold bind.
    rewrite exec_lock_nil by done. go. unfold append_held, modify. go.
    cbn [w_lockobjs set_adv set_lockobjs bump_next]. rewrite lookup_insert_eq.
    rewrite exec_lock_nil by done. go. cbn [w_lockobjs set_adv set_lockobjs bump_next].
    rewrite lookup_insert_eq. go.
    do 3 eexists. split; [done|]. split_and!; try done.
    intros w2 [Ha Ho Hf2]. cbn in Ha, Ho, Hf2. unfold releasePair, bind.
    erewrite Release_balanced; [|congruence|rewrite Ho; apply lookup_insert_eq|done|rewrite Ha; done].
    go. eexists. split; [done|]. done.
  - unfold locker_Acquire, bind. rewrite pool_acquire_nil by done. go.
    rewrite exec_lock_nil by done. go. unfold upd_lockobj, modify. go.
    rewrite pool_acquire_nil by done. go. rewrite exec_lock_nil by done. go.
    do 3 eexists. split; [done|]. split_and!; try done.
    intros w2 [Ha Ho Hf2]. cbn in Ha, Ho, Hf2. unfold releasePair, bind.
    erewrite Release_balanced; [|congruence|rewrite Ho; apply lookup_insert_eq|done|rewrite Ha; done].
    go. erewrite (Release_balanced (w_next w));
      [|cbn; congruence|cbn; rewrite Ho, !lookup_insert_ne by lia; apply lookup_insert_eq|done|done].
    go. eexists. split; [done|]. done.
Qed.

(** The body of the writer section either fails without running the callback
    or runs it once, with a lease that agrees with the ledger. *)
Lemma writer_body_spec {A} (a0 : A) ctx ns fn w :
  ∃ w', same_but_faults w w' ∧
    ((∃ e, refusal e ∧ writer_body a0 ctx ns fn w = ((a0, e), w')) ∨
     (∃ r, l_rows (w_ledger w) !! ns = Some r ∧ r_state r = StateActive ∧
           y_state (l_sys (w_ledger w)) = SystemActive ∧
           writer_body a0 ctx ns fn w =
             fn (with_lease {| lv_namespace := ns; lv_generation := r_generation r;
                               lv_mode := LockShared |} ctx) (scanNamespace ns r) w')).
Proof.
  unfold writer_body, bind.
  destruct (require_active_system_spec w) as (w1 & H1 & [(e & He & ->)|(Hsys & ->)]); go.
  { exists w1. split; [done|]. left. exists e. split; [done|]. by destruct He as (x & -> & _). }
  destruct (repo_GetNamespace_spec ns w1) as (w2 & H2 & [->| ->]); exists w2;
    (split; [by transitivity w1|]); go.
  { left. exists [ErrDriver]. split; [refused ErrDriver|done]. }
  rewrite (sbf_ledger _ _ H1).
  destruct (l_rows (w_ledger w) !! ns) as [r|] eqn:Hr; go.
  - case_bool_decide; [right; by exists r|].
    left. exists [ErrNamespaceNotActive]. split; [refused ErrNamespaceNotActive|done].
  - left. exists [ErrNamespaceNotFound]. split; [refused ErrNamespaceNotFound|done].
Qed.
End lemmas.

(** Worlds with the same ledger, clock and application state. *)
Record core_same {X} (w w' : World X) : Prop := {
  cs_ledger : w_ledger w' = w_ledger w;
  cs_now : w_now w' = w_now w;
  cs_ext : w_ext w' = w_ext w;
}.

#[export] Instance core_same_preorder {X} : PreOrder (@core_same X).
Proof. split; [by intros w|]. intros w1 w2 w3 [] []. split; congruence. Qed.

Section core.
Context {X : Type}.
Implicit Types w : World X.

Lemma sbf_core w w' : same_but_faults w w' → core_same w w'.
Proof. by intros []. Qed.

Lemma fault_core w : core_same w (fault w).2.
Proof. apply sbf_core, fault_frame. Qed.

Lemma exec_lock_core s k b w : core_same w (exec_lock s k b w).2.
Proof.
  unfold exec_lock, bind. pose proof (fault_core w) as []. by destruct (fault w) as [[] w1].
Qed.

Lemma unlock_all_core s held w : core_same w (unlock_all s held w).2.
Proof.
  revert w. induction held as [|[k b] held IH]; intros w; [done|].
  cbn [unlock_all]. unfold exec_unlock, bind. pose proof (fault_core w) as H1.
  destruct (fault w) as [[] w1]; go; (etransitivity; [exact H1|]);
    [|etransitivity; [|apply IH]]; [apply IH|done].
Qed.

Lemma Release_core l w : core_same w (Release l w).2.
Proof.
  destruct l as [|s]; [done|]. unfold Release, bind, gets. go.
  destruct (w_lockobjs w !! s) as [o|]; [|done]. destruct (lo_done o); [done|].
  pose proof (unlock_all_core s (reverse (lo_held o)) w) as [].
  by destruct (unlock_all s (reverse (lo_held o)) w).
Qed.

Lemma releasePair_core l1 l2 w : core_same w (releasePair l1 l2 w).2.
Proof.
  unfold releasePair, bind. etransitivity; [apply (Release_core l1)|].
  go. apply Release_core.
Qed.

Lemma pool_acquire_core w : core_same w (pool_acquire w).2.
Proof.
  unfold pool_acquire, bind. pose proof (fault_core w) as []. by destruct (fault w) as [[] w1].
Qed.

Lemma locker_Acquire_core name m w : core_same w (locker_Acquire name m w).2.
Proof.
  unfold locker_Acquire, bind. pose proof (pool_acquire_core w) as H1.
  destruct (pool_acquire w) as [[s|] w1]; go; [|done].
  pose proof (exec_lock_core s (lockKey name) (lockQuery_shared m) w1) as H2.
  destruct (exec_lock s _ _ w1) as [[|] w2]; go; etransitivity; [exact H1| |exact H1|];
    etransitivity; try exact H2; done.
Qed.

Lemma acquire_keys_core s wants w : core_same w (acquire_keys s wants w).2.
Proof.
  revert w. induction wants as [|[k b] wants IH]; intros w; [done|].
  cbn [acquire_keys]. unfold bind. pose proof (exec_lock_core s k b w) as H1.
  destruct (exec_lock s k b w) as [[|] w1]; go; (etransitivity; [exact H1|]).
  - etransitivity; [|apply IH]. unfold append_held, modify. go. by destruct (w_lockobjs w1 !! s).
  - apply Release_core.
Qed.

Lemma acquirePair_core svc ns m w : core_same w (acquirePair svc ns m w).2.
Proof.
  unfold acquirePair. destruct (svc_pairwise svc); unfold bind.
  - unfold locker_AcquirePair, bind. pose proof (pool_acquire_core w) as H1.
    destruct (pool_acquire w) as [[s|] w1]; go; [|done].
    match goal with |- context [acquire_keys s ?k ?v] =>
      pose proof (acquire_keys_core s k v) as H2; destruct (acquire_keys s k v) as [[|] w2] end;
      go; (etransitivity; [exact H1|]); (etransitivity; [|exact H2]); done.
  - pose proof (locker_Acquire_core "global" LockShared w) as H1.
    destruct (locker_Acquire "global" LockShared w) as [[g|e] w1]; go; [|done].
    pose proof (locker_Acquire_core ("namespace:" +:+ ns) m w1) as H2.
    destruct (locker_Acquire _ m w1) as [[n|e] w2]; go; (etransitivity; [exact H1|]).
    + done.
    + etransitivity; [exact H2|]. apply Release_core.
Qed.
End core.

(** An acquisition that fails reports the driver's error. *)
Lemma exec_lock_error {X} s k b (w : World X) :
  (exec_lock s k b w).1 = [] ∨ (exec_lock s k b w).1 = [ErrDriver].
Proof. unfold exec_lock, bind. destruct (fault w) as [[] ?]; auto. Qed.

Lemma acquire_keys_error {X} s wants (w : World X) :
  (acquire_keys s wants w).1 = [] ∨ (acquire_keys s wants w).1 = [ErrDriver].
Proof.
  revert w. induction wants as [|[k b] wants IH]; intros w; [by left|]. cbn [acquire_keys]. unfold bind.
  destruct (exec_lock_error s k b w) as [-> | ->]; go; [apply IH|by right].
Qed.

Lemma locker_Acquire_error {X} name m (w w' : World X) e :
  locker_Acquire name m w = (inr e, w') → e = [ErrDriver].
Proof.
  unfold locker_Acquire, bind. destruct (pool_acquire w) as [[s|] v1]; go; [|by intros [= <- _]].
  destruct (exec_lock_error s (lockKey name) (lockQuery_shared m) v1) as [-> | ->]; go; by intros [= <- _].
Qed.

Lemma acquirePair_error {X} svc ns m (w w' : World X) e :
  acquirePair svc ns m w = (inr e, w') → e = [ErrDriver].
Proof.
  unfold acquirePair. destruct (svc_pairwise svc); unfold bind.
  - unfold locker_AcquirePair, bind. destruct (pool_acquire w) as [[s|] w1]; go; [|by intros [= <- _]].
    match goal with |- context [acquire_keys s ?k ?v] => destruct (acquire_keys_error s k v) as [-> | ->] end;
      go; by intros [= <- _].
  - destruct (locker_Acquire "global" LockShared w) as [[g|e'] w1] eqn:E; go;
      [|intros [= <- _]; by eapply locker_Acquire_error].
    destruct (locker_Acquire _ m w1) as [[n|e'] w2] eqn:E2; go; intros [= <- _].
    by eapply locker_Acquire_error.
Qed.

(** The locked path of [WithWriter]; shared by the properties here and by the
    components that write through it. *)
Lemma WithWriter_cases {X A} (a0 : A) svc ctx ns (fn : callback A) (w : World X) :
  existing_lease ctx ns = None →
  let r := WithWriter a0 svc ctx ns fn w in
  (∃ e, refusal e ∧ r.1 = (a0, e) ∧ core_same w r.2) ∨
  (∃ row w1 w2, l_rows (w_ledger w) !! ns = Some row ∧ r_state row = StateActive ∧
     y_state (l_sys (w_ledger w)) = SystemActive ∧ core_same w w1 ∧
     fn (with_lease {| lv_namespace := ns; lv_generation := r_generation row;
                       lv_mode := LockShared |} ctx) (scanNamespace ns row) w1 = (r.1, w2) ∧
     core_same w2 r.2).
Proof.
  intros Hl. cbv zeta. unfold WithWriter. rewrite Hl. unfold bind.
  pose proof (acquirePair_core svc ns LockShared w) as H1.
  destruct (acquirePair svc ns LockShared w) as [[[g n]|e] w1] eqn:E; go.
  2: { left. exists e. apply acquirePair_error in E as ->. split; [refused ErrDriver|done]. }
  destruct (writer_body_spec a0 ctx ns fn w1) as (w2 & H2%sbf_core & [(e & He & ->)|(row & Hr & Hs & Hy & ->)]); go.
  - left. exists e. split; [done|]. split; [done|].
    etransitivity; [exact H1|]. etransitivity; [exact H2|]. apply releasePair_core.
  - right. cbn [snd] in H1. rewrite (cs_ledger _ _ H1) in Hr, Hy.
    match goal with |- context [fn ?c ?l w2] => destruct (fn c l w2) as [r3 w3] eqn:Hfn end.
    exists row, w2, w3. split_and!; try done; [by etransitivity|].
    apply releasePair_core.
Qed.

Lemma exclusive_body_spec {X A} (a0 : A) ctx ns fn (w : World X) :
  ∃ w', same_but_faults w w' ∧
    ((∃ e, refusal e ∧ exclusive_body a0 ctx ns fn w = ((a0, e), w')) ∨
     (∃ r, l_rows (w_ledger w) !! ns = Some r ∧ y_state (l_sys (w_ledger w)) = SystemActive ∧
           exclusive_body a0 ctx ns fn w =
             fn (with_lease {| lv_namespace := ns; lv_generation := r_generation r;
                               lv_mode := LockExclusive |} ctx) (scanNamespace ns r) w')).
Proof.
  unfold exclusive_body, bind.
  destruct (require_active_system_spec w) as (w1 & H1 & [(e & He & ->)|(Hsys & ->)]); go.
  { exists w1. split; [done|]. left. exists e. split; [done|]. by destruct He as (x & -> & _). }
  destruct (repo_GetNamespace_spec ns w1) as (w2 & H2 & [->| ->]); exists w2;
    (split; [by transitivity w1|]); go.
  { left. exists [ErrDriver]. split; [refused ErrDriver|done]. }
  rewrite (sbf_ledger _ _ H1).
  destruct (l_rows (w_ledger w) !! ns) as [r|] eqn:Hr; go; [right; by exists r|].
  left. exists [ErrNamespaceNotFound]. split; [refused ErrNamespaceNotFound|done].
Qed.

(** The exclusive section: refused, or the callback ran once; a failing release
    joins its error to the result. *)
Lemma WithNamespaceExclusive_cases {X A} (a0 : A) svc ctx ns (fn : callback A) (w : World X) :
  let r := WithNamespaceExclusive a0 svc ctx ns fn w in
  (r.1.1 = a0 ∧ r.1.2 ≠ [] ∧ core_same w r.2) ∨
  (∃ row w1 w2 out rel, l_rows (w_ledger w) !! ns = Some row ∧
     y_state (l_sys (w_ledger w)) = SystemActive ∧ core_same w w1 ∧
     fn (with_lease {| lv_namespace := ns; lv_generation := r_generation row;
                       lv_mode := LockExclusive |} ctx) (scanNamespace ns row) w1 = (out, w2) ∧
     core_same w2 r.2 ∧ r.1 = (out.1, errors_join out.2 rel)).
Proof.
  cbv zeta. unfold WithNamespaceExclusive, bind.
  pose proof (acquirePair_core svc ns LockExclusive w) as H1.
  destruct (acquirePair svc ns LockExclusive w) as [[[g n]|e] w1] eqn:E; go.
  2: { left. apply acquirePair_error in E as ->. done. }
  destruct (exclusive_body_spec a0 ctx ns fn w1) as (w2 & H2%sbf_core & [(e & He & ->)|(row & Hr & Hy & ->)]); go.
  - left. split; [done|]. split; [by destruct He as (x & -> & _)|].
    etransitivity; [exact H1|]. etransitivity; [exact H2|]. apply releasePair_core.
  - right. cbn [snd] in H1. rewrite (cs_ledger _ _ H1) in Hr, Hy.
    match goal with |- context [fn ?c ?l w2] => destruct (fn c l w2) as [r3 w3] eqn:Hfn end.
    exists row, w2, w3, r3, (releasePair n g w3).1. split_and!; try done; [by etransitivity|].
    apply releasePair_core.
Qed.

(** ** Properties *)

(** C7 The writer section fails closed under every failure pattern: either it
    returns the driver's error or a lifecycle refusal, the callback does not run
    and neither the ledger nor the application state changes, or the callback ran once under a lease whose
    generation is the one the ledger holds for an active namespace of an active
    system. *)
Theorem WithWriter_fails_closed {X A} (a0 : A) svc ctx ns (fn : callback A) (w : World X) :
  existing_lease ctx ns = None →
  let r := WithWriter a0 svc ctx ns fn w in
  (∃ e, refusal e ∧ r.1 = (a0, e) ∧ core_same w r.2) ∨
  (∃ row w1 w2, l_rows (w_ledger w) !! ns = Some row ∧ r_state row = StateActive ∧
     y_state (l_sys (w_ledger w)) = SystemActive ∧ core_same w w1 ∧
     fn (with_lease {| lv_namespace := ns; lv_generation := r_generation row;
                       lv_mode := LockShared |} ctx) (scanNamespace ns row) w1 = (r.1, w2) ∧
     core_same w2 r.2).
Proof. apply WithWriter_cases. Qed.

(** A world in which the namespace [demo] is active at generation 3. *)
Definition demo_world (fs : list bool) : World nat :=
  {| w_ledger := {| l_rows := {["demo" := {| r_generation := 3; r_state := StateActive;
        r_activated_at := 5; r_legacy := false; r_last_error := None; r_updated_at := 5 |}]};
       l_sys := {| y_state := SystemActive; y_disabled_at := None; y_evidence := None;
                   y_last_error := None; y_updated_at := 0 |} |};
     w_now := 9; w_adv := []; w_lockobjs := ∅; w_next := 0; w_faults := fs; w_ext := 0 |}.

Definition count_call : callback (X := nat) Z :=
  λ ctx l, modify (λ w, set_ext (S (w_ext w)) w) ;;! ret (nl_generation l, []).

Definition pair_service : Service := {| svc_pairwise := true |}.

Lemma WithWriter_fails_closed_witness :
  let r := WithWriter 0%Z pair_service background "demo" count_call (demo_world [false; true]) in
  r.1 = (0%Z, [ErrDriver]) ∧ w_ext r.2 = 0 ∧
  ((∃ e, refusal e ∧ r.1 = (0%Z, e) ∧ core_same (demo_world [false; true]) r.2) ∨
   (∃ row w1 w2, l_rows (w_ledger (demo_world [false; true])) !! "demo" = Some row ∧
     r_state row = StateActive ∧
     y_state (l_sys (w_ledger (demo_world [false; true]))) = SystemActive ∧
     core_same (demo_world [false; true]) w1 ∧
     count_call (with_lease {| lv_namespace := "demo"; lv_generation := r_generation row;
                       lv_mode := LockShared |} background) (scanNamespace "demo" row) w1 = (r.1, w2) ∧
     core_same w2 r.2)).
Proof.
  split; [vm_compute; reflexivity|]. split; [vm_compute; reflexivity|].
  apply (WithWriter_fails_closed 0%Z pair_service background "demo" count_call (demo_world [false; true])).
  reflexivity.
Defined.

(** Locks are balanced: when no external call fails and the callback leaves
    the lock bookkeeping alone, the writer and the exclusive section return with
    exactly the advisory locks that were held before, on one session
    ([pairLocker]) or on two, whatever the callback returned. *)
Theorem sections_release_locks {X A} (a0 : A) svc ctx ns (fn : callback A) (w : World X) :
  w_faults w = [] → existing_lease ctx ns = None →
  (∀ c l w1, locks_kept w1 (fn c l w1).2) →
  w_adv (WithWriter a0 svc ctx ns fn w).2 = w_adv w ∧
  w_adv (WithNamespaceExclusive a0 svc ctx ns fn w).2 = w_adv w ∧
  w_adv (Activate svc ns w).2 = w_adv w.
Proof.
  intros Hf Hl Hfn.
  assert (∀ v : World X, w_faults v = [] → locks_kept v (require_active_system v).2 ∧
            locks_kept v (repo_GetNamespace ns v).2 ∧ locks_kept v (repo_Activate ns v).2) as Hq.
  { intros v Hv. unfold require_active_system, repo_GetSystem, repo_GetNamespace, repo_Activate,
      run_sql, bind. rewrite !fault_nil by done. go.
    split_and!; by split. }
  assert (∀ v, w_faults v = [] →
            locks_kept v (writer_body a0 ctx ns fn v).2 ∧ locks_kept v (exclusive_body a0 ctx ns fn v).2) as Hbody.
  { intros v Hv. unfold writer_body, exclusive_body, bind.
    destruct (Hq v Hv) as ([? ? Hf1] & _ & _). destruct (require_active_system v) as [[|] v1]; go; [|by split; split].
    simpl in Hf1. destruct (Hq v1) as (_ & [Ha2 Ho2 Hf2] & _); [congruence|].
    assert (∀ c l v2, w_adv v2 = w_adv v1 → w_lockobjs v2 = w_lockobjs v1 → w_faults v2 = w_faults v1 →
              locks_kept v (fn c l v2).2) as Hcall.
    { intros c l v2 ???. destruct (Hfn c l v2). cbn [fst snd] in *. split; congruence. }
    cbn [fst snd] in *. revert Ha2 Ho2 Hf2.
    destruct (repo_GetNamespace ns v1) as [[[l|] [|]] v2]; go; intros;
      [|split; split; go; congruence..].
    split; [case_bool_decide|]; try (by apply Hcall). split; go; congruence. }
  split_and!.
  - unfold WithWriter. rewrite Hl. unfold bind.
    destruct (acquirePair_balanced svc ns LockShared w Hf) as (g & n & w' & -> & Hf' & _ & _ & _ & Hrel). go.
    destruct (Hrel _ (proj1 (Hbody w' Hf'))) as (w3 & -> & Ha & _). done.
  - unfold WithNamespaceExclusive, bind.
    destruct (acquirePair_balanced svc ns LockExclusive w Hf) as (g & n & w' & -> & Hf' & _ & _ & _ & Hrel). go.
    destruct (Hrel _ (proj2 (Hbody w' Hf'))) as (w3 & -> & Ha & _). done.
  - unfold Activate, bind.
    destruct (acquirePair_balanced svc ns LockExclusive w Hf) as (g & n & w' & -> & Hf' & _ & _ & _ & Hrel). go.
    destruct (Hq w' Hf') as ([? ? Hf1] & _ & _).
    destruct (require_active_system w') as [[|] w2]; go; cbn [fst snd] in *.
    + destruct (Hq w2) as (_ & _ & [? ? ?]); [congruence|].
      destruct (Hrel (repo_Activate ns w2).2) as (w3 & -> & Ha & _); [split; congruence|done].
    + destruct (Hrel w2) as (w3 & -> & Ha & _); [by split|done].
Qed.

Lemma sections_release_locks_witness :
  w_adv (WithWriter 0%Z pair_service background "demo" count_call (demo_world [])).2 = [] ∧
  w_adv (WithNamespaceExclusive 0%Z pair_service background "demo" count_call (demo_world [])).2 = [] ∧
  w_adv (Activate pair_service "demo" (demo_world [])).2 = [].
Proof.
  apply (sections_release_locks 0%Z pair_service background "demo" count_call (demo_world []));
    [reflexivity|reflexivity|]. by intros c l w1.
Defined.

(** Envelope evaluation: queued work is processed exactly when the namespace
    is active and the envelope names the current generation, or names none while
    generation 1 still accepts that; a store failure or an unknown namespace is
    an error, never a disposition. *)
Theorem EvaluateEnvelope_correct {X} ns generation (w : World X) :
  let r := EvaluateEnvelope ns generation w in
  core_same w r.2 ∧
  match r.1 with
  | (None, e) => e = [ErrDriver] ∨ (e = [ErrNamespaceNotFound] ∧ l_rows (w_ledger w) !! ns = None)
  | (Some d, e) =>
      e = [] ∧ ∃ row, l_rows (w_ledger w) !! ns = Some row ∧
        (d = EnvelopeProcess ↔
           r_state row = StateActive ∧
           (generation = Some (r_generation row) ∧ r_generation row ≠ 0%Z ∨
            (generation = None ∨ generation = Some 0%Z) ∧ r_generation row = 1%Z ∧ r_legacy row = true))
  end.
Proof.
  cbv zeta. unfold EvaluateEnvelope, bind.
  destruct (repo_GetNamespace_spec ns w) as (w' & H%sbf_core & [->| ->]); go; [by auto|].
  destruct (l_rows (w_ledger w) !! ns) as [row|] eqn:Hr; go; [|by auto].
  split; [done|]. split; [done|]. exists row. split; [done|].
  cbn [nl_state nl_generation nl_legacy scanNamespace].
  case_bool_decide as Hs; cbn [negb]; [|split; [done|tauto]].
  destruct (Z.eqb_spec (default 0%Z generation) 0%Z) as [Hg|Hg].
  - destruct (Z.eqb_spec (r_generation row) 1), (r_legacy row) eqn:?; simpl;
      (split; [intros; simplify_eq|]); try done.
    + split; [done|]. right. split; [|done]. destruct generation; simpl in Hg; [right; congruence|by left].
    + intros [_ [[-> ?]|[? []]]]; [simpl in Hg; congruence|congruence].
    + intros [_ [[-> ?]|[? []]]]; [simpl in Hg; congruence|congruence].
    + intros [_ [[-> ?]|[? []]]]; [simpl in Hg; congruence|congruence].
  - destruct generation as [g|]; simpl in *; [|done].
    destruct (Z.eqb_spec g (r_generation row)) as [->|]; (split; [intros; simplify_eq|]); try done.
    + split; [done|]. by left.
    + intros [_ [[? ?]|[[?|?] _]]]; congruence.
Qed.
