(* ===== verification/NsFencing.v ===== *)
(** * Concurrent fencing

    The sections of [NsService] interleaved: any number of requests of any of
    the processes, each on its own PostgreSQL session, take the advisory locks,
    reread the gates and run their callbacks in any order. A step is one
    statement against the shared database: each lock, the reread of the system
    row, the reread of the namespace row, each ledger statement of a callback.
    The rereads are the functions of [NsService] run against the shared ledger
    and the ledger statements are those of [NsLedger]; the locks a request holds
    are those its section has acquired, in the order global, then namespace.
    [WithWriter_steps] and [WithNamespaceExclusive_steps] show that a run of the
    sections of [NsService] takes these steps. *)

From stdpp Require Import base tactics gmap strings list relations.
From Stdlib Require Import ZArith Lia.
From S2P Require Import Prelude GoLib NsLedger NsService.

(** Where a request is in its section. *)
Inductive phase :=
  | HoldsGlobal (ns : string) (m : LockMode)   (* first lock of the pair taken *)
  | HoldsPair (ns : string) (m : LockMode)     (* both taken, gates not yet reread *)
  | SystemRead (ns : string) (m : LockMode)    (* GetSystem answered active *)
  | InWriter (ns : string) (g : Z)             (* callback of WithWriter, lease [g] *)
  | InExclusive (ns : string) (g : Z)          (* callback of WithNamespaceExclusive *)
  | Activated (ns : string) (m : LockMode)     (* Activate's statement ran, locks still held *)
  | InGlobal.                                  (* callback of WithGlobalExclusive *)

Definition global_key : Z := lockKey "global".
Definition ns_key (ns : string) : Z := lockKey ("namespace:" +:+ ns).

(** The advisory locks a request's session holds: key and shared flag. *)
Definition locks_of (p : phase) : list (Z * bool) :=
  match p with
  | HoldsGlobal _ _ => [(global_key, true)]
  | HoldsPair ns m | SystemRead ns m | Activated ns m =>
      [(global_key, true); (ns_key ns, lockQuery_shared m)]
  | InWriter ns _ => [(global_key, true); (ns_key ns, true)]
  | InExclusive ns _ => [(global_key, true); (ns_key ns, false)]
  | InGlobal => [(global_key, false)]
  end.

Record conf := {
  c_ledger : ledger;
  c_requests : gmap nat phase;
  c_writes : list (string * Z);  (* leased mutations, newest first *)
}.

(** PostgreSQL grants an advisory lock when no other session holds the key in
    a conflicting mode. *)
Definition granted (c : conf) (t : nat) (key : Z) (shared : bool) : Prop :=
  ∀ t' p', t' ≠ t → c_requests c !! t' = Some p' →
    ((key, false) ∉ locks_of p') ∧ (shared = false → ((key, true) ∉ locks_of p')).

(** The ledger operations the callbacks of the two exclusive sections use
    ([DeleteNamespace] and [ResetApp] in [internal/admin/service.go],
    [DisableLegacyEnvelopes]). *)
Definition exclusive_op (ns : string) (op : ledger_op) : Prop :=
  op = OpStartDelete ns ∨ (∃ g, op = OpCompleteDelete ns g) ∨ (∃ g m, op = OpRecordError ns g m).

Definition global_op (op : ledger_op) : Prop :=
  match op with OpActivate _ => False | _ => True end.

Definition moved (c : conf) (t : nat) (p : phase) (l : ledger) : conf :=
  {| c_ledger := l; c_requests := <[t := p]> (c_requests c); c_writes := c_writes c |}.

(** The database as a section's reread sees it when the statement goes through. *)
Definition db (c : conf) : World () :=
  {| w_ledger := c_ledger c; w_now := 0; w_adv := []; w_lockobjs := ∅; w_next := 0;
     w_faults := []; w_ext := () |}.

Inductive step (c : conf) : conf → Prop :=
  | step_global_shared t ns m :
      c_requests c !! t = None → granted c t global_key true →
      step c (moved c t (HoldsGlobal ns m) (c_ledger c))
  | step_namespace t ns m :
      c_requests c !! t = Some (HoldsGlobal ns m) →
      granted c t (ns_key ns) (lockQuery_shared m) →
      step c (moved c t (HoldsPair ns m) (c_ledger c))
  | step_read_system t ns m :
      c_requests c !! t = Some (HoldsPair ns m) →
      (require_active_system (db c)).1 = [] →
      step c (moved c t (SystemRead ns m) (c_ledger c))
  | step_enter_writer t ns lifecycle :
      c_requests c !! t = Some (SystemRead ns LockShared) →
      (repo_GetNamespace ns (db c)).1 = (Some lifecycle, []) → nl_state lifecycle = StateActive →
      step c (moved c t (InWriter ns (nl_generation lifecycle)) (c_ledger c))
  | step_write t ns g :
      c_requests c !! t = Some (InWriter ns g) →
      step c {| c_ledger := c_ledger c; c_requests := c_requests c;
                c_writes := (ns, g) :: c_writes c |}
  | step_enter_exclusive t ns lifecycle :
      c_requests c !! t = Some (SystemRead ns LockExclusive) →
      (repo_GetNamespace ns (db c)).1 = (Some lifecycle, []) →
      step c (moved c t (InExclusive ns (nl_generation lifecycle)) (c_ledger c))
  | step_exclusive_op t ns g now op :
      c_requests c !! t = Some (InExclusive ns g) → exclusive_op ns op →
      step c (moved c t (InExclusive ns g) (apply_op now op (c_ledger c)))
  | step_activate t ns now :
      c_requests c !! t = Some (SystemRead ns LockExclusive) →
      step c (moved c t (Activated ns LockExclusive) (apply_op now (OpActivate ns) (c_ledger c)))
  | step_global_exclusive t :
      c_requests c !! t = None → granted c t global_key false →
      step c (moved c t InGlobal (c_ledger c))
  | step_global_op t now op :
      c_requests c !! t = Some InGlobal → global_op op →
      step c (moved c t InGlobal (apply_op now op (c_ledger c)))
  | step_leave t p :
      c_requests c !! t = Some p →
      step c {| c_ledger := c_ledger c; c_requests := delete t (c_requests c);
                c_writes := c_writes c |}.

(** ** Invariant *)

(** No two requests hold conflicting locks. *)
Definition exclusion (c : conf) : Prop :=
  ∀ t1 t2 p1 p2 key b, t1 ≠ t2 →
    c_requests c !! t1 = Some p1 → c_requests c !! t2 = Some p2 →
    (key, false) ∈ locks_of p1 → (key, b) ∈ locks_of p2 → False.

(** A writer's lease agrees with the ledger for as long as it runs. *)
Definition lease_current (l : ledger) (ns : string) (g : Z) : Prop :=
  y_state (l_sys l) = SystemActive ∧
  ∃ r, l_rows l !! ns = Some r ∧ r_state r = StateActive ∧ r_generation r = g.

Definition leases_ok (c : conf) : Prop :=
  ∀ t ns g, c_requests c !! t = Some (InWriter ns g) → lease_current (c_ledger c) ns g.

(** A system row read as active stays active until the request releases the
    global lock. *)
Definition systems_ok (c : conf) : Prop :=
  ∀ t ns m, c_requests c !! t = Some (SystemRead ns m) → y_state (l_sys (c_ledger c)) = SystemActive.

Definition inv (c : conf) : Prop := exclusion c ∧ leases_ok c ∧ systems_ok c.

Lemma db_system c :
  (require_active_system (db c)).1 = [] ↔ y_state (l_sys (c_ledger c)) = SystemActive.
Proof.
  unfold require_active_system, repo_GetSystem, run_sql, bind. simpl.
  case_bool_decide; split; done.
Qed.

Lemma db_namespace c ns lifecycle :
  (repo_GetNamespace ns (db c)).1 = (Some lifecycle, []) ↔
  ∃ r, l_rows (c_ledger c) !! ns = Some r ∧ lifecycle = scanNamespace ns r.
Proof.
  unfold repo_GetNamespace, run_sql, bind. simpl.
  destruct (l_rows (c_ledger c) !! ns) as [r|]; simpl.
  - split; [intros [= <-]; by exists r|]. by intros (? & [= <-] & ->).
  - split; [done|]. by intros (? & ? & ?).
Qed.

(** The operations of a namespace leave the other rows and the system alone. *)
Definition op_ns (op : ledger_op) : option string :=
  match op with
  | OpActivate ns | OpStartDelete ns | OpCompleteDelete ns _ | OpRecordError ns _ _ => Some ns
  | _ => None
  end.

Lemma apply_op_local now op l n :
  op_ns op = Some n →
  l_sys (apply_op now op l) = l_sys l ∧
  ∀ ns, ns ≠ n → l_rows (apply_op now op l) !! ns = l_rows l !! ns.
Proof.
  intros Hop. destruct op; simplify_eq/=;
    unfold sql_activate, sql_start_delete, sql_complete_delete, sql_record_error;
    repeat split_if; simpl; (split; [done|]); intros ns Hne; by rewrite ?lookup_insert_ne.
Qed.

Lemma exclusion_moved c t p l :
  exclusion c →
  (∀ key b, (key, b) ∈ locks_of p →
     (∃ p0, c_requests c !! t = Some p0 ∧ (key, b) ∈ locks_of p0) ∨ granted c t key b) →
  exclusion (moved c t p l).
Proof.
  intros Hex Hp t1 t2 p1 p2 key b Hne H1 H2 Hk1 Hk2. simpl in *.
  apply lookup_insert_Some in H1 as [[<- <-]|[Hn1 H1]];
    apply lookup_insert_Some in H2 as [[<- <-]|[Hn2 H2]]; try done.
  - destruct (Hp _ _ Hk1) as [(p0 & H0 & Hk0)|Hg]; [by eapply (Hex t t2)|].
    destruct (Hg t2 p2) as [Hg1 Hg2]; [done|done|]. destruct b; [by apply Hg2|done].
  - destruct (Hp _ _ Hk2) as [(p0 & H0 & Hk0)|Hg]; [by eapply (Hex t1 t)|].
    destruct (Hg t1 p1) as [Hg1 _]; [done|done|]. done.
  - by eapply (Hex t1 t2).
Qed.

(** What a ledger operation by [t] does is out of sight of a request that holds
    the global lock and the lock of another namespace. *)
Lemma op_out_of_sight c t p now op t' q ns :
  exclusion c → c_requests c !! t = Some p →
  (global_key, false) ∈ locks_of p ∨ (∃ n, op_ns op = Some n ∧ (ns_key n, false) ∈ locks_of p) →
  c_requests c !! t' = Some q → t' ≠ t → (global_key, true) ∈ locks_of q →
  l_sys (apply_op now op (c_ledger c)) = l_sys (c_ledger c) ∧
  ((ns_key ns, true) ∈ locks_of q →
   l_rows (apply_op now op (c_ledger c)) !! ns = l_rows (c_ledger c) !! ns).
Proof.
  intros Hex Hp Hk Hq Hne Hg. destruct Hk as [Hk|(n & Hn & Hk)].
  { destruct (Hex t t' p q global_key true); auto. }
  destruct (apply_op_local now op (c_ledger c) n Hn) as [Hs Hr].
  split; [done|]. intros Hk'. apply Hr. intros ->. destruct (Hex t t' p q (ns_key n) true); auto.
Qed.

(** A ledger operation by [t] keeps every other request's reread true. *)
Lemma reads_op c t p q now op :
  inv c → c_requests c !! t = Some p →
  match q with InWriter _ _ | SystemRead _ _ => False | _ => True end →
  ((global_key, false) ∈ locks_of p ∨
   ∃ n, op_ns op = Some n ∧ (ns_key n, false) ∈ locks_of p) →
  leases_ok (moved c t q (apply_op now op (c_ledger c))) ∧
  systems_ok (moved c t q (apply_op now op (c_ledger c))).
Proof.
  intros (Hex & Hok & Hsok) Hp Hq Hk. split.
  - intros t' ns g Ht'. simpl in *. apply lookup_insert_Some in Ht' as [[_ ->]|[Hne Ht']]; [done|].
    destruct (op_out_of_sight c t p now op t' (InWriter ns g) ns) as [Hs Hr]; auto; [left|].
    destruct (Hok t' ns g Ht') as (? & r & ? & ? & ?).
    split; [by rewrite Hs|]. exists r. rewrite Hr; [done|]. right; left.
  - intros t' ns m Ht'. simpl in *. apply lookup_insert_Some in Ht' as [[_ ->]|[Hne Ht']]; [done|].
    destruct (op_out_of_sight c t p now op t' (SystemRead ns m) ns) as [-> _]; auto; [left|].
    by eapply Hsok.
Qed.

(** Moving without touching the ledger. *)
Lemma reads_move c t p :
  leases_ok c → systems_ok c →
  match p with
  | InWriter ns g => lease_current (c_ledger c) ns g
  | SystemRead _ _ => y_state (l_sys (c_ledger c)) = SystemActive
  | _ => True
  end →
  leases_ok (moved c t p (c_ledger c)) ∧ systems_ok (moved c t p (c_ledger c)).
Proof.
  intros Hok Hsok Hp. split.
  - intros t' ns g Ht'. simpl in *.
    apply lookup_insert_Some in Ht' as [[_ ->]|[_ Ht']]; [done|by eapply Hok].
  - intros t' ns m Ht'. simpl in *.
    apply lookup_insert_Some in Ht' as [[_ ->]|[_ Ht']]; [done|by eapply Hsok].
Qed.

(** A step that keeps the locks of its request. *)
Lemma exclusion_kept c t p q l :
  exclusion c → c_requests c !! t = Some p → locks_of q = locks_of p → exclusion (moved c t q l).
Proof. intros Hex Hp Hl. apply exclusion_moved; [done|]. intros key b Hk. rewrite Hl in Hk. eauto. Qed.

Lemma step_inv c c' : inv c → step c c' → inv c'.
Proof.
  intros Hinv Hs. pose proof Hinv as (Hex & Hok & Hsok).
  destruct Hs as [t ns m Ht Hg|t ns m Ht Hg|t ns m Ht Hy|t ns r Ht Hr Ha|t ns g Ht|t ns r Ht Hr
                 |t ns g now op Ht Hop|t ns now Ht|t Ht Hg|t now op Ht Hop|t p Ht].
  - split; [apply exclusion_moved|by apply reads_move]; try done.
    intros key b [-> ->]%list_elem_of_singleton%pair_equal_spec. by right.
  - split; [apply exclusion_moved|by apply reads_move]; try done.
    intros key b [[-> ->]%pair_equal_spec|[-> ->]%list_elem_of_singleton%pair_equal_spec]%elem_of_cons;
      [left|by right].
    exists (HoldsGlobal ns m). split; [done|]. by apply list_elem_of_singleton.
  - split; [by eapply exclusion_kept|apply reads_move; try done]. by apply db_system.
  - split; [by eapply exclusion_kept|apply reads_move; try done].
    apply db_namespace in Hr as (r' & Hr & ->). split; [by eapply Hsok|]. by exists r'.
  - done.
  - split; [by eapply exclusion_kept|by apply reads_move].
  - split; [by eapply exclusion_kept|eapply reads_op; eauto; try done].
    right. exists ns. split; [|right; left]. destruct Hop as [->|[[? ->]|(? & ? & ->)]]; done.
  - split; [by eapply exclusion_kept|eapply reads_op; eauto; try done].
    right. exists ns. split; [done|]. right; left.
  - split; [apply exclusion_moved|by apply reads_move]; try done.
    intros key b [-> ->]%list_elem_of_singleton%pair_equal_spec. by right.
  - split; [by eapply exclusion_kept|eapply reads_op; eauto; try done]. left. left.
  - split_and!.
    + intros t1 t2 p1 p2 key b Hne H1 H2. simpl in *.
      apply lookup_delete_Some in H1 as [_ H1], H2 as [_ H2]. by eapply (Hex t1 t2).
    + intros t' ns g Ht'. simpl in *. apply lookup_delete_Some in Ht' as [_ Ht']. by eapply Hok.
    + intros t' ns m Ht'. simpl in *. apply lookup_delete_Some in Ht' as [_ Ht']. by eapply Hsok.
Qed.

Lemma steps_inv c c' : rtc step c c' → inv c → inv c'.
Proof. induction 1; eauto using step_inv. Qed.

(** Between two configurations only ledger operations happened. *)
Lemma steps_ledger c c' : rtc step c c' → ∃ ops, c_ledger c' = run_ops (c_ledger c) ops.
Proof.
  induction 1 as [c|c c1 c2 Hs _ [ops IH]]; [by exists []|].
  assert (∃ op, c_ledger c1 = run_ops (c_ledger c) op) as [op Hop].
  { destruct Hs; simpl; try (by exists []); [by exists [(now, op)]|by exists [(now, OpActivate ns)]|by exists [(now, op)]]. }
  exists (op ++ ops). rewrite IH, Hop. unfold run_ops. by rewrite foldl_app.
Qed.

(** The start of the system: no request is in flight. *)
Definition initial (l : ledger) : conf := {| c_ledger := l; c_requests := ∅; c_writes := [] |}.

Lemma initial_inv l : inv (initial l).
Proof. split_and!; intros ?; intros; simpl in *; by simplify_map_eq. Qed.

(** ** The sections of [NsService] take these steps *)

(** The session entries of a granted pair. *)
Lemma acquirePair_locks {X} svc ns m (w w' : World X) locks :
  acquirePair svc ns m w = (inl locks, w') →
  ∃ s1 s2, w_adv w' = (s1, ns_key ns, lockQuery_shared m) :: (s2, global_key, true) :: w_adv w.
Proof.
  assert (∀ s k b (v v' : World X), exec_lock s k b v = ([], v') →
            w_adv v' = (s, k, b) :: w_adv v) as Hlock.
  { intros s k b v v'. unfold exec_lock, bind. pose proof (sbf_adv _ _ (fault_frame v)) as Hf.
    destruct (fault v) as [[] v1]; go; intros [= <-]. simpl in *. by rewrite Hf. }
  assert (∀ v : World X, w_adv (pool_acquire v).2 = w_adv v) as Hpool.
  { intros v. unfold pool_acquire, bind. pose proof (sbf_adv _ _ (fault_frame v)) as Hf.
    by destruct (fault v) as [[] v1]. }
  assert (∀ s k (v : World X), w_adv (append_held s k v).2 = w_adv v) as Happ.
  { intros s k v. unfold append_held, modify. simpl. by destruct (w_lockobjs v !! s). }
  unfold acquirePair. destruct (svc_pairwise svc); unfold bind.
  - unfold locker_AcquirePair, bind. pose proof (Hpool w) as H0.
    destruct (pool_acquire w) as [[s|] w1]; go; [|done]. simpl in H0.
    unfold upd_lockobj, modify. go. cbn [acquire_keys]. unfold bind.
    destruct (exec_lock s _ true _) as [[|] w2] eqn:E1; go; [|by destruct (Release _ _)].
    apply Hlock in E1. cbn [w_adv set_lockobjs] in E1.
    pose proof (Happ s (lockKey "global", true) w2) as H1.
    destruct (append_held s _ w2) as [[] w3]; go. simpl in H1.
    destruct (exec_lock s _ (lockQuery_shared m) w3) as [[|] w4] eqn:E2; go;
      [|by destruct (Release _ _)].
    apply Hlock in E2.
    pose proof (Happ s (lockKey ("namespace:" +:+ ns), lockQuery_shared m) w4) as H2.
    destruct (append_held s _ w4) as [[] w5]; go. simpl in H2.
    intros [= _ <-]. exists s, s. by rewrite H2, E2, H1, E1, H0.
  - unfold locker_Acquire, bind. pose proof (Hpool w) as H0.
    destruct (pool_acquire w) as [[s|] w1]; go; [|done]. simpl in H0.
    destruct (exec_lock s _ (lockQuery_shared LockShared) w1) as [[|] w2] eqn:E1; go; [|done].
    apply Hlock in E1. unfold upd_lockobj, modify. go.
    match goal with |- context [pool_acquire ?v] => pose proof (Hpool v) as H1; destruct (pool_acquire v) as [[s2|] w3] end;
      go; [|by destruct (Release _ _)]. simpl in H1.
    destruct (exec_lock s2 _ (lockQuery_shared m) w3) as [[|] w4] eqn:E2; go; [|by destruct (Release _ _)].
    apply Hlock in E2. intros [= _ <-]. exists s2, s. simpl. by rewrite E2, H1, E1, H0.
Qed.

(** A request that is granted the pair and finds the system active. *)
Lemma pair_steps c t ns m :
  c_requests c !! t = None → granted c t global_key true →
  granted c t (ns_key ns) (lockQuery_shared m) → y_state (l_sys (c_ledger c)) = SystemActive →
  rtc step c (moved c t (SystemRead ns m) (c_ledger c)).
Proof.
  intros Ht Hg Hn Hy. eapply rtc_l; [by apply (step_global_shared c t ns m)|].
  set (c1 := moved c t (HoldsGlobal ns m) (c_ledger c)).
  assert (moved c t (SystemRead ns m) (c_ledger c) =
          moved (moved c1 t (HoldsPair ns m) (c_ledger c)) t (SystemRead ns m) (c_ledger c)) as ->.
  { unfold moved, c1. simpl. by rewrite !insert_insert_eq. }
  eapply rtc_l; [apply (step_namespace c1 t ns m); simpl; [by rewrite lookup_insert_eq|]|].
  - intros t' p' Hne Hp. simpl in Hp. rewrite lookup_insert_ne in Hp by done. exact (Hn t' p' Hne Hp).
  - apply rtc_once, (step_read_system (moved c1 t (HoldsPair ns m) (c_ledger c)) t ns m); [apply lookup_insert_eq|]. by apply db_system.
Qed.

Lemma moved_twice c t p q l l' : moved (moved c t p l) t q l' = moved c t q l'.
Proof. unfold moved. simpl. by rewrite insert_insert_eq. Qed.

(** A run of [WithWriter] against a database on which the pair is granted is
    refused, or its callback starts after exactly the steps of the relation that
    lead to [InWriter] with the lease the callback receives, while the session
    table holds the locks of that phase. *)
Lemma WithWriter_steps {X A} (a0 : A) svc ctx ns (fn : callback A) (w : World X) c t :
  existing_lease ctx ns = None → c_ledger c = w_ledger w →
  c_requests c !! t = None → granted c t global_key true → granted c t (ns_key ns) true →
  let r := WithWriter a0 svc ctx ns fn w in
  (∃ e, refusal e ∧ r.1 = (a0, e) ∧ core_same w r.2) ∨
  (∃ lifecycle w1 w2 s1 s2,
     rtc step c (moved c t (InWriter ns (nl_generation lifecycle)) (c_ledger c)) ∧
     w_ledger w1 = c_ledger c ∧
     w_adv w1 = (s1, ns_key ns, true) :: (s2, global_key, true) :: w_adv w ∧
     fn (with_lease {| lv_namespace := ns; lv_generation := nl_generation lifecycle;
                       lv_mode := LockShared |} ctx) lifecycle w1 = (r.1, w2) ∧
     core_same w2 r.2).
Proof.
  intros Hl Hc Ht Hg Hn. cbv zeta. unfold WithWriter. rewrite Hl. unfold bind.
  pose proof (acquirePair_core svc ns LockShared w) as H1.
  destruct (acquirePair svc ns LockShared w) as [[[g n]|e] w1] eqn:E; go.
  2: { left. exists e. apply acquirePair_error in E as ->. split; [refused ErrDriver|done]. }
  apply acquirePair_locks in E as (s1 & s2 & Hadv). cbn [snd] in H1.
  destruct (writer_body_spec a0 ctx ns fn w1) as (w2 & H2 & [(e & He & ->)|(row & Hr & Hs & Hy & ->)]); go.
  - left. exists e. split; [done|]. split; [done|].
    etransitivity; [exact H1|]. apply sbf_core in H2. etransitivity; [exact H2|]. apply releasePair_core.
  - right. rewrite (cs_ledger _ _ H1), <- Hc in Hr, Hy.
    match goal with |- context [fn ?x ?l w2] => destruct (fn x l w2) as [r3 w3] eqn:Hfn end.
    exists (scanNamespace ns row), w2, w3, s1, s2. split_and!; try done.
    + eapply rtc_r; [by apply (pair_steps c t ns LockShared)|].
      pose proof (step_enter_writer (moved c t (SystemRead ns LockShared) (c_ledger c)) t ns
        (scanNamespace ns row)) as Hstep. rewrite moved_twice in Hstep.
      apply Hstep; [apply lookup_insert_eq| |done]. apply db_namespace. by exists row.
    + by rewrite (sbf_ledger _ _ H2), (cs_ledger _ _ H1).
    + by rewrite (sbf_adv _ _ H2).
    + apply releasePair_core.
Qed.

(** The same for the exclusive section. *)
Lemma WithNamespaceExclusive_steps {X A} (a0 : A) svc ctx ns (fn : callback A) (w : World X) c t :
  c_ledger c = w_ledger w →
  c_requests c !! t = None → granted c t global_key true → granted c t (ns_key ns) false →
  let r := WithNamespaceExclusive a0 svc ctx ns fn w in
  (r.1.1 = a0 ∧ r.1.2 ≠ [] ∧ core_same w r.2) ∨
  (∃ lifecycle w1 w2 out s1 s2,
     rtc step c (moved c t (InExclusive ns (nl_generation lifecycle)) (c_ledger c)) ∧
     w_ledger w1 = c_ledger c ∧
     w_adv w1 = (s1, ns_key ns, false) :: (s2, global_key, true) :: w_adv w ∧
     fn (with_lease {| lv_namespace := ns; lv_generation := nl_generation lifecycle;
                       lv_mode := LockExclusive |} ctx) lifecycle w1 = (out, w2) ∧
     core_same w2 r.2 ∧ r.1.1 = out.1).
Proof.
  intros Hc Ht Hg Hn. cbv zeta. unfold WithNamespaceExclusive, bind.
  pose proof (acquirePair_core svc ns LockExclusive w) as H1.
  destruct (acquirePair svc ns LockExclusive w) as [[[g n]|e] w1] eqn:E; go.
  2: { left. apply acquirePair_error in E as ->. done. }
  apply acquirePair_locks in E as (s1 & s2 & Hadv). cbn [snd] in H1.
  destruct (exclusive_body_spec a0 ctx ns fn w1) as (w2 & H2 & [(e & He & ->)|(row & Hr & Hy & ->)]); go.
  - left. split; [done|]. split; [by destruct He as (x & -> & _)|].
    etransitivity; [exact H1|]. apply sbf_core in H2. etransitivity; [exact H2|]. apply releasePair_core.
  - right. rewrite (cs_ledger _ _ H1), <- Hc in Hr, Hy.
    match goal with |- context [fn ?x ?l w2] => destruct (fn x l w2) as [r3 w3] eqn:Hfn end.
    exists (scanNamespace ns row), w2, w3, r3, s1, s2. split_and!; try done.
    + eapply rtc_r; [by apply (pair_steps c t ns LockExclusive)|].
      pose proof (step_enter_exclusive (moved c t (SystemRead ns LockExclusive) (c_ledger c)) t ns
        (scanNamespace ns row)) as Hstep. rewrite moved_twice in Hstep.
      apply Hstep; [apply lookup_insert_eq|]. apply db_namespace. by exists row.
    + by rewrite (sbf_ledger _ _ H2), (cs_ledger _ _ H1).
    + by rewrite (sbf_adv _ _ H2).
    + apply releasePair_core.
Qed.

(** ** Properties *)

(** C1 Fencing under every interleaving: whenever a request is inside a writer
    callback of a namespace with a lease for generation [g], the system is active
    and the ledger holds the namespace as active at exactly [g], and no other
    request is inside an exclusive section of that namespace (a deletion, also
    one that has not recorded anything yet), has just re-activated it, or is
    inside a global section (a reset); so a mutation runs only against the
    current generation and never beside its deletion, however deletes,
    recreations, resets and other writers interleave. *)
Theorem writers_are_fenced l c t ns g :
  rtc step (initial l) c → c_requests c !! t = Some (InWriter ns g) →
  lease_current (c_ledger c) ns g ∧
  ∀ t' p, t' ≠ t → c_requests c !! t' = Some p →
    p ≠ InGlobal ∧ p ≠ SystemRead ns LockExclusive ∧ p ≠ Activated ns LockExclusive ∧
    ∀ g', p ≠ InExclusive ns g'.
Proof.
  intros Hs Ht. destruct (steps_inv _ _ Hs (initial_inv l)) as (Hex & Hok & _).
  split; [by eapply Hok|]. intros t' p Hne Ht'.
  assert (∀ k, k = global_key ∨ k = ns_key ns → (k, false) ∉ locks_of p) as Hno.
  { intros k Hk Hin. apply (Hex t' t p (InWriter ns g) k true Hne Ht' Ht Hin). set_solver. }
  split_and!; [intros -> ..|intros g' ->];
    solve [apply (Hno global_key); [by left|left]|apply (Hno (ns_key ns)); [by right|right; left]].
Qed.

(** C2 Once deletion of generation [g] has been recorded, no later step of any
    request writes for [g]: the stale writer either finished before the delete
    or is refused. *)
Theorem no_write_after_delete l c c1 c2 ns g r :
  rtc step (initial l) c → l_rows (c_ledger c) !! ns = Some r →
  r_generation r = g → r_state r ≠ StateActive →
  rtc step c c1 → step c1 c2 → c_writes c2 ≠ (ns, g) :: c_writes c1.
Proof.
  intros Hreach Hr Hg Hst Hs Hs1 Hw.
  assert (∃ t, c_requests c1 !! t = Some (InWriter ns g)) as [t Ht].
  { destruct Hs1; simpl in Hw; try by apply (f_equal length) in Hw; simpl in Hw; lia.
    simplify_eq. eauto. }
  assert (inv c1) as (_ & Hok & _).
  { eapply steps_inv; [exact Hs|]. eapply steps_inv; [exact Hreach|]. apply initial_inv. }
  destruct (Hok t ns g Ht) as (_ & r1 & Hr1 & Ha1 & Hg1).
  destruct (steps_ledger _ _ Hs) as [ops Hops].
  destruct (run_ops_retired ops (c_ledger c) ns g r Hr) as (r' & Hr' & Hret); [by right|].
  rewrite <- Hops in Hr'. simplify_eq. destruct Hret as [?|[? ?]]; [lia|done].
Qed.

(** *** Witnesses: one writer, then one delete, of the namespace [demo]. *)

Lemma granted_alone c t key b :
  (∀ t', t' ≠ t → c_requests c !! t' = None) → granted c t key b.
Proof. intros H t' p' Hne Hp. by rewrite H in Hp. Qed.

Definition demo_ledger : ledger := migrated_ledger {["demo" := (1, 1)%Z]} 0.

Definition demo_row : ns_row :=
  {| r_generation := 1; r_state := StateActive; r_activated_at := 1; r_legacy := true;
     r_last_error := None; r_updated_at := 1 |}.

(** Both locks of the pair taken by request 0. *)
Definition pair_conf (m : LockMode) : conf :=
  let c := moved (initial demo_ledger) 0 (HoldsGlobal "demo" m) demo_ledger in
  moved c 0 (HoldsPair "demo" m) demo_ledger.

Lemma pair_conf_reachable m : rtc step (initial demo_ledger) (pair_conf m).
Proof.
  eapply rtc_l. { by apply (step_global_shared _ 0 "demo" m), granted_alone. }
  apply rtc_once.
  apply (step_namespace (moved (initial demo_ledger) 0 (HoldsGlobal "demo" m) demo_ledger) 0 "demo" m);
    [done|].
  apply granted_alone. intros t' Ht. simpl. by rewrite lookup_insert_ne.
Qed.

Definition read_conf (m : LockMode) : conf :=
  moved (pair_conf m) 0 (SystemRead "demo" m) demo_ledger.

Lemma read_conf_reachable m : rtc step (initial demo_ledger) (read_conf m).
Proof.
  eapply rtc_r; [apply (pair_conf_reachable m)|].
  by apply (step_read_system (pair_conf m) 0 "demo" m).
Qed.

(** Request 0 is inside its callback; request 1 has asked to delete and waits
    with the global lock for the namespace. *)
Definition writer_conf : conf :=
  moved (moved (read_conf LockShared) 0 (InWriter "demo" 1) demo_ledger)
    1 (HoldsGlobal "demo" LockExclusive) demo_ledger.

Lemma writer_conf_reachable : rtc step (initial demo_ledger) writer_conf.
Proof.
  eapply rtc_r. { eapply rtc_r; [apply (read_conf_reachable LockShared)|].
    by apply (step_enter_writer (read_conf LockShared) 0 "demo" (scanNamespace "demo" demo_row)). }
  apply (step_global_shared (moved (read_conf LockShared) 0 (InWriter "demo" 1) demo_ledger)
           1 "demo" LockExclusive); [done|].
  intros t' p' Hne Hp. split; [|done]. simpl in Hp.
  apply lookup_insert_Some in Hp as [[<- <-]|[Hn Hp]]; [vm_compute; set_solver|].
  repeat rewrite lookup_insert_ne in Hp by done. done.
Qed.

Lemma writers_are_fenced_witness :
  lease_current demo_ledger "demo" 1 ∧
  ∀ t' p, t' ≠ 0 → c_requests writer_conf !! t' = Some p →
    p ≠ InGlobal ∧ p ≠ SystemRead "demo" LockExclusive ∧ p ≠ Activated "demo" LockExclusive ∧
    ∀ g', p ≠ InExclusive "demo" g'.
Proof.
  exact (writers_are_fenced demo_ledger writer_conf 0 "demo" 1 writer_conf_reachable eq_refl).
Defined.

Definition deleting_ledger : ledger := apply_op 7 (OpStartDelete "demo") demo_ledger.

Definition exclusive_conf : conf :=
  moved (read_conf LockExclusive) 0 (InExclusive "demo" 1) demo_ledger.
Definition deleting_conf : conf := moved exclusive_conf 0 (InExclusive "demo" 1) deleting_ledger.

Lemma deleting_conf_reachable : rtc step (initial demo_ledger) deleting_conf.
Proof.
  eapply rtc_r. { eapply rtc_r; [apply (read_conf_reachable LockExclusive)|].
    by apply (step_enter_exclusive (read_conf LockExclusive) 0 "demo" (scanNamespace "demo" demo_row)). }
  by apply (step_exclusive_op exclusive_conf 0 "demo" 1 7 (OpStartDelete "demo")); [|left].
Qed.

Definition left_conf : conf :=
  {| c_ledger := deleting_ledger; c_requests := delete 0 (c_requests deleting_conf); c_writes := [] |}.

Lemma no_write_after_delete_witness : c_writes left_conf ≠ [("demo", 1%Z)].
Proof.
  refine (no_write_after_delete demo_ledger deleting_conf deleting_conf left_conf "demo" 1
    {| r_generation := 1; r_state := StateDeleting; r_activated_at := 1; r_legacy := true;
       r_last_error := None; r_updated_at := 7 |}
    deleting_conf_reachable eq_refl eq_refl _ (rtc_refl _ _) _); [discriminate|].
  exact (step_leave deleting_conf 0 (InExclusive "demo" 1) eq_refl).
Defined.
