(* ===== verification/Hoare.v ===== *)
(** * Reasoning about writing programs

    [writes c m now x Q]: a program that leaves ledger, clock and locks alone,
    run at [now] on the stores [x], ends with a result and stores that satisfy
    [Q]: whatever fails or, with [c] set, when nothing fails. The writer section
    is the bridge from such programs to the callers of a component. *)

From stdpp Require Import base tactics gmap strings list.
From Stdlib Require Import ZArith Lia.
From S2P Require Import Prelude GoLib NsNames NsLedger NsService.

(** Worlds that differ at most in the stores and the fault script. *)
Record stores_only {X} (w w' : World X) : Prop := {
  so_ledger : w_ledger w' = w_ledger w;
  so_now : w_now w' = w_now w;
  so_adv : w_adv w' = w_adv w;
  so_lockobjs : w_lockobjs w' = w_lockobjs w;
}.

#[export] Instance stores_only_preorder {X} : PreOrder (@stores_only X).
Proof. split; [by intros w|]. intros w1 w2 w3 [] []. split; congruence. Qed.

Definition writes {X A} (c : bool) (m : M (World X) A) (now : Z) (x : X) (Q : A → X → Prop) : Prop :=
  ∀ w, w_ext w = x → w_now w = now → (c = true → w_faults w = []) →
  stores_only w (m w).2 ∧ (c = true → w_faults (m w).2 = []) ∧ Q (m w).1 (w_ext (m w).2).

Section rules.
Context {X : Type} {c : bool}.
Implicit Types (x : X) (now : Z).

Lemma writes_ret {A} (a : A) now x (Q : A → X → Prop) : Q a x → writes c (ret a) now x Q.
Proof. by intros HQ w <- <- Hf. Qed.

Lemma writes_bind {A B} (m : M (World X) A) (k : A → M (World X) B) now x (R : A → X → Prop) (Q : B → X → Prop) :
  writes c m now x R → (∀ a x', R a x' → writes c (k a) now x' Q) → writes c (bind m k) now x Q.
Proof.
  intros Hm Hk w Hx Hn Hf. unfold bind. destruct (Hm w Hx Hn Hf) as (Hs & Hf' & Hr). destruct (m w) as [a w1]. cbn [fst snd] in *.
  destruct (Hk a (w_ext w1) Hr w1) as (Hs' & ? & ?); [done|by rewrite (so_now _ _ Hs)|done|]. split; [by etransitivity|done].
Qed.

Lemma writes_mono {A} (m : M (World X) A) now x (R Q : A → X → Prop) :
  writes c m now x R → (∀ a x', R a x' → Q a x') → writes c m now x Q.
Proof. intros Hm HRQ w Hx Hn Hf. destruct (Hm w Hx Hn Hf) as (? & ? & ?). auto. Qed.

Lemma writes_fault now x (Q : bool → X → Prop) : (c = false → Q true x) → Q false x → writes c fault now x Q.
Proof.
  intros Ht Hq w <- <- Hf. pose proof (fault_frame w) as [? ? ? ? ? Hx]. split; [by split|]. rewrite Hx. destruct c.
  - rewrite fault_nil by auto. split; [|done]. intros _. by apply Hf.
  - split; [done|]. destruct (fault w).1; auto.
Qed.

Lemma writes_modify (f : X → X) now x (Q : () → X → Prop) : Q tt (f x) → writes c (modify (λ w, set_ext (f (w_ext w)) w)) now x Q.
Proof. by intros HQ w <- <- Hf. Qed.

Lemma writes_gets {B} (f : X → B) now x (Q : B → X → Prop) : Q (f x) x → writes c (gets (λ w, f (w_ext w))) now x Q.
Proof. by intros HQ w <- <- Hf. Qed.

Lemma writes_gets_now now x (Q : Z → X → Prop) : Q now x → writes c (gets w_now) now x Q.
Proof. by intros HQ w <- <- Hf. Qed.

(** The result on the stores of a world. *)
Lemma writes_run {A} (m : M (World X) A) w (Q : A → X → Prop) :
  writes c m (w_now w) (w_ext w) Q → (c = true → w_faults w = []) → Q (m w).1 (w_ext (m w).2).
Proof. intros Hm Hf. by destruct (Hm w eq_refl eq_refl Hf) as (_ & _ & ?). Qed.
End rules.

(** The same on one ledger, for programs that read it. *)
Definition writes_at {X A} (c : bool) (m : M (World X) A) (l : ledger) (now : Z) (x : X) (Q : A → X → Prop) : Prop :=
  ∀ w, w_ledger w = l → w_ext w = x → w_now w = now → (c = true → w_faults w = []) →
  stores_only w (m w).2 ∧ (c = true → w_faults (m w).2 = []) ∧ Q (m w).1 (w_ext (m w).2).

Section rules_at.
Context {X : Type} {c : bool} {l : ledger}.
Implicit Types (x : X) (now : Z).

Lemma at_writes {A} (m : M (World X) A) now x (Q : A → X → Prop) : writes c m now x Q → writes_at c m l now x Q.
Proof. intros Hm w _. apply Hm. Qed.

Lemma at_ret {A} (a : A) now x (Q : A → X → Prop) : Q a x → writes_at c (ret a) l now x Q.
Proof. intros HQ. by apply at_writes, writes_ret. Qed.

Lemma at_bind {A B} (m : M (World X) A) (k : A → M (World X) B) now x (R : A → X → Prop) (Q : B → X → Prop) :
  writes_at c m l now x R → (∀ a x', R a x' → writes_at c (k a) l now x' Q) → writes_at c (bind m k) l now x Q.
Proof.
  intros Hm Hk w Hl Hx Hn Hf. unfold bind. destruct (Hm w Hl Hx Hn Hf) as (Hs & Hf' & Hr). destruct (m w) as [a w1]. cbn [fst snd] in *.
  destruct (Hk a (w_ext w1) Hr w1) as (Hs' & ? & ?); [by rewrite (so_ledger _ _ Hs)|done|by rewrite (so_now _ _ Hs)|done|].
  split; [by etransitivity|done].
Qed.

Lemma at_mono {A} (m : M (World X) A) now x (R Q : A → X → Prop) :
  writes_at c m l now x R → (∀ a x', R a x' → Q a x') → writes_at c m l now x Q.
Proof. intros Hm HRQ w Hl Hx Hn Hf. destruct (Hm w Hl Hx Hn Hf) as (? & ? & ?). auto. Qed.

Lemma at_fault now x (Q : bool → X → Prop) : (c = false → Q true x) → Q false x → writes_at c fault l now x Q.
Proof. intros Ht Hq. by apply at_writes, writes_fault. Qed.

Lemma at_run {A} (m : M (World X) A) w (Q : A → X → Prop) :
  writes_at c m (w_ledger w) (w_now w) (w_ext w) Q → (c = true → w_faults w = []) →
  Q (m w).1 (w_ext (m w).2) ∧ stores_only w (m w).2 ∧ (c = true → w_faults (m w).2 = []).
Proof. intros Hm Hf. by destruct (Hm w eq_refl eq_refl eq_refl Hf) as (? & ? & ?). Qed.
End rules_at.

(** ** The writer section *)

Section calm_locks.
Context {X : Type}.
Implicit Types w : World X.

Lemma unlock_all_calm s held w : w_faults w = [] → w_faults (unlock_all s held w).2 = [].
Proof.
  revert w. induction held as [|[k b] held IH]; intros w Hf; [done|]. cbn [unlock_all]. unfold bind, exec_unlock, bind.
  rewrite fault_nil by done. go. by apply IH.
Qed.

Lemma Release_calm l w : w_faults w = [] → w_faults (Release l w).2 = [].
Proof.
  intros Hf. destruct l as [|s]; [done|]. unfold Release, bind, gets. go. destruct (w_lockobjs w !! s) as [o|]; [|done].
  destruct (lo_done o); [done|]. by apply (unlock_all_calm s (reverse (lo_held o)) w) in Hf.
Qed.

Lemma releasePair_calm l1 l2 w : w_faults w = [] → w_faults (releasePair l1 l2 w).2 = [].
Proof. intros Hf. unfold releasePair, bind. go. by apply Release_calm, Release_calm. Qed.

(** Without failures the body runs the callback, or refuses, on this very world. *)
Lemma writer_body_calm {A} (a0 : A) ctx ns fn w :
  w_faults w = [] →
  (∃ row, l_rows (w_ledger w) !! ns = Some row ∧ r_state row = StateActive ∧ y_state (l_sys (w_ledger w)) = SystemActive ∧
     writer_body a0 ctx ns fn w =
       fn (with_lease {| lv_namespace := ns; lv_generation := r_generation row; lv_mode := LockShared |} ctx) (scanNamespace ns row) w) ∨
  (∃ e, refusal e ∧ writer_body a0 ctx ns fn w = ((a0, e), w) ∧
     ¬ (y_state (l_sys (w_ledger w)) = SystemActive ∧ ∃ row, l_rows (w_ledger w) !! ns = Some row ∧ r_state row = StateActive)).
Proof.
  intros Hf. unfold writer_body, require_active_system, repo_GetSystem, repo_GetNamespace, run_sql, bind.
  assert (∀ l, l = w_ledger w → set_ledger l w = w) as Hid by (intros l ->; by destruct w).
  rewrite fault_nil by done. go. rewrite Hid by done. cbn [sl_state scanSystem].
  destruct (decide (y_state (l_sys (w_ledger w)) = SystemActive)) as [Hy|Hy].
  2: { right. rewrite bool_decide_eq_false_2 by done. go. eexists. split; [refused ErrSystemResetting|]. split; [done|]. tauto. }
  rewrite bool_decide_eq_true_2 by done. go. rewrite fault_nil by done. go. rewrite Hid by done.
  destruct (l_rows (w_ledger w) !! ns) as [row|] eqn:Hr; go.
  2: { right. eexists. split; [refused ErrNamespaceNotFound|]. split; [done|]. naive_solver. }
  cbn [nl_state scanNamespace lifecycle_of]. destruct (decide (r_state row = StateActive)) as [Hs|Hs].
  - left. exists row. split_and!; try done. cbn. by rewrite bool_decide_eq_true_2.
  - right. eexists. split; [refused ErrNamespaceNotActive|]. cbn. rewrite bool_decide_eq_false_2 by done. split; [done|]. naive_solver.
Qed.
End calm_locks.

(** A callback of writes under the writer's lease: the section refuses and
    changes nothing, or runs it for the active namespace. When nothing fails it
    refuses only if namespace or system is not active. *)
Lemma WithWriter_writes_at {X A} (c : bool) (a0 : A) svc ctx ns (fn : callback A) (w : World X) (Q : ns_row → A * error → X → Prop) :
  existing_lease ctx ns = None → (c = true → w_faults w = []) →
  (∀ row, l_rows (w_ledger w) !! ns = Some row → r_state row = StateActive → y_state (l_sys (w_ledger w)) = SystemActive →
     writes_at c (fn (with_lease {| lv_namespace := ns; lv_generation := r_generation row; lv_mode := LockShared |} ctx) (scanNamespace ns row))
       (w_ledger w) (w_now w) (w_ext w) (Q row)) →
  let r := WithWriter a0 svc ctx ns fn w in
  w_ledger r.2 = w_ledger w ∧ w_now r.2 = w_now w ∧ (c = true → w_faults r.2 = []) ∧
  ((∃ e, refusal e ∧ r.1 = (a0, e) ∧ w_ext r.2 = w_ext w ∧
      (c = true → ¬ (y_state (l_sys (w_ledger w)) = SystemActive ∧ ∃ row, l_rows (w_ledger w) !! ns = Some row ∧ r_state row = StateActive))) ∨
   (∃ row, l_rows (w_ledger w) !! ns = Some row ∧ r_state row = StateActive ∧ y_state (l_sys (w_ledger w)) = SystemActive ∧
      Q row r.1 (w_ext r.2))).
Proof.
  intros Hl Hf Hfn. cbv zeta. destruct c.
  - unfold WithWriter. rewrite Hl. unfold bind.
    destruct (acquirePair_balanced svc ns LockShared w (Hf eq_refl)) as (g & n & w1 & -> & Hf1 & Hl1 & Hn1 & Hx1 & Hrel). go.
    destruct (writer_body_calm a0 ctx ns fn w1 Hf1) as [(row & Hr & Hs & Hy & ->)|(e & He & -> & Hno)]; rewrite ?Hl1 in *.
    + destruct (Hfn row Hr Hs Hy w1 Hl1 Hx1 Hn1 ltac:(done)) as (Hso & Hf2 & HQ). specialize (Hf2 eq_refl).
      match goal with |- context [fn ?l ?s w1] => destruct (fn l s w1) as [r w2] end. cbn [fst snd] in *.
      destruct (Hrel w2) as (w3 & Hrl & _ & Hl3 & Hx3 & Hn3); [destruct Hso; split; [done|done|congruence]|].
      pose proof (releasePair_calm n g w2 Hf2) as Hf3. rewrite Hrl in Hf3 |- *. cbn [fst snd ret] in *.
      rewrite Hl3, Hn3, (so_ledger _ _ Hso), (so_now _ _ Hso). split; [done|]. split; [done|]. split; [done|]. right. exists row.
      rewrite Hx3. done.
    + destruct (Hrel w1) as (w3 & Hrl & _ & Hl3 & Hx3 & Hn3); [done|].
      pose proof (releasePair_calm n g w1 Hf1) as Hf3. cbn [fst snd]. rewrite Hrl in Hf3 |- *. cbn [fst snd ret] in *.
      rewrite Hl3, Hn3, Hx3, Hx1. split; [done|]. split; [done|]. split; [done|]. left. by exists e.
  - destruct (WithWriter_cases a0 svc ctx ns fn w Hl) as [(e & He & Hr & [Hl1 Hn1 Hx1])|(row & w1 & w2 & Hr & Hs & Hy & [Hl1 Hn1 Hx1] & Hf1 & [Hl2 Hn2 Hx2])].
    + split; [done|]. split; [done|]. split; [done|]. left. by exists e.
    + destruct (Hfn row Hr Hs Hy w1 Hl1 Hx1 Hn1 ltac:(done)) as (Hso & _ & HQ). rewrite Hf1 in Hso, HQ. cbn [fst snd] in *.
      rewrite Hl2, Hn2, Hx2, (so_ledger _ _ Hso), (so_now _ _ Hso). split; [done|]. split; [done|]. split; [done|]. right. by exists row.
Qed.

Lemma WithWriter_writes {X A} (c : bool) (a0 : A) svc ctx ns (fn : callback A) (w : World X) (Q : ns_row → A * error → X → Prop) :
  existing_lease ctx ns = None → (c = true → w_faults w = []) →
  (∀ row, l_rows (w_ledger w) !! ns = Some row → r_state row = StateActive → y_state (l_sys (w_ledger w)) = SystemActive →
     writes c (fn (with_lease {| lv_namespace := ns; lv_generation := r_generation row; lv_mode := LockShared |} ctx) (scanNamespace ns row))
       (w_now w) (w_ext w) (Q row)) →
  let r := WithWriter a0 svc ctx ns fn w in
  w_ledger r.2 = w_ledger w ∧ w_now r.2 = w_now w ∧ (c = true → w_faults r.2 = []) ∧
  ((∃ e, refusal e ∧ r.1 = (a0, e) ∧ w_ext r.2 = w_ext w ∧
      (c = true → ¬ (y_state (l_sys (w_ledger w)) = SystemActive ∧ ∃ row, l_rows (w_ledger w) !! ns = Some row ∧ r_state row = StateActive))) ∨
   (∃ row, l_rows (w_ledger w) !! ns = Some row ∧ r_state row = StateActive ∧ y_state (l_sys (w_ledger w)) = SystemActive ∧
      Q row r.1 (w_ext r.2))).
Proof. intros Hl Hf Hfn. apply WithWriter_writes_at; [done|done|]. intros row Hr Hs Hy. by apply at_writes, Hfn. Qed.

(** A valid lease names the incarnation writes address. *)
Lemma leased_incarnation ctx ns l :
  ctx_lease ctx = Some l → lv_namespace l = ns → RequireNamespaceLease ctx ns = [] →
  LeaseIncarnation ctx ns = (NewIncarnation ns (lv_generation l), true).
Proof.
  unfold RequireNamespaceLease, LeaseIncarnation, LeaseGeneration. intros -> -> Hr. by destruct (_ || _).
Qed.
