(* ===== verification/Janitor.v ===== *)
(** * The deleted-generation janitor

    [internal/core/nslifecycle/janitor.go]: bounded passes over the superseded
    generations of the ledger, with a keyset cursor that survives from pass to
    pass. The physical cleaner is an interface of the package; it is a
    parameter here. *)

From stdpp Require Import base tactics gmap strings list sorting.
From Stdlib Require Import ZArith Lia.
From S2P Require Import Prelude GoLib Keyset NsLedger NsService.

Section janitor.
Context {X : Type} `{Collation}.
Abbreviation W := (World X).

(** [GenerationCleaner]. *)
Record GenerationCleaner := {
  DeleteRedisGeneration : CleanupCandidate → M W error;
  DeleteQdrantGeneration : CleanupCandidate → M W error;
}.

Definition zero_candidate : CleanupCandidate := {| cc_namespace := ""; cc_generation := 0 |}.

(** The cleaning loop: how many candidates were cleaned, the error that
    stopped it and the cursor it leaves. *)
Fixpoint clean_all (cl : GenerationCleaner) (cursor : CleanupCandidate) (cleaned : Z)
    (cs : list CleanupCandidate) : M W (Z * error * CleanupCandidate) :=
  match cs with
  | [] => ret (cleaned, [], cursor)
  | c :: rest =>
      let! e1 := DeleteRedisGeneration cl c in
      if negb (nil_err e1) then ret (cleaned, e1, cursor)
      else
        let! e2 := DeleteQdrantGeneration cl c in
        if negb (nil_err e2) then ret (cleaned, e2, cursor)
        else clean_all cl c (cleaned + 1)%Z rest
  end.

(** [RunOnce]; the janitor's cursor is threaded explicitly. *)
Definition RunOnce (cl : GenerationCleaner) (cursor : CleanupCandidate) (limit : Z)
    : M W (Z * error * CleanupCandidate) :=
  if (limit <=? 0)%Z then ret (0%Z, [], cursor)
  else
    let! s := repo_GetSystem in
    match s with
    | (Some system, []) =>
        match sl_disabled_at system with
        | None => ret (0%Z, [ErrLegacyEnvelopesOpen], cursor)
        | Some _ =>
            let! l := repo_ListCleanupCandidates cursor limit in
            match l with
            | (candidates, []) =>
                let candidates :=
                  if (limit <? Z.of_nat (length candidates))%Z
                  then take (Z.to_nat limit) candidates else candidates in
                let short := (Z.of_nat (length candidates) <? limit)%Z in
                let! r := clean_all cl cursor 0 candidates in
                (* the deferred reset of a short page *)
                ret (r.1, if short then zero_candidate else r.2)
            | (_, e) => ret (0%Z, e, cursor)
            end
        end
    | (_, e) => ret (0%Z, e, cursor)
    end.

(** [n] successive passes, dropping their results as the caller does. *)
Fixpoint passes (n : nat) (cl : GenerationCleaner) (cursor : CleanupCandidate) (limit : Z)
    : M W CleanupCandidate :=
  match n with
  | 0 => ret cursor
  | S n' => let! r := RunOnce cl cursor limit in passes n' cl r.2 limit
  end.

(** ** The candidate order *)

Lemma cand_ltb_irrefl c : cand_ltb c c = false.
Proof. unfold cand_ltb. by rewrite coll_irrefl, bool_decide_true, Z.ltb_irrefl. Qed.

Lemma cand_ltb_spec a b :
  cand_ltb a b = true ↔
    coll_ltb (cc_namespace a) (cc_namespace b) = true ∨
    (cc_namespace a = cc_namespace b ∧ (cc_generation a < cc_generation b)%Z).
Proof. unfold cand_ltb. rewrite orb_true_iff, andb_true_iff, bool_decide_eq_true, Z.ltb_lt. done. Qed.

Lemma coll_asym s t : coll_ltb s t = true → coll_ltb t s = true → False.
Proof. intros H1 H2. pose proof (coll_trans _ _ _ H1 H2) as H3. by rewrite coll_irrefl in H3. Qed.

Lemma cand_ltb_trans a b c : cand_ltb a b = true → cand_ltb b c = true → cand_ltb a c = true.
Proof.
  rewrite !cand_ltb_spec. intros [Hab|[E1 Hab]] [Hbc|[E2 Hbc]].
  - left. by eapply coll_trans.
  - left. by rewrite <- E2.
  - left. by rewrite E1.
  - right. split; [congruence|lia].
Qed.

Lemma cand_ltb_total a b : a = b ∨ cand_ltb a b = true ∨ cand_ltb b a = true.
Proof.
  rewrite !cand_ltb_spec. destruct a as [s g], b as [t h]; simpl.
  destruct (coll_total s t) as [->|[?|?]]; [|auto|auto].
  destruct (Z.lt_trichotomy g h) as [?|[->|?]]; auto.
Qed.

#[export] Instance cand_le_total : Total cand_le.
Proof.
  intros a b. unfold cand_le. destruct (cand_ltb_total a b) as [->|[Hl|Hl]].
  - left. apply cand_ltb_irrefl.
  - left. destruct (cand_ltb b a) eqn:E; [|done].
    pose proof (cand_ltb_trans _ _ _ Hl E) as Hc. by rewrite cand_ltb_irrefl in Hc.
  - right. destruct (cand_ltb a b) eqn:E; [|done].
    pose proof (cand_ltb_trans _ _ _ Hl E) as Hc. by rewrite cand_ltb_irrefl in Hc.
Qed.

#[export] Instance cand_le_trans : Transitive cand_le.
Proof.
  intros a b c. unfold cand_le. intros Hab Hbc.
  destruct (cand_ltb c a) eqn:E; [|done].
  destruct (cand_ltb_total a b) as [->|[Hl|Hl]]; [congruence| |congruence].
  by rewrite (cand_ltb_trans _ _ _ E Hl) in Hbc.
Qed.

(** Strictly increasing lists; what a keyset page is. *)
Abbreviation increasing := (StronglySorted (λ a b, cand_ltb a b = true)).

Lemma sorted_nodup_increasing l : StronglySorted cand_le l → NoDup l → increasing l.
Proof.
  apply sorted_nodup_keyset. intros a b _ _ H1 H2.
  destruct (cand_ltb_total a b) as [->|[?|?]]; [done|congruence..].
Qed.

(** The candidates of the ledger, each once, in cursor order. *)
Definition sorted_candidates (l : ledger) : list CleanupCandidate :=
  merge_sort cand_le (all_candidates (l_rows l)).

Lemma series_NoDup n : NoDup (series n).
Proof. unfold series. apply NoDup_fmap_2; [apply _|apply NoDup_seq]. Qed.

Lemma elem_of_series n g : g ∈ series n ↔ (1 <= g <= n)%Z.
Proof.
  unfold series. rewrite list_elem_of_fmap. setoid_rewrite elem_of_seq. split.
  - intros (k & -> & Hk). lia.
  - intros Hg. exists (Z.to_nat g). lia.
Qed.

Lemma all_candidates_NoDup rows : NoDup (all_candidates rows).
Proof.
  unfold all_candidates. apply NoDup_bind; [|intros p _|apply NoDup_map_to_list].
  - intros [n1 r1] [n2 r2] c Hp1%elem_of_map_to_list Hp2%elem_of_map_to_list.
    unfold row_candidates. rewrite !list_elem_of_fmap.
    intros (g1 & -> & _) (g2 & ? & _). simpl in *. simplify_eq. done.
  - unfold row_candidates. apply NoDup_fmap_2; [|apply series_NoDup]. by intros g1 g2 [= ->].
Qed.

Lemma elem_of_all_candidates rows c :
  c ∈ all_candidates rows ↔
  ∃ r, rows !! cc_namespace c = Some r ∧ (1 <= cc_generation c)%Z ∧
       (cc_generation c <= match r_state r with
                           | StateDeleted => r_generation r
                           | _ => r_generation r - 1 end)%Z.
Proof.
  unfold all_candidates. rewrite list_elem_of_bind. unfold row_candidates.
  setoid_rewrite list_elem_of_fmap. setoid_rewrite elem_of_series. split.
  - intros ([ns r] & (g & -> & Hg) & Hr%elem_of_map_to_list). exists r. simpl in *. tauto.
  - intros (r & Hr & Hg). exists (cc_namespace c, r). split; [|by apply elem_of_map_to_list].
    exists (cc_generation c). simpl. split; [by destruct c|done].
Qed.

(** ** A walk over the candidates *)

(** What cleaning a list of candidates, one after the other, does. *)
Fixpoint clean_each (cl : GenerationCleaner) (cs : list CleanupCandidate) : M W () :=
  match cs with
  | [] => ret tt
  | c :: rest => DeleteRedisGeneration cl c ;;! DeleteQdrantGeneration cl c ;;! clean_each cl rest
  end.

(** A cleaner whose calls for the given candidates succeed when no external call
    fails, and leave the ledger alone. *)
Record quiet (m : M W error) : Prop := {
  quiet_ok : ∀ w, w_faults w = [] → (m w).1 = [];
  quiet_ledger : ∀ w, w_ledger (m w).2 = w_ledger w;
  quiet_faults : ∀ w, w_faults w = [] → w_faults (m w).2 = [];
}.

Definition reliable (cl : GenerationCleaner) (cs : list CleanupCandidate) : Prop :=
  ∀ c, c ∈ cs → quiet (DeleteRedisGeneration cl c) ∧ quiet (DeleteQdrantGeneration cl c).

Lemma clean_all_reliable cl cs cursor n w :
  reliable cl cs → w_faults w = [] →
  clean_all cl cursor n cs w =
    ((n + Z.of_nat (length cs), [], default cursor (last cs))%Z, (clean_each cl cs w).2) ∧
  w_ledger (clean_each cl cs w).2 = w_ledger w ∧ w_faults (clean_each cl cs w).2 = [].
Proof.
  intros Hcl. revert cursor n w. induction cs as [|c cs IH]; intros cursor n w Hnf.
  { simpl. by rewrite Z.add_0_r. }
  cbn [clean_all clean_each]. unfold bind.
  destruct (Hcl c) as [[Ho1 Hl1 Hf1] [Ho2 Hl2 Hf2]]; [set_solver|].
  rewrite Ho1 by done. go. rewrite Ho2 by auto. go.
  destruct (IH ltac:(intros ? ?; apply Hcl; set_solver) c (n + 1)%Z
    (DeleteQdrantGeneration cl c (DeleteRedisGeneration cl c w).2).2) as (-> & Hl & Hf); [auto|].
  split; [|by rewrite Hl, Hf, Hl2, Hl1].
  f_equal. f_equal; [f_equal; cbn [length]; lia|]. rewrite last_cons. by destruct (last cs).
Qed.

Lemma clean_each_app cl l1 l2 w : clean_each cl (l1 ++ l2) w = clean_each cl l2 (clean_each cl l1 w).2.
Proof.
  revert w. induction l1 as [|c l1 IH]; intros w; [done|]. simpl. unfold bind. go. apply IH.
Qed.

(** The part of the sorted candidates a cursor has still to visit. *)
Abbreviation resumes := (Keyset.resumes cand_ltb).

Lemma resumes_zero l : resumes (sorted_candidates l) zero_candidate (sorted_candidates l).
Proof.
  apply list_filter_all. intros c. unfold sorted_candidates. rewrite merge_sort_Permutation.
  rewrite elem_of_all_candidates. intros (r & _ & Hg & _). apply cand_ltb_spec. simpl.
  destruct (decide (cc_namespace c = "")) as [->|Hne]; [right; split; [done|lia]|left; by apply coll_empty].
Qed.

Lemma sorted_candidates_increasing l : increasing (sorted_candidates l).
Proof.
  apply sorted_nodup_increasing; [apply StronglySorted_merge_sort; apply _|].
  unfold sorted_candidates. rewrite merge_sort_Permutation. apply all_candidates_NoDup.
Qed.

Lemma RunOnce_page cl cursor limit todo w :
  reliable cl todo → w_faults w = [] → (0 < limit)%Z →
  is_Some (y_disabled_at (l_sys (w_ledger w))) →
  resumes (sorted_candidates (w_ledger w)) cursor todo →
  let page := take (Z.to_nat limit) todo in
  RunOnce cl cursor limit w =
    ((Z.of_nat (length page), [],
      if (Z.of_nat (length page) <? limit)%Z then zero_candidate else default cursor (last page)),
     (clean_each cl page w).2).
Proof.
  intros Hcl Hf Hlim [at_ Hgate] Hres page. unfold RunOnce.
  destruct (Z.leb_spec limit 0); [lia|]. unfold bind, repo_GetSystem.
  rewrite run_sql_read_nil by done. go. cbn [sl_disabled_at scanSystem]. rewrite Hgate.
  unfold repo_ListCleanupCandidates. destruct (Z.leb_spec limit 0); [lia|].
  rewrite (run_sql_read_nil _ (λ l, (sql_list_candidates cursor (Z.to_nat limit) l, []))) by done. go.
  assert (sql_list_candidates cursor (Z.to_nat limit) (w_ledger w) = page) as ->.
  { unfold sql_list_candidates. fold (sorted_candidates (w_ledger w)). by rewrite Hres. }
  assert ((limit <? Z.of_nat (length page))%Z = false) as ->.
  { apply Z.ltb_ge. subst page. rewrite length_take. lia. }
  assert (reliable cl page) as Hclp.
  { intros c Hc. apply Hcl. rewrite <- (take_drop (Z.to_nat limit) todo). fold page. set_solver. }
  destruct (clean_all_reliable cl page cursor 0 w Hclp Hf) as (-> & _ & _). go.
  by rewrite Z.add_0_l.
Qed.

(** A pass over what is left, and the passes after it. *)
Lemma passes_drain cl limit n cursor todo w :
  reliable cl todo → w_faults w = [] → (0 < limit)%Z →
  is_Some (y_disabled_at (l_sys (w_ledger w))) →
  resumes (sorted_candidates (w_ledger w)) cursor todo →
  n = (length todo / Z.to_nat limit + 1)%nat →
  passes n cl cursor limit w = (zero_candidate, (clean_each cl todo w).2).
Proof.
  revert cursor todo w. induction n as [|n IH]; intros cursor todo w Hcl Hf Hlim Hgate Hres Hn; [lia|].
  cbn [passes]. unfold bind. rewrite (RunOnce_page cl cursor limit todo w) by done. go.
  set (k := Z.to_nat limit) in *. assert (0 < k)%nat by lia.
  assert (reliable cl (take k todo) ∧ reliable cl (drop k todo)) as [Hct Hcd].
  { split; intros c Hc; apply Hcl; rewrite <- (take_drop k todo); set_solver. }
  destruct (clean_all_reliable cl (take k todo) cursor 0 w Hct Hf) as (_ & Hl & Hf').
  destruct (decide (length todo < k)%nat) as [Hlt|Hge].
  - rewrite Nat.div_small in Hn by done. assert (n = 0)%nat as -> by lia.
    rewrite (take_ge todo k) by lia. cbn [passes]. unfold ret.
    destruct (Z.ltb_spec (Z.of_nat (length todo)) limit); [done|lia].
  - rewrite length_take, Nat.min_l by lia.
    destruct (Z.ltb_spec (Z.of_nat k) limit); [lia|].
    assert (is_Some (last (take k todo))) as [c Hc].
    { apply last_is_Some. intros E. apply (f_equal length) in E. rewrite length_take in E. simpl in E. lia. }
    rewrite Hc. simpl default.
    rewrite (IH c (drop k todo) (clean_each cl (take k todo) w).2).
    + by rewrite <- clean_each_app, take_drop.
    + done.
    + done.
    + done.
    + by rewrite Hl.
    + rewrite Hl. eapply (resumes_drop cand_ltb cand_ltb_irrefl cand_ltb_trans); [apply sorted_candidates_increasing|done|done].
    + rewrite length_drop.
      assert (length todo / k = (length todo - k) / k + 1)%nat as E; [|lia].
      rewrite <- (Nat.div_add _ 1 k) by lia. f_equal. lia.
Qed.

(** Janitor liveness. With the legacy gate closed and no storage or cleaner
    failure, a walk from the zero cursor with page size [limit] cleans every
    superseded generation of the ledger exactly once, in cursor order, within
    [candidates / limit + 1] passes, touches nothing else, and is then back at
    the zero cursor, ready for the generations superseded in the meantime. *)
Theorem janitor_cleans_every_candidate (cl : GenerationCleaner) (limit : Z) (w : W) :
  reliable cl (sorted_candidates (w_ledger w)) → w_faults w = [] → (0 < limit)%Z →
  is_Some (y_disabled_at (l_sys (w_ledger w))) →
  let all := sorted_candidates (w_ledger w) in
  passes (length all / Z.to_nat limit + 1) cl zero_candidate limit w =
    (zero_candidate, (clean_each cl all w).2) ∧
  NoDup all ∧
  (∀ c, c ∈ all ↔ ∃ r, l_rows (w_ledger w) !! cc_namespace c = Some r ∧
       (1 <= cc_generation c)%Z ∧
       (cc_generation c <= match r_state r with
                           | StateDeleted => r_generation r
                           | _ => r_generation r - 1 end)%Z).
Proof.
  intros Hcl Hf Hlim Hgate all. split_and!.
  - by apply (passes_drain cl limit _ _ all); [..|apply resumes_zero|].
  - unfold all, sorted_candidates. rewrite merge_sort_Permutation. apply all_candidates_NoDup.
  - intros c. unfold all, sorted_candidates. rewrite merge_sort_Permutation. apply elem_of_all_candidates.
Qed.

(** The cleaning loop: the cursor moves only over candidates that were fully
    cleaned, in order. *)
Lemma clean_all_prefix cl cs cursor n w :
  let '((m, e, cur), w') := clean_all cl cursor n cs w in
  ∃ k, (k <= length cs)%nat ∧ m = (n + Z.of_nat k)%Z ∧ cur = default cursor (last (take k cs)) ∧
       (e = [] ↔ k = length cs).
Proof.
  revert cursor n w. induction cs as [|c cs IH]; intros cursor n w.
  { simpl. exists 0%nat. simpl. split_and!; [lia|lia|done|done]. }
  cbn [clean_all]. unfold bind.
  destruct (DeleteRedisGeneration cl c w) as [e1 w1]. destruct e1 as [|x e1]; go; cbn [negb].
  2: { exists 0%nat. simpl. split_and!; [lia|lia|done|]. split; intros; [done|lia]. }
  destruct (DeleteQdrantGeneration cl c w1) as [e2 w2]. destruct e2 as [|x e2]; go; cbn [negb].
  2: { exists 0%nat. simpl. split_and!; [lia|lia|done|]. split; intros; [done|lia]. }
  specialize (IH c (n + 1)%Z w2). destruct (clean_all cl c (n + 1) cs w2) as [[[m e] cur] w'].
  destruct IH as (k & Hk & -> & -> & He). exists (S k). simpl length. split_and!; [lia|lia| |].
  - simpl take. rewrite last_cons. by destruct (last (take k cs)).
  - rewrite He. lia.
Qed.

(** The janitor refuses to touch anything while the legacy gate is open:
    whatever the cleaner, the cursor and the page size, the pass cleans
    nothing, changes nothing but the fault script, keeps its cursor, and, if it
    did read the gate, says so. *)
Theorem janitor_refuses_open_gate (cl : GenerationCleaner) (cursor : CleanupCandidate) (limit : Z) (w : W) :
  y_disabled_at (l_sys (w_ledger w)) = None → (0 < limit)%Z →
  let '((n, e, cur), w') := RunOnce cl cursor limit w in
  n = 0%Z ∧ cur = cursor ∧ e ≠ [] ∧ same_but_faults w w' ∧
  (w_faults w = [] → e = [ErrLegacyEnvelopesOpen]).
Proof.
  intros Hgate Hlim. unfold RunOnce. destruct (Z.leb_spec limit 0); [lia|].
  unfold bind, repo_GetSystem.
  destruct (run_sql_read (None, [ErrDriver]) (λ l, (Some (scanSystem (l_sys l)), [])) w)
    as (w' & Hs & [(fs & Hf & ->)| ->]); go.
  - split_and!; try done. by rewrite Hf.
  - cbn [sl_disabled_at scanSystem]. rewrite Hgate. go. by split_and!.
Qed.

(** An interrupted janitor pass never skips a candidate. Whatever the
    cleaner does, a pass over a page cleans a prefix of it: the count it
    reports is the length of that prefix, its error is nil exactly when the
    prefix is the whole page, and the cursor it leaves is the last candidate
    that was fully cleaned, so that the page after it starts at the one that
    failed. *)
Theorem janitor_cursor_never_skips (cl : GenerationCleaner) (cs : list CleanupCandidate)
    (cursor : CleanupCandidate) (w : W) :
  let '((m, e, cur), w') := clean_all cl cursor 0 cs w in
  ∃ done rest, cs = done ++ rest ∧ m = Z.of_nat (length done) ∧
    (e = [] ↔ rest = []) ∧ cur = default cursor (last done) ∧
    (∀ l, resumes l cursor cs → increasing l → resumes l cur rest).
Proof.
  pose proof (clean_all_prefix cl cs cursor 0 w) as Hp.
  destruct (clean_all cl cursor 0 cs w) as [[[m e] cur] w'].
  destruct Hp as (k & Hk & -> & -> & He). exists (take k cs), (drop k cs).
  split_and!.
  - by rewrite take_drop.
  - rewrite length_take. lia.
  - rewrite He. split; [intros ->; by rewrite drop_all|intros Hd].
    apply (f_equal length) in Hd. rewrite length_drop in Hd. simpl in Hd. lia.
  - done.
  - intros l Hr Hi. destruct (last (take k cs)) as [c|] eqn:Hl; simpl.
    + by eapply (resumes_drop cand_ltb cand_ltb_irrefl cand_ltb_trans).
    + apply last_None in Hl. apply (f_equal length) in Hl. rewrite length_take in Hl. simpl in Hl.
      assert (k = 0 ∨ cs = []) as [-> | ->]; [|done|by rewrite drop_nil].
      destruct cs; simpl in *; [by right|left; lia].
Qed.
End janitor.

(** A cleaner that records what it removes, and a ledger with two retired
    generations of one namespace and one of another. *)
Definition logging_cleaner : GenerationCleaner (X := list CleanupCandidate) := {|
  DeleteRedisGeneration c := λ w, ([], set_ext (w_ext w ++ [c]) w);
  DeleteQdrantGeneration c := λ w, ([], w);
|}.

Definition janitor_ops : list (Z * ledger_op) :=
  [(1, OpActivate "a"); (2, OpActivate "b"); (3, OpStartDelete "a"); (4, OpCompleteDelete "a" 1);
   (5, OpActivate "a"); (6, OpStartDelete "a"); (7, OpCompleteDelete "a" 2);
   (8, OpStartDelete "b"); (9, OpCompleteDelete "b" 1)]%Z.

Definition janitor_world (gate : option Z) : World (list CleanupCandidate) :=
  let l := run_ops (migrated_ledger ∅ 0) janitor_ops in
  {| w_ledger := {| l_rows := l_rows l;
                    l_sys := {| y_state := SystemActive; y_disabled_at := gate;
                                y_evidence := (λ _, "drained") <$> gate;
                                y_last_error := None; y_updated_at := 0 |} |};
     w_now := 20; w_adv := []; w_lockobjs := ∅; w_next := 0; w_faults := []; w_ext := [] |}.

Lemma janitor_cleans_every_candidate_witness :
  (passes 2 logging_cleaner zero_candidate 2 (janitor_world (Some 10%Z))).1 = zero_candidate ∧
  w_ext (passes 2 logging_cleaner zero_candidate 2 (janitor_world (Some 10%Z))).2 =
    [{| cc_namespace := "a"; cc_generation := 1 |}; {| cc_namespace := "a"; cc_generation := 2 |};
     {| cc_namespace := "b"; cc_generation := 1 |}].
Proof.
  destruct (janitor_cleans_every_candidate logging_cleaner 2 (janitor_world (Some 10%Z)))
    as [H _]; [by intros c; split; split|reflexivity|lia|by eexists|].
  assert (passes 2 logging_cleaner zero_candidate 2 (janitor_world (Some 10%Z)) =
    (zero_candidate, (clean_each logging_cleaner
       (sorted_candidates (w_ledger (janitor_world (Some 10%Z)))) (janitor_world (Some 10%Z))).2)) as ->
    by exact H.
  split; [reflexivity|vm_compute; reflexivity].
Defined.

Lemma janitor_refuses_open_gate_witness :
  (RunOnce logging_cleaner zero_candidate 2 (janitor_world None)).1 =
    (0%Z, [ErrLegacyEnvelopesOpen], zero_candidate).
Proof.
  pose proof (janitor_refuses_open_gate logging_cleaner zero_candidate 2 (janitor_world None)
                eq_refl ltac:(lia)) as H.
  destruct (RunOnce logging_cleaner zero_candidate 2 (janitor_world None)) as [[[n e] cur] w'].
  destruct H as (-> & -> & _ & _ & He). by rewrite He.
Defined.
