(* ===== verification/Stores.v ===== *)
(** * The stores of a namespace and how they are cleaned

    The PostgreSQL tables, Redis keys and Qdrant collections a namespace owns,
    with the commands the admin plane and the janitor use on them;
    [cmd/cron/generation_cleaner.go], which implements the janitor's cleaner over
    them, and the clearing and verification of [internal/admin/service.go] with
    the transactions of [internal/admin/repository.go]. Redis glob matching is
    the server's: an interface with its documented behaviour on a literal prefix
    followed by a star. *)

From stdpp Require Import base tactics gmap sets strings list sorting.
From Stdlib Require Import ZArith Lia Ascii.
From S2P Require Import Prelude GoLib Keyset NsNames NsLedger NsService Janitor.

(** ** PostgreSQL *)

(** The namespace-scoped tables; a row is its namespace and its key. *)
Inductive pg_table :=
  | TEvents | TObjects | TCatalogItems | TBatchRunLogs | TBacklogSamples | TIdMappings | TNamespaceConfigs.

#[export] Instance pg_table_eq_dec : EqDecision pg_table.
Proof. solve_decision. Defined.

Definition pg_rows : Type := list (string * Z).
Definition pg_db : Type := pg_table → pg_rows.

(** The order in which both transactions delete. *)
Definition pg_tables : list pg_table :=
  [TEvents; TObjects; TCatalogItems; TBatchRunLogs; TBacklogSamples; TIdMappings; TNamespaceConfigs].

(** [st_compute]: the advisory locks of the two-key space the compute job uses,
    as (session, key, shared). *)
Record Stores := {
  st_pg : pg_db;
  st_redis : gset string;
  st_qdrant : gset string;
  st_compute : list (nat * (Z * Z) * bool);
}.

Definition set_st_pg (p : pg_db) (s : Stores) : Stores :=
  {| st_pg := p; st_redis := st_redis s; st_qdrant := st_qdrant s; st_compute := st_compute s |}.
Definition set_st_redis (r : gset string) (s : Stores) : Stores :=
  {| st_pg := st_pg s; st_redis := r; st_qdrant := st_qdrant s; st_compute := st_compute s |}.
Definition set_st_qdrant (q : gset string) (s : Stores) : Stores :=
  {| st_pg := st_pg s; st_redis := st_redis s; st_qdrant := q; st_compute := st_compute s |}.

Definition set_st_compute (l : list (nat * (Z * Z) * bool)) (s : Stores) : Stores :=
  {| st_pg := st_pg s; st_redis := st_redis s; st_qdrant := st_qdrant s; st_compute := l |}.

Abbreviation W := (World Stores).

Definition on_stores (f : Stores → Stores) : M W () := modify (λ w, set_ext (f (w_ext w)) w).

(** A call that fails with the driver's error or does [m]. *)
Definition call {A} (bad : A) (m : M W A) : M W A := let! f := fault in if f then ret bad else m.

(** One statement of a transaction after another; the first failure rolls back. *)
Fixpoint exec_deletes (tables : list pg_table) (del : pg_table → pg_rows → pg_rows) (db : pg_db)
    : M W (option pg_db) :=
  match tables with
  | [] => ret (Some db)
  | t :: rest =>
      call None (exec_deletes rest del (λ u, if decide (u = t) then del t (db t) else db u))
  end.

(** BEGIN, the deletes, COMMIT; the database as it was is returned for the
    affected-row counts. *)
Definition delete_tx (del : pg_table → pg_rows → pg_rows) : M W (option pg_db) :=
  call None (
    let! s := gets w_ext in
    let! r := exec_deletes pg_tables del (st_pg s) in
    match r with
    | None => ret None
    | Some db => call None (on_stores (set_st_pg db) ;;! ret (Some (st_pg s)))
    end).

Definition keep_others (ns : string) (rows : pg_rows) : pg_rows := filter (λ r, r.1 ≠ ns) rows.
Definition rows_of (ns : string) (rows : pg_rows) : pg_rows := filter (λ r, r.1 = ns) rows.

Definition ClearNamespaceData (ns : string) : M W (Z * error) :=
  let! r := delete_tx (λ _, keep_others ns) in
  match r with
  | None => ret (0%Z, [ErrDriver])
  | Some before => ret (Z.of_nat (length (rows_of ns (before TEvents))), [])
  end.

Definition TruncateAllNamespaceData : M W (Z * Z * error) :=
  let! r := delete_tx (λ _ _, []) in
  match r with
  | None => ret (0%Z, 0%Z, [ErrDriver])
  | Some before =>
      ret (Z.of_nat (length (before TEvents)), Z.of_nat (length (before TNamespaceConfigs)), [])
  end.

(** Whether the namespace has a configuration row. *)
Definition repo_GetConfig (ns : string) : M W (bool * error) :=
  call (false, [ErrDriver]) (
    let! s := gets w_ext in ret (negb (bool_decide (rows_of ns (st_pg s TNamespaceConfigs) = [])), [])).

(** ** Redis and Qdrant *)

(** A prefix without glob metacharacters. *)
Definition glob_meta (c : ascii) : bool :=
  bool_decide (c ∈ ["*"; "?"; "["; "]"; "\"; "^"]%char).
Definition glob_plain (p : string) : bool := str_all (λ c, negb (glob_meta c)) p.

Class RedisGlob := {
  glob : string → string → bool;
  glob_prefix : ∀ p k, glob_plain p = true → glob (p +:+ "*") k = String.prefix p k;
}.

Section commands.
Context `{RedisGlob}.

Definition matching (pattern : string) (keys : gset string) : list string :=
  filter (λ k, glob pattern k = true) (elements keys).

(** A scan that is read to its end: any step of the iterator may fail. *)
Fixpoint scan_collect (left acc : list string) : M W (list string * error) :=
  match left with
  | [] => call (acc, [ErrDriver]) (ret (acc, []))
  | k :: rest => call (acc, [ErrDriver]) (scan_collect rest (acc ++ [k]))
  end.

Definition redis_scan (pattern : string) : M W (list string * error) :=
  let! s := gets w_ext in scan_collect (matching pattern (st_redis s)) [].

Definition redis_Del (keys : list string) : M W error :=
  call [ErrDriver] (on_stores (λ s, set_st_redis (st_redis s ∖ list_to_set keys) s) ;;! ret []).

Definition redis_Exists (keys : list string) : M W (Z * error) :=
  call (0%Z, [ErrDriver]) (
    let! s := gets w_ext in ret (Z.of_nat (length (filter (λ k, k ∈ st_redis s) keys)), [])).

Definition qdrant_CollectionExists (c : string) : M W (bool * error) :=
  call (false, [ErrDriver]) (let! s := gets w_ext in ret (bool_decide (c ∈ st_qdrant s), [])).

Definition qdrant_DeleteCollection (c : string) : M W error :=
  call [ErrDriver] (on_stores (λ s, set_st_qdrant (st_qdrant s ∖ {[c]}) s) ;;! ret []).

Definition qdrant_ListCollections : M W (list string * error) :=
  call ([], [ErrDriver]) (let! s := gets w_ext in ret (elements (st_qdrant s), [])).

Definition vector_kinds : list PhysicalKind := [KindSubjects; KindObjects; KindSubjectsDense; KindObjectsDense].

Definition ErrPhysicalName : string := "nslifecycle: physical name".

(** [PhysicalName] where the caller returns its error, and [MustPhysicalName]
    which panics. *)
Definition try_name (bad : string) (kind : PhysicalKind) (ns : string) (g : Z) (k : string → M W error) : M W error :=
  match PhysicalName kind ns g with
  | inl name => k name
  | inr _ => ret [bad]
  end.
Abbreviation or_error := (try_name ErrPhysicalName).
Abbreviation or_panic := (try_name ErrPanic).

(** Drop the collections of a generation that still exist. *)
Fixpoint drop_kinds (bad : string) (kinds : list PhysicalKind) (ns : string) (g : Z) : M W error :=
  match kinds with
  | [] => ret []
  | kind :: rest =>
      try_name bad kind ns g (λ collection,
        let! ' (exists_, err) := qdrant_CollectionExists collection in
        if negb (nil_err err) then ret err
        else if negb exists_ then drop_kinds bad rest ns g
        else
          let! err := qdrant_DeleteCollection collection in
          if negb (nil_err err) then ret err else drop_kinds bad rest ns g)
  end.

(** ** The cron cleaner *)

(** [ScanKeys] returns no keys on an error; [DeleteKeys] skips an empty list. *)
Definition ScanKeys (pattern : string) : M W (list string * error) :=
  let! ' (keys, err) := redis_scan pattern in
  if negb (nil_err err) then ret ([], err) else ret (keys, []).

Definition DeleteKeys (keys : list string) : M W error :=
  if bool_decide (keys = []) then ret [] else redis_Del keys.

(** [redis] and [qdrant] tell whether the cleaner has the client. *)
Definition cron_DeleteRedisGeneration (redis : bool) (c : CleanupCandidate) : M W error :=
  if negb redis then ret []
  else
    or_error KindTrending (cc_namespace c) (cc_generation c) (λ trending,
    or_error KindEmbedStream (cc_namespace c) (cc_generation c) (λ stream,
    or_error KindRecommendationCache (cc_namespace c) (cc_generation c) (λ cachePrefix,
      let! ' (cached, err) := ScanKeys (cachePrefix +:+ ":*") in
      if negb (nil_err err) then ret err
      else DeleteKeys ([trending; stream] ++ cached)))).

Definition cron_DeleteQdrantGeneration (qdrant : bool) (c : CleanupCandidate) : M W error :=
  if negb qdrant then ret []
  else drop_kinds ErrPhysicalName vector_kinds (cc_namespace c) (cc_generation c).

Definition store_cleaner (redis qdrant : bool) : GenerationCleaner (X := Stores) := {|
  DeleteRedisGeneration := cron_DeleteRedisGeneration redis;
  DeleteQdrantGeneration := cron_DeleteQdrantGeneration qdrant;
|}.

(** ** The admin plane *)

Definition clearNamespaceRedisGeneration (ns : string) (g : Z) : M W error :=
  or_panic KindTrending ns g (λ trending,
  or_panic KindEmbedStream ns g (λ stream,
  or_panic KindRecommendationCache ns g (λ cachePrefix,
    let! ' (cached, err) := redis_scan (cachePrefix +:+ ":*") in
    if negb (nil_err err) then ret err
    else redis_Del ([trending; stream] ++ cached)))).

Definition clearNamespaceQdrantGeneration (ns : string) (g : Z) : M W error :=
  drop_kinds ErrPanic vector_kinds ns g.

Definition clearNamespaceEverywhereGeneration (redis qdrant : bool) (ns : string) (g : Z) : M W (Z * error) :=
  let! ' (deleted, err) := ClearNamespaceData ns in
  if negb (nil_err err) then ret (0%Z, err)
  else
    let! err := (if redis then clearNamespaceRedisGeneration ns g else ret []) in
    if negb (nil_err err) then ret (0%Z, err)
    else
      let! err := (if qdrant then clearNamespaceQdrantGeneration ns g else ret []) in
      if negb (nil_err err) then ret (0%Z, err) else ret (deleted, []).

Definition ErrConfigRemains : string := "namespace config remains".
Definition ErrKeysRemain : string := "redis keys remain".
Definition ErrCollectionRemains : string := "qdrant collection remains".

Fixpoint verify_kinds (kinds : list PhysicalKind) (ns : string) (g : Z) : M W error :=
  match kinds with
  | [] => ret []
  | kind :: rest =>
      or_panic kind ns g (λ collection,
        let! ' (exists_, err) := qdrant_CollectionExists collection in
        if negb (nil_err err) then ret err
        else if exists_ : bool then ret [ErrCollectionRemains]
        else verify_kinds rest ns g)
  end.

(** One step of the iterator: whether there is a key. *)
Definition scan_any (pattern : string) : M W (bool * error) :=
  call (false, [ErrDriver]) (
    let! s := gets w_ext in ret (negb (bool_decide (matching pattern (st_redis s) = [])), [])).

Definition verify_redis (ns : string) (g : Z) : M W error :=
  or_panic KindTrending ns g (λ trending,
  or_panic KindEmbedStream ns g (λ stream,
    let! ' (remaining, err) := redis_Exists [trending; stream] in
    if negb (nil_err err) then ret err
    else
      or_panic KindRecommendationCache ns g (λ cachePrefix,
        let! ' (cacheFound, err) := scan_any (cachePrefix +:+ ":*") in
        if negb (nil_err err) then ret err
        else if negb (remaining =? 0)%Z || cacheFound then ret [ErrKeysRemain] else ret []))).

Definition verifyNamespaceAbsent (redis qdrant : bool) (ns : string) (g : Z) : M W error :=
  let! ' (cfg, err) := repo_GetConfig ns in
  if negb (nil_err err) then ret err
  else if cfg : bool then ret [ErrConfigRemains]
  else
    let! err := (if redis then verify_redis ns g else ret []) in
    if negb (nil_err err) then ret err
    else if qdrant then verify_kinds vector_kinds ns g else ret [].

(** Keys are deleted in batches of 500 while the scan goes on. *)
Definition flush_size : nat := 500.

Definition flush_batch (batch : list string) : M W error :=
  if bool_decide (batch = []) then ret [] else redis_Del batch.

Fixpoint flush_scan (left batch : list string) : M W error :=
  match left with
  | [] => call [ErrDriver] (flush_batch batch)
  | k :: rest =>
      call [ErrDriver] (
        let batch := batch ++ [k] in
        if (flush_size <=? length batch)%nat then
          let! err := flush_batch batch in
          if negb (nil_err err) then ret err else flush_scan rest []
        else flush_scan rest batch)
  end.

Definition redis_patterns : list string := ["trending:*"; "catalog:embed:*"; "rec:*"].

Fixpoint flush_patterns (patterns : list string) : M W error :=
  match patterns with
  | [] => ret []
  | pattern :: rest =>
      let! s := gets w_ext in
      let! err := flush_scan (matching pattern (st_redis s)) [] in
      if negb (nil_err err) then ret err else flush_patterns rest
  end.

Definition flushAllNamespaceRedis : M W error := flush_patterns redis_patterns.

Definition qdrantCollectionSuffixes : list string := ["_subjects_dense"; "_objects_dense"; "_subjects"; "_objects"].

(** [strings.HasSuffix]. *)
Fixpoint has_suffix (suffix s : string) : bool :=
  bool_decide (s = suffix) || match s with EmptyString => false | String _ s' => has_suffix suffix s' end.

Definition ours (collection : string) : bool := existsb (λ suffix, has_suffix suffix collection) qdrantCollectionSuffixes.

Fixpoint flush_collections (names : list string) : M W error :=
  match names with
  | [] => ret []
  | name :: rest =>
      if ours name then
        let! err := qdrant_DeleteCollection name in
        if negb (nil_err err) then ret err else flush_collections rest
      else flush_collections rest
  end.

Definition flushAllNamespaceQdrant : M W error :=
  let! ' (collections, err) := qdrant_ListCollections in
  if negb (nil_err err) then ret err else flush_collections collections.
End commands.

(** ** Ownership

    The keys and collections of one generation of a namespace. *)

Definition redis_owned (ns : string) (g : Z) (k : string) : bool :=
  match PhysicalName KindTrending ns g, PhysicalName KindEmbedStream ns g,
        PhysicalName KindRecommendationCache ns g with
  | inl trending, inl stream, inl cachePrefix =>
      bool_decide (k = trending) || bool_decide (k = stream) || String.prefix (cachePrefix +:+ ":") k
  | _, _, _ => false
  end.

Definition kind_owned (ns : string) (g : Z) (c : string) (kind : PhysicalKind) : bool :=
  match PhysicalName kind ns g with inl n => bool_decide (n = c) | inr _ => false end.

Definition qdrant_owned (ns : string) (g : Z) (c : string) : bool := existsb (kind_owned ns g c) vector_kinds.

(** [w'] is [w] less some of the keys [K] and collections [C]. *)
Record within (K C : string → bool) (w w' : W) : Prop := {
  wi_ledger : w_ledger w' = w_ledger w;
  wi_now : w_now w' = w_now w;
  wi_adv : w_adv w' = w_adv w;
  wi_lockobjs : w_lockobjs w' = w_lockobjs w;
  wi_calm : w_faults w = [] → w_faults w' = [];
  wi_pg : st_pg (w_ext w') = st_pg (w_ext w);
  wi_redis : st_redis (w_ext w') ⊆ st_redis (w_ext w);
  wi_redis_kept : ∀ k, k ∈ st_redis (w_ext w) → K k = false → k ∈ st_redis (w_ext w');
  wi_qdrant : st_qdrant (w_ext w') ⊆ st_qdrant (w_ext w);
  wi_qdrant_kept : ∀ c, c ∈ st_qdrant (w_ext w) → C c = false → c ∈ st_qdrant (w_ext w');
  wi_compute : st_compute (w_ext w') = st_compute (w_ext w);
}.

Definition none (_ : string) : bool := false.

Definition no_keys (K : string → bool) (w : W) : Prop := ∀ k, k ∈ st_redis (w_ext w) → K k = false.
Definition no_collections (C : string → bool) (w : W) : Prop := ∀ c, c ∈ st_qdrant (w_ext w) → C c = false.

#[export] Instance within_preorder K C : PreOrder (within K C).
Proof.
  split; [by intros w; split|]. intros w1 w2 w3 [] []. split; try congruence; try set_solver; auto.
Qed.

Lemma within_mono K C K' C' w w' :
  (∀ k, K' k = false → K k = false) → (∀ c, C' c = false → C c = false) →
  within K C w w' → within K' C' w w'.
Proof. intros HK HC []. split; auto. Qed.

Lemma no_keys_within K K' C w w' : no_keys K w → within K' C w w' → no_keys K w'.
Proof. intros Hn [] k Hk. apply Hn. set_solver. Qed.

Lemma no_collections_within K C C' w w' : no_collections C w → within K C' w w' → no_collections C w'.
Proof. intros Hn [] c Hc. apply Hn. set_solver. Qed.

Lemma call_spec {A} (bad : A) (m : M W A) w :
  ∃ w', same_but_faults w w' ∧ (w_faults w = [] → w' = w) ∧
    (w_faults w ≠ [] ∧ call bad m w = (bad, w') ∨ call bad m w = m w').
Proof.
  unfold call, bind. pose proof (fault_frame w) as Hc. destruct (decide (w_faults w = [])) as [Hf|Hf].
  - rewrite fault_nil in * by done. go. exists w. auto.
  - exists (fault w).2. split; [done|]. split; [done|]. destruct (fault w) as [[] w']; go; auto.
Qed.

Lemma within_core K C w w' : same_but_faults w w' → (w_faults w = [] → w' = w) → within K C w w'.
Proof. intros Hs Hf. pose proof (sbf_ext _ _ Hs) as Hx. split; rewrite ?Hx; auto; [apply Hs..|].
  intros H0. by rewrite Hf. Qed.

Section facts.
Context `{RedisGlob}.

Lemma string_prefix_star c : c +:+ ":*" = (c +:+ ":") +:+ "*".
Proof. by rewrite <- string_app_assoc. Qed.

Lemma cache_prefix_plain ns g c :
  PhysicalName KindRecommendationCache ns g = inl c → glob_plain (c +:+ ":") = true.
Proof.
  rewrite PhysicalName_cases. destruct (decide (ns = "")); [done|]. destruct (decide (g < 1)%Z); [done|]. simpl.
  intros [= <-]. unfold glob_plain. rewrite !str_all_app. apply andb_true_iff. split; [|done].
  apply andb_true_iff. split; [done|]. by apply b64_encode_all.
Qed.

Lemma matching_cache ns g c keys k :
  PhysicalName KindRecommendationCache ns g = inl c →
  k ∈ matching (c +:+ ":*") keys ↔ k ∈ keys ∧ String.prefix (c +:+ ":") k = true.
Proof.
  intros Hc. unfold matching. rewrite list_elem_of_filter, elem_of_elements, string_prefix_star.
  rewrite glob_prefix by (by eapply cache_prefix_plain). tauto.
Qed.

Lemma scan_collect_spec left acc w :
  ∃ w', same_but_faults w w' ∧ (w_faults w = [] → w' = w) ∧
    ((∃ acc', w_faults w ≠ [] ∧ scan_collect left acc w = ((acc', [ErrDriver]), w')) ∨
     scan_collect left acc w = ((acc ++ left, []), w')).
Proof.
  revert acc w. induction left as [|k left IH]; intros acc w; simpl.
  - destruct (call_spec (acc, [ErrDriver]) (ret (acc, [])) w) as (w' & Hs & Hf & [[? ->]| ->]); exists w';
      rewrite ?app_nil_r; eauto 6.
  - destruct (call_spec (acc, [ErrDriver]) (scan_collect left (acc ++ [k])) w) as (w1 & Hs & Hf & [[? ->]| ->]);
      [exists w1; eauto 6|].
    destruct (IH (acc ++ [k]) w1) as (w2 & Hs2 & Hf2 & Hr). exists w2. split; [by etransitivity|]. split.
    + intros H0. rewrite <- Hf by done. apply Hf2. by rewrite Hf.
    + destruct Hr as [(acc' & Hne & ->)| ->].
      * left. exists acc'. split; [|done]. intros H0. apply Hne. by rewrite Hf.
      * right. by rewrite <- app_assoc.
Qed.
Lemma redis_scan_spec pattern w :
  ∃ w', same_but_faults w w' ∧ (w_faults w = [] → w' = w) ∧
    ((∃ acc, w_faults w ≠ [] ∧ redis_scan pattern w = ((acc, [ErrDriver]), w')) ∨
     redis_scan pattern w = ((matching pattern (st_redis (w_ext w)), []), w')).
Proof. unfold redis_scan, bind, gets. go. apply scan_collect_spec. Qed.

(** A deletion of keys, all of which satisfy [K]. *)
Lemma redis_Del_spec K keys w :
  (∀ k, k ∈ keys → K k = true) →
  let '(e, w') := redis_Del keys w in
  within K none w w' ∧ (w_faults w = [] → e = []) ∧
  (e = [] → st_redis (w_ext w') = st_redis (w_ext w) ∖ list_to_set keys).
Proof.
  intros HK. unfold redis_Del.
  match goal with |- context [call ?b ?m w] => destruct (call_spec b m w) as (w1 & Hs & Hf & [[Hne ->]| ->]) end.
  { split; [by apply within_core|]. done. }
  pose proof (sbf_ext _ _ Hs) as Hx. unfold on_stores, modify, bind. go. cbn. rewrite Hx.
  split; [|done]. split; cbn; rewrite ?Hx; try done; try apply Hs.
  - intros H0. by rewrite Hf.
  - set_solver.
  - intros k Hk HKk. apply elem_of_difference. split; [done|]. rewrite elem_of_list_to_set.
    intros Hin%HK. congruence.
Qed.

Lemma qdrant_exists_spec c w :
  ∃ w', same_but_faults w w' ∧ (w_faults w = [] → w' = w) ∧
    (w_faults w ≠ [] ∧ qdrant_CollectionExists c w = ((false, [ErrDriver]), w') ∨
     qdrant_CollectionExists c w = ((bool_decide (c ∈ st_qdrant (w_ext w)), []), w')).
Proof.
  unfold qdrant_CollectionExists.
  match goal with |- context [call ?b ?m w] => destruct (call_spec b m w) as (w1 & Hs & Hf & [[Hne ->]| ->]) end;
    exists w1; (split; [done|]); (split; [done|]); [by left|right].
  unfold bind, gets. go. by rewrite (sbf_ext _ _ Hs).
Qed.

Lemma qdrant_Delete_spec C c w :
  C c = true →
  let '(e, w') := qdrant_DeleteCollection c w in
  within none C w w' ∧ (w_faults w = [] → e = []) ∧
  (e = [] → st_qdrant (w_ext w') = st_qdrant (w_ext w) ∖ {[c]}).
Proof.
  intros HC. unfold qdrant_DeleteCollection.
  match goal with |- context [call ?b ?m w] => destruct (call_spec b m w) as (w1 & Hs & Hf & [[Hne ->]| ->]) end.
  { split; [by apply within_core|]. done. }
  pose proof (sbf_ext _ _ Hs) as Hx. unfold on_stores, modify, bind. go. cbn. rewrite Hx.
  split; [|done]. split; cbn; rewrite ?Hx; try done; try apply Hs.
  - intros H0. by rewrite Hf.
  - set_solver.
  - intros d Hd HCd. apply elem_of_difference. split; [done|]. rewrite elem_of_singleton. intros ->. congruence.
Qed.

(** A named generation has names of every kind. *)
Lemma name_exists kind ns g :
  ns ≠ "" → (1 <= g)%Z → is_Some (kind_store kind) → ∃ n, PhysicalName kind ns g = inl n.
Proof.
  intros Hns Hg [st Hk]. rewrite PhysicalName_cases, Hk. rewrite !decide_False by (done || lia).
  destruct st; eauto.
Qed.

Lemma redis_names ns g :
  ns ≠ "" → (1 <= g)%Z → ∃ t s c, PhysicalName KindTrending ns g = inl t ∧
    PhysicalName KindEmbedStream ns g = inl s ∧ PhysicalName KindRecommendationCache ns g = inl c.
Proof.
  intros Hns Hg. destruct (name_exists KindTrending ns g) as [t Ht]; [done|done|by eexists|].
  destruct (name_exists KindEmbedStream ns g) as [s Hs]; [done|done|by eexists|].
  destruct (name_exists KindRecommendationCache ns g) as [c Hc]; [done|done|by eexists|].
  by exists t, s, c.
Qed.

(** What the deletion of a generation's keys leaves. *)
Definition cleans (m : M W error) (K C : string → bool) (post : W → Prop) : Prop :=
  ∀ w, let '(e, w') := m w in
  within K C w w' ∧ (e = [] → post w') ∧ (w_faults w = [] → e = []).

Lemma wipe_keys_spec ns g t s c (scan : M W (list string * error)) (del : list string → M W error) :
  PhysicalName KindTrending ns g = inl t → PhysicalName KindEmbedStream ns g = inl s →
  PhysicalName KindRecommendationCache ns g = inl c →
  (∀ w, ∃ w' acc, same_but_faults w w' ∧ (w_faults w = [] → w' = w) ∧
     (w_faults w ≠ [] ∧ scan w = ((acc, [ErrDriver]), w') ∨
      scan w = ((matching (c +:+ ":*") (st_redis (w_ext w)), []), w'))) →
  (∀ keys w, keys ≠ [] → del keys w = redis_Del keys w) →
  cleans (let! ' (cached, err) := scan in
          if negb (nil_err err) then ret err else del ([t; s] ++ cached))
    (redis_owned ns g) none (no_keys (redis_owned ns g)).
Proof.
  intros Ht Hs Hc Hscan Hdel w. unfold bind.
  destruct (Hscan w) as (w1 & acc & Hcs & Hf & [[Hne ->]| ->]); go.
  { split; [by apply within_core|]. done. }
  rewrite Hdel by done.
  assert (∀ k, redis_owned ns g k = bool_decide (k = t) || bool_decide (k = s) || String.prefix (c +:+ ":") k) as Ho.
  { intros k. unfold redis_owned. by rewrite Ht, Hs, Hc. }
  pose proof (redis_Del_spec (redis_owned ns g) ([t; s] ++ matching (c +:+ ":*") (st_redis (w_ext w))) w1) as HD.
  destruct (redis_Del _ w1) as [e w2]. destruct HD as (Hw & Hok & Hpost).
  { intros k Hk. rewrite Ho. apply elem_of_app in Hk as [Hk|Hk].
    - apply elem_of_cons in Hk as [->|Hk]; [by rewrite bool_decide_true|].
      apply list_elem_of_singleton in Hk as ->. rewrite (bool_decide_true (s = s)) by done. by rewrite orb_true_r.
    - apply (matching_cache ns g) in Hk as [_ ->]; [|done]. apply orb_true_r. }
  split; [etransitivity; [by apply within_core|done]|]. split.
  - intros He k. rewrite (Hpost He), (sbf_ext _ _ Hcs), elem_of_difference, elem_of_list_to_set, elem_of_app.
    rewrite (matching_cache ns g) by done. intros [Hk Hn]. rewrite Ho.
    destruct (String.prefix (c +:+ ":") k) eqn:E; [exfalso; apply Hn; by right|].
    rewrite !bool_decide_eq_false_2; [done|set_solver..].
  - intros H0. apply Hok. by rewrite Hf.
Qed.

Lemma cron_redis_cleans c :
  cc_namespace c ≠ "" → (1 <= cc_generation c)%Z →
  cleans (cron_DeleteRedisGeneration true c) (redis_owned (cc_namespace c) (cc_generation c)) none
    (no_keys (redis_owned (cc_namespace c) (cc_generation c))).
Proof.
  intros Hns Hg. destruct (redis_names _ _ Hns Hg) as (t & s & p & Ht & Hs & Hp).
  unfold cron_DeleteRedisGeneration, try_name. cbn [negb]. rewrite Ht, Hs, Hp.
  apply (wipe_keys_spec _ _ t s p (ScanKeys (p +:+ ":*")) DeleteKeys Ht Hs Hp).
  - intros w. unfold ScanKeys, bind. destruct (redis_scan_spec (p +:+ ":*") w) as (w' & Hc & Hf & [(acc & Hne & ->)| ->]);
      go; exists w', []; auto.
  - intros keys w Hk. unfold DeleteKeys. by rewrite bool_decide_eq_false_2.
Qed.

Lemma admin_redis_cleans ns g :
  ns ≠ "" → (1 <= g)%Z →
  cleans (clearNamespaceRedisGeneration ns g) (redis_owned ns g) none (no_keys (redis_owned ns g)).
Proof.
  intros Hns Hg. destruct (redis_names _ _ Hns Hg) as (t & s & p & Ht & Hs & Hp).
  unfold clearNamespaceRedisGeneration, try_name. rewrite Ht, Hs, Hp.
  apply (wipe_keys_spec _ _ t s p (redis_scan (p +:+ ":*")) redis_Del Ht Hs Hp); [|done].
  intros w. destruct (redis_scan_spec (p +:+ ":*") w) as (w' & Hc & Hf & [(acc & Hne & ->)| ->]); [exists w', acc|exists w', []];
    auto.
Qed.

Lemma vector_kind_store kind : kind ∈ vector_kinds → is_Some (kind_store kind).
Proof.
  intros Hin. by repeat (apply elem_of_cons in Hin as [->|Hin]; [by eexists|]); apply elem_of_nil in Hin.
Qed.

(** Dropping the collections of some kinds. *)
Lemma drop_kinds_cleans bad kinds ns g :
  ns ≠ "" → (1 <= g)%Z → (∀ k, k ∈ kinds → k ∈ vector_kinds) →
  cleans (drop_kinds bad kinds ns g) none (qdrant_owned ns g)
    (no_collections (λ c, existsb (kind_owned ns g c) kinds)).
Proof.
  intros Hns Hg. induction kinds as [|kind kinds IH]; intros Hk w; simpl.
  { split; [done|]. split; [|done]. by intros _ c. }
  destruct (name_exists kind ns g) as [n Hn]; [done|done| |].
  { apply vector_kind_store, Hk. set_solver. }
  assert (qdrant_owned ns g n = true) as Hown.
  { unfold qdrant_owned. apply existsb_exists. exists kind. split; [apply list_elem_of_In, Hk; set_solver|].
    unfold kind_owned. rewrite Hn. by rewrite bool_decide_true. }
  unfold try_name. rewrite Hn. unfold bind.
  destruct (qdrant_exists_spec n w) as (w1 & Hs & Hf & [[Hne ->]| ->]); go.
  { split; [by apply within_core|]. done. }
  pose proof (within_core none (qdrant_owned ns g) _ _ Hs Hf) as Hw1.
  specialize (IH ltac:(intros k' Hk'; apply Hk; set_solver)).
  assert (∀ c, kind_owned ns g c kind = bool_decide (n = c)) as Hko by (intros c; unfold kind_owned; by rewrite Hn).
  destruct (bool_decide (n ∈ st_qdrant (w_ext w))) eqn:Hex; go.
  - pose proof (qdrant_Delete_spec (qdrant_owned ns g) n w1 Hown) as HD.
    destruct (qdrant_DeleteCollection n w1) as [e w2]. destruct HD as (Hw2 & Hok & Hpost). destruct e as [|x e]; go.
    2: { split; [by etransitivity|]. split; [done|]. intros H0. rewrite Hf in * by done. by apply Hok. }
    specialize (IH w2). destruct (drop_kinds bad kinds ns g w2) as [e w3]. destruct IH as (Hw3 & Hp3 & Hok3).
    split; [etransitivity; [exact Hw1|]; by etransitivity|]. split.
    + intros He c Hc. rewrite Hko, (Hp3 He c Hc), orb_false_r. apply bool_decide_eq_false. intros <-.
      apply (wi_qdrant _ _ _ _ Hw3) in Hc. rewrite (Hpost eq_refl) in Hc. set_solver.
    + intros H0. apply Hok3. apply (wi_calm _ _ _ _ Hw2). by rewrite Hf.
  - specialize (IH w1). destruct (drop_kinds bad kinds ns g w1) as [e w3]. destruct IH as (Hw3 & Hp3 & Hok3).
    split; [by etransitivity|]. split.
    + intros He c Hc. rewrite Hko, (Hp3 He c Hc), orb_false_r. apply bool_decide_eq_false. intros <-.
      apply (wi_qdrant _ _ _ _ Hw3) in Hc. rewrite (sbf_ext _ _ Hs) in Hc. by apply bool_decide_eq_false in Hex.
    + intros H0. apply Hok3. by rewrite Hf.
Qed.
Definition named (c : CleanupCandidate) : Prop := cc_namespace c ≠ "" ∧ (1 <= cc_generation c)%Z.

Lemma cron_qdrant_cleans c :
  named c →
  cleans (cron_DeleteQdrantGeneration true c) none (qdrant_owned (cc_namespace c) (cc_generation c))
    (no_collections (qdrant_owned (cc_namespace c) (cc_generation c))).
Proof. intros [Hns Hg]. by apply drop_kinds_cleans. Qed.

Lemma cleans_quiet m K C post : cleans m K C post → quiet m.
Proof.
  intros Hm. split; intros w; specialize (Hm w); destruct (m w) as [e w']; destruct Hm as ([] & _ & ?); auto.
Qed.

Lemma store_cleaner_reliable cs : (∀ c, c ∈ cs → named c) → reliable (store_cleaner true true) cs.
Proof.
  intros Hcs c Hc. apply Hcs in Hc. split; eapply cleans_quiet.
  - by apply cron_redis_cleans; destruct Hc.
  - by apply cron_qdrant_cleans.
Qed.

Definition owned_by (owned : string → Z → string → bool) (cs : list CleanupCandidate) (k : string) : bool :=
  existsb (λ c, owned (cc_namespace c) (cc_generation c) k) cs.

Lemma clean_each_stores cs w :
  (∀ c, c ∈ cs → named c) → w_faults w = [] →
  let w' := (clean_each (store_cleaner true true) cs w).2 in
  within (owned_by redis_owned cs) (owned_by qdrant_owned cs) w w' ∧
  no_keys (owned_by redis_owned cs) w' ∧ no_collections (owned_by qdrant_owned cs) w'.
Proof.
  revert w. induction cs as [|c cs IH]; intros w Hcs Hf; simpl.
  { split; [done|]. split; by intros ? ?. }
  assert (named c) as Hc by (apply Hcs; set_solver). unfold bind.
  pose proof (cron_redis_cleans c (proj1 Hc) (proj2 Hc) w) as H1.
  destruct (cron_DeleteRedisGeneration true c w) as [e1 w1]. destruct H1 as (Hw1 & Hp1 & Ho1). go.
  pose proof (cron_qdrant_cleans c Hc w1) as H2.
  destruct (cron_DeleteQdrantGeneration true c w1) as [e2 w2]. destruct H2 as (Hw2 & Hp2 & Ho2). go.
  pose proof (wi_calm _ _ _ _ Hw1 Hf) as Hf1. pose proof (wi_calm _ _ _ _ Hw2 Hf1) as Hf2.
  specialize (IH w2 ltac:(intros; apply Hcs; set_solver) Hf2).
  destruct (clean_each (store_cleaner true true) cs w2) as [u w3]. cbn [snd] in *. destruct IH as (Hw3 & Hk3 & Hc3).
  pose proof (no_keys_within _ _ _ _ _ (no_keys_within _ _ _ _ _ (Hp1 (Ho1 Hf)) Hw2) Hw3) as Hk.
  pose proof (no_collections_within _ _ _ _ _ (Hp2 (Ho2 Hf1)) Hw3) as Hq.
  split_and!.
  - etransitivity; [eapply within_mono; [..|exact Hw1]; [|done]|
      etransitivity; [eapply within_mono; [..|exact Hw2]; [done|]|eapply within_mono; [..|exact Hw3]]].
    all: unfold owned_by; simpl; intros x [? ?]%orb_false_iff; done.
  - intros k Hin. apply orb_false_iff. split; [by apply Hk|by apply Hk3].
  - intros k Hin. apply orb_false_iff. split; [by apply Hq|by apply Hc3].
Qed.

(** C39: The janitor reclaims the stores of superseded generations. With the
    legacy gate closed and nothing failing, the janitor wired to the stores
    leaves, within [candidates / limit + 1] passes, no Redis key and no Qdrant
    collection that carries a physical name of a superseded generation of the
    ledger, and every other key and collection, and every table row, is still
    there. What goes is decided by the name alone: where the physical names of
    two namespaces coincide ([PhysicalName_collides]), those of an active
    namespace go too. *)
Theorem janitor_reclaims_stores `{Collation} limit w :
  w_faults w = [] → (0 < limit)%Z → is_Some (y_disabled_at (l_sys (w_ledger w))) →
  l_rows (w_ledger w) !! "" = None →
  let all := sorted_candidates (w_ledger w) in
  let w' := (passes (length all / Z.to_nat limit + 1) (store_cleaner true true) zero_candidate limit w).2 in
  within (owned_by redis_owned all) (owned_by qdrant_owned all) w w' ∧
  no_keys (owned_by redis_owned all) w' ∧ no_collections (owned_by qdrant_owned all) w'.
Proof.
  intros Hf Hlim Hgate Hempty all w'.
  assert (∀ c, c ∈ all → named c) as Hall.
  { intros c. unfold all, sorted_candidates. rewrite merge_sort_Permutation, elem_of_all_candidates.
    intros (r & Hr & Hg & _). split; [|done]. intros Hns. rewrite Hns in Hr. congruence. }
  subst w'. rewrite (passes_drain (store_cleaner true true) limit _ zero_candidate all);
    [|by apply store_cleaner_reliable|done|done|done|apply resumes_zero|done].
  by apply clean_each_stores.
Qed.
End facts.

(** ** The transactions *)

(** [w'] is [w] with every table changed by [f]. *)
Record tables_moved (f : pg_rows → pg_rows) (w w' : W) : Prop := {
  tm_ledger : w_ledger w' = w_ledger w;
  tm_now : w_now w' = w_now w;
  tm_adv : w_adv w' = w_adv w;
  tm_lockobjs : w_lockobjs w' = w_lockobjs w;
  tm_calm : w_faults w = [] → w_faults w' = [];
  tm_pg : ∀ t, st_pg (w_ext w') t = f (st_pg (w_ext w) t);
  tm_redis : st_redis (w_ext w') = st_redis (w_ext w);
  tm_qdrant : st_qdrant (w_ext w') = st_qdrant (w_ext w);
  tm_compute : st_compute (w_ext w') = st_compute (w_ext w);
}.

Lemma exec_deletes_spec tables f db w :
  NoDup tables →
  ∃ w', same_but_faults w w' ∧ (w_faults w = [] → w' = w) ∧
    (w_faults w ≠ [] ∧ exec_deletes tables (λ _, f) db w = (None, w') ∨
     ∃ db', exec_deletes tables (λ _, f) db w = (Some db', w') ∧
       ∀ t, db' t = if decide (t ∈ tables) then f (db t) else db t).
Proof.
  revert db w. induction tables as [|t tables IH]; intros db w Hnd; simpl.
  { exists w. split; [done|]. split; [done|]. right. by exists db. }
  apply NoDup_cons in Hnd as [Ht Hnd].
  match goal with |- context [call ?b ?m w] => destruct (call_spec b m w) as (w1 & Hs & Hf & [[Hne ->]| ->]) end.
  { exists w1. auto. }
  destruct (IH (λ u, if decide (u = t) then f (db t) else db u) w1 Hnd) as (w2 & Hs2 & Hf2 & Hr).
  exists w2. split; [by etransitivity|]. split; [intros H0; rewrite Hf2 by (by rewrite Hf); auto|].
  destruct Hr as [[Hne ->]|(db' & -> & Hdb)].
  - left. split; [|done]. intros H0. apply Hne. by rewrite Hf.
  - right. exists db'. split; [done|]. intros u. rewrite Hdb. destruct (decide (u = t)) as [->|Hut].
    + rewrite decide_False by done. rewrite decide_True by set_solver. done.
    + destruct (decide (u ∈ tables)); [rewrite decide_True by set_solver|rewrite decide_False by set_solver]; done.
Qed.

Lemma pg_tables_all t : t ∈ pg_tables.
Proof. destruct t; unfold pg_tables; set_solver. Qed.

Lemma pg_tables_NoDup : NoDup pg_tables.
Proof. apply (bool_decide_unpack _). by vm_compute. Qed.

(** All seven deletes happen, or none. *)
Lemma delete_tx_spec f w :
  ∃ r w', delete_tx (λ _, f) w = (r, w') ∧
    (r = None ∧ w_faults w ≠ [] ∧ same_but_faults w w' ∨
     r = Some (st_pg (w_ext w)) ∧ tables_moved f w w').
Proof.
  unfold delete_tx.
  match goal with |- context [call ?b ?m w] => destruct (call_spec b m w) as (w1 & Hs & Hf & [[Hne ->]| ->]) end.
  { exists None, w1. auto. }
  unfold bind, gets. go. rewrite (sbf_ext _ _ Hs).
  destruct (exec_deletes_spec pg_tables f (st_pg (w_ext w)) w1 pg_tables_NoDup) as (w2 & Hs2 & Hf2 & [[Hne ->]|(db & -> & Hdb)]); go.
  { exists None, w2. split; [done|]. left. split; [done|]. split; [intros H0; apply Hne; by rewrite Hf|by etransitivity]. }
  match goal with |- context [call ?b ?m w2] => destruct (call_spec b m w2) as (w3 & Hs3 & Hf3 & [[Hne ->]| ->]) end.
  all: assert (same_but_faults w w3) as Hs' by (etransitivity; [exact Hs|]; by etransitivity).
  { exists None, w3. split; [done|]. left. split; [done|]. split; [|done].
    intros H0. apply Hne. pose proof (Hf H0) as ->. by rewrite (Hf2 H0). }
  eexists _, _. split; [done|]. right. split; [done|].
  split; cbn; try apply Hs'.
  - intros H0. pose proof (Hf H0) as ->. pose proof (Hf2 H0) as ->. by rewrite (Hf3 H0).
  - intros t. rewrite Hdb, decide_True by apply pg_tables_all. done.
  - by rewrite (sbf_ext _ _ Hs').
  - by rewrite (sbf_ext _ _ Hs').
  - by rewrite (sbf_ext _ _ Hs').
Qed.

(** [w'] is [w] less some rows of the namespaces [D], some of the keys [K] and
    some of the collections [C]. *)
Record erased (D K C : string → bool) (w w' : W) : Prop := {
  er_ledger : w_ledger w' = w_ledger w;
  er_now : w_now w' = w_now w;
  er_adv : w_adv w' = w_adv w;
  er_lockobjs : w_lockobjs w' = w_lockobjs w;
  er_calm : w_faults w = [] → w_faults w' = [];
  er_pg : ∀ t, sublist (st_pg (w_ext w') t) (st_pg (w_ext w) t);
  er_pg_kept : ∀ t, filter (λ r, D r.1 = false) (st_pg (w_ext w') t) = filter (λ r, D r.1 = false) (st_pg (w_ext w) t);
  er_redis : st_redis (w_ext w') ⊆ st_redis (w_ext w);
  er_redis_kept : ∀ k, k ∈ st_redis (w_ext w) → K k = false → k ∈ st_redis (w_ext w');
  er_qdrant : st_qdrant (w_ext w') ⊆ st_qdrant (w_ext w);
  er_qdrant_kept : ∀ c, c ∈ st_qdrant (w_ext w) → C c = false → c ∈ st_qdrant (w_ext w');
}.

#[export] Instance erased_preorder D K C : PreOrder (erased D K C).
Proof.
  split; [by intros w; split|]. intros w1 w2 w3 [] []. split; try congruence; auto.
  - intros t. trans (st_pg (w_ext w2) t); auto.
  - by trans (st_redis (w_ext w2)).
  - by trans (st_qdrant (w_ext w2)).
Qed.

Lemma within_erased D K C K' C' w w' :
  (∀ k, K k = true → K' k = true) → (∀ c, C c = true → C' c = true) → within K C w w' → erased D K' C' w w'.
Proof.
  intros HK HC []. split; auto; try (intros t; by rewrite wi_pg0).
  - intros k Hk Hn. apply wi_redis_kept0; [done|]. destruct (K k) eqn:E; [|done]. apply HK in E. congruence.
  - intros c Hc Hn. apply wi_qdrant_kept0; [done|]. destruct (C c) eqn:E; [|done]. apply HC in E. congruence.
Qed.

Definition is_ns (ns : string) (n : string) : bool := bool_decide (n = ns).
Definition every (_ : string) : bool := true.

Lemma sbf_erased D K C w w' : same_but_faults w w' → (w_faults w = [] → w' = w) → erased D K C w w'.
Proof. intros Hs Hf. eapply within_erased; [..|by apply (within_core none none)]; done. Qed.

Lemma tables_erased D K C f w w' :
  (∀ rows, sublist (f rows) rows ∧ filter (λ r, D r.1 = false) (f rows) = filter (λ r, D r.1 = false) rows) →
  tables_moved f w w' → erased D K C w w'.
Proof.
  intros Hf []. split; auto; try (intros t; rewrite tm_pg0; apply Hf); try (by rewrite ?tm_redis0, ?tm_qdrant0);
    intros x; rewrite ?tm_redis0, ?tm_qdrant0; done.
Qed.

Lemma keep_others_erases ns rows :
  sublist (keep_others ns rows) rows ∧
  filter (λ r, is_ns ns r.1 = false) (keep_others ns rows) = filter (λ r : string * Z, is_ns ns r.1 = false) rows.
Proof.
  split; [apply sublist_filter|]. unfold keep_others. etrans; [apply list_filter_filter|]. apply list_filter_iff.
  intros r. unfold is_ns. rewrite bool_decide_eq_false. tauto.
Qed.

Lemma ClearNamespaceData_spec K C ns w :
  let '((n, e), w') := ClearNamespaceData ns w in
  erased (is_ns ns) K C w w' ∧
  (e = [] → n = Z.of_nat (length (rows_of ns (st_pg (w_ext w) TEvents))) ∧
            ∀ t, rows_of ns (st_pg (w_ext w') t) = []) ∧
  (w_faults w = [] → e = []).
Proof.
  unfold ClearNamespaceData, bind. destruct (delete_tx_spec (keep_others ns) w) as (r & w' & -> & [(-> & Hne & Hs)|[-> Hm]]); go.
  - split; [by apply sbf_erased|]. done.
  - split; [eapply tables_erased; [apply keep_others_erases|done]|]. split; [|done]. intros _. split; [done|].
    intros t. rewrite (tm_pg _ _ _ Hm). apply list_filter_none.
    intros r Hr Hn. by apply list_elem_of_filter in Hr as [Hr _].
Qed.

Lemma Truncate_spec K C w :
  let '((n, m, e), w') := TruncateAllNamespaceData w in
  erased every K C w w' ∧
  (e = [] → n = Z.of_nat (length (st_pg (w_ext w) TEvents)) ∧ m = Z.of_nat (length (st_pg (w_ext w) TNamespaceConfigs)) ∧
            ∀ t, st_pg (w_ext w') t = []) ∧
  (w_faults w = [] → e = []).
Proof.
  unfold TruncateAllNamespaceData, bind. destruct (delete_tx_spec (λ _, []) w) as (r & w' & -> & [(-> & Hne & Hs)|[-> Hm]]); go.
  - split; [by apply sbf_erased|]. done.
  - split; [eapply tables_erased; [|done]|].
    + intros rows. split; [apply sublist_nil_l|]. symmetry. by apply list_filter_none.
    + split; [|done]. intros _. split; [done|]. split; [done|]. apply Hm.
Qed.

(** ** Witnesses *)

(** A server that matches literal prefixes. *)
Fixpoint prefix_glob (pattern key : string) : bool :=
  match pattern with
  | EmptyString => match key with EmptyString => true | _ => false end
  | String "*"%char EmptyString => true
  | String c p => match key with
                  | String d k => Ascii.eqb c d && prefix_glob p k
                  | EmptyString => false
                  end
  end.

Lemma prefix_glob_plain p k : glob_plain p = true → prefix_glob (p +:+ "*") k = String.prefix p k.
Proof.
  revert k. induction p as [|c p IH]; intros k Hp; [by destruct k|].
  unfold glob_plain in Hp. simpl in Hp. apply andb_true_iff in Hp as [Hc Hp].
  rewrite string_app_cons.
  assert (prefix_glob (String c (p +:+ "*")) k =
    match k with String d k' => Ascii.eqb c d && prefix_glob (p +:+ "*") k' | EmptyString => false end) as ->.
  { destruct (p +:+ "*") as [|d q] eqn:E; [destruct p; discriminate E|].
    by destruct c as [[] [] [] [] [] [] [] []]. }
  destruct k as [|d k]; [done|]. rewrite IH by done. simpl.
  destruct (Ascii.eqb_spec c d) as [->|Hne]; simpl.
  - destruct (Ascii.ascii_dec d d); [done|congruence].
  - destruct (Ascii.ascii_dec c d); [congruence|done].
Qed.

#[export] Instance prefix_redis : RedisGlob := {| glob := prefix_glob; glob_prefix := prefix_glob_plain |}.

Definition stores_world : W :=
  {| w_ledger := w_ledger (janitor_world (Some 10%Z)); w_now := 20; w_adv := []; w_lockobjs := ∅; w_next := 0;
     w_faults := [];
     w_ext := {| st_pg := λ _, []; st_redis := {["trending:a"; "trending:a:g3"; "catalog:embed:b"]};
                 st_qdrant := {["a_subjects"; "other"; "b_objects_dense"]}; st_compute := [] |} |}.

Lemma janitor_reclaims_stores_witness :
  let w' := (passes 2 (store_cleaner true true) zero_candidate 2 stores_world).2 in
  elements (st_redis (w_ext w')) = ["trending:a:g3"] ∧ elements (st_qdrant (w_ext w')) = ["other"] ∧
  no_collections (owned_by qdrant_owned (sorted_candidates (w_ledger stores_world))) w'.
Proof.
  split; [vm_compute; reflexivity|]. split; [vm_compute; reflexivity|].
  destruct (janitor_reclaims_stores 2 stores_world) as (_ & _ & H); [reflexivity|lia|by eexists|reflexivity|].
  assert (length (sorted_candidates (w_ledger stores_world)) / Z.to_nat 2 + 1 = 2)%nat as Hn
    by (vm_compute; reflexivity).
  rewrite Hn in H. exact H.
Defined.
