(* ===== verification/ComputeLocks.v ===== *)
(** * The compute locks

    The cross-process locks of [internal/compute/repository.go]
    ([TryLockNamespace], [LockNamespace], [LockAllNamespaces] and their
    releases) with the delegation of [internal/compute/job.go]: a namespace run
    or wipe holds the maintenance lock shared and its namespace's lock
    exclusive, the application-wide wipe holds the maintenance lock exclusive,
    each on one pooled session. [hashtext] is PostgreSQL's. *)

From stdpp Require Import base tactics gmap strings list.
From Stdlib Require Import ZArith Lia.
From S2P Require Import Prelude GoLib NsNames NsLedger NsService Janitor Stores.

Class PgHash := { hashtext : string → Z }.

Section locks.
Context `{PgHash}.

Definition maintenance_key : Z * Z := (hashtext "codohue:compute:maintenance", 0%Z).
Definition compute_key (ns : string) : Z * Z := (hashtext "codohue:compute", hashtext ns).

Definition on_compute (f : list (nat * (Z * Z) * bool) → list (nat * (Z * Z) * bool)) : M W () :=
  on_stores (λ s, set_st_compute (f (st_compute s)) s).

(** [pg_advisory_lock] waits for the other holders, so it is granted or fails. *)
Definition compute_lock (s : nat) (k : Z * Z) (shared : bool) : M W error :=
  call [ErrDriver] (on_compute (cons (s, k, shared)) ;;! ret []).

(** Another session stands in the way of the lock. *)
Definition conflicts (s : nat) (k : Z * Z) (shared : bool) (e : nat * (Z * Z) * bool) : bool :=
  negb (bool_decide (e.1.1 = s)) && bool_decide (e.1.2 = k) && negb (shared && e.2).

Definition compute_try_lock (s : nat) (k : Z * Z) (shared : bool) : M W (bool * error) :=
  call (false, [ErrDriver]) (
    let! st := gets w_ext in
    if existsb (conflicts s k shared) (st_compute st) then ret (false, [])
    else on_compute (cons (s, k, shared)) ;;! ret (true, [])).

(** Locks are counted per session: one matching entry goes. *)
Fixpoint drop_one (x : nat * (Z * Z) * bool) (l : list (nat * (Z * Z) * bool)) : list (nat * (Z * Z) * bool) :=
  match l with
  | [] => []
  | y :: l' => if bool_decide (x = y) then l' else y :: drop_one x l'
  end.

Definition compute_unlock (s : nat) (k : Z * Z) (shared : bool) : M W error :=
  call [ErrDriver] (on_compute (drop_one (s, k, shared)) ;;! ret []).

(** [conn.Conn().Close]: the session ends and its locks with it. *)
Definition compute_close (s : nat) : M W () := on_compute (filter (λ e, e.1.1 ≠ s)).

Definition releaseMaintenanceLock (s : nat) (shared : bool) : M W () :=
  let! e := compute_unlock s maintenance_key shared in
  if negb (nil_err e) then compute_close s else ret tt.

Definition releaseSharedMaintenanceLock (s : nat) : M W () := releaseMaintenanceLock s true.

(** The release functions the lock operations return. *)
Inductive ComputeRelease :=
  | RelNothing
  | RelNamespace (s : nat) (ns : string)
  | RelMaintenance (s : nat).

Definition run_release (r : ComputeRelease) : M W () :=
  match r with
  | RelNothing => ret tt
  | RelNamespace s ns =>
      let! namespaceErr := compute_unlock s (compute_key ns) false in
      let! maintenanceErr := compute_unlock s maintenance_key true in
      if negb (nil_err namespaceErr) || negb (nil_err maintenanceErr) then compute_close s else ret tt
  | RelMaintenance s => releaseMaintenanceLock s false
  end.

Definition TryLockNamespace (ns : string) : M W (option ComputeRelease * error) :=
  let! c := pool_acquire in
  match c with
  | None => ret (None, [ErrDriver])
  | Some s =>
      let! ' (maintenanceOK, err) := compute_try_lock s maintenance_key true in
      if negb (nil_err err) then ret (None, err)
      else if negb maintenanceOK then ret (None, [])
      else
        let! ' (got, err) := compute_try_lock s (compute_key ns) false in
        if negb (nil_err err) then releaseSharedMaintenanceLock s ;;! ret (None, err)
        else if negb got then releaseSharedMaintenanceLock s ;;! ret (None, [])
        else ret (Some (RelNamespace s ns), [])
  end.

Definition LockNamespace (ns : string) : M W (ComputeRelease + error) :=
  let! c := pool_acquire in
  match c with
  | None => ret (inr [ErrDriver])
  | Some s =>
      let! err := compute_lock s maintenance_key true in
      if negb (nil_err err) then ret (inr err)
      else
        let! err := compute_lock s (compute_key ns) false in
        if negb (nil_err err) then releaseSharedMaintenanceLock s ;;! ret (inr err)
        else ret (inl (RelNamespace s ns))
  end.

Definition LockAllNamespaces : M W (ComputeRelease + error) :=
  let! c := pool_acquire in
  match c with
  | None => ret (inr [ErrDriver])
  | Some s =>
      let! err := compute_lock s maintenance_key false in
      if negb (nil_err err) then ret (inr err) else ret (inl (RelMaintenance s))
  end.

(** The job, which may have been built without locks. *)
Definition job_LockNamespace (locks : bool) (ns : string) : M W (ComputeRelease + error) :=
  if negb locks then ret (inl RelNothing) else LockNamespace ns.

Definition job_LockAllNamespaces (locks : bool) : M W (ComputeRelease + error) :=
  if negb locks then ret (inl RelNothing) else LockAllNamespaces.

Definition job_tryLock (locks : bool) (ns : string) : M W (option ComputeRelease * error) :=
  if negb locks then ret (Some RelNothing, []) else TryLockNamespace ns.

(** ** Facts *)

(** No session the pool has yet to hand out holds a lock. *)
Definition fresh_sessions (w : W) : Prop := ∀ e, e ∈ st_compute (w_ext w) → (e.1.1 < w_next w)%nat.

(** [w'] differs from [w] in the compute locks [l], the session counter and the
    fault script. *)
Record relocked (l : list (nat * (Z * Z) * bool)) (w w' : W) : Prop := {
  rl_ledger : w_ledger w' = w_ledger w;
  rl_now : w_now w' = w_now w;
  rl_adv : w_adv w' = w_adv w;
  rl_lockobjs : w_lockobjs w' = w_lockobjs w;
  rl_ext : w_ext w' = set_st_compute l (w_ext w);
  rl_calm : w_faults w = [] → w_faults w' = [];
}.

Lemma set_st_compute_same s : set_st_compute (st_compute s) s = s.
Proof. by destruct s. Qed.

Lemma relocked_trans l l' w w1 w2 : relocked l w w1 → relocked l' w1 w2 → relocked l' w w2.
Proof. intros [] []. split; try congruence; auto. rewrite rl_ext1, rl_ext0. by destruct (w_ext w). Qed.

Lemma relocked_sbf w w' : same_but_faults w w' → (w_faults w = [] → w' = w) → relocked (st_compute (w_ext w)) w w'.
Proof.
  intros Hs Hf. split; try apply Hs.
  - by rewrite (sbf_ext _ _ Hs), set_st_compute_same.
  - intros H0. by rewrite Hf.
Qed.

Lemma on_compute_relocked f w : relocked (f (st_compute (w_ext w))) w (on_compute f w).2.
Proof. by split. Qed.

(** A statement that changes the locks by [f], or fails. *)
Lemma call_on_compute {A} (bad good : A) f w :
  let '(a, w') := call bad (on_compute f ;;! ret good) w in
  (a = bad ∧ w_faults w ≠ [] ∧ relocked (st_compute (w_ext w)) w w') ∨
  (a = good ∧ relocked (f (st_compute (w_ext w))) w w').
Proof.
  destruct (call_spec bad (on_compute f ;;! ret good) w) as (w1 & Hs & Hf & [[Hne ->]| ->]).
  - left. split; [done|]. split; [done|]. by apply relocked_sbf.
  - right. unfold bind. go. split; [done|]. pose proof (relocked_sbf _ _ Hs Hf) as H1.
    eapply relocked_trans; [exact H1|]. rewrite <- (sbf_ext _ _ Hs). apply on_compute_relocked.
Qed.

Definition not_of (s : nat) (l : list (nat * (Z * Z) * bool)) : Prop := ∀ e, e ∈ l → e.1.1 ≠ s.

Lemma close_drops s mine l :
  (∀ e, e ∈ mine → e.1.1 = s) → not_of s l → filter (λ e : nat * (Z * Z) * bool, e.1.1 ≠ s) (mine ++ l) = l.
Proof.
  intros Hm Hl. induction mine as [|e mine IH]; [by apply list_filter_all|]. cbn [app].
  rewrite filter_cons_False; [apply IH; set_solver|]. intros Hn. apply Hn, Hm. set_solver.
Qed.

Lemma compute_close_drops s mine l w :
  st_compute (w_ext w) = mine ++ l → (∀ e, e ∈ mine → e.1.1 = s) → not_of s l →
  relocked l w (compute_close s w).2.
Proof.
  intros Hw Hm Hl. pose proof (on_compute_relocked (filter (λ e, e.1.1 ≠ s)) w) as Hr.
  by rewrite Hw, close_drops in Hr.
Qed.

(** Releasing the maintenance lock leaves the session without locks, whether or
    not the unlock statement fails. *)
Lemma releaseMaintenanceLock_spec s shared l w :
  st_compute (w_ext w) = (s, maintenance_key, shared) :: l → not_of s l →
  relocked l w (releaseMaintenanceLock s shared w).2.
Proof.
  intros Hw Hl. unfold releaseMaintenanceLock, bind.
  pose proof (call_on_compute [ErrDriver] [] (drop_one (s, maintenance_key, shared)) w) as Hu.
  fold (compute_unlock s maintenance_key shared) in Hu.
  destruct (compute_unlock s maintenance_key shared w) as [e w1].
  destruct Hu as [(-> & _ & H1)|[-> H1]]; go.
  - eapply relocked_trans; [exact H1|]. apply (compute_close_drops s [(s, maintenance_key, shared)]); [|set_solver|done].
    rewrite (rl_ext _ _ _ H1). done.
  - rewrite Hw in H1. cbn [drop_one] in H1. by rewrite bool_decide_true in H1.
Qed.

Definition ns_locks (s : nat) (ns : string) : list (nat * (Z * Z) * bool) :=
  [(s, compute_key ns, false); (s, maintenance_key, true)].

Lemma run_release_namespace s ns l w :
  st_compute (w_ext w) = ns_locks s ns ++ l → not_of s l → relocked l w (run_release (RelNamespace s ns) w).2.
Proof.
  intros Hw Hl. cbn [run_release]. unfold bind.
  pose proof (call_on_compute [ErrDriver] [] (drop_one (s, compute_key ns, false)) w) as Hu.
  fold (compute_unlock s (compute_key ns) false) in Hu.
  destruct (compute_unlock s (compute_key ns) false w) as [e1 w1]. go.
  pose proof (call_on_compute [ErrDriver] [] (drop_one (s, maintenance_key, true)) w1) as Hv.
  fold (compute_unlock s maintenance_key true) in Hv.
  destruct (compute_unlock s maintenance_key true w1) as [e2 w2].
  rewrite Hw in Hu. unfold ns_locks in Hu. cbn [drop_one app] in Hu. rewrite bool_decide_true in Hu by done.
  assert (∀ e, e ∈ ns_locks s ns → e.1.1 = s) as Hm by (unfold ns_locks; set_solver).
  destruct Hu as [(-> & _ & H1)|[-> H1]]; rewrite (rl_ext _ _ _ H1) in Hv; cbn in Hv;
    rewrite ?(bool_decide_eq_false_2 (_ = (s, compute_key ns, false))), ?bool_decide_true in Hv by congruence;
    destruct Hv as [(-> & _ & H2)|[-> H2]]; pose proof (relocked_trans _ _ _ _ _ H1 H2) as H3; go; cbn [orb].
  4: exact H3.
  all: eapply relocked_trans; [exact H3|].
  - apply (compute_close_drops s (ns_locks s ns)); [|done|done]. by rewrite (rl_ext _ _ _ H3).
  - apply (compute_close_drops s [(s, compute_key ns, false)]); [|set_solver|done]. by rewrite (rl_ext _ _ _ H3).
  - apply (compute_close_drops s [(s, maintenance_key, true)]); [|set_solver|done]. by rewrite (rl_ext _ _ _ H3).
Qed.

Lemma pool_acquire_spec w :
  let '(c, w') := pool_acquire w in
  relocked (st_compute (w_ext w)) w w' ∧ (c = None ∧ w_faults w ≠ [] ∨ c = Some (w_next w)).
Proof.
  unfold pool_acquire, bind. pose proof (fault_frame w) as Hs.
  destruct (decide (w_faults w = [])) as [Hf|Hf].
  - rewrite fault_nil by done. go. unfold gets, modify. go. split; [|by right].
    split; try done. by rewrite set_st_compute_same.
  - destruct (fault w) as [[] w1]; go; cbn [snd] in Hs.
    + split; [by apply relocked_sbf|by left].
    + unfold gets, modify. go. rewrite (sbf_next _ _ Hs). split; [|by right].
      split; try apply Hs; try done. cbn. by rewrite (sbf_ext _ _ Hs), set_st_compute_same.
Qed.

Lemma fresh_not_of w : fresh_sessions w → not_of (w_next w) (st_compute (w_ext w)).
Proof. intros Hw e He%Hw. lia. Qed.

(** The locks [mine] were taken by a fresh session, and [r] gives them back. *)
Definition taken (mine : nat → list (nat * (Z * Z) * bool)) (r : ComputeRelease) (w w' : W) : Prop :=
  relocked (mine (w_next w) ++ st_compute (w_ext w)) w w' ∧
  ∀ w2, st_compute (w_ext w2) = st_compute (w_ext w') → relocked (st_compute (w_ext w)) w2 (run_release r w2).2.

Lemma taken_namespace ns w w' :
  fresh_sessions w → relocked (ns_locks (w_next w) ns ++ st_compute (w_ext w)) w w' →
  taken (λ s, ns_locks s ns) (RelNamespace (w_next w) ns) w w'.
Proof.
  intros Hw H1. split; [done|]. intros w2 H2. apply run_release_namespace; [|by apply fresh_not_of].
  by rewrite H2, (rl_ext _ _ _ H1).
Qed.

Lemma LockNamespace_spec ns w :
  fresh_sessions w →
  let '(r, w') := LockNamespace ns w in
  match r with
  | inl rel => taken (λ s, ns_locks s ns) rel w w'
  | inr e => e = [ErrDriver] ∧ w_faults w ≠ [] ∧ relocked (st_compute (w_ext w)) w w'
  end.
Proof.
  intros Hw. unfold LockNamespace, bind. pose proof (pool_acquire_spec w) as H1.
  destruct (pool_acquire w) as [c w1]. destruct H1 as [H1 [[-> Hne]| ->]]; go; [done|].
  pose proof (call_on_compute [ErrDriver] [] (cons (w_next w, maintenance_key, true)) w1) as H2.
  fold (compute_lock (w_next w) maintenance_key true) in H2. pose proof (fresh_not_of _ Hw) as Hn.
  destruct (compute_lock (w_next w) maintenance_key true w1) as [e2 w2].
  rewrite (rl_ext _ _ _ H1) in H2. cbn in H2.
  destruct H2 as [(-> & Hne & H2)|[-> H2]]; pose proof (relocked_trans _ _ _ _ _ H1 H2) as H3; go.
  { split_and!; auto. intros H0. by apply Hne, (rl_calm _ _ _ H1). }
  pose proof (call_on_compute [ErrDriver] [] (cons (w_next w, compute_key ns, false)) w2) as H4.
  fold (compute_lock (w_next w) (compute_key ns) false) in H4.
  destruct (compute_lock (w_next w) (compute_key ns) false w2) as [e3 w3].
  rewrite (rl_ext _ _ _ H3) in H4. cbn in H4.
  destruct H4 as [(-> & Hne & H4)|[-> H4]]; pose proof (relocked_trans _ _ _ _ _ H3 H4) as H5; go.
  - split; [done|]. split; [intros H0; by apply Hne, (rl_calm _ _ _ H3)|].
    eapply relocked_trans; [exact H5|]. apply releaseMaintenanceLock_spec; [by rewrite (rl_ext _ _ _ H5)|done].
  - by apply taken_namespace.
Qed.

Lemma LockAllNamespaces_spec w :
  fresh_sessions w →
  let '(r, w') := LockAllNamespaces w in
  match r with
  | inl rel => taken (λ s, [(s, maintenance_key, false)]) rel w w'
  | inr e => e = [ErrDriver] ∧ w_faults w ≠ [] ∧ relocked (st_compute (w_ext w)) w w'
  end.
Proof.
  intros Hw. unfold LockAllNamespaces, bind. pose proof (pool_acquire_spec w) as H1.
  destruct (pool_acquire w) as [c w1]. destruct H1 as [H1 [[-> Hne]| ->]]; go; [done|].
  pose proof (call_on_compute [ErrDriver] [] (cons (w_next w, maintenance_key, false)) w1) as H2.
  fold (compute_lock (w_next w) maintenance_key false) in H2.
  destruct (compute_lock (w_next w) maintenance_key false w1) as [e2 w2].
  rewrite (rl_ext _ _ _ H1) in H2. cbn in H2.
  destruct H2 as [(-> & Hne & H2)|[-> H2]]; pose proof (relocked_trans _ _ _ _ _ H1 H2) as H3; go.
  { split_and!; auto. intros H0. by apply Hne, (rl_calm _ _ _ H1). }
  split; [done|]. intros v Hv. apply releaseMaintenanceLock_spec; [by rewrite Hv, (rl_ext _ _ _ H3)|by apply fresh_not_of].
Qed.

Lemma compute_try_lock_spec s k shared w :
  let '((got, e), w') := compute_try_lock s k shared w in
  match got, e with
  | true, [] => existsb (conflicts s k shared) (st_compute (w_ext w)) = false ∧
                relocked ((s, k, shared) :: st_compute (w_ext w)) w w'
  | false, [] => existsb (conflicts s k shared) (st_compute (w_ext w)) = true ∧
                 relocked (st_compute (w_ext w)) w w'
  | false, e => e = [ErrDriver] ∧ w_faults w ≠ [] ∧ relocked (st_compute (w_ext w)) w w'
  | true, _ => False
  end.
Proof.
  unfold compute_try_lock.
  match goal with |- context [call ?b ?m w] => destruct (call_spec b m w) as (w1 & Hs & Hf & [[Hne ->]| ->]) end.
  { split; [done|]. split; [done|]. by apply relocked_sbf. }
  pose proof (relocked_sbf _ _ Hs Hf) as H1. unfold bind, gets. go. rewrite (sbf_ext _ _ Hs).
  destruct (existsb _ _) eqn:E; go; [done|]. split; [done|]. eapply relocked_trans; [exact H1|].
  rewrite <- (sbf_ext _ _ Hs). apply on_compute_relocked.
Qed.

(** Nobody runs or wipes [ns], and nobody wipes everything. *)
Definition compute_idle (ns : string) (w : W) : Prop :=
  ∀ s shared, ((s, compute_key ns, shared) ∉ st_compute (w_ext w)) ∧ ((s, maintenance_key, false) ∉ st_compute (w_ext w)).

Lemma no_conflict s k shared l :
  not_of s l → existsb (conflicts s k shared) l = false ↔ ∀ t b, (t, k, b) ∈ l → shared && b = true.
Proof.
  intros Hl. rewrite <- not_true_iff_false, existsb_exists. split.
  - intros Hn t b Hin. destruct (shared && b) eqn:E; [done|]. exfalso. apply Hn. exists (t, k, b).
    split; [by apply list_elem_of_In|]. unfold conflicts. cbn.
    rewrite E, (bool_decide_true (k = k)), (bool_decide_eq_false_2 (t = s)); [done| |done].
    by apply (Hl (t, k, b)).
  - intros Ha ([[t k'] b] & Hin & Hc). unfold conflicts in Hc. cbn in Hc. btests. subst k'.
    apply list_elem_of_In in Hin. apply Ha in Hin. congruence.
Qed.

Lemma TryLockNamespace_spec ns w :
  fresh_sessions w →
  let '((r, e), w') := TryLockNamespace ns w in
  match r with
  | Some rel => e = [] ∧ compute_idle ns w ∧ taken (λ s, ns_locks s ns) rel w w'
  | None => relocked (st_compute (w_ext w)) w w' ∧ (e = [ErrDriver] ∧ w_faults w ≠ [] ∨ e = [] ∧ ¬ compute_idle ns w)
  end.
Proof.
  intros Hw. unfold TryLockNamespace, bind. pose proof (pool_acquire_spec w) as H1.
  destruct (pool_acquire w) as [c w1]. destruct H1 as [H1 [[-> Hne]| ->]]; go; [auto|].
  pose proof (fresh_not_of _ Hw) as Hn. pose proof (compute_try_lock_spec (w_next w) maintenance_key true w1) as H2.
  destruct (compute_try_lock (w_next w) maintenance_key true w1) as [[got e] w2].
  rewrite (rl_ext _ _ _ H1) in H2. cbn in H2.
  assert (w_faults w1 ≠ [] → w_faults w ≠ []) as Hf1 by (intros Hx H0; by apply Hx, (rl_calm _ _ _ H1)).
  destruct got, e as [|x e]; go; try done.
  2: { destruct H2 as [Hc H2]. pose proof (relocked_trans _ _ _ _ _ H1 H2) as H3. split; [done|]. right. split; [done|].
       intros Hi. apply not_false_iff_true in Hc. apply Hc, (no_conflict _ _ _ _ Hn). intros t [] Hin; [done|].
       exfalso. by apply (proj2 (Hi t true)). }
  2: { destruct H2 as ([= -> ->] & Hne & H2). split; [by eapply relocked_trans|]. auto. }
  destruct H2 as [Hm H2]. pose proof (proj1 (no_conflict _ _ _ _ Hn) Hm) as Hm'. pose proof (relocked_trans _ _ _ _ _ H1 H2) as H3.
  pose proof (compute_try_lock_spec (w_next w) (compute_key ns) false w2) as H4.
  destruct (compute_try_lock (w_next w) (compute_key ns) false w2) as [[got e] w3].
  rewrite (rl_ext _ _ _ H3) in H4. cbn [st_compute set_st_compute existsb] in H4.
  assert (conflicts (w_next w) (compute_key ns) false (w_next w, maintenance_key, true) = false) as Hself.
  { unfold conflicts. cbn. by rewrite bool_decide_true. }
  rewrite Hself in H4. cbn [orb] in H4.
  assert (∀ v, relocked ((w_next w, maintenance_key, true) :: st_compute (w_ext w)) w2 v →
    relocked (st_compute (w_ext w)) w (releaseSharedMaintenanceLock (w_next w) v).2) as Hrel.
  { intros v H5. pose proof (relocked_trans _ _ _ _ _ H3 H5) as H6. eapply relocked_trans; [exact H6|].
    apply releaseMaintenanceLock_spec; [by rewrite (rl_ext _ _ _ H6)|done]. }
  destruct got, e as [|x e]; go; try done.
  - destruct H4 as [Hk H4]. pose proof (proj1 (no_conflict _ _ _ _ Hn) Hk) as Hk'. split; [done|]. split.
    + intros t b. split; intros Hin; [by apply Hk' in Hin|by apply Hm' in Hin].
    + apply taken_namespace; [done|by eapply relocked_trans].
  - destruct H4 as [Hk H4]. split; [by apply Hrel|]. right. split; [done|]. intros Hi.
    apply not_false_iff_true in Hk. apply Hk, (no_conflict _ _ _ _ Hn). intros t b Hin. exfalso. by apply (proj1 (Hi t b)).
  - destruct H4 as ([= -> ->] & Hne & H4). split; [by apply Hrel|]. left. split; [done|].
    intros H0. apply Hne, (rl_calm _ _ _ H3), H0.
Qed.
End locks.

(** ** Properties *)

(** The compute locks exclude and never leak, whatever fails. A run gets its
    namespace's lock without waiting only when no session holds that lock and
    none holds the maintenance lock exclusively, and when nothing fails it is
    refused only for that reason; an acquisition that fails or is refused
    leaves the locks as they were, although it may have taken one of two; and
    the release of a lock that was taken leaves exactly the locks that were held
    before it, also when the unlock statements fail and the session is closed. *)
Theorem compute_locks_never_leak `{PgHash} ns w :
  fresh_sessions w →
  (let '((r, e), w') := TryLockNamespace ns w in
   match r with
   | Some rel => e = [] ∧ compute_idle ns w ∧ taken (λ s, ns_locks s ns) rel w w'
   | None => relocked (st_compute (w_ext w)) w w' ∧ (e = [ErrDriver] ∧ w_faults w ≠ [] ∨ e = [] ∧ ¬ compute_idle ns w)
   end) ∧
  (let '(r, w') := LockNamespace ns w in
   match r with
   | inl rel => taken (λ s, ns_locks s ns) rel w w'
   | inr e => e = [ErrDriver] ∧ w_faults w ≠ [] ∧ relocked (st_compute (w_ext w)) w w'
   end) ∧
  (let '(r, w') := LockAllNamespaces w in
   match r with
   | inl rel => taken (λ s, [(s, maintenance_key, false)]) rel w w'
   | inr e => e = [ErrDriver] ∧ w_faults w ≠ [] ∧ relocked (st_compute (w_ext w)) w w'
   end).
Proof.
  intros Hw. split; [by apply TryLockNamespace_spec|]. split; [by apply LockNamespace_spec|by apply LockAllNamespaces_spec].
Qed.

(** A hash that tells the names at hand apart. *)
#[local] Instance length_hash : PgHash := {| hashtext s := Z.of_nat (String.length s) |}.

Definition locks_world (fs : list bool) (l : list (nat * (Z * Z) * bool)) : W :=
  {| w_ledger := w_ledger stores_world; w_now := 20; w_adv := []; w_lockobjs := ∅; w_next := 7; w_faults := fs;
     w_ext := {| st_pg := λ _, []; st_redis := ∅; st_qdrant := ∅; st_compute := l |} |}.

(** Another run holds [demo]; the second statement of the wipe fails, and so does
    the unlock that follows. *)
Lemma compute_locks_never_leak_witness :
  let held := [(3, compute_key "demo", false);
               (3, maintenance_key, true)] in
  let w := locks_world [false; false; true; true] held in
  (TryLockNamespace "demo" (locks_world [] held)).1 = (None, []) ∧
  (LockNamespace "demo" w).1 = inr [ErrDriver] ∧
  relocked held w (LockNamespace "demo" w).2.
Proof.
  cbv zeta. split; [reflexivity|]. split; [reflexivity|].
  destruct (compute_locks_never_leak "demo"
    (locks_world [false; false; true; true] [(3, compute_key "demo", false);
      (3, maintenance_key, true)])) as (_ & H & _).
  { intros e He. cbn [st_compute w_ext locks_world w_next] in *.
    repeat (apply elem_of_cons in He as [->|He]; [cbn; lia|]). by apply elem_of_nil in He. }
  apply H.
Defined.
