(* ===== verification/Wipe.v ===== *)
(** * What a wipe leaves

    Facts about the admin plane's cleaning of the stores, used by the lifecycle
    operations of [internal/admin/service.go]: the clearing of one generation,
    the verification that nothing of it is left, and the flush of everything
    the application owns. Every fact holds for every failure pattern. *)

From stdpp Require Import base tactics gmap sets strings list.
From Stdlib Require Import ZArith Lia Ascii.
From S2P Require Import Prelude GoLib Keyset NsNames NsLedger NsService Janitor Stores.

(** Nothing of the generation is left in the stores the service has. *)
Record wiped (redis qdrant : bool) (ns : string) (g : Z) (w : W) : Prop := {
  wp_pg : ∀ t, rows_of ns (st_pg (w_ext w) t) = [];
  wp_redis : redis = true → no_keys (redis_owned ns g) w;
  wp_qdrant : qdrant = true → no_collections (qdrant_owned ns g) w;
}.

Lemma wiped_ext redis qdrant ns g w w' : w_ext w' = w_ext w → wiped redis qdrant ns g w → wiped redis qdrant ns g w'.
Proof. intros Hx []. split; unfold no_keys, no_collections in *; rewrite Hx; auto. Qed.

Lemma rows_of_sublist ns (l k : pg_rows) : sublist l k → rows_of ns k = [] → rows_of ns l = [].
Proof.
  intros Hs Hk. apply list_filter_none. intros r Hr Hn.
  assert (r ∈ rows_of ns k) as Hin.
  { apply list_elem_of_filter. split; [done|]. by eapply elem_of_sublist. }
  rewrite Hk in Hin. by apply elem_of_nil in Hin.
Qed.

Lemma wiped_erased redis qdrant ns g D K C w w' :
  erased D K C w w' → wiped redis qdrant ns g w → wiped redis qdrant ns g w'.
Proof.
  intros He [Hp Hr Hq]. split.
  - intros t. eapply rows_of_sublist; [apply (er_pg _ _ _ _ _ He)|apply Hp].
  - intros Ht k Hk. apply (Hr Ht), (er_redis _ _ _ _ _ He), Hk.
  - intros Ht k Hk. apply (Hq Ht), (er_qdrant _ _ _ _ _ He), Hk.
Qed.

Section wipe.
Context `{RedisGlob}.

Lemma clearNamespaceEverywhere_spec redis qdrant ns g w :
  ns ≠ "" → (1 <= g)%Z →
  let '((n, e), w') := clearNamespaceEverywhereGeneration redis qdrant ns g w in
  erased (is_ns ns) (redis_owned ns g) (qdrant_owned ns g) w w' ∧
  (e = [] → n = Z.of_nat (length (rows_of ns (st_pg (w_ext w) TEvents))) ∧ wiped redis qdrant ns g w') ∧
  (w_faults w = [] → e = []).
Proof.
  intros Hns Hg. unfold clearNamespaceEverywhereGeneration, bind.
  pose proof (ClearNamespaceData_spec (redis_owned ns g) (qdrant_owned ns g) ns w) as H1.
  destruct (ClearNamespaceData ns w) as [[n e] w1]. destruct H1 as (H1 & Hp1 & Hf1). go.
  destruct e as [|x e]; go; [|split; [done|]; split; [done|]; intros H0; by apply Hf1 in H0].
  destruct (Hp1 eq_refl) as [-> Hrows]. clear Hp1 Hf1.
  assert (cleans (if redis then clearNamespaceRedisGeneration ns g else ret []) (redis_owned ns g) none
    (λ v, redis = true → no_keys (redis_owned ns g) v)) as Hr.
  { destruct redis; [|by intros v]. intros v. pose proof (admin_redis_cleans ns g Hns Hg v) as Hv.
    destruct (clearNamespaceRedisGeneration ns g v). naive_solver. }
  assert (cleans (if qdrant then clearNamespaceQdrantGeneration ns g else ret []) none (qdrant_owned ns g)
    (λ v, qdrant = true → no_collections (qdrant_owned ns g) v)) as Hq.
  { destruct qdrant; [|by intros v]. intros v. pose proof (drop_kinds_cleans ErrPanic vector_kinds ns g Hns Hg (λ _ h, h) v) as Hv.
    unfold clearNamespaceQdrantGeneration. destruct (drop_kinds ErrPanic vector_kinds ns g v). naive_solver. }
  set (mr := if redis then clearNamespaceRedisGeneration ns g else ret []) in *. clearbody mr.
  set (mq := if qdrant then clearNamespaceQdrantGeneration ns g else ret []) in *. clearbody mq.
  specialize (Hr w1). destruct (mr w1) as [e2 w2]. destruct Hr as (H2 & Hp2 & Hf2). go.
  pose proof (within_erased (is_ns ns) _ none (redis_owned ns g) (qdrant_owned ns g) _ _ (λ _ h, h) ltac:(done) H2) as H2'.
  destruct e2 as [|x e2]; go.
  2: { split; [by etransitivity|]. split; [done|]. intros H0. by apply Hf2, (er_calm _ _ _ _ _ H1). }
  specialize (Hq w2). destruct (mq w2) as [e3 w3]. destruct Hq as (H3 & Hp3 & Hf3). go.
  pose proof (within_erased (is_ns ns) none _ (redis_owned ns g) (qdrant_owned ns g) _ _ ltac:(done) (λ _ h, h) H3) as H3'.
  assert (erased (is_ns ns) (redis_owned ns g) (qdrant_owned ns g) w w3) as H123
    by (etransitivity; [exact H1|]; by etransitivity).
  destruct e3 as [|x e3]; go; (split; [done|]); (split; [|intros H0; try done]).
  - intros _. split; [done|]. split; [|intros Ht; eapply no_keys_within; [by apply Hp2|done]|auto].
    intros t. rewrite (wi_pg _ _ _ _ H3), (wi_pg _ _ _ _ H2). apply Hrows.
  - done.
  - apply Hf3, (wi_calm _ _ _ _ H2), (er_calm _ _ _ _ _ H1), H0.
Qed.

(** ** Verification *)

(** [m] only reads; it returns nil only when [P] holds of the stores, and always
    when [P] holds and no call fails. *)
Definition inspects (m : M W error) (P : Stores → Prop) : Prop :=
  ∀ w, let '(e, w') := m w in
  same_but_faults w w' ∧ (w_faults w = [] → w' = w) ∧ (e = [] → P (w_ext w)) ∧ (w_faults w = [] → P (w_ext w) → e = []).

Lemma inspects_seq m1 m2 P Q :
  inspects m1 P → inspects m2 Q →
  inspects (let! err := m1 in if negb (nil_err err) then ret err else m2) (λ s, P s ∧ Q s).
Proof.
  intros H1 H2 w. unfold bind. specialize (H1 w). destruct (m1 w) as [e w1]. destruct H1 as (Hs & Hf & Hp & Hc).
  destruct e as [|x e]; go; [|split_and!; try done; intros H0 [HP _]; by apply Hc].
  specialize (H2 w1). destruct (m2 w1) as [e w2]. destruct H2 as (Hs2 & Hf2 & Hp2 & Hc2).
  rewrite (sbf_ext _ _ Hs) in *. split_and!; [by etransitivity| |naive_solver|].
  - intros H0. rewrite Hf2; auto. by rewrite Hf.
  - intros H0 [_ HQ]. apply Hc2; [by rewrite Hf|done].
Qed.

Lemma inspects_iff m P Q : (∀ s, P s ↔ Q s) → inspects m P → inspects m Q.
Proof. intros HPQ Hm w. specialize (Hm w). destruct (m w) as [e w']. rewrite <- !HPQ. done. Qed.

Lemma inspects_true : inspects (ret []) (λ _, True).
Proof. by intros w. Qed.

(** A read that reports [bad] when the stores answer [true]. *)
Lemma inspects_read (f : Stores → bool) (bad : string) (m : M W error) (P : Stores → Prop) :
  inspects m P →
  inspects (let! ' (b, err) := call (false, [ErrDriver]) (let! s := gets w_ext in ret (f s, [])) in
            if negb (nil_err err) then ret err else if b : bool then ret [bad] else m)
    (λ s, f s = false ∧ P s).
Proof.
  intros Hm w. unfold bind at 1.
  match goal with |- context [call ?b ?m w] => destruct (call_spec b m w) as (w1 & Hs & Hf & [[Hne ->]| ->]) end; go; [done|].
  unfold bind, gets. go. rewrite (sbf_ext _ _ Hs). destruct (f (w_ext w)) eqn:E; go.
  { split_and!; try done. by intros _ [? _]. }
  specialize (Hm w1). destruct (m w1) as [e w2]. destruct Hm as (Hs2 & Hf2 & Hp2 & Hc2).
  rewrite (sbf_ext _ _ Hs) in *. split_and!; [by etransitivity| |naive_solver|].
  - intros H0. rewrite Hf2; auto. by rewrite Hf.
  - intros H0 [_ HQ]. apply Hc2; [by rewrite Hf|done].
Qed.

Lemma verify_kinds_inspects kinds ns g :
  ns ≠ "" → (1 <= g)%Z → (∀ k, k ∈ kinds → k ∈ vector_kinds) →
  inspects (verify_kinds kinds ns g) (λ s, ∀ c, c ∈ st_qdrant s → existsb (kind_owned ns g c) kinds = false).
Proof.
  intros Hns Hg. induction kinds as [|kind kinds IH]; intros Hk; simpl.
  { eapply inspects_iff; [|apply inspects_true]. done. }
  destruct (name_exists kind ns g) as [n Hn]; [done|done| |].
  { apply vector_kind_store, Hk. set_solver. }
  unfold try_name. rewrite Hn.
  eapply inspects_iff; [|apply (inspects_read (λ s, bool_decide (n ∈ st_qdrant s)) ErrCollectionRemains)]; [|apply IH; set_solver].
  intros s. cbn beta. rewrite bool_decide_eq_false.
  assert (∀ c, kind_owned ns g c kind = bool_decide (n = c)) as Hko by (intros c; unfold kind_owned; by rewrite Hn).
  split.
  - intros [Hno Hr] c Hc. rewrite Hko, (Hr c Hc), orb_false_r. apply bool_decide_eq_false. by intros <-.
  - intros Hr. split.
    + intros Hc. specialize (Hr n Hc). rewrite Hko, bool_decide_true in Hr by done. done.
    + intros c Hc. specialize (Hr c Hc). by apply orb_false_iff in Hr as [_ ?].
Qed.

(** What the two reads of [verify_redis] find. *)
Lemma redis_reads_absent ns g t s c keys :
  PhysicalName KindTrending ns g = inl t → PhysicalName KindEmbedStream ns g = inl s →
  PhysicalName KindRecommendationCache ns g = inl c →
  (∀ k, k ∈ keys → redis_owned ns g k = false) ↔
  negb (Z.of_nat (length (filter (λ k, k ∈ keys) [t; s])) =? 0)%Z
    || negb (bool_decide (matching (c +:+ ":*") keys = [])) = false.
Proof.
  intros Ht Hs Hc. rewrite orb_false_iff, !negb_false_iff, Z.eqb_eq, bool_decide_eq_true.
  assert (∀ k, redis_owned ns g k = bool_decide (k = t) || bool_decide (k = s) || String.prefix (c +:+ ":") k) as Ho.
  { intros k. unfold redis_owned. by rewrite Ht, Hs, Hc. }
  split.
  - intros Hk. split.
    + rewrite list_filter_none; [done|]. intros k Hin Hkk%Hk. rewrite Ho in Hkk. btests. set_solver.
    + destruct (matching (c +:+ ":*") keys) as [|k l] eqn:E; [done|]. exfalso.
      assert (k ∈ matching (c +:+ ":*") keys) as Hin by (rewrite E; set_solver).
      apply (matching_cache ns g) in Hin as [Hin Hp]; [|done]. apply Hk in Hin. rewrite Ho, Hp, orb_true_r in Hin. done.
  - intros [Hl Hm] k Hk. rewrite Ho, !orb_false_iff, !bool_decide_eq_false. split_and!.
    + intros ->. rewrite filter_cons_True in Hl by done. simpl in Hl. lia.
    + intros ->. destruct (filter (λ k, k ∈ keys) [t; s]) as [|x l] eqn:E; [|simpl in Hl; lia].
      assert (s ∈ filter (λ k, k ∈ keys) [t; s]) as Hin by (apply list_elem_of_filter; set_solver).
      rewrite E in Hin. by apply elem_of_nil in Hin.
    + destruct (String.prefix (c +:+ ":") k) eqn:E; [|done]. exfalso.
      assert (k ∈ matching (c +:+ ":*") keys) as Hin by (by apply (matching_cache ns g)).
      rewrite Hm in Hin. by apply elem_of_nil in Hin.
Qed.

Lemma verify_redis_inspects ns g :
  ns ≠ "" → (1 <= g)%Z →
  inspects (verify_redis ns g) (λ s, ∀ k, k ∈ st_redis s → redis_owned ns g k = false).
Proof.
  intros Hns Hg w. destruct (redis_names _ _ Hns Hg) as (t & s & c & Ht & Hs & Hc).
  unfold verify_redis, try_name. rewrite Ht, Hs, Hc. unfold bind at 1, redis_Exists.
  match goal with |- context [call ?b ?m w] => destruct (call_spec b m w) as (w1 & Hs1 & Hf1 & [[Hne ->]| ->]) end; go; [done|].
  unfold bind, gets. go. unfold scan_any.
  match goal with |- context [call ?b ?m w1] => destruct (call_spec b m w1) as (w2 & Hs2 & Hf2 & [[Hne ->]| ->]) end; go.
  all: assert (same_but_faults w w2) as Hs3 by (by etransitivity).
  all: assert (w_faults w = [] → w2 = w) as Hf3 by (intros H0; rewrite Hf2; [auto|by rewrite Hf1]).
  { split_and!; try done. intros H0. by rewrite Hf1 in Hne. }
  unfold bind, gets. go. rewrite (sbf_ext _ _ Hs3), (sbf_ext _ _ Hs1).
  pose proof (redis_reads_absent ns g t s c (st_redis (w_ext w)) Ht Hs Hc) as Hiff.
  destruct (_ || _) eqn:E; go; (split; [done|]); (split; [done|]); (split; [intros He|intros H0 HP]).
  - done.
  - apply Hiff in HP. congruence.
  - by apply Hiff.
  - done.
Qed.

(** What the verification establishes. *)
Definition absent (redis qdrant : bool) (ns : string) (g : Z) (s : Stores) : Prop :=
  rows_of ns (st_pg s TNamespaceConfigs) = [] ∧
  (redis = true → ∀ k, k ∈ st_redis s → redis_owned ns g k = false) ∧
  (qdrant = true → ∀ c, c ∈ st_qdrant s → qdrant_owned ns g c = false).

Lemma verifyNamespaceAbsent_inspects redis qdrant ns g :
  ns ≠ "" → (1 <= g)%Z → inspects (verifyNamespaceAbsent redis qdrant ns g) (absent redis qdrant ns g).
Proof.
  intros Hns Hg. eapply inspects_iff; cycle 1.
  - apply (inspects_read (λ s, negb (bool_decide (rows_of ns (st_pg s TNamespaceConfigs) = []))) ErrConfigRemains).
    apply (inspects_seq (if redis then verify_redis ns g else ret []) (if qdrant then verify_kinds vector_kinds ns g else ret [])
      (λ s, redis = true → ∀ k, k ∈ st_redis s → redis_owned ns g k = false)
      (λ s, qdrant = true → ∀ c, c ∈ st_qdrant s → qdrant_owned ns g c = false)).
    + destruct redis; [|eapply inspects_iff; [|apply inspects_true]; done].
      eapply inspects_iff; [|by apply verify_redis_inspects]. naive_solver.
    + destruct qdrant; [|eapply inspects_iff; [|apply inspects_true]; done].
      eapply inspects_iff; [|by apply verify_kinds_inspects]. naive_solver.
  - intros s. cbn beta. by rewrite negb_false_iff, bool_decide_eq_true.
Qed.

Lemma wiped_absent redis qdrant ns g w : wiped redis qdrant ns g w → absent redis qdrant ns g (w_ext w).
Proof. intros []. split; [done|]. auto. Qed.

(** ** The flush of everything *)

Definition flush_prefixes : list string := ["trending:"; "catalog:embed:"; "rec:"].
Definition flushable (k : string) : bool := existsb (λ p, String.prefix p k) flush_prefixes.

Lemma flush_batch_spec K batch w :
  (∀ k, k ∈ batch → K k = true) →
  let '(e, w') := flush_batch batch w in
  within K none w w' ∧ (w_faults w = [] → e = []) ∧ (e = [] → st_redis (w_ext w') = st_redis (w_ext w) ∖ list_to_set batch).
Proof.
  intros HK. unfold flush_batch. case_bool_decide as Hb; [|by apply redis_Del_spec].
  go. split; [done|]. split; [done|]. intros _. subst batch. set_solver.
Qed.

Lemma flush_scan_spec K left batch w :
  (∀ k, k ∈ left ++ batch → K k = true) →
  let '(e, w') := flush_scan left batch w in
  within K none w w' ∧ (w_faults w = [] → e = []) ∧ (e = [] → ∀ k, k ∈ left ++ batch → k ∉ st_redis (w_ext w')).
Proof.
  revert batch w. induction left as [|k left IH]; intros batch w HK; cbn [flush_scan].
  - match goal with |- context [call ?b ?m w] => destruct (call_spec b m w) as (w1 & Hs & Hf & [[Hne ->]| ->]) end.
    { split; [by apply within_core|]. done. }
    pose proof (flush_batch_spec K batch w1 HK) as H1. destruct (flush_batch batch w1) as [e w2].
    destruct H1 as (H1 & Hc & Hp). split; [etransitivity; [by apply within_core|done]|]. split.
    + intros H0. apply Hc. by rewrite Hf.
    + intros He k Hk. rewrite (Hp He). set_solver.
  - match goal with |- context [call ?b ?m w] => destruct (call_spec b m w) as (w1 & Hs & Hf & [[Hne ->]| ->]) end.
    { split; [by apply within_core|]. done. }
    pose proof (within_core K none _ _ Hs Hf) as H1. cbv zeta.
    destruct (flush_size <=? length (batch ++ [k]))%nat.
    + unfold bind. pose proof (flush_batch_spec K (batch ++ [k]) w1 ltac:(set_solver)) as H2.
      destruct (flush_batch (batch ++ [k]) w1) as [e w2]. destruct H2 as (H2 & Hc & Hp). destruct e as [|x e]; go.
      2: { split; [by etransitivity|]. split; [|done]. intros H0. apply Hc. by rewrite Hf. }
      specialize (IH [] w2 ltac:(set_solver)). destruct (flush_scan left [] w2) as [e w3]. destruct IH as (H3 & Hc3 & Hp3).
      split; [etransitivity; [exact H1|]; by etransitivity|]. split.
      * intros H0. apply Hc3, (wi_calm _ _ _ _ H2). by rewrite Hf.
      * intros He j Hj Hin. rewrite app_nil_r in Hp3. destruct (decide (j ∈ left)) as [Hl|Hl]; [by eapply Hp3|].
        apply (wi_redis _ _ _ _ H3) in Hin. rewrite (Hp eq_refl) in Hin. set_solver.
    + specialize (IH (batch ++ [k]) w1 ltac:(set_solver)). destruct (flush_scan left (batch ++ [k]) w1) as [e w2].
      destruct IH as (H2 & Hc & Hp). split; [by etransitivity|]. split; [intros H0; apply Hc; by rewrite Hf|].
      intros He j Hj. apply Hp; [done|set_solver].
Qed.

Lemma flush_patterns_spec ps w :
  (∀ p, p ∈ ps → glob_plain p = true ∧ p ∈ flush_prefixes) →
  let '(e, w') := flush_patterns ((λ p, p +:+ "*") <$> ps) w in
  within flushable none w w' ∧ (w_faults w = [] → e = []) ∧
  (e = [] → no_keys (λ k, existsb (λ p, String.prefix p k) ps) w').
Proof.
  revert w. induction ps as [|p ps IH]; intros w Hps; [by split_and!|]. cbn [fmap list_fmap flush_patterns].
  unfold bind, gets. go. destruct (Hps p) as [Hplain Hpre]; [set_solver|].
  assert (∀ k, k ∈ matching (p +:+ "*") (st_redis (w_ext w)) ↔ k ∈ st_redis (w_ext w) ∧ String.prefix p k = true) as Hm.
  { intros k. unfold matching. rewrite list_elem_of_filter, elem_of_elements, glob_prefix by done. tauto. }
  pose proof (flush_scan_spec flushable (matching (p +:+ "*") (st_redis (w_ext w))) [] w) as H1.
  destruct (flush_scan (matching (p +:+ "*") (st_redis (w_ext w))) [] w) as [e w1]. destruct H1 as (H1 & Hc1 & Hp1).
  { intros k. rewrite app_nil_r, Hm. intros [_ Hk]. apply existsb_exists. exists p. split; [by apply list_elem_of_In|done]. }
  destruct e as [|x e]; go; [|by split_and!].
  specialize (IH w1 ltac:(intros; apply Hps; set_solver)). destruct (flush_patterns _ w1) as [e w2]. destruct IH as (H2 & Hc2 & Hp2).
  split; [by etransitivity|]. split; [intros H0; apply Hc2, (wi_calm _ _ _ _ H1), H0|].
  intros He k Hk. apply orb_false_iff. split; [|by apply Hp2].
  destruct (String.prefix p k) eqn:E; [|done]. exfalso. apply (wi_redis _ _ _ _ H2) in Hk.
  apply (Hp1 eq_refl k); [|done]. rewrite app_nil_r, Hm. split; [|done]. by apply (wi_redis _ _ _ _ H1).
Qed.

Lemma flushAllNamespaceRedis_cleans : cleans flushAllNamespaceRedis flushable none (no_keys flushable).
Proof.
  intros w. pose proof (flush_patterns_spec flush_prefixes w) as H1.
  change (flush_patterns _ w) with (flushAllNamespaceRedis w) in H1.
  destruct (flushAllNamespaceRedis w) as [e w']. destruct H1 as (? & ? & ?); [|auto].
  intros p Hp. split; [|done]. by repeat (apply elem_of_cons in Hp as [->|Hp]; [done|]); apply elem_of_nil in Hp.
Qed.

Lemma flush_collections_spec names w :
  let '(e, w') := flush_collections names w in
  within none ours w w' ∧ (w_faults w = [] → e = []) ∧
  (e = [] → ∀ c, c ∈ names → ours c = true → c ∉ st_qdrant (w_ext w')).
Proof.
  revert w. induction names as [|n names IH]; intros w; simpl; [by split_and!; try set_solver|].
  destruct (ours n) eqn:Hn.
  - unfold bind. pose proof (qdrant_Delete_spec ours n w Hn) as H1.
    destruct (qdrant_DeleteCollection n w) as [e w1]. destruct H1 as (H1 & Hc1 & Hp1). destruct e as [|x e]; go; [|done].
    specialize (IH w1). destruct (flush_collections names w1) as [e w2]. destruct IH as (H2 & Hc2 & Hp2).
    split; [by etransitivity|]. split; [intros H0; apply Hc2, (wi_calm _ _ _ _ H1), H0|].
    intros He c Hc Ho Hin. destruct (decide (c ∈ names)) as [Hl|Hl]; [by eapply Hp2|].
    apply (wi_qdrant _ _ _ _ H2) in Hin. rewrite (Hp1 eq_refl) in Hin. set_solver.
  - specialize (IH w). destruct (flush_collections names w) as [e w2]. destruct IH as (H2 & Hc2 & Hp2).
    split; [done|]. split; [done|]. intros He c Hc Ho. apply Hp2; [done| |done].
    apply elem_of_cons in Hc as [->|Hc]; [congruence|done].
Qed.

Lemma flushAllNamespaceQdrant_cleans : cleans flushAllNamespaceQdrant none ours (no_collections ours).
Proof.
  intros w. unfold flushAllNamespaceQdrant, qdrant_ListCollections, bind at 1.
  match goal with |- context [call ?b ?m w] => destruct (call_spec b m w) as (w1 & Hs & Hf & [[Hne ->]| ->]) end; go.
  { split; [by apply within_core|]. done. }
  unfold bind, gets. go. pose proof (flush_collections_spec (elements (st_qdrant (w_ext w1))) w1) as H1.
  destruct (flush_collections _ w1) as [e w2]. destruct H1 as (H1 & Hc & Hp).
  split; [etransitivity; [by apply within_core|done]|]. split; [|intros H0; apply Hc; by rewrite Hf].
  intros He c Hin. destruct (ours c) eqn:E; [|done]. exfalso. apply (Hp He c); [|done|done].
  apply elem_of_elements. by apply (wi_qdrant _ _ _ _ H1).
Qed.
End wipe.

(** ** What the application owns is what the flush removes *)

Lemma prefix_app p s : String.prefix p (p +:+ s) = true.
Proof.
  induction p as [|c p IH]; [by destruct s|]. rewrite string_app_cons. simpl.
  destruct (Ascii.ascii_dec c c); [done|congruence].
Qed.

Lemma prefix_iff p s : String.prefix p s = true ↔ ∃ t, s = p +:+ t.
Proof.
  split; [|intros [t ->]; apply prefix_app]. revert s. induction p as [|c p IH]; intros s Hs; [by exists s|].
  destruct s as [|d s]; [done|]. simpl in Hs. destruct (Ascii.ascii_dec c d) as [->|]; [|done].
  destruct (IH s Hs) as [t ->]. by exists t.
Qed.

Lemma has_suffix_app s t : has_suffix t (s +:+ t) = true.
Proof.
  induction s as [|c s IH].
  - rewrite string_app_nil_l. destruct t; [done|]. cbn [has_suffix]. by rewrite bool_decide_true.
  - rewrite string_app_cons. simpl. by rewrite IH, orb_true_r.
Qed.

Lemma redis_owned_flushable ns g k : redis_owned ns g k = true → flushable k = true.
Proof.
  unfold redis_owned. rewrite !PhysicalName_cases. destruct (decide (ns = "")); [done|].
  destruct (decide (g < 1)%Z); [done|]. cbn [kind_store]. intros Ho. unfold flushable, flush_prefixes. cbn [existsb].
  apply orb_true_iff in Ho as [Ho|Ho]; [apply orb_true_iff in Ho as [Ho|Ho]|].
  - apply bool_decide_eq_true in Ho as ->. by rewrite (prefix_app "trending:").
  - apply bool_decide_eq_true in Ho as ->. rewrite (prefix_app "catalog:embed:"). by rewrite orb_true_r.
  - apply prefix_iff in Ho as [t ->].
    replace ((("rec:v3:" +:+ b64_encode (qualify ":" ns g)) +:+ ":") +:+ t)
      with ("rec:" +:+ ("v3:" +:+ b64_encode (qualify ":" ns g) +:+ ":" +:+ t)) by (by rewrite <- !string_app_assoc).
    rewrite (prefix_app "rec:"), !orb_true_r. done.
Qed.

Lemma qdrant_owned_ours ns g c : qdrant_owned ns g c = true → ours c = true.
Proof.
  unfold qdrant_owned. rewrite existsb_exists. intros (kind & Hin & Ho). unfold kind_owned in Ho.
  rewrite PhysicalName_cases in Ho. destruct (decide (ns = "")); [done|]. destruct (decide (g < 1)%Z); [done|].
  unfold ours. apply existsb_exists. exists ("_" +:+ kind_string kind). apply list_elem_of_In in Hin.
  repeat (apply elem_of_cons in Hin as [->|Hin];
    [split; [apply list_elem_of_In; unfold qdrantCollectionSuffixes; set_solver|];
     cbn [kind_store] in Ho; apply bool_decide_eq_true in Ho as <-; apply has_suffix_app|]).
  by apply elem_of_nil in Hin.
Qed.

