(* ===== verification/AdminLifecycle.v ===== *)
(** * Deleting a namespace and resetting the application

    [DeleteNamespace], [ResetApp], [DeleteDemoData] and their helpers of
    [internal/admin/service.go], over the lifecycle sections, the ledger, the
    compute locks and the stores. [Error] is the text Go's [err.Error()]
    returns, which only ends up in the ledger's [last_error]. *)

From stdpp Require Import base tactics gmap sets strings list sorting.
From Stdlib Require Import ZArith Lia Ascii.
From S2P Require Import Prelude GoLib Keyset NsNames NsLedger NsService Janitor Stores ComputeLocks Wipe.

(** [as_lifecycle], [as_job], [as_redis] and [as_qdrant] may be nil; a job may
    have been built without locks. *)
Record AdminService := {
  as_lifecycle : option Service;
  as_job : option bool;
  as_redis : bool;
  as_qdrant : bool;
}.

Record NamespaceDeleteResponse := {
  nd_namespace : string;
  nd_events_deleted : Z;
}.

Record ResetAppResponse := {
  ra_namespaces_deleted : Z;
  ra_events_deleted : Z;
  ra_namespaces : list string;
}.

Class ErrorText := { Error : error → string }.

Section admin.
Context `{RedisGlob, PgHash, Collation, ErrorText}.

Definition clearNamespaceEverywhere (s : AdminService) (ns : string) : M W (Z * error) :=
  clearNamespaceEverywhereGeneration (as_redis s) (as_qdrant s) ns 1.

(** Run [m] between taking a lock and its deferred release. *)
Definition holding {A} (lock : option (M W (ComputeRelease + error))) (bad : error → M W A) (m : M W A) : M W A :=
  match lock with
  | None => m
  | Some acquire =>
      let! r := acquire in
      match r with
      | inr lockErr => bad lockErr
      | inl release => let! out := m in run_release release ;;! ret out
      end
  end.

Definition deleteNamespaceGeneration (s : AdminService) (ns : string) (g : Z) : M W (Z * error) :=
  holding ((λ locks, job_LockNamespace locks ns) <$> as_job s) (λ err, ret (0%Z, err)) (
    let! ' (deleted, err) := clearNamespaceEverywhereGeneration (as_redis s) (as_qdrant s) ns g in
    if negb (nil_err err) then ret (0%Z, err)
    else
      let! err := verifyNamespaceAbsent (as_redis s) (as_qdrant s) ns g in
      if negb (nil_err err) then ret (0%Z, err) else ret (deleted, [])).

(** The callback of the exclusive section. *)
Definition delete_section (s : AdminService) (ns : string) : callback (X := Stores) (option NamespaceDeleteResponse) :=
  λ _ current,
    if bool_decide (nl_state current = StateDeleted) then ret (None, [])
    else
      let! r := repo_StartDelete ns in
      match r with
      | (Some deleting, []) =>
          let! ' (deleted, cleanupErr) := deleteNamespaceGeneration s ns (nl_generation deleting) in
          if negb (nil_err cleanupErr) then
            (* a failure to record is only logged *)
            repo_RecordNamespaceError ns (nl_generation deleting) (Error cleanupErr) ;;!
            ret (None, cleanupErr)
          else
            let! completeErr := repo_CompleteDelete ns (nl_generation deleting) in
            if negb (nil_err completeErr) then
              repo_RecordNamespaceError ns (nl_generation deleting) (Error completeErr) ;;!
              ret (None, completeErr)
            else ret (Some {| nd_namespace := ns; nd_events_deleted := deleted |}, [])
      | (_, startErr) => ret (None, startErr)
      end.

Definition DeleteNamespace (s : AdminService) (ctx : Ctx) (ns : string) : M W (option NamespaceDeleteResponse * error) :=
  let! ' (cfg, err) := repo_GetConfig ns in
  if negb (nil_err err) then ret (None, err)
  else
    match as_lifecycle s with
    | Some lifecycle =>
        let! ' (response, err) := WithNamespaceExclusive None lifecycle ctx ns (delete_section s ns) in
        if errors_is err ErrNamespaceNotFound then ret (None, [])
        else if negb (nil_err err) then ret (None, err)
        else ret (response, [])
    | None =>
        holding ((λ locks, job_LockNamespace locks ns) <$> as_job s) (λ err, ret (None, err)) (
          let! ' (deleted, err) := clearNamespaceEverywhere s ns in
          if negb (nil_err err) then ret (None, err)
          else if cfg : bool then ret (Some {| nd_namespace := ns; nd_events_deleted := deleted |}, [])
          else ret (None, []))
    end.

Definition demoNamespace : string := "demo".

Definition DeleteDemoData (s : AdminService) : M W (option NamespaceDeleteResponse * error) :=
  let! ' (deleted, err) := clearNamespaceEverywhere s demoNamespace in
  if negb (nil_err err) then ret (None, err)
  else ret (Some {| nd_namespace := demoNamespace; nd_events_deleted := deleted |}, []).

(** ** Reset *)

(** Fence every namespace; the listed lifecycles get the fenced generation. *)
Fixpoint fence_all (todo : list NamespaceLifecycle) : M W (list (string * Z) * error) :=
  match todo with
  | [] => ret ([], [])
  | l :: rest =>
      let! r := repo_StartDelete (nl_namespace l) in
      match r with
      | (Some deleting, []) =>
          let! ' (more, err) := fence_all rest in
          ret ((nl_namespace l, nl_generation deleting) :: more, err)
      | (_, startErr) => ret ([], startErr)
      end
  end.

Fixpoint finish_all (s : AdminService) (fenced : list (string * Z)) : M W error :=
  match fenced with
  | [] => ret []
  | (ns, g) :: rest =>
      let! err := verifyNamespaceAbsent (as_redis s) (as_qdrant s) ns g in
      if negb (nil_err err) then ret err
      else
        let! err := repo_CompleteDelete ns g in
        if negb (nil_err err) then ret err else finish_all s rest
  end.

(** What both branches do under the maintenance lock. *)
Definition wipe_all (s : AdminService) : M W (Z * Z * error) :=
  let! ' (eventsDeleted, namespacesDeleted, err) := TruncateAllNamespaceData in
  if negb (nil_err err) then ret (0%Z, 0%Z, err)
  else
    let! err := (if as_redis s then flushAllNamespaceRedis else ret []) in
    if negb (nil_err err) then ret (0%Z, 0%Z, err)
    else
      let! err := (if as_qdrant s then flushAllNamespaceQdrant else ret []) in
      if negb (nil_err err) then ret (0%Z, 0%Z, err)
      else ret (eventsDeleted, namespacesDeleted, []).

Definition fail_reset (err : error) : M W (option ResetAppResponse * error) :=
  repo_RecordResetError (Error err) ;;! ret (None, err).

(** The part under the maintenance lock. *)
Definition reset_body (s : AdminService) (fenced : list (string * Z)) : M W (option ResetAppResponse * error) :=
  let! ' (eventsDeleted, namespacesDeleted, err) := wipe_all s in
  if negb (nil_err err) then fail_reset err
  else
    let! err := finish_all s fenced in
    if negb (nil_err err) then fail_reset err
    else
      let! err := repo_CompleteReset in
      if negb (nil_err err) then fail_reset err
      else ret (Some {| ra_namespaces_deleted := namespacesDeleted; ra_events_deleted := eventsDeleted;
                        ra_namespaces := fenced.*1 |}, []).

Definition reset_section (s : AdminService) : M W (option ResetAppResponse * error) :=
  let! err := repo_StartReset in
  if negb (nil_err err) then ret (None, err)
  else
    let! ' (lifecycles, err) := repo_ListNonDeleted in
    if negb (nil_err err) then fail_reset err
    else
      let! ' (fenced, err) := fence_all lifecycles in
      if negb (nil_err err) then fail_reset err
      else
        holding (job_LockAllNamespaces <$> as_job s) fail_reset (reset_body s fenced).

Definition name_le (a b : string) : Prop := coll_ltb b a = false.

#[local] Instance name_le_dec a b : Decision (name_le a b).
Proof. unfold name_le. apply _. Defined.

(** [ListNamespaces]: the configured namespaces, in the database's order. *)
Definition repo_ListNamespaces : M W (list string * error) :=
  call ([], [ErrDriver]) (
    let! s := gets w_ext in
    ret (merge_sort name_le (st_pg s TNamespaceConfigs).*1, [])).

Definition ResetApp (s : AdminService) (ctx : Ctx) : M W (option ResetAppResponse * error) :=
  match as_lifecycle s with
  | Some _ => WithGlobalExclusive None ctx (λ _ _, reset_section s)
  | None =>
      let! ' (names, err) := repo_ListNamespaces in
      if negb (nil_err err) then ret (None, err)
      else
        holding (job_LockAllNamespaces <$> as_job s) (λ err, ret (None, err)) (
          let! ' (eventsDeleted, nsDeleted, err) := wipe_all s in
          if negb (nil_err err) then ret (None, err)
          else ret (Some {| ra_namespaces_deleted := nsDeleted; ra_events_deleted := eventsDeleted;
                            ra_namespaces := names |}, []))
  end.

(** ** Frames *)

Definition lock_only (w w' : W) : Prop := ∃ l, relocked l w w'.

#[export] Instance lock_only_preorder : PreOrder lock_only.
Proof.
  split.
  - intros w. exists (st_compute (w_ext w)). split; try done. by rewrite set_st_compute_same.
  - intros w1 w2 w3 [l1 H1'] [l2 H2']. exists l2. by eapply relocked_trans.
Qed.

Lemma lock_only_erased D K C w w' : lock_only w w' → erased D K C w w'.
Proof. intros [l []]. split; auto; rewrite rl_ext; done. Qed.

Lemma compute_call_lock_only {A} (bad good : A) f w : lock_only w (call bad (on_compute f ;;! ret good) w).2.
Proof.
  pose proof (call_on_compute bad good f w) as Hc. destruct (call bad _ w) as [a w'].
  destruct Hc as [(_ & _ & Hr)|[_ Hr]]; by eexists.
Qed.

Lemma compute_close_lock_only s w : lock_only w (compute_close s w).2.
Proof. eexists. apply on_compute_relocked. Qed.

Lemma releaseMaintenanceLock_lock_only s b w : lock_only w (releaseMaintenanceLock s b w).2.
Proof.
  unfold releaseMaintenanceLock, bind. etransitivity; [apply (compute_call_lock_only [ErrDriver] [] (drop_one (s, maintenance_key, b)))|].
  fold (compute_unlock s maintenance_key b). destruct (compute_unlock s maintenance_key b w) as [[|] w']; go; [done|].
  apply compute_close_lock_only.
Qed.

Lemma run_release_lock_only r w : lock_only w (run_release r w).2.
Proof.
  destruct r as [|s ns|s]; cbn [run_release]; [done| |apply releaseMaintenanceLock_lock_only]. unfold bind.
  etransitivity; [apply (compute_call_lock_only [ErrDriver] [] (drop_one (s, compute_key ns, false)))|].
  fold (compute_unlock s (compute_key ns) false). destruct (compute_unlock s (compute_key ns) false w) as [e1 w1]. go.
  etransitivity; [apply (compute_call_lock_only [ErrDriver] [] (drop_one (s, maintenance_key, true)))|].
  fold (compute_unlock s maintenance_key true). destruct (compute_unlock s maintenance_key true w1) as [e2 w2]. go.
  destruct (_ || _); [apply compute_close_lock_only|done].
Qed.

Lemma pool_acquire_lock_only (w : W) : lock_only w (pool_acquire w).2 ∧ (w_faults w = [] → is_Some (pool_acquire w).1).
Proof.
  pose proof (pool_acquire_spec w) as Hp. destruct (pool_acquire w) as [c w']. destruct Hp as [Hr Hc].
  split; [by eexists|]. intros Hf. destruct Hc as [[_ Hn]| ->]; [done|by eexists].
Qed.

Lemma compute_lock_lock_only s k b w : lock_only w (compute_lock s k b w).2 ∧ (w_faults w = [] → (compute_lock s k b w).1 = []).
Proof.
  pose proof (call_on_compute [ErrDriver] [] (cons (s, k, b)) w) as Hc. fold (compute_lock s k b) in Hc.
  destruct (compute_lock s k b w) as [e w']. destruct Hc as [(_ & Hne & Hr)|[-> Hr]]; (split; [by eexists|done]).
Qed.

(** An acquisition touches only the compute locks and succeeds when nothing fails. *)
Definition acquires (m : M W (ComputeRelease + error)) : Prop :=
  ∀ w, lock_only w (m w).2 ∧ (w_faults w = [] → is_Some (match (m w).1 with inl r => Some r | inr _ => None end)) ∧
    ∀ e, (m w).1 = inr e → e ≠ [].

Lemma pool_acquires (k : nat → M W (ComputeRelease + error)) :
  (∀ s, acquires (k s)) → acquires (let! c := pool_acquire in match c with None => ret (inr [ErrDriver]) | Some s => k s end).
Proof.
  intros Hk w. destruct (pool_acquire_lock_only w) as [Hl Hs]. unfold bind.
  destruct (pool_acquire w) as [[s|] w1]; go; cbn [fst snd] in *.
  - destruct (Hk s w1) as (Hl2 & Hs2 & He). split; [by etransitivity|]. split; [|done]. intros Hf. apply Hs2.
    destruct Hl as [l Hl]. by apply (rl_calm _ _ _ Hl).
  - split; [done|]. split; [|by intros e [= <-]]. intros Hf. by apply Hs in Hf as [? ?].
Qed.

Lemma lock_acquires s k b (next : M W (ComputeRelease + error)) (bad : M W ()) :
  (∀ w, lock_only w (bad w).2) → acquires next →
  acquires (let! err := compute_lock s k b in if negb (nil_err err) then bad ;;! ret (inr err) else next).
Proof.
  intros Hb Hn w. destruct (compute_lock_lock_only s k b w) as [Hl Hs]. unfold bind.
  destruct (compute_lock s k b w) as [[|x e] w1]; go; cbn [fst snd] in *.
  - destruct (Hn w1) as (Hl2 & Hs2 & He). split; [by etransitivity|]. split; [|done]. intros Hf. apply Hs2.
    destruct Hl as [l Hl]. by apply (rl_calm _ _ _ Hl).
  - split; [etransitivity; [exact Hl|apply Hb]|]. split; [intros Hf; by apply Hs in Hf|by intros ? [= <-]].
Qed.

Lemma ret_acquires r : acquires (ret (inl r)).
Proof. intros w. split; [done|]. split; [by eexists|done]. Qed.

Lemma job_LockNamespace_acquires locks ns : acquires (job_LockNamespace locks ns).
Proof.
  destruct locks; [|apply ret_acquires]. apply pool_acquires. intros s.
  apply (lock_acquires s maintenance_key true _ (ret tt)); [done|].
  apply (lock_acquires s (compute_key ns) false _ (releaseSharedMaintenanceLock s)); [|apply ret_acquires].
  intros w. apply releaseMaintenanceLock_lock_only.
Qed.

Lemma job_LockAllNamespaces_acquires locks : acquires (job_LockAllNamespaces locks).
Proof.
  destruct locks; [|apply ret_acquires]. apply pool_acquires. intros s.
  by apply (lock_acquires s maintenance_key false _ (ret tt)), ret_acquires.
Qed.

(** [holding] runs its body between two changes of the compute locks, or refuses. *)
Lemma holding_cases {A} lock (bad : error → M W A) (m : M W A) w :
  (∀ acquire, lock = Some acquire → acquires acquire) →
  (∃ w1 e, lock_only w w1 ∧ w_faults w ≠ [] ∧ e ≠ [] ∧ holding lock bad m w = bad e w1) ∨
  (∃ w1 w2 out, lock_only w w1 ∧ m w1 = (out, w2) ∧ ∃ w3, lock_only w2 w3 ∧ holding lock bad m w = (out, w3)).
Proof.
  intros Hl. unfold holding. destruct lock as [acquire|].
  - destruct (Hl acquire eq_refl w) as (H1' & H2' & H3'). unfold bind. destruct (acquire w) as [[release|e] w1]; go; cbn [fst snd] in *.
    + right. destruct (m w1) as [out w2] eqn:E. exists w1, w2, out. split; [done|]. split; [done|].
      eexists. split; [apply (run_release_lock_only release)|]. done.
    + left. exists w1, e. split; [done|]. split; [|by auto]. intros Hf. by apply H2' in Hf as [? ?].
  - right. destruct (m w) as [out w2] eqn:E. exists w, w2, out. split; [done|]. split; [done|]. by exists w2.
Qed.

Lemma deleteNamespaceGeneration_spec s ns g w :
  ns ≠ "" → (1 <= g)%Z →
  let '((n, e), w') := deleteNamespaceGeneration s ns g w in
  erased (is_ns ns) (redis_owned ns g) (qdrant_owned ns g) w w' ∧
  (e = [] → n = Z.of_nat (length (rows_of ns (st_pg (w_ext w) TEvents))) ∧ wiped (as_redis s) (as_qdrant s) ns g w') ∧
  (w_faults w = [] → e = []).
Proof.
  intros Hns Hg. unfold deleteNamespaceGeneration.
  match goal with |- context [holding ?l ?b ?m w] => destruct (holding_cases l b m w)
    as [(w1 & e & Hl & Hne & He & ->)|(w1 & w2 & out & Hl & Hm & w3 & Hl3 & ->)] end.
  { intros acquire Ha. apply fmap_Some in Ha as (locks & _ & ->). apply job_LockNamespace_acquires. }
  { go. split; [by apply lock_only_erased|]. done. }
  pose proof (lock_only_erased (is_ns ns) (redis_owned ns g) (qdrant_owned ns g) _ _ Hl) as E1.
  pose proof (lock_only_erased (is_ns ns) (redis_owned ns g) (qdrant_owned ns g) _ _ Hl3) as E3.
  assert (st_pg (w_ext w1) = st_pg (w_ext w)) as Hpg by (destruct Hl as [l []]; by rewrite rl_ext).
  unfold bind in Hm. pose proof (clearNamespaceEverywhere_spec (as_redis s) (as_qdrant s) ns g w1 Hns Hg) as HC.
  destruct (clearNamespaceEverywhereGeneration _ _ ns g w1) as [[n e] v1]. destruct HC as (E2 & Hp & Hf). rewrite Hpg in Hp.
  destruct e as [|x e]; cbn [fst snd nil_err negb ret bind] in Hm.
  2: { injection Hm as <- <-. split; [etransitivity; [exact E1|]; by etransitivity|]. split; [done|].
       intros H0'. by apply Hf, (er_calm _ _ _ _ _ E1). }
  destruct (Hp eq_refl) as [-> Hw]. pose proof (verifyNamespaceAbsent_inspects (as_redis s) (as_qdrant s) ns g Hns Hg v1) as HV.
  destruct (verifyNamespaceAbsent _ _ ns g v1) as [e v2]. destruct HV as (Hs & Hf2 & _ & Hok).
  pose proof (sbf_erased (is_ns ns) (redis_owned ns g) (qdrant_owned ns g) _ _ Hs Hf2) as E4.
  assert (erased (is_ns ns) (redis_owned ns g) (qdrant_owned ns g) w v2) as E5
    by (etransitivity; [exact E1|]; by etransitivity).
  destruct e as [|x e]; cbn [fst snd nil_err negb ret bind] in Hm; injection Hm as <- <-; (split; [by etransitivity|]); (split; [|intros H0'; try done]).
  - intros _. split; [done|]. eapply wiped_erased; [exact E3|]. eapply wiped_erased; [exact E4|done].
  - done.
  - apply Hok; [|by apply wiped_absent]. apply (er_calm _ _ _ _ _ E2), (er_calm _ _ _ _ _ E1), H0'.
Qed.

(** ** The ledger statements *)

(** [w'] is [w] with the ledger [l]. *)
Record ledgered (l : ledger) (w w' : W) : Prop := {
  lg_ledger : w_ledger w' = l;
  lg_now : w_now w' = w_now w;
  lg_adv : w_adv w' = w_adv w;
  lg_lockobjs : w_lockobjs w' = w_lockobjs w;
  lg_ext : w_ext w' = w_ext w;
  lg_calm : w_faults w = [] → w_faults w' = [];
}.

Lemma run_sql_spec {A} (failv : A) stmt (w : W) :
  ∃ w', (run_sql failv stmt w = (failv, w') ∧ w_faults w ≠ [] ∧ ledgered (w_ledger w) w w') ∨
        (run_sql failv stmt w = ((stmt (w_now w) (w_ledger w)).1, w') ∧ ledgered (stmt (w_now w) (w_ledger w)).2 w w').
Proof.
  unfold run_sql, bind, fault, pop_fault. simpl. destruct (w_faults w) as [|[] fs] eqn:Hf; simpl; eexists.
  - right. split; [done|]. by split.
  - left. split; [done|]. split; [done|]. split; try done. by rewrite Hf.
  - right. split; [done|]. split; try done. by rewrite Hf.
Qed.

Lemma repo_StartDelete_spec ns (w : W) r :
  l_rows (w_ledger w) !! ns = Some r → r_state r ≠ StateDeleted →
  let r' := {| r_generation := r_generation r; r_state := StateDeleting; r_activated_at := r_activated_at r;
               r_legacy := r_legacy r; r_last_error := None; r_updated_at := w_now w |} in
  ∃ w', (repo_StartDelete ns w = ((None, [ErrDriver]), w') ∧ w_faults w ≠ [] ∧ ledgered (w_ledger w) w w') ∨
        (repo_StartDelete ns w = ((Some (scanNamespace ns r'), []), w') ∧
         ledgered (set_rows (<[ns := r']>) (w_ledger w)) w w').
Proof.
  intros Hr Hs. cbv zeta. unfold repo_StartDelete, bind.
  destruct (run_sql_spec SqlRaise (λ now l, sql_start_delete now ns l) w) as (w' & [(-> & Hne & Hl)|[-> Hl]]); exists w'; [by left|right].
  revert Hl. unfold sql_start_delete. rewrite Hr. rewrite bool_decide_true by (destruct (r_state r); naive_solver). done.
Qed.

Lemma repo_CompleteDelete_spec ns g (w : W) r :
  l_rows (w_ledger w) !! ns = Some r → r_generation r = g → r_state r = StateDeleting →
  ∃ w', (repo_CompleteDelete ns g w = ([ErrDriver], w') ∧ w_faults w ≠ [] ∧ ledgered (w_ledger w) w w') ∨
        (repo_CompleteDelete ns g w = ([], w') ∧
         ledgered (set_rows (<[ns := {| r_generation := g; r_state := StateDeleted; r_activated_at := r_activated_at r;
           r_legacy := r_legacy r; r_last_error := None; r_updated_at := w_now w |}]>) (w_ledger w)) w w').
Proof.
  intros Hr Hg Hs. unfold repo_CompleteDelete, bind.
  match goal with |- context [run_sql ?f ?st w] => destruct (run_sql_spec f st w) as (w' & [(-> & Hne & Hl)|[-> Hl]]) end;
    exists w'; [by left|right]. revert Hl. unfold sql_complete_delete. rewrite Hr, bool_decide_true by done. cbn. by subst g.
Qed.

Lemma repo_RecordNamespaceError_spec ns g m (w : W) r :
  l_rows (w_ledger w) !! ns = Some r → r_state r = StateDeleting →
  ∃ r', r_generation r' = r_generation r ∧ r_state r' = StateDeleting ∧
    let w' := (repo_RecordNamespaceError ns g m w).2 in
    l_rows (w_ledger w') = <[ns := r']> (l_rows (w_ledger w)) ∧ ledgered {| l_rows := <[ns := r']> (l_rows (w_ledger w)); l_sys := l_sys (w_ledger w) |} w w'.
Proof.
  intros Hr Hs. unfold repo_RecordNamespaceError, exec_sql.
  match goal with |- context [run_sql ?f ?st w] => destruct (run_sql_spec f st w) as (w' & [(-> & Hne & Hl)|[-> Hl]]) end; cbn [snd].
  - exists r. split; [done|]. split; [done|]. rewrite insert_id by done. cbv zeta. rewrite (lg_ledger _ _ _ Hl). split; [done|].
    destruct (w_ledger w). exact Hl.
  - cbn [fst snd] in Hl. unfold sql_record_error in Hl. rewrite Hr in Hl. case_bool_decide.
    + eexists. split; [|split; [|cbv zeta; split; [by rewrite (lg_ledger _ _ _ Hl)|exact Hl]]]; done.
    + exists r. split; [done|]. split; [done|]. rewrite insert_id by done. cbv zeta. rewrite (lg_ledger _ _ _ Hl). split; [done|].
      destruct (w_ledger w). exact Hl.
Qed.

(** ** Deletion of one namespace *)

(** The stores [s'] are [s] less some rows of the namespaces [D], keys of [K] and
    collections of [C]. *)
Record shrunk (D K C : string → bool) (s s' : Stores) : Prop := {
  sh_pg : ∀ t, sublist (st_pg s' t) (st_pg s t);
  sh_pg_kept : ∀ t, filter (λ r, D r.1 = false) (st_pg s' t) = filter (λ r, D r.1 = false) (st_pg s t);
  sh_redis : st_redis s' ⊆ st_redis s;
  sh_redis_kept : ∀ k, k ∈ st_redis s → K k = false → k ∈ st_redis s';
  sh_qdrant : st_qdrant s' ⊆ st_qdrant s;
  sh_qdrant_kept : ∀ c, c ∈ st_qdrant s → C c = false → c ∈ st_qdrant s';
}.

Lemma shrunk_refl D K C s : shrunk D K C s s.
Proof. by split. Qed.

Lemma erased_shrunk D K C w w' : erased D K C w w' → shrunk D K C (w_ext w) (w_ext w').
Proof. intros []. by split. Qed.

(** What a deletion may do to the world: other namespaces keep their ledger rows
    and table rows, and every key and collection stays that carries no physical
    name of the generation; the generation does not move; while the row is active
    nothing has been removed; and the row reads deleted only over stores that
    hold nothing of the generation. *)
Record deletion (s : AdminService) (ns : string) (r : ns_row) (w w' : W) : Prop := {
  dl_others : ∀ n, n ≠ ns → l_rows (w_ledger w') !! n = l_rows (w_ledger w) !! n;
  dl_sys : l_sys (w_ledger w') = l_sys (w_ledger w);
  dl_stores : shrunk (is_ns ns) (redis_owned ns (r_generation r)) (qdrant_owned ns (r_generation r)) (w_ext w) (w_ext w');
  dl_row : ∃ r', l_rows (w_ledger w') !! ns = Some r' ∧ r_generation r' = r_generation r ∧
    (r_state r' = r_state r ∨ r_state r' ≠ StateActive) ∧
    (r_state r' = StateActive → w_ext w' = w_ext w) ∧
    (r_state r' = StateDeleted → r_state r = StateDeleted ∨ wiped (as_redis s) (as_qdrant s) ns (r_generation r) w');
}.

Lemma deletion_core s ns r w0 w w' w3 :
  core_same w0 w → core_same w' w3 → deletion s ns r w w' → deletion s ns r w0 w3.
Proof.
  intros [Hl _ Hx] [Hl3 _ Hx3] [Ho Hs Hst (r' & Hr' & Hg & H1' & H2' & H3')]. split.
  - intros n Hn. rewrite Hl3, <- Hl. auto.
  - congruence.
  - by rewrite Hx3, <- Hx.
  - exists r'. rewrite Hl3. split_and!; try done; [intros Ha; rewrite Hx3, <- Hx; auto|].
    intros Hd. destruct (H3' Hd) as [|Hw]; [by left|right]. by eapply wiped_ext.
Qed.

Lemma delete_section_spec s ns ctx r (w : W) :
  ns ≠ "" → (1 <= r_generation r)%Z → l_rows (w_ledger w) !! ns = Some r →
  let '((resp, e), w') := delete_section s ns ctx (scanNamespace ns r) w in
  deletion s ns r w w' ∧
  (∀ d, resp = Some d → e = [] ∧
     d = {| nd_namespace := ns; nd_events_deleted := Z.of_nat (length (rows_of ns (st_pg (w_ext w) TEvents))) |} ∧
     wiped (as_redis s) (as_qdrant s) ns (r_generation r) w' ∧
     ∃ r', l_rows (w_ledger w') !! ns = Some r' ∧ r_state r' = StateDeleted) ∧
  (w_faults w = [] → e = [] ∧ (r_state r ≠ StateDeleted → is_Some resp) ∧
     w_faults w' = [] ∧ w_adv w' = w_adv w ∧ w_lockobjs w' = w_lockobjs w).
Proof.
  intros Hns Hg Hr. unfold delete_section. cbn [nl_state scanNamespace]. case_bool_decide as Hd; go.
  { split; [|by split_and!]. split; [done|done|apply shrunk_refl|]. exists r. split_and!; auto. }
  unfold bind. destruct (repo_StartDelete_spec ns w r Hr Hd) as (w1 & [(-> & Hne & [Hl1 _ _ _ Hx1 _])|(-> & L1)]); go.
  { split; [|done]. split; [by rewrite Hl1|by rewrite Hl1|rewrite Hx1; apply shrunk_refl|].
    exists r. rewrite Hl1, Hx1. by split_and!; auto. }
  cbn [nl_generation scanNamespace r_generation]. destruct L1 as [Hl1 Hn1 Ha1 Ho1 Hx1 Hc1].
  pose proof (deleteNamespaceGeneration_spec s ns (r_generation r) w1 Hns Hg) as HD.
  destruct (deleteNamespaceGeneration s ns (r_generation r) w1) as [[n e] w2]. destruct HD as (E2 & Hp & Hf). go.
  pose proof (er_ledger _ _ _ _ _ E2) as Hl2. rewrite Hl1 in Hl2. pose proof (erased_shrunk _ _ _ _ _ E2) as Hsh. rewrite Hx1 in Hsh, Hp.
  match type of Hl2 with _ = set_rows (<[ns := ?d]>) _ => set (del := d) in * end.
  assert (l_rows (w_ledger w2) !! ns = Some del) as Hr2 by (rewrite Hl2; apply lookup_insert_eq).
  (* the outcomes differ in the row they leave *)
  assert (∀ w4 r', ledgered {| l_rows := <[ns := r']> (l_rows (w_ledger w2)); l_sys := l_sys (w_ledger w2) |} w2 w4 →
    r_generation r' = r_generation r → r_state r' ≠ StateActive →
    (r_state r' = StateDeleted → wiped (as_redis s) (as_qdrant s) ns (r_generation r) w2) → deletion s ns r w w4) as Hout.
  { intros w4 r' [Hl4 _ _ _ Hx4 _] Hg' Hs' Hw'. rewrite Hl2 in Hl4. split.
    - intros m Hm. rewrite Hl4. cbn. by rewrite !lookup_insert_ne.
    - by rewrite Hl4.
    - by rewrite Hx4.
    - exists r'. rewrite Hl4. cbn. rewrite lookup_insert_eq. split_and!; auto; [done|].
      intros Hd'. right. eapply wiped_ext; [exact Hx4|auto]. }
  assert (∀ m, deletion s ns r w (repo_RecordNamespaceError ns (r_generation r) m w2).2) as Hrec.
  { intros m. destruct (repo_RecordNamespaceError_spec ns (r_generation r) m w2 del Hr2 eq_refl) as (r' & Hg' & Hs' & _ & L).
    eapply Hout; [exact L|done|by rewrite Hs'|by rewrite Hs']. }
  destruct e as [|x e]; go.
  2: { split; [apply Hrec|]. split; [done|]. intros H0'. by apply Hf in Hc1. }
  destruct (Hp eq_refl) as [-> Hw].
  destruct (repo_CompleteDelete_spec ns (r_generation r) w2 del Hr2 eq_refl eq_refl) as (w3 & [(-> & Hne & L3)|(-> & L3)]); go.
  - assert (w_faults w1 ≠ []) as Hne1 by (intros H0'; by apply Hne, (er_calm _ _ _ _ _ E2)).
    destruct L3 as [Hl3 _ _ _ Hx3 _].
    assert (l_rows (w_ledger w3) !! ns = Some del) as Hr3 by (by rewrite Hl3).
    destruct (repo_RecordNamespaceError_spec ns (r_generation r) (Error [ErrDriver]) w3 del Hr3 eq_refl) as (r' & Hg' & Hs' & _ & [Hl4 _ _ _ Hx4 _]).
    split; [|split; [done|intros H0'; by apply Hc1 in H0']]. split.
    + intros m Hm. rewrite Hl4. cbn. rewrite Hl3, Hl2. cbn. by rewrite !lookup_insert_ne.
    + by rewrite Hl4, Hl3, Hl2.
    + by rewrite Hx4, Hx3.
    + exists r'. rewrite Hl4. cbn. rewrite lookup_insert_eq, Hs'. split_and!; auto; done.
  - split; [eapply Hout; [exact L3|done|done|done]|]. destruct L3 as [Hl3 _ Ha3 Ho3 Hx3 Hc3].
    split; [|intros H0'; split_and!; try done; [by apply Hc3, (er_calm _ _ _ _ _ E2), Hc1| |]].
    + intros d [= <-]. split; [done|]. split; [done|]. split; [by eapply wiped_ext|].
      eexists. rewrite Hl3. split; [apply lookup_insert_eq|done].
    + by rewrite Ha3, (er_adv _ _ _ _ _ E2), Ha1.
    + by rewrite Ho3, (er_lockobjs _ _ _ _ _ E2), Ho1.
Qed.

Definition deleted_response (ns : string) (w : W) : NamespaceDeleteResponse :=
  {| nd_namespace := ns; nd_events_deleted := Z.of_nat (length (rows_of ns (st_pg (w_ext w) TEvents))) |}.

Lemma repo_GetConfig_spec ns w :
  ∃ w', same_but_faults w w' ∧ (w_faults w = [] → w' = w) ∧
    (repo_GetConfig ns w = ((false, [ErrDriver]), w') ∧ w_faults w ≠ [] ∨ ∃ b, repo_GetConfig ns w = ((b, []), w')).
Proof.
  unfold repo_GetConfig.
  match goal with |- context [call ?b ?m w] => destruct (call_spec b m w) as (w1 & Hs & Hf & [[Hne ->]| ->]) end;
    exists w1; (split; [done|]); (split; [done|]); [by left|right]. by eexists.
Qed.

Lemma deletion_refl s ns r w w' :
  l_rows (w_ledger w) !! ns = Some r → core_same w w' → deletion s ns r w w'.
Proof.
  intros Hr [Hl _ Hx]. split; [by rewrite Hl|by rewrite Hl|rewrite Hx; apply shrunk_refl|].
  exists r. rewrite Hl, Hx. split_and!; auto.
Qed.

(** *** What belongs to other namespaces *)

Lemma qdrant_name_inj k1 k2 q1 q2 :
  kind_store k1 = Some Qdrant → kind_store k2 = Some Qdrant →
  q1 +:+ "_" +:+ kind_string k1 = q2 +:+ "_" +:+ kind_string k2 → q1 = q2.
Proof.
  assert (∀ q, q +:+ "_" +:+ kind_string KindSubjectsDense = (q +:+ "_" +:+ kind_string KindSubjects) +:+ "_dense") as Hs
    by (intros q; by rewrite <- !string_app_assoc).
  assert (∀ q, q +:+ "_" +:+ kind_string KindObjectsDense = (q +:+ "_" +:+ kind_string KindObjects) +:+ "_dense") as Ho
    by (intros q; by rewrite <- !string_app_assoc).
  assert (∀ t u a b, str_all (λ c, negb (bool_decide (c = "_"%char))) t → str_all (λ c, negb (bool_decide (c = "_"%char))) u →
    a +:+ "_" +:+ t = b +:+ "_" +:+ u → a = b ∧ t = u) as Hsplit by (intros t u a b Ht Hu; by apply string_split_last).
  intros Hk1 Hk2. destruct k1, k2; try done; rewrite ?Hs, ?Ho; intros Heq;
    try (by apply Hsplit in Heq as [? ?]);
    apply Hsplit in Heq as [Heq ?]; try done; by apply Hsplit in Heq as [? ?].
Qed.

Lemma qdrant_owned_name ns g c :
  qdrant_owned ns g c = true → ∃ k, kind_store k = Some Qdrant ∧ (1 <= g)%Z ∧ c = qualify "_" ns g +:+ "_" +:+ kind_string k.
Proof.
  unfold qdrant_owned. rewrite existsb_exists. intros (k & Hk & Ho). unfold kind_owned in Ho. destruct (PhysicalName k ns g) as [n|] eqn:En; [|done].
  apply bool_decide_eq_true in Ho as ->. exists k.
  assert (kind_store k = Some Qdrant) as Hq by (cbn in Hk; intuition (subst; done)). split; [done|].
  destruct (PhysicalName_inl _ _ _ _ En) as (Hns & Hg & _). split; [done|]. rewrite PhysicalName_cases, Hq in En. repeat case_decide; by simplify_eq.
Qed.

(** The keys of a generation start with one of three prefixes. *)
Lemma redis_owned_name ns g k :
  redis_owned ns g k = true → (1 <= g)%Z ∧
  (k = "trending:" +:+ qualify ":" ns g ∨ k = "catalog:embed:" +:+ qualify ":" ns g ∨
   ∃ t, k = "rec:v3:" +:+ (b64_encode (qualify ":" ns g) +:+ String ":" t)).
Proof.
  unfold redis_owned. rewrite !PhysicalName_cases. destruct (decide (ns = "")); [done|]. destruct (decide (g < 1)%Z); [done|]. cbn [kind_store].
  intros Ho. split; [lia|]. apply orb_true_iff in Ho as [Ho|Ho]; [apply orb_true_iff in Ho as [Ho|Ho]; apply bool_decide_eq_true in Ho; by auto|].
  right; right. apply prefix_iff in Ho as [t ->]. exists t. by rewrite <- !string_app_assoc.
Qed.

(** Two namespaces whose own names do not end like a generation token share no
    key and no collection. *)
Lemma owned_apart ns m g g' x :
  m ≠ ns →
  (¬ gen_suffixed "_" ns → ¬ gen_suffixed "_" m → qdrant_owned m g' x = true → qdrant_owned ns g x = false) ∧
  (¬ gen_suffixed ":" ns → ¬ gen_suffixed ":" m → redis_owned m g' x = true → redis_owned ns g x = false).
Proof.
  intros Hne. split; intros Hs1 Hs2 Hm; apply not_true_iff_false; intros Hn.
  - apply qdrant_owned_name in Hm as (k1 & Hk1 & Hg1 & Hx), Hn as (k2 & Hk2 & Hg2 & ->). apply qdrant_name_inj in Hx; [|done..].
    by apply qualify_inj in Hx as [? _].
  - apply redis_owned_name in Hm as (Hg1 & Hm), Hn as (Hg2 & Hn).
    assert (qualify ":" m g' = qualify ":" ns g → False) as Hq by (intros Heq; by apply qualify_inj in Heq as [? _]).
    destruct Hm as [->|[->|[t ->]]], Hn as [Hn|[Hn|[t' Hn]]]; try discriminate Hn; apply string_app_inj_l in Hn; [by auto..|].
    apply Hq, b64_encode_inj. by apply string_split_unique in Hn as [? _]; [|apply Is_true_true, b64_encode_all; vm_compute; reflexivity..].
Qed.

(** C3: Deletion is fail-safe: whichever statement, key scan or collection call
    fails, [DeleteNamespace] never touches another namespace's ledger row or
    table rows nor the system row, never moves the generation, removes nothing
    while the ledger row still reads active, removes of the keys and collections
    only those that carry a physical name of the deleted generation, and leaves a
    row that reads deleted only over stores that hold no row, key or collection
    of the generation. The keys and collections of another namespace are kept
    when neither name ends like a generation token; when one does, the physical
    names can coincide and then go with the deletion
    ([delete_reaches_namesake]). It answers with a response only when everything
    is gone, and then reports the number of events that were there. *)
Theorem delete_is_fail_safe s svc ctx ns r w :
  as_lifecycle s = Some svc → ns ≠ "" → l_rows (w_ledger w) !! ns = Some r → (1 <= r_generation r)%Z →
  let '((resp, e), w') := DeleteNamespace s ctx ns w in
  deletion s ns r w w' ∧
  (∀ m g' c, m ≠ ns → ¬ gen_suffixed "_" ns → ¬ gen_suffixed "_" m → qdrant_owned m g' c = true →
     c ∈ st_qdrant (w_ext w) → c ∈ st_qdrant (w_ext w')) ∧
  (∀ m g' k, m ≠ ns → ¬ gen_suffixed ":" ns → ¬ gen_suffixed ":" m → redis_owned m g' k = true →
     k ∈ st_redis (w_ext w) → k ∈ st_redis (w_ext w')) ∧
  ∀ d, resp = Some d → e = [] ∧ d = deleted_response ns w ∧
    wiped (as_redis s) (as_qdrant s) ns (r_generation r) w' ∧
    ∃ r', l_rows (w_ledger w') !! ns = Some r' ∧ r_state r' = StateDeleted.
Proof.
  intros Hsvc Hns Hr Hg.
  assert (∀ w', deletion s ns r w w' →
    (∀ m g' c, m ≠ ns → ¬ gen_suffixed "_" ns → ¬ gen_suffixed "_" m → qdrant_owned m g' c = true →
       c ∈ st_qdrant (w_ext w) → c ∈ st_qdrant (w_ext w')) ∧
    (∀ m g' k, m ≠ ns → ¬ gen_suffixed ":" ns → ¬ gen_suffixed ":" m → redis_owned m g' k = true →
       k ∈ st_redis (w_ext w) → k ∈ st_redis (w_ext w'))) as Hapart.
  { intros w' [_ _ [_ _ _ Hk _ Hc] _]. split; intros m g' x Hne Hs1 Hs2 Ho Hx; [apply Hc|apply Hk]; try done; by eapply owned_apart. }
  enough (let '((resp, e), w') := DeleteNamespace s ctx ns w in deletion s ns r w w' ∧
    ∀ d, resp = Some d → e = [] ∧ d = deleted_response ns w ∧ wiped (as_redis s) (as_qdrant s) ns (r_generation r) w' ∧
      ∃ r', l_rows (w_ledger w') !! ns = Some r' ∧ r_state r' = StateDeleted) as Hmain.
  { destruct (DeleteNamespace s ctx ns w) as [[resp e] w']. destruct Hmain as [Hd Hresp]. by destruct (Hapart w' Hd). }
  unfold DeleteNamespace, bind. rewrite Hsvc.
  destruct (repo_GetConfig_spec ns w) as (w0 & Hs0%sbf_core & _ & [[-> _]|[b ->]]); go.
  { split; [by apply deletion_refl|done]. }
  assert (l_rows (w_ledger w0) !! ns = Some r) as Hr0 by (by rewrite (cs_ledger _ _ Hs0)).
  pose proof (WithNamespaceExclusive_cases None svc ctx ns (delete_section s ns) w0) as HW. cbv zeta in HW.
  destruct (WithNamespaceExclusive None svc ctx ns (delete_section s ns) w0) as [[resp e] w']. cbn [fst snd] in HW.
  assert (deletion s ns r w w' ∧ ∀ d, resp = Some d → d = deleted_response ns w ∧
    wiped (as_redis s) (as_qdrant s) ns (r_generation r) w' ∧
    ∃ r', l_rows (w_ledger w') !! ns = Some r' ∧ r_state r' = StateDeleted) as [Hdel Hresp].
  { destruct HW as [(-> & _ & Hc)|(row & w1 & w2 & out & rel & Hrow & _ & Hc1 & Hfn & Hc2 & [= -> ->])].
    { split; [apply deletion_refl; [done|by etransitivity]|done]. }
    rewrite Hr0 in Hrow. injection Hrow as <-. assert (core_same w w1) as Hc by (by etransitivity).
    pose proof (delete_section_spec s ns (with_lease {| lv_namespace := ns; lv_generation := r_generation r;
      lv_mode := LockExclusive |} ctx) r w1 Hns Hg) as HD.
    rewrite Hfn in HD. destruct out as [resp e]. destruct HD as (HD1 & HD2 & _).
    { by rewrite (cs_ledger _ _ Hc1). }
    split; [by eapply deletion_core|]. intros d Hd. destruct (HD2 d Hd) as (_ & -> & Hw & r' & Hr' & Hs'). split_and!.
    - unfold deleted_response. by rewrite (cs_ext _ _ Hc).
    - eapply wiped_ext; [apply (cs_ext _ _ Hc2)|done].
    - exists r'. by rewrite (cs_ledger _ _ Hc2). }
  go. destruct (errors_is e ErrNamespaceNotFound); go; [by split|]. destruct e as [|x e]; go; (split; [done|]); [|done].
  intros d Hd. split; [done|]. by apply Hresp.
Qed.

(** A deletion completes: when no call fails any more, [DeleteNamespace] of a
    namespace that is active, or that an earlier attempt left deleting, removes
    everything, moves the row to deleted, answers with the number of events
    removed, and gives back its advisory locks. *)
Theorem delete_completes s svc ctx ns r w :
  as_lifecycle s = Some svc → ns ≠ "" → l_rows (w_ledger w) !! ns = Some r → (1 <= r_generation r)%Z →
  r_state r ≠ StateDeleted → y_state (l_sys (w_ledger w)) = SystemActive → w_faults w = [] →
  let '((resp, e), w') := DeleteNamespace s ctx ns w in
  resp = Some (deleted_response ns w) ∧ e = [] ∧ w_adv w' = w_adv w ∧
  wiped (as_redis s) (as_qdrant s) ns (r_generation r) w' ∧
  ∃ r', l_rows (w_ledger w') !! ns = Some r' ∧ r_state r' = StateDeleted.
Proof.
  intros Hsvc Hns Hr Hg Hnd Hsys Hf. unfold DeleteNamespace, bind. rewrite Hsvc.
  destruct (repo_GetConfig_spec ns w) as (w0 & _ & Hw0 & [[_ Hne]|[b ->]]); [done|]. rewrite (Hw0 Hf). go.
  unfold WithNamespaceExclusive, bind.
  destruct (acquirePair_balanced svc ns LockExclusive w Hf) as (g & n & w1 & -> & Hf1 & Hl1 & _ & Hx1 & Hrel). go.
  unfold exclusive_body, require_active_system, repo_GetSystem, repo_GetNamespace, bind.
  rewrite run_sql_read_nil by done. go. cbn [sl_state scanSystem]. rewrite Hl1, bool_decide_true by done. go.
  rewrite run_sql_read_nil by done. go. rewrite Hl1, Hr. cbn [lifecycle_of]. go.
  assert (l_rows (w_ledger w1) !! ns = Some r) as Hr1 by (by rewrite Hl1).
  match goal with |- context [delete_section s ns ?c ?l w1] =>
    pose proof (delete_section_spec s ns c r w1 Hns Hg Hr1) as HD; destruct (delete_section s ns c l w1) as [[resp e] w2] end.
  destruct HD as (_ & HD2 & HD3). destruct (HD3 Hf1) as (-> & [d ->] & Hf2 & Ha2 & Ho2); [done|].
  destruct (HD2 d eq_refl) as (_ & -> & Hw & r' & Hr' & Hs'). go.
  destruct (Hrel w2) as (w3 & -> & Ha3 & Hl3 & Hx3 & _); [split; congruence|]. go. cbn.
  split_and!; [by rewrite Hx1|done|done|by eapply wiped_ext|]. exists r'. by rewrite Hl3.
Qed.
End admin.

(** ** Witnesses and examples *)

#[export] Instance sample_hash : PgHash := {| hashtext s := Z.of_nat (String.length s) |}.
#[export] Instance sample_error_text : ErrorText := {| Error e := match e with [] => "" | x :: _ => x end |}.

Definition sample_row (g : Z) (st : NamespaceState) : ns_row :=
  {| r_generation := g; r_state := st; r_activated_at := 5; r_legacy := false; r_last_error := None; r_updated_at := 5 |}.

(** [demo] is at its second generation; a namespace that is called [demo_g2] is
    at its first. *)
Definition admin_world (st : NamespaceState) (fs : list bool) : W :=
  {| w_ledger := {| l_rows := {["demo" := sample_row 2 st; "demo_g2" := sample_row 1 StateActive]};
       l_sys := {| y_state := SystemActive; y_disabled_at := None; y_evidence := None; y_last_error := None;
                   y_updated_at := 0 |} |};
     w_now := 9; w_adv := []; w_lockobjs := ∅; w_next := 0; w_faults := fs;
     w_ext := {| st_pg := λ t, match t with
                          | TEvents => [("demo", 1); ("demo_g2", 2); ("demo", 3)]%Z
                          | TNamespaceConfigs => [("demo", 1); ("demo_g2", 2)]%Z
                          | _ => []
                          end;
                 st_redis := {["trending:demo:g2"; "trending:demo_g2"; "session:demo"]};
                 st_qdrant := {["demo_g2_subjects"; "demo_g2_objects"; "photos"]}; st_compute := [] |} |}.

Definition admin_service : AdminService :=
  {| as_lifecycle := Some pair_service; as_job := Some true; as_redis := true; as_qdrant := true |}.

(** The second deletion statement of the transaction fails. *)
Definition failing : list bool := repeat false 11 ++ [true].

Lemma delete_is_fail_safe_witness :
  let w := admin_world StateActive failing in
  (DeleteNamespace admin_service background "demo" w).1 = (None, [ErrDriver]) ∧
  deletion admin_service "demo" (sample_row 2 StateActive) w (DeleteNamespace admin_service background "demo" w).2.
Proof.
  cbv zeta. split; [vm_compute; reflexivity|].
  pose proof (delete_is_fail_safe admin_service pair_service background "demo" (sample_row 2 StateActive)
    (admin_world StateActive failing) eq_refl ltac:(done) eq_refl ltac:(done)) as Hd.
  destruct (DeleteNamespace admin_service background "demo" (admin_world StateActive failing)) as [[resp e] w']. apply Hd.
Defined.

(** A deletion an earlier attempt left unfinished is resumed. *)
Lemma delete_completes_witness :
  let w := admin_world StateDeleting [] in
  let out := DeleteNamespace admin_service background "demo" w in
  out.1 = (Some {| nd_namespace := "demo"; nd_events_deleted := 2 |}, []) ∧
  elements (st_redis (w_ext out.2)) = ["session:demo"; "trending:demo_g2"] ∧
  wiped true true "demo" 2 out.2.
Proof.
  cbv zeta. split; [vm_compute; reflexivity|]. split; [vm_compute; reflexivity|].
  pose proof (delete_completes admin_service pair_service background "demo" (sample_row 2 StateDeleting)
    (admin_world StateDeleting []) eq_refl ltac:(done) eq_refl ltac:(done) ltac:(done) eq_refl eq_refl) as Hd.
  destruct (DeleteNamespace admin_service background "demo" (admin_world StateDeleting [])) as [[resp e] w'].
  destruct Hd as (_ & _ & _ & Hd & _). exact Hd.
Defined.

(** Physical names of different namespaces collide: deleting the second
    generation of [demo] drops the collections of the first generation of
    [demo_g2], which stays active. *)
Lemma delete_reaches_namesake :
  let out := DeleteNamespace admin_service background "demo" (admin_world StateActive []) in
  qdrant_owned "demo_g2" 1 "demo_g2_subjects" = true ∧
  "demo_g2_subjects" ∈ st_qdrant (w_ext (admin_world StateActive [])) ∧
  out.1 = (Some {| nd_namespace := "demo"; nd_events_deleted := 2 |}, []) ∧
  r_state <$> l_rows (w_ledger out.2) !! "demo_g2" = Some StateActive ∧
  "demo_g2_subjects" ∉ st_qdrant (w_ext out.2).
Proof. cbv zeta. split_and!; try (vm_compute; reflexivity); apply (bool_decide_unpack _); vm_compute; reflexivity. Qed.

(** [DeleteDemoData] clears generation 1 whatever the ledger says: of a demo
    namespace at its second generation it removes the rows and leaves the keys,
    and the ledger row stays active. *)
Lemma demo_cleanup_misses_generation :
  let out := DeleteDemoData admin_service (admin_world StateActive []) in
  out.1 = (Some {| nd_namespace := "demo"; nd_events_deleted := 2 |}, []) ∧
  redis_owned "demo" 2 "trending:demo:g2" = true ∧ "trending:demo:g2" ∈ st_redis (w_ext out.2) ∧
  r_state <$> l_rows (w_ledger out.2) !! "demo" = Some StateActive.
Proof. cbv zeta. split_and!; try (vm_compute; reflexivity); apply (bool_decide_unpack _); vm_compute; reflexivity. Qed.
