(* ===== verification/AdminReset.v ===== *)
(** * The reset of the application

    Properties of [ResetApp] of [internal/admin/service.go] (defined in
    [AdminLifecycle]): the order in which it fences every namespace, wipes the
    stores, completes the deletions and reopens the system gate, under every
    failure pattern. *)

From stdpp Require Import base tactics gmap sets strings list sorting.
From Stdlib Require Import ZArith Lia Ascii.
From S2P Require Import Prelude GoLib Keyset NsNames NsLedger NsService Janitor Stores ComputeLocks Wipe AdminLifecycle.

(** ** What the ledger statements of a reset do to the rows *)

(** A row keeps its generation and only moves from active to deleting to deleted. *)
Definition row_advance (r r' : ns_row) : Prop :=
  r_generation r' = r_generation r ∧ (r_state r = StateDeleted → r_state r' = StateDeleted) ∧
  (r_state r' = StateActive → r_state r = StateActive).

Definition rows_advance (m m' : gmap string ns_row) : Prop := ∀ n, option_relation row_advance (λ _, False) (λ _, False) (m !! n) (m' !! n).

#[export] Instance row_advance_preorder : PreOrder row_advance.
Proof. split; [by intros r|]. intros r1 r2 r3 (?&?&?) (?&?&?). split_and!; [congruence|auto..]. Qed.

#[export] Instance rows_advance_preorder : PreOrder rows_advance.
Proof.
  split; [intros m n; by destruct (m !! n)|].
  intros m1 m2 m3 H1 H2 n. specialize (H1 n). specialize (H2 n).
  destruct (m1 !! n), (m2 !! n), (m3 !! n); simpl in *; try done. by etransitivity.
Qed.

Lemma rows_advance_insert m n r r' : m !! n = Some r → row_advance r r' → rows_advance m (<[n := r']> m).
Proof.
  intros Hr Ha k. destruct (decide (k = n)) as [->|Hk].
  - by rewrite lookup_insert_eq, Hr.
  - rewrite lookup_insert_ne by done. by destruct (m !! k).
Qed.

(** [w'] is [w] with other ledger rows, and only those of the names [ns]. *)
Record rows_only (ns : list string) (w w' : W) : Prop := {
  ro_sys : l_sys (w_ledger w') = l_sys (w_ledger w);
  ro_now : w_now w' = w_now w;
  ro_adv : w_adv w' = w_adv w;
  ro_lockobjs : w_lockobjs w' = w_lockobjs w;
  ro_ext : w_ext w' = w_ext w;
  ro_calm : w_faults w = [] → w_faults w' = [];
  ro_rows : rows_advance (l_rows (w_ledger w)) (l_rows (w_ledger w'));
  ro_others : ∀ n, n ∉ ns → l_rows (w_ledger w') !! n = l_rows (w_ledger w) !! n;
}.

Lemma rows_only_mono ns ns' w w' : ns ⊆ ns' → rows_only ns w w' → rows_only ns' w w'.
Proof. intros Hs []. split; auto. Qed.

Lemma rows_only_trans ns w1 w2 w3 : rows_only ns w1 w2 → rows_only ns w2 w3 → rows_only ns w1 w3.
Proof.
  intros [] []. split; try congruence; auto; [by etransitivity|]. intros n Hn. rewrite ro_others1; auto.
Qed.

Lemma ledgered_same ns w w' : ledgered (w_ledger w) w w' → rows_only ns w w'.
Proof. intros []. by split; rewrite ?lg_ledger. Qed.

Lemma ledgered_row ns n r r' w w' :
  l_rows (w_ledger w) !! n = Some r → row_advance r r' → n ∈ ns →
  ledgered (set_rows (<[n := r']>) (w_ledger w)) w w' → rows_only ns w w'.
Proof.
  intros Hr Ha Hn []. split; rewrite ?lg_ledger; try done.
  - by eapply rows_advance_insert.
  - intros k Hk. cbn. rewrite lookup_insert_ne; [done|]. intros ->. done.
Qed.

Definition in_state (st : NamespaceState) (w : W) (p : string * Z) : Prop :=
  ∃ r, l_rows (w_ledger w) !! p.1 = Some r ∧ r_state r = st ∧ r_generation r = p.2.

Section reset.
Context `{RedisGlob, PgHash, Collation, ErrorText}.

Lemma fence_all_spec todo w :
  NoDup (nl_namespace <$> todo) →
  (∀ l, l ∈ todo → ∃ r, l_rows (w_ledger w) !! nl_namespace l = Some r ∧ r_state r ≠ StateDeleted) →
  let '((fenced, e), w') := fence_all todo w in
  rows_only (nl_namespace <$> todo) w w' ∧
  (e = [] → fenced.*1 = nl_namespace <$> todo ∧ ∀ p, p ∈ fenced → in_state StateDeleting w' p) ∧
  (w_faults w = [] → e = []).
Proof.
  revert w. induction todo as [|l todo IH]; intros w Hnd Hrows; cbn [fence_all fmap list_fmap].
  { go. split; [by split|]. split; [|done]. intros _. split; [done|]. set_solver. }
  apply NoDup_cons in Hnd as [Hl Hnd]. destruct (Hrows l) as (r & Hr & Hs); [set_solver|]. unfold bind.
  destruct (repo_StartDelete_spec (nl_namespace l) w r Hr Hs) as (w1 & [(-> & Hne & L)|(-> & L)]); go.
  { split; [by apply ledgered_same|]. done. }
  match type of L with ledgered (set_rows (<[_ := ?d]>) _) _ _ => set (del := d) in * end.
  assert (rows_only (nl_namespace <$> l :: todo) w w1) as R1.
  { eapply ledgered_row; [done| |cbn; set_solver|exact L]. split_and!; [done| |done]. intros Hd. by destruct Hs. }
  assert (l_rows (w_ledger w1) !! nl_namespace l = Some del) as Hr1 by (rewrite (lg_ledger _ _ _ L); apply lookup_insert_eq).
  specialize (IH w1 Hnd). destruct (fence_all todo w1) as [[more e] w2]. destruct IH as (R2 & Hp & Hc).
  { intros k Hk. destruct (Hrows k) as (r2 & Hr2 & Hs2); [set_solver|]. exists r2. split; [|done].
    rewrite (lg_ledger _ _ _ L). cbn. rewrite lookup_insert_ne; [done|]. intros Heq. apply Hl. rewrite Heq. by apply list_elem_of_fmap_2. }
  go. split; [eapply rows_only_trans; [exact R1|]; eapply rows_only_mono; [|exact R2]; cbn; set_solver|].
  split; [|intros Hf; by apply Hc, (ro_calm _ _ _ R1)]. intros He. destruct (Hp He) as [Hnames Hst]. split; [cbn; by rewrite Hnames|].
  intros p [->|Hp']%elem_of_cons; [|by apply Hst]. exists del. cbn. split; [|done].
  by rewrite (ro_others _ _ _ R2).
Qed.

Lemma finish_all_spec s fenced w :
  NoDup fenced.*1 → (∀ p, p ∈ fenced → p.1 ≠ "" ∧ (1 <= p.2)%Z ∧ in_state StateDeleting w p) →
  let '(e, w') := finish_all s fenced w in
  rows_only fenced.*1 w w' ∧
  (e = [] → ∀ p, p ∈ fenced → in_state StateDeleted w' p) ∧
  (w_faults w = [] → (∀ p, p ∈ fenced → absent (as_redis s) (as_qdrant s) p.1 p.2 (w_ext w)) → e = []).
Proof.
  revert w. induction fenced as [|[n g] fenced IH]; intros w Hnd Hrows; cbn [finish_all].
  { go. split; [by split|]. split; [set_solver|done]. }
  change (((n, g) :: fenced).*1) with (n :: fenced.*1) in *.
  apply NoDup_cons in Hnd as [Hl Hnd]. destruct (Hrows (n, g)) as (Hn & Hg & r & Hr & Hs & Hgr); [set_solver|]. cbn in Hn, Hg, Hr, Hgr.
  unfold bind. pose proof (verifyNamespaceAbsent_inspects (as_redis s) (as_qdrant s) n g Hn Hg w) as HV.
  destruct (verifyNamespaceAbsent _ _ n g w) as [e w1]. destruct HV as (V1 & V2 & _ & V4).
  assert (rows_only (n :: fenced.*1) w w1) as R1.
  { destruct V1. split; rewrite ?sbf_ledger; try done. intros Hf. by rewrite V2. }
  destruct e as [|x e]; go; [|split; [done|]; split; [done|]; intros Hf Ha; by apply V4 in Hf; [|apply (Ha (n, g)); set_solver]].
  assert (l_rows (w_ledger w1) !! n = Some r) as Hr1 by (by rewrite (sbf_ledger _ _ V1)).
  destruct (repo_CompleteDelete_spec n g w1 r Hr1 Hgr Hs) as (w2 & [(-> & Hne & L)|(-> & L)]); go.
  { split; [eapply rows_only_trans; [exact R1|by apply ledgered_same]|]. split; [done|]. intros Hf. by rewrite V2 in Hne. }
  assert (rows_only (n :: fenced.*1) w w2) as R2.
  { eapply rows_only_trans; [exact R1|]. eapply ledgered_row; [exact Hr1| |set_solver|exact L]. split_and!; done. }
  assert (∀ p, p ∈ fenced → in_state StateDeleting w2 p) as Hst.
  { intros p Hp. destruct (Hrows p) as (_ & _ & rp & Hrp & ?); [set_solver|]. exists rp. split; [|done].
    rewrite (lg_ledger _ _ _ L). cbn. rewrite lookup_insert_ne, (sbf_ledger _ _ V1); [done|]. intros Heq. apply Hl. rewrite Heq. by apply (list_elem_of_fmap_2 fst). }
  specialize (IH w2 Hnd). destruct (finish_all s fenced w2) as [e w3]. destruct IH as (R3 & Hp & Hc).
  { intros p Hp. destruct (Hrows p) as (? & ? & _); [set_solver|]. auto. }
  split; [eapply rows_only_trans; [exact R2|]; eapply rows_only_mono; [|exact R3]; set_solver|]. split.
  - intros He p [->|Hp']%elem_of_cons; [|by apply Hp]. eexists. cbn. rewrite (ro_others _ _ _ R3) by done.
    rewrite (lg_ledger _ _ _ L). cbn. split; [apply lookup_insert_eq|done].
  - intros Hf Ha. apply Hc; [by apply (ro_calm _ _ _ R2)|]. intros p Hp'. rewrite (ro_ext _ _ _ R2). apply Ha. set_solver.
Qed.

(** ** Listing, wiping *)

Definition live_rows (l : ledger) : list NamespaceLifecycle :=
  (λ p, scanNamespace p.1 p.2) <$> merge_sort row_le (filter (λ p, r_state p.2 ≠ StateDeleted) (map_to_list (l_rows l))).

Lemma live_rows_elem l x :
  x ∈ live_rows l ↔ ∃ n r, l_rows l !! n = Some r ∧ r_state r ≠ StateDeleted ∧ x = scanNamespace n r.
Proof.
  unfold live_rows. rewrite list_elem_of_fmap. split.
  - intros ([n r] & -> & Hin). rewrite merge_sort_Permutation in Hin. apply list_elem_of_filter in Hin as [Hs Hin].
    apply elem_of_map_to_list in Hin. by exists n, r.
  - intros (n & r & Hr & Hs & ->). exists (n, r). split; [done|]. rewrite merge_sort_Permutation.
    apply list_elem_of_filter. split; [done|]. by apply elem_of_map_to_list.
Qed.

Lemma live_rows_NoDup l : NoDup (nl_namespace <$> live_rows l).
Proof.
  unfold live_rows. rewrite <- list_fmap_compose. rewrite merge_sort_Permutation.
  eapply sublist_NoDup; [|apply (fmap_sublist fst), sublist_filter]. apply NoDup_fst_map_to_list.
Qed.

Lemma repo_ListNonDeleted_spec (w : W) :
  ∃ w', (repo_ListNonDeleted w = (([], [ErrDriver]), w') ∧ w_faults w ≠ [] ∧ ledgered (w_ledger w) w w') ∨
        (repo_ListNonDeleted w = ((live_rows (w_ledger w), []), w') ∧ ledgered (w_ledger w) w w').
Proof.
  unfold repo_ListNonDeleted.
  match goal with |- context [run_sql ?f ?st w] => destruct (run_sql_spec f st w) as (w' & [(-> & Hne & Hl)|[-> Hl]]) end;
    exists w'; [by left|by right].
Qed.

(** Nothing the application owns is left in the stores the service has. *)
Record emptied (s : AdminService) (w : W) : Prop := {
  em_pg : ∀ t, st_pg (w_ext w) t = [];
  em_redis : as_redis s = true → no_keys flushable w;
  em_qdrant : as_qdrant s = true → no_collections ours w;
}.

Lemma emptied_ext s w w' : w_ext w' = w_ext w → emptied s w → emptied s w'.
Proof. intros Hx []. split; unfold no_keys, no_collections in *; rewrite Hx; auto. Qed.

Lemma emptied_erased s D K C w w' : erased D K C w w' → emptied s w → emptied s w'.
Proof.
  intros [] [Hp Hr Hq]. split.
  - intros t. specialize (er_pg t). rewrite Hp in er_pg. by apply sublist_nil_r in er_pg.
  - intros Ht k Hk. apply (Hr Ht). set_solver.
  - intros Ht k Hk. apply (Hq Ht). set_solver.
Qed.

Lemma emptied_absent s ns g w : emptied s w → absent (as_redis s) (as_qdrant s) ns g (w_ext w).
Proof.
  intros [Hp Hr Hq]. split_and!.
  - by rewrite Hp.
  - intros Ht k Hk. destruct (redis_owned ns g k) eqn:E; [|done]. apply redis_owned_flushable in E.
    rewrite (Hr Ht k Hk) in E. done.
  - intros Ht c Hc. destruct (qdrant_owned ns g c) eqn:E; [|done]. apply qdrant_owned_ours in E.
    rewrite (Hq Ht c Hc) in E. done.
Qed.

Lemma optional_cleans (b : bool) m K C post :
  cleans m K C post → cleans (if b then m else ret []) K C (λ v, b = true → post v).
Proof. intros Hm. destruct b; [|by intros v]. intros v. specialize (Hm v). destruct (m v). naive_solver. Qed.

Lemma wipe_all_spec s w :
  let '((events, namespaces, e), w') := wipe_all s w in
  erased every flushable ours w w' ∧
  (e = [] → emptied s w' ∧ events = Z.of_nat (length (st_pg (w_ext w) TEvents)) ∧
            namespaces = Z.of_nat (length (st_pg (w_ext w) TNamespaceConfigs))) ∧
  (w_faults w = [] → e = []).
Proof.
  unfold wipe_all, bind. pose proof (Truncate_spec flushable ours w) as H1'.
  destruct (TruncateAllNamespaceData w) as [[[n m] e] w1]. destruct H1' as (E1 & Hp1 & Hf1). go.
  destruct e as [|x e]; go; [|split; [done|]; split; [done|]; intros H0'; by apply Hf1 in H0'].
  destruct (Hp1 eq_refl) as (-> & -> & Hpg). clear Hp1 Hf1.
  pose proof (optional_cleans (as_redis s) _ _ _ _ flushAllNamespaceRedis_cleans w1) as HR.
  set (mr := if as_redis s then flushAllNamespaceRedis else ret []) in *. clearbody mr.
  destruct (mr w1) as [e2 w2]. destruct HR as (R1 & R2 & R3). go.
  pose proof (within_erased every _ none flushable ours _ _ (λ _ h, h) ltac:(done) R1) as E2.
  destruct e2 as [|x e2]; go.
  2: { split; [by etransitivity|]. split; [done|]. intros H0'. by apply R3, (er_calm _ _ _ _ _ E1). }
  pose proof (optional_cleans (as_qdrant s) _ _ _ _ flushAllNamespaceQdrant_cleans w2) as HQ.
  set (mq := if as_qdrant s then flushAllNamespaceQdrant else ret []) in *. clearbody mq.
  destruct (mq w2) as [e3 w3]. destruct HQ as (Q1 & Q2 & Q3). go.
  pose proof (within_erased every none _ flushable ours _ _ ltac:(done) (λ _ h, h) Q1) as E3.
  assert (erased every flushable ours w w3) as E by (etransitivity; [exact E1|]; by etransitivity).
  destruct e3 as [|x e3]; go; (split; [done|]); (split; [|intros H0'; try done]).
  - intros _. split; [|done]. split; [|intros Ht; eapply no_keys_within; [by apply R2|done]|auto].
    intros t. rewrite (wi_pg _ _ _ _ Q1), (wi_pg _ _ _ _ R1). apply Hpg.
  - done.
  - apply Q3, (wi_calm _ _ _ _ R1), (er_calm _ _ _ _ _ E1), H0'.
Qed.

(** ** The section *)

(** A world the reset passes through: the gate is closed, rows have only
    advanced and the stores have only lost what the application owns. *)
Record midway (w w' : W) : Prop := {
  mw_state : y_state (l_sys (w_ledger w')) = SystemResetting;
  mw_rows : rows_advance (l_rows (w_ledger w)) (l_rows (w_ledger w'));
  mw_stores : shrunk every flushable ours (w_ext w) (w_ext w');
  mw_adv : w_adv w' = w_adv w;
  mw_lockobjs : w_lockobjs w' = w_lockobjs w;
  mw_calm : w_faults w = [] → w_faults w' = [];
}.

Lemma shrunk_trans D K C s1 s2 s3 : shrunk D K C s1 s2 → shrunk D K C s2 s3 → shrunk D K C s1 s3.
Proof.
  intros [] []. split; auto.
  - intros t. trans (st_pg s2 t); auto.
  - intros t. etrans; eauto.
  - by trans (st_redis s2).
  - by trans (st_qdrant s2).
Qed.

Lemma midway_rows ns w w1 w2 : midway w w1 → rows_only ns w1 w2 → midway w w2.
Proof.
  intros [] []. split; try congruence; auto.
  - by etransitivity.
Qed.

Lemma midway_erased w w1 w2 : midway w w1 → erased every flushable ours w1 w2 → midway w w2.
Proof.
  intros [] He. pose proof (erased_shrunk _ _ _ _ _ He) as Hs. destruct He.
  split; rewrite ?er_ledger; try congruence; auto. by eapply shrunk_trans.
Qed.

Lemma fail_reset_midway err w w1 :
  midway w w1 → err ≠ [] → ∃ w', fail_reset err w1 = ((None, err), w') ∧ midway w w'.
Proof.
  intros [] He. unfold fail_reset, repo_RecordResetError, exec_sql, bind.
  match goal with |- context [run_sql ?f ?st w1] => destruct (run_sql_spec f st w1) as (w' & [(-> & Hne & [])|[-> []]]) end;
    go; exists w'; (split; [done|]); split; try congruence; auto; rewrite lg_ledger; cbn; try done.
  by rewrite bool_decide_true.
Qed.

(** Everything is gone and every namespace deleted. *)
Definition reset_done (s : AdminService) (w : W) : Prop :=
  emptied s w ∧ ∀ n r, l_rows (w_ledger w) !! n = Some r → r_state r = StateDeleted.

Definition all_named (l : ledger) : Prop := ∀ n r, l_rows l !! n = Some r → n ≠ "" ∧ (1 <= r_generation r)%Z.

Lemma rows_advance_named m m' n r' :
  rows_advance m m' → m' !! n = Some r' → ∃ r, m !! n = Some r ∧ row_advance r r'.
Proof. intros Ha Hr. specialize (Ha n). rewrite Hr in Ha. destruct (m !! n) as [r|]; [by exists r|done]. Qed.

(** How the section ends after the gate closed: failed midway, or done. *)
Definition reset_ended (s : AdminService) (names : list string) (w : W) (out : (option ResetAppResponse * error) * W) : Prop :=
  let '((resp, e), w') := out in
  (resp = None ∧ e ≠ [] ∧ w_faults w ≠ [] ∧ midway w w') ∨
  (e = [] ∧ resp = Some {| ra_namespaces_deleted := Z.of_nat (length (st_pg (w_ext w) TNamespaceConfigs));
                           ra_events_deleted := Z.of_nat (length (st_pg (w_ext w) TEvents)); ra_namespaces := names |} ∧
   reset_done s w' ∧ y_state (l_sys (w_ledger w')) = SystemActive ∧
   rows_advance (l_rows (w_ledger w)) (l_rows (w_ledger w')) ∧ shrunk every flushable ours (w_ext w) (w_ext w') ∧
   w_adv w' = w_adv w ∧ w_lockobjs w' = w_lockobjs w ∧ (w_faults w = [] → w_faults w' = [])).

Lemma reset_body_spec s fenced w w1 :
  midway w w1 → st_pg (w_ext w1) = st_pg (w_ext w) → NoDup fenced.*1 →
  (∀ p, p ∈ fenced → p.1 ≠ "" ∧ (1 <= p.2)%Z ∧ in_state StateDeleting w1 p) →
  (∀ n r, l_rows (w_ledger w1) !! n = Some r → r_state r ≠ StateDeleted → n ∈ fenced.*1) →
  reset_ended s fenced.*1 w (reset_body s fenced w1).
Proof.
  intros M1 Hpg Hnd Hst Hall. unfold reset_body, bind. pose proof (wipe_all_spec s w1) as HW. rewrite Hpg in HW.
  destruct (wipe_all s w1) as [[[ev nsd] e] w2]. destruct HW as (E2 & Hp & Hf). go.
  pose proof (midway_erased _ _ _ M1 E2) as M2.
  destruct e as [|x e]; go.
  2: { destruct (fail_reset_midway (x :: e) _ _ M2) as (w' & -> & M'); [done|]. left. split_and!; try done.
       intros H0'. by apply (mw_calm _ _ M1), Hf in H0'. }
  destruct (Hp eq_refl) as (Hem & -> & ->).
  pose proof (finish_all_spec s fenced w2 Hnd) as HF. destruct (finish_all s fenced w2) as [e w3].
  destruct HF as (R3 & Hdel & Hok).
  { intros p Hin. destruct (Hst p Hin) as (? & ? & r & Hr & ?). split; [done|]. split; [done|].
    exists r. by rewrite (er_ledger _ _ _ _ _ E2). }
  pose proof (midway_rows _ _ _ _ M2 R3) as M3. destruct e as [|x e]; go.
  2: { destruct (fail_reset_midway (x :: e) _ _ M3) as (w' & -> & M'); [done|]. left. split_and!; try done.
       intros H0'. assert (x :: e = []) as [=]. apply Hok; [by apply (mw_calm _ _ M2)|].
       intros p _. by apply emptied_absent. }
  unfold repo_CompleteReset, exec_sql.
  match goal with |- context [run_sql ?f ?st w3] => destruct (run_sql_spec f st w3) as (w4 & [(-> & Hne & L)|[-> L]]) end; go.
  - destruct (fail_reset_midway [ErrDriver] w w4) as (w' & -> & M'); [|done|].
    + eapply midway_rows; [exact M3|by apply (ledgered_same [])].
    + left. split_and!; try done. intros H0'. by apply Hne, (mw_calm _ _ M3).
  - right. destruct L as [Hl _ Ha Ho Hx Hc]. destruct M3. cbn [snd] in Hl.
    split; [done|]. split; [done|]. rewrite Hl. cbn. rewrite bool_decide_true by done. cbn. rewrite Hx.
    split; [|split_and!; try done; [congruence..|auto]].
    split; [eapply emptied_ext; [|exact Hem]; by rewrite Hx, (ro_ext _ _ _ R3)|].
    intros n r Hr. rewrite Hl in Hr. cbn in Hr. destruct (decide (n ∈ fenced.*1)) as [Hin|Hin].
    + apply list_elem_of_fmap in Hin as (p & -> & Hp'). destruct (Hdel eq_refl p Hp') as (r' & Hr' & Hs' & _). congruence.
    + rewrite (ro_others _ _ _ R3), (er_ledger _ _ _ _ _ E2) in Hr by done.
      destruct (decide (r_state r = StateDeleted)) as [|Hs']; [done|]. exfalso. by eapply Hin, Hall.
Qed.

(** The gate may also never have closed. *)
Definition reset_result (s : AdminService) (names : list string) (w : W) (out : (option ResetAppResponse * error) * W) : Prop :=
  (out.1.1 = None ∧ out.1.2 ≠ [] ∧ w_faults w ≠ [] ∧ core_same w out.2) ∨ reset_ended s names w out.

Lemma reset_section_spec s w :
  all_named (w_ledger w) → reset_result s (nl_namespace <$> live_rows (w_ledger w)) w (reset_section s w).
Proof.
  intros Hnamed. unfold reset_section, repo_StartReset, exec_sql, bind at 1.
  match goal with |- context [run_sql ?f ?st w] => destruct (run_sql_spec f st w) as (w1 & [(-> & Hne & [])|[-> L1]]) end; go.
  { left. by split_and!. }
  right. destruct L1 as [Hl1 Hn1 Ha1 Ho1 Hx1 Hc1]. cbn [snd] in Hl1.
  assert (midway w w1) as M1.
  { by split; rewrite ?Hl1, ?Hx1. }
  unfold bind at 1. destruct (repo_ListNonDeleted_spec w1) as (w2 & [(-> & Hne & L2)|(-> & L2)]); go.
  all: pose proof (midway_rows [] _ _ _ M1 (ledgered_same [] _ _ L2)) as M2.
  { destruct (fail_reset_midway [ErrDriver] _ _ M2) as (w' & -> & M'); [done|]. left. split_and!; try done.
    intros H0'. by apply Hne, Hc1. }
  assert (live_rows (w_ledger w1) = live_rows (w_ledger w)) as -> by (by rewrite Hl1).
  assert (l_rows (w_ledger w2) = l_rows (w_ledger w)) as Hrows by (by rewrite (lg_ledger _ _ _ L2), Hl1).
  set (todo := live_rows (w_ledger w)) in *. pose proof (live_rows_NoDup (w_ledger w)) as Hnd. fold todo in Hnd.
  unfold bind at 1. pose proof (fence_all_spec todo w2 Hnd) as HF. destruct (fence_all todo w2) as [[fenced e] w3].
  destruct HF as (R3 & Hp & Hok).
  { intros l (n & r & Hr & Hs & ->)%live_rows_elem. exists r. by rewrite Hrows. }
  pose proof (midway_rows _ _ _ _ M2 R3) as M3. go. destruct e as [|x e]; go.
  2: { destruct (fail_reset_midway (x :: e) _ _ M3) as (w' & -> & M'); [done|]. left. split_and!; try done.
       intros H0'. by apply (mw_calm _ _ M2), Hok in H0'. }
  destruct (Hp eq_refl) as [Hnames Hst]. rewrite <- Hnames.
  match goal with |- context [holding ?l ?b ?m w3] => destruct (holding_cases l b m w3)
    as [(w4 & e & Hl & Hne & He & ->)|(w4 & w5 & out & Hl & Hm & w6 & Hl6 & ->)] end.
  { intros acquire Ha. apply fmap_Some in Ha as (locks & _ & ->). apply job_LockAllNamespaces_acquires. }
  { pose proof (midway_erased _ _ _ M3 (lock_only_erased every flushable ours _ _ Hl)) as M4.
    destruct (fail_reset_midway e _ _ M4) as (w' & -> & M'); [done|]. left. split_and!; try done.
    intros H0'. by apply Hne, (mw_calm _ _ M3). }
  pose proof (lock_only_erased every flushable ours _ _ Hl) as E4. pose proof (lock_only_erased every flushable ours _ _ Hl6) as E6.
  assert (w_ledger w4 = w_ledger w3) as Hl4 by (apply E4).
  assert (reset_ended s fenced.*1 w (out, w5)) as HB.
  { rewrite <- Hm. apply reset_body_spec; [by eapply midway_erased| |by rewrite Hnames| |].
    - destruct Hl as [l Hl]. rewrite (rl_ext _ _ _ Hl). cbn. by rewrite (ro_ext _ _ _ R3), (lg_ext _ _ _ L2), Hx1.
    - intros p Hin. pose proof (Hst p Hin) as (r & Hr & Hs & Hg).
      destruct (rows_advance_named _ _ _ _ (mw_rows _ _ M3) Hr) as (r0 & Hr0 & Hg0 & _).
      destruct (Hnamed _ _ Hr0). split; [done|]. split; [congruence|]. exists r. by rewrite Hl4.
    - intros n r Hr Hs. rewrite Hl4 in Hr. rewrite Hnames. destruct (decide (n ∈ nl_namespace <$> todo)) as [|Hn]; [done|].
      rewrite (ro_others _ _ _ R3), Hrows in Hr by done. apply list_elem_of_fmap. exists (scanNamespace n r). split; [done|].
      apply live_rows_elem. by exists n, r. }
  destruct out as [resp e]. destruct HB as [(H1' & H2' & H3' & M5)|(H1' & H2' & [Hem Hall] & H4' & H5' & H6' & H7' & H8' & H9')].
  - left. split_and!; try done. by eapply midway_erased.
  - right. pose proof (erased_shrunk _ _ _ _ _ E6) as S6. destruct E6 as [X1 _ X3 X4 X5 _ _ _ _ _ _].
    rewrite X1. split_and!; try done; [..|by eapply shrunk_trans|congruence|congruence|auto].
    split; [|by rewrite X1]. eapply emptied_erased; [by apply (lock_only_erased every flushable ours)|done].
Qed.

(** ** Properties *)

Definition reset_response (w : W) : ResetAppResponse :=
  {| ra_namespaces_deleted := Z.of_nat (length (st_pg (w_ext w) TNamespaceConfigs));
     ra_events_deleted := Z.of_nat (length (st_pg (w_ext w) TEvents));
     ra_namespaces := nl_namespace <$> live_rows (w_ledger w) |}.

(** What holds after a reset attempt, however it ended. *)
Record reset_attempted (s : AdminService) (w : W) (resp : option ResetAppResponse) (w' : W) : Prop := {
  rt_rows : rows_advance (l_rows (w_ledger w)) (l_rows (w_ledger w'));
  rt_stores : shrunk every flushable ours (w_ext w) (w_ext w');
  rt_gate : y_state (l_sys (w_ledger w')) = SystemActive → core_same w w' ∨ reset_done s w';
  rt_resp : ∀ d, resp = Some d → d = reset_response w ∧ reset_done s w' ∧ y_state (l_sys (w_ledger w')) = SystemActive;
}.

Lemma reset_attempted_same s w w' : core_same w w' → reset_attempted s w None w'.
Proof.
  intros Hc. split; rewrite ?(cs_ledger _ _ Hc), ?(cs_ext _ _ Hc); try done. by left.
Qed.

Lemma reset_done_core s w w' : core_same w w' → reset_done s w → reset_done s w'.
Proof. intros [Hl _ Hx] [He Ha]. split; [by eapply emptied_ext|by rewrite Hl]. Qed.

Lemma reset_result_attempted s w0 w resp e w1 w2 :
  core_same w0 w → reset_result s (nl_namespace <$> live_rows (w_ledger w)) w ((resp, e), w1) → core_same w1 w2 →
  reset_attempted s w0 resp w2.
Proof.
  intros C0 Hr C2. destruct Hr as [(Hn & _ & _ & Hc)|Hr]; [|destruct Hr as [(-> & _ & _ & [])|Hr]].
  - cbn in Hn. subst resp. apply reset_attempted_same. etransitivity; [exact C0|]. by etransitivity.
  - split; rewrite ?(cs_ledger _ _ C2), ?(cs_ext _ _ C2), <- ?(cs_ledger _ _ C0), <- ?(cs_ext _ _ C0); try done. congruence.
  - destruct Hr as (-> & -> & Hd & Ha & Hrows & Hs & _). apply (reset_done_core _ _ _ C2) in Hd.
    split; rewrite ?(cs_ledger _ _ C2), ?(cs_ext _ _ C2), <- ?(cs_ledger _ _ C0), <- ?(cs_ext _ _ C0); try done; [by right|].
    intros d [= <-]. unfold reset_response. by rewrite (cs_ledger _ _ C0), (cs_ext _ _ C0).
Qed.

(** C4: A reset is fail-safe: whichever call fails, [ResetApp] removes only what
    the application owns (every table's rows, keys under its three prefixes,
    collections with its four suffixes), moves ledger rows only from active
    to deleting to deleted without touching a generation, and leaves the system
    gate open only when it changed nothing or when everything is gone and every
    namespace is deleted; only then does it answer with a response, which
    counts the rows that were there and names the namespaces it deleted. *)
Theorem reset_is_fail_safe s svc ctx w :
  as_lifecycle s = Some svc → all_named (w_ledger w) →
  let '((resp, e), w') := ResetApp s ctx w in reset_attempted s w resp w'.
Proof.
  intros Hsvc Hn. unfold ResetApp. rewrite Hsvc. unfold WithGlobalExclusive, bind at 1.
  pose proof (locker_Acquire_core "global" LockExclusive w) as C1.
  destruct (locker_Acquire "global" LockExclusive w) as [[lock|e] w1]; go; [|by apply reset_attempted_same].
  unfold repo_GetSystem.
  match goal with |- context [run_sql ?f ?st w1] => destruct (run_sql_spec f st w1) as (w2 & [(-> & _ & L)|[-> L]]) end; go;
    (assert (core_same w w2) as C2 by (etransitivity; [exact C1|by destruct L])); unfold bind; go.
  - apply reset_attempted_same. etransitivity; [exact C2|]. apply Release_core.
  - pose proof (reset_section_spec s w2) as HR. rewrite (cs_ledger _ _ C2) in HR. specialize (HR Hn).
    destruct (reset_section s w2) as [[resp e] w3]. eapply reset_result_attempted; [exact C2| |apply Release_core].
    by rewrite (cs_ledger _ _ C2).
Qed.

Lemma locker_Acquire_balanced name m (w : W) :
  w_faults w = [] →
  ∃ lock w', locker_Acquire name m w = (inl lock, w') ∧ w_faults w' = [] ∧ core_same w w' ∧
    ∀ w2, locks_kept w' w2 → ∃ w3, Release lock w2 = ([], w3) ∧ w_adv w3 = w_adv w ∧ core_same w2 w3.
Proof.
  intros Hf. unfold locker_Acquire, bind. rewrite pool_acquire_nil by done. go. rewrite exec_lock_nil by done. go.
  unfold upd_lockobj, modify. go. do 2 eexists. split; [done|]. split; [done|]. split; [done|].
  intros w2 [Ha Ho Hf2]. cbn in Ha, Ho, Hf2.
  erewrite Release_balanced; [|congruence|rewrite Ho; apply lookup_insert_eq|done|rewrite Ha; done].
  eexists. split; [done|]. done.
Qed.

(** A reset completes: when no call fails any more, [ResetApp] empties the
    stores, deletes every namespace, reopens the gate, answers with the counts
    and gives back its advisory lock, also when an earlier attempt left the
    system resetting and some namespaces deleting. *)
Theorem reset_completes s svc ctx w :
  as_lifecycle s = Some svc → all_named (w_ledger w) → w_faults w = [] →
  let '((resp, e), w') := ResetApp s ctx w in
  resp = Some (reset_response w) ∧ e = [] ∧ reset_done s w' ∧
  y_state (l_sys (w_ledger w')) = SystemActive ∧ w_adv w' = w_adv w.
Proof.
  intros Hsvc Hn Hf. unfold ResetApp. rewrite Hsvc. unfold WithGlobalExclusive, bind.
  destruct (locker_Acquire_balanced "global" LockExclusive w Hf) as (lock & w1 & -> & Hf1 & C1 & Hrel). go.
  unfold repo_GetSystem. rewrite run_sql_read_nil by done. go.
  pose proof (reset_section_spec s w1) as HR. rewrite (cs_ledger _ _ C1) in HR. specialize (HR Hn).
  destruct (reset_section s w1) as [[resp e] w2].
  destruct HR as [(_ & _ & Hne & _)|[(_ & _ & Hne & _)|(-> & -> & Hd & Ha & _ & _ & Ha2 & Ho2 & Hc2)]]; [done|done|]. go.
  destruct (Hrel w2) as (w3 & -> & Ha3 & C3); [split; [done|done|by rewrite Hf1, Hc2]|]. go. cbn [errors_join app].
  split; [|split; [done|]; split; [by eapply reset_done_core|]; by rewrite (cs_ledger _ _ C3)].
  unfold reset_response. by rewrite (cs_ext _ _ C1).
Qed.
End reset.

(** ** Witnesses *)

Lemma admin_world_named st fs : all_named (w_ledger (admin_world st fs)).
Proof.
  intros n r Hr. cbn in Hr. apply lookup_insert_Some in Hr as [[<- <-]|[_ Hr]]; [by split|].
  by apply lookup_singleton_Some in Hr as [<- <-].
Qed.

(** The flush of the keys fails: the gate stays closed and both rows deleting. *)
Lemma reset_is_fail_safe_witness :
  let w := admin_world StateActive (repeat false 20 ++ [true]) in
  let out := ResetApp admin_service background w in
  out.1 = (None, [ErrDriver]) ∧ y_state (l_sys (w_ledger out.2)) = SystemResetting ∧ reset_attempted admin_service w None out.2.
Proof.
  cbv zeta. split; [vm_compute; reflexivity|]. split; [vm_compute; reflexivity|].
  pose proof (reset_is_fail_safe admin_service pair_service background (admin_world StateActive (repeat false 20 ++ [true]))
    eq_refl (admin_world_named _ _)) as Hr.
  assert ((ResetApp admin_service background (admin_world StateActive (repeat false 20 ++ [true]))).1 = (None, [ErrDriver])) as He
    by (vm_compute; reflexivity).
  destruct (ResetApp admin_service background (admin_world StateActive (repeat false 20 ++ [true]))) as [[resp e] w'].
  cbn in He. injection He as -> ->. exact Hr.
Defined.

Lemma reset_completes_witness :
  let out := ResetApp admin_service background (admin_world StateDeleting []) in
  out.1 = (Some {| ra_namespaces_deleted := 2; ra_events_deleted := 3; ra_namespaces := ["demo"; "demo_g2"] |}, []) ∧
  elements (st_redis (w_ext out.2)) = ["session:demo"] ∧ elements (st_qdrant (w_ext out.2)) = ["photos"] ∧
  reset_done admin_service out.2.
Proof.
  cbv zeta. split; [vm_compute; reflexivity|]. split; [vm_compute; reflexivity|]. split; [vm_compute; reflexivity|].
  pose proof (reset_completes admin_service pair_service background (admin_world StateDeleting [])
    eq_refl (admin_world_named _ _) eq_refl) as Hr.
  destruct (ResetApp admin_service background (admin_world StateDeleting [])) as [[resp e] w']. apply Hr.
Defined.
