(* ===== verification/RedisStream.v ===== *)
(** * Redis streams

    The documented behaviour of the Redis stream commands the workers and the
    retention pass rely on (XADD, XGROUP CREATE, XREADGROUP, XACK, XPENDING,
    XTRIM MINID), the concurrent clients as a step relation, and the interface
    a Redis server offers to a client of this repository. The server itself is
    not part of the repository: [StreamServer] states what the code relies on,
    and [scripted_server] is a concrete server that satisfies it. *)

From stdpp Require Import base tactics gmap strings list relations sorting.
From Stdlib Require Import ZArith Lia Ascii.
From S2P Require Import Prelude GoLib.

(** ** Stream identifiers *)

Definition sid : Type := Z * Z.

Definition sid_lt (a b : sid) : Prop := (a.1 < b.1 ∨ (a.1 = b.1 ∧ a.2 < b.2))%Z.
Definition sid_le (a b : sid) : Prop := a = b ∨ sid_lt a b.
Definition sid_ltb (a b : sid) : bool := (a.1 <? b.1)%Z || ((a.1 =? b.1)%Z && (a.2 <? b.2)%Z).

Definition sid_ok (a : sid) : Prop := (0 <= a.1 <= max_uint64 ∧ 0 <= a.2 <= max_uint64)%Z.

(** The text form, [ms-seq]. *)
Definition format_sid (a : sid) : string := itoa a.1 +:+ String "-"%char (itoa a.2).

Lemma sid_ltb_spec a b : sid_ltb a b = true ↔ sid_lt a b.
Proof. unfold sid_ltb, sid_lt. rewrite orb_true_iff, andb_true_iff, !Z.ltb_lt, Z.eqb_eq. done. Qed.

Lemma sid_lt_irrefl a : ¬ sid_lt a a.
Proof. unfold sid_lt. lia. Qed.

Lemma sid_lt_trans a b c : sid_lt a b → sid_lt b c → sid_lt a c.
Proof. unfold sid_lt. lia. Qed.

Lemma sid_lt_total a b : sid_lt a b ∨ a = b ∨ sid_lt b a.
Proof.
  destruct a as [x y], b as [u v]. unfold sid_lt. simpl.
  destruct (Z.lt_trichotomy x u) as [?|[->|?]], (Z.lt_trichotomy y v) as [?|[->|?]]; auto with lia.
Qed.

Lemma sid_le_lt_trans a b c : sid_le a b → sid_lt b c → sid_lt a c.
Proof. intros [->|?]; [done|by apply sid_lt_trans]. Qed.
Lemma sid_lt_le_trans a b c : sid_lt a b → sid_le b c → sid_lt a c.
Proof. intros ? [->|?]; [done|by eapply sid_lt_trans]. Qed.
Lemma sid_le_trans a b c : sid_le a b → sid_le b c → sid_le a c.
Proof. intros [->|?] [->|?]; [by left|by right|by right|right; by eapply sid_lt_trans]. Qed.
Lemma sid_le_not_lt a b : sid_le a b → ¬ sid_lt b a.
Proof. intros [->|H1] H2; [by apply sid_lt_irrefl in H2|]. by apply (sid_lt_irrefl a), (sid_lt_trans _ b). Qed.

(** ** Streams and their consumer groups *)

Definition message : Type := gmap string string.

Record group := {
  g_last : sid;       (* last-delivered-id *)
  g_pel : list sid;   (* pending entries, in delivery order *)
}.

(** [st_trimmed] is a ghost field: the entries trimming has removed. *)
Record stream := {
  st_entries : list (sid * message);
  st_last : sid;      (* last-generated-id *)
  st_groups : gmap string group;
  st_trimmed : list (sid * message);
}.

Abbreviation increasing_ids := (StronglySorted sid_lt).

Record group_wf (last : sid) (g : group) : Prop := {
  gw_sorted : increasing_ids (g_pel g);
  gw_pel : ∀ x, x ∈ g_pel g → sid_le x (g_last g) ∧ sid_ok x;
  gw_last : sid_ok (g_last g);
  gw_le : sid_le (g_last g) last;
}.

Record stream_wf (s : stream) : Prop := {
  sw_sorted : StronglySorted (λ a b, sid_lt a.1 b.1) (st_entries s);
  sw_ok : ∀ e, e ∈ st_entries s → sid_ok e.1 ∧ sid_le e.1 (st_last s);
  sw_last : sid_ok (st_last s);
  sw_groups : map_Forall (λ _ g, group_wf (st_last s) g) (st_groups s);
}.

Abbreviation streams := (gmap string stream).
Definition streams_wf (m : streams) : Prop := map_Forall (λ _ s, stream_wf s) m.

(** ** Commands *)

Definition empty_stream : stream :=
  {| st_entries := []; st_last := (0, 0)%Z; st_groups := ∅; st_trimmed := [] |}.

Definition xadd (id : sid) (v : message) (s : stream) : stream :=
  {| st_entries := st_entries s ++ [(id, v)]; st_last := id; st_groups := st_groups s;
     st_trimmed := st_trimmed s |}.

Definition set_groups (gs : gmap string group) (s : stream) : stream :=
  {| st_entries := st_entries s; st_last := st_last s; st_groups := gs; st_trimmed := st_trimmed s |}.

(** XREADGROUP with [>]: up to [count] entries past the last delivered one. *)
Definition deliverable (g : group) (s : stream) : list (sid * message) :=
  filter (λ e, sid_ltb (g_last g) e.1 = true) (st_entries s).

Definition deliver (name : string) (count : nat) (s : stream) : stream :=
  match st_groups s !! name with
  | None => s
  | Some g =>
      let es := (take count (deliverable g s)).*1 in
      set_groups (<[name := {| g_last := default (g_last g) (last es); g_pel := g_pel g ++ es |}]>
                    (st_groups s)) s
  end.

(** Removal of one pending entry: XACK, and XAUTOCLAIM on a deleted entry. *)
Definition xack (name : string) (id : sid) (s : stream) : stream :=
  match st_groups s !! name with
  | None => s
  | Some g => set_groups (<[name := {| g_last := g_last g;
                                       g_pel := filter (λ x, x ≠ id) (g_pel g) |}]> (st_groups s)) s
  end.

Definition create_group (name : string) (start : sid) (s : stream) : stream :=
  match st_groups s !! name with
  | Some _ => s
  | None => set_groups (<[name := {| g_last := start; g_pel := [] |}]> (st_groups s)) s
  end.

Definition xtrim_minid (id : sid) (s : stream) : stream :=
  {| st_entries := filter (λ e, sid_ltb e.1 id = false) (st_entries s);
     st_last := st_last s; st_groups := st_groups s;
     st_trimmed := st_trimmed s ++ filter (λ e, sid_ltb e.1 id = true) (st_entries s) |}.

(** ** Other clients

    What producers and consumers do to the streams of a server between two
    commands of a retention pass: append entries, create groups, read through
    a group and acknowledge. They never trim, and they never destroy a group
    or move it back. *)

Inductive client_step : streams → streams → Prop :=
| cs_create k m : m !! k = None → client_step m (<[k := empty_stream]> m)
| cs_add k s id v m :
    m !! k = Some s → sid_ok id → sid_lt (st_last s) id → client_step m (<[k := xadd id v s]> m)
| cs_group k s name start m :
    m !! k = Some s → sid_ok start → sid_le start (st_last s) →
    client_step m (<[k := create_group name start s]> m)
| cs_read k s name count m : m !! k = Some s → client_step m (<[k := deliver name count s]> m)
| cs_ack k s name id m : m !! k = Some s → client_step m (<[k := xack name id s]> m).

Abbreviation clients := (rtc client_step).

(** A group has settled an identifier: it was delivered and acknowledged. *)
Definition settled (g : group) (x : sid) : Prop := sid_le x (g_last g) ∧ x ∉ g_pel g.

(** Every identifier below [f] is settled. *)
Definition passed (g : group) (f : sid) : Prop := ∀ x, sid_lt x f → settled g x.

(** How a group can change: nothing settled becomes unsettled. *)
Definition group_le (g g' : group) : Prop := ∀ x, settled g x → settled g' x.

(** How the streams of a server change under the clients: trimmed entries
    stay as they are, groups persist and only progress. *)
Definition streams_le (m m' : streams) : Prop :=
  ∀ k s, m !! k = Some s → ∃ s', m' !! k = Some s' ∧ st_trimmed s' = st_trimmed s ∧
    ∀ name g, st_groups s !! name = Some g → ∃ g', st_groups s' !! name = Some g' ∧ group_le g g'.

#[export] Instance group_le_preorder : PreOrder group_le.
Proof. split; [by intros g x|]. intros g1 g2 g3 H1 H2 x Hx. by apply H2, H1. Qed.

#[export] Instance streams_le_preorder : PreOrder streams_le.
Proof.
  split.
  - intros m k s Hs. exists s. split_and!; [done|done|]. intros name g Hg. by exists g.
  - intros m1 m2 m3 H12 H23 k s Hs. destruct (H12 k s Hs) as (s2 & Hs2 & Ht2 & Hg2).
    destruct (H23 k s2 Hs2) as (s3 & Hs3 & Ht3 & Hg3).
    exists s3. split_and!; [done|congruence|]. intros name g Hg.
    destruct (Hg2 name g Hg) as (g2 & Hg2' & Hle2). destruct (Hg3 name g2 Hg2') as (g3 & Hg3' & Hle3).
    exists g3. split; [done|]. by transitivity g2.
Qed.

(** An update of one stream that keeps what was trimmed and lets its groups
    progress. *)
Lemma streams_le_insert m k s s' :
  m !! k = Some s → st_trimmed s' = st_trimmed s →
  (∀ name g, st_groups s !! name = Some g → ∃ g', st_groups s' !! name = Some g' ∧ group_le g g') →
  streams_le m (<[k := s']> m).
Proof.
  intros Hs Ht Hg j t Hj. destruct (decide (j = k)) as [->|Hne].
  - assert (t = s) as -> by congruence. exists s'. rewrite lookup_insert_eq. done.
  - rewrite lookup_insert_ne by done. exists t. split_and!; [done|done|].
    intros name g Hn. by exists g.
Qed.

Lemma deliver_settled g es :
  (∀ y, y ∈ es → sid_lt (g_last g) y) → increasing_ids es →
  group_le g {| g_last := default (g_last g) (last es); g_pel := g_pel g ++ es |}.
Proof.
  intros Hgt Hinc x [Hle Hpel]. split; simpl.
  - destruct (last es) as [y|] eqn:Hl; simpl; [|done].
    right. eapply sid_le_lt_trans; [done|]. apply Hgt. by apply last_Some_elem_of.
  - rewrite elem_of_app. intros [?|Hin]; [done|].
    by apply (sid_le_not_lt _ _ Hle), Hgt.
Qed.

Lemma StronglySorted_filter {A} (R : A → A → Prop) (P : A → Prop) `{∀ x, Decision (P x)} l :
  StronglySorted R l → StronglySorted R (filter P l).
Proof.
  induction 1 as [|a l Hs IH Hall]; [constructor|].
  destruct (decide (P a)); [rewrite filter_cons_True by done|by rewrite filter_cons_False by done].
  constructor; [done|]. rewrite Forall_forall in *. intros b [_ Hb]%list_elem_of_filter. by apply Hall.
Qed.

Lemma StronglySorted_take {A} (R : A → A → Prop) n l : StronglySorted R l → StronglySorted R (take n l).
Proof.
  intros Hs. revert n. induction Hs as [|a l Hs IH Hall]; intros [|n]; simpl; try constructor; [apply IH|].
  by apply Forall_take.
Qed.

Lemma StronglySorted_fst (l : list (sid * message)) :
  StronglySorted (λ a b, sid_lt a.1 b.1) l → increasing_ids l.*1.
Proof.
  induction 1 as [|a l Hs IH Hall]; [constructor|]. constructor; [done|].
  fold (fmap (M := list) fst l). by apply Forall_fmap.
Qed.

Lemma StronglySorted_snoc {A} (R : A → A → Prop) l x :
  StronglySorted R l → (∀ y, y ∈ l → R y x) → StronglySorted R (l ++ [x]).
Proof.
  induction 1 as [|a l Hs IH Hall]; intros Hx; simpl; [repeat constructor|].
  constructor; [apply IH; set_solver|]. rewrite Forall_app. split; [done|]. constructor; [set_solver|constructor].
Qed.

Lemma StronglySorted_app_2 {A} (R : A → A → Prop) l1 l2 :
  StronglySorted R l1 → StronglySorted R l2 → (∀ x y, x ∈ l1 → y ∈ l2 → R x y) →
  StronglySorted R (l1 ++ l2).
Proof.
  intros H1 H2. induction H1 as [|a l Hs IH Hall]; intros Hx; simpl; [done|].
  constructor; [apply IH; set_solver|]. rewrite Forall_app. split; [done|].
  rewrite Forall_forall. set_solver.
Qed.

(** What XREADGROUP hands out. *)
Lemma delivered_ids g s count :
  stream_wf s → let es := (take count (deliverable g s)).*1 in
  increasing_ids es ∧ (∀ y, y ∈ es → sid_lt (g_last g) y ∧ sid_ok y ∧ sid_le y (st_last s)).
Proof.
  intros Hwf es. split.
  - apply StronglySorted_fst, StronglySorted_take, StronglySorted_filter, Hwf.
  - intros y (e & -> & He)%list_elem_of_fmap. apply elem_of_take in He as (i & He & _).
    apply list_elem_of_lookup_2 in He.
    apply list_elem_of_filter in He as [Hlt He]. apply sid_ltb_spec in Hlt.
    split; [done|]. by apply Hwf.
Qed.

Lemma client_step_le m m' : streams_wf m → client_step m m' → streams_le m m'.
Proof.
  intros Hwf. destruct 1 as [k m Hk|k s id v m Hs _ _|k s name start m Hs _ _|k s name count m Hs|k s name id m Hs].
  - intros j t Hj. exists t. rewrite lookup_insert_ne by congruence. split_and!; [done|done|].
    intros name g Hg. by exists g.
  - apply (streams_le_insert _ _ s); [done|done|]. intros n g Hg. by exists g.
  - apply (streams_le_insert _ _ s); [done|by unfold create_group; destruct (st_groups s !! name)|].
    intros n g Hg. unfold create_group. destruct (st_groups s !! name) eqn:E; [by exists g|].
    exists g. simpl. by rewrite lookup_insert_ne by congruence.
  - apply (streams_le_insert _ _ s); [done|by unfold deliver; destruct (st_groups s !! name)|].
    intros n g Hg. unfold deliver. destruct (st_groups s !! name) as [g0|] eqn:E; [|by exists g].
    simpl. destruct (decide (n = name)) as [->|?].
    + assert (g0 = g) as -> by congruence. rewrite lookup_insert_eq. eexists. split; [done|].
      destruct (delivered_ids g s count (Hwf k s Hs)) as [Hi Hd].
      apply deliver_settled; [|done]. intros y Hy. by apply Hd.
    + rewrite lookup_insert_ne by done. by exists g.
  - apply (streams_le_insert _ _ s); [done|by unfold xack; destruct (st_groups s !! name)|].
    intros n g Hg. unfold xack. destruct (st_groups s !! name) as [g0|] eqn:E; [|by exists g].
    simpl. destruct (decide (n = name)) as [->|?].
    + assert (g0 = g) as -> by congruence. rewrite lookup_insert_eq. eexists. split; [done|].
      intros x [? Hx]. split; [done|]. simpl. rewrite list_elem_of_filter. tauto.
    + rewrite lookup_insert_ne by done. by exists g.
Qed.

(** Clients keep streams well-formed. *)
Lemma stream_wf_groups s gs :
  stream_wf s → map_Forall (λ _ g, group_wf (st_last s) g) gs → stream_wf (set_groups gs s).
Proof. intros [? ? ? ?] ?. by split. Qed.

Lemma group_wf_mono a b g : sid_le a b → group_wf a g → group_wf b g.
Proof. intros Hab [? ? ? ?]. split; [done..|]. by eapply sid_le_trans. Qed.

Lemma xadd_wf id v s : stream_wf s → sid_ok id → sid_lt (st_last s) id → stream_wf (xadd id v s).
Proof.
  intros [Hs Hok Hl Hg] Hid Hlt. split; simpl; [|..|done|].
  - apply StronglySorted_snoc; [done|]. intros y Hy. simpl. eapply sid_le_lt_trans, Hlt. by apply Hok.
  - intros e. rewrite elem_of_app, list_elem_of_singleton. intros [He| ->]; simpl; [|by split; [|left]].
    destruct (Hok e He) as [? Hle]. split; [done|]. right. by eapply sid_le_lt_trans.
  - intros n g Hn. eapply group_wf_mono, Hg, Hn. by right.
Qed.

Lemma deliver_wf name count s : stream_wf s → stream_wf (deliver name count s).
Proof.
  intros Hwf. unfold deliver. destruct (st_groups s !! name) as [g|] eqn:E; [|done].
  apply stream_wf_groups; [done|]. apply map_Forall_insert_2; [|apply Hwf].
  destruct (sw_groups s Hwf name g E) as [Hgs Hgp Hgl Hge].
  destruct (delivered_ids g s count Hwf) as [Hi Hd].
  set (es := (take count (deliverable g s)).*1) in *.
  assert (∀ y, y ∈ es → sid_le y (default (g_last g) (last es))) as Hmax.
  { clear -Hi. induction Hi as [|a l Hs IH Hall]; intros y; [set_solver|].
    rewrite last_cons. intros [->|Hy]%elem_of_cons.
    - destruct (last l) as [z|] eqn:Hl; simpl; [|by left]. right.
      rewrite Forall_forall in Hall. by apply Hall, last_Some_elem_of.
    - specialize (IH y Hy). destruct (last l) as [z|] eqn:Hl; [done|].
      apply last_None in Hl as ->. set_solver. }
  split; simpl.
  - apply StronglySorted_app_2; [done|done|]. intros x y Hx Hy.
    eapply sid_le_lt_trans; [by apply Hgp|by apply Hd].
  - intros x [Hx|Hx]%elem_of_app; [|split; [by apply Hmax|by apply Hd]].
    destruct (Hgp x Hx) as [Hle ?]. split; [|done]. eapply sid_le_trans; [done|].
    destruct (last es) as [z|] eqn:Hl; simpl; [|by left]. right. apply Hd. by apply last_Some_elem_of.
  - destruct (last es) as [z|] eqn:Hl; simpl; [|done]. apply Hd. by apply last_Some_elem_of.
  - destruct (last es) as [z|] eqn:Hl; simpl; [|done]. apply Hd. by apply last_Some_elem_of.
Qed.

Lemma xack_wf name id s : stream_wf s → stream_wf (xack name id s).
Proof.
  intros Hwf. unfold xack. destruct (st_groups s !! name) as [g|] eqn:E; [|done].
  apply stream_wf_groups; [done|]. apply map_Forall_insert_2; [|apply Hwf].
  destruct (sw_groups s Hwf name g E) as [Hgs Hgp Hgl Hge]. split; simpl; [|..|done|done].
  - by apply StronglySorted_filter.
  - intros x [_ Hx]%list_elem_of_filter. by apply Hgp.
Qed.

Lemma create_group_wf name start s :
  stream_wf s → sid_ok start → sid_le start (st_last s) → stream_wf (create_group name start s).
Proof.
  intros Hwf ? ?. unfold create_group. destruct (st_groups s !! name); [done|].
  apply stream_wf_groups; [done|]. apply map_Forall_insert_2; [|apply Hwf].
  split; simpl; [constructor|set_solver|done|done].
Qed.

Lemma xtrim_wf f s : stream_wf s → stream_wf (xtrim_minid f s).
Proof.
  intros [Hs Hok Hl Hg]. split; simpl; [by apply StronglySorted_filter| |done|done].
  intros e [_ He]%list_elem_of_filter. by apply Hok.
Qed.

Lemma client_step_wf m m' : streams_wf m → client_step m m' → streams_wf m'.
Proof.
  intros Hwf. destruct 1 as [k m Hk|k s id v m Hs ? ?|k s name start m Hs ? ?|k s name count m Hs|k s name id m Hs];
    (apply map_Forall_insert_2; [|done]); try (pose proof (Hwf _ _ Hs)).
  - split; simpl; [constructor|set_solver|by unfold sid_ok, max_uint64|apply map_Forall_empty].
  - by apply xadd_wf.
  - by apply create_group_wf.
  - by apply deliver_wf.
  - by apply xack_wf.
Qed.

Lemma clients_le m m' : streams_wf m → clients m m' → streams_wf m' ∧ streams_le m m'.
Proof.
  intros Hwf Hc. revert Hwf. induction Hc as [m|m1 m2 m3 Hs _ IH]; intros Hwf; [done|].
  pose proof (client_step_wf _ _ Hwf Hs) as Hwf2. destruct (IH Hwf2) as [? ?].
  split; [done|]. transitivity m2; [|done]. by apply client_step_le.
Qed.

(** ** Trimming *)

(** A change of the streams in which every entry that was trimmed is settled
    for every consumer group that existed at the start. *)
Definition trim_safe (m m' : streams) : Prop :=
  ∀ k s, m !! k = Some s → ∃ s' new, m' !! k = Some s' ∧ st_trimmed s' = st_trimmed s ++ new ∧
    ∀ name g, st_groups s !! name = Some g →
      ∃ g', st_groups s' !! name = Some g' ∧ group_le g g' ∧ ∀ e, e ∈ new → settled g' e.1.

#[export] Instance trim_safe_preorder : PreOrder trim_safe.
Proof.
  split.
  - intros m k s Hs. exists s, []. rewrite app_nil_r. split_and!; [done|done|].
    intros name g Hg. exists g. split_and!; [done|done|set_solver].
  - intros m1 m2 m3 H12 H23 k s Hs. destruct (H12 k s Hs) as (s2 & n2 & Hs2 & Ht2 & Hg2).
    destruct (H23 k s2 Hs2) as (s3 & n3 & Hs3 & Ht3 & Hg3).
    exists s3, (n2 ++ n3). split_and!; [done|by rewrite Ht3, Ht2, app_assoc|]. intros name g Hg.
    destruct (Hg2 name g Hg) as (g2 & Hg2' & Hle2 & Hn2).
    destruct (Hg3 name g2 Hg2') as (g3 & Hg3' & Hle3 & Hn3).
    exists g3. split_and!; [done|by transitivity g2|].
    intros e [He|He]%elem_of_app; [by apply Hle3, Hn2|by apply Hn3].
Qed.

#[export] Instance streams_le_trim_safe : subrelation streams_le trim_safe.
Proof.
  intros m m' Hle k s Hs. destruct (Hle k s Hs) as (s' & Hs' & Ht & Hg).
  exists s', []. rewrite app_nil_r. split_and!; [done|done|]. intros name g Hn.
  destruct (Hg name g Hn) as (g' & ? & ?). exists g'. split_and!; [done|done|set_solver].
Qed.

Lemma passed_le g g' f : group_le g g' → passed g f → passed g' f.
Proof. intros Hle Hp x Hx. by apply Hle, Hp. Qed.

Lemma passed_mono g f f' : sid_le f' f → passed g f → passed g f'.
Proof. intros Hle Hp x Hx. apply Hp. by eapply sid_lt_le_trans. Qed.

(** A group has passed its last delivered entry when nothing is pending, and
    its oldest pending entry otherwise. *)
Lemma passed_idle g : g_pel g = [] → passed g (g_last g).
Proof. intros Hp x Hx. split; [by right|]. rewrite Hp. set_solver. Qed.

Lemma passed_oldest last g x rest : group_wf last g → g_pel g = x :: rest → passed g x.
Proof.
  intros [Hs Hpel _ _] Hp y Hy. rewrite Hp in Hs. split.
  - right. eapply sid_lt_le_trans; [done|]. apply Hpel. rewrite Hp. set_solver.
  - rewrite Hp. intros [->|Hin]%elem_of_cons; [by apply sid_lt_irrefl in Hy|].
    inversion Hs as [|? ? _ Hall]; subst. rewrite Forall_forall in Hall.
    by apply (sid_lt_irrefl y), (sid_lt_trans _ x), Hall.
Qed.

(** Trimming below a point that every group of an earlier state has passed is
    safe for that earlier state. *)
Lemma xtrim_safe m0 m k s f :
  streams_le m0 m → m !! k = Some s →
  (∀ s0 name g, m0 !! k = Some s0 → is_Some (st_groups s0 !! name) →
     st_groups s !! name = Some g → passed g f) →
  trim_safe m0 (<[k := xtrim_minid f s]> m).
Proof.
  intros Hle Hs Hp j t Hj. destruct (Hle j t Hj) as (t' & Ht' & Htr & Hg).
  destruct (decide (j = k)) as [->|Hne].
  - assert (t' = s) as -> by congruence. rewrite lookup_insert_eq.
    eexists _, _. split_and!; [done|by rewrite <- Htr|].
    intros name g Hn. destruct (Hg name g Hn) as (g' & Hg' & Hgle). exists g'. split_and!; [done|done|].
    intros e [He _]%list_elem_of_filter. apply (Hp t name g'); [done|by eexists|done|]. by apply sid_ltb_spec.
  - rewrite lookup_insert_ne by done. exists t', []. rewrite app_nil_r. split_and!; [done|done|].
    intros name g Hn. destruct (Hg name g Hn) as (g' & Hg' & Hgle). exists g'. split_and!; [done|done|set_solver].
Qed.

(** ** The server interface *)

Record XInfoGroup := {
  xg_name : string;
  xg_pending : Z;
  xg_last_delivered : string;
  xg_lag : Z;
}.

(** The answer to XINFO GROUPS; the lag is Redis's own estimate. *)
Definition info_of (s : stream) (gs : list XInfoGroup) : Prop :=
  (∀ i, i ∈ gs → ∃ g, st_groups s !! xg_name i = Some g ∧
     xg_pending i = Z.of_nat (length (g_pel g)) ∧ xg_last_delivered i = format_sid (g_last g)) ∧
  (∀ name, is_Some (st_groups s !! name) → ∃ i, i ∈ gs ∧ xg_name i = name).

(** The answer to the summary form of XPENDING: the number of pending entries
    and the smallest pending identifier. *)
Definition oldest_id (g : group) : string :=
  match g_pel g with [] => "" | x :: _ => format_sid x end.

Definition pending_of (g : group) (count : Z) (lower : string) : Prop :=
  count = Z.of_nat (length (g_pel g)) ∧
  lower = oldest_id g.

(** What a Redis server promises: every command is answered from one state of
    the server, at a point where any number of client steps have happened
    since the command was sent, and any number may follow before the answer
    arrives. A command that fails may have been executed. *)
Class StreamServer (R : Type) := {
  ss_view : R → streams;
  xInfoGroups : string → M R (list XInfoGroup * error);
  xPending : string → string → M R (Z * string * error);
  xLen : string → M R (Z * error);
  xTrimMinID : string → string → M R (Z * error);
  xInfoGroups_law k w : let '((gs, e), w') := xInfoGroups k w in
    ∃ m, clients (ss_view w) m ∧ clients m (ss_view w') ∧
      (e = [] → ∃ s, m !! k = Some s ∧ info_of s gs);
  xPending_law k name w : let '((n, lo, e), w') := xPending k name w in
    ∃ m, clients (ss_view w) m ∧ clients m (ss_view w') ∧
      (e = [] → ∃ s g, m !! k = Some s ∧ st_groups s !! name = Some g ∧ pending_of g n lo);
  xLen_law k w : let '((n, e), w') := xLen k w in clients (ss_view w) (ss_view w');
  xTrimMinID_law k f w : sid_ok f →
    let '((n, e), w') := xTrimMinID k (format_sid f) w in
    ∃ m m', clients (ss_view w) m ∧ clients m' (ss_view w') ∧
      ((m' = m ∧ (e ≠ [] ∨ n = 0%Z ∧ m !! k = None)) ∨
       (∃ s, m !! k = Some s ∧ m' = <[k := xtrim_minid f s]> m ∧
          (e = [] → n = Z.of_nat (length (filter (λ x, sid_ltb x.1 f = true) (st_entries s))))));
}.

(** ** A concrete server

    It runs the given client operations before each command and answers from
    the resulting state, failing where its script says so. *)

Inductive client_op :=
| ClAdd (k : string) (id : sid) (v : message)
| ClGroup (k name : string) (start : sid)
| ClRead (k name : string) (count : nat)
| ClAck (k name : string) (id : sid).

#[export] Instance sid_ok_dec a : Decision (sid_ok a).
Proof. unfold sid_ok. apply _. Defined.
#[export] Instance sid_lt_dec a b : Decision (sid_lt a b).
Proof. unfold sid_lt. apply _. Defined.
#[export] Instance sid_le_dec a b : Decision (sid_le a b).
Proof. unfold sid_le. apply _. Defined.

Definition do_client (op : client_op) (m : streams) : streams :=
  match op with
  | ClAdd k id v =>
      match m !! k with
      | None => m
      | Some s => if decide (sid_ok id ∧ sid_lt (st_last s) id) then <[k := xadd id v s]> m else m
      end
  | ClGroup k name start =>
      match m !! k with
      | None => m
      | Some s => if decide (sid_ok start ∧ sid_le start (st_last s))
                  then <[k := create_group name start s]> m else m
      end
  | ClRead k name count =>
      match m !! k with None => m | Some s => <[k := deliver name count s]> m end
  | ClAck k name id => match m !! k with None => m | Some s => <[k := xack name id s]> m end
  end.

Record Server := {
  sv_streams : streams;
  sv_script : list (list client_op * bool);  (* client steps, then: does the command fail? *)
}.

Definition tick (w : Server) : bool * streams * list (list client_op * bool) :=
  match sv_script w with
  | [] => (false, sv_streams w, [])
  | (ops, b) :: rest => (b, foldl (λ m op, do_client op m) (sv_streams w) ops, rest)
  end.

Lemma do_client_step op m : clients m (do_client op m).
Proof.
  destruct op; simpl; case_match; try done; try case_decide; try done;
    apply rtc_once; try (destruct_and!); by econstructor.
Qed.

Lemma tick_clients w : clients (sv_streams w) (tick w).1.2.
Proof.
  unfold tick. destruct (sv_script w) as [|[ops b] rest]; simpl; [done|].
  generalize (sv_streams w). induction ops as [|op ops IH]; intros m; simpl; [done|].
  etrans; [apply do_client_step|apply IH].
Qed.

Definition group_info (p : string * group) : XInfoGroup :=
  {| xg_name := p.1; xg_pending := Z.of_nat (length (g_pel p.2));
     xg_last_delivered := format_sid (g_last p.2); xg_lag := 0 |}.

Lemma group_info_of s : info_of s (group_info <$> map_to_list (st_groups s)).
Proof.
  split.
  - intros i ([name g] & -> & Hg%elem_of_map_to_list)%list_elem_of_fmap. exists g. done.
  - intros name [g Hg]. exists (group_info (name, g)). split; [|done].
    apply list_elem_of_fmap. exists (name, g). split; [done|]. by apply elem_of_map_to_list.
Qed.

(** The identifier in the argument of XTRIM MINID. *)
Definition read_sid (t : string) : option sid :=
  '(a, b) ← cut_dash t; ms ← parse_uint a; seq ← parse_uint b; Some (ms, seq).

Lemma read_sid_format a : sid_ok a → read_sid (format_sid a) = Some a.
Proof.
  intros [H1 H2]. unfold read_sid, format_sid.
  rewrite cut_dash_app by (apply itoa_no_char; [lia|done]). simpl.
  rewrite !parse_uint_itoa by done. by destruct a.
Qed.

#[export] Program Instance scripted_server : StreamServer Server := {
  ss_view := sv_streams;
  xInfoGroups k := λ w, let '(b, m, rest) := tick w in
    (match m !! k with
     | Some s => if b : bool then ([], [ErrDriver]) else (group_info <$> map_to_list (st_groups s), [])
     | None => ([], [ErrDriver]) end, {| sv_streams := m; sv_script := rest |});
  xPending k name := λ w, let '(b, m, rest) := tick w in
    (match m !! k with
     | Some s => match st_groups s !! name with
                 | Some g => if b : bool then (0%Z, "", [ErrDriver])
                             else (Z.of_nat (length (g_pel g)), oldest_id g, [])
                 | None => (0%Z, "", [ErrDriver]) end
     | None => (0%Z, "", [ErrDriver]) end, {| sv_streams := m; sv_script := rest |});
  xLen k := λ w, let '(b, m, rest) := tick w in
    (if b : bool then (0%Z, [ErrDriver])
     else (Z.of_nat (length (default [] (st_entries <$> m !! k))), []),
     {| sv_streams := m; sv_script := rest |});
  xTrimMinID k t := λ w, let '(b, m, rest) := tick w in
    if b : bool then ((0%Z, [ErrDriver]), {| sv_streams := m; sv_script := rest |})
    else match read_sid t, m !! k with
         | Some f, Some s =>
             ((Z.of_nat (length (filter (λ x, sid_ltb x.1 f = true) (st_entries s))), []),
              {| sv_streams := <[k := xtrim_minid f s]> m; sv_script := rest |})
         | None, Some _ => ((0%Z, [ErrDriver]), {| sv_streams := m; sv_script := rest |})
         | _, None => ((0%Z, []), {| sv_streams := m; sv_script := rest |})
         end;
}.
Next Obligation.
  intros k w. simpl. pose proof (tick_clients w) as Ht. destruct (tick w) as [[b m] rest]. simpl in *.
  destruct (m !! k) as [s|] eqn:Hk; [destruct b|]; (exists m; split_and!; [done|done|]); try done.
  intros _. exists s. split; [done|]. apply group_info_of.
Qed.
Next Obligation.
  intros k name w. simpl. pose proof (tick_clients w) as Ht. destruct (tick w) as [[b m] rest]. simpl in *.
  destruct (m !! k) as [s|] eqn:Hk; [destruct (st_groups s !! name) as [g|] eqn:Hg; [destruct b|]|];
    (exists m; split_and!; [done|done|]); try done.
  intros _. exists s, g. split_and!; [done|done|by split].
Qed.
Next Obligation.
  intros k w. simpl. pose proof (tick_clients w) as Ht. destruct (tick w) as [[b m] rest]. by destruct b.
Qed.
Next Obligation.
  intros k f w Hf. simpl. pose proof (tick_clients w) as Ht. destruct (tick w) as [[b m] rest]. simpl in *.
  rewrite read_sid_format by done.
  destruct b; [exists m, m; split_and!; [done|done|]; left; split; [done|by left]|].
  destruct (m !! k) as [s|] eqn:Hk.
  - eexists m, _. split_and!; [done|done|]. right. by exists s.
  - exists m, m. split_and!; [done|done|]. left. split; [done|by right].
Qed.
