(* ===== verification/StreamRetention.v ===== *)
(** * Stream retention

    [internal/infra/redis/retention.go]: the pass that computes how far every
    consumer group of a stream has progressed and trims the stream below that
    frontier. The pass issues several commands while producers and consumers
    keep working; the theorems quantify over everything those do in between
    ([RedisStream.clients]). Metrics and log lines are not modelled. *)

From stdpp Require Import base tactics gmap strings list relations.
From Stdlib Require Import ZArith Lia Ascii.
From S2P Require Import Prelude GoLib RedisStream.

Definition ErrMalformedStreamID : string := "malformed stream ID".
Definition ErrRetentionSpec : string := "stream name, kind, and expected groups are required".
Definition ErrNoGroups : string := "stream has no consumer groups".
Definition ErrNegativePending : string := "negative pending count".
Definition ErrContradictoryPEL : string := "contradictory PEL summary".
Definition ErrExpectedGroupMissing : string := "expected consumer group is missing".

Record StreamSpec := {
  Name : string;
  Kind : string;
  Namespace : string;
  ExpectedGroups : list string;
}.

Record RetentionResult := {
  SafeFrontier : string;
  Length : Z;
  Pending : Z;
  Undelivered : Z;
  UnexpectedGroups : Z;
  Trimmed : Z;
  DryRun : bool;
}.

Record RetentionError := { Stage : string; Err : error }.

Record retentionGroup := {
  rg_Name : string;
  rg_Pending : Z;
  rg_LastDeliveredID : string;
  rg_Lag : Z;
}.

Record retentionPending := { rp_Count : Z; rp_OldestID : string }.

(** [parseStreamID] and [compareStreamIDs]; [None] is the error. *)
Definition parseStreamID (id : string) : option (Z * Z) :=
  match cut_dash id with
  | None => None
  | Some (milliseconds, sequence) =>
      if bool_decide (milliseconds = "") || bool_decide (sequence = "") then None
      else
        match parse_uint milliseconds with
        | None => None
        | Some ms => match parse_uint sequence with None => None | Some seq => Some (ms, seq) end
        end
  end.

Definition compareStreamIDs (a b : string) : option Z :=
  match parseStreamID a with
  | None => None
  | Some (aMS, aSeq) =>
      match parseStreamID b with
      | None => None
      | Some (bMS, bSeq) =>
          if (aMS <? bMS)%Z || ((aMS =? bMS)%Z && (aSeq <? bSeq)%Z) then Some (-1)%Z
          else if (aMS =? bMS)%Z && (aSeq =? bSeq)%Z then Some 0%Z
          else Some 1%Z
      end
  end.

(** ** Stream identifiers *)

Lemma parseStreamID_format a : sid_ok a → parseStreamID (format_sid a) = Some a.
Proof.
  intros [H1 H2]. unfold parseStreamID, format_sid.
  rewrite cut_dash_app by (apply itoa_no_char; [lia|done]).
  rewrite !bool_decide_false by apply itoa_not_empty. simpl.
  rewrite !parse_uint_itoa by done. by destruct a.
Qed.

Lemma format_sid_not_empty a : format_sid a ≠ "".
Proof. unfold format_sid. destruct (itoa a.1) eqn:E; [by apply itoa_not_empty in E|done]. Qed.

Lemma compareStreamIDs_format a b :
  sid_ok a → sid_ok b →
  compareStreamIDs (format_sid a) (format_sid b) =
    Some (if sid_ltb a b then -1 else if bool_decide (a = b) then 0 else 1)%Z.
Proof.
  intros Ha Hb. unfold compareStreamIDs. rewrite !parseStreamID_format by done.
  destruct a as [x y], b as [u v]. unfold sid_ltb. simpl. case_match; [done|].
  destruct (Z.eqb_spec x u), (Z.eqb_spec y v); simpl;
    case_bool_decide; simplify_eq; done.
Qed.

(** Stream identifiers are read back exactly as Redis prints them, over the
    whole unsigned 64-bit range of both halves, and [compareStreamIDs] decides
    Redis's order on them: it answers -1, 0 or 1 exactly when the first is
    before, equal to or after the second. *)
Theorem stream_ids_ordered a b :
  sid_ok a → sid_ok b →
  parseStreamID (format_sid a) = Some a ∧
  (compareStreamIDs (format_sid a) (format_sid b) = Some (-1)%Z ↔ sid_lt a b) ∧
  (compareStreamIDs (format_sid a) (format_sid b) = Some 0%Z ↔ a = b) ∧
  (compareStreamIDs (format_sid a) (format_sid b) = Some 1%Z ↔ sid_lt b a).
Proof.
  intros Ha Hb. split; [by apply parseStreamID_format|]. rewrite compareStreamIDs_format by done.
  pose proof (sid_ltb_spec a b) as Hlt. destruct (sid_lt_total a b) as [Hl|[->|Hl]].
  - rewrite (proj2 Hlt Hl). split_and!; split; intros; try done; [by subst; apply sid_lt_irrefl in Hl|].
    exfalso. by apply (sid_lt_irrefl a), (sid_lt_trans _ b).
  - pose proof (sid_lt_irrefl b) as Hi. rewrite bool_decide_true by done.
    destruct (sid_ltb b b); [by destruct Hi; apply Hlt|]. by split_and!; split.
  - assert (¬ sid_lt a b) as Hn by (intros ?; by apply (sid_lt_irrefl a), (sid_lt_trans _ b)).
    destruct (sid_ltb a b); [by destruct Hn; apply Hlt|].
    rewrite bool_decide_false by (intros ->; by apply sid_lt_irrefl in Hl).
    split_and!; split; intros; try done. subst. by apply sid_lt_irrefl in Hl.
Qed.

Lemma stream_ids_ordered_witness :
  compareStreamIDs (format_sid (9, max_uint64)%Z) (format_sid (10, 0)%Z) = Some (-1)%Z.
Proof. apply stream_ids_ordered; [by vm_compute|by vm_compute|left; simpl; lia]. Defined.

Section retention.
Context {R : Type} `{StreamServer R}.

(** ** The backend over a Redis client *)

Definition Groups (stream : string) : M R (list retentionGroup * error) :=
  let! r := xInfoGroups stream in
  if negb (nil_err r.2) then ret ([], r.2)
  else ret ((λ g, {| rg_Name := xg_name g; rg_Pending := xg_pending g;
                     rg_LastDeliveredID := xg_last_delivered g; rg_Lag := xg_lag g |}) <$> r.1, []).

Definition backend_Pending (stream group : string) : M R (retentionPending * error) :=
  let! ' (n, lower, e) := xPending stream group in
  if negb (nil_err e) then ret ({| rp_Count := 0; rp_OldestID := "" |}, e)
  else ret ({| rp_Count := n; rp_OldestID := lower |}, []).

Definition backend_Length (stream : string) : M R (Z * error) :=
  let! ' (n, e) := xLen stream in
  if negb (nil_err e) then ret (0%Z, e) else ret (n, []).

Definition TrimMinID (stream frontier : string) : M R (Z * error) :=
  let! ' (n, e) := xTrimMinID stream frontier in
  if negb (nil_err e) then ret (0%Z, e) else ret (n, []).

(** ** The pass *)

(** The accumulators of the loop over the groups. *)
Record inspection := {
  i_expected : gmap string bool;
  i_unexpected : Z;
  i_pending : Z;
  i_undelivered : Z;
  i_frontier : string;
}.

Definition fail (stage : string) (e : error) : M R (RetentionError + inspection) :=
  ret (inl {| Stage := stage; Err := e |}).

(** The second half of an iteration: the candidate frontier of the group is
    parsed and folded into the minimum. *)
Definition merge_candidate (group : retentionGroup) (candidate : string) (i : inspection)
    : RetentionError + inspection :=
  match parseStreamID candidate with
  | None => inl {| Stage := "frontier"; Err := [ErrMalformedStreamID] |}
  | Some _ =>
      let undelivered :=
        if (i_undelivered i <? rg_Lag group)%Z then rg_Lag group else i_undelivered i in
      let with_frontier f :=
        {| i_expected := i_expected i; i_unexpected := i_unexpected i; i_pending := i_pending i;
           i_undelivered := undelivered; i_frontier := f |} in
      if bool_decide (i_frontier i = "") then inr (with_frontier candidate)
      else
        match compareStreamIDs candidate (i_frontier i) with
        | None => inl {| Stage := "frontier"; Err := [ErrMalformedStreamID] |}
        | Some cmp => inr (with_frontier (if (cmp <? 0)%Z then candidate else i_frontier i))
        end
  end.

(** One iteration of the loop over the groups. *)
Definition inspect_group (stream : string) (group : retentionGroup) (i : inspection)
    : M R (RetentionError + inspection) :=
  let known := bool_decide (is_Some (i_expected i !! rg_Name group)) in
  let i := {| i_expected := if known then <[rg_Name group := true]> (i_expected i) else i_expected i;
              i_unexpected := if known then i_unexpected i else (i_unexpected i + 1)%Z;
              i_pending := i_pending i; i_undelivered := i_undelivered i;
              i_frontier := i_frontier i |} in
  if (rg_Pending group <? 0)%Z then fail "frontier" [ErrNegativePending]
  else if (0 <? rg_Pending group)%Z then
    let! ' (pending, pendingErr) := backend_Pending stream (rg_Name group) in
    if negb (nil_err pendingErr) then fail "pel" pendingErr
    else if negb (rp_Count pending =? rg_Pending group)%Z || (rp_Count pending <=? 0)%Z
            || bool_decide (rp_OldestID pending = "")
    then fail "frontier" [ErrContradictoryPEL]
    else
      ret (merge_candidate group (rp_OldestID pending)
        {| i_expected := i_expected i; i_unexpected := i_unexpected i;
           i_pending := to_int64 (i_pending i + rp_Count pending);
           i_undelivered := i_undelivered i; i_frontier := i_frontier i |})
  else ret (merge_candidate group (rg_LastDeliveredID group) i).

Fixpoint inspect_groups (stream : string) (gs : list retentionGroup) (i : inspection)
    : M R (RetentionError + inspection) :=
  match gs with
  | [] => ret (inr i)
  | g :: rest =>
      let! r := inspect_group stream g i in
      match r with
      | inl e => ret (inl e)
      | inr i' => inspect_groups stream rest i'
      end
  end.

Definition RunOnce (dryRun : bool) (spec : StreamSpec) : M R (RetentionError + RetentionResult) :=
  if bool_decide (Name spec = "") || bool_decide (Kind spec = "") || bool_decide (ExpectedGroups spec = [])
  then ret (inl {| Stage := "groups"; Err := [ErrRetentionSpec] |})
  else
    let! ' (groups, err) := Groups (Name spec) in
    if negb (nil_err err) then ret (inl {| Stage := "groups"; Err := err |})
    else if bool_decide (groups = []) then ret (inl {| Stage := "groups"; Err := [ErrNoGroups] |})
    else
      let expected := list_to_map ((λ g, (g, false)) <$> ExpectedGroups spec) in
      let! r := inspect_groups (Name spec) groups
        {| i_expected := expected; i_unexpected := 0; i_pending := 0; i_undelivered := 0;
           i_frontier := "" |} in
      match r with
      | inl e => ret (inl e)
      | inr i =>
          if negb (forallb snd (map_to_list (i_expected i)))
          then ret (inl {| Stage := "groups"; Err := [ErrExpectedGroupMissing] |})
          else
            let! ' (len, err) := backend_Length (Name spec) in
            if negb (nil_err err) then ret (inl {| Stage := "length"; Err := err |})
            else
              let result trimmed :=
                {| SafeFrontier := i_frontier i; Length := len; Pending := i_pending i;
                   Undelivered := i_undelivered i; UnexpectedGroups := i_unexpected i;
                   Trimmed := trimmed; DryRun := dryRun |} in
              if dryRun then ret (inr (result 0%Z))
              else
                let! ' (trimmed, err) := TrimMinID (Name spec) (i_frontier i) in
                if negb (nil_err err) then ret (inl {| Stage := "trim"; Err := err |})
                else ret (inr (result trimmed))
      end.

(** One tick of [RunRetentionLoop]: a stream that fails is logged and the next
    one is processed. *)
Fixpoint run_specs (dryRun : bool) (specs : list StreamSpec) : M R () :=
  match specs with
  | [] => ret tt
  | spec :: rest => RunOnce dryRun spec ;;! run_specs dryRun rest
  end.

Definition runPass (dryRun : bool) (provider : M R (list StreamSpec * error)) : M R () :=
  let! ' (specs, err) := provider in
  if negb (nil_err err) then ret tt else run_specs dryRun specs.

(** ** Correctness of the inspection *)

(** The group [name] of stream [k] has passed [f]. *)
Definition name_passed (m : streams) (k name : string) (f : sid) : Prop :=
  ∃ s g, m !! k = Some s ∧ st_groups s !! name = Some g ∧ passed g f.

Lemma name_passed_le m m' k name f : streams_le m m' → name_passed m k name f → name_passed m' k name f.
Proof.
  intros Hle (s & g & Hs & Hg & Hp). destruct (Hle k s Hs) as (s' & Hs' & _ & Hgs).
  destruct (Hgs name g Hg) as (g' & Hg' & Hgle). exists s', g'. split_and!; [done|done|by eapply passed_le].
Qed.

Lemma name_passed_mono m k name f f' : sid_le f' f → name_passed m k name f → name_passed m k name f'.
Proof. intros Hle (s & g & ? & ? & Hp). exists s, g. split_and!; [done|done|by eapply passed_mono]. Qed.

(** The loop invariant: the frontier is an identifier every inspected group
    has passed. *)
Definition frontier_inv (m : streams) (k : string) (names : list string) (i : inspection) : Prop :=
  (i_frontier i = "" ∧ names = []) ∨
  ∃ f, sid_ok f ∧ i_frontier i = format_sid f ∧ ∀ name, name ∈ names → name_passed m k name f.

Lemma frontier_inv_le m m' k names i :
  streams_le m m' → frontier_inv m k names i → frontier_inv m' k names i.
Proof.
  intros Hle [Hi|(f & Hf & Hi & Hn)]; [by left|right]. exists f. split_and!; [done|done|].
  intros name Hname. eapply name_passed_le; [done|by apply Hn].
Qed.

Lemma merge_candidate_spec m k names grp i c :
  frontier_inv m k names i → sid_ok c → name_passed m k (rg_Name grp) c →
  ∃ i', merge_candidate grp (format_sid c) i = inr i' ∧
    frontier_inv m k (rg_Name grp :: names) i' ∧ i_expected i' = i_expected i.
Proof.
  intros Hinv Hc Hp. unfold merge_candidate. rewrite parseStreamID_format by done.
  destruct Hinv as [[He ->]|(f & Hf & He & Hn)]; rewrite He.
  - rewrite bool_decide_true by done. eexists. split_and!; [done| |done].
    right. exists c. split_and!; [done|done|]. intros name ->%list_elem_of_singleton. done.
  - rewrite bool_decide_false by apply format_sid_not_empty.
    rewrite compareStreamIDs_format by done. eexists. split_and!; [done| |done]. right. simpl.
    pose proof (sid_ltb_spec c f) as Hcmp. destruct (sid_ltb c f).
    + exists c. split_and!; [done|done|]. intros name [->|Hname]%elem_of_cons; [done|].
      eapply name_passed_mono; [|by apply Hn]. right. by apply Hcmp.
    + exists f. split_and!; [done|by case_bool_decide|]. intros name [->|Hname]%elem_of_cons; [|by apply Hn].
      eapply name_passed_mono; [|done].
      destruct (sid_lt_total c f) as [Hl|[->|Hl]]; [by apply Hcmp in Hl|by left|by right].
Qed.

(** What the listing said about a group at the state [m0] it was read from. *)
Definition listed (m0 : streams) (k : string) (grp : retentionGroup) : Prop :=
  ∃ s g, m0 !! k = Some s ∧ st_groups s !! rg_Name grp = Some g ∧
    rg_Pending grp = Z.of_nat (length (g_pel g)) ∧ rg_LastDeliveredID grp = format_sid (g_last g).

(** How an iteration treats the expected groups. *)
Definition marks (name : string) (i i' : inspection) : Prop :=
  dom (i_expected i') = dom (i_expected i) ∧
  ∀ n, i_expected i' !! n = Some true → i_expected i !! n = Some true ∨ n = name.

Lemma marks_known name i e :
  e = (if bool_decide (is_Some (i_expected i !! name)) then <[name := true]> (i_expected i) else i_expected i) →
  dom e = dom (i_expected i) ∧ ∀ n, e !! n = Some true → i_expected i !! n = Some true ∨ n = name.
Proof.
  intros ->. case_bool_decide as Hk; [|split; [done|tauto]]. split.
  - rewrite dom_insert_L. apply elem_of_dom in Hk. set_solver.
  - intros n. destruct (decide (n = name)) as [->|]; [tauto|rewrite lookup_insert_ne by done; tauto].
Qed.

Lemma inspect_group_spec m0 k names grp i w :
  streams_wf m0 → listed m0 k grp → clients m0 (ss_view w) → frontier_inv (ss_view w) k names i →
  let '(r, w') := inspect_group k grp i w in
  clients (ss_view w) (ss_view w') ∧
  (∀ e, r = inl e → Stage e ≠ "trim") ∧
  (∀ i', r = inr i' → frontier_inv (ss_view w') k (rg_Name grp :: names) i' ∧ marks (rg_Name grp) i i').
Proof.
  intros Hwf0 (s & g & Hs & Hg & Hpn & Hld) Hc Hinv. unfold inspect_group.
  destruct (clients_le _ _ Hwf0 Hc) as [Hwf Hle].
  destruct (Z.ltb_spec (rg_Pending grp) 0); [lia|].
  destruct (Z.ltb_spec 0 (rg_Pending grp)) as [Hpos|Hz].
  - unfold bind, backend_Pending, bind. pose proof (xPending_law k (rg_Name grp) w) as Hlaw.
    destruct (xPending k (rg_Name grp) w) as [[[n lo] e] w'].
    destruct Hlaw as (m & Hc1 & Hc2 & Hans). assert (clients (ss_view w) (ss_view w')) as Hcc by by etrans.
    destruct e as [|x e]; go; [|split_and!; [done| |done]; by intros ? [= <-]].
    destruct (Hans eq_refl) as (s1 & g1 & Hs1 & Hg1 & -> & ->). cbn [rp_Count rp_OldestID].
    unfold oldest_id in *. destruct (g_pel g1) as [|x rest] eqn:Hpel.
    + simpl. rewrite orb_true_r. go. split_and!; [done| |done]. by intros ? [= <-].
    + rewrite (bool_decide_false (format_sid x = "")) by apply format_sid_not_empty.
      rewrite orb_false_r.
      match goal with |- context [if ?b then _ else _] => destruct b end;
        [split_and!; [done| |done]; by intros ? [= <-]|].
      destruct (clients_le _ _ Hwf Hc1) as [Hwf1 Hle1]. destruct (clients_le _ _ Hwf1 Hc2) as [Hwf2 Hle2].
      pose proof (sw_groups s1 (Hwf1 k s1 Hs1) _ _ Hg1) as Hgw.
      destruct (merge_candidate_spec (ss_view w') k names grp
        {| i_expected := if bool_decide (is_Some (i_expected i !! rg_Name grp))
                         then <[rg_Name grp := true]> (i_expected i) else i_expected i;
           i_unexpected := if bool_decide (is_Some (i_expected i !! rg_Name grp))
                           then i_unexpected i else (i_unexpected i + 1)%Z;
           i_pending := to_int64 (i_pending i + Z.of_nat (length (x :: rest)));
           i_undelivered := i_undelivered i; i_frontier := i_frontier i |} x) as (i' & Hm & Hf & He).
      { eapply frontier_inv_le; [|exact Hinv]. by transitivity m. }
      { apply (gw_pel _ _ Hgw). rewrite Hpel. set_solver. }
      { eapply name_passed_le; [exact Hle2|]. exists s1, g1. split_and!; [done|done|by apply (passed_oldest (st_last s1) _ _ rest)]. }
      unfold ret. simpl in Hm |- *. rewrite Hm. split_and!; [done|done|]. intros ? [= <-].
      split; [done|]. unfold marks. rewrite He. by apply marks_known.
  - assert (g_pel g = []) as Hpel by (destruct (g_pel g); [done|simpl in *; lia]).
    pose proof (sw_groups s (Hwf0 k s Hs) _ _ Hg) as Hgw. rewrite Hld.
    destruct (merge_candidate_spec (ss_view w) k names grp
        {| i_expected := if bool_decide (is_Some (i_expected i !! rg_Name grp))
                         then <[rg_Name grp := true]> (i_expected i) else i_expected i;
           i_unexpected := if bool_decide (is_Some (i_expected i !! rg_Name grp))
                           then i_unexpected i else (i_unexpected i + 1)%Z;
           i_pending := i_pending i;
           i_undelivered := i_undelivered i; i_frontier := i_frontier i |} (g_last g)) as (i' & Hm & Hf & He).
    { exact Hinv. }
    { exact (gw_last _ _ Hgw). }
    { eapply name_passed_le; [exact Hle|]. exists s, g. split_and!; [done|done|by apply passed_idle]. }
    unfold ret. rewrite Hm. split_and!; [done|done|]. intros ? [= <-].
    split; [done|]. unfold marks. rewrite He. by apply marks_known.
Qed.

Lemma inspect_groups_spec m0 k gs names i w :
  streams_wf m0 → (∀ grp, grp ∈ gs → listed m0 k grp) → clients m0 (ss_view w) →
  frontier_inv (ss_view w) k names i →
  let '(r, w') := inspect_groups k gs i w in
  clients (ss_view w) (ss_view w') ∧
  (∀ e, r = inl e → Stage e ≠ "trim") ∧
  (∀ i', r = inr i' → ∃ names', frontier_inv (ss_view w') k names' i' ∧
     (∀ n, n ∈ names' ↔ n ∈ names ∨ n ∈ rg_Name <$> gs) ∧
     dom (i_expected i') = dom (i_expected i) ∧
     (∀ n, i_expected i' !! n = Some true → i_expected i !! n = Some true ∨ n ∈ rg_Name <$> gs)).
Proof.
  intros Hwf0. revert names i w. induction gs as [|g gs IH]; intros names i w Hl Hc Hinv.
  - simpl. split_and!; [done|done|]. intros ? [= <-]. exists names. split_and!; [done|set_solver|done|tauto].
  - cbn [inspect_groups]. unfold bind.
    pose proof (inspect_group_spec m0 k names g i w Hwf0 ltac:(apply Hl; set_solver) Hc Hinv) as Hg.
    destruct (inspect_group k g i w) as [[e|i1] w1]; go.
    + destruct Hg as (? & Hst & _). split_and!; [done| |done]. intros ? [= <-]. by apply Hst.
    + destruct Hg as (Hc1 & _ & Hi1). destruct (Hi1 i1 eq_refl) as [Hinv1 [Hd1 Hm1]].
      specialize (IH (rg_Name g :: names) i1 w1 ltac:(set_solver) ltac:(by etrans) Hinv1).
      destruct (inspect_groups k gs i1 w1) as [r w2]. destruct IH as (Hc2 & Hst & Hi2).
      split_and!; [by etrans|done|]. intros i2 ->. destruct (Hi2 i2 eq_refl) as (names' & ? & Hn & Hd2 & Hm2).
      exists names'. split_and!; [done| |congruence|].
      * intros n. rewrite Hn. rewrite fmap_cons. set_solver.
      * intros n Hn2. rewrite fmap_cons. destruct (Hm2 n Hn2) as [Hn1|?]; [|set_solver].
        destruct (Hm1 n Hn1) as [?| ->]; set_solver.
Qed.
(** ** The pass *)

Lemma listing_spec k w :
  let '((gs, e), w') := Groups k w in
  ∃ m, clients (ss_view w) m ∧ clients m (ss_view w') ∧
    (e = [] → (∀ grp, grp ∈ gs → listed m k grp) ∧
       ∃ s, m !! k = Some s ∧ ∀ name, is_Some (st_groups s !! name) → name ∈ rg_Name <$> gs).
Proof.
  unfold Groups, bind. pose proof (xInfoGroups_law k w) as Hlaw.
  destruct (xInfoGroups k w) as [[gs e] w']. destruct Hlaw as (m & Hc1 & Hc2 & Hans).
  destruct e as [|x e]; go; (exists m; split_and!; [done|done|]); [|done].
  intros _. destruct (Hans eq_refl) as (s & Hs & Hin & Hall). split.
  - intros grp (i & -> & Hi)%list_elem_of_fmap. destruct (Hin i Hi) as (g & Hg & Hp & Hl). by exists s, g.
  - exists s. split; [done|]. intros name Hname. destruct (Hall name Hname) as (i & Hi & <-).
    rewrite <- list_fmap_compose. apply list_elem_of_fmap. by exists i.
Qed.

(** The groups of a stream are still there. *)
Definition persists (m m' : streams) : Prop :=
  ∀ k s, m !! k = Some s → ∃ s', m' !! k = Some s' ∧
    ∀ name, is_Some (st_groups s !! name) → is_Some (st_groups s' !! name).

Lemma streams_le_persists m m' : streams_le m m' → persists m m'.
Proof.
  intros Hle k s Hs. destruct (Hle k s Hs) as (s' & Hs' & _ & Hg). exists s'. split; [done|].
  intros name [g Hn]. destruct (Hg name g Hn) as (g' & Hg' & _). by exists g'.
Qed.

Lemma xtrim_persists m m' k s f :
  streams_le m m' → m' !! k = Some s → persists m (<[k := xtrim_minid f s]> m').
Proof.
  intros Hle Hs j t Hj. destruct (streams_le_persists _ _ Hle j t Hj) as (t' & Ht' & Hp).
  destruct (decide (j = k)) as [->|?].
  - rewrite lookup_insert_eq. eexists. split; [done|]. simpl. by simplify_eq.
  - rewrite lookup_insert_ne by done. by exists t'.
Qed.

(** The trim of a frontier that the groups of an earlier state have passed. *)
Lemma TrimMinID_spec m0 k f w :
  streams_wf (ss_view w) → streams_le m0 (ss_view w) → sid_ok f →
  (∀ s0 name, m0 !! k = Some s0 → is_Some (st_groups s0 !! name) → name_passed (ss_view w) k name f) →
  let '(r, w') := TrimMinID k (format_sid f) w in
  streams_wf (ss_view w') ∧ trim_safe m0 (ss_view w') ∧ persists (ss_view w) (ss_view w').
Proof.
  intros Hwf Hle Hf Hp. unfold TrimMinID, bind. pose proof (xTrimMinID_law k f w Hf) as Hlaw.
  destruct (xTrimMinID k (format_sid f) w) as [[n e] w'].
  destruct Hlaw as (m & m' & Hc1 & Hc2 & Hcase).
  assert (streams_wf (ss_view w') ∧ trim_safe m0 (ss_view w') ∧ persists (ss_view w) (ss_view w')) as Hgoal;
    [|by destruct e].
  destruct (clients_le _ _ Hwf Hc1) as [Hwfm Hlem].
  destruct Hcase as [[-> _]|(s & Hs & -> & _)].
  - destruct (clients_le _ _ Hwfm Hc2) as [? ?]. split_and!; [done| |].
    + apply streams_le_trim_safe. by do 2 (etrans; [done|]).
    + apply streams_le_persists. by etrans.
  - assert (streams_wf (<[k := xtrim_minid f s]> m)) as Hwft.
    { apply map_Forall_insert_2; [|done]. apply xtrim_wf, (Hwfm k s Hs). }
    destruct (clients_le _ _ Hwft Hc2) as [? Hle2]. split_and!; [done| |].
    + etrans; [|by apply streams_le_trim_safe]. apply xtrim_safe; [by etrans|done|].
      intros s0 name g Hs0 Hname Hg.
      destruct (name_passed_le _ _ k name f Hlem (Hp s0 name Hs0 Hname)) as (s1 & g1 & Hs1 & Hg1 & Hpass).
      by simplify_eq.
    + intros j t Hj. destruct (xtrim_persists _ _ k s f Hlem Hs j t Hj) as (t1 & Ht1 & Hp1).
      destruct (streams_le_persists _ _ Hle2 j t1 Ht1) as (t2 & Ht2 & Hp2). exists t2. auto.
Qed.

(** All expected groups were found exactly when the flags are all set. *)
Lemma expected_marked (e : gmap string bool) (expected found : list string) :
  dom e = dom (list_to_map ((λ g, (g, false)) <$> expected) : gmap string bool) →
  forallb snd (map_to_list e) = true →
  (∀ n, e !! n = Some true → n ∈ found) →
  ∀ name, name ∈ expected → name ∈ found.
Proof.
  intros Hdom Hall Hfound name Hname. apply Hfound.
  assert (name ∈ dom e) as [b Hb]%elem_of_dom.
  { rewrite Hdom, dom_list_to_map_L, elem_of_list_to_set, <- list_fmap_compose.
    apply list_elem_of_fmap. by exists name. }
  rewrite forallb_forall in Hall. rewrite Hb. f_equal.
  apply (Hall (name, b)). by apply list_elem_of_In, elem_of_map_to_list.
Qed.

(** What one pass does to the streams: the trimmed entries are settled; and an
    outcome other than a completed or interrupted trim trims nothing. *)
Lemma RunOnce_spec dry spec w :
  streams_wf (ss_view w) →
  let '(r, w') := RunOnce dry spec w in
  streams_wf (ss_view w') ∧ trim_safe (ss_view w) (ss_view w') ∧
  ((dry = true ∨ ∃ e, r = inl e ∧ Stage e ≠ "trim") → streams_le (ss_view w) (ss_view w')) ∧
  (∀ res, r = inr res → DryRun res = dry ∧
     (∃ f, sid_ok f ∧ SafeFrontier res = format_sid f) ∧
     ∃ s, ss_view w' !! Name spec = Some s ∧
       ∀ name, name ∈ ExpectedGroups spec → is_Some (st_groups s !! name)).
Proof.
  intros Hwf. unfold RunOnce.
  assert (∀ m, clients (ss_view w) m →
    streams_wf m ∧ streams_le (ss_view w) m ∧ trim_safe (ss_view w) m) as Hcl.
  { intros m Hm. destruct (clients_le _ _ Hwf Hm). split_and!; [done|done|by apply streams_le_trim_safe]. }
  match goal with |- context [if ?b then _ else _] => destruct b end.
  { go. destruct (Hcl (ss_view w)) as (? & ? & ?); [done|]. split_and!; done. }
  unfold bind. pose proof (listing_spec (Name spec) w) as Hls.
  destruct (Groups (Name spec) w) as [[gs e] w1]. destruct Hls as (m & Hc1 & Hc2 & Hans).
  assert (clients (ss_view w) (ss_view w1)) as Hcw1 by by etrans.
  destruct (Hcl _ Hcw1) as (Hwf1 & Hle1 & Hts1).
  destruct e as [|x e]; go; [|by split_and!].
  case_bool_decide as Hgs; [by split_and!|].
  destruct (Hans eq_refl) as (Hlisted & s0 & Hs0 & Hnames).
  destruct (Hcl m Hc1) as (Hwfm & Hlem & _).
  pose proof (inspect_groups_spec m (Name spec) gs []
    {| i_expected := list_to_map ((λ g, (g, false)) <$> ExpectedGroups spec); i_unexpected := 0;
       i_pending := 0; i_undelivered := 0; i_frontier := "" |} w1 Hwfm Hlisted Hc2
    ltac:(by left)) as Hins.
  match goal with |- context [inspect_groups ?a ?b ?c w1] =>
    destruct (inspect_groups a b c w1) as [[e|i] w2] end; go.
  { destruct Hins as (Hc3 & Hst & _). destruct (Hcl (ss_view w2)) as (? & ? & ?); [by etrans|].
    by split_and!. }
  destruct Hins as (Hc3 & _ & Hi). assert (clients (ss_view w) (ss_view w2)) as Hcw2 by by etrans.
  destruct (Hi i eq_refl) as (names & Hfr & Hn & Hdom & Hmarks). clear Hi.
  destruct (Hcl _ Hcw2) as (Hwf2 & Hle2 & Hts2).
  destruct (forallb snd (map_to_list (i_expected i))) eqn:Hall; go; [|by split_and!].
  unfold backend_Length, bind. pose proof (xLen_law (Name spec) w2) as Hlen.
  destruct (xLen (Name spec) w2) as [[len e] w3].
  assert (clients (ss_view w) (ss_view w3)) as Hcw3 by by etrans.
  destruct (Hcl _ Hcw3) as (Hwf3 & Hle3 & Hts3).
  destruct e as [|x e]; go; [|by split_and!].
  assert (∃ f, sid_ok f ∧ i_frontier i = format_sid f ∧
            ∀ name, name ∈ names → name_passed (ss_view w2) (Name spec) name f) as (f & Hf & -> & Hpass).
  { destruct Hfr as [[_ ->]|?]; [|done]. destruct gs as [|g gs]; [done|].
    exfalso. assert (rg_Name g ∈ @nil string); [|set_solver]. apply Hn. right. rewrite fmap_cons. set_solver. }
  assert (∀ name, name ∈ ExpectedGroups spec → name ∈ names) as Hexp.
  { intros name Hname. apply Hn. right.
    apply (expected_marked (i_expected i) (ExpectedGroups spec)); [done|done| |done].
    intros n Hin. destruct (Hmarks n Hin) as [Hf0|?]; [|done].
    apply elem_of_list_to_map_2, list_elem_of_fmap in Hf0 as (? & [=] & _). }
  destruct (clients_le _ _ Hwf2 Hlen) as [_ Hle23].
  assert (∃ s, ss_view w3 !! Name spec = Some s ∧
            ∀ name, name ∈ ExpectedGroups spec → is_Some (st_groups s !! name)) as (s3 & Hs3 & Hg3).
  { destruct (clients_le m (ss_view w3)) as [_ Hlm]; [done|by do 2 (etrans; [done|])|].
    destruct (Hlm _ _ Hs0) as (s3 & Hs3 & _). exists s3. split; [done|]. intros name Hname.
    destruct (name_passed_le _ _ _ _ _ Hle23 (Hpass name (Hexp name Hname))) as (? & g & ? & ? & _).
    exists g. congruence. }
  destruct dry; go.
  { split_and!; [done|done|done|]. intros res [= <-]. split_and!; [done|by exists f|by exists s3]. }
  pose proof (TrimMinID_spec (ss_view w) (Name spec) f w3 Hwf3 Hle3 Hf) as Htrim.
  destruct (TrimMinID (Name spec) (format_sid f) w3) as [[n e] w4].
  destruct Htrim as (Hwf4 & Hts4 & Hper4).
  { intros t0 name Ht0 Hname. eapply name_passed_le; [exact Hle23|]. apply Hpass, Hn. right.
    destruct (streams_le_persists _ _ Hlem _ _ Ht0) as (t1 & Ht1 & Hg1).
    apply Hnames. assert (t1 = s0) as <- by congruence. by apply Hg1. }
  destruct e as [|x e]; go.
  - split_and!; [done|done|intros [?|(? & ? & _)]; done|]. intros res [= <-].
    destruct (Hper4 _ _ Hs3) as (s4 & Hs4 & Hg4). split_and!; [done|by exists f|]. exists s4. auto.
  - split_and!; [done|done| |done]. intros [?|(e' & [= <-] & ?)]; done.
Qed.

Lemma run_specs_safe dry specs w :
  streams_wf (ss_view w) →
  streams_wf (ss_view (run_specs dry specs w).2) ∧
  trim_safe (ss_view w) (ss_view (run_specs dry specs w).2).
Proof.
  revert w. induction specs as [|spec specs IH]; intros w Hwf; [done|].
  cbn [run_specs]. unfold bind. pose proof (RunOnce_spec dry spec w Hwf) as Hr.
  destruct (RunOnce dry spec w) as [r w']. destruct Hr as (Hwf' & Hts & _). go.
  destruct (IH w' Hwf') as [? ?]. split; [done|]. by etrans.
Qed.

(** C5: Retention loses nothing. A whole tick of the retention loop, over any
    number of streams, with any failures, while producers append and consumers
    create groups, read and acknowledge between and during its commands: every
    entry the tick trimmed from a stream is, for every consumer group of that
    stream that existed when the tick started, delivered and no longer
    pending, and everything the group had settled before is still settled. *)
Theorem retention_loses_nothing dry provider w :
  streams_wf (ss_view w) → (∀ w0, clients (ss_view w0) (ss_view (provider w0).2)) →
  ∀ k s, ss_view w !! k = Some s →
  ∃ s' new, ss_view (runPass dry provider w).2 !! k = Some s' ∧ st_trimmed s' = st_trimmed s ++ new ∧
    ∀ name g, st_groups s !! name = Some g →
      ∃ g', st_groups s' !! name = Some g' ∧ (∀ x, settled g x → settled g' x) ∧
        ∀ e, e ∈ new → sid_le e.1 (g_last g') ∧ e.1 ∉ g_pel g'.
Proof.
  intros Hwf Hprov. change (trim_safe (ss_view w) (ss_view (runPass dry provider w).2)).
  unfold runPass, bind. specialize (Hprov w). destruct (provider w) as [[specs e] w1]; simpl in Hprov.
  destruct (clients_le _ _ Hwf Hprov) as [Hwf1 Hle1%streams_le_trim_safe].
  destruct e as [|x e]; go; [|done]. etrans; [done|]. by apply run_specs_safe.
Qed.

(** Retention fails closed. Whatever the server answers and whatever happens
    in between: in dry-run mode, and on every error before the trim command,
    no entry of any stream is trimmed; and a pass reports success only with a
    well-formed frontier and when every consumer group its stream spec expects
    exists on the stream. *)
Theorem retention_fails_closed dry spec w :
  streams_wf (ss_view w) →
  let '(r, w') := RunOnce dry spec w in
  ((dry = true ∨ ∃ e, r = inl e ∧ Stage e ≠ "trim") →
     ∀ k s, ss_view w !! k = Some s → ∃ s', ss_view w' !! k = Some s' ∧ st_trimmed s' = st_trimmed s) ∧
  (∀ res, r = inr res →
     is_Some (parseStreamID (SafeFrontier res)) ∧
     ∃ s, ss_view w' !! Name spec = Some s ∧
       ∀ name, name ∈ ExpectedGroups spec → is_Some (st_groups s !! name)).
Proof.
  intros Hwf. pose proof (RunOnce_spec dry spec w Hwf) as Hr.
  destruct (RunOnce dry spec w) as [r w']. destruct Hr as (_ & _ & Hfail & Hok). split.
  - intros Hc k s Hs. destruct (Hfail Hc k s Hs) as (s' & ? & ? & _). by exists s'.
  - intros res Hres. destruct (Hok res Hres) as (_ & (f & Hf & ->) & Hg). split; [|done].
    rewrite parseStreamID_format by done. by eexists.
Qed.
End retention.

(** A stream with two groups, one lagging; a consumer acknowledges and a
    producer appends while the pass runs. *)
Definition sample_stream : stream :=
  {| st_entries := [((1, 0), ∅); ((2, 0), ∅); ((3, 0), ∅); ((4, 0), ∅)]%Z;
     st_last := (4, 0)%Z;
     st_groups := <["a" := {| g_last := (4, 0)%Z; g_pel := [] |}]>
                  {["b" := {| g_last := (3, 0)%Z; g_pel := [(2, 0); (3, 0)]%Z |}]};
     st_trimmed := [] |}.

Definition sample_server : Server :=
  {| sv_streams := {["events" := sample_stream]};
     sv_script := [([], false); ([ClAdd "events" (5, 0)%Z ∅], false); ([ClRead "events" "b" 1], false);
                   ([ClAck "events" "b" (2, 0)%Z], false)] |}.

Definition sample_spec : StreamSpec :=
  {| Name := "events"; Kind := "events"; Namespace := ""; ExpectedGroups := ["a"] |}.

Lemma sample_stream_wf : streams_wf (ss_view sample_server).
Proof.
  change (streams_wf (sv_streams sample_server)).
  apply map_Forall_singleton. split; simpl.
  - repeat constructor; left; simpl; lia.
  - intros e. rewrite !elem_of_cons. unfold sid_ok, sid_le, sid_lt, max_uint64.
    intros [->|[->|[->|[->|?%elem_of_nil]]]]; simpl; [..|done]; (split; [lia|]);
      (right; lia) || (left; done).
  - unfold sid_ok, max_uint64. simpl. lia.
  - apply map_Forall_insert_2; [|apply map_Forall_singleton]; split; simpl;
      try (unfold sid_ok, max_uint64; simpl; lia); try (repeat constructor; simpl; lia).
    + set_solver.
    + intros x. rewrite !elem_of_cons. unfold sid_ok, sid_le, sid_lt, max_uint64.
      intros [->|[->|?%elem_of_nil]]; simpl; [split; [right; lia|lia]|split; [by left|lia]|done].
Qed.

Lemma retention_fails_closed_witness :
  ∃ s', ss_view (RunOnce true sample_spec sample_server).2 !! "events" = Some s' ∧ st_trimmed s' = [].
Proof.
  pose proof (retention_fails_closed true sample_spec sample_server sample_stream_wf) as H.
  destruct (RunOnce true sample_spec sample_server) as [r w'].
  apply (proj1 H (or_introl eq_refl) "events" sample_stream eq_refl).
Defined.

Lemma retention_loses_nothing_witness :
  let w' := (runPass false (λ w, (([sample_spec], []), w)) sample_server).2 in
  ∃ s' new g', ss_view w' !! "events" = Some s' ∧ st_trimmed s' = [] ++ new ∧ length new = 1%nat ∧
    st_groups s' !! "b" = Some g' ∧ ∀ e, e ∈ new → sid_le e.1 (g_last g') ∧ e.1 ∉ g_pel g'.
Proof.
  intros w'.
  destruct (retention_loses_nothing false (λ w, (([sample_spec], []), w)) sample_server sample_stream_wf
              ltac:(by intros) "events" sample_stream eq_refl) as (s' & new & Hs' & Ht & Hg).
  destruct (Hg "b" {| g_last := (3, 0)%Z; g_pel := [(2, 0); (3, 0)]%Z |} eq_refl) as (g' & Hg' & _ & Hn).
  exists s', new, g'. split_and!; [exact Hs'|exact Ht| |exact Hg'|exact Hn].
  assert (ss_view w' !! "events" = Some s') as Hs'' by exact Hs'.
  assert (length (st_trimmed s') = 1%nat) as Hlen.
  { revert Hs''. subst w'. vm_compute. intros [= <-]. reflexivity. }
  by rewrite Ht in Hlen.
Defined.
