(* ===== verification/StreamConsumer.v ===== *)
(** * The shared stream consumer

    [internal/infra/redis/stream_consumer.go]: the consume and reclaim state
    machine of the event, catalog-ingest and embedder workers. The Redis
    transport and the domain handler are fields of the Go struct and parameters
    here; observers only log and count, except the outcome of a reclaim scan,
    which is returned. *)

From stdpp Require Import base tactics strings list.
From Stdlib Require Import ZArith Lia.
From S2P Require Import Prelude GoLib RedisStream.

Definition initialReclaimCursor : string := "0-0".

Inductive ReclaimOutcome := ReclaimTerminal | ReclaimNoGroup | ReclaimError | ReclaimBudgetExhausted.

(** A transport error: its text, and whether [errors.Is] finds redis.Nil or a
    context error in it. *)
Record transport_err := { te_text : string; te_nil : bool; te_ctx : bool }.

Definition IsBusyGroupError (err : option transport_err) : bool :=
  match err with None => false | Some e => str_contains (te_text e) "BUSYGROUP" end.

Definition IsNoGroupError (err : option transport_err) : bool :=
  match err with None => false | Some e => str_contains (te_text e) "NOGROUP" end.

Record XMessage := { ID : string; Values : message }.

Record StreamConsumerConfig := {
  Stream : string;
  Group : string;
  Consumer : string;
  ReadCount : Z;
  ReadBlock : Z;
  ReapInterval : Z;
  MinIdleReap : Z;
  ReapCount : Z;
  ReapPageBudget : Z;
  ReadBackoffMin : Z;
  ReadBackoffMax : Z;
}.

Record StreamConsumerFuncs (W : Type) := {
  CreateGroup : string → string → string → M W (option transport_err);
  ReadGroup : string → string → string → Z → Z → M W (list (list XMessage) * option transport_err);
  AutoClaim : string → string → string → Z → string → Z → M W (list XMessage * string * option transport_err);
}.
Arguments CreateGroup {W}.
Arguments ReadGroup {W}.
Arguments AutoClaim {W}.

Section consumer.
Context {W : Type} (cfg : StreamConsumerConfig) (fns : StreamConsumerFuncs W)
        (handle : XMessage → M W ()).

Definition Init : M W (option transport_err) :=
  let! err := CreateGroup fns (Stream cfg) (Group cfg) "0" in
  match err with
  | Some _ => if negb (IsBusyGroupError err) then ret err else ret None
  | None => ret None
  end.

Fixpoint handle_all (msgs : list XMessage) : M W () :=
  match msgs with
  | [] => ret tt
  | msg :: rest => handle msg ;;! handle_all rest
  end.

(** The page loop of [ReapOnce]: [n] pages are left in the budget. *)
Fixpoint reap_pages (n : nat) (cursor : string) : M W (string * ReclaimOutcome) :=
  match n with
  | 0 => ret (cursor, ReclaimBudgetExhausted)
  | S n' =>
      let! ' (msgs, next, err) :=
        AutoClaim fns (Stream cfg) (Group cfg) (Consumer cfg) (MinIdleReap cfg) cursor (ReapCount cfg) in
      match err with
      | Some _ =>
          if IsNoGroupError err then ret (initialReclaimCursor, ReclaimNoGroup)
          else ret (cursor, ReclaimError)
      | None =>
          handle_all msgs ;;!
          if bool_decide (next = initialReclaimCursor) || bool_decide (next = "")
          then ret (initialReclaimCursor, ReclaimTerminal)
          else reap_pages n' next
      end
  end.

Definition ReapOnce (cursor : string) : M W (string * ReclaimOutcome) :=
  let cursor := if bool_decide (cursor = "") then initialReclaimCursor else cursor in
  reap_pages (Z.to_nat (ReapPageBudget cfg)) cursor.

(** [n] ticks of [reapLoop]. *)
Fixpoint reap_ticks (n : nat) (cursor : string) : M W string :=
  match n with
  | 0 => ret cursor
  | S n' => let! r := ReapOnce cursor in reap_ticks n' r.1
  end.

(** One iteration of [consumeLoop], entered with the current backoff. The
    context ends where the script of the environment says so: [ctx_done] is
    read at the top, [ctx_err] after a failed read and [slept] is whether the
    sleep ran to its end. [None] is the return of the loop. *)
Definition consume_iteration (ctx_done ctx_err slept : bool) (backoff : Z) : M W (option Z) :=
  if ctx_done then ret None
  else
    let! ' (streams, err) := ReadGroup fns (Stream cfg) (Group cfg) (Consumer cfg) (ReadCount cfg) (ReadBlock cfg) in
    match err with
    | Some e =>
        if te_nil e then ret (Some backoff)
        else if ctx_err || te_ctx e then ret None
        else
          (if IsNoGroupError err then Init else ret None) ;;!
          if negb slept then ret None
          else ret (Some (Z.min (to_int64 (backoff * 2)) (ReadBackoffMax cfg)))
    | None =>
        handle_all (concat streams) ;;!
        ret (Some (ReadBackoffMin cfg))
    end.

(** The loop, over a script of what the context does at each iteration. *)
Fixpoint consumeLoop (script : list (bool * bool * bool)) (backoff : Z) : M W (option Z) :=
  match script with
  | [] => ret (Some backoff)
  | (d, c, s) :: rest =>
      let! r := consume_iteration d c s backoff in
      match r with
      | None => ret None
      | Some backoff' => consumeLoop rest backoff'
      end
  end.

(** ** The reclaim scan reaches every pending entry *)

Lemma handle_all_log {L} (log : W → list L) (entry : XMessage → L) msgs w :
  (∀ m w, log (handle m w).2 = log w ++ [entry m]) →
  log (handle_all msgs w).2 = log w ++ (entry <$> msgs).
Proof.
  intros Hh. revert w. induction msgs as [|m msgs IH]; intros w; cbn [handle_all].
  - by rewrite app_nil_r.
  - unfold bind. go. by rewrite IH, Hh, fmap_cons, <- app_assoc.
Qed.

Lemma handle_all_inv (I : W → Prop) msgs w :
  (∀ m w, I w → I (handle m w).2) → I w → I (handle_all msgs w).2.
Proof.
  intros Hh. revert w. induction msgs as [|m msgs IH]; intros w Hw; cbn [handle_all]; [done|].
  unfold bind. go. by apply IH, Hh.
Qed.

(** What XAUTOCLAIM documents about a scan of the pending entries that are
    idle long enough: it returns them page by page, each page naming the
    cursor of the next, and the cursor 0-0 after the last. [at_page i w] says
    that the scan stands at page [i]; handling an entry does not disturb the
    pages still to come. [log] is what the handler has been given. *)
Record scans (pages : list (list XMessage)) (cur : nat → string) (at_page : nat → W → Prop)
    (log : W → list XMessage) : Prop := {
  sc_start : cur 0%nat = initialReclaimCursor;
  sc_cur : ∀ i, (0 < i < length pages)%nat → cur i ≠ initialReclaimCursor ∧ cur i ≠ "";
  sc_claim : ∀ i page w, pages !! i = Some page → at_page i w →
    ∃ w', AutoClaim fns (Stream cfg) (Group cfg) (Consumer cfg) (MinIdleReap cfg) (cur i) (ReapCount cfg) w =
      ((page, if decide (S i < length pages)%nat then cur (S i) else initialReclaimCursor, None), w') ∧
      at_page (S i) w' ∧ log w' = log w;
  sc_handle : ∀ i m w, at_page i w → at_page i (handle m w).2;
  sc_log : ∀ m w, log (handle m w).2 = log w ++ [m];
}.

Lemma reap_pages_scan pages cur at_page log n i w :
  scans pages cur at_page log → (i < length pages)%nat → at_page i w →
  ∃ w', reap_pages n (cur i) w =
      ((if decide (i + n < length pages)%nat then (cur (i + n)%nat, ReclaimBudgetExhausted)
        else (initialReclaimCursor, ReclaimTerminal)), w') ∧
    at_page (min (i + n) (length pages)) w' ∧
    log w' = log w ++ concat (take n (drop i pages)).
Proof.
  intros Hs. revert i w. induction n as [|n IH]; intros i w Hi Hat.
  - exists w. cbn [reap_pages]. rewrite Nat.add_0_r, decide_True, Nat.min_l by lia.
    split_and!; [done|done|by rewrite app_nil_r].
  - destruct (lookup_lt_is_Some_2 pages i Hi) as [page Hp].
    destruct (sc_claim _ _ _ _ Hs i page w Hp Hat) as (w1 & Hac & Hat1 & Hl1).
    cbn [reap_pages]. unfold bind. rewrite Hac. go.
    assert (at_page (S i) (handle_all page w1).2) as Hat2.
    { apply (handle_all_inv (at_page (S i))); [|done]. intros m w0. apply Hs. }
    assert (log (handle_all page w1).2 = log w ++ page) as Hl2.
    { rewrite (handle_all_log log id) by apply Hs. by rewrite list_fmap_id, Hl1. }
    rewrite (drop_S pages page i Hp), firstn_cons. cbn [concat]. rewrite app_assoc, <- Hl2.
    destruct (decide (S i < length pages)%nat) as [Hlt|Hge].
    + destruct (sc_cur _ _ _ _ Hs (S i)) as [Hc1 Hc2]; [lia|].
      rewrite !bool_decide_false by done. cbn [orb].
      destruct (IH (S i) _ Hlt Hat2) as (w2 & -> & Hat3 & Hl3).
      replace (S i + n)%nat with (i + S n)%nat in * by lia. by exists w2.
    + rewrite (bool_decide_true (initialReclaimCursor = _)) by done. cbn [orb]. go.
      exists (handle_all page w1).2. rewrite decide_False, Nat.min_r by lia.
      split_and!; [done| |].
      * by replace (length pages) with (S i) by lia.
      * rewrite drop_ge by lia. rewrite take_nil. simpl. by rewrite app_nil_r.
Qed.

(** One tick: a budget of pages. *)
Lemma ReapOnce_scan pages cur at_page log i w :
  scans pages cur at_page log → (i < length pages)%nat → at_page i w →
  let b := Z.to_nat (ReapPageBudget cfg) in
  ∃ w', ReapOnce (cur i) w =
      ((if decide (i + b < length pages)%nat then (cur (i + b)%nat, ReclaimBudgetExhausted)
        else (initialReclaimCursor, ReclaimTerminal)), w') ∧
    at_page (min (i + b) (length pages)) w' ∧
    log w' = log w ++ concat (take b (drop i pages)).
Proof.
  intros Hs Hi Hat b. unfold ReapOnce. rewrite bool_decide_false; [by apply reap_pages_scan|].
  destruct i as [|i]; [rewrite (sc_start _ _ _ _ Hs); done|]. apply (sc_cur _ _ _ _ Hs). lia.
Qed.

Lemma reap_ticks_scan pages cur at_page log n i w :
  scans pages cur at_page log → (0 < ReapPageBudget cfg)%Z → (i < length pages)%nat → at_page i w →
  let b := Z.to_nat (ReapPageBudget cfg) in
  (length pages <= i + n * b)%nat → (i + n * b < length pages + b)%nat →
  ∃ w', reap_ticks n (cur i) w = (initialReclaimCursor, w') ∧
    log w' = log w ++ concat (drop i pages).
Proof.
  intros Hs Hb. revert i w. induction n as [|n IH]; intros i w Hi Hat b Hn1 Hn2; [lia|].
  cbn [reap_ticks]. unfold bind.
  destruct (ReapOnce_scan _ _ _ _ i w Hs Hi Hat) as (w1 & -> & Hat1 & Hl1). fold b in Hat1, Hl1 |- *. go.
  destruct (decide (i + b < length pages)%nat) as [Hlt|Hge].
  - go. rewrite Nat.min_l in Hat1 by lia.
    destruct (IH (i + b)%nat w1 Hlt Hat1) as (w2 & -> & Hl2); [simpl in *; lia|simpl in *; lia|].
    exists w2. split; [done|]. rewrite Hl2, Hl1, <- app_assoc, <- concat_app. f_equal. f_equal.
    rewrite <- drop_drop. apply take_drop.
  - go. assert (n = 0)%nat as -> by (destruct n; [done|simpl in *; lia]). cbn [reap_ticks]. go.
    exists w1. split; [done|]. rewrite Hl1. f_equal. f_equal. apply take_ge. rewrite length_drop. lia.
Qed.

(** The reclaim scan reaches every abandoned entry. When XAUTOCLAIM serves
    the idle pending entries in [pages] pages and nothing fails,
    [ceil (pages / ReapPageBudget)] ticks from the initial cursor hand every
    one of them to the handler, each once and in order, however the budget
    splits the scan over ticks, and leave the cursor at its start. *)
Theorem reclaim_reaches_every_entry pages cur at_page log w :
  scans pages cur at_page log → (0 < ReapPageBudget cfg)%Z → pages ≠ [] → at_page 0%nat w →
  let b := Z.to_nat (ReapPageBudget cfg) in
  let '(cursor, w') := reap_ticks ((length pages + b - 1) / b) initialReclaimCursor w in
  cursor = initialReclaimCursor ∧ log w' = log w ++ concat pages.
Proof.
  intros Hs Hb Hne Hat b. assert (0 < length pages)%nat by (destruct pages; simpl; [done|lia]).
  pose proof (Nat.div_mod (length pages + b - 1) b ltac:(lia)).
  pose proof (Nat.mod_upper_bound (length pages + b - 1) b ltac:(lia)).
  destruct (reap_ticks_scan _ _ _ _ ((length pages + b - 1) / b) 0 w Hs Hb ltac:(done) Hat)
    as (w' & Heq & Hlog); [fold b; nia|fold b; nia|].
  rewrite (sc_start _ _ _ _ Hs) in Heq. by rewrite Heq.
Qed.

(** ** The read backoff *)

(** The read backoff stays within its configured bounds. Whatever Redis
    answers, whatever the handler does and however often the context is
    polled, the delay before the next read lies between [ReadBackoffMin] and
    [ReadBackoffMax], and the doubling does not overflow. *)
Theorem consume_backoff_bounded script w b w' :
  (0 <= ReadBackoffMin cfg <= ReadBackoffMax cfg)%Z → (2 * ReadBackoffMax cfg <= max_int64)%Z →
  consumeLoop script (ReadBackoffMin cfg) w = (Some b, w') →
  (ReadBackoffMin cfg <= b <= ReadBackoffMax cfg)%Z.
Proof.
  intros Hcfg Hmax.
  cut (∀ b0, (ReadBackoffMin cfg <= b0 <= ReadBackoffMax cfg)%Z →
    ∀ w, consumeLoop script b0 w = (Some b, w') → (ReadBackoffMin cfg <= b <= ReadBackoffMax cfg)%Z).
  { intros Hgen. apply Hgen. lia. }
  clear w. induction script as [|[[d c] s] rest IH]; intros b0 Hb0 w; cbn [consumeLoop].
  { by intros [= <- <-]. }
  unfold bind at 1. destruct (consume_iteration d c s b0 w) as [[b1|] w1] eqn:Hit; go; [|done].
  apply IH. revert Hit. unfold consume_iteration. destruct d; [done|]. unfold bind.
  destruct (ReadGroup fns _ _ _ _ _ w) as [[ss [e|]] w2]; go.
  - destruct (te_nil e); [by intros [= <- <-]|]. destruct (c || te_ctx e); [done|]. go.
    destruct s; go; [|done]. intros [= <- <-].
    unfold to_int64. rewrite Z.mod_small by (unfold max_int64 in *; lia).
    destruct (Z.ltb_spec (b0 * 2) (2 ^ 63)); unfold max_int64 in *; lia.
  - intros [= <- <-]. lia.
Qed.
End consumer.

(** A server with five claimable entries that serves them two by two, to a
    consumer with a budget of two pages per tick. *)
Definition demo_cfg : StreamConsumerConfig :=
  {| Stream := "codohue:events"; Group := "codohue-ingest"; Consumer := "worker-1";
     ReadCount := 10; ReadBlock := 5; ReapInterval := 60; MinIdleReap := 60; ReapCount := 2;
     ReapPageBudget := 2; ReadBackoffMin := 1; ReadBackoffMax := 30 |}.

Definition demo_msg (id : string) : XMessage := {| ID := id; Values := ∅ |}.
Definition demo_pages : list (list XMessage) :=
  [[demo_msg "1-0"; demo_msg "2-0"]; [demo_msg "3-0"; demo_msg "4-0"]; [demo_msg "5-0"]].
Definition demo_cur (i : nat) : string := match i with 0 => "0-0" | 1 => "3-0" | _ => "5-0" end.

Definition demo_fns : StreamConsumerFuncs (list XMessage) := {|
  CreateGroup _ _ _ := ret None;
  ReadGroup _ _ _ _ _ := ret ([], Some {| te_text := "timeout"; te_nil := false; te_ctx := false |});
  AutoClaim _ _ _ _ cursor _ := ret (
    if decide (cursor = "0-0") then (demo_pages !!! 0%nat, "3-0", None)
    else if decide (cursor = "3-0") then (demo_pages !!! 1%nat, "5-0", None)
    else (demo_pages !!! 2%nat, "0-0", None)) |}.

Definition demo_handle (m : XMessage) : M (list XMessage) () := modify (λ l, l ++ [m]).

Lemma reclaim_reaches_every_entry_witness :
  (reap_ticks demo_cfg demo_fns demo_handle 2 "0-0" []).2 = concat demo_pages.
Proof.
  pose proof (reclaim_reaches_every_entry demo_cfg demo_fns demo_handle demo_pages demo_cur
    (λ _ _, True) id []) as H.
  cut (scans demo_cfg demo_fns demo_handle demo_pages demo_cur (λ _ _, True) id).
  { intros Hs. specialize (H Hs eq_refl ltac:(discriminate) I). cbv zeta in H.
    change ((length demo_pages + Z.to_nat (ReapPageBudget demo_cfg) - 1)
              / Z.to_nat (ReapPageBudget demo_cfg))%nat with 2%nat in H.
    change "0-0" with initialReclaimCursor.
    destruct (reap_ticks demo_cfg demo_fns demo_handle 2 initialReclaimCursor []) as [c w']. apply H. }
  split; try done.
  - intros [|[|[|i]]] Hi; simpl in Hi; try lia; split; discriminate.
  - intros [|[|[|i]]] page w; simpl; intros Hp _; [..|by rewrite lookup_nil in Hp];
      injection Hp as <-; by exists w.
Defined.

Lemma consume_backoff_bounded_witness :
  (1 <= default 0 (consumeLoop demo_cfg demo_fns demo_handle (replicate 9 (false, false, true)) 1 []).1 <= 30)%Z.
Proof.
  destruct (consumeLoop demo_cfg demo_fns demo_handle (replicate 9 (false, false, true)) 1 []) as [[b|] w'] eqn:E.
  - exact (consume_backoff_bounded demo_cfg demo_fns demo_handle (replicate 9 (false, false, true)) [] b w'
      ltac:(simpl; lia) ltac:(unfold max_int64; simpl; lia) E).
  - vm_compute in E. discriminate.
Defined.
