(* ===== verification/NamespaceConfig.v ===== *)
(** * Namespace configuration

    [internal/core/namespace/types.go]: the configuration every component
    reads, and what reading it means for a client: a [nsConfigGetter]. *)

From stdpp Require Import base tactics gmap strings.
From Stdlib Require Import ZArith.
From S2P Require Import Prelude Float64.

(** What encoding/json decodes into [any]; objects as the association lists a
    map iteration yields. *)
Inductive jvalue :=
| JNull
| JBool (b : bool)
| JNumber (f : float64)
| JString (s : string)
| JArray (l : list jvalue)
| JObject (m : list (string * jvalue)).

#[export] Instance jvalue_eq_dec : EqDecision jvalue.
Proof.
  refine (fix go (x y : jvalue) : Decision (x = y) :=
    let _ : EqDecision jvalue := go in
    match x, y with
    | JNull, JNull => left _
    | JBool a, JBool b => cast_if (decide (a = b))
    | JNumber a, JNumber b => cast_if (decide (a = b))
    | JString a, JString b => cast_if (decide (a = b))
    | JArray a, JArray b => cast_if (decide (a = b))
    | JObject a, JObject b => cast_if (decide (a = b))
    | _, _ => right _
    end); congruence.
Defined.

Record Config := {
  cfg_Namespace : string;
  cfg_Generation : Z;
  cfg_ActionWeights : gmap string float64;
  cfg_Lambda : float64;
  cfg_Gamma : float64;
  cfg_MaxResults : Z;
  cfg_SeenItemsDays : Z;
  cfg_ExcludeAuthored : bool;
  cfg_Paused : bool;
  cfg_APIKeyHash : string;
  cfg_Alpha : float64;
  cfg_DenseSource : string;
  cfg_EmbeddingDim : Z;
  cfg_DenseDistance : string;
  cfg_TrendingWindow : Z;
  cfg_TrendingTTL : Z;
  cfg_LambdaTrending : float64;
  cfg_CatalogStrategyID : string;
  cfg_CatalogStrategyVersion : string;
  cfg_CatalogStrategyParams : option (list (string * jvalue));  (* None: a nil map *)
  cfg_CatalogMaxAttempts : Z;
  cfg_CatalogMaxContentBytes : Z;
  cfg_CreatedAt : Z;
  cfg_UpdatedAt : Z;
}.

Definition DenseSourceDisabled : string := "disabled".
Definition DenseSourceItem2Vec : string := "item2vec".
Definition DenseSourceSVD : string := "svd".
Definition DenseSourceBYOE : string := "byoe".
Definition DenseSourceCatalog : string := "catalog".
