(* ===== verification/Ingest.v ===== *)
(** * Event ingest

    [internal/ingest]: the service that validates, weighs and stores behavioural
    events under a writer lease, the live-tail publisher, and the worker that
    feeds it from the durable stream and acknowledges. JSON decoding and the
    namespace configuration service are parameters; the events table is part of
    the world. Metrics and logs are not modelled. *)

From stdpp Require Import base tactics gmap strings list.
From Stdlib Require Import ZArith Lia.
From S2P Require Import Prelude GoLib Utf8 NsNames NsLedger NsService Float64 NamespaceConfig RedisStream StreamConsumer.

Definition ErrInvalidPayload : string := "ingest.ErrInvalidPayload".
Definition ErrInvalidObjectCreatedAt : string := "ingest.ErrInvalidObjectCreatedAt".
Definition ErrUnknownAction : string := "ingest.ErrUnknownAction".
Definition ErrIngestNamespaceNotFound : string := "ingest.ErrNamespaceNotFound".
Definition ErrNamespacePaused : string := "ingest.ErrNamespacePaused".

(** Five minutes, in nanoseconds. *)
Definition maxOccurredAtSkew : Z := 5 * 60 * 1000000000.

(** Instants are nanoseconds since Go's zero time. *)
Record EventPayload := {
  ep_Namespace : string;
  ep_NamespaceGeneration : Z;
  ep_SubjectID : string;
  ep_ObjectID : string;
  ep_Action : string;
  ep_OccurredAt : Z;
  ep_ObjectCreatedAt : option Z;
}.

Definition DefaultActionWeights : gmap string float64 := list_to_map
  [("VIEW", f64_of_Z 1); ("LIKE", f64_of_Z 5); ("COMMENT", f64_of_Z 8); ("SHARE", f64_of_Z 10);
   ("SKIP", f64_of_Z (-2))].

Record Event := {
  ev_ID : Z;
  ev_Namespace : string;
  ev_SubjectID : string;
  ev_ObjectID : string;
  ev_Action : string;
  ev_Weight : float64;
  ev_OccurredAt : Z;
  ev_ObjectCreatedAt : option Z;
}.

Record EventTailMessage := {
  et_ID : Z;
  et_Namespace : string;
  et_NamespaceGeneration : Z;
  et_SubjectID : string;
  et_ObjectID : string;
  et_Action : string;
  et_Weight : float64;
  et_OccurredAt : Z;
}.

(** What the component owns outside the ledger: the events table with its id
    sequence, the tail publisher's bounded channel and the entries the worker
    has acknowledged. *)
Record IngestState := {
  in_events : list Event;
  in_next_id : Z;
  in_tail : list EventTailMessage;
  in_tail_cap : nat;
  in_dropped : nat;
  in_acked : list string;
}.

Abbreviation W := (World IngestState).

Definition set_events (l : list Event) (next : Z) (s : IngestState) : IngestState :=
  {| in_events := l; in_next_id := next; in_tail := in_tail s; in_tail_cap := in_tail_cap s;
     in_dropped := in_dropped s; in_acked := in_acked s |}.
Definition set_tail (l : list EventTailMessage) (d : nat) (s : IngestState) : IngestState :=
  {| in_events := in_events s; in_next_id := in_next_id s; in_tail := l; in_tail_cap := in_tail_cap s;
     in_dropped := d; in_acked := in_acked s |}.
Definition set_acked (l : list string) (s : IngestState) : IngestState :=
  {| in_events := in_events s; in_next_id := in_next_id s; in_tail := in_tail s;
     in_tail_cap := in_tail_cap s; in_dropped := in_dropped s; in_acked := l |}.

Definition on_ext (f : IngestState → IngestState) : M W () := modify (λ w, set_ext (f (w_ext w)) w).

(** ** The repository and the tail publisher *)

Definition with_id (e : Event) (id : Z) : Event :=
  {| ev_ID := id; ev_Namespace := ev_Namespace e; ev_SubjectID := ev_SubjectID e;
     ev_ObjectID := ev_ObjectID e; ev_Action := ev_Action e; ev_Weight := ev_Weight e;
     ev_OccurredAt := ev_OccurredAt e; ev_ObjectCreatedAt := ev_ObjectCreatedAt e |}.

Definition event_texts (e : Event) : list string :=
  [ev_Namespace e; ev_SubjectID e; ev_ObjectID e; ev_Action e].

(** [Repository.Insert]: the row gets the next id, which is stamped on the
    event; [inr] is the error. PostgreSQL refuses text it cannot hold. *)
Definition Insert (e : Event) : M W (Event + error) :=
  let! f := fault in
  if f then ret (inr [ErrDriver])
  else if negb (forallb pg_text (event_texts e)) then ret (inr [ErrDataException])
  else
    let! s := gets w_ext in
    let e' := with_id e (in_next_id s) in
    on_ext (set_events (in_events s ++ [e']) (in_next_id s + 1)) ;;!
    ret (inl e').

(** [RedisEventTailPublisher.Publish]: a send on a bounded channel that drops
    the message when the buffer is full. *)
Definition Publish (m : EventTailMessage) : M W () :=
  on_ext (λ s, if decide (length (in_tail s) < in_tail_cap s)%nat
               then set_tail (in_tail s ++ [m]) (in_dropped s) s
               else set_tail (in_tail s) (S (in_dropped s)) s).

Definition EventTailChannel (ns : string) : string := "codohue:events-tail:" +:+ ns.

(** ** The service *)

Record IngestService := {
  is_nsConfig : string → M W (option Config * error);
  is_tailPublisher : bool;
  is_lifecycle : option Service;
}.

Definition resolveWeight (svc : IngestService) (ns action : string) : M W (float64 * error) :=
  let! ' (cfg, err) := is_nsConfig svc ns in
  if negb (nil_err err) then ret (f64_zero, err)
  else
    match cfg with
    | None => ret (f64_zero, [ErrIngestNamespaceNotFound])
    | Some cfg =>
        if cfg_Paused cfg then ret (f64_zero, [ErrNamespacePaused])
        else match cfg_ActionWeights cfg !! action with
             | Some w => ret (w, [])
             | None => match DefaultActionWeights !! action with
                       | Some w => ret (w, [])
                       | None => ret (f64_zero, [ErrUnknownAction])
                       end
             end
    end.

Definition processActive (svc : IngestService) (payload : EventPayload) : M W (Z * error) :=
  let! ' (weight, err) := resolveWeight svc (ep_Namespace payload) (ep_Action payload) in
  if negb (nil_err err) then ret (0%Z, err)
  else
    let! r := Insert {| ev_ID := 0; ev_Namespace := ep_Namespace payload;
                        ev_SubjectID := ep_SubjectID payload; ev_ObjectID := ep_ObjectID payload;
                        ev_Action := ep_Action payload; ev_Weight := weight;
                        ev_OccurredAt := ep_OccurredAt payload;
                        ev_ObjectCreatedAt := ep_ObjectCreatedAt payload |} in
    match r with
    | inr e => ret (0%Z, e)
    | inl event =>
        (if is_tailPublisher svc then
           Publish {| et_ID := ev_ID event; et_Namespace := ev_Namespace event;
                      et_NamespaceGeneration := ep_NamespaceGeneration payload;
                      et_SubjectID := ev_SubjectID event; et_ObjectID := ev_ObjectID event;
                      et_Action := ev_Action event; et_Weight := ev_Weight event;
                      et_OccurredAt := ev_OccurredAt event |}
         else ret tt) ;;!
        ret (ev_ID event, [])
    end.

Definition with_occurred (t : Z) (p : EventPayload) : EventPayload :=
  {| ep_Namespace := ep_Namespace p; ep_NamespaceGeneration := ep_NamespaceGeneration p;
     ep_SubjectID := ep_SubjectID p; ep_ObjectID := ep_ObjectID p; ep_Action := ep_Action p;
     ep_OccurredAt := t; ep_ObjectCreatedAt := ep_ObjectCreatedAt p |}.
Definition with_generation (g : Z) (p : EventPayload) : EventPayload :=
  {| ep_Namespace := ep_Namespace p; ep_NamespaceGeneration := g;
     ep_SubjectID := ep_SubjectID p; ep_ObjectID := ep_ObjectID p; ep_Action := ep_Action p;
     ep_OccurredAt := ep_OccurredAt p; ep_ObjectCreatedAt := ep_ObjectCreatedAt p |}.

Definition Process (svc : IngestService) (ctx : Ctx) (payload : EventPayload) : M W (Z * error) :=
  if bool_decide (ep_Namespace payload = "") || bool_decide (ep_SubjectID payload = "")
     || bool_decide (ep_ObjectID payload = "")
  then ret (0%Z, [ErrInvalidPayload])
  else
    let! now := gets w_now in
    if negb (ep_OccurredAt payload =? 0)%Z && (now + maxOccurredAtSkew <? ep_OccurredAt payload)%Z
    then ret (0%Z, [ErrInvalidPayload])
    else
      let payload := if (ep_OccurredAt payload =? 0)%Z then with_occurred now payload else payload in
      if match ep_ObjectCreatedAt payload with
         | Some t => (now + maxOccurredAtSkew <? t)%Z | None => false end
      then ret (0%Z, [ErrInvalidObjectCreatedAt])
      else
        match is_lifecycle svc with
        | Some lifecycle =>
            WithWriter 0%Z lifecycle ctx (ep_Namespace payload) (λ _ l,
              processActive svc (with_generation (nl_generation l) payload))
        | None => processActive svc payload
        end.

(** ** The stream worker *)

Section worker.
Context (unmarshal : string → option EventPayload) (svc : IngestService).

Definition decodeEventMessage (msg : XMessage) : option EventPayload :=
  match Values msg !! "payload" with
  | None => None
  | Some raw => unmarshal raw
  end.

(** XACK; a failure is logged and the entry stays pending. *)
Definition ack (id : string) : M W () :=
  let! f := fault in
  if f then ret tt else on_ext (λ s, set_acked (in_acked s ++ [id]) s).

Definition permanent (err : error) : bool :=
  errors_is err ErrInvalidPayload || errors_is err ErrUnknownAction
  || errors_is err ErrIngestNamespaceNotFound || errors_is err ErrNamespacePaused
  || errors_is err ErrInvalidObjectCreatedAt.

(** The part of [handleMessage] after the lifecycle check. *)
Definition process_and_ack (msg : XMessage) (payload : EventPayload) : M W () :=
  let! ' (_, err) := Process svc background payload in
  if negb (nil_err err) then
    if permanent err then ack (ID msg) else ret tt
  else ack (ID msg).

(** [lifecycle] is whether a lifecycle evaluator is configured. *)
Definition handleMessage (lifecycle : bool) (msg : XMessage) : M W () :=
  match decodeEventMessage msg with
  | None => ack (ID msg)
  | Some payload =>
      if lifecycle then
        let generation :=
          if (0 <? ep_NamespaceGeneration payload)%Z then Some (ep_NamespaceGeneration payload) else None in
        let! ' (disposition, lifecycleErr) := EvaluateEnvelope (ep_Namespace payload) generation in
        if negb (nil_err lifecycleErr) then ret tt
        else if bool_decide (disposition = Some EnvelopeStale) then ack (ID msg)
        else process_and_ack msg payload
      else process_and_ack msg payload
  end.
End worker.

(** The HTTP handler's classification of a failed [Process]. *)
Definition isClientPayloadError (err : error) : bool :=
  errors_is err ErrInvalidPayload || errors_is err ErrUnknownAction
  || errors_is err ErrIngestNamespaceNotFound.

(** ** What the service stores *)

(** The configuration service only reads. *)
Definition config_reads (svc : IngestService) : Prop :=
  ∀ ns w, core_same w (is_nsConfig svc ns w).2.

(** The weight of an action: the namespace's own, else the default. *)
Definition weight_of (cfg : Config) (action : string) : option float64 :=
  match cfg_ActionWeights cfg !! action with
  | Some w => Some w
  | None => DefaultActionWeights !! action
  end.

Definition event_of (p : EventPayload) (weight : float64) (id : Z) : Event :=
  {| ev_ID := id; ev_Namespace := ep_Namespace p; ev_SubjectID := ep_SubjectID p;
     ev_ObjectID := ep_ObjectID p; ev_Action := ep_Action p; ev_Weight := weight;
     ev_OccurredAt := ep_OccurredAt p; ev_ObjectCreatedAt := ep_ObjectCreatedAt p |}.

(** Exactly one row was added, with the next id of the sequence. *)
Record stored (p : EventPayload) (weight : float64) (id : Z) (s s' : IngestState) : Prop := {
  st_events : in_events s' = in_events s ++ [event_of p weight id];
  st_id : id = in_next_id s;
  st_next : in_next_id s' = (in_next_id s + 1)%Z;
  st_acked : in_acked s' = in_acked s;
}.

(** The outcome of a write: nothing but an error, or one row. *)
Definition outcome (svc : IngestService) (p : EventPayload) (err : error) (id : Z) (w w' : W) : Prop :=
  w_ledger w' = w_ledger w ∧ w_now w' = w_now w ∧
  ((err ≠ [] ∧ w_ext w' = w_ext w) ∨
   (err = [] ∧ ∃ w0 cfg weight, core_same w w0 ∧
      (is_nsConfig svc (ep_Namespace p) w0).1 = (Some cfg, []) ∧ cfg_Paused cfg = false ∧
      weight_of cfg (ep_Action p) = Some weight ∧ stored p weight id (w_ext w) (w_ext w'))).

Lemma resolveWeight_spec svc ns action w :
  config_reads svc →
  core_same w (resolveWeight svc ns action w).2 ∧
  ((resolveWeight svc ns action w).1.2 ≠ [] ∨
   (resolveWeight svc ns action w).1.2 = [] ∧
   ∃ cfg, (is_nsConfig svc ns w).1 = (Some cfg, []) ∧ cfg_Paused cfg = false ∧
     weight_of cfg action = Some (resolveWeight svc ns action w).1.1).
Proof.
  intros Hc. unfold resolveWeight, bind. specialize (Hc ns w). revert Hc.
  destruct (is_nsConfig svc ns w) as [[cfg err] w']. go. intros Hc.
  destruct err as [|x err]; go; [|by split; [|left]].
  destruct cfg as [cfg|]; go; [|by split; [|left]].
  destruct (cfg_Paused cfg) eqn:Hp; go; [by split; [|left]|].
  assert (weight_of cfg action = match cfg_ActionWeights cfg !! action with
    Some w0 => Some w0 | None => DefaultActionWeights !! action end) as Hw by done.
  destruct (cfg_ActionWeights cfg !! action) as [x|];
    [|destruct (DefaultActionWeights !! action) as [x|]]; go; (split; [done|]); [right|right|by left].
  - split; [done|]. by exists cfg.
  - split; [done|]. by exists cfg.
Qed.

Lemma Publish_ext m w :
  w_ledger (Publish m w).2 = w_ledger w ∧ w_now (Publish m w).2 = w_now w ∧
  in_events (w_ext (Publish m w).2) = in_events (w_ext w) ∧
  in_next_id (w_ext (Publish m w).2) = in_next_id (w_ext w) ∧
  in_acked (w_ext (Publish m w).2) = in_acked (w_ext w).
Proof.
  unfold Publish, on_ext, modify. cbn [snd w_ledger w_now w_ext set_ext]. case_decide; by split_and!.
Qed.

Lemma Insert_spec e w :
  (∃ w' x, Insert e w = (inr [x], w') ∧ core_same w w' ∧ (x = ErrDriver ∨ x = ErrDataException)) ∨
  (∃ w', Insert e w = (inl (with_id e (in_next_id (w_ext w))), w') ∧
     forallb pg_text (event_texts e) = true ∧ w_ledger w' = w_ledger w ∧ w_now w' = w_now w ∧
     w_ext w' = set_events (in_events (w_ext w) ++ [with_id e (in_next_id (w_ext w))])
                           (in_next_id (w_ext w) + 1) (w_ext w)).
Proof.
  unfold Insert, bind. pose proof (sbf_core _ _ (fault_frame w)) as Hf. revert Hf.
  destruct (fault w) as [[] w2]; go; intros Hf; [left; exists w2, ErrDriver; auto|].
  destruct (forallb pg_text (event_texts e)); go; [right|left; exists w2, ErrDataException; auto].
  destruct Hf as [Hl Hn He]. unfold gets, on_ext, modify. go. rewrite He.
  eexists. split; [done|]. cbn [w_ledger w_now w_ext set_ext]. by rewrite Hl, Hn.
Qed.

Lemma processActive_spec svc p w :
  config_reads svc →
  let '((id, err), w') := processActive svc p w in outcome svc p err id w w'.
Proof.
  intros Hc. unfold processActive, bind.
  destruct (resolveWeight_spec svc (ep_Namespace p) (ep_Action p) w Hc) as [Hcs Hr]. revert Hcs Hr.
  destruct (resolveWeight svc (ep_Namespace p) (ep_Action p) w) as [[weight err] w1]. go. intros [Hl Hn He] Hr.
  destruct Hr as [Hr|(-> & cfg & Hcfg & Hp & Hw)].
  { destruct err; [done|]. go. split_and!; [done|done|]. by left. }
  go. match goal with |- context [Insert ?e w1] =>
    destruct (Insert_spec e w1) as [(w2 & x & -> & [Hl2 Hn2 He2] & _)|(w2 & -> & _ & Hl2 & Hn2 & He2)] end; go.
  { unfold outcome. split_and!; [congruence|congruence|]. left. split; [done|congruence]. }
  assert (∀ w4, w_ledger w4 = w_ledger w2 → w_now w4 = w_now w2 →
      in_events (w_ext w4) = in_events (w_ext w2) → in_next_id (w_ext w4) = in_next_id (w_ext w2) →
      in_acked (w_ext w4) = in_acked (w_ext w2) →
      outcome svc p [] (in_next_id (w_ext w1)) w w4) as Hout.
  { intros w4 H1 H2 H3 H4 H5. split_and!; [congruence|congruence|]. right. split; [done|].
    exists w, cfg, weight. split_and!; try done. rewrite He2, He in *. split; done. }
  cbn [ev_ID with_id].
  destruct (is_tailPublisher svc); go; [|by apply Hout].
  match goal with |- context [Publish ?m ?w0] => destruct (Publish_ext m w0) as (? & ? & ? & ? & ?) end.
  by apply Hout.
Qed.

(** The payload as it is stored: an omitted instant becomes the time of
    arrival, and under a lease the generation is the lease's. *)
Definition normalized (p : EventPayload) (now : Z) : EventPayload :=
  if (ep_OccurredAt p =? 0)%Z then with_occurred now p else p.

Record valid_payload (p : EventPayload) (now : Z) : Prop := {
  vp_namespace : ep_Namespace p ≠ "";
  vp_subject : ep_SubjectID p ≠ "";
  vp_object : ep_ObjectID p ≠ "";
  vp_occurred : ep_OccurredAt p = 0%Z ∨ (ep_OccurredAt p <= now + maxOccurredAtSkew)%Z;
  vp_created : ∀ t, ep_ObjectCreatedAt p = Some t → (t <= now + maxOccurredAtSkew)%Z;
}.

Lemma outcome_core svc p err id w1 w w' w2 :
  core_same w w1 → core_same w' w2 → outcome svc p err id w1 w' → outcome svc p err id w w2.
Proof.
  intros [Hl Hn He] [Hl' Hn' He'] (H1 & H2 & H3). split_and!; [congruence|congruence|].
  destruct H3 as [[? H3]|(? & w0 & cfg & weight & Hcs & Hcfg & Hp & Hw & Hst)]; [left; split; congruence|].
  right. split; [done|]. exists w0, cfg, weight. rewrite He', <- He. split_and!; try done.
  by etransitivity; [split|exact Hcs].
Qed.

Lemma outcome_generation svc p g err id w w' :
  outcome svc (with_generation g p) err id w w' → outcome svc p err id w w'.
Proof.
  intros (H1 & H2 & H3). split_and!; [done|done|].
  destruct H3 as [?|(? & w0 & cfg & weight & Hcs & Hcfg & Hp & Hw & [? ? ? ?])]; [by left|right].
  split; [done|]. exists w0, cfg, weight. by split_and!.
Qed.

Lemma outcome_err svc p err id w : err ≠ [] → outcome svc p err id w w.
Proof. intros He. split_and!; [done|done|]. by left. Qed.

(** Every branch of [Process]. *)
Lemma Process_cases svc ctx p w :
  config_reads svc → existing_lease ctx (ep_Namespace p) = None →
  let '((id, err), w') := Process svc ctx p w in
  outcome svc (normalized p (w_now w)) err id w w' ∧
  (err = [] → valid_payload p (w_now w) ∧
     (is_Some (is_lifecycle svc) →
        ∃ row, l_rows (w_ledger w) !! ep_Namespace p = Some row ∧ r_state row = StateActive)).
Proof.
  intros Hc Hl. unfold Process. destruct (_ || _ || _) eqn:Hids; go.
  { split; [by apply outcome_err|done]. }
  btests. unfold bind, gets. go.
  destruct (negb _ && _) eqn:Hocc; go; [split; [by apply outcome_err|done]|].
  fold (normalized p (w_now w)).
  assert (ep_Namespace (normalized p (w_now w)) = ep_Namespace p ∧
          ep_ObjectCreatedAt (normalized p (w_now w)) = ep_ObjectCreatedAt p) as [Hns Hoc].
  { unfold normalized. by destruct (_ =? _)%Z. }
  rewrite Hns, Hoc.
  match goal with |- context [if ?b then _ else _] => destruct b eqn:Hcr end; go;
    [split; [by apply outcome_err|done]|].
  assert (valid_payload p (w_now w)) as Hv.
  { split; [done|done|done| |].
    - destruct (Z.eqb_spec (ep_OccurredAt p) 0) as [|Hne]; [by left|right]. simpl in Hocc.
      by apply Z.ltb_ge in Hocc.
    - intros t Ht. rewrite Ht in Hcr. by apply Z.ltb_ge in Hcr. }
  destruct (is_lifecycle svc) as [lc|].
  - match goal with |- context [WithWriter ?a ?b ?c ?d ?f w] =>
      pose proof (WithWriter_cases a b c d f w Hl) as Hww;
      destruct (WithWriter a b c d f w) as [[id err] w'] end.
    cbn [fst snd] in Hww. destruct Hww as [(e & He%refusal_not_nil & [= -> ->] & Hcs)|(row & w1 & w2 & Hr & Hs & _ & Hc1 & Hfn & Hc2)].
    + split; [|done]. by eapply outcome_core; [reflexivity|exact Hcs|apply outcome_err].
    + match type of Hfn with processActive ?a ?b w1 = _ =>
        pose proof (processActive_spec a b w1 Hc) as Hpa; rewrite Hfn in Hpa end.
      split; [|intros _; split; [done|]; intros _; by exists row].
      eapply outcome_core; [exact Hc1|exact Hc2|]. by eapply outcome_generation.
  - pose proof (processActive_spec svc (normalized p (w_now w)) w Hc) as Hpa.
    destruct (processActive svc (normalized p (w_now w)) w) as [[id err] w'].
    split; [done|]. intros _. split; [done|]. by intros [].
Qed.

(** C9: Ingest stores exactly what it promises. On every branch and under every
    failure pattern, [Process] either returns an error and leaves the events,
    the tail and the acknowledgements as they were, or it returns the id of the
    one row it appended: the payload's fields with an omitted occurred_at
    replaced by the time of arrival, the configured weight of the action (or
    the default weight), for a payload with all three ids, no timestamp further
    than the permitted skew in the future, a configured namespace that is not
    paused and, when the lifecycle is wired, is active in the ledger. *)
Theorem Process_stores_one_valid_row svc ctx p w :
  config_reads svc → existing_lease ctx (ep_Namespace p) = None →
  let '((id, err), w') := Process svc ctx p w in
  (err ≠ [] ∧ w_ext w' = w_ext w) ∨
  (err = [] ∧ valid_payload p (w_now w) ∧
   (is_Some (is_lifecycle svc) →
      ∃ row, l_rows (w_ledger w) !! ep_Namespace p = Some row ∧ r_state row = StateActive) ∧
   ∃ w0 cfg weight, core_same w w0 ∧
     (is_nsConfig svc (ep_Namespace p) w0).1 = (Some cfg, []) ∧ cfg_Paused cfg = false ∧
     weight_of cfg (ep_Action p) = Some weight ∧
     stored (normalized p (w_now w)) weight id (w_ext w) (w_ext w')).
Proof.
  intros Hc Hl. pose proof (Process_cases svc ctx p w Hc Hl) as H.
  destruct (Process svc ctx p w) as [[id err] w']. destruct H as [(_ & _ & Ho) Hv].
  destruct Ho as [?|(-> & w0 & cfg & weight & H1 & H2 & H3 & H4 & H5)]; [by left|right].
  destruct (Hv eq_refl) as [? ?]. split_and!; try done. exists w0, cfg, weight.
  unfold normalized in H2, H4. split_and!; try done; by destruct (_ =? _)%Z.
Qed.

(** ** The worker *)

Lemma ack_ext id w :
  w_ext (ack id w).2 = w_ext w ∨ w_ext (ack id w).2 = set_acked (in_acked (w_ext w) ++ [id]) (w_ext w).
Proof.
  unfold ack, bind. pose proof (sbf_core _ _ (fault_frame w)) as [_ _ He]. revert He.
  destruct (fault w) as [[] w1]; go; intros He; [by left|right].
  unfold on_ext, modify. cbn [snd w_ext set_ext]. by rewrite He.
Qed.

Section worker_facts.
Context (unmarshal : string → option EventPayload) (svc : IngestService).

(** The reasons for which an entry may be acknowledged. *)
Definition ack_reason (lifecycle : bool) (msg : XMessage) (w w' : W) : Prop :=
  match decodeEventMessage unmarshal msg with
  | None => True
  | Some p =>
      (* stale: another generation, or the namespace is not active *)
      (lifecycle = true ∧ (∃ row, l_rows (w_ledger w) !! ep_Namespace p = Some row ∧
         (r_state row ≠ StateActive ∨ ep_NamespaceGeneration p ≠ r_generation row)) ∧
       in_events (w_ext w') = in_events (w_ext w)) ∨
      (* durable *)
      (valid_payload p (w_now w) ∧
       ∃ weight, in_events (w_ext w') =
         in_events (w_ext w) ++ [event_of (normalized p (w_now w)) weight (in_next_id (w_ext w))]) ∨
      (* permanently rejected *)
      (in_events (w_ext w') = in_events (w_ext w) ∧
       ∃ w0, core_same w w0 ∧ permanent (Process svc background p w0).1.2 = true)
  end.

Lemma process_and_ack_spec msg p w :
  config_reads svc →
  let w' := (process_and_ack svc msg p w).2 in
  (in_acked (w_ext w') = in_acked (w_ext w) ∨
   in_acked (w_ext w') = in_acked (w_ext w) ++ [ID msg] ∧
   ((valid_payload p (w_now w) ∧
     ∃ weight, in_events (w_ext w') =
       in_events (w_ext w) ++ [event_of (normalized p (w_now w)) weight (in_next_id (w_ext w))]) ∨
    (in_events (w_ext w') = in_events (w_ext w) ∧ permanent (Process svc background p w).1.2 = true))).
Proof.
  intros Hc. unfold process_and_ack, bind. pose proof (Process_cases svc background p w Hc eq_refl) as H.
  destruct (Process svc background p w) as [[id err] w1]. destruct H as [(_ & _ & Ho) Hv].
  destruct Ho as [[He Hx]|(-> & w0 & cfg & weight & _ & _ & _ & _ & [Hev Hid _ Hak])]; go.
  - destruct err as [|x err]; [done|]. go. destruct (permanent (x :: err)) eqn:Hp; go; [|left; congruence].
    destruct (ack_ext (ID msg) w1) as [-> | ->]; rewrite Hx; [by left|right]. split; [done|]. by right.
  - destruct (ack_ext (ID msg) w1) as [-> | ->]; [by left|right]. simpl. rewrite Hak, Hev. split; [done|].
    left. split; [by apply Hv|]. exists weight. by rewrite Hid.
Qed.

(** At-least-once delivery of events. Handling one stream entry acknowledges
    at most that entry, and only when it is safe to forget: the entry does not
    decode, or it belongs to a generation that is no longer the active one, or
    its row is in the events table, or processing it was refused for a
    permanent reason and nothing was stored. Every other outcome, whatever
    failed, leaves the entry pending for the reaper. *)
Theorem event_acked_only_when_settled lifecycle msg w :
  config_reads svc → ledger_wf (w_ledger w) →
  let w' := (handleMessage unmarshal svc lifecycle msg w).2 in
  in_acked (w_ext w') = in_acked (w_ext w) ∨
  (in_acked (w_ext w') = in_acked (w_ext w) ++ [ID msg] ∧ ack_reason lifecycle msg w w').
Proof.
  intros Hc Hwf. unfold handleMessage, ack_reason. cbv zeta.
  destruct (decodeEventMessage unmarshal msg) as [p|].
  2: { destruct (ack_ext (ID msg) w) as [-> | ->]; [by left|by right]. }
  destruct lifecycle.
  - unfold bind. destruct (repo_GetNamespace_spec (ep_Namespace p) w) as (w1 & Hs%sbf_core & Hg).
    unfold EvaluateEnvelope, bind. destruct Hg as [-> | ->]; go; [left; by rewrite (cs_ext _ _ Hs)|].
    destruct (l_rows (w_ledger w) !! ep_Namespace p) as [row|] eqn:Hrow; go; [|left; by rewrite (cs_ext _ _ Hs)].
    cbn [nl_state nl_generation nl_legacy scanNamespace].
    case_bool_decide as Hd.
    + pose proof (ack_ext (ID msg) w1) as Ha. rewrite (cs_ext _ _ Hs) in Ha.
      destruct Ha as [-> | ->]; [by left|right]. split; [done|]. left. split_and!; [done| |done].
      exists row. split; [done|]. revert Hd.
      case_bool_decide as Hst; cbn [negb]; [|by left]. right. intros Heq.
      revert Hd. rewrite Heq. destruct (Z.ltb_spec 0 (r_generation row)) as [Hpos|Hneg]; simpl.
      * destruct (Z.eqb_spec (r_generation row) 0); [lia|]. by rewrite Z.eqb_refl.
      * destruct (proj1 Hwf _ _ Hrow) as [Hg _]. lia.
    + pose proof (process_and_ack_spec msg p w1 Hc) as Hp. destruct Hs as [Hl Hn He].
      rewrite He, Hn in Hp. destruct Hp as [?|[? [?|[? ?]]]]; [by left|right; split; [done|]; by right; left|].
      right. split; [done|]. right. right. split; [done|]. exists w1. by split.
  - pose proof (process_and_ack_spec msg p w Hc) as Hp.
    destruct Hp as [?|[? [?|[? ?]]]]; [by left|right; split; [done|]; by right; left|].
    right. split; [done|]. right. right. split; [done|]. by exists w.
Qed.

(** An entry for a namespace the ledger does not know is never settled: with
    the lifecycle evaluator wired, its handling stores nothing and acknowledges
    nothing under any failure pattern, so the entry stays pending for good
    (the comment on [handleMessage] says that unprocessable entries are
    acknowledged and dropped, and [Process] alone would refuse the entry for a
    permanent reason). *)
Theorem unknown_namespace_never_acked msg p w :
  decodeEventMessage unmarshal msg = Some p → l_rows (w_ledger w) !! ep_Namespace p = None →
  let w' := (handleMessage unmarshal svc true msg w).2 in
  w_ext w' = w_ext w ∧ w_ledger w' = w_ledger w.
Proof.
  intros Hd Hn. unfold handleMessage. rewrite Hd. unfold EvaluateEnvelope, bind.
  destruct (repo_GetNamespace_spec (ep_Namespace p) w) as (w1 & [Hl _ He]%sbf_core & [-> | ->]); [by go|].
  rewrite Hn. by go.
Qed.

Lemma refusal_not_permanent e : refusal e → permanent e = false.
Proof. intros (x & -> & Hx). by repeat (apply elem_of_cons in Hx as [->|Hx]); [..|apply elem_of_nil in Hx]. Qed.

(** A row PostgreSQL cannot hold fails for a reason the worker takes for a
    transient one. *)
Lemma processActive_unstorable p cfg w :
  config_reads svc → (is_nsConfig svc (ep_Namespace p) w).1 = (Some cfg, []) → cfg_Paused cfg = false →
  is_Some (weight_of cfg (ep_Action p)) →
  forallb pg_text [ep_Namespace p; ep_SubjectID p; ep_ObjectID p; ep_Action p] = false →
  ∃ e w', processActive svc p w = ((0%Z, e), w') ∧ core_same w w' ∧ e ≠ [] ∧ permanent e = false.
Proof.
  intros Hc Hcfg Hp [weight Hw] Htxt. unfold processActive, resolveWeight, bind.
  specialize (Hc (ep_Namespace p) w). destruct (is_nsConfig svc (ep_Namespace p) w) as [r w1].
  simpl in Hcfg, Hc. subst r. go. rewrite Hp. unfold weight_of in Hw.
  assert (∃ e w', Insert (event_of p weight 0) w1 = (inr e, w') ∧ core_same w1 w' ∧ e ≠ [] ∧
      permanent e = false) as (e & w' & Hins & Hs & He & Hperm).
  { destruct (Insert_spec (event_of p weight 0) w1) as [(w2 & y & -> & Hs & Hy)|(w2 & _ & Ht & _)].
    - exists [y], w2. split_and!; [done|done|done|by destruct Hy as [-> | ->]].
    - exfalso. change (event_texts (event_of p weight 0)) with
        [ep_Namespace p; ep_SubjectID p; ep_ObjectID p; ep_Action p] in Ht. congruence. }
  exists e, w'. split; [|split; [by etransitivity|done]].
  destruct (cfg_ActionWeights cfg !! ep_Action p) as [x|];
    [|destruct (DefaultActionWeights !! ep_Action p) as [x|]; [|done]]; injection Hw as ->; go;
    fold (event_of p weight 0); by rewrite Hins.
Qed.

Lemma Process_unstorable p cfg w1 :
  config_reads svc → valid_payload p (w_now w1) →
  (∀ w0, core_same w1 w0 → (is_nsConfig svc (ep_Namespace p) w0).1 = (Some cfg, [])) →
  cfg_Paused cfg = false → is_Some (weight_of cfg (ep_Action p)) →
  forallb pg_text [ep_Namespace p; ep_SubjectID p; ep_ObjectID p; ep_Action p] = false →
  ∃ e v, Process svc background p w1 = ((0%Z, e), v) ∧ core_same w1 v ∧ e ≠ [] ∧ permanent e = false.
Proof.
  intros Hc [Hns Hsub Hobj Hocc Hcr] Hcfg Hp Hw Htxt. unfold Process, bind, gets. go.
  rewrite !bool_decide_eq_false_2 by done. cbn [orb].
  assert (negb (ep_OccurredAt p =? 0)%Z && (w_now w1 + maxOccurredAtSkew <? ep_OccurredAt p)%Z = false) as ->.
  { destruct (Z.eqb_spec (ep_OccurredAt p) 0); [done|]. apply Z.ltb_ge. by destruct Hocc. }
  fold (normalized p (w_now w1)). set (q := normalized p (w_now w1)).
  assert (ep_Namespace q = ep_Namespace p ∧ ep_SubjectID q = ep_SubjectID p ∧ ep_ObjectID q = ep_ObjectID p ∧
    ep_Action q = ep_Action p ∧ ep_ObjectCreatedAt q = ep_ObjectCreatedAt p) as (Q1 & Q2 & Q3 & Q4 & Q5).
  { unfold q, normalized. by destruct (_ =? _)%Z. }
  assert (match ep_ObjectCreatedAt q with
    Some t => (w_now w1 + maxOccurredAtSkew <? t)%Z | None => false end = false) as ->.
  { rewrite Q5. destruct (ep_ObjectCreatedAt p) as [t|]; [|done]. apply Z.ltb_ge. by apply Hcr. }
  destruct (is_lifecycle svc) as [lc|].
  - match goal with |- context [WithWriter ?a ?b ?c ?d ?f w1] =>
      destruct (WithWriter_cases a b c d f w1 eq_refl)
        as [(e & He & H1 & H2)|(row' & w2 & w3 & _ & _ & _ & H1 & H2 & H3)];
      destruct (WithWriter a b c d f w1) as [[n e'] v] end; simpl in *.
    + injection H1 as -> ->. exists e, v. split_and!; [done|done|by apply refusal_not_nil|].
      by apply refusal_not_permanent.
    + destruct (processActive_unstorable (with_generation (r_generation row') q) cfg w2) as (e & v' & HA & HB & HC & HD);
        [done|simpl; rewrite Q1; by apply Hcfg|done|simpl; by rewrite Q4|simpl; by rewrite Q1, Q2, Q3, Q4|].
      rewrite HA in H2. injection H2 as <- <- <-. exists e, v. split_and!; try done.
      etransitivity; [exact H1|]. by etransitivity.
  - destruct (processActive_unstorable q cfg w1) as (e & v' & HA & HB & HC & HD);
      [done|rewrite Q1; by apply Hcfg|done|by rewrite Q4|by rewrite Q1, Q2, Q3, Q4|].
    exists e, v'. by split_and!.
Qed.

(** An event whose text PostgreSQL cannot hold (a NUL in an identifier, which
    JSON can carry) is never settled: for a well-formed payload of the active
    generation of a configured namespace, handling the entry stores nothing and
    acknowledges nothing under any failure pattern, so it is redelivered for
    good. Catalog ingest refuses or sanitises such text; event ingest does
    not. *)
Theorem unstorable_event_never_acked msg p cfg row w :
  config_reads svc → decodeEventMessage unmarshal msg = Some p →
  l_rows (w_ledger w) !! ep_Namespace p = Some row → r_state row = StateActive →
  (1 <= r_generation row)%Z → ep_NamespaceGeneration p = r_generation row →
  valid_payload p (w_now w) →
  (∀ w0, core_same w w0 → (is_nsConfig svc (ep_Namespace p) w0).1 = (Some cfg, [])) →
  cfg_Paused cfg = false → is_Some (weight_of cfg (ep_Action p)) →
  forallb pg_text [ep_Namespace p; ep_SubjectID p; ep_ObjectID p; ep_Action p] = false →
  w_ext (handleMessage unmarshal svc true msg w).2 = w_ext w.
Proof.
  intros Hc Hd Hr Hst Hg Hgen Hv Hcfg Hp Hw Htxt. unfold handleMessage. rewrite Hd, Hgen.
  destruct (Z.ltb_spec 0 (r_generation row)) as [_|]; [|lia].
  unfold EvaluateEnvelope, bind.
  destruct (repo_GetNamespace_spec (ep_Namespace p) w) as (w1 & Hs1%sbf_core & [-> | ->]); go; [apply Hs1|].
  rewrite Hr. go. cbn [nl_state nl_generation nl_legacy scanNamespace default].
  rewrite (bool_decide_eq_true_2 (r_state row = StateActive)) by done.
  change (id (r_generation row)) with (r_generation row).
  destruct (Z.eqb_spec (r_generation row) 0) as [|_]; [lia|]. rewrite Z.eqb_refl. cbn [negb].
  rewrite bool_decide_eq_false_2 by done.
  assert (∃ e v, Process svc background p w1 = ((0%Z, e), v) ∧ core_same w1 v ∧ e ≠ [] ∧ permanent e = false)
    as (e & v & HP & [_ _ Hx] & He & Hperm).
  { apply (Process_unstorable p cfg); try done; [by rewrite (cs_now _ _ Hs1)|].
    intros w0 H0. apply Hcfg. by etransitivity. }
  unfold process_and_ack, bind. rewrite HP. go. destruct e; [done|]. go. rewrite Hperm. go.
  rewrite Hx. apply Hs1.
Qed.

(** The write does not look at the generation of the envelope: under the
    lifecycle, [Process] behaves the same whatever generation the payload
    names, since it stores under the generation of the lease it obtains. The
    generation check of the worker and the write are two separate sections. *)
Theorem Process_ignores_envelope_generation ctx p g w :
  is_Some (is_lifecycle svc) →
  Process svc ctx (with_generation g p) w = Process svc ctx p w.
Proof.
  intros [lc Hlc]. unfold Process. rewrite Hlc. destruct p. cbn. unfold bind, gets. go.
  split_if; [done|]. split_if; [done|].
  destruct (_ =? _)%Z; cbn; by split_if.
Qed.
End worker_facts.

(** ** Witnesses *)

Definition sample_config : Config :=
  {| cfg_Namespace := "demo"; cfg_Generation := 3; cfg_ActionWeights := {["LIKE" := f64_of_Z 7]};
     cfg_Lambda := f64_zero; cfg_Gamma := f64_zero; cfg_MaxResults := 20; cfg_SeenItemsDays := 30;
     cfg_ExcludeAuthored := false; cfg_Paused := false; cfg_APIKeyHash := ""; cfg_Alpha := f64_one;
     cfg_DenseSource := DenseSourceCatalog; cfg_EmbeddingDim := 4; cfg_DenseDistance := "cosine";
     cfg_TrendingWindow := 24; cfg_TrendingTTL := 600; cfg_LambdaTrending := f64_zero;
     cfg_CatalogStrategyID := "internal-hashing-ngrams"; cfg_CatalogStrategyVersion := "v1"; cfg_CatalogStrategyParams := None;
     cfg_CatalogMaxAttempts := 5; cfg_CatalogMaxContentBytes := 32; cfg_CreatedAt := 0; cfg_UpdatedAt := 0 |}.

Definition sample_ingest : IngestService :=
  {| is_nsConfig ns := ret (if decide (ns = "demo") then Some sample_config else None, []);
     is_tailPublisher := true; is_lifecycle := Some pair_service |}.

Definition sample_payload (action : string) : EventPayload :=
  {| ep_Namespace := "demo"; ep_NamespaceGeneration := 3; ep_SubjectID := "u1"; ep_ObjectID := "o1";
     ep_Action := action; ep_OccurredAt := 0; ep_ObjectCreatedAt := None |}.

Definition ingest_world (fs : list bool) : W :=
  {| w_ledger := w_ledger (demo_world []); w_now := 9; w_adv := []; w_lockobjs := ∅; w_next := 0;
     w_faults := fs;
     w_ext := {| in_events := []; in_next_id := 1; in_tail := []; in_tail_cap := 1; in_dropped := 0;
                 in_acked := [] |} |}.

Definition sample_unmarshal (raw : string) : option EventPayload :=
  if decide (raw = "like") then Some (sample_payload "LIKE")
  else if decide (raw = "poke") then Some (sample_payload "POKE")
  else None.

Definition sample_msg (raw : string) : XMessage := {| ID := "1-0"; Values := {["payload" := raw]} |}.

Lemma sample_config_reads : config_reads sample_ingest.
Proof. by intros ns w. Qed.

Lemma Process_stores_one_valid_row_witness :
  in_events (w_ext (Process sample_ingest background (sample_payload "LIKE") (ingest_world [])).2) =
    [event_of (with_occurred 9 (sample_payload "LIKE")) (f64_of_Z 7) 1] ∧
  (Process sample_ingest background (sample_payload "POKE") (ingest_world [])).1 = (0%Z, [ErrUnknownAction]).
Proof.
  pose proof (Process_stores_one_valid_row sample_ingest background (sample_payload "LIKE") (ingest_world [])
    sample_config_reads eq_refl) as H.
  destruct (Process sample_ingest background (sample_payload "LIKE") (ingest_world [])) as [[id err] w'] eqn:E.
  assert (err = []) as -> by (vm_compute in E; congruence).
  split; [|vm_compute; reflexivity].
  destruct H as [[? _]|(_ & _ & _ & w0 & cfg & weight & _ & Hcfg & _ & Hw & [Hev Hid _ _])]; [done|].
  vm_compute in Hcfg. injection Hcfg as <-. vm_compute in Hw. injection Hw as <-.
  cbn [snd]. rewrite Hev, Hid. reflexivity.
Defined.

Lemma event_acked_only_when_settled_witness :
  let w' := (handleMessage sample_unmarshal sample_ingest true (sample_msg "like") (ingest_world [])).2 in
  in_acked (w_ext w') = ["1-0"] ∧
  (in_acked (w_ext w') = [] ∨
   in_acked (w_ext w') = [] ++ ["1-0"] ∧
   ack_reason sample_unmarshal sample_ingest true (sample_msg "like") (ingest_world []) w').
Proof.
  split; [vm_compute; reflexivity|].
  apply (event_acked_only_when_settled sample_unmarshal sample_ingest true (sample_msg "like") (ingest_world [])).
  - apply sample_config_reads.
  - split; [|done]. apply map_Forall_singleton. split; simpl; [unfold max_int64; lia|done].
Defined.

Lemma unknown_namespace_never_acked_witness :
  let msg := {| ID := "2-0"; Values := {["payload" := "ghost"]} |} in
  let dec _ := Some (with_generation 1 {| ep_Namespace := "ghost"; ep_NamespaceGeneration := 0;
                 ep_SubjectID := "u"; ep_ObjectID := "o"; ep_Action := "VIEW";
                 ep_OccurredAt := 0; ep_ObjectCreatedAt := None |}) in
  in_acked (w_ext (handleMessage dec sample_ingest true msg (ingest_world [])).2) = [] ∧
  (Process {| is_nsConfig := is_nsConfig sample_ingest; is_tailPublisher := true; is_lifecycle := None |}
     background (default (sample_payload "VIEW") (dec "ghost")) (ingest_world [])).1.2 =
    [ErrIngestNamespaceNotFound].
Proof.
  intros msg dec. split; [|vm_compute; reflexivity].
  pose proof (unknown_namespace_never_acked dec sample_ingest msg (default (sample_payload "VIEW") (dec "ghost"))
    (ingest_world []) eq_refl eq_refl) as [H _].
  by rewrite H.
Defined.

Definition nul_payload : EventPayload :=
  {| ep_Namespace := "demo"; ep_NamespaceGeneration := 3; ep_SubjectID := "u1";
     ep_ObjectID := String Ascii.zero "o1"; ep_Action := "LIKE"; ep_OccurredAt := 0; ep_ObjectCreatedAt := None |}.

Lemma unstorable_event_never_acked_witness :
  w_ext (handleMessage (λ _, Some nul_payload) sample_ingest true (sample_msg "nul") (ingest_world [])).2
    = w_ext (ingest_world []) ∧
  (Process sample_ingest background nul_payload (ingest_world [])).1 = (0%Z, [ErrDataException]).
Proof.
  split; [|vm_compute; reflexivity].
  apply (unstorable_event_never_acked (λ _, Some nul_payload) sample_ingest (sample_msg "nul") nul_payload
    sample_config {| r_generation := 3; r_state := StateActive; r_activated_at := 5; r_legacy := false;
                     r_last_error := None; r_updated_at := 5 |}); try reflexivity.
  - apply sample_config_reads.
  - simpl. lia.
  - split; try done. by left.
  - by eexists.
Defined.

Lemma Process_ignores_envelope_generation_witness :
  Process sample_ingest background (with_generation 2 (sample_payload "LIKE")) (ingest_world []) =
  Process sample_ingest background (sample_payload "LIKE") (ingest_world []).
Proof. apply Process_ignores_envelope_generation. by eexists. Defined.
