(* ===== verification/Objects.v ===== *)
(** * Object attribution

    [internal/objects]: the repository and the service that own the objects
    table, and the adapter of [cmd/api/objects_adapter.go] through which catalog
    ingest writes an author inside its own transaction. The table is reached
    through an interface, so that every world that holds one can use the
    service. *)

From stdpp Require Import base tactics gmap strings list.
From Stdlib Require Import ZArith Lia.
From S2P Require Import Prelude GoLib Utf8 NsNames NsLedger NsService.

Definition ErrObjectsInvalidRequest : string := "objects.ErrInvalidRequest".

(** [AuthorSubjectID] is empty when the column is NULL. *)
Record Object := {
  ob_Namespace : string;
  ob_ObjectID : string;
  ob_AuthorSubjectID : string;
  ob_CreatedAt : Z;
  ob_UpdatedAt : Z;
}.

Definition object_table : Type := gmap (string * string) Object.

(** The interface: an application state with an objects table. *)
Class ObjectStore (X : Type) := {
  objects_of : X → object_table;
  set_objects : object_table → X → X;
  objects_set : ∀ t x, objects_of (set_objects t x) = t;
  set_objects_id : ∀ x, set_objects (objects_of x) x = x;
  set_objects_twice : ∀ t t' x, set_objects t (set_objects t' x) = set_objects t x;
}.

Section objects.
Context {X : Type} `{ObjectStore X}.
Abbreviation W := (World X).

Definition on_objects (f : object_table → object_table) : M W () :=
  modify (λ w, set_ext (set_objects (f (objects_of (w_ext w))) (w_ext w)) w).

(** ** The repository *)

(** The row an upsert leaves; an empty author is stored as NULL. *)
Definition object_row (now : Z) (ns obj author : string) (old : option Object) : Object :=
  {| ob_Namespace := ns; ob_ObjectID := obj; ob_AuthorSubjectID := author;
     ob_CreatedAt := match old with Some o => ob_CreatedAt o | None => now end;
     ob_UpdatedAt := now |}.

Definition repo_Upsert (ns obj author : string) : M W (option Object * error) :=
  let! f := fault in
  if f then ret (None, [ErrDriver])
  else if negb (forallb pg_text [ns; obj; author]) then ret (None, [ErrDataException])
  else
    let! w := get in
    let row := object_row (w_now w) ns obj author (objects_of (w_ext w) !! (ns, obj)) in
    on_objects (<[(ns, obj) := row]>) ;;!
    ret (Some row, []).

Definition repo_Get (ns obj : string) : M W (option Object * error) :=
  let! f := fault in
  if f then ret (None, [ErrDriver])
  else if negb (forallb pg_text [ns; obj]) then ret (None, [ErrDataException])
  else let! x := gets w_ext in ret (objects_of x !! (ns, obj), []).

Definition repo_Delete (ns obj : string) : M W error :=
  let! f := fault in
  if f then ret [ErrDriver]
  else if negb (forallb pg_text [ns; obj]) then ret [ErrDataException]
  else on_objects (delete (ns, obj)) ;;! ret [].

(** ** The service

    [lc] is the lifecycle writer, [None] when it is not wired; a request is its
    author field, [None] for a nil request. *)

Definition upsertActive (ns obj author : string) : M W (option Object * error) :=
  let! ' (obj, err) := repo_Upsert ns obj (trim_space author) in
  if negb (nil_err err) then ret (None, err) else ret (obj, []).

Definition Upsert (lc : option Service) (ctx : Ctx) (ns obj : string) (req : option string)
    : M W (option Object * error) :=
  if bool_decide (ns = "") || bool_decide (obj = "") then ret (None, [ErrObjectsInvalidRequest])
  else
    match req with
    | None => ret (None, [ErrObjectsInvalidRequest])
    | Some author =>
        match lc with
        | Some svc => WithWriter None svc ctx ns (λ _ _, upsertActive ns obj author)
        | None => upsertActive ns obj author
        end
    end.

Definition setAuthorActive (ns obj author : string) : M W error :=
  let! ' (_, err) := repo_Upsert ns obj author in ret err.

(** [WithWriter] around code that returns nothing but an error. *)
Definition under_writer (lc : option Service) (ctx : Ctx) (ns : string) (body : M W error) : M W error :=
  match lc with
  | Some svc =>
      let! ' (_, err) := WithWriter tt svc ctx ns (λ _ _, let! e := body in ret (tt, e)) in ret err
  | None => body
  end.

Definition SetAuthor (lc : option Service) (ctx : Ctx) (ns obj author : string) : M W error :=
  let author := trim_space author in
  if bool_decide (author = "") then ret []
  else under_writer lc ctx ns (setAuthorActive ns obj author).

(** The transaction-scoped repository runs the same statement. *)
Definition SetAuthorWithRepo (lc : option Service) (ctx : Ctx) (ns obj author : string) : M W error :=
  let author := trim_space author in
  if bool_decide (author = "") then ret []
  else under_writer lc ctx ns (let! ' (_, err) := repo_Upsert ns obj author in ret err).

Definition Get (ns obj : string) : M W (option Object * error) := repo_Get ns obj.

Definition Delete (lc : option Service) (ctx : Ctx) (ns obj : string) : M W error :=
  under_writer lc ctx ns (repo_Delete ns obj).

(** [SetAuthorTx] with an open transaction. *)
Definition SetAuthorTx (lc : option Service) (ctx : Ctx) (ns obj author : string) : M W error :=
  SetAuthorWithRepo lc ctx ns obj author.

(** ** Facts *)

(** What an attribution write does to the table. *)
Definition authored (now : Z) (ns obj author : string) (t : object_table) : object_table :=
  let author := trim_space author in
  if decide (author = "") then t
  else <[(ns, obj) := object_row now ns obj author (t !! (ns, obj))]> t.

Lemma repo_Upsert_spec ns obj author w :
  (∃ x w', repo_Upsert ns obj author w = ((None, [x]), w') ∧ core_same w w' ∧
     (x = ErrDriver ∨ x = ErrDataException ∧ forallb pg_text [ns; obj; author] = false)) ∨
  (∃ w', let row := object_row (w_now w) ns obj author (objects_of (w_ext w) !! (ns, obj)) in
     repo_Upsert ns obj author w = ((Some row, []), w') ∧ forallb pg_text [ns; obj; author] = true ∧
     w_ledger w' = w_ledger w ∧ w_now w' = w_now w ∧
     w_ext w' = set_objects (<[(ns, obj) := row]> (objects_of (w_ext w))) (w_ext w)).
Proof.
  unfold repo_Upsert, bind. pose proof (fault_core w) as Hf. destruct (fault w) as [[] w1]; go.
  { left. exists ErrDriver, w1. auto. }
  destruct (forallb pg_text [ns; obj; author]) eqn:Ht; go.
  2: { left. exists ErrDataException, w1. auto. }
  right. destruct Hf as [Hl Hn Hx]. cbn [snd] in *. unfold get, on_objects, modify. go.
  eexists. split; [by rewrite Hx, Hn|]. cbn [w_ledger w_now w_ext set_ext]. by rewrite ?Hx, ?Hn.
Qed.

(** An attribution inside a section that already holds the lease, or without a
    lifecycle: no locks are taken, so the only effect is the row. *)
Lemma SetAuthorWithRepo_spec lc ctx ns obj author w :
  (is_Some lc → is_Some (existing_lease ctx ns)) →
  (∃ x w', SetAuthorWithRepo lc ctx ns obj author w = ([x], w') ∧ core_same w w' ∧
     (x = ErrDriver ∨ x = ErrDataException ∧ forallb pg_text [ns; obj; trim_space author] = false)) ∨
  (∃ w', SetAuthorWithRepo lc ctx ns obj author w = ([], w') ∧
     w_ledger w' = w_ledger w ∧ w_now w' = w_now w ∧
     w_ext w' = set_objects (authored (w_now w) ns obj author (objects_of (w_ext w))) (w_ext w)).
Proof.
  intros Hl. unfold SetAuthorWithRepo, authored. cbv zeta. destruct (decide (trim_space author = "")) as [E|E].
  { rewrite bool_decide_eq_true_2 by done. go. right. exists w. by rewrite set_objects_id. }
  rewrite bool_decide_eq_false_2 by done.
  assert (∀ m, under_writer lc ctx ns m w = m w) as ->.
  { intros m. unfold under_writer. destruct lc as [svc|]; [|done].
    destruct Hl as [l Hl]; [by eexists|]. unfold WithWriter. rewrite Hl. unfold bind. go. by destruct (m w). }
  unfold bind. destruct (repo_Upsert_spec ns obj (trim_space author) w)
    as [(x & w' & -> & Hs & Hx)|(w' & -> & _ & Hs)]; go; [left; by exists x, w'|right; by exists w'].
Qed.

(** The objects endpoint writes under the writer's lease and nowhere else:
    when [Upsert] reports success the namespace is active in the ledger, both
    ids are present, and the objects table has changed in exactly one row, the
    trimmed author of the request (an empty one clears the attribution), with
    the creation time of the row it replaces. *)
Theorem Upsert_attributes_under_lease lc ctx ns obj req w :
  existing_lease ctx ns = None →
  let r := Upsert (Some lc) ctx ns obj req w in
  r.1.2 = [] →
  ∃ row author, l_rows (w_ledger w) !! ns = Some row ∧ r_state row = StateActive ∧ req = Some author ∧
    ns ≠ "" ∧ obj ≠ "" ∧
    let o := object_row (w_now w) ns obj (trim_space author) (objects_of (w_ext w) !! (ns, obj)) in
    r.1.1 = Some o ∧ w_ext r.2 = set_objects (<[(ns, obj) := o]> (objects_of (w_ext w))) (w_ext w).
Proof.
  intros Hl r. subst r. unfold Upsert. destruct (_ || _) eqn:Hids; go; [done|]. btests.
  destruct req as [author|]; go; [|done].
  match goal with |- context [WithWriter ?a ?b ?c ?d ?f w] =>
    destruct (WithWriter_cases a b c d f w Hl) as [(e & He%refusal_not_nil & Heq & _)|(row & w1 & w2 & Hr & Hs & _ & [_ Hn Hx] & Hfn & [_ _ Hx'])];
    destruct (WithWriter a b c d f w) as [r w'] end; cbn [fst snd] in *.
  { subst r. simpl. by intros ->. }
  unfold upsertActive, bind in Hfn. intros Hnil.
  destruct (repo_Upsert_spec ns obj (trim_space author) w1) as [(x & w3 & HU & _)|(w3 & HU & _ & _ & _ & Hx3)];
    rewrite HU in Hfn; cbn [fst snd nil_err negb ret bind] in Hfn.
  { injection Hfn as <- _. done. }
  injection Hfn as <- <-. exists row, author. split_and!; try done.
  - by rewrite Hn, Hx.
  - rewrite Hx', Hx3. by rewrite Hn, Hx.
Qed.
End objects.

(** ** Witness *)

#[export] Instance table_store : ObjectStore object_table.
Proof. refine {| objects_of := λ t, t; set_objects := λ t _, t |}; done. Defined.

Definition objects_world (fs : list bool) : World object_table :=
  {| w_ledger := w_ledger (demo_world []); w_now := 9; w_adv := []; w_lockobjs := ∅; w_next := 0;
     w_faults := fs; w_ext := ∅ |}.

Lemma Upsert_attributes_under_lease_witness :
  let r := Upsert (Some pair_service) background "demo" "o1" (Some " alice ") (objects_world []) in
  r.1.2 = [] ∧ (ob_AuthorSubjectID <$> r.1.1) = Some "alice" ∧
  ∃ row author, l_rows (w_ledger (objects_world [])) !! "demo" = Some row ∧ r_state row = StateActive ∧
    Some " alice " = Some author ∧ "demo" ≠ "" ∧ "o1" ≠ "" ∧
    let o := object_row 9 "demo" "o1" (trim_space author) ((∅ : object_table) !! ("demo", "o1")) in
    r.1.1 = Some o ∧ w_ext r.2 = <[("demo", "o1") := o]> ∅.
Proof.
  split; [vm_compute; reflexivity|]. split; [vm_compute; reflexivity|].
  destruct (Upsert_attributes_under_lease pair_service background "demo" "o1" (Some " alice ") (objects_world []))
    as (row & author & H1 & H2 & H3 & H4 & H5 & H6 & H7).
  - reflexivity.
  - vm_compute. reflexivity.
  - exists row, author. split_and!; [exact H1|exact H2|exact H3|exact H4|exact H5|split; [exact H6|exact H7]].
Defined.
