(* ===== verification/Catalog.v ===== *)
(** * Catalog ingest

    [internal/catalog]: validation and sanitising of catalog content, the upsert
    of [catalog_items] with its attribution in one transaction, the publish to
    the embed stream and the batch; the
    adapter in [cmd/api/catalog_stream_adapter.go] and the stream worker in
    [internal/ingest/catalog_worker.go] that feeds it. SHA-256, JSON and the
    configuration service are parameters. *)

From stdpp Require Import base tactics gmap strings list sorting.
From Stdlib Require Import ZArith Lia.
From S2P Require Import Prelude GoLib Utf8 Keyset NsNames NsLedger NsService Float64 NamespaceConfig RedisStream StreamConsumer Objects.

Definition ErrInvalidRequest : string := "catalog.ErrInvalidRequest".
Definition ErrEmptyContent : string := "catalog.ErrEmptyContent".
Definition ErrContentTooLarge : string := "catalog.ErrContentTooLarge".
Definition ErrNamespaceNotEnabled : string := "catalog.ErrNamespaceNotEnabled".
Definition ErrCatalogNamespaceNotFound : string := "catalog.ErrNamespaceNotFound".
Definition ErrCatalogNamespacePaused : string := "catalog.ErrNamespacePaused".
Definition ErrUnstorable : string := "catalog.ErrUnstorable".
Definition ErrCatalogItemRejected : string := "ingest.ErrCatalogItemRejected".

(** ** Sanitising *)

Definition isStorable (s : string) : bool := negb (contains_nul s) && valid_utf8 s.

Definition sanitizeStorable (s : string) : string := to_valid_utf8 (remove_nul s).

(** [out[k] = v]. *)
Fixpoint assoc_set {V} (k : string) (v : V) (m : list (string * V)) : list (string * V) :=
  match m with
  | [] => [(k, v)]
  | (k', v') :: rest => if decide (k' = k) then (k, v) :: rest else (k', v') :: assoc_set k v rest
  end.

Fixpoint sanitizeStorableValue (v : jvalue) : jvalue :=
  match v with
  | JString s => JString (sanitizeStorable s)
  | JObject m =>
      JObject (foldl (λ out p, assoc_set p.1 p.2 out) []
        ((fix go (m : list (string * jvalue)) : list (string * jvalue) :=
           match m with
           | [] => []
           | (k, v) :: rest => (sanitizeStorable k, sanitizeStorableValue v) :: go rest
           end) m))
  | JArray l => JArray (sanitizeStorableValue <$> l)
  | v => v
  end.

Abbreviation metadata := (option (list (string * jvalue))).

Definition sanitizeStorableMetadata (m : metadata) : metadata :=
  match m with
  | None => None
  | Some m => match sanitizeStorableValue (JObject m) with JObject m' => Some m' | _ => None end
  end.

(** ** Rows *)

Inductive CatalogState := StatePending | StateInFlight | StateEmbedded | StateFailed | StateDeadLetter.

Record Item := {
  ci_ID : Z;
  ci_Namespace : string;
  ci_ObjectID : string;
  ci_Content : string;
  ci_ContentHash : string;
  ci_Metadata : metadata;
  ci_State : CatalogState;
  ci_StrategyID : string;
  ci_StrategyVersion : string;
  ci_EmbeddedAt : option Z;
  ci_AttemptCount : Z;
  ci_LastError : string;
  ci_CreatedAt : Z;
  ci_UpdatedAt : Z;
}.

Record IngestRequest := {
  rq_ObjectID : string;
  rq_Content : string;
  rq_AuthorSubjectID : string;
  rq_Metadata : metadata;
}.

(** One XADD to an embed stream. *)
Record EmbedEntry := {
  ee_Stream : string;
  ee_ItemID : Z;
  ee_Namespace : string;
  ee_Generation : Z;
  ee_ObjectID : string;
  ee_StrategyID : string;
  ee_StrategyVersion : string;
  ee_EnqueuedAt : Z;
}.

Record CatalogDB := {
  cat_items : gmap (string * string) Item;   (* UNIQUE (namespace, object_id) *)
  cat_next_id : Z;
  cat_objects : object_table;                (* of internal/objects *)
  cat_published : list EmbedEntry;
  cat_acked : list string;
}.

Abbreviation W := (World CatalogDB).

Definition set_items (i : gmap (string * string) Item) (n : Z) (s : CatalogDB) : CatalogDB :=
  {| cat_items := i; cat_next_id := n; cat_objects := cat_objects s; cat_published := cat_published s;
     cat_acked := cat_acked s |}.
Definition set_cat_objects (t : object_table) (s : CatalogDB) : CatalogDB :=
  {| cat_items := cat_items s; cat_next_id := cat_next_id s; cat_objects := t;
     cat_published := cat_published s; cat_acked := cat_acked s |}.
Definition set_published (l : list EmbedEntry) (s : CatalogDB) : CatalogDB :=
  {| cat_items := cat_items s; cat_next_id := cat_next_id s; cat_objects := cat_objects s;
     cat_published := l; cat_acked := cat_acked s |}.
Definition set_cat_acked (l : list string) (s : CatalogDB) : CatalogDB :=
  {| cat_items := cat_items s; cat_next_id := cat_next_id s; cat_objects := cat_objects s;
     cat_published := cat_published s; cat_acked := l |}.

#[export] Instance catalog_objects : ObjectStore CatalogDB.
Proof. refine {| objects_of := cat_objects; set_objects := set_cat_objects |}; by try intros ? ? []; try intros []. Defined.

Definition on_db (f : CatalogDB → CatalogDB) : M W () := modify (λ w, set_ext (f (w_ext w)) w).

(** Every string of a metadata value. *)
Fixpoint jstrings (v : jvalue) : list string :=
  match v with
  | JString s => [s]
  | JArray l => mbind jstrings l
  | JObject m =>
      (fix go (m : list (string * jvalue)) : list string :=
         match m with [] => [] | (k, v) :: rest => k :: jstrings v ++ go rest end) m
  | _ => []
  end.

Definition meta_strings (m : metadata) : list string :=
  match m with None => [] | Some m => jstrings (JObject m) end.

(** The round trip through the jsonb column: nil is written as an empty object
    ([marshalMetadata]) and an empty object is read as nil ([unmarshalMetadata]). *)
Definition marshalMetadata (m : metadata) : list (string * jvalue) := default [] m.
Definition unmarshalMetadata (raw : list (string * jvalue)) : metadata :=
  match raw with [] => None | _ => Some raw end.
Definition stored_metadata (m : metadata) : metadata := unmarshalMetadata (marshalMetadata m).

(** The row the upsert leaves, and whether its content is new. *)
Definition upsert_row (now : Z) (ns obj content hash : string) (meta : metadata) (id : Z)
    (old : option Item) : Item * bool :=
  match old with
  | None =>
      ({| ci_ID := id; ci_Namespace := ns; ci_ObjectID := obj; ci_Content := content;
          ci_ContentHash := hash; ci_Metadata := stored_metadata meta; ci_State := StatePending; ci_StrategyID := "";
          ci_StrategyVersion := ""; ci_EmbeddedAt := None; ci_AttemptCount := 0; ci_LastError := "";
          ci_CreatedAt := now; ci_UpdatedAt := now |}, true)
  | Some r =>
      let same := bool_decide (ci_ContentHash r = hash) in
      ({| ci_ID := ci_ID r; ci_Namespace := ns; ci_ObjectID := obj; ci_Content := content;
          ci_ContentHash := hash; ci_Metadata := stored_metadata meta;
          ci_State := if same then ci_State r else StatePending;
          ci_StrategyID := ci_StrategyID r; ci_StrategyVersion := ci_StrategyVersion r;
          ci_EmbeddedAt := ci_EmbeddedAt r;
          ci_AttemptCount := if same then ci_AttemptCount r else 0%Z;
          ci_LastError := if same then ci_LastError r else "";
          ci_CreatedAt := ci_CreatedAt r; ci_UpdatedAt := now |}, negb same)
  end.

(** A nextval is taken whether or not the row exists, and is not rolled back. *)
Definition repo_Upsert (ns obj content hash : string) (meta : metadata) : M W ((Item * bool) + error) :=
  let! b := fault in
  if b then ret (inr [ErrDriver])
  else if negb (forallb pg_text (ns :: obj :: content :: meta_strings meta)) then ret (inr [ErrDataException])
  else
    let! now := gets w_now in
    let! s := gets w_ext in
    let r := upsert_row now ns obj content hash meta (cat_next_id s) (cat_items s !! (ns, obj)) in
    on_db (set_items (<[(ns, obj) := r.1]> (cat_items s)) (cat_next_id s + 1)) ;;!
    ret (inl r).

(** ROLLBACK: both tables as they were when the transaction began. *)
Definition rollback (s : CatalogDB) : M W () :=
  on_db (λ s', set_cat_objects (cat_objects s) (set_items (cat_items s) (cat_next_id s') s')).

(** [pgx.BeginFunc]. *)
Definition BeginFunc {A} (fn : M W (A + error)) : M W (A + error) :=
  let! b := fault in
  if b then ret (inr [ErrDriver])
  else
    let! s := gets w_ext in
    let! r := fn in
    match r with
    | inr e => rollback s ;;! ret (inr e)
    | inl a =>
        let! b := fault in
        if b then rollback s ;;! ret (inr [ErrDriver]) else ret (inl a)
    end.

(** The repository with its pool; the pool-less variant exists for tests. *)
Definition UpsertWithAttribution (ns obj content hash : string) (meta : metadata)
    (writeAuthor : option (M W error)) : M W ((Item * bool) + error) :=
  match writeAuthor with
  | None => repo_Upsert ns obj content hash meta
  | Some write =>
      BeginFunc (
        let! r := repo_Upsert ns obj content hash meta in
        match r with
        | inr e => ret (inr e)
        | inl res => let! e := write in if nil_err e then ret (inl res) else ret (inr e)
        end)
  end.

(** ** The service *)

Record CatalogService := {
  cs_nsConfig : string → M W (option Config * error);
  cs_authorWriter : option (option Service);  (* the objects service, by its own lifecycle *)
  cs_lifecycle : option Service;
  cs_defaultMaxContentBytes : Z;
}.

Definition generationStreamName (ns : string) (generation : Z) : option string :=
  Incarnation_MustPhysicalName (NewIncarnation ns generation) KindEmbedStream.

Definition publish (ns : string) (item : Item) (cfg : Config) : M W error :=
  match generationStreamName ns (cfg_Generation cfg) with
  | None => ret [ErrPanic]
  | Some stream =>
      let! now := gets w_now in
      let! b := fault in
      if b then ret [ErrDriver]
      else
        on_db (λ s, set_published (cat_published s ++
          [{| ee_Stream := stream; ee_ItemID := ci_ID item;
              ee_Namespace := ns; ee_Generation := cfg_Generation cfg; ee_ObjectID := ci_ObjectID item;
              ee_StrategyID := cfg_CatalogStrategyID cfg; ee_StrategyVersion := cfg_CatalogStrategyVersion cfg;
              ee_EnqueuedAt := now |}]) s) ;;!
        ret []
  end.

Definition isDataException (e : error) : bool := errors_is e ErrDataException.

Section service.
Context (ContentHash : string → string).

Definition ingestActive (svc : CatalogService) (ctx : Ctx) (ns : string) (req : IngestRequest)
    : M W (option Item * error) :=
  let! ' (cfg, err) := cs_nsConfig svc ns in
  if negb (nil_err err) then ret (None, err)
  else
    match cfg with
    | None => ret (None, [ErrCatalogNamespaceNotFound])
    | Some cfg =>
        if cfg_Paused cfg then ret (None, [ErrCatalogNamespacePaused])
        else if negb (bool_decide (cfg_DenseSource cfg = DenseSourceCatalog))
        then ret (None, [ErrNamespaceNotEnabled])
        else
          let maxContentBytes :=
            if (cfg_CatalogMaxContentBytes cfg <=? 0)%Z then cs_defaultMaxContentBytes svc
            else cfg_CatalogMaxContentBytes cfg in
          if (0 <? maxContentBytes)%Z
             && (maxContentBytes <? Z.of_nat (String.length (rq_Content req)))%Z
          then ret (None, [ErrContentTooLarge])
          else
            let writeAuthor :=
              match cs_authorWriter svc with
              | Some lc =>
                  if bool_decide (rq_AuthorSubjectID req = "") then None
                  else Some (SetAuthorTx lc ctx ns (rq_ObjectID req) (rq_AuthorSubjectID req))
              | None => None
              end in
            let! res := UpsertWithAttribution ns (rq_ObjectID req) (rq_Content req)
                          (ContentHash (rq_Content req)) (rq_Metadata req) writeAuthor in
            match res with
            | inr e => if isDataException e then ret (None, [ErrUnstorable]) else ret (None, e)
            | inl (item, needsPublish) =>
                if needsPublish : bool then
                  let! e := publish ns item cfg in
                  if negb (nil_err e) then ret (Some item, e) else ret (Some item, [])
                else ret (Some item, [])
            end
    end.

Definition sanitize_request (req : IngestRequest) : IngestRequest :=
  {| rq_ObjectID := rq_ObjectID req; rq_Content := sanitizeStorable (rq_Content req);
     rq_AuthorSubjectID := rq_AuthorSubjectID req; rq_Metadata := sanitizeStorableMetadata (rq_Metadata req) |}.

Definition Ingest (svc : CatalogService) (ctx : Ctx) (ns : string) (req : option IngestRequest)
    : M W (option Item * error) :=
  if bool_decide (ns = "") then ret (None, [ErrInvalidRequest])
  else
    match req with
    | None => ret (None, [ErrInvalidRequest])
    | Some req =>
        if bool_decide (rq_ObjectID req = "") then ret (None, [ErrInvalidRequest])
        else if negb (isStorable (rq_ObjectID req)) then ret (None, [ErrInvalidRequest])
        else if negb (isStorable (rq_AuthorSubjectID req)) then ret (None, [ErrInvalidRequest])
        else
          let req := sanitize_request req in
          if bool_decide (trim_space (rq_Content req) = "") then ret (None, [ErrEmptyContent])
          else
            match cs_lifecycle svc with
            | Some lc => WithWriter None lc ctx ns (λ leased _, ingestActive svc leased ns req)
            | None => ingestActive svc ctx ns req
            end
    end.

(** ** Batches *)

Definition CatalogBatchMaxItems : Z := 100.

Definition itemErrorCode (e : error) : string :=
  if errors_is e ErrEmptyContent then "empty_content"
  else if errors_is e ErrContentTooLarge then "content_too_large"
  else if errors_is e ErrInvalidRequest || errors_is e ErrUnstorable then "invalid_request"
  else "internal_error".

Record ItemResult := { ir_ObjectID : string; ir_Accepted : bool; ir_Error : string }.
Record BatchResponse := { br_Namespace : string; br_Accepted : Z; br_Rejected : Z; br_Results : list ItemResult }.

Fixpoint batch_loop (svc : CatalogService) (ctx : Ctx) (ns : string) (items : list IngestRequest)
    (resp : BatchResponse) : M W (option BatchResponse * error) :=
  match items with
  | [] => ret (Some resp, [])
  | item :: rest =>
      let! ' (_, err) := Ingest svc ctx ns (Some item) in
      if nil_err err then
        batch_loop svc ctx ns rest
          {| br_Namespace := br_Namespace resp; br_Accepted := br_Accepted resp + 1;
             br_Rejected := br_Rejected resp;
             br_Results := br_Results resp ++
               [{| ir_ObjectID := rq_ObjectID item; ir_Accepted := true; ir_Error := "" |}] |}
      else if errors_is err ErrCatalogNamespaceNotFound || errors_is err ErrNamespaceNotEnabled
      then ret (None, err)
      else
        batch_loop svc ctx ns rest
          {| br_Namespace := br_Namespace resp; br_Accepted := br_Accepted resp;
             br_Rejected := br_Rejected resp + 1;
             br_Results := br_Results resp ++
               [{| ir_ObjectID := rq_ObjectID item; ir_Accepted := false; ir_Error := itemErrorCode err |}] |}
  end.

Definition IngestBatch (svc : CatalogService) (ctx : Ctx) (ns : string) (items : list IngestRequest)
    : M W (option BatchResponse * error) :=
  if bool_decide (items = []) then ret (None, [ErrInvalidRequest])
  else if (CatalogBatchMaxItems <? Z.of_nat (length items))%Z then ret (None, [ErrInvalidRequest])
  else batch_loop svc ctx ns items
         {| br_Namespace := ns; br_Accepted := 0; br_Rejected := 0; br_Results := [] |}.

(** ** The stream path *)

Record CatalogStreamItem := {
  si_Namespace : string;
  si_NamespaceGeneration : Z;
  si_ObjectID : string;
  si_Content : string;
  si_AuthorSubjectID : string;
  si_Metadata : metadata;
}.

Definition IngestStreamItem (svc : CatalogService) (item : CatalogStreamItem) : M W error :=
  let! ' (_, err) := Ingest svc background (si_Namespace item)
    (Some {| rq_ObjectID := si_ObjectID item; rq_Content := si_Content item;
             rq_AuthorSubjectID := si_AuthorSubjectID item; rq_Metadata := si_Metadata item |}) in
  if nil_err err then ret []
  else if errors_is err ErrInvalidRequest || errors_is err ErrEmptyContent
          || errors_is err ErrContentTooLarge || errors_is err ErrCatalogNamespaceNotFound
          || errors_is err ErrCatalogNamespacePaused || errors_is err ErrNamespaceNotEnabled
          || errors_is err ErrUnstorable
  then ret [ErrCatalogItemRejected]
  else ret err.

Context (unmarshal : string → option CatalogStreamItem).

Definition decodeCatalogMessage (msg : XMessage) : option CatalogStreamItem :=
  match Values msg !! "payload" with
  | None => None
  | Some raw =>
      match unmarshal raw with
      | None => None
      | Some item => if bool_decide (si_Namespace item = "") then None else Some item
      end
  end.

Definition ack (id : string) : M W () :=
  let! b := fault in
  if b then ret tt else on_db (λ s, set_cat_acked (cat_acked s ++ [id]) s).

Definition ingest_and_ack (svc : CatalogService) (msg : XMessage) (item : CatalogStreamItem) : M W () :=
  let! err := IngestStreamItem svc item in
  if negb (nil_err err) then
    if errors_is err ErrCatalogItemRejected then ack (ID msg) else ret tt
  else ack (ID msg).

Definition handleMessage (svc : CatalogService) (lifecycle : bool) (msg : XMessage) : M W () :=
  match decodeCatalogMessage msg with
  | None => ack (ID msg)
  | Some item =>
      if lifecycle then
        let generation :=
          if (0 <? si_NamespaceGeneration item)%Z then Some (si_NamespaceGeneration item) else None in
        let! ' (disposition, lifecycleErr) := EvaluateEnvelope (si_Namespace item) generation in
        if negb (nil_err lifecycleErr) then ret tt
        else if bool_decide (disposition = Some EnvelopeStale) then ack (ID msg)
        else ingest_and_ack svc msg item
      else ingest_and_ack svc msg item
  end.
End service.

(** ** Sanitising *)

Abbreviation storable := (λ s, isStorable s = true).

Lemma sanitizeStorable_storable s : isStorable (sanitizeStorable s) = true.
Proof.
  unfold isStorable, sanitizeStorable. rewrite to_valid_utf8_valid.
  by rewrite to_valid_no_nul by apply remove_nul_no_nul.
Qed.

Lemma sanitizeStorable_id s : isStorable s = true → sanitizeStorable s = s.
Proof.
  unfold isStorable, sanitizeStorable. intros [Hn Hv]%andb_true_iff. apply negb_true_iff in Hn.
  by rewrite remove_nul_id, to_valid_utf8_id.
Qed.

Lemma jstrings_object m : jstrings (JObject m) = mbind (λ p, p.1 :: jstrings p.2) m.
Proof. induction m as [|[k v] m IH]; [done|]. rewrite bind_cons. simpl in *. by rewrite IH. Qed.

Lemma sanitize_object m :
  sanitizeStorableValue (JObject m) =
  JObject (foldl (λ out p, assoc_set p.1 p.2 out) []
             ((λ p, (sanitizeStorable p.1, sanitizeStorableValue p.2)) <$> m)).
Proof.
  simpl. do 2 f_equal. induction m as [|[k v] m IH]; [done|]. simpl. by rewrite IH.
Qed.

Lemma Forall_mbind {A B} (P : B → Prop) (f : A → list B) (l : list A) :
  Forall (λ a, Forall P (f a)) l → Forall P (mbind f l).
Proof. induction 1; [done|]. rewrite bind_cons. by apply Forall_app. Qed.

(** Writing entries one by one, later keys over earlier ones, keeps a property
    of entries. *)
Lemma assoc_set_Forall {V} (P : string * V → Prop) k v m :
  P (k, v) → Forall P m → Forall P (assoc_set k v m).
Proof.
  intros Hp Hm. induction Hm as [|[k' v'] m Hx Hm IH]; simpl; [by constructor|].
  case_decide; by constructor.
Qed.

Lemma assoc_fold_Forall {V} (P : string * V → Prop) l acc :
  Forall P l → Forall P acc → Forall P (foldl (λ out p, assoc_set p.1 p.2 out) acc l).
Proof.
  intros Hl. revert acc. induction Hl as [|[k v] l Hx Hl IH]; intros acc Ha; [done|]. simpl.
  apply IH. by apply assoc_set_Forall.
Qed.

Lemma sanitize_value_storable : ∀ v, Forall storable (jstrings (sanitizeStorableValue v)).
Proof.
  fix IH 1. intros [ | | | s | l | m]; try by constructor.
  - constructor; [apply sanitizeStorable_storable|done].
  - simpl. apply Forall_mbind. induction l as [|v l IHl]; constructor; [apply IH|exact IHl].
  - rewrite sanitize_object, jstrings_object. apply Forall_mbind, assoc_fold_Forall; [|done].
    induction m as [|[k v] m IHm]; constructor; [|exact IHm].
    constructor; [apply sanitizeStorable_storable|apply IH].
Qed.

Lemma sanitize_metadata_storable m : Forall storable (meta_strings (sanitizeStorableMetadata m)).
Proof.
  destruct m as [m|]; [|done]. unfold sanitizeStorableMetadata. pose proof (sanitize_value_storable (JObject m)) as H.
  by rewrite sanitize_object in *.
Qed.

(** Sanitising produces what PostgreSQL stores and nothing else: the result
    has no NUL and is valid UTF-8, text that was already storable is unchanged,
    and in metadata every string at every depth, keys included, is storable. *)
Theorem sanitized_payload_is_storable :
  (∀ s, isStorable (sanitizeStorable s) = true) ∧
  (∀ s, isStorable s = true → sanitizeStorable s = s) ∧
  (∀ m s, s ∈ meta_strings (sanitizeStorableMetadata m) → isStorable s = true).
Proof.
  split; [apply sanitizeStorable_storable|]. split; [apply sanitizeStorable_id|].
  intros m s. pose proof (sanitize_metadata_storable m) as H. rewrite Forall_forall in H. apply H.
Qed.

(** ** Persisting *)

(** States that differ at most in the id sequence, which is never rolled back. *)
Record db_same (s s' : CatalogDB) : Prop := {
  db_items : cat_items s' = cat_items s;
  db_objects : cat_objects s' = cat_objects s;
  db_published : cat_published s' = cat_published s;
  db_acked : cat_acked s' = cat_acked s;
}.

#[export] Instance db_same_preorder : PreOrder db_same.
Proof. split; [by intros s|]. intros s1 s2 s3 [] []. split; congruence. Qed.

(** Nothing but the fault script, the locks and the id sequence moved. *)
Record rolled_back (w w' : W) : Prop := {
  rb_ledger : w_ledger w' = w_ledger w;
  rb_now : w_now w' = w_now w;
  rb_ext : db_same (w_ext w) (w_ext w');
}.

#[export] Instance rolled_back_preorder : PreOrder rolled_back.
Proof.
  split; [by intros w|]. intros w1 w2 w3 [] []. split; [congruence|congruence|by etransitivity].
Qed.

Lemma core_rolled_back w w' : core_same w w' → rolled_back w w'.
Proof. intros [Hl Hn Hx]. split; [done|done|]. by rewrite Hx. Qed.

(** The tables after a write, with the attribution when there is one. *)
Definition attributed (now : Z) (ns obj : string) (author : option string) (t : object_table) : object_table :=
  match author with Some a => authored now ns obj a t | None => t end.

Record persisted (ns obj content hash : string) (meta : metadata) (author : option string)
    (r : Item * bool) (w w' : W) : Prop := {
  ps_ledger : w_ledger w' = w_ledger w;
  ps_now : w_now w' = w_now w;
  ps_row : ∃ id, r = upsert_row (w_now w) ns obj content hash meta id (cat_items (w_ext w) !! (ns, obj));
  ps_items : cat_items (w_ext w') = <[(ns, obj) := r.1]> (cat_items (w_ext w));
  ps_objects : cat_objects (w_ext w') = attributed (w_now w) ns obj author (cat_objects (w_ext w));
  ps_published : cat_published (w_ext w') = cat_published (w_ext w);
  ps_acked : cat_acked (w_ext w') = cat_acked (w_ext w);
}.

Definition text_fits (ns obj content : string) (meta : metadata) : bool :=
  forallb pg_text (ns :: obj :: content :: meta_strings meta).

Lemma catalog_Upsert_spec ns obj content hash meta w :
  (∃ x w', repo_Upsert ns obj content hash meta w = (inr [x], w') ∧ core_same w w' ∧
     (x = ErrDriver ∨ x = ErrDataException ∧ text_fits ns obj content meta = false)) ∨
  (∃ r w', repo_Upsert ns obj content hash meta w = (inl r, w') ∧
     persisted ns obj content hash meta None r w w').
Proof.
  unfold repo_Upsert, text_fits, bind. pose proof (fault_core w) as Hf. destruct (fault w) as [[] w1]; go.
  { left. exists ErrDriver, w1. auto. }
  destruct (forallb pg_text _) eqn:Ht; go.
  2: { left. exists ErrDataException, w1. auto. }
  right. destruct Hf as [Hl Hn Hx]. cbn [snd] in *. unfold gets, on_db, modify. go. rewrite Hx, Hn.
  do 2 eexists. split; [done|]. split; cbn; try done; rewrite ?Hx, ?Hn; try done. by eexists.
Qed.

(** ROLLBACK undoes what a transaction body wrote. *)
Lemma rollback_undoes s w w' :
  w_ledger w' = w_ledger w → w_now w' = w_now w → cat_published (w_ext w') = cat_published (w_ext w) →
  cat_acked (w_ext w') = cat_acked (w_ext w) → s = w_ext w → rolled_back w (rollback s w').2.
Proof. intros Hl Hn Hp Ha ->. split; [done|done|]. by split. Qed.

Definition write_of (lc : option Service) (ctx : Ctx) (ns obj : string) (author : option string)
    : option (M W error) := SetAuthorTx lc ctx ns obj <$> author.

(** The content and its attribution are stored together or not at all. *)
Lemma UpsertWithAttribution_spec lc ctx ns obj content hash meta author w :
  (is_Some lc → is_Some (existing_lease ctx ns)) →
  (∃ x w', UpsertWithAttribution ns obj content hash meta (write_of lc ctx ns obj author) w = (inr [x], w') ∧
     rolled_back w w' ∧ (x = ErrDriver ∨ x = ErrDataException ∧
       text_fits ns obj content meta && forallb pg_text (ns :: obj :: (trim_space <$> option_list author)) = false)) ∨
  (∃ r w', UpsertWithAttribution ns obj content hash meta (write_of lc ctx ns obj author) w = (inl r, w') ∧
     persisted ns obj content hash meta author r w w').
Proof.
  intros Hl. destruct author as [a|]; simpl.
  2: { destruct (catalog_Upsert_spec ns obj content hash meta w) as [(x & w' & -> & Hs & Hx)|?]; [left|by right].
       exists x, w'. split; [done|]. split; [by apply core_rolled_back|].
       destruct Hx as [->|[-> ->]]; auto. }
  unfold BeginFunc, bind. pose proof (fault_core w) as Hf. destruct (fault w) as [[] w1]; go.
  { left. exists ErrDriver, w1. split; [done|]. split; [by apply core_rolled_back|auto]. }
  destruct Hf as [Hl1 Hn1 Hx1]. cbn [snd] in *. unfold gets. go.
  destruct (catalog_Upsert_spec ns obj content hash meta w1) as [(x & w2 & -> & [Hl2 Hn2 Hx2] & Hx)|(r & w2 & -> & Hp)]; go.
  { left. exists x. eexists. split; [done|]. split.
    - apply rollback_undoes; congruence.
    - destruct Hx as [->|[-> ->]]; auto. }
  destruct Hp as [Hl2 Hn2 Hr Hi Ho Hpub Hack].
  destruct (SetAuthorWithRepo_spec lc ctx ns obj a w2 Hl) as [(x & w3 & HS & [Hl3 Hn3 Hx3] & Hx)|(w3 & HS & Hl3 & Hn3 & Hx3)];
    change (SetAuthorTx lc ctx ns obj a w2) with (SetAuthorWithRepo lc ctx ns obj a w2); rewrite HS; go.
  { left. exists x. eexists. split; [done|]. split; [apply rollback_undoes; congruence|].
    destruct Hx as [->|[-> Hno]]; [auto|right; split; [done|]]. apply andb_false_iff. by right. }
  pose proof (fault_core w3) as Hf. destruct (fault w3) as [[] w4]; go; destruct Hf as [Hl4 Hn4 Hx4]; cbn [snd] in *.
  { left. exists ErrDriver. eexists. split; [done|]. split; [|auto].
    assert (cat_published (w_ext w3) = cat_published (w_ext w2) ∧ cat_acked (w_ext w3) = cat_acked (w_ext w2))
      as [? ?] by (by rewrite Hx3). apply rollback_undoes; congruence. }
  right. exists r, w4. split; [done|]. rewrite Hx1, Hn1 in *. split; try congruence.
  - by rewrite Hx4, Hx3.
  - rewrite Hx4, Hx3. cbn. by rewrite Hn2, Ho.
  - by rewrite Hx4, Hx3.
  - by rewrite Hx4, Hx3.
Qed.

(** ** What an ingest leaves behind *)

(** The configuration service only reads, and fails with the driver's error. *)
Definition catalog_config_reads (svc : CatalogService) : Prop :=
  ∀ ns w, core_same w (cs_nsConfig svc ns w).2 ∧
    ((cs_nsConfig svc ns w).1.2 = [] ∨ (cs_nsConfig svc ns w).1.2 = [ErrDriver]).

Definition content_cap (svc : CatalogService) (cfg : Config) : Z :=
  if (cfg_CatalogMaxContentBytes cfg <=? 0)%Z then cs_defaultMaxContentBytes svc
  else cfg_CatalogMaxContentBytes cfg.

Definition author_of (svc : CatalogService) (req : IngestRequest) : option string :=
  match cs_authorWriter svc with
  | Some _ => if bool_decide (rq_AuthorSubjectID req = "") then None else Some (rq_AuthorSubjectID req)
  | None => None
  end.

Definition embed_entry (stream ns : string) (item : Item) (cfg : Config) (now : Z) : EmbedEntry :=
  {| ee_Stream := stream; ee_ItemID := ci_ID item; ee_Namespace := ns;
     ee_Generation := cfg_Generation cfg; ee_ObjectID := ci_ObjectID item;
     ee_StrategyID := cfg_CatalogStrategyID cfg; ee_StrategyVersion := cfg_CatalogStrategyVersion cfg;
     ee_EnqueuedAt := now |}.

Section ingest_facts.
Context (ContentHash : string → string) (svc : CatalogService).

(** The row, its attribution and its work item. Only the publish may have
    failed, and only for changed content. *)
Record ingested (ns : string) (req : IngestRequest) (cfg : Config) (r : Item * bool) (err : error)
    (w w' : W) : Prop := {
  ig_enabled : cfg_DenseSource cfg = DenseSourceCatalog ∧ cfg_Paused cfg = false;
  ig_fits : (0 < content_cap svc cfg)%Z → (Z.of_nat (String.length (rq_Content req)) <= content_cap svc cfg)%Z;
  ig_ledger : w_ledger w' = w_ledger w;
  ig_now : w_now w' = w_now w;
  ig_row : ∃ id, r = upsert_row (w_now w) ns (rq_ObjectID req) (rq_Content req)
                      (ContentHash (rq_Content req)) (rq_Metadata req) id
                      (cat_items (w_ext w) !! (ns, rq_ObjectID req));
  ig_items : cat_items (w_ext w') = <[(ns, rq_ObjectID req) := r.1]> (cat_items (w_ext w));
  ig_objects : cat_objects (w_ext w') =
                 attributed (w_now w) ns (rq_ObjectID req) (author_of svc req) (cat_objects (w_ext w));
  ig_acked : cat_acked (w_ext w') = cat_acked (w_ext w);
  ig_published :
    (cat_published (w_ext w') = cat_published (w_ext w) ∧
       (r.2 = false ∧ err = [] ∨ r.2 = true ∧ err = [ErrDriver])) ∨
    (r.2 = true ∧ err = [] ∧ ∃ stream, generationStreamName ns (cfg_Generation cfg) = Some stream ∧
       cat_published (w_ext w') = cat_published (w_ext w) ++ [embed_entry stream ns r.1 cfg (w_now w)]);
}.

(** The errors of an item of which nothing was stored. *)
Definition not_stored (fits : bool) (err : error) : Prop :=
  ∃ x, err = [x] ∧
    (x ∈ [ErrDriver; ErrCatalogNamespaceNotFound; ErrCatalogNamespacePaused; ErrNamespaceNotEnabled;
          ErrContentTooLarge; ErrInvalidRequest; ErrEmptyContent; ErrSystemResetting;
          NsLedger.ErrNamespaceNotFound; ErrNamespaceNotActive] ∨ x = ErrUnstorable ∧ fits = false).

Definition request_fits (ns : string) (req : IngestRequest) : bool :=
  text_fits ns (rq_ObjectID req) (rq_Content req) (rq_Metadata req)
  && forallb pg_text (ns :: rq_ObjectID req :: (trim_space <$> option_list (author_of svc req))).

Lemma generationStreamName_total ns g : ns ≠ "" → is_Some (generationStreamName ns g).
Proof.
  intros Hns. unfold generationStreamName, Incarnation_MustPhysicalName, MustPhysicalName.
  rewrite PhysicalName_cases. simpl. rewrite decide_False by done.
  unfold Generation. simpl. destruct (Z.ltb_spec g 1); rewrite decide_False by lia; by eexists.
Qed.

Lemma publish_spec ns item cfg w :
  ns ≠ "" → ∃ stream e w', generationStreamName ns (cfg_Generation cfg) = Some stream ∧
    publish ns item cfg w = (e, w') ∧ w_ledger w' = w_ledger w ∧ w_now w' = w_now w ∧
    (e = [ErrDriver] ∧ w_ext w' = w_ext w ∨
     e = [] ∧ w_ext w' = set_published (cat_published (w_ext w) ++ [embed_entry stream ns item cfg (w_now w)]) (w_ext w)).
Proof.
  intros Hns. destruct (generationStreamName_total ns (cfg_Generation cfg) Hns) as [stream Hs].
  unfold publish. rewrite Hs. unfold bind, gets. go. pose proof (fault_core w) as Hf.
  destruct (fault w) as [[] w1]; go; destruct Hf as [Hl Hn Hx]; cbn [snd] in *;
    exists stream; do 2 eexists; (split; [done|]); (split; [done|]); cbn; rewrite ?Hx; auto.
Qed.

Lemma ingestActive_spec ctx ns req w :
  catalog_config_reads svc → ns ≠ "" →
  (∀ lc, cs_authorWriter svc = Some (Some lc) → is_Some (existing_lease ctx ns)) →
  let '((oi, err), w') := ingestActive ContentHash svc ctx ns req w in
  (oi = None ∧ not_stored (request_fits ns req) err ∧ rolled_back w w') ∨
  (∃ w0 cfg r, core_same w w0 ∧ (cs_nsConfig svc ns w0).1 = (Some cfg, []) ∧ oi = Some r.1 ∧
     ingested ns req cfg r err w w').
Proof.
  intros Hc Hns Hlease. unfold ingestActive, bind. pose proof (Hc ns w) as [Hcs Hce].
  destruct (cs_nsConfig svc ns w) as [[cfg err] w1] eqn:Ecfg. cbn [fst snd] in Hcs, Hce |- *.
  assert (∀ x v, rolled_back w v → x ∈ [ErrDriver; ErrCatalogNamespaceNotFound; ErrCatalogNamespacePaused;
      ErrNamespaceNotEnabled; ErrContentTooLarge] →
      @None Item = None ∧ not_stored (request_fits ns req) [x] ∧ rolled_back w v) as Hno.
  { intros x v Hv Hx. split; [done|]. split; [|done]. exists x. split; [done|left]. set_solver. }
  pose proof (core_rolled_back _ _ Hcs) as Hrb.
  destruct Hce as [-> | ->]; go; [|left; apply Hno; [done|set_solver]].
  destruct cfg as [cfg|]; go; [|left; apply Hno; [done|set_solver]].
  destruct (cfg_Paused cfg) eqn:Hp; go; [left; apply Hno; [done|set_solver]|].
  case_bool_decide as Hd; go; [|left; apply Hno; [done|set_solver]].
  fold (content_cap svc cfg). destruct (_ && _) eqn:Hcap; go; [left; apply Hno; [done|set_solver]|].
  set (lc := default None (cs_authorWriter svc)).
  match goal with |- context [UpsertWithAttribution _ _ _ _ _ ?wa] =>
    assert (wa = write_of lc ctx ns (rq_ObjectID req) (author_of svc req)) as -> end.
  { unfold write_of, author_of, lc. destruct (cs_authorWriter svc); [|done]. by case_bool_decide. }
  destruct (UpsertWithAttribution_spec lc ctx ns (rq_ObjectID req) (rq_Content req)
      (ContentHash (rq_Content req)) (rq_Metadata req) (author_of svc req) w1)
    as [(x & w2 & -> & Hr2 & Hx)|(r & w2 & -> & [Hl2 Hn2 Hr Hi Ho Hpub Hack])]; go.
  { intros [l Hl]. apply (Hlease l). unfold lc in Hl. destruct (cs_authorWriter svc) as [[]|]; naive_solver. }
  { destruct Hx as [->|[-> Hfit]].
    - change (isDataException [ErrDriver]) with false. go. left. apply Hno; [by etransitivity|set_solver].
    - change (isDataException [ErrDataException]) with true. go. left. split; [done|].
      split; [|by etransitivity]. exists ErrUnstorable. split; [done|]. by right. }
  destruct Hcs as [Hl1 Hn1 Hx1]. destruct Hr as [id Hr]. rewrite Hx1, Hn1 in *. rewrite Hl1 in Hl2.
  assert ((0 < content_cap svc cfg)%Z → (Z.of_nat (String.length (rq_Content req)) <= content_cap svc cfg)%Z) as Hfit.
  { intros Hpos. apply andb_false_iff in Hcap as [H|H]; btests; lia. }
  destruct r as [item needs]. cbn [fst snd] in *. destruct needs; go.
  - destruct (publish_spec ns item cfg w2 Hns) as (stream & e & w3 & Hst & -> & Hl3 & Hn3 & He).
    destruct He as [[-> He]|[-> He]]; go; right; exists w, cfg, (item, true); rewrite Ecfg; split_and!; try done;
      (split; [done|done|congruence|congruence|by exists id|by rewrite He|by rewrite He|by rewrite He|]);
      rewrite He; [left; auto|right; split_and!; [done|done|]].
    exists stream. split; [done|]. cbn. by rewrite Hpub, Hn2.
  - right. exists w, cfg, (item, false). rewrite Ecfg. split_and!; try done.
    split; [done|done|congruence|congruence|by exists id|done|done|done|left; auto].
Qed.
(** Catalog and object attribution are fenced by the same lifecycle. *)
Definition wired : Prop := ∀ lc, cs_authorWriter svc = Some (Some lc) → is_Some (cs_lifecycle svc).

Lemma not_stored_mono b b' e : (b = false → b' = false) → not_stored b e → not_stored b' e.
Proof. intros Hb (x & -> & [?|[-> ?]]); exists x || exists ErrUnstorable; auto. Qed.

(** A sanitised request only fails to fit because of its namespace. *)
Lemma sanitized_fits ns req :
  isStorable (rq_ObjectID req) = true → isStorable (rq_AuthorSubjectID req) = true →
  request_fits ns (sanitize_request req) = false → pg_text ns = false.
Proof.
  intros Ho Ha. destruct (pg_text ns) eqn:Hns; [|done]. unfold request_fits, text_fits. simpl.
  change (pg_text (rq_ObjectID req)) with (isStorable (rq_ObjectID req)).
  change (pg_text (sanitizeStorable (rq_Content req))) with (isStorable (sanitizeStorable (rq_Content req))).
  rewrite Hns, Ho, sanitizeStorable_storable. simpl.
  replace (forallb pg_text (meta_strings (sanitizeStorableMetadata (rq_Metadata req)))) with true.
  2: { symmetry. apply forallb_forall. intros s Hs%list_elem_of_In.
       pose proof (sanitize_metadata_storable (rq_Metadata req)) as H. rewrite Forall_forall in H. by apply H. }
  unfold author_of. destruct (cs_authorWriter svc); simpl; [|done]. case_bool_decide; simpl; [done|].
  by rewrite trim_space_pg_text.
Qed.

Record accepted (ns : string) (req : IngestRequest) (w : W) : Prop := {
  ac_ids : ns ≠ "" ∧ rq_ObjectID req ≠ "";
  ac_storable : isStorable (rq_ObjectID req) = true ∧ isStorable (rq_AuthorSubjectID req) = true;
  ac_content : trim_space (sanitizeStorable (rq_Content req)) ≠ "";
  ac_active : is_Some (cs_lifecycle svc) →
    ∃ row, l_rows (w_ledger w) !! ns = Some row ∧ r_state row = StateActive;
}.

Lemma ingested_core ns req cfg r err w w1 w2 w3 :
  core_same w w1 → core_same w2 w3 → ingested ns req cfg r err w1 w2 → ingested ns req cfg r err w w3.
Proof.
  intros [Hl Hn Hx] [Hl' Hn' Hx'] [? ? ? ? ? ? ? ? ?]. rewrite Hx, Hn in *.
  split; try done; try congruence; rewrite Hx'; done.
Qed.

Lemma refusal_not_stored b e : refusal e → not_stored b e.
Proof. intros (x & -> & Hx). exists x. split; [done|left]. set_solver. Qed.

Lemma Ingest_cases ctx ns req w :
  catalog_config_reads svc → wired → existing_lease ctx ns = None →
  let '((oi, err), w') := Ingest ContentHash svc ctx ns (Some req) w in
  (oi = None ∧ not_stored (pg_text ns) err ∧ rolled_back w w') ∨
  (∃ w0 cfg r, core_same w w0 ∧ (cs_nsConfig svc ns w0).1 = (Some cfg, []) ∧ oi = Some r.1 ∧
     accepted ns req w ∧ ingested ns (sanitize_request req) cfg r err w w').
Proof.
  intros Hc Hw Hl. unfold Ingest.
  assert (∀ x, x ∈ [ErrInvalidRequest; ErrEmptyContent] →
    @None Item = None ∧ not_stored (pg_text ns) [x] ∧ rolled_back w w) as Hno.
  { intros x Hx. split_and!; [done| |done]. exists x. split; [done|left]. set_solver. }
  case_bool_decide as Hns; go; [left; apply Hno; set_solver|].
  case_bool_decide as Hob; go; [left; apply Hno; set_solver|].
  destruct (isStorable (rq_ObjectID req)) eqn:Hso; go; [|left; apply Hno; set_solver].
  destruct (isStorable (rq_AuthorSubjectID req)) eqn:Hsa; go; [|left; apply Hno; set_solver].
  case_bool_decide as Hco; go; [left; apply Hno; set_solver|].
  pose proof (sanitized_fits ns req Hso Hsa) as Hfit.
  destruct (cs_lifecycle svc) as [lc|] eqn:Hlc.
  - match goal with |- context [WithWriter ?a ?b ?c ?d ?f w] =>
      pose proof (WithWriter_cases a b c d f w Hl) as HW; destruct (WithWriter a b c d f w) as [[oi err] w'] end.
    cbn [fst snd] in HW. destruct HW as [(e & He & [= -> ->] & Hcs)|(row & w1 & w2 & Hr & Hs & _ & H1 & Hfn & H2)].
    { left. split; [done|]. split; [by apply refusal_not_stored|by apply core_rolled_back]. }
    match type of Hfn with ingestActive _ _ ?c _ ?q w1 = _ => pose proof (ingestActive_spec c ns q w1 Hc Hns) as HA end.
    rewrite Hfn in HA. destruct HA as [(-> & He & Hrb)|(w0 & cfg & r & H0 & Hcfg & -> & Hig)].
    + intros ? _. unfold existing_lease. simpl. rewrite bool_decide_eq_true_2 by done. by eexists.
    + left. split; [done|]. split; [by eapply not_stored_mono|].
      etransitivity; [by apply core_rolled_back|]. etransitivity; [done|by apply core_rolled_back].
    + right. exists w0, cfg, r. split_and!; [by etransitivity|done|done| |by eapply ingested_core].
      split; try done. intros _. by exists row.
  - pose proof (ingestActive_spec ctx ns (sanitize_request req) w Hc Hns) as HA.
    destruct (ingestActive ContentHash svc ctx ns (sanitize_request req) w) as [[oi err] w'].
    destruct HA as [(-> & He & Hrb)|(w0 & cfg & r & H0 & Hcfg & -> & Hig)].
    + intros lc' Hlc'. apply Hw in Hlc' as [? ?]. congruence.
    + left. split; [done|]. split; [by eapply not_stored_mono|done].
    + right. exists w0, cfg, r. split_and!; try done. split; try done. rewrite Hlc. by intros [].
Qed.

(** C8: Catalog ingest ends in one of three ways, under every failure pattern.
    Either nothing is stored (the two tables, the embed stream and the
    acknowledgements are unchanged) and one of the documented errors is returned;
    for a storable namespace that error is never the one for unstorable values.
    Or the item was valid, the namespace active and in catalog mode, and the
    sanitised content within the cap; then the row holds the sanitised content
    with its hash and its author is recorded with it. In that case either no
    error is returned, and a work item for the row is on the embed stream of the
    namespace's generation exactly when the content is new; or the content is
    new and publishing the work item failed, which is the error returned. *)
Theorem Ingest_all_or_nothing ctx ns req w :
  catalog_config_reads svc → wired → existing_lease ctx ns = None →
  let '((oi, err), w') := Ingest ContentHash svc ctx ns (Some req) w in
  (oi = None ∧ not_stored (pg_text ns) err ∧ rolled_back w w') ∨
  (∃ w0 cfg r, core_same w w0 ∧ (cs_nsConfig svc ns w0).1 = (Some cfg, []) ∧ oi = Some r.1 ∧
     accepted ns req w ∧ ingested ns (sanitize_request req) cfg r err w w').
Proof. apply Ingest_cases. Qed.

(** Re-ingesting unchanged content redoes no embedding work: for a row that
    already holds the hash of the sanitised content, an ingest, whatever fails,
    publishes nothing, and the row keeps its id, state, attempts, error,
    strategy and embedding time; its content stays the one that was hashed. *)
Theorem reingest_keeps_embedding ctx ns req row w :
  catalog_config_reads svc → wired → existing_lease ctx ns = None →
  cat_items (w_ext w) !! (ns, rq_ObjectID req) = Some row →
  ci_ContentHash row = ContentHash (sanitizeStorable (rq_Content req)) →
  let w' := (Ingest ContentHash svc ctx ns (Some req) w).2 in
  cat_published (w_ext w') = cat_published (w_ext w) ∧
  ∃ row', cat_items (w_ext w') !! (ns, rq_ObjectID req) = Some row' ∧
    ci_ID row' = ci_ID row ∧ ci_State row' = ci_State row ∧ ci_AttemptCount row' = ci_AttemptCount row ∧
    ci_LastError row' = ci_LastError row ∧ ci_EmbeddedAt row' = ci_EmbeddedAt row ∧
    ci_StrategyID row' = ci_StrategyID row ∧ ci_StrategyVersion row' = ci_StrategyVersion row ∧
    ci_ContentHash row' = ci_ContentHash row ∧ ci_CreatedAt row' = ci_CreatedAt row.
Proof.
  intros Hc Hw Hl Hrow Hh. pose proof (Ingest_cases ctx ns req w Hc Hw Hl) as H.
  destruct (Ingest ContentHash svc ctx ns (Some req) w) as [[oi err] w']. cbn [snd].
  destruct H as [(_ & _ & [_ _ [Hi _ Hp _]])|(w0 & cfg & r & _ & _ & _ & _ & [_ _ _ _ [id Hr] Hi _ _ Hp])].
  { split; [done|]. exists row. rewrite Hi. split_and!; done. }
  simpl in Hr, Hi. rewrite Hrow in Hr. simpl in Hr. rewrite (bool_decide_eq_true_2 _ Hh) in Hr. subst r.
  split; [by destruct Hp as [[? _]|[? _]]|].
  eexists. rewrite Hi. split; [apply lookup_insert_eq|]. by split_and!.
Qed.
End ingest_facts.

(** ** The stream worker *)

Lemma cat_ack_ext id w :
  w_ext (ack id w).2 = w_ext w ∨ w_ext (ack id w).2 = set_cat_acked (cat_acked (w_ext w) ++ [id]) (w_ext w).
Proof.
  unfold ack, bind. pose proof (fault_core w) as [_ _ He]. revert He.
  destruct (fault w) as [[] w1]; go; intros He; [by left|right].
  unfold on_db, modify. cbn [snd w_ext set_ext]. by rewrite He.
Qed.

Section worker_facts.
Context (ContentHash : string → string) (unmarshal : string → option CatalogStreamItem) (svc : CatalogService).

Definition item_request (it : CatalogStreamItem) : IngestRequest :=
  {| rq_ObjectID := si_ObjectID it; rq_Content := si_Content it;
     rq_AuthorSubjectID := si_AuthorSubjectID it; rq_Metadata := si_Metadata it |}.

(** The item is durable: its row holds the sanitised content and its hash. *)
Definition durable (it : CatalogStreamItem) (w w' : W) : Prop :=
  accepted svc (si_Namespace it) (item_request it) w ∧
  ∃ row, cat_items (w_ext w') !! (si_Namespace it, si_ObjectID it) = Some row ∧
    ci_Content row = sanitizeStorable (si_Content it) ∧
    ci_ContentHash row = ContentHash (sanitizeStorable (si_Content it)).

Definition catalog_ack_reason (lifecycle : bool) (msg : XMessage) (w w' : W) : Prop :=
  match decodeCatalogMessage unmarshal msg with
  | None => True
  | Some it =>
      (lifecycle = true ∧ ∃ row, l_rows (w_ledger w) !! si_Namespace it = Some row ∧
         (r_state row ≠ StateActive ∨ si_NamespaceGeneration it ≠ r_generation row)) ∨
      durable it w w' ∨
      (cat_items (w_ext w') = cat_items (w_ext w) ∧
       ∃ w0, core_same w w0 ∧ (IngestStreamItem ContentHash svc it w0).1 = [ErrCatalogItemRejected])
  end.

Lemma IngestStreamItem_spec it w :
  catalog_config_reads svc → wired svc →
  let '(err, w') := IngestStreamItem ContentHash svc it w in
  cat_acked (w_ext w') = cat_acked (w_ext w) ∧
  (err = [] → durable it w w') ∧
  (errors_is err ErrCatalogItemRejected = true →
     err = [ErrCatalogItemRejected] ∧ cat_items (w_ext w') = cat_items (w_ext w)).
Proof.
  intros Hc Hw. unfold IngestStreamItem, bind.
  pose proof (Ingest_cases ContentHash svc background (si_Namespace it) (item_request it) w Hc Hw eq_refl) as H.
  fold (item_request it).
  destruct (Ingest ContentHash svc background (si_Namespace it) (Some (item_request it)) w) as [[oi err] w'].
  destruct H as [(-> & (x & -> & Hx) & [_ _ [Hi _ _ Ha]])|(w0 & cfg & r & _ & _ & -> & Hac & Hig)]; go.
  - destruct (_ || _) eqn:E; go; (split; [done|]); (split; [done|]); [done|].
    unfold errors_is. rewrite bool_decide_eq_true, list_elem_of_singleton. intros <-. exfalso.
    destruct Hx as [Hx|[? _]]; [|done]. clear -Hx.
    by repeat (apply elem_of_cons in Hx as [Hx|Hx]; [discriminate Hx|]); apply elem_of_nil in Hx.
  - destruct Hig as [_ _ _ _ [id Hr] Hi _ Ha Hp].
    assert (durable it w w') as Hd.
    { split; [done|]. exists r.1. simpl in Hi, Hr. rewrite Hi. split; [apply lookup_insert_eq|].
      rewrite Hr. unfold upsert_row. by destruct (cat_items (w_ext w) !! _). }
    assert (err = [] ∨ err = [ErrDriver]) as [-> | ->] by (destruct Hp as [[_ [[_ ->]|[_ ->]]]|(_ & -> & _)]; auto); by go.
Qed.

Lemma ingest_and_ack_spec msg it w :
  catalog_config_reads svc → wired svc →
  let w' := (ingest_and_ack ContentHash svc msg it w).2 in
  cat_acked (w_ext w') = cat_acked (w_ext w) ∨
  (cat_acked (w_ext w') = cat_acked (w_ext w) ++ [ID msg] ∧
   (durable it w w' ∨
    cat_items (w_ext w') = cat_items (w_ext w) ∧
    (IngestStreamItem ContentHash svc it w).1 = [ErrCatalogItemRejected])).
Proof.
  intros Hc Hw. unfold ingest_and_ack, bind. pose proof (IngestStreamItem_spec it w Hc Hw) as H.
  destruct (IngestStreamItem ContentHash svc it w) as [err w1]. destruct H as (Ha & Hd & Hr). go.
  destruct err as [|x err]; go.
  - destruct (cat_ack_ext (ID msg) w1) as [E|E]; rewrite ?E; [by left|right]. simpl. rewrite Ha. split; [done|left].
    destruct (Hd eq_refl) as [Hac Hrow]. split; [done|]. by rewrite E.
  - destruct (errors_is (x :: err) ErrCatalogItemRejected) eqn:E; go; [|by left].
    destruct (Hr eq_refl) as [He Hi]. destruct (cat_ack_ext (ID msg) w1) as [E'|E']; rewrite E'; [by left|right].
    simpl. rewrite Ha. auto.
Qed.

(** At-least-once delivery of catalog content. Handling one entry of the
    catalog stream acknowledges at most that entry, and only when its content is
    settled: it does not decode, or belongs to a generation that is not the
    active one, or its row is durable with the sanitised content and its hash,
    or ingest refused it for a permanent reason and stored nothing. A row whose
    embed publish failed leaves the entry pending, whatever else happened. *)
Theorem catalog_entry_acked_only_when_settled lifecycle msg w :
  catalog_config_reads svc → wired svc → ledger_wf (w_ledger w) →
  let w' := (handleMessage ContentHash unmarshal svc lifecycle msg w).2 in
  cat_acked (w_ext w') = cat_acked (w_ext w) ∨
  (cat_acked (w_ext w') = cat_acked (w_ext w) ++ [ID msg] ∧ catalog_ack_reason lifecycle msg w w').
Proof.
  intros Hc Hw Hwf. unfold handleMessage, catalog_ack_reason. cbv zeta.
  destruct (decodeCatalogMessage unmarshal msg) as [it|].
  2: { destruct (cat_ack_ext (ID msg) w) as [-> | ->]; [by left|by right]. }
  assert (∀ w1, core_same w w1 →
    let w' := (ingest_and_ack ContentHash svc msg it w1).2 in
    cat_acked (w_ext w') = cat_acked (w_ext w) ∨
    (cat_acked (w_ext w') = cat_acked (w_ext w) ++ [ID msg] ∧
     (durable it w w' ∨ cat_items (w_ext w') = cat_items (w_ext w) ∧
        ∃ w0, core_same w w0 ∧ (IngestStreamItem ContentHash svc it w0).1 = [ErrCatalogItemRejected]))) as Hgo.
  { intros w1 Hs. pose proof (ingest_and_ack_spec msg it w1 Hc Hw) as H. cbv zeta in *. destruct Hs as [Hl Hn He].
    rewrite He in H. destruct H as [?|[? [[[? ? ? Hact] ?]|[? ?]]]]; [by left|right|right]; (split; [done|]).
    - left. split; [|done]. split; try done. by rewrite <- Hl.
    - right. split; [done|]. exists w1. by split. }
  destruct lifecycle; [|destruct (Hgo w) as [?|[? ?]]; [done|by left|right; split; [done|by right]]].
  unfold bind. destruct (repo_GetNamespace_spec (si_Namespace it) w) as (w1 & Hs%sbf_core & Hg).
  unfold EvaluateEnvelope, bind. destruct Hg as [-> | ->]; go; [left; by rewrite (cs_ext _ _ Hs)|].
  destruct (l_rows (w_ledger w) !! si_Namespace it) as [row|] eqn:Hrow; go; [|left; by rewrite (cs_ext _ _ Hs)].
  cbn [nl_state nl_generation nl_legacy scanNamespace].
  case_bool_decide as Hd; [|destruct (Hgo w1 Hs) as [?|[? ?]]; [by left|right; split; [done|by right]]].
  pose proof (cat_ack_ext (ID msg) w1) as Ha. rewrite (cs_ext _ _ Hs) in Ha.
  destruct Ha as [-> | ->]; [by left|right]. split; [done|]. left. split; [done|].
  exists row. split; [done|]. revert Hd. case_bool_decide as Hst; cbn [negb]; [|by left]. right. intros Heq.
  revert Hd. rewrite Heq. destruct (Z.ltb_spec 0 (r_generation row)) as [Hpos|Hneg]; simpl.
  * destruct (Z.eqb_spec (r_generation row) 0); [lia|]. by rewrite Z.eqb_refl.
  * destruct (proj1 Hwf _ _ Hrow) as [Hg _]. lia.
Qed.
End worker_facts.

(** ** Batches *)

Section batch_facts.
Context (ContentHash : string → string) (svc : CatalogService).

Definition result_codes : list string := ["empty_content"; "content_too_large"; "invalid_request"; "internal_error"].

(** One result per item, in order, coded when rejected. *)
Definition result_for (req : IngestRequest) (r : ItemResult) : Prop :=
  ir_ObjectID r = rq_ObjectID req ∧
  (ir_Accepted r = true ∧ ir_Error r = "" ∨ ir_Accepted r = false ∧ ir_Error r ∈ result_codes).

Definition count_accepted (b : bool) (l : list ItemResult) : Z :=
  Z.of_nat (length (filter (λ r, ir_Accepted r = b) l)).

Definition accounted (items : list IngestRequest) (resp : BatchResponse) : Prop :=
  Forall2 result_for items (br_Results resp) ∧
  br_Accepted resp = count_accepted true (br_Results resp) ∧
  br_Rejected resp = count_accepted false (br_Results resp).

Lemma count_accepted_snoc b l r :
  count_accepted b (l ++ [r]) = (count_accepted b l + if bool_decide (ir_Accepted r = b) then 1 else 0)%Z.
Proof.
  unfold count_accepted. rewrite filter_app, length_app.
  case_bool_decide; [rewrite filter_cons_True by done|rewrite filter_cons_False by done]; simpl; lia.
Qed.

Lemma itemErrorCode_coded e : itemErrorCode e ∈ result_codes.
Proof. unfold itemErrorCode, result_codes. repeat case_match; set_solver. Qed.

Lemma batch_loop_spec ctx ns items before resp w :
  accounted before resp →
  let '((o, err), w') := batch_loop ContentHash svc ctx ns items resp w in
  match o with
  | Some resp' => err = [] ∧ accounted (before ++ items) resp' ∧ br_Namespace resp' = br_Namespace resp
  | None => errors_is err ErrCatalogNamespaceNotFound || errors_is err ErrNamespaceNotEnabled = true
  end.
Proof.
  revert before resp w. induction items as [|item items IH]; intros before resp w Ha; simpl.
  { rewrite app_nil_r. by split_and!. }
  unfold bind. destruct (Ingest ContentHash svc ctx ns (Some item) w) as [[oi err] w1]. go.
  rewrite (cons_middle item before items), app_assoc. destruct Ha as (Hf & Hacc & Hrej).
  destruct (nil_err err) eqn:He.
  - refine (IH (before ++ [item]) _ w1 _). split_and!; simpl; rewrite ?count_accepted_snoc.
    + apply Forall2_app; [done|]. constructor; [|done]. split; [done|by left].
    + rewrite Hacc. done.
    + rewrite Hrej. simpl. lia.
  - destruct (errors_is err ErrCatalogNamespaceNotFound || errors_is err ErrNamespaceNotEnabled) eqn:Hfatal.
    { by go. }
    refine (IH (before ++ [item]) _ w1 _). split_and!; simpl; rewrite ?count_accepted_snoc.
    + apply Forall2_app; [done|]. constructor; [|done]. split; [done|]. right. split; [done|]. apply itemErrorCode_coded.
    + rewrite Hacc. simpl. lia.
    + rewrite Hrej. done.
Qed.

(** A batch answers for every item: when a batch is answered, it had between
    one and a hundred items, the results are one per item in request order, an
    accepted item has no error code and a rejected one has one of the four
    documented codes, and the counters add up to the results. Otherwise the batch
    fails as a whole, because of its size or of the namespace. *)
Theorem batch_accounts_for_every_item ctx ns items w :
  let '((o, err), w') := IngestBatch ContentHash svc ctx ns items w in
  match o with
  | Some resp => err = [] ∧ (1 <= length items <= 100)%nat ∧ accounted items resp ∧
      (br_Accepted resp + br_Rejected resp = Z.of_nat (length items))%Z ∧ br_Namespace resp = ns
  | None => (err = [ErrInvalidRequest] ∧ w' = w ∧ (items = [] ∨ (100 < length items)%nat)) ∨
      errors_is err ErrCatalogNamespaceNotFound || errors_is err ErrNamespaceNotEnabled = true
  end.
Proof.
  unfold IngestBatch. case_bool_decide as Hnil; go; [left; auto|].
  destruct (Z.ltb_spec CatalogBatchMaxItems (Z.of_nat (length items))) as [Hbig|Hok]; unfold CatalogBatchMaxItems in *.
  { go. left. split_and!; [done|done|right; lia]. }
  pose proof (batch_loop_spec ctx ns items []
    {| br_Namespace := ns; br_Accepted := 0; br_Rejected := 0; br_Results := [] |} w) as H.
  destruct (batch_loop ContentHash svc ctx ns items _ w) as [[[resp|] err] w']; [|right; by apply H].
  destruct H as (-> & Ha & Hns); [by split_and!|]. split_and!; try done.
  - destruct items; [done|simpl; lia].
  - lia.
  - simpl in Ha. destruct Ha as (Hf & -> & ->). apply Forall2_length in Hf. rewrite Hf. unfold count_accepted.
    clear. induction (br_Results resp) as [|r l IH]; [done|]. simpl.
    destruct (ir_Accepted r) eqn:E.
    + rewrite (filter_cons_True (λ r, ir_Accepted r = true)) by done.
      rewrite (filter_cons_False (λ r, ir_Accepted r = false)) by congruence. simpl. lia.
    + rewrite (filter_cons_False (λ r, ir_Accepted r = true)) by congruence.
      rewrite (filter_cons_True (λ r, ir_Accepted r = false)) by done. simpl. lia.
Qed.
End batch_facts.

(** ** Witnesses *)

Definition sample_config : Config :=
  {| cfg_Namespace := "demo"; cfg_Generation := 3; cfg_ActionWeights := ∅;
     cfg_Lambda := f64_zero; cfg_Gamma := f64_zero; cfg_MaxResults := 20; cfg_SeenItemsDays := 30;
     cfg_ExcludeAuthored := false; cfg_Paused := false; cfg_APIKeyHash := ""; cfg_Alpha := f64_one;
     cfg_DenseSource := DenseSourceCatalog; cfg_EmbeddingDim := 4; cfg_DenseDistance := "cosine";
     cfg_TrendingWindow := 24; cfg_TrendingTTL := 600; cfg_LambdaTrending := f64_zero;
     cfg_CatalogStrategyID := "internal-hashing-ngrams"; cfg_CatalogStrategyVersion := "v1"; cfg_CatalogStrategyParams := None;
     cfg_CatalogMaxAttempts := 5; cfg_CatalogMaxContentBytes := 32; cfg_CreatedAt := 0; cfg_UpdatedAt := 0 |}.

Definition sample_catalog : CatalogService :=
  {| cs_nsConfig ns := ret (if decide (ns = "demo") then Some sample_config else None, []);
     cs_authorWriter := Some (Some pair_service); cs_lifecycle := Some pair_service;
     cs_defaultMaxContentBytes := 0 |}.

Lemma sample_catalog_reads : catalog_config_reads sample_catalog.
Proof. intros ns w. split; [done|by left]. Qed.

Lemma sample_catalog_wired : wired sample_catalog.
Proof. intros lc _. by eexists. Qed.

Definition sample_request (content : string) : IngestRequest :=
  {| rq_ObjectID := "o1"; rq_Content := content; rq_AuthorSubjectID := " alice ";
     rq_Metadata := Some [(String Ascii.zero "k", JArray [JString (String Ascii.zero "v")])] |}.

Definition catalog_world (fs : list bool) : W :=
  {| w_ledger := w_ledger (demo_world []); w_now := 9; w_adv := []; w_lockobjs := ∅; w_next := 0; w_faults := fs;
     w_ext := {| cat_items := ∅; cat_next_id := 1; cat_objects := ∅; cat_published := []; cat_acked := [] |} |}.

(** A toy hash: the content itself. *)
Abbreviation toy_hash := (λ s : string, s).

Lemma Ingest_all_or_nothing_witness :
  let r := Ingest toy_hash sample_catalog background "demo" (Some (sample_request (String Ascii.zero "hello")))
             (catalog_world []) in
  r.1.2 = [] ∧ (ci_Content <$> r.1.1) = Some "hello" ∧
  (ci_Metadata <$> r.1.1) = Some (Some [("k", JArray [JString "v"])]) ∧
  (ob_AuthorSubjectID <$> cat_objects (w_ext r.2) !! ("demo", "o1")) = Some "alice" ∧
  length (cat_published (w_ext r.2)) = 1%nat ∧ accepted sample_catalog "demo" (sample_request (String Ascii.zero "hello")) (catalog_world []).
Proof.
  split_and!; try (vm_compute; reflexivity).
  pose proof (Ingest_all_or_nothing toy_hash sample_catalog background "demo"
    (sample_request (String Ascii.zero "hello")) (catalog_world []) sample_catalog_reads sample_catalog_wired eq_refl) as H.
  destruct (Ingest _ _ _ _ _ _) as [[oi err] w'] eqn:E.
  destruct H as [(Hn & _ & _)|(w0 & cfg & r & _ & _ & _ & Ha & _)]; [|exact Ha].
  exfalso. rewrite Hn in E. vm_compute in E. discriminate E.
Defined.

Lemma reingest_keeps_embedding_witness :
  let w := (Ingest toy_hash sample_catalog background "demo" (Some (sample_request "hello")) (catalog_world [])).2 in
  let w' := (Ingest toy_hash sample_catalog background "demo" (Some (sample_request "hello")) w).2 in
  length (cat_published (w_ext w)) = 1%nat ∧ cat_published (w_ext w') = cat_published (w_ext w).
Proof.
  intros w w'. split; [vm_compute; reflexivity|].
  assert (∃ row, cat_items (w_ext w) !! ("demo", "o1") = Some row ∧ ci_ContentHash row = "hello") as (row & Hr & Hh).
  { eexists. split; vm_compute; reflexivity. }
  exact (proj1 (reingest_keeps_embedding toy_hash sample_catalog background "demo" (sample_request "hello") row w
    sample_catalog_reads sample_catalog_wired eq_refl Hr Hh)).
Defined.

Definition sample_item (content : string) : CatalogStreamItem :=
  {| si_Namespace := "demo"; si_NamespaceGeneration := 3; si_ObjectID := "o1"; si_Content := content;
     si_AuthorSubjectID := ""; si_Metadata := None |}.

Lemma catalog_entry_acked_only_when_settled_witness :
  let msg := {| ID := "1-0"; Values := {["payload" := "hello"]} |} in
  let dec raw := Some (sample_item raw) in
  let w' := (handleMessage toy_hash dec sample_catalog true msg (catalog_world [])).2 in
  cat_acked (w_ext w') = ["1-0"] ∧
  (cat_acked (w_ext w') = [] ∨
   cat_acked (w_ext w') = [] ++ ["1-0"] ∧ catalog_ack_reason toy_hash dec sample_catalog true msg (catalog_world []) w').
Proof.
  intros msg dec w'. split; [vm_compute; reflexivity|].
  apply (catalog_entry_acked_only_when_settled toy_hash dec sample_catalog true msg (catalog_world [])).
  - apply sample_catalog_reads.
  - apply sample_catalog_wired.
  - split; [|done]. apply map_Forall_singleton. split; simpl; [unfold max_int64; lia|done].
Defined.
