(* ===== verification/CatalogList.v ===== *)
(** * The reconciliation read of the catalog

    [ListObjects] of [internal/catalog]: the versioned cursor of [types.go], the
    keyset query of [repository.go] and the page of [service.go]. JSON and the
    formatting of instants are parameters; base64 is the one of the library. *)

From stdpp Require Import base tactics gmap strings list sorting.
From Stdlib Require Import Ascii ZArith Lia.
From S2P Require Import Prelude GoLib Utf8 Keyset NsNames NsLedger NsService Float64 NamespaceConfig Objects Catalog.

Record objectCursor := {
  oc_Version : Z;
  oc_Namespace : string;
  oc_ChangedSince : string;
  oc_UpdatedAt : Z;
  oc_ID : Z;
}.

Record ObjectRow := { or_ID : Z; or_ObjectID : string; or_UpdatedAt : Z }.

#[export] Instance ObjectRow_eq_dec : EqDecision ObjectRow.
Proof. solve_decision. Defined.

Record ObjectSummary := { os_ObjectID : string; os_UpdatedAt : string }.

Record ObjectsResponse := {
  lr_Namespace : string;
  lr_Items : list ObjectSummary;
  lr_Total : Z;
  lr_Limit : Z;
  lr_Offset : Z;
  lr_NextCursor : string;
}.

Definition ErrEncodeCursor : string := "encode catalog cursor".

(** ** The query *)

(** [(a.updated_at, a.id) < (b.updated_at, b.id)] *)
Definition row_ltb (a b : ObjectRow) : bool :=
  (or_UpdatedAt a <? or_UpdatedAt b)%Z
  || ((or_UpdatedAt a =? or_UpdatedAt b)%Z && (or_ID a <? or_ID b)%Z).

Definition row_le (a b : ObjectRow) : Prop := row_ltb b a = false.

#[export] Instance row_le_dec a b : Decision (row_le a b).
Proof. unfold row_le. apply _. Defined.

Definition object_rows (t : gmap (string * string) Item) (ns : string) : list ObjectRow :=
  (λ p, {| or_ID := ci_ID p.2; or_ObjectID := ci_ObjectID p.2; or_UpdatedAt := ci_UpdatedAt p.2 |}) <$>
    filter (λ p, ci_Namespace p.2 = ns) (map_to_list t).

(** The rows both statements range over, in the order of the second. *)
Definition changed_rows (t : gmap (string * string) Item) (ns : string) (since : option Z) : list ObjectRow :=
  merge_sort row_le
    (filter (λ r, match since with Some s => (s <? or_UpdatedAt r)%Z | None => true end = true) (object_rows t ns)).

Definition cursor_row (c : objectCursor) : ObjectRow :=
  {| or_ID := oc_ID c; or_ObjectID := ""; or_UpdatedAt := oc_UpdatedAt c |}.

(** A COUNT and a page; PostgreSQL refuses a negative LIMIT or OFFSET. *)
Definition repo_ListObjects (ns : string) (since : option Z) (limit offset : Z) (cursor : option objectCursor)
    : M W (list ObjectRow * Z * error) :=
  let! b := fault in
  if b then ret ([], 0%Z, [ErrDriver])
  else
    let! s := gets w_ext in
    let rows := changed_rows (cat_items s) ns since in
    let total := Z.of_nat (length rows) in
    let! b := fault in
    if b || (limit <? 0)%Z || (offset <? 0)%Z then ret ([], 0%Z, [ErrDriver])
    else
      let after := match cursor with
                   | Some c => filter (λ r, row_ltb (cursor_row c) r = true) rows
                   | None => rows
                   end in
      ret (take (Z.to_nat limit) (drop (Z.to_nat offset) after), total, []).

Section list_objects.
Context (marshal : objectCursor → option string) (unmarshal : string → option objectCursor).
Context (format_nano format_rfc : Z → string).

(** ** The cursor *)

Definition encodeObjectCursor (c : objectCursor) : string * error :=
  match marshal c with
  | None => ("", [ErrEncodeCursor])
  | Some raw => (b64_encode raw, [])
  end.

(** Go's zero time is instant 0. *)
Definition decodeObjectCursor (raw ns since : string) : option objectCursor * error :=
  if bool_decide (raw = "") then (None, [])
  else
    match b64_decode raw with
    | None => (None, [ErrInvalidRequest])
    | Some decoded =>
        match unmarshal decoded with
        | None => (None, [ErrInvalidRequest])
        | Some cursor =>
            if negb (oc_Version cursor =? 1)%Z || (oc_ID cursor <? 1)%Z || (oc_UpdatedAt cursor =? 0)%Z
            then (None, [ErrInvalidRequest])
            else if negb (bool_decide (oc_Namespace cursor = ns)) || negb (bool_decide (oc_ChangedSince cursor = since))
            then (None, [ErrInvalidRequest])
            else (Some cursor, [])
        end
    end.

(** ** The page *)

Definition summary (r : ObjectRow) : ObjectSummary :=
  {| os_ObjectID := or_ObjectID r; os_UpdatedAt := format_rfc (or_UpdatedAt r) |}.

Definition since_key (since : option Z) : string :=
  match since with Some s => format_nano s | None => "" end.

Definition ListObjectsPage (svc : CatalogService) (ns : string) (since : option Z) (limit offset : Z)
    (rawCursor : string) : M W (option ObjectsResponse * error) :=
  if bool_decide (ns = "") then ret (None, [ErrInvalidRequest])
  else
    let! ' (cfg, err) := cs_nsConfig svc ns in
    if negb (nil_err err) then ret (None, err)
    else
      match cfg with
      | None => ret (None, [ErrCatalogNamespaceNotFound])
      | Some _ =>
          let sinceKey := since_key since in
          let (cursor, err) := decodeObjectCursor rawCursor ns sinceKey in
          if negb (nil_err err) then ret (None, err)
          else if bool_decide (is_Some cursor) && negb (offset =? 0)%Z then ret (None, [ErrInvalidRequest])
          else
            let! ' (rows, total, err) := repo_ListObjects ns since limit offset cursor in
            if negb (nil_err err) then ret (None, err)
            else
              let resp next := {| lr_Namespace := ns; lr_Items := summary <$> rows; lr_Total := total;
                                  lr_Limit := limit; lr_Offset := offset; lr_NextCursor := next |} in
              match last rows with
              | Some r =>
                  if (Z.of_nat (length rows) =? limit)%Z then
                    let (next, err) := encodeObjectCursor
                      {| oc_Version := 1; oc_Namespace := ns; oc_ChangedSince := sinceKey;
                         oc_UpdatedAt := or_UpdatedAt r; oc_ID := or_ID r |} in
                    if negb (nil_err err) then ret (None, err) else ret (Some (resp next), [])
                  else ret (Some (resp ""), [])
              | None => ret (Some (resp ""), [])
              end
      end.

Definition ListObjects (svc : CatalogService) (ns : string) (since : option Z) (limit offset : Z)
    : M W (option ObjectsResponse * error) :=
  ListObjectsPage svc ns since limit offset "".

(** A repair pass: follow the cursor until there is none. *)
Fixpoint follow (svc : CatalogService) (fuel : nat) (ns : string) (since : option Z) (limit : Z) (raw : string)
    : M W (option (list ObjectSummary) * error) :=
  match fuel with
  | O => ret (None, [])
  | S fuel =>
      let! ' (resp, err) := ListObjectsPage svc ns since limit 0 raw in
      match resp with
      | None => ret (None, err)
      | Some r =>
          if bool_decide (lr_NextCursor r = "") then ret (Some (lr_Items r), [])
          else
            let! ' (rest, err) := follow svc fuel ns since limit (lr_NextCursor r) in
            ret (app (lr_Items r) <$> rest, err)
      end
  end.

(** ** Completeness *)

(** Years 1 to 9999, what [time.Time] marshals. *)
Definition marshals_time (t : Z) : Prop := (0 < t < 315537897600 * 10 ^ 9)%Z.

(** encoding/json reproduces a cursor whose strings are valid UTF-8. *)
Definition json_roundtrip : Prop :=
  ∀ c, valid_utf8 (oc_Namespace c) = true → valid_utf8 (oc_ChangedSince c) = true →
    marshals_time (oc_UpdatedAt c) → ∃ raw, marshal c = Some raw ∧ raw ≠ "" ∧ unmarshal raw = Some c.

(** What the schema guarantees of catalog_items. *)
Record table_wf (t : gmap (string * string) Item) : Prop := {
  tw_ids : ∀ k k' i i', t !! k = Some i → t !! k' = Some i' → ci_ID i = ci_ID i' → k = k';
  tw_pos : ∀ k i, t !! k = Some i → (1 <= ci_ID i)%Z ∧ marshals_time (ci_UpdatedAt i);
}.

Lemma row_ltb_irrefl a : row_ltb a a = false.
Proof. unfold row_ltb. rewrite Z.ltb_irrefl, Z.eqb_refl, Z.ltb_irrefl. done. Qed.

Lemma row_ltb_spec a b :
  row_ltb a b = true ↔
  (or_UpdatedAt a < or_UpdatedAt b)%Z ∨ (or_UpdatedAt a = or_UpdatedAt b ∧ or_ID a < or_ID b)%Z.
Proof.
  unfold row_ltb. rewrite orb_true_iff, andb_true_iff, Z.eqb_eq, !Z.ltb_lt. done.
Qed.

Lemma row_ltb_trans a b c : row_ltb a b = true → row_ltb b c = true → row_ltb a c = true.
Proof. rewrite !row_ltb_spec. lia. Qed.

Lemma row_ltb_false a b :
  row_ltb a b = false ↔
  ¬ ((or_UpdatedAt a < or_UpdatedAt b)%Z ∨ (or_UpdatedAt a = or_UpdatedAt b ∧ or_ID a < or_ID b)%Z).
Proof. rewrite <- row_ltb_spec. by destruct (row_ltb a b). Qed.

#[local] Instance row_le_total : Total row_le.
Proof. intros a b. unfold row_le. rewrite !row_ltb_false. lia. Qed.

#[local] Instance row_le_trans : Transitive row_le.
Proof. intros a b c. unfold row_le. rewrite !row_ltb_false. lia. Qed.

Lemma object_rows_in t ns r :
  r ∈ object_rows t ns ↔ ∃ k i, t !! k = Some i ∧ ci_Namespace i = ns ∧
    r = {| or_ID := ci_ID i; or_ObjectID := ci_ObjectID i; or_UpdatedAt := ci_UpdatedAt i |}.
Proof.
  unfold object_rows. rewrite list_elem_of_fmap. split.
  - intros ([k i] & -> & [Hns Hi]%list_elem_of_filter). exists k, i. by rewrite elem_of_map_to_list in Hi.
  - intros (k & i & Hi & Hns & ->). exists (k, i). split; [done|]. apply list_elem_of_filter.
    by rewrite elem_of_map_to_list.
Qed.

Lemma object_rows_ids t ns r r' :
  table_wf t → r ∈ object_rows t ns → r' ∈ object_rows t ns → or_ID r = or_ID r' → r = r'.
Proof.
  intros [Hid _] (k & i & Hi & _ & ->)%object_rows_in (k' & i' & Hi' & _ & ->)%object_rows_in Heq.
  simpl in Heq. pose proof (Hid _ _ _ _ Hi Hi' Heq) as ->. congruence.
Qed.

Lemma object_rows_NoDup t ns : table_wf t → NoDup (object_rows t ns).
Proof.
  intros [Hid _]. unfold object_rows. apply NoDup_fmap_2_strong; [|apply NoDup_filter, NoDup_map_to_list].
  intros [k i] [k' i'] [_ Hi]%list_elem_of_filter [_ Hi']%list_elem_of_filter [= Heq _ _].
  apply elem_of_map_to_list in Hi, Hi'. pose proof (Hid _ _ _ _ Hi Hi' Heq) as ->. congruence.
Qed.

Lemma changed_rows_in t ns since r : r ∈ changed_rows t ns since → r ∈ object_rows t ns.
Proof. unfold changed_rows. rewrite merge_sort_Permutation, list_elem_of_filter. tauto. Qed.

Lemma changed_rows_increasing t ns since :
  table_wf t → StronglySorted (λ a b, row_ltb a b = true) (changed_rows t ns since).
Proof.
  intros Hwf. apply sorted_nodup_keyset.
  - intros a b Ha%changed_rows_in Hb%changed_rows_in. rewrite !row_ltb_false. intros.
    apply (object_rows_ids t ns); [done..|lia].
  - apply (StronglySorted_merge_sort row_le).
  - unfold changed_rows. rewrite merge_sort_Permutation. by apply NoDup_filter, object_rows_NoDup.
Qed.

Lemma cursor_decode_encode ns key r raw :
  json_roundtrip → valid_utf8 ns = true → valid_utf8 key = true → marshals_time (or_UpdatedAt r) → (1 <= or_ID r)%Z →
  let c := {| oc_Version := 1; oc_Namespace := ns; oc_ChangedSince := key;
              oc_UpdatedAt := or_UpdatedAt r; oc_ID := or_ID r |} in
  marshal c = Some raw → b64_encode raw ≠ "" ∧ decodeObjectCursor (b64_encode raw) ns key = (Some c, []).
Proof.
  intros Hj Hns Hkey Ht Hid c Hm. destruct (Hj c Hns Hkey Ht) as (raw' & Hm' & Hne & Hu).
  assert (raw' = raw) as -> by congruence.
  assert (b64_encode raw ≠ "") as Hb.
  { intros Hb. pose proof (b64_roundtrip raw) as Hr. rewrite Hb in Hr. vm_compute in Hr. congruence. }
  split; [done|]. unfold decodeObjectCursor. rewrite bool_decide_eq_false_2 by done.
  rewrite b64_roundtrip, Hu. simpl. rewrite !bool_decide_eq_true_2 by done.
  unfold marshals_time in Ht.
  destruct (Z.ltb_spec (or_ID r) 1); [lia|]. destruct (Z.eqb_spec (or_UpdatedAt r) 0); [lia|]. done.
Qed.
(** One page of a keyset walk, when nothing fails: [todo] is what the cursor has
    left. *)
Lemma page_spec svc cfg ns since limit raw cursor todo w :
  json_roundtrip → ns ≠ "" → valid_utf8 ns = true → valid_utf8 (since_key since) = true → (0 < limit)%Z →
  table_wf (cat_items (w_ext w)) → w_faults w = [] → cs_nsConfig svc ns w = ((Some cfg, []), w) →
  decodeObjectCursor raw ns (since_key since) = (cursor, []) →
  match cursor with
  | Some c => filter (λ r, row_ltb (cursor_row c) r = true) (changed_rows (cat_items (w_ext w)) ns since)
  | None => changed_rows (cat_items (w_ext w)) ns since end = todo →
  (∀ r, r ∈ todo → r ∈ object_rows (cat_items (w_ext w)) ns) →
  let page := take (Z.to_nat limit) todo in
  ∃ resp, ListObjectsPage svc ns since limit 0 raw w = ((Some resp, []), w) ∧
    lr_Items resp = summary <$> page ∧
    ((lr_NextCursor resp = "" ∧ page = todo) ∨
     (lr_NextCursor resp ≠ "" ∧ ∃ r c, last page = Some r ∧ row_ltb (cursor_row c) = row_ltb r ∧
        decodeObjectCursor (lr_NextCursor resp) ns (since_key since) = (Some c, []))).
Proof.
  intros Hj Hns Hu Hk Hlim Hwf Hf Hcfg Hdec Htodo Hsub page. unfold ListObjectsPage.
  rewrite bool_decide_eq_false_2 by done. unfold bind. rewrite Hcfg. go. rewrite Hdec. go.
  rewrite andb_false_r. unfold repo_ListObjects, bind. rewrite !fault_nil by done. go.
  unfold gets. go. rewrite !fault_nil by done. go.
  destruct (Z.ltb_spec limit 0); [lia|]. cbn [orb Z.ltb Z.compare]. go. rewrite Htodo, drop_0. fold page.
  destruct (last page) as [r|] eqn:Hlast.
  2: { eexists. split; [done|]. simpl. split; [done|left]. split; [done|]. apply last_None in Hlast.
       unfold page in *. destruct todo; [by rewrite take_nil|]. destruct (Z.to_nat limit) eqn:E; [lia|done]. }
  destruct (Z.eqb_spec (Z.of_nat (length page)) limit) as [Hlen|Hlen].
  2: { eexists. split; [done|]. simpl. split; [done|left]. split; [done|].
       unfold page in *. rewrite length_take in Hlen. apply take_ge. lia. }
  assert (r ∈ object_rows (cat_items (w_ext w)) ns) as Hr.
  { apply Hsub. rewrite <- (take_drop (Z.to_nat limit) todo). fold page.
    apply last_Some in Hlast as [l' ->]. set_solver. }
  apply object_rows_in in Hr as (k & i & Hi & _ & Hr). destruct (tw_pos _ Hwf _ _ Hi) as [Hpos Htime].
  assert (or_ID r = ci_ID i ∧ or_UpdatedAt r = ci_UpdatedAt i) as [E1 E2] by (by subst r).
  rewrite <- E1 in Hpos. rewrite <- E2 in Htime.
  set (c := {| oc_Version := 1; oc_Namespace := ns; oc_ChangedSince := since_key since;
               oc_UpdatedAt := or_UpdatedAt r; oc_ID := or_ID r |}).
  destruct (Hj c Hu Hk Htime) as (out & Hm & _ & _). unfold encodeObjectCursor. rewrite Hm. go.
  destruct (cursor_decode_encode ns (since_key since) r out Hj Hu Hk Htime Hpos Hm) as [Hb Hd].
  eexists. split; [done|]. simpl. split; [done|right]. split; [done|]. exists r, c. by split_and!.
Qed.

Lemma follow_spec svc cfg ns since limit w :
  json_roundtrip → ns ≠ "" → valid_utf8 ns = true → valid_utf8 (since_key since) = true → (0 < limit)%Z →
  table_wf (cat_items (w_ext w)) → w_faults w = [] → cs_nsConfig svc ns w = ((Some cfg, []), w) →
  ∀ fuel raw cursor todo, (length todo < fuel)%nat →
  decodeObjectCursor raw ns (since_key since) = (cursor, []) →
  match cursor with
  | Some c => filter (λ r, row_ltb (cursor_row c) r = true) (changed_rows (cat_items (w_ext w)) ns since)
  | None => changed_rows (cat_items (w_ext w)) ns since end = todo →
  follow svc fuel ns since limit raw w = ((Some (summary <$> todo), []), w).
Proof.
  intros Hj Hns Hu Hk Hlim Hwf Hf Hcfg. set (all := changed_rows (cat_items (w_ext w)) ns since).
  induction fuel as [|fuel IH]; intros raw cursor todo Hfuel Hdec Htodo; [lia|].
  assert (∃ pre, all = pre ++ todo) as [pre Hpre].
  { destruct cursor as [c|]; [|by exists []].
    apply (resumes_suffix row_ltb row_ltb_trans all (cursor_row c)); [by apply changed_rows_increasing|exact Htodo]. }
  destruct (page_spec svc cfg ns since limit raw cursor todo w) as (resp & HP & Hit & Hnext); try done.
  { intros r Hr. apply (changed_rows_in _ _ since). fold all. rewrite Hpre. set_solver. }
  simpl. unfold bind. rewrite HP. go. rewrite Hit.
  destruct Hnext as [[-> Hall]|(Hne & r & c & Hlast & Hlt & Hd)].
  { rewrite bool_decide_eq_true_2 by done. by rewrite Hall. }
  rewrite bool_decide_eq_false_2 by done.
  assert (filter (λ x, row_ltb r x = true) all = drop (Z.to_nat limit) todo) as Hres.
  { pose proof (changed_rows_increasing (cat_items (w_ext w)) ns since Hwf) as Hs. fold all in Hs.
    apply last_Some in Hlast as [l Hl].
    assert (all = (pre ++ l) ++ r :: drop (Z.to_nat limit) todo) as Heq.
    { rewrite Hpre, <- (take_drop (Z.to_nat limit) todo) at 1. rewrite Hl, <- !app_assoc. done. }
    rewrite Heq in Hs |- *. by apply (filter_after row_ltb row_ltb_irrefl row_ltb_trans). }
  rewrite (IH (lr_NextCursor resp) (Some c) (drop (Z.to_nat limit) todo)); [|..|done|].
  - go. simpl. by rewrite <- fmap_app, take_drop.
  - rewrite length_drop. destruct todo; [by rewrite take_nil in Hlast|]. simpl in *. lia.
  - rewrite Hlt. exact Hres.
Qed.

(** C40: The reconciliation read is complete: over a table that does not change,
    following the cursor from the first page returns every object of the
    namespace that changed after the given instant exactly once, oldest change
    first, for every page size, and it ends within one page more than there are
    objects. (encoding/json is assumed to reproduce a cursor it has written.) *)
Theorem pages_list_every_object svc cfg ns since limit w :
  json_roundtrip → ns ≠ "" → valid_utf8 ns = true → valid_utf8 (since_key since) = true → (0 < limit)%Z →
  table_wf (cat_items (w_ext w)) → w_faults w = [] → cs_nsConfig svc ns w = ((Some cfg, []), w) →
  let all := changed_rows (cat_items (w_ext w)) ns since in
  follow svc (S (length all)) ns since limit "" w = ((Some (summary <$> all), []), w) ∧
  NoDup (or_ID <$> all) ∧
  (∀ r, r ∈ all ↔ ∃ k i, cat_items (w_ext w) !! k = Some i ∧ ci_Namespace i = ns ∧
     (∀ s, since = Some s → (s < ci_UpdatedAt i)%Z) ∧
     r = {| or_ID := ci_ID i; or_ObjectID := ci_ObjectID i; or_UpdatedAt := ci_UpdatedAt i |}).
Proof.
  intros Hj Hns Hu Hk Hlim Hwf Hf Hcfg all. split_and!.
  - apply (follow_spec svc cfg ns since limit w Hj Hns Hu Hk Hlim Hwf Hf Hcfg _ "" None); [unfold all; lia|done|done].
  - apply NoDup_fmap_2_strong.
    + intros a b Ha%changed_rows_in Hb%changed_rows_in. by apply (object_rows_ids (cat_items (w_ext w)) ns).
    + unfold all, changed_rows. rewrite merge_sort_Permutation. by apply NoDup_filter, object_rows_NoDup.
  - intros r. unfold all, changed_rows. rewrite merge_sort_Permutation, list_elem_of_filter, object_rows_in.
    split.
    + intros (Hs & k & i & Hi & Hn & ->). exists k, i. split_and!; try done. intros s ->. by apply Z.ltb_lt.
    + intros (k & i & Hi & Hn & Hs & ->). split; [|by exists k, i].
      destruct since as [s|]; [|done]. simpl. apply Z.ltb_lt. by apply Hs.
Qed.

(** A cursor is bound to its listing: whatever string a client presents, a
    cursor that is accepted is version 1, names a row id and a real instant, and
    was written for this namespace and this changed_since; anything else is an
    invalid request. *)
Theorem foreign_cursor_is_refused raw ns key :
  raw ≠ "" →
  match decodeObjectCursor raw ns key with
  | (Some c, e) => e = [] ∧ oc_Version c = 1%Z ∧ (1 <= oc_ID c)%Z ∧ oc_UpdatedAt c ≠ 0%Z ∧
      oc_Namespace c = ns ∧ oc_ChangedSince c = key
  | (None, e) => e = [ErrInvalidRequest]
  end.
Proof.
  intros Hraw. unfold decodeObjectCursor. rewrite bool_decide_eq_false_2 by done.
  destruct (b64_decode raw) as [d|]; [|done]. destruct (unmarshal d) as [c|]; [|done].
  destruct (negb (oc_Version c =? 1)%Z || _ || _) eqn:E1; [done|].
  destruct (negb (bool_decide _) || _) eqn:E2; [done|]. btests. split_and!; try done; lia.
Qed.
End list_objects.

(** ** Witnesses *)

(** A codec that round-trips every cursor. *)
Fixpoint pos_string (p : positive) : string :=
  match p with
  | xH => "."
  | xO p => String "0"%char (pos_string p)
  | xI p => String "1"%char (pos_string p)
  end.

Fixpoint string_pos (s : string) : option positive :=
  match s with
  | String "."%char EmptyString => Some xH
  | String "0"%char s => xO <$> string_pos s
  | String "1"%char s => xI <$> string_pos s
  | _ => None
  end.

Lemma string_pos_roundtrip p : string_pos (pos_string p) = Some p.
Proof. induction p as [p IH|p IH|]; simpl; [by rewrite IH..|done]. Qed.

Definition cursor_fields (c : objectCursor) : Z * string * string * Z * Z :=
  (oc_Version c, oc_Namespace c, oc_ChangedSince c, oc_UpdatedAt c, oc_ID c).
Definition fields_cursor (f : Z * string * string * Z * Z) : objectCursor :=
  let '(v, n, s, u, i) := f in
  {| oc_Version := v; oc_Namespace := n; oc_ChangedSince := s; oc_UpdatedAt := u; oc_ID := i |}.

Definition demo_marshal (c : objectCursor) : option string := Some (pos_string (encode (cursor_fields c))).
Definition demo_unmarshal (s : string) : option objectCursor :=
  p ← string_pos s; fields_cursor <$> decode p.

Lemma demo_roundtrip : json_roundtrip demo_marshal demo_unmarshal.
Proof.
  intros c _ _ _. eexists. split; [done|]. split; [by destruct (encode (cursor_fields c))|].
  unfold demo_unmarshal. rewrite string_pos_roundtrip. simpl. rewrite decode_encode. by destruct c.
Qed.

Definition demo_item (id : Z) (obj : string) (updated : Z) : Item :=
  {| ci_ID := id; ci_Namespace := "demo"; ci_ObjectID := obj; ci_Content := "text"; ci_ContentHash := "h";
     ci_Metadata := None; ci_State := StatePending; ci_StrategyID := ""; ci_StrategyVersion := "";
     ci_EmbeddedAt := None; ci_AttemptCount := 0; ci_LastError := ""; ci_CreatedAt := 1; ci_UpdatedAt := updated |}.

Definition demo_table : gmap (string * string) Item :=
  <[("demo", "a") := demo_item 2 "a" 30]> (<[("demo", "b") := demo_item 1 "b" 30]> ∅).

Lemma demo_table_wf : table_wf demo_table.
Proof.
  assert (∀ k i, demo_table !! k = Some i →
    k = ("demo", "a") ∧ i = demo_item 2 "a" 30 ∨ k = ("demo", "b") ∧ i = demo_item 1 "b" 30) as H.
  { intros k i. unfold demo_table. rewrite !lookup_insert_Some, lookup_empty. naive_solver. }
  split.
  - intros k k' i i' [[-> ->]|[-> ->]]%H [[-> ->]|[-> ->]]%H; simpl; done || lia.
  - unfold marshals_time. intros k i [[-> ->]|[-> ->]]%H; simpl; lia.
Qed.

Definition list_world : W :=
  {| w_ledger := w_ledger (demo_world []); w_now := 40; w_adv := []; w_lockobjs := ∅; w_next := 0; w_faults := [];
     w_ext := {| cat_items := demo_table; cat_next_id := 3; cat_objects := ∅; cat_published := []; cat_acked := [] |} |}.

Lemma pages_list_every_object_witness :
  let all := changed_rows demo_table "demo" None in
  (or_ObjectID <$> all) = ["b"; "a"] ∧
  follow demo_marshal demo_unmarshal (λ _, "t") (λ _, "t") sample_catalog 3 "demo" None 1 "" list_world =
    ((Some ((λ r, {| os_ObjectID := or_ObjectID r; os_UpdatedAt := "t" |}) <$> all), []), list_world).
Proof.
  split; [vm_compute; reflexivity|].
  pose proof (pages_list_every_object demo_marshal demo_unmarshal (λ _, "t") (λ _, "t") sample_catalog sample_config
    "demo" None 1 list_world demo_roundtrip) as H.
  apply H; [done|reflexivity|reflexivity|lia|apply demo_table_wf|reflexivity|reflexivity].
Defined.

Lemma foreign_cursor_is_refused_witness :
  decodeObjectCursor demo_unmarshal (b64_encode (default "" (demo_marshal
    {| oc_Version := 1; oc_Namespace := "other"; oc_ChangedSince := ""; oc_UpdatedAt := 30; oc_ID := 1 |})))
    "demo" "" = (None, [ErrInvalidRequest]).
Proof.
  set (raw := b64_encode _).
  pose proof (foreign_cursor_is_refused demo_unmarshal raw "demo" "") as H.
  assert (raw ≠ "") as Hr by (vm_compute; discriminate). specialize (H Hr).
  destruct (decodeObjectCursor demo_unmarshal raw "demo" "") as [[c|] e] eqn:E; [|by rewrite H].
  exfalso. vm_compute in E. discriminate E.
Defined.
