(* ===== verification/IdMap.v ===== *)
(** * Numeric identities

    [internal/core/idmap/repository.go] and [service.go]: the mapping from
    string ids to numeric ids. The table [id_mappings] is shared with every
    other process: the world carries a script of the inserts and deletes those
    commit between two statements of this repository. *)

From stdpp Require Import base tactics gmap strings list.
From Stdlib Require Import ZArith Lia.
From S2P Require Import Prelude GoLib NsNames NsLedger NsService.

(** A row is identified by (namespace, entity_type, string_id), the unique
    index of the table. *)
Abbreviation idkey := (string * string * string)%type.

Inductive racer_op :=
| RacerInsert (k : idkey)
| RacerDelete (k : idkey).

Record IdTable := {
  im_rows : gmap idkey Z;
  im_next : Z;                       (* the sequence behind numeric_id *)
  im_racers : list (list racer_op);  (* what others commit before the next statements *)
}.

Abbreviation W := (World IdTable).

(** One row of INSERT ... ON CONFLICT DO NOTHING: the default nextval is
    evaluated for every row, also for one that conflicts. *)
Definition insert_row (k : idkey) (t : IdTable) : option Z * IdTable :=
  match im_rows t !! k with
  | Some _ => (None, {| im_rows := im_rows t; im_next := im_next t + 1; im_racers := im_racers t |})
  | None => (Some (im_next t),
             {| im_rows := <[k := im_next t]> (im_rows t); im_next := im_next t + 1;
                im_racers := im_racers t |})
  end.

Definition do_racer (op : racer_op) (t : IdTable) : IdTable :=
  match op with
  | RacerInsert k => (insert_row k t).2
  | RacerDelete k => {| im_rows := delete k (im_rows t); im_next := im_next t; im_racers := im_racers t |}
  end.

Definition race (t : IdTable) : IdTable :=
  match im_racers t with
  | [] => t
  | ops :: rest =>
      let t' := foldl (λ t op, do_racer op t) t ops in
      {| im_rows := im_rows t'; im_next := im_next t'; im_racers := rest |}
  end.

(** A statement: the others' commits, then a failure or the statement. *)
Definition id_stmt {A} (f : IdTable → A * IdTable) : M W (A + error) :=
  modify (λ w, set_ext (race (w_ext w)) w) ;;!
  let! b := fault in
  if b then ret (inr [ErrDriver])
  else λ w, let r := f (w_ext w) in (inl r.1, set_ext r.2 w).

(** [uint64(numericID)] *)
Definition to_uint64 (z : Z) : Z := z mod 2 ^ 64.

(** SELECT string_id, numeric_id ... WHERE string_id = ANY(ids). *)
Definition select_rows (ns et : string) (ids : list string) (t : IdTable) : list (string * Z) :=
  omap (λ p : idkey * Z, if decide (p.1.1 = (ns, et) ∧ p.1.2 ∈ ids) then Some (p.1.2, p.2) else None)
       (map_to_list (im_rows t)).

(** INSERT ... SELECT unnest(ids) ... RETURNING. *)
Fixpoint insert_rows (ns et : string) (ids : list string) (t : IdTable) : list (string * Z) * IdTable :=
  match ids with
  | [] => ([], t)
  | id :: rest =>
      let '(r, t1) := insert_row (ns, et, id) t in
      let '(rs, t2) := insert_rows ns et rest t1 in
      (match r with Some n => [(id, n)] | None => [] end ++ rs, t2)
  end.

(** The scan loops: each row is stored in the result map. *)
Definition scan_into (rows : list (string * Z)) (out : gmap string Z) : gmap string Z :=
  foldl (λ m p, <[p.1 := to_uint64 p.2]> m) out rows.

Definition Lookup (stringID ns et : string) : M W ((Z * bool) * error) :=
  let! r := id_stmt (λ t, (im_rows t !! (ns, et, stringID), t)) in
  match r with
  | inr e => ret ((0%Z, false), e)
  | inl None => ret ((0%Z, false), [])
  | inl (Some n) => ret ((to_uint64 n, true), [])
  end.

(** Results are [inl map] or [inr error]. *)
Definition LookupBatch (ids : list string) (ns et : string) : M W (gmap string Z + error) :=
  match ids with
  | [] => ret (inl ∅)
  | _ =>
      let! r := id_stmt (λ t, (select_rows ns et ids t, t)) in
      match r with
      | inr e => ret (inr e)
      | inl rows => ret (inl (scan_into rows ∅))
      end
  end.

(** The deduplication loop. *)
Fixpoint distinct_from (seen : gset string) (ids : list string) : list string :=
  match ids with
  | [] => []
  | id :: rest =>
      if decide (id ∈ seen) then distinct_from seen rest
      else id :: distinct_from ({[id]} ∪ seen) rest
  end.

Definition missingFrom (ids : list string) (have : gmap string Z) : list string :=
  filter (λ id, have !! id = None) ids.

Definition GetOrCreateBatch (ctx : Ctx) (stringIDs : list string) (ns et : string)
    : M W (gmap string Z + error) :=
  match stringIDs with
  | [] => ret (inl ∅)
  | _ =>
      let e := RequireNamespaceLease ctx ns in
      if negb (nil_err e) then ret (inr e)
      else
        let distinct := distinct_from ∅ stringIDs in
        let! r := LookupBatch distinct ns et in
        match r with
        | inr e => ret (inr e)
        | inl out =>
            let missing := missingFrom distinct out in
            if decide (missing = []) then ret (inl out)
            else
              let! r := id_stmt (insert_rows ns et missing) in
              match r with
              | inr e => ret (inr e)
              | inl rows =>
                  let out := scan_into rows out in
                  let raced := missingFrom missing out in
                  if decide (raced = []) then ret (inl out)
                  else
                    let! r := LookupBatch raced ns et in
                    match r with
                    | inr e => ret (inr e)
                    | inl won => ret (inl (won ∪ out)) (* maps.Copy(out, won) *)
                    end
              end
        end
  end.

Definition ErrInsertConflicted : string := "insert conflicted but no mapping exists".

Definition GetOrCreate (ctx : Ctx) (stringID ns et : string) : M W (Z * error) :=
  let! r := GetOrCreateBatch ctx [stringID] ns et in
  match r with
  | inr e => ret (0%Z, e)
  | inl ids =>
      match ids !! stringID with
      | None => ret (0%Z, [ErrInsertConflicted])
      | Some id => ret (id, [])
      end
  end.

(** ** The service: the same operations at a fixed entity type *)

Definition LookupSubjectID (s ns : string) : M W ((Z * bool) * error) := Lookup s ns "subject".
Definition LookupObjectID (s ns : string) : M W ((Z * bool) * error) := Lookup s ns "object".
Definition GetOrCreateSubjectID (ctx : Ctx) (s ns : string) : M W (Z * error) :=
  GetOrCreate ctx s ns "subject".
Definition GetOrCreateObjectID (ctx : Ctx) (s ns : string) : M W (Z * error) :=
  GetOrCreate ctx s ns "object".
Definition GetOrCreateSubjectIDs (ctx : Ctx) (l : list string) (ns : string) : M W (gmap string Z + error) :=
  GetOrCreateBatch ctx l ns "subject".
Definition GetOrCreateObjectIDs (ctx : Ctx) (l : list string) (ns : string) : M W (gmap string Z + error) :=
  GetOrCreateBatch ctx l ns "object".
Definition LookupObjectIDs (l : list string) (ns : string) : M W (gmap string Z + error) :=
  LookupBatch l ns "object".

(** ** The table invariant *)

(** Numeric ids are positive, below the sequence and never shared. *)
Record table_wf (t : IdTable) : Prop := {
  tw_range : ∀ k n, im_rows t !! k = Some n → (1 <= n < im_next t)%Z;
  tw_inj : ∀ k1 k2 n, im_rows t !! k1 = Some n → im_rows t !! k2 = Some n → k1 = k2;
  tw_next : (1 <= im_next t)%Z;
}.

(** How the table can change: a row that is there keeps its numeric id or is
    deleted, and a numeric id below the sequence is never given out again. *)
Record table_le (t t' : IdTable) : Prop := {
  tl_next : (im_next t <= im_next t')%Z;
  tl_rows : ∀ k n, im_rows t' !! k = Some n → (n < im_next t)%Z → im_rows t !! k = Some n;
}.

#[export] Instance table_le_preorder : PreOrder table_le.
Proof.
  split; [split; [done|auto]|]. intros t1 t2 t3 [H1 H2] [H3 H4]. split; [lia|].
  intros k n Hk Hn. apply H2; [|done]. apply H4; [done|lia].
Qed.

Lemma insert_row_wf k t : table_wf t → table_wf (insert_row k t).2 ∧ table_le t (insert_row k t).2.
Proof.
  intros [Hr Hi Hn]. unfold insert_row. destruct (im_rows t !! k) eqn:Hk; simpl.
  - split; [split; simpl; [|done|lia]|split; simpl; [lia|auto]]. intros k' n Hk'. specialize (Hr _ _ Hk'). lia.
  - split; [split; simpl; [| |lia]|split; simpl; [lia|]].
    + intros k' n. rewrite lookup_insert_Some. intros [[<- <-]|[_ Hk']]; [lia|]. specialize (Hr _ _ Hk'). lia.
    + intros k1 k2 n. rewrite !lookup_insert_Some.
      intros [[<- <-]|[? H1]] [[<- H2]|[? H2]]; [done|..|by eapply Hi].
      * specialize (Hr _ _ H2). lia.
      * specialize (Hr _ _ H1). lia.
    + intros k' n. rewrite lookup_insert_Some. intros [[<- <-]|[_ Hk']]; [lia|done].
Qed.

Lemma do_racer_wf op t : table_wf t → table_wf (do_racer op t) ∧ table_le t (do_racer op t).
Proof.
  intros Hwf. destruct op as [k|k]; simpl; [by apply insert_row_wf|]. destruct Hwf as [Hr Hi Hn].
  split; [split; simpl; [| |done]|split; simpl; [lia|]].
  - intros k' n. rewrite lookup_delete_Some. intros [_ ?]. eauto.
  - intros k1 k2 n. rewrite !lookup_delete_Some. intros [_ ?] [_ ?]. eauto.
  - intros k' n. rewrite lookup_delete_Some. by intros [_ ?].
Qed.

Lemma race_wf t : table_wf t → table_wf (race t) ∧ table_le t (race t).
Proof.
  intros Hwf. unfold race. destruct (im_racers t) as [|ops rest]; [done|].
  cut (table_wf (foldl (λ t op, do_racer op t) t ops) ∧ table_le t (foldl (λ t op, do_racer op t) t ops)).
  { intros [[] []]. split; by split. }
  clear rest. revert t Hwf. induction ops as [|op ops IH]; intros t Hwf; simpl; [done|].
  destruct (do_racer_wf op t Hwf) as [Hwf1 Hle1]. destruct (IH _ Hwf1) as [? ?].
  split; [done|]. by etrans.
Qed.

(** Two tables in the course of time never give one numeric id to two keys. *)
Lemma table_le_owner t1 t2 k1 k2 n :
  table_wf t1 → table_le t1 t2 → im_rows t1 !! k1 = Some n → im_rows t2 !! k2 = Some n → k1 = k2.
Proof.
  intros Hwf [_ Hle] H1 H2. eapply (tw_inj _ Hwf); [exact H1|]. apply Hle; [done|]. by eapply (tw_range _ Hwf).
Qed.

(** Nobody deletes. *)
Definition no_deletes (t : IdTable) : Prop :=
  ∀ ops op, ops ∈ im_racers t → op ∈ ops → ∃ k, op = RacerInsert k.

Lemma insert_row_grows k t : im_rows t ⊆ im_rows (insert_row k t).2.
Proof.
  unfold insert_row. destruct (im_rows t !! k) eqn:Hk; simpl; [done|]. by apply insert_subseteq.
Qed.

Lemma race_grows t : no_deletes t → im_rows t ⊆ im_rows (race t) ∧ no_deletes (race t).
Proof.
  intros Hnd. unfold race. destruct (im_racers t) as [|ops rest] eqn:Hr; [done|].
  unfold no_deletes in Hnd. rewrite Hr in Hnd. split; [|unfold no_deletes; simpl; set_solver]. simpl.
  assert (∀ op, op ∈ ops → ∃ k, op = RacerInsert k) as Hops by set_solver. clear Hnd Hr.
  revert t. induction ops as [|op ops IH]; intros t; simpl; [done|].
  destruct (Hops op) as [k ->]; [set_solver|]. etrans; [|apply IH; set_solver]. apply insert_row_grows.
Qed.

(** ** Statements *)

Lemma id_stmt_cases {A} (f : IdTable → A * IdTable) w :
  ∃ w', core_same w (set_ext (w_ext w) w') ∧
    ((id_stmt f w = (inr [ErrDriver], w') ∧ w_ext w' = race (w_ext w)) ∨
     (id_stmt f w = (inl (f (race (w_ext w))).1, w') ∧ w_ext w' = (f (race (w_ext w))).2)).
Proof.
  unfold id_stmt, bind, modify. go.
  set (w1 := set_ext (race (w_ext w)) w).
  pose proof (sbf_core _ _ (fault_frame w1)) as [Hl Hn He]. revert Hl Hn He.
  destruct (fault w1) as [[] w2]; go; intros Hl Hn He.
  - exists w2. split; [by split|]. left. by rewrite He.
  - rewrite He. eexists. split; [|right; split; reflexivity]. split; simpl; [by rewrite Hl|by rewrite Hn|done].
Qed.

Lemma scan_into_lookup rows out id v :
  (∀ id n1 n2, (id, n1) ∈ rows → (id, n2) ∈ rows → n1 = n2) →
  scan_into rows out !! id = Some v ↔
    (∃ n, (id, n) ∈ rows ∧ v = to_uint64 n) ∨ (id ∉ rows.*1 ∧ out !! id = Some v).
Proof.
  revert out. unfold scan_into. induction rows as [|[i n] rows IH]; intros out Hf; simpl.
  { split; [intros ?; right; split; [set_solver|done]|]. intros [(n & Hn & _)|[_ ?]]; [set_solver|done]. }
  rewrite IH by (intros; eapply Hf; by right). split.
  - intros [(m & Hm & ->)|[Hni Hlk]]; [left; exists m; split; [by right|done]|].
    apply lookup_insert_Some in Hlk as [[<- <-]|[? ?]]; [left; exists n; split; [by left|done]|].
    right. split; [|done]. intros [->|?]%elem_of_cons; done.
  - intros [(m & [[= <- <-]|Hm]%elem_of_cons & ->)|[Hni Hlk]].
    + destruct (decide (id ∈ rows.*1)) as [Hin|Hin].
      * left. apply list_elem_of_fmap in Hin as ([i' m'] & -> & Hin). exists m'. split; [done|].
        f_equal. apply (Hf i'); [by left|by right].
      * right. split; [done|]. by rewrite lookup_insert_eq.
    + left. by exists m.
    + right. split; [set_solver|]. rewrite lookup_insert_ne; [done|]. intros ->. apply Hni. by left.
Qed.

Lemma elem_of_select_rows ns et ids t id n :
  (id, n) ∈ select_rows ns et ids t ↔ id ∈ ids ∧ im_rows t !! (ns, et, id) = Some n.
Proof.
  unfold select_rows. rewrite list_elem_of_omap. split.
  - intros ([[[ns' et'] s'] m] & Hin%elem_of_map_to_list & Hd). simpl in Hd. case_decide; [|done].
    destruct_and!. by simplify_eq.
  - intros [Hid Hn]. exists (ns, et, id, n). split; [by apply elem_of_map_to_list|].
    simpl. by rewrite decide_True.
Qed.

Definition in_range (t : IdTable) : Prop := (im_next t <= max_int64)%Z.

Lemma to_uint64_row t k n : table_wf t → in_range t → im_rows t !! k = Some n → to_uint64 n = n.
Proof.
  intros Hwf Hr Hk. pose proof (tw_range _ Hwf _ _ Hk). unfold to_uint64, in_range, max_int64 in *.
  apply Z.mod_small. lia.
Qed.

Lemma select_scan ns et ids t id :
  scan_into (select_rows ns et ids t) ∅ !! id =
    if decide (id ∈ ids) then to_uint64 <$> im_rows t !! (ns, et, id) else None.
Proof.
  apply option_eq. intros v. rewrite scan_into_lookup.
  - rewrite lookup_empty. setoid_rewrite elem_of_select_rows. case_decide as Hid.
    + rewrite fmap_Some. split; [intros [(n & [_ ?] & ->)|[_ ?]]; [by exists n|done]|].
      intros (n & ? & ->). left. by exists n.
    + split; [|done]. intros [(n & [? _] & _)|[_ ?]]; done.
  - intros i n1 n2. rewrite !elem_of_select_rows. intros [_ ?] [_ ?]. congruence.
Qed.

(** LookupBatch reads one state of the table. *)
Lemma LookupBatch_spec ids ns et w :
  table_wf (w_ext w) →
  let '(r, w') := LookupBatch ids ns et w in
  table_wf (w_ext w') ∧ table_le (w_ext w) (w_ext w') ∧
  (no_deletes (w_ext w) → im_rows (w_ext w) ⊆ im_rows (w_ext w') ∧ no_deletes (w_ext w')) ∧
  match r with
  | inr e => e ≠ []
  | inl m => ∀ id, m !! id = if decide (id ∈ ids) then to_uint64 <$> im_rows (w_ext w') !! (ns, et, id) else None
  end.
Proof.
  intros Hwf. unfold LookupBatch. destruct ids as [|i ids]; [by go; split_and!|].
  unfold bind. destruct (race_wf _ Hwf) as [Hwf1 Hle1]. pose proof (race_grows (w_ext w)) as Hg.
  destruct (id_stmt_cases (λ t, (select_rows ns et (i :: ids) t, t)) w) as (w' & _ & [[-> He]|[-> He]]); go; rewrite He;
    (split_and!; [done|done|done|]); [done|]. intros id. apply select_scan.
Qed.

Lemma insert_rows_spec ns et ids t :
  table_wf t → NoDup ids →
  let '(rows, t') := insert_rows ns et ids t in
  table_wf t' ∧ table_le t t' ∧ im_rows t ⊆ im_rows t' ∧ im_racers t' = im_racers t ∧
  (∀ id, id ∈ ids → is_Some (im_rows t' !! (ns, et, id))) ∧
  (∀ id n, (id, n) ∈ rows ↔ id ∈ ids ∧ im_rows t !! (ns, et, id) = None ∧ im_rows t' !! (ns, et, id) = Some n).
Proof.
  revert t. induction ids as [|i ids IH]; intros t Hwf Hnd; simpl.
  { split_and!; [done..|set_solver|]. intros id n. set_solver. }
  apply NoDup_cons in Hnd as [Hni Hnd].
  destruct (insert_row_wf (ns, et, i) t Hwf) as [Hwf1 Hle1].
  pose proof (insert_row_grows (ns, et, i) t) as Hsub1.
  destruct (insert_row (ns, et, i) t) as [r t1] eqn:Hir. simpl in *.
  specialize (IH t1 Hwf1 Hnd). destruct (insert_rows ns et ids t1) as [rs t2].
  destruct IH as (Hwf2 & Hle2 & Hsub2 & Hrac & Hall & Hrows).
  assert (im_racers t1 = im_racers t ∧ is_Some (im_rows t1 !! (ns, et, i)) ∧
          (∀ id, id ≠ i → im_rows t1 !! (ns, et, id) = im_rows t !! (ns, et, id)) ∧
          (∀ n, r = Some n ↔ im_rows t !! (ns, et, i) = None ∧ im_rows t1 !! (ns, et, i) = Some n))
    as (Hr1 & Hi1 & Hother & Hrn).
  { unfold insert_row in Hir. destruct (im_rows t !! (ns, et, i)) eqn:Hk; injection Hir as <- <-; simpl.
    - split_and!; [done|by eexists|done|]. naive_solver.
    - rewrite lookup_insert_eq. split_and!; [done|by eexists| |naive_solver].
      intros id Hid. rewrite lookup_insert_ne by congruence. done. }
  split_and!; [done|by etrans|by etrans|congruence| |].
  - intros id [->|Hid]%elem_of_cons; [|by apply Hall]. destruct Hi1 as [n Hn]. exists n.
    by eapply lookup_weaken.
  - intros id n. rewrite elem_of_app, Hrows.
    assert ((id, n) ∈ match r with Some n => [(i, n)] | None => [] end ↔ id = i ∧ r = Some n) as ->.
    { destruct r; set_solver. }
    rewrite Hrn, elem_of_cons. destruct (decide (id = i)) as [->|Hne].
    + destruct Hi1 as [m Hm]. assert (im_rows t2 !! (ns, et, i) = Some m) as H2 by by eapply lookup_weaken.
      rewrite H2, Hm. naive_solver.
    + rewrite (Hother id) by done. tauto.
Qed.

Lemma distinct_from_spec seen ids :
  NoDup (distinct_from seen ids) ∧ ∀ id, id ∈ distinct_from seen ids ↔ id ∈ ids ∧ id ∉ seen.
Proof.
  revert seen. induction ids as [|i ids IH]; intros seen; simpl; [split; [constructor|set_solver]|].
  destruct (IH seen) as [Hn1 H1]. destruct (IH ({[i]} ∪ seen)) as [Hn2 H2].
  case_decide as Hi; [split; [done|]; intros id; rewrite H1; set_solver|].
  split; [apply NoDup_cons; split; [rewrite H2; set_solver|done]|].
  intros id. rewrite elem_of_cons, H2. destruct (decide (id = i)); set_solver.
Qed.

Lemma missingFrom_spec ids have :
  (∀ id, id ∈ missingFrom ids have ↔ id ∈ ids ∧ have !! id = None) ∧
  (NoDup ids → NoDup (missingFrom ids have)).
Proof.
  unfold missingFrom. split; [intros id; rewrite list_elem_of_filter; tauto|]. by apply NoDup_filter.
Qed.

Lemma missingFrom_nil ids have id : missingFrom ids have = [] → id ∈ ids → is_Some (have !! id).
Proof.
  intros He Hid. destruct (have !! id) eqn:Hh; [by eexists|].
  assert (id ∈ missingFrom ids have) as Hin by by apply missingFrom_spec. rewrite He in Hin. set_solver.
Qed.

(** A history of the table: well-formed states, oldest first. *)
Fixpoint history (ts : list IdTable) : Prop :=
  match ts with
  | [] => True
  | t :: rest => table_wf t ∧ (∀ t', t' ∈ rest → table_le t t') ∧ history rest
  end.

Lemma history_snoc ts t : history ts → table_wf t → (∀ t0, t0 ∈ ts → table_le t0 t) → history (ts ++ [t]).
Proof.
  induction ts as [|t1 ts IH]; simpl; [intros _ ? _; split_and!; [done|set_solver|done]|].
  intros (? & Hle & ?) Hwf Hall. split_and!; [done|set_solver|]. apply IH; [done|done|set_solver].
Qed.

Lemma history_owner ts t1 t2 k1 k2 n :
  history ts → t1 ∈ ts → t2 ∈ ts → im_rows t1 !! k1 = Some n → im_rows t2 !! k2 = Some n → k1 = k2.
Proof.
  induction ts as [|t ts IH]; [set_solver|]. intros (Hwf & Hle & Hh) H1 H2 Hk1 Hk2.
  apply elem_of_cons in H1 as [->|H1], H2 as [->|H2].
  - by eapply (tw_inj _ Hwf).
  - by eapply (table_le_owner t t2); [done|apply Hle|..].
  - symmetry. by eapply (table_le_owner t t1); [done|apply Hle|..].
  - by apply IH.
Qed.

(** What a result map says: every entry was a row of the table at a moment of
    the history. *)
Definition observed (ns et : string) (ts : list IdTable) (ids : list string) (out : gmap string Z) : Prop :=
  ∀ id n, out !! id = Some n → id ∈ ids ∧ ∃ t, t ∈ ts ∧ im_rows t !! (ns, et, id) = Some n.

Lemma observed_mono ns et ts ts' ids out : ts ⊆ ts' → observed ns et ts ids out → observed ns et ts' ids out.
Proof.
  intros Hsub Ho id n Hn. destruct (Ho id n Hn) as (? & t & ? & ?). split; [done|]. exists t. split; [|done]. by apply Hsub.
Qed.

(** The numeric ids of a result are its own: two entries differ, and in any
    state of the history no other row carries one of them. *)
Lemma observed_inj ns et ts ids out a b n :
  history ts → observed ns et ts ids out → out !! a = Some n → out !! b = Some n → a = b.
Proof.
  intros Hh Ho Ha Hb. destruct (Ho a n Ha) as (_ & t1 & H1 & H1'). destruct (Ho b n Hb) as (_ & t2 & H2 & H2').
  pose proof (history_owner ts t1 t2 _ _ n Hh H1 H2 H1' H2'). congruence.
Qed.

Lemma observed_owner ns et ts ids out t a k n :
  history ts → observed ns et ts ids out → t ∈ ts → out !! a = Some n → im_rows t !! k = Some n →
  k = (ns, et, a).
Proof.
  intros Hh Ho Ht Ha Hk. destruct (Ho a n Ha) as (_ & t1 & H1 & H1').
  exact (history_owner ts t t1 _ _ n Hh Ht H1 Hk H1').
Qed.

(** Everything a batch establishes; [ids] is the list it was asked for. *)
Record batch_ok (ns et : string) (ids : list string) (w w' : W) (r : gmap string Z + error) : Prop := {
  bo_wf : table_wf (w_ext w');
  bo_le : table_le (w_ext w) (w_ext w');
  bo_grows : no_deletes (w_ext w) → im_rows (w_ext w) ⊆ im_rows (w_ext w');
  bo_err : ∀ e, r = inr e → e ≠ [];
  bo_out : in_range (w_ext w') → ∀ out, r = inl out →
    (∃ ts, history ts ∧ w_ext w' ∈ ts ∧ observed ns et ts ids out) ∧
    (no_deletes (w_ext w) → ∀ id, id ∈ ids → ∃ n, out !! id = Some n ∧ im_rows (w_ext w') !! (ns, et, id) = Some n);
}.

Lemma in_range_le t t' : table_le t t' → in_range t' → in_range t.
Proof. unfold in_range. intros [? _]. lia. Qed.

(** In range, a lookup is the restriction of the table to the ids. *)
Lemma lookup_exact ns et (ids : list string) t (m : gmap string Z) :
  table_wf t → in_range t →
  (∀ id, m !! id = if decide (id ∈ ids) then to_uint64 <$> im_rows t !! (ns, et, id) else None) →
  ∀ id n, m !! id = Some n ↔ id ∈ ids ∧ im_rows t !! (ns, et, id) = Some n.
Proof.
  intros Hwf Hr Hm id n. rewrite Hm. case_decide; [|naive_solver].
  rewrite fmap_Some. split; [intros (m' & Hm' & ->)|intros [_ Hn]].
  - by rewrite (to_uint64_row t (ns, et, id) m').
  - exists n. by rewrite (to_uint64_row t (ns, et, id) n).
Qed.

(** The insert statement and the scan of what it returned. *)
Lemma insert_stage ns et missing w :
  table_wf (w_ext w) → NoDup missing →
  let '(r, w') := id_stmt (insert_rows ns et missing) w in
  table_wf (w_ext w') ∧ table_le (w_ext w) (w_ext w') ∧
  (no_deletes (w_ext w) → im_rows (w_ext w) ⊆ im_rows (w_ext w') ∧ no_deletes (w_ext w')) ∧
  match r with
  | inr e => e ≠ []
  | inl rows =>
      (∀ id n, (id, n) ∈ rows → id ∈ missing ∧ im_rows (w_ext w') !! (ns, et, id) = Some n) ∧
      (∀ id, id ∈ missing → is_Some (im_rows (w_ext w') !! (ns, et, id)))
  end.
Proof.
  intros Hwf Hnd. destruct (race_wf _ Hwf) as [Hwf1 Hle1]. pose proof (race_grows (w_ext w)) as Hg.
  destruct (id_stmt_cases (insert_rows ns et missing) w) as (w' & _ & [[-> He]|[-> He]]); rewrite He.
  { by split_and!. }
  pose proof (insert_rows_spec ns et missing (race (w_ext w)) Hwf1 Hnd) as Hi.
  destruct (insert_rows ns et missing (race (w_ext w))) as [rows t2]. cbn [fst snd] in *.
  destruct Hi as (Hwf2 & Hle2 & Hsub & Hrac & Hall & Hrows). split_and!; [done|by etrans| | |].
  - intros Hnd'. destruct (Hg Hnd') as [? Hnd2]. split; [by etrans|]. unfold no_deletes in *. by rewrite Hrac.
  - intros id n Hin. apply Hrows in Hin. tauto.
  - done.
Qed.

Lemma GetOrCreateBatch_ok ctx i ids ns et w :
  table_wf (w_ext w) → RequireNamespaceLease ctx ns = [] →
  let '(r, w') := GetOrCreateBatch ctx (i :: ids) ns et w in batch_ok ns et (i :: ids) w w' r.
Proof.
  intros Hwf Hlease. unfold GetOrCreateBatch. rewrite Hlease. go.
  remember (i :: ids) as ids0 eqn:Hids. clear i ids Hids.
  destruct (distinct_from_spec ∅ ids0) as [Hnd Hd].
  set (distinct := distinct_from ∅ ids0) in *.
  assert (∀ id, id ∈ distinct ↔ id ∈ ids0) as Hdi by (intros id; rewrite Hd; set_solver).
  unfold bind. pose proof (LookupBatch_spec distinct ns et w Hwf) as H1.
  destruct (LookupBatch distinct ns et w) as [[out|e] w1]; go;
    destruct H1 as (Hwf1 & Hle1 & Hg1 & Hout1); [|split; [done|done|apply Hg1|by intros ? [= <-]|done]].
  destruct (missingFrom_spec distinct out) as [Hm Hmn]. specialize (Hmn Hnd).
  case_decide as Hmiss.
  { split; [done|done|apply Hg1|done|]. intros Hr ? [= <-].
    pose proof (lookup_exact _ _ _ _ _ Hwf1 Hr Hout1) as Hex. split.
    - exists [w_ext w1]. split_and!; [simpl; split_and!; [done|set_solver|done]|set_solver|].
      intros id n [? ?]%Hex. split; [by apply Hdi|]. exists (w_ext w1). set_solver.
    - intros _ id Hid. destruct (missingFrom_nil _ _ id Hmiss) as [n Hn]; [by apply Hdi|].
      exists n. split; [done|]. by apply Hex. }
  pose proof (insert_stage ns et (missingFrom distinct out) w1 Hwf1 Hmn) as H2.
  destruct (id_stmt (insert_rows ns et (missingFrom distinct out)) w1) as [[rows|e] w2]; go;
    destruct H2 as (Hwf2 & Hle2 & Hg2 & Hrows);
    [|split; [done|by etrans|intros H0; etrans; [by apply Hg1|by apply Hg2, Hg1]|by intros ? [= <-]|done]].
  destruct Hrows as [Hin Hall].
  set (out2 := scan_into rows out) in *.
  assert (∀ id v, out2 !! id = Some v ↔
    (∃ n, (id, n) ∈ rows ∧ v = to_uint64 n) ∨ (id ∉ rows.*1 ∧ out !! id = Some v)) as Hout2.
  { intros id v. apply scan_into_lookup. intros id' n1 n2 [_ ?]%Hin [_ ?]%Hin. congruence. }
  (* what the first two statements establish *)
  assert (in_range (w_ext w2) → ∀ id n, out2 !! id = Some n →
    id ∈ ids0 ∧ ∃ t, t ∈ [w_ext w1; w_ext w2] ∧ im_rows t !! (ns, et, id) = Some n) as Hobs2.
  { intros Hr id n. pose proof (lookup_exact _ _ _ _ _ Hwf1 (in_range_le _ _ Hle2 Hr) Hout1) as Hex.
    rewrite Hout2. intros [(m & [Hmi Hmr]%Hin & ->)|[_ [? ?]%Hex]].
    - rewrite (to_uint64_row _ _ _ Hwf2 Hr Hmr). apply Hm in Hmi as [? _]. split; [by apply Hdi|].
      exists (w_ext w2). set_solver.
    - split; [by apply Hdi|]. exists (w_ext w1). set_solver. }
  assert (history [w_ext w1; w_ext w2]) as Hh2.
  { simpl. split_and!; [done|set_solver|done|set_solver|done]. }
  assert (in_range (w_ext w2) → no_deletes (w_ext w) → ∀ id, id ∈ ids0 → is_Some (out2 !! id) →
    ∃ n, out2 !! id = Some n ∧ im_rows (w_ext w2) !! (ns, et, id) = Some n) as Hpres.
  { intros Hr Hnodel id Hid [n Hn]. exists n. split; [done|]. destruct (Hobs2 Hr id n Hn) as (_ & t & Ht & Htn).
    apply elem_of_cons in Ht as [->|Ht%list_elem_of_singleton]; [|by subst].
    eapply lookup_weaken; [exact Htn|]. apply Hg2, Hg1, Hnodel. }
  case_decide as Hraced.
  { split; [done|by etrans|intros H0; etrans; [by apply Hg1|by apply Hg2, Hg1]|done|].
    intros Hr ? [= <-]. split; [exists [w_ext w1; w_ext w2]; split_and!; [done|set_solver|exact (Hobs2 Hr)]|].
    intros Hnodel id Hid. apply Hpres; [done|done|done|].
    destruct (out !! id) as [v|] eqn:Ho.
    - destruct (decide (id ∈ rows.*1)) as [Hrid|Hrid].
      + apply list_elem_of_fmap in Hrid as ([id' n] & -> & Hrid). exists (to_uint64 n). apply Hout2. left. by exists n.
      + exists v. apply Hout2. by right.
    - apply (missingFrom_nil _ _ id Hraced). apply Hm. split; [by apply Hdi|done]. }
  pose proof (LookupBatch_spec (missingFrom (missingFrom distinct out) out2) ns et w2 Hwf2) as H3.
  destruct (LookupBatch (missingFrom (missingFrom distinct out) out2) ns et w2) as [[won|e] w3]; go;
    destruct H3 as (Hwf3 & Hle3 & Hg3 & Hwon).
  2: { split; [done|by do 2 (etrans; [done|])| |by intros ? [= <-]|done].
       intros H0. etrans; [by apply Hg1|]. etrans; [by apply Hg2, Hg1|by apply Hg3, Hg2, Hg1]. }
  split; [done|by do 2 (etrans; [done|])| |done|].
  { intros H0. etrans; [by apply Hg1|]. etrans; [by apply Hg2, Hg1|by apply Hg3, Hg2, Hg1]. }
  intros Hr ? [= <-]. pose proof (in_range_le _ _ Hle3 Hr) as Hr2.
  pose proof (lookup_exact _ _ _ _ _ Hwf3 Hr Hwon) as Hex3. split.
  - exists ([w_ext w1; w_ext w2] ++ [w_ext w3]). split_and!.
    + apply history_snoc; [done|done|]. intros t0 [->| ->%list_elem_of_singleton]%elem_of_cons; [by etrans|done].
    + set_solver.
    + intros id n Hn%lookup_union_Some_raw. destruct Hn as [[Hx Hy]%Hex3|[_ Hy]].
      * apply missingFrom_spec in Hx as [[Hx _]%Hm _]. split; [by apply Hdi|]. exists (w_ext w3). set_solver.
      * destruct (Hobs2 Hr2 id n Hy) as (? & t & ? & ?). split; [done|]. exists t. set_solver.
  - intros Hnodel id Hid. destruct (out2 !! id) as [v|] eqn:Ho2.
    + destruct (Hpres Hr2 Hnodel id Hid) as (n & Hn & Hn2); [by eexists|].
      assert (im_rows (w_ext w3) !! (ns, et, id) = Some n) as Hn3.
      { eapply lookup_weaken; [exact Hn2|]. apply Hg3, Hg2, Hg1, Hnodel. }
      exists n. split; [|done]. apply lookup_union_Some_raw. right. split; [|congruence].
      rewrite Hwon, decide_False; [done|]. rewrite (proj1 (missingFrom_spec _ _)). intros [_ ?]. congruence.
    + assert (id ∈ missingFrom distinct out) as Hmis.
      { apply Hm. split; [by apply Hdi|]. destruct (out !! id) as [v|] eqn:Ho; [|done].
        destruct (decide (id ∈ rows.*1)) as [Hrid|Hrid].
        - apply list_elem_of_fmap in Hrid as ([id' n] & -> & Hrid). cbn [fst] in Ho2.
          assert (out2 !! id' = Some (to_uint64 n)); [apply Hout2; left; by exists n|congruence].
        - assert (out2 !! id = Some v); [apply Hout2; by right|congruence]. }
      destruct (Hall id Hmis) as [n Hn].
      assert (im_rows (w_ext w3) !! (ns, et, id) = Some n) as Hn3.
      { eapply lookup_weaken; [exact Hn|]. apply Hg3, Hg2, Hg1, Hnodel. }
      exists n. split; [|done]. apply lookup_union_Some_l, Hex3. split; [|done].
      by apply missingFrom_spec.
Qed.

(** C10: Minting numeric ids. While any number of other writers insert and delete
    rows between its statements, [GetOrCreateBatch] keeps the table
    well-formed and never changes an existing mapping; it mints nothing
    without a lease. A successful answer speaks only about the requested ids,
    gives distinct ids distinct numbers, and a number it returns never belongs
    to any other identity, then or in the table it leaves. If nobody deletes,
    the answer is complete and agrees with the table. *)
Theorem GetOrCreateBatch_correct ctx ids ns et w :
  table_wf (w_ext w) →
  let '(r, w') := GetOrCreateBatch ctx ids ns et w in
  in_range (w_ext w') →
  table_wf (w_ext w') ∧ table_le (w_ext w) (w_ext w') ∧
  (RequireNamespaceLease ctx ns ≠ [] → w_ext w' = w_ext w ∧ (r = inl ∅ ∨ r = inr [ErrLeaseRequired])) ∧
  match r with
  | inr e => e ≠ []
  | inl out =>
      (∀ id n, out !! id = Some n → id ∈ ids) ∧
      (∀ a b n, out !! a = Some n → out !! b = Some n → a = b) ∧
      (∀ id n k, out !! id = Some n → im_rows (w_ext w') !! k = Some n → k = (ns, et, id)) ∧
      (no_deletes (w_ext w) → ∀ id, id ∈ ids →
         ∃ n, out !! id = Some n ∧ im_rows (w_ext w') !! (ns, et, id) = Some n)
  end.
Proof.
  intros Hwf. destruct ids as [|i ids].
  { cbn. intros _. split_and!; [done|done|by auto|..]; try done; set_solver. }
  destruct (RequireNamespaceLease ctx ns) as [|x e] eqn:Hl.
  - pose proof (GetOrCreateBatch_ok ctx i ids ns et w Hwf Hl) as Hok.
    destruct (GetOrCreateBatch ctx (i :: ids) ns et w) as [r w']. intros Hr.
    destruct Hok as [H1 H2 _ H4 H5]. split_and!; [done|done|done|]. destruct r as [out|e]; [|by apply H4].
    destruct (H5 Hr out eq_refl) as [(ts & Hh & Ht & Ho) Hc]. split_and!.
    + intros id n Hn. by apply (Ho id n).
    + intros a b n. by apply (observed_inj ns et ts (i :: ids)).
    + intros id n k Hid Hk. by apply (observed_owner ns et ts (i :: ids) out (w_ext w') id k n).
    + done.
  - unfold GetOrCreateBatch. rewrite Hl. go. intros _. split_and!; try done. intros _. split; [done|]. right.
    unfold RequireNamespaceLease in Hl. repeat split_if_in Hl; simplify_eq; done.
Qed.

(** A table with one mapping; another writer mints [o2] between the lookup and
    the insert of a batch that asks for both and for a third id. *)
Definition id_world : W :=
  {| w_ledger := w_ledger (demo_world []); w_now := 9; w_adv := []; w_lockobjs := ∅; w_next := 0;
     w_faults := [];
     w_ext := {| im_rows := {[("demo", "object", "o1") := 1%Z]}; im_next := 2;
                 im_racers := [[]; [RacerInsert ("demo", "object", "o2")]] |} |}.

Definition demo_lease : Ctx :=
  with_lease {| lv_namespace := "demo"; lv_generation := 3; lv_mode := LockShared |} background.

Lemma GetOrCreateBatch_correct_witness :
  ∃ out, (GetOrCreateBatch demo_lease ["o1"; "o2"; "o1"; "o3"] "demo" "object" id_world).1 = inl out ∧
    out = list_to_map [("o1", 1); ("o2", 2); ("o3", 4)]%Z ∧
    (∀ a b n, out !! a = Some n → out !! b = Some n → a = b).
Proof.
  pose proof (GetOrCreateBatch_correct demo_lease ["o1"; "o2"; "o1"; "o3"] "demo" "object" id_world) as H.
  destruct (GetOrCreateBatch demo_lease ["o1"; "o2"; "o1"; "o3"] "demo" "object" id_world) as [r w'] eqn:E.
  assert (r = inl (list_to_map [("o1", 1); ("o2", 2); ("o3", 4)]%Z) ∧ im_next (w_ext w') = 5%Z) as [-> Hn].
  { vm_compute in E. injection E as <- <-. vm_compute. done. }
  eexists. split; [reflexivity|]. split; [reflexivity|]. apply H.
  - split; simpl; [..|lia].
    + intros k n [<- <-]%lookup_singleton_Some. lia.
    + intros k1 k2 n [<- <-]%lookup_singleton_Some [<- _]%lookup_singleton_Some. done.
  - unfold in_range. rewrite Hn. unfold max_int64. lia.
Defined.
