(* ===== verification/RepairStore.v ===== *)
(** * The identity repair: its stores

    [internal/core/idmap/repair_types.go], [repair_repository.go],
    [internal/infra/qdrant/repair.go] and the point mover of
    [cmd/admin/idmap_repair_adapter.go]: the durable manifest, the mapping
    table and the point primitives the reconciliation is built from.

    PostgreSQL statements succeed or fail as the fault script says. Qdrant has
    a script of its own, because the repair does not trust it: an upsert may
    fail or be stored altered, which includes the conversion of a vector it was
    read with into one it is written with. What belongs to other packages is a
    parameter ([RepairDigests]): SHA-256 and the text form of the protobuf
    messages; [RepairDigestsOk] states what the repair relies on. *)

From stdpp Require Import base tactics gmap strings list sorting.
From Stdlib Require Import ZArith Lia Ascii.
From S2P Require Import Prelude GoLib NsNames NsLedger NsService.

Inductive RepairRunState :=
| RepairRunAudited | RepairRunSnapshotting | RepairRunApplying | RepairRunVerifying
| RepairRunComplete | RepairRunFailed.

Inductive RepairItemState :=
| RepairItemPending | RepairItemCopied | RepairItemVerified | RepairItemCleaned
| RepairItemQuarantined | RepairItemFailed.

#[export] Instance RepairRunState_eq_dec : EqDecision RepairRunState.
Proof. solve_decision. Defined.
#[export] Instance RepairItemState_eq_dec : EqDecision RepairItemState.
Proof. solve_decision. Defined.

Definition ErrRepairRunNotFound : string := "idmap: repair run not found".
Definition ErrRepairRunActive : string := "idmap: a repair run is already in progress".
Definition ErrManifestChanged : string := "idmap: repair manifest changed since audit".
Definition ErrQuarantinedItems : string := "idmap: repair manifest contains quarantined items".
Definition ErrSnapshotsRequired : string := "idmap: coordinated snapshots are required before apply".
Definition ErrSourceMissing : string := "source point is missing".
Definition ErrCopyMismatch : string := "verify copy".
Definition ErrInvalidPointID : string := "invalid numeric point id".
Definition ErrNoSuchMapping : string := "no such mapping".
Definition ErrRunState : string := "run state".
Definition ErrFenceRequired : string := "idmap: apply requires the global lifecycle fence".

Record RepairRun := {
  run_ID : Z;
  run_State : RepairRunState;
  run_PGSnapshotRef : string;
  run_QdrantSnapshotRefs : gmap string string;
  run_ManifestHash : string;
  run_RebuiltNamespaces : list string;
}.

(** The keys of [Sources] the code reads; a missing key is [None]. *)
Record ItemSources := {
  so_collections : option (gmap string (list Z));
  so_dense : option (gset string);
  so_conflict : option string;
  so_reassigned_from : option Z;
}.

Record RepairItem := {
  it_RunID : Z;
  it_Namespace : string;
  it_EntityType : string;
  it_StringID : string;
  it_OldNumericIDs : list Z;
  it_TargetNumericID : option Z;
  it_Sources : ItemSources;
  it_PayloadHash : string;
  it_VectorHash : string;
  it_State : RepairItemState;
}.

Definition Resolved (i : RepairItem) : bool :=
  negb (bool_decide (it_State i = RepairItemQuarantined)) && bool_decide (is_Some (it_TargetNumericID i)).

Definition TargetConflictWith (i : RepairItem) : string := default "" (so_conflict (it_Sources i)).

Definition NeedsCopy (i : RepairItem) : bool :=
  if negb (Resolved i) then false
  else existsb (λ old, negb (bool_decide (Some old = it_TargetNumericID i))) (it_OldNumericIDs i).

(** [sort.Strings]: by bytes. *)
Definition str_le (a b : string) : Prop := String.leb a b = true.
#[export] Instance str_le_dec a b : Decision (str_le a b).
Proof. unfold str_le. apply _. Defined.
Definition sort_strings (l : list string) : list string := merge_sort str_le l.

Lemma elem_of_sort_strings x l : x ∈ sort_strings l ↔ x ∈ l.
Proof. unfold sort_strings. by rewrite merge_sort_Permutation. Qed.

Definition itemCollections (i : RepairItem) : list string :=
  match so_collections (it_Sources i) with
  | None => []
  | Some m => sort_strings (elements (dom m))
  end.

Definition copyableCollections (i : RepairItem) : list string :=
  match so_dense (it_Sources i) with
  | Some dense => if decide (dense = ∅) then itemCollections i else sort_strings (elements dense)
  | None => itemCollections i
  end.

(** ** The stores *)

(** Messages of the Qdrant client, as their encodings. *)
Record Value := { val_wire : string }.
Record VectorsOutput := { vo_wire : string }.

#[export] Instance Value_eq_dec : EqDecision Value.
Proof. solve_decision. Defined.
#[export] Instance VectorsOutput_eq_dec : EqDecision VectorsOutput.
Proof. solve_decision. Defined.

(** U+001F *)
Definition unit_separator : Ascii.ascii := Ascii.ascii_of_nat 31.
Definition free_of (sep : Ascii.ascii) (s : string) : bool := str_all (λ c, negb (bool_decide (c = sep))) s.

(** A payload maps field names, which hold neither "=" nor U+001F, to values. *)
Definition plain_keys (m : gmap string Value) : Prop :=
  forallb (λ k, free_of "="%char k && free_of unit_separator k) (map_to_list m).*1 = true.
#[export] Instance plain_keys_dec m : Decision (plain_keys m).
Proof. unfold plain_keys. apply _. Defined.
Definition payload : Type := dsig plain_keys.

Record point := {
  pt_payload : payload;
  pt_vectors : option VectorsOutput;
}.

#[export] Instance point_eq_dec : EqDecision point.
Proof. solve_decision. Defined.

(** What Qdrant does with a request: it obeys, it fails, or, for an upsert, it
    stores something else. *)
Inductive qoutcome := QOk | QFail | QAlter (p : point).

Record RepairState := {
  rs_points : gmap (string * Z) point;      (* (collection, numeric id) *)
  rs_q : list qoutcome;
  rs_mappings : gmap (string * string * string) Z;
  rs_next : Z;
  rs_runs : gmap Z RepairRun;
  rs_next_run : Z;
  rs_items : list RepairItem;
  rs_rebuilt : list string;                 (* sparse rebuilds that ran *)
}.

Abbreviation W := (World RepairState).

Definition set_points (q : gmap (string * Z) point) (s : RepairState) : RepairState :=
  {| rs_points := q; rs_q := rs_q s; rs_mappings := rs_mappings s; rs_next := rs_next s;
     rs_runs := rs_runs s; rs_next_run := rs_next_run s; rs_items := rs_items s; rs_rebuilt := rs_rebuilt s |}.
Definition set_q (l : list qoutcome) (s : RepairState) : RepairState :=
  {| rs_points := rs_points s; rs_q := l; rs_mappings := rs_mappings s; rs_next := rs_next s;
     rs_runs := rs_runs s; rs_next_run := rs_next_run s; rs_items := rs_items s; rs_rebuilt := rs_rebuilt s |}.
Definition set_mappings (m : gmap (string * string * string) Z) (s : RepairState) : RepairState :=
  {| rs_points := rs_points s; rs_q := rs_q s; rs_mappings := m; rs_next := rs_next s;
     rs_runs := rs_runs s; rs_next_run := rs_next_run s; rs_items := rs_items s; rs_rebuilt := rs_rebuilt s |}.
Definition set_next (n : Z) (s : RepairState) : RepairState :=
  {| rs_points := rs_points s; rs_q := rs_q s; rs_mappings := rs_mappings s; rs_next := n;
     rs_runs := rs_runs s; rs_next_run := rs_next_run s; rs_items := rs_items s; rs_rebuilt := rs_rebuilt s |}.
Definition set_runs (r : gmap Z RepairRun) (s : RepairState) : RepairState :=
  {| rs_points := rs_points s; rs_q := rs_q s; rs_mappings := rs_mappings s; rs_next := rs_next s;
     rs_runs := r; rs_next_run := rs_next_run s; rs_items := rs_items s; rs_rebuilt := rs_rebuilt s |}.
Definition set_items (l : list RepairItem) (s : RepairState) : RepairState :=
  {| rs_points := rs_points s; rs_q := rs_q s; rs_mappings := rs_mappings s; rs_next := rs_next s;
     rs_runs := rs_runs s; rs_next_run := rs_next_run s; rs_items := l; rs_rebuilt := rs_rebuilt s |}.
Definition set_rebuilt (l : list string) (s : RepairState) : RepairState :=
  {| rs_points := rs_points s; rs_q := rs_q s; rs_mappings := rs_mappings s; rs_next := rs_next s;
     rs_runs := rs_runs s; rs_next_run := rs_next_run s; rs_items := rs_items s; rs_rebuilt := l |}.

Definition set_next_run (n : Z) (s : RepairState) : RepairState :=
  {| rs_points := rs_points s; rs_q := rs_q s; rs_mappings := rs_mappings s; rs_next := rs_next s;
     rs_runs := rs_runs s; rs_next_run := n; rs_items := rs_items s; rs_rebuilt := rs_rebuilt s |}.

Definition on_state (f : RepairState → RepairState) : M W () := modify (λ w, set_ext (f (w_ext w)) w).

(** ** Points *)

Definition next_q : M W qoutcome := λ w,
  match rs_q (w_ext w) with
  | [] => (QOk, w)
  | o :: rest => (o, set_ext (set_q rest (w_ext w)) w)
  end.

(** [readPoint]: [inl] is the point or nil, [inr] an error. *)
Definition readPoint (collection : string) (id : Z) : M W (option point + error) :=
  let! o := next_q in
  match o with
  | QFail => ret (inr [ErrDriver])
  | _ => let! s := gets w_ext in ret (inl (rs_points s !! (collection, id)))
  end.

Definition upsert (collection : string) (id : Z) (p : point) : M W error :=
  let! o := next_q in
  match o with
  | QFail => ret [ErrDriver]
  | QOk => on_state (λ s, set_points (<[(collection, id) := p]> (rs_points s)) s) ;;! ret []
  | QAlter p' => on_state (λ s, set_points (<[(collection, id) := p']> (rs_points s)) s) ;;! ret []
  end.

Class RepairDigests := {
  Sum256 : string → list N;
  Value_String : Value → string;
  Value_GetStringValue : Value → string;
  VectorsOutput_String : VectorsOutput → string;
}.

(** SHA-256 without collisions; the text of a message determines it, and the
    text of a value escapes control characters. *)
Class RepairDigestsOk `{RepairDigests} : Prop := {
  #[global] Sum256_inj :: Inj (=) (=) Sum256;
  Sum256_bytes : ∀ s, is_bytes (Sum256 s) ∧ Sum256 s ≠ [];
  #[global] Value_String_inj :: Inj (=) (=) Value_String;
  Value_String_plain : ∀ v, free_of unit_separator (Value_String v) = true;
  #[global] VectorsOutput_String_inj :: Inj (=) (=) VectorsOutput_String;
}.

Section hashes.
Context `{RepairDigests}.

Definition entry_text (m : gmap string Value) (key : string) : string :=
  key +:+ "=" +:+ from_option Value_String "" (m !! key) +:+ String unit_separator "".

(** [range payload] lists the keys in some order; they are sorted. *)
Definition HashPayload (p : payload) : string :=
  EncodeToString (Sum256 (foldr (λ key rest, entry_text (`p) key +:+ rest) "" (sort_strings (map_to_list (`p)).*1))).

Definition HashVectors (vectors : option VectorsOutput) : string :=
  match vectors with
  | None => ""
  | Some v => EncodeToString (Sum256 (VectorsOutput_String v))
  end.

(** A missing field reads as the empty string. *)
Definition string_field (p : point) (field : string) : string :=
  from_option Value_GetStringValue "" (proj1_sig (pt_payload p) !! field).

Definition payloadIDField (collection : string) : string :=
  if str_contains collection "_subjects" then "subject_id" else "object_id".

Definition CopyPointVerified (collection : string) (from to : Z) : M W error :=
  if decide (from = to) then ret []
  else
    let! source := readPoint collection from in
    match source with
    | inr e => ret e
    | inl None => ret [ErrSourceMissing]
    | inl (Some source) =>
        let! e := upsert collection to source in
        if negb (nil_err e) then ret e
        else
          let! copied := readPoint collection to in
          match copied with
          | inr e => ret e
          | inl None => ret [ErrCopyMismatch]
          | inl (Some copied) =>
              if negb (bool_decide (HashPayload (pt_payload copied) = HashPayload (pt_payload source)))
              then ret [ErrCopyMismatch]
              else if negb (bool_decide (HashVectors (pt_vectors copied) = HashVectors (pt_vectors source)))
              then ret [ErrCopyMismatch]
              else ret []
          end
    end.

Definition DeletePoint (collection : string) (id : Z) : M W error :=
  let! o := next_q in
  match o with
  | QFail => ret [ErrDriver]
  | _ => on_state (λ s, set_points (delete (collection, id) (rs_points s)) s) ;;! ret []
  end.

Definition PointAbsent (collection : string) (id : Z) : M W (bool * error) :=
  let! p := readPoint collection id in
  match p with
  | inr e => ret (false, e)
  | inl None => ret (true, [])
  | inl (Some _) => ret (false, [])
  end.

Record InspectedPoint := { ip_StringID : string; ip_PayloadHash : string; ip_VectorHash : string }.

(** [inl (Some p)] is (p, true, nil), [inl None] is not found. *)
Definition InspectPoint (collection idField : string) (id : Z) : M W (option InspectedPoint + error) :=
  let! p := readPoint collection id in
  match p with
  | inr e => ret (inr e)
  | inl None => ret (inl None)
  | inl (Some p) => ret (inl (Some {| ip_StringID := string_field p idField; ip_PayloadHash := HashPayload (pt_payload p);
                                      ip_VectorHash := HashVectors (pt_vectors p) |}))
  end.

(** The mover refuses non-positive ids. *)
Definition mover_CopyPointVerified (collection : string) (from to : Z) : M W error :=
  if (from <? 1)%Z then ret [ErrInvalidPointID]
  else if (to <? 1)%Z then ret [ErrInvalidPointID]
  else CopyPointVerified collection from to.

Definition mover_DeletePoint (collection : string) (id : Z) : M W error :=
  if (id <? 1)%Z then ret [ErrInvalidPointID] else DeletePoint collection id.

Definition mover_PointAbsent (collection : string) (id : Z) : M W (bool * error) :=
  if (id <? 1)%Z then ret (false, [ErrInvalidPointID]) else PointAbsent collection id.

Definition mover_InspectPoint (collection : string) (id : Z) : M W (option InspectedPoint + error) :=
  if (id <? 1)%Z then ret (inr [ErrInvalidPointID]) else InspectPoint collection (payloadIDField collection) id.
End hashes.

(** *** The digests determine what they digest *)

Section digests.
Context `{RepairDigestsOk}.

(** Entries can be read back from their text. *)
Lemma entries_inj (l l' : list (string * string)) :
  (∀ e, e ∈ l ∨ e ∈ l' → free_of "="%char e.1 ∧ free_of unit_separator e.1 ∧ free_of unit_separator e.2) →
  foldr (λ e rest, (e.1 +:+ "=" +:+ e.2 +:+ String unit_separator "") +:+ rest) "" l =
  foldr (λ e rest, (e.1 +:+ "=" +:+ e.2 +:+ String unit_separator "") +:+ rest) "" l' → l = l'.
Proof.
  assert (∀ (e : string * string) rest, (e.1 +:+ "=" +:+ e.2 +:+ String unit_separator "") +:+ rest =
    (e.1 +:+ String "="%char e.2) +:+ String unit_separator rest) as Hshape by (intros [] ?; by rewrite <- !string_app_assoc).
  assert (∀ (e : string * string) rest, (e.1 +:+ "=" +:+ e.2 +:+ String unit_separator "") +:+ rest ≠ "") as Hne.
  { intros [k v] rest. rewrite Hshape. cbn. by destruct k. }
  revert l'. induction l as [|e l IH]; intros [|e' l'] Hp Heq; cbn [foldr] in Heq.
  - done.
  - by destruct (Hne _ _ (eq_sym Heq)).
  - by destruct (Hne _ _ Heq).
  - destruct (Hp e) as (He1 & He2 & He3); [left; by left|]. destruct (Hp e') as (He1' & He2' & He3'); [right; by left|].
    rewrite !Hshape in Heq. unfold free_of in *.
    assert (∀ k v, str_all (λ c, negb (bool_decide (c = unit_separator))) k → str_all (λ c, negb (bool_decide (c = unit_separator))) v →
      str_all (λ c, negb (bool_decide (c = unit_separator))) (k +:+ String "="%char v)) as Hfree.
    { intros k v Hk Hv. rewrite str_all_app. cbn. apply andb_True. by split. }
    apply string_split_unique in Heq as [Heq Hrest]; [|by apply Hfree..].
    apply string_split_unique in Heq as [Hk Hv]; [|done..].
    f_equal; [by destruct e, e'; cbn in *; subst|]. apply IH; [|done]. intros x [Hx|Hx]; apply Hp; [left|right]; by right.
Qed.

#[export] Instance HashPayload_inj : Inj (=) (=) HashPayload.
Proof.
  intros p p' Heq. unfold HashPayload in Heq. apply EncodeToString_inj in Heq; [|apply Sum256_bytes..]. apply (inj Sum256) in Heq.
  pose (entries := λ p : payload, (λ k, (k, from_option Value_String "" (`p !! k))) <$> sort_strings (map_to_list (`p)).*1).
  assert (∀ p, foldr (λ key rest, entry_text (`p) key +:+ rest) "" (sort_strings (map_to_list (`p)).*1) =
    foldr (λ e rest, (e.1 +:+ "=" +:+ e.2 +:+ String unit_separator "") +:+ rest) "" (entries p)) as Htext.
  { intros q. unfold entries. generalize (sort_strings (map_to_list (`q)).*1). intros l. induction l as [|k l IH]; [done|]. cbn [foldr fmap list_fmap]. by rewrite IH. }
  rewrite !Htext in Heq. apply entries_inj in Heq.
  - assert (∀ q k, k ∈ (entries q).*1 ↔ is_Some (`q !! k)) as Hdom.
    { intros q k. unfold entries. rewrite <- list_fmap_compose. cbn. rewrite list_fmap_id, elem_of_sort_strings, list_elem_of_fmap. split.
      - intros ([k' v] & -> & Hk%elem_of_map_to_list). by exists v.
      - intros [v Hv]. exists (k, v). split; [done|]. by apply elem_of_map_to_list. }
    assert (∀ q k v, `q !! k = Some v → (k, Value_String v) ∈ entries q) as Hval.
    { intros q k v Hv. unfold entries. apply list_elem_of_fmap. exists k. split; [by rewrite Hv|].
      apply elem_of_sort_strings, list_elem_of_fmap. exists (k, v). split; [done|]. by apply elem_of_map_to_list. }
    apply dsig_eq, map_eq. intros k. destruct (`p !! k) as [v|] eqn:Hv.
    + apply Hval in Hv. rewrite Heq in Hv. unfold entries in Hv. apply list_elem_of_fmap in Hv as (k' & [= <- Hs] & Hk).
      apply elem_of_sort_strings, list_elem_of_fmap in Hk as ([k' v'] & Hkk & Hk%elem_of_map_to_list). cbn in Hkk. subst k'.
      rewrite Hk in Hs |- *. cbn in Hs. by apply (inj Value_String) in Hs as ->.
    + destruct (`p' !! k) as [v|] eqn:Hv'; [|done]. assert (is_Some (`p !! k)) as [? ?]; [|congruence].
      apply Hdom. rewrite Heq. apply Hdom. by exists v.
  - assert (∀ q e, e ∈ entries q → free_of "="%char e.1 ∧ free_of unit_separator e.1 ∧ free_of unit_separator e.2) as Hfree; [|by intros e [?|?]; eauto].
    intros q e He. unfold entries in He. apply list_elem_of_fmap in He as (k & -> & Hk). rewrite elem_of_sort_strings in Hk. cbn.
    pose proof (proj2_dsig q) as Hq. unfold plain_keys in Hq. rewrite forallb_forall in Hq. apply list_elem_of_In in Hk as Hin.
    apply Hq, andb_true_iff in Hin as [H1 H2]. split_and!; [by apply Is_true_true..|].
    destruct (`q !! k) as [v|]; cbn; [|done]. apply Is_true_true, Value_String_plain.
Qed.

#[export] Instance HashVectors_inj : Inj (=) (=) HashVectors.
Proof.
  assert (∀ v, HashVectors (Some v) ≠ "") as Hne.
  { intros v. cbn. destruct (Sum256_bytes (VectorsOutput_String v)) as [_ Hn]. by destruct (Sum256 _). }
  intros [v|] [v'|] Heq; [|by destruct (Hne v)|by destruct (Hne v')|done].
  cbn in Heq. apply EncodeToString_inj in Heq; [|apply Sum256_bytes..]. apply (inj Sum256) in Heq. by apply (inj VectorsOutput_String) in Heq as ->.
Qed.
End digests.

(** ** The repair repository *)

Definition pg {A} (failv : A) (f : RepairState → A * RepairState) : M W A :=
  let! b := fault in
  if b then ret failv else λ w, let r := f (w_ext w) in (r.1, set_ext r.2 w).

Definition pg_exec (f : RepairState → RepairState) : M W error := pg [ErrDriver] (λ s, ([], f s)).

Definition set_run_state (st : RepairRunState) (r : RepairRun) : RepairRun :=
  {| run_ID := run_ID r; run_State := st; run_PGSnapshotRef := run_PGSnapshotRef r;
     run_QdrantSnapshotRefs := run_QdrantSnapshotRefs r; run_ManifestHash := run_ManifestHash r;
     run_RebuiltNamespaces := run_RebuiltNamespaces r |}.

Definition set_item_state (st : RepairItemState) (i : RepairItem) : RepairItem :=
  {| it_RunID := it_RunID i; it_Namespace := it_Namespace i; it_EntityType := it_EntityType i;
     it_StringID := it_StringID i; it_OldNumericIDs := it_OldNumericIDs i;
     it_TargetNumericID := it_TargetNumericID i; it_Sources := it_Sources i;
     it_PayloadHash := it_PayloadHash i; it_VectorHash := it_VectorHash i; it_State := st |}.

Definition item_key (i : RepairItem) : Z * string * string * string :=
  (it_RunID i, it_Namespace i, it_EntityType i, it_StringID i).

Definition GetRun (id : Z) : M W (option RepairRun * error) :=
  pg (None, [ErrDriver]) (λ s, (match rs_runs s !! id with
                                | None => (None, [ErrRepairRunNotFound])
                                | Some r => (Some r, []) end, s)).

Definition active_state (st : RepairRunState) : bool :=
  match st with RepairRunComplete | RepairRunFailed => false | _ => true end.

Definition ActiveRun : M W (option RepairRun * error) :=
  pg (None, [ErrDriver]) (λ s,
    ((snd <$> head (filter (λ p : Z * RepairRun, active_state (run_State p.2) = true)
                           (map_to_list (rs_runs s))), []), s)).

Definition SetRunState (id : Z) (st : RepairRunState) : M W error :=
  pg_exec (λ s, set_runs (alter (set_run_state st) id (rs_runs s)) s).

Definition RecordSnapshots (id : Z) (pgRef : string) (refs : gmap string string) : M W error :=
  pg_exec (λ s, set_runs (alter (λ r,
    {| run_ID := run_ID r; run_State := run_State r; run_PGSnapshotRef := pgRef;
       run_QdrantSnapshotRefs := refs; run_ManifestHash := run_ManifestHash r;
       run_RebuiltNamespaces := run_RebuiltNamespaces r |}) id (rs_runs s)) s).

Definition RecordRebuiltNamespace (id : Z) (ns : string) : M W error :=
  pg_exec (λ s, set_runs (alter (λ r,
    {| run_ID := run_ID r; run_State := run_State r; run_PGSnapshotRef := run_PGSnapshotRef r;
       run_QdrantSnapshotRefs := run_QdrantSnapshotRefs r; run_ManifestHash := run_ManifestHash r;
       run_RebuiltNamespaces := remove_dups (run_RebuiltNamespaces r ++ [ns]) |}) id (rs_runs s)) s).

(** ORDER BY namespace, entity_type, string_id. *)
Definition item_le (a b : RepairItem) : Prop :=
  String.ltb (it_Namespace a) (it_Namespace b) = true ∨
  (it_Namespace a = it_Namespace b ∧
   (String.ltb (it_EntityType a) (it_EntityType b) = true ∨
    (it_EntityType a = it_EntityType b ∧ str_le (it_StringID a) (it_StringID b)))).
#[export] Instance item_le_dec a b : Decision (item_le a b).
Proof. unfold item_le. apply _. Defined.

Definition ListItems (runID : Z) : M W (list RepairItem * error) :=
  pg ([], [ErrDriver]) (λ s,
    ((merge_sort item_le (filter (λ i, it_RunID i = runID) (rs_items s)), []), s)).

Definition ListItemsInState (runID : Z) (states : list RepairItemState) : M W (list RepairItem * error) :=
  pg ([], [ErrDriver]) (λ s,
    ((merge_sort item_le (filter (λ i, it_RunID i = runID ∧ it_State i ∈ states) (rs_items s)), []), s)).

Definition SetItemState (item : RepairItem) (st : RepairItemState) : M W error :=
  pg_exec (λ s, set_items ((λ i, if decide (item_key i = item_key item) then set_item_state st i else i)
                           <$> rs_items s) s).

Definition RetargetMapping (ns et sid : string) (numericID : Z) : M W error :=
  pg [ErrDriver] (λ s,
    match rs_mappings s !! (ns, et, sid) with
    | None => ([ErrNoSuchMapping], s)
    | Some _ => ([], set_mappings (<[(ns, et, sid) := numericID]> (rs_mappings s)) s)
    end).

Definition NextNumericID : M W (Z * error) :=
  pg (0%Z, [ErrDriver]) (λ s, ((rs_next s, []), set_next (rs_next s + 1) s)).

(** [LoadMappings]: entity_type → string_id → numeric_id. *)
Definition LoadMappings (ns : string) : M W (gmap string (gmap string Z) * error) :=
  pg (∅, [ErrDriver]) (λ s,
    ((map_fold (λ k n (m : gmap string (gmap string Z)),
        if decide (k.1.1 = ns) then <[k.1.2 := <[k.2 := n]> (default ∅ (m !! k.1.2))]> m else m)
      ∅ (rs_mappings s), []), s)).

(** [ManifestHash]: SHA-256 over the sorted lines of the items. *)
Section manifest.
Context `{RepairDigests}.

Definition target_text (i : RepairItem) : string :=
  match it_TargetNumericID i with None => "none" | Some t => itoa t end.

Definition manifest_line (i : RepairItem) : string :=
  String.concat (String (Ascii.ascii_of_nat 31) "")
    [it_Namespace i; it_EntityType i; it_StringID i;
     String.concat "," (itoa <$> merge_sort Z.le (it_OldNumericIDs i)); target_text i].

Definition ManifestHash (items : list RepairItem) : string :=
  EncodeToString (Sum256 (String.concat (String (Ascii.ascii_of_nat 30) "") (sort_strings (manifest_line <$> items)))).

(** [CreateRun]: one transaction. The partial unique index on active runs makes
    the insert fail while one is in flight, and the primary key of the items
    refuses a manifest that names an identity twice. *)
Definition stamp (id : Z) (i : RepairItem) : RepairItem :=
  {| it_RunID := id; it_Namespace := it_Namespace i; it_EntityType := it_EntityType i;
     it_StringID := it_StringID i; it_OldNumericIDs := it_OldNumericIDs i;
     it_TargetNumericID := it_TargetNumericID i; it_Sources := it_Sources i;
     it_PayloadHash := it_PayloadHash i; it_VectorHash := it_VectorHash i; it_State := it_State i |}.

Definition CreateRun (items : list RepairItem) : M W (option RepairRun * error) :=
  pg (None, [ErrDriver]) (λ s,
    let id := rs_next_run s in
    let s := set_next_run (id + 1) s in (* a sequence is not rolled back *)
    if existsb (λ p, active_state (run_State p.2)) (map_to_list (rs_runs s))
    then ((None, [ErrRepairRunActive]), s)
    else if decide (NoDup (item_key <$> (stamp id <$> items))) then
      let run := {| run_ID := id; run_State := RepairRunAudited; run_PGSnapshotRef := "";
                    run_QdrantSnapshotRefs := ∅; run_ManifestHash := ManifestHash items;
                    run_RebuiltNamespaces := [] |} in
      ((Some run, []), set_items (rs_items s ++ (stamp id <$> items))
                                 (set_runs (<[id := run]> (rs_runs s)) s))
    else ((None, [ErrDriver]), s)).
End manifest.
