(* ===== verification/Repair.v ===== *)
(** * The identity repair: audit, apply, verify, resume

    [internal/core/idmap/repair_service.go]. The evidence source, the sparse
    rebuilder and the global fence are interfaces of the package and parameters
    here; the point mover and the repository are those of [RepairStore]. *)

From stdpp Require Import base tactics gmap strings list sorting.
From Stdlib Require Import ZArith Lia.
From S2P Require Import Prelude GoLib NsNames NsLedger NsService Utf8 RepairStore.

Record CollectionEvidence := {
  ce_Collection : string;
  ce_EntityType : string;
  ce_NumericID : Z;
  ce_StringID : string;
  ce_PayloadHash : string;
  ce_VectorHash : string;
}.

Record NamespaceEvidence := {
  ne_Namespace : string;
  ne_Mappings : gmap string (gmap string Z);
  ne_Points : list CollectionEvidence;
  ne_DenseCollections : gset string;
}.

(** ** The audit *)

Definition us : Ascii.ascii := Ascii.ascii_of_nat 31.

Definition key (entityType stringID : string) : string := entityType +:+ String us stringID.

Fixpoint splitKey (k : string) : string * string * bool :=
  match k with
  | EmptyString => ("", "", false)
  | String c k' =>
      if decide (c = us) then ("", k', true)
      else let '(e, s, ok) := splitKey k' in
           if ok : bool then (String c e, s, true) else (k, "", false)
  end.

Record observed := {
  ob_numericIDs : gset Z;
  ob_collections : gmap string (list Z);
  ob_payloadHash : string;
  ob_vectorHash : string;
  ob_unlabeled : bool;
}.

Definition no_observation : observed :=
  {| ob_numericIDs := ∅; ob_collections := ∅; ob_payloadHash := ""; ob_vectorHash := "";
     ob_unlabeled := false |}.

(** The maps the first loop fills: what was seen of each identity, and which
    identity holds a numeric id of a collection. *)
Record tally := {
  ta_byIdentity : gmap string observed;
  ta_occupancy : gmap string (gmap Z string);
}.

Definition see (ob : observed) (p : CollectionEvidence) : observed :=
  {| ob_numericIDs := {[ce_NumericID p]} ∪ ob_numericIDs ob;
     ob_collections := <[ce_Collection p :=
        default [] (ob_collections ob !! ce_Collection p) ++ [ce_NumericID p]]> (ob_collections ob);
     ob_payloadHash := if decide (ce_PayloadHash p = "") then ob_payloadHash ob else ce_PayloadHash p;
     ob_vectorHash := if decide (ce_VectorHash p = "") then ob_vectorHash ob else ce_VectorHash p;
     ob_unlabeled := ob_unlabeled ob |}.

Definition unlabeled_key (p : CollectionEvidence) : string :=
  key (ce_EntityType p)
    (String (Ascii.ascii_of_nat 0) ("unlabeled:" +:+ ce_Collection p +:+ ":" +:+ itoa (ce_NumericID p))).

Definition count_point (t : tally) (p : CollectionEvidence) : tally :=
  if decide (ce_StringID p = "") then
    {| ta_byIdentity := <[unlabeled_key p :=
         {| ob_numericIDs := {[ce_NumericID p]};
            ob_collections := {[ce_Collection p := [ce_NumericID p]]};
            ob_payloadHash := ""; ob_vectorHash := ""; ob_unlabeled := true |}]> (ta_byIdentity t);
       ta_occupancy := ta_occupancy t |}
  else
    let k := key (ce_EntityType p) (ce_StringID p) in
    {| ta_byIdentity := <[k := see (default no_observation (ta_byIdentity t !! k)) p]> (ta_byIdentity t);
       ta_occupancy := <[ce_Collection p :=
         <[ce_NumericID p := k]> (default ∅ (ta_occupancy t !! ce_Collection p))]> (ta_occupancy t) |}.

(** The second loop: mappings without points. *)
Definition add_mappings (mappings : gmap string (gmap string Z)) (m : gmap string observed)
    : gmap string observed :=
  map_fold (λ et inner m,
    map_fold (λ sid _ m,
      match m !! key et sid with
      | None => <[key et sid := no_observation]> m
      | Some _ => m
      end) m inner) m mappings.

Definition hasAmbiguousCollection (collections : gmap string (list Z)) : bool :=
  existsb (λ p : string * list Z, (1 <? Z.of_nat (size (list_to_set p.2 : gset Z)))%Z) (map_to_list collections).

(** The first collection, in some order, in which another identity holds the
    target. *)
Definition targetHolder (occupancy : gmap string (gmap Z string)) (collections : gmap string (list Z))
    (target : Z) (self : string) : string :=
  default "" (head (omap (λ p : string * list Z,
    match default ∅ (occupancy !! p.1) !! target with
    | Some holder => if decide (holder = self) then None else Some holder
    | None => None
    end) (map_to_list collections))).

Definition audit_item (ev : NamespaceEvidence) (occupancy : gmap string (gmap Z string))
    (k : string) (entry : observed) : RepairItem :=
  let '(entityType, stringID, _) := splitKey k in
  let dense := filter (λ c, c ∈ ne_DenseCollections ev) (dom (ob_collections entry)) in
  let base state target conflict :=
    {| it_RunID := 0; it_Namespace := ne_Namespace ev; it_EntityType := entityType;
       it_StringID := stringID;
       it_OldNumericIDs := merge_sort Z.le (elements (ob_numericIDs entry));
       it_TargetNumericID := target;
       it_Sources := {| so_collections := Some (ob_collections entry); so_dense := Some dense;
                        so_conflict := conflict; so_reassigned_from := None |};
       it_PayloadHash := ob_payloadHash entry; it_VectorHash := ob_vectorHash entry;
       it_State := state |} in
  if ob_unlabeled entry then base RepairItemQuarantined None None
  else if hasAmbiguousCollection (ob_collections entry) then base RepairItemQuarantined None None
  else
    match default ∅ (ne_Mappings ev !! entityType) !! stringID with
    | None => base RepairItemQuarantined None None
    | Some target =>
        let holder := targetHolder occupancy (ob_collections entry) target k in
        base RepairItemPending (Some target)
          (if decide (holder = "") then None else Some (splitKey holder).1.2)
    end.

(** The final sort: by entity type, then string id. *)
Definition audit_le (a b : RepairItem) : Prop :=
  if decide (it_EntityType a = it_EntityType b) then str_le (it_StringID a) (it_StringID b)
  else str_le (it_EntityType a) (it_EntityType b).
#[export] Instance audit_le_dec a b : Decision (audit_le a b).
Proof. unfold audit_le. case_decide; apply _. Defined.

Definition auditNamespace (ev : NamespaceEvidence) : list RepairItem :=
  let t := foldl count_point {| ta_byIdentity := ∅; ta_occupancy := ∅ |} (ne_Points ev) in
  let byIdentity := add_mappings (ne_Mappings ev) (ta_byIdentity t) in
  merge_sort audit_le ((λ p, audit_item ev (ta_occupancy t) p.1 p.2) <$> map_to_list byIdentity).

Definition retarget_item (fresh : Z) (i : RepairItem) : RepairItem :=
  {| it_RunID := it_RunID i; it_Namespace := it_Namespace i; it_EntityType := it_EntityType i;
     it_StringID := it_StringID i; it_OldNumericIDs := it_OldNumericIDs i;
     it_TargetNumericID := Some fresh;
     it_Sources := {| so_collections := so_collections (it_Sources i); so_dense := so_dense (it_Sources i);
                      so_conflict := so_conflict (it_Sources i);
                      so_reassigned_from := it_TargetNumericID i |};
     it_PayloadHash := it_PayloadHash i; it_VectorHash := it_VectorHash i; it_State := it_State i |}.

(** The items are updated in place; an error leaves the rest as it is. *)
Fixpoint reassignContestedTargets (items : list RepairItem) : M W (list RepairItem * error) :=
  match items with
  | [] => ret ([], [])
  | item :: rest =>
      if negb (Resolved item) || bool_decide (TargetConflictWith item = "") then
        let! r := reassignContestedTargets rest in ret (item :: r.1, r.2)
      else
        let! ' (fresh, e) := NextNumericID in
        if negb (nil_err e) then ret (item :: rest, e)
        else let! r := reassignContestedTargets rest in ret (retarget_item fresh item :: r.1, r.2)
  end.

Definition supersedable (st : RepairRunState) : bool :=
  negb (bool_decide (st = RepairRunApplying)) && negb (bool_decide (st = RepairRunVerifying)).

Record AuditReport := {
  ar_RunID : Z;
  ar_ManifestHash : string;
  ar_Total : Z;
  ar_Resolved : Z;
  ar_NeedsRepair : Z;
  ar_Quarantined : list RepairItem;
}.

Section service.
Context `{RepairDigests}.

(** The interfaces of the service. *)
Record Ports := {
  po_Namespaces : M W (list string * error);
  po_Evidence : string → M W (NamespaceEvidence + error);
  po_RebuildSparse : option (string → M W error);
  po_fenced : bool;  (* a [GlobalFence] is wired *)
}.
Context (ports : Ports).

Fixpoint collect_items (namespaces : list string) : M W (list RepairItem + error) :=
  match namespaces with
  | [] => ret (inl [])
  | ns :: rest =>
      let! ev := po_Evidence ports ns in
      match ev with
      | inr e => ret (inr e)
      | inl ev =>
          let! r := collect_items rest in
          match r with
          | inr e => ret (inr e)
          | inl items => ret (inl (auditNamespace ev ++ items))
          end
      end
  end.

Definition audit_report (run : RepairRun) (items : list RepairItem) : AuditReport :=
  let quarantined := filter (λ i, it_State i = RepairItemQuarantined) items in
  let others := filter (λ i, it_State i ≠ RepairItemQuarantined) items in
  {| ar_RunID := run_ID run; ar_ManifestHash := run_ManifestHash run;
     ar_Total := Z.of_nat (length items); ar_Resolved := Z.of_nat (length others);
     ar_NeedsRepair := Z.of_nat (length (filter (λ i, NeedsCopy i = true) others));
     ar_Quarantined := quarantined |}.

(** The part of [Audit] after the previous run is out of the way. *)
Definition audit_body : M W (option AuditReport * error) :=
  let! ' (namespaces, e) := po_Namespaces ports in
  if negb (nil_err e) then ret (None, e)
  else
    let! items := collect_items namespaces in
    match items with
    | inr e => ret (None, e)
    | inl items =>
        let! ' (items, e) := reassignContestedTargets items in
        if negb (nil_err e) then ret (None, e)
        else
          let! ' (run, e) := CreateRun items in
          match run with
          | None => ret (None, e)
          | Some run => ret (Some (audit_report run items), [])
          end
    end.

Definition Audit : M W (option AuditReport * error) :=
  let! ' (active, e) := ActiveRun in
  if negb (nil_err e) then ret (None, e)
  else
    match active with
    | Some run =>
        if negb (supersedable (run_State run)) then ret (None, [ErrRepairRunActive])
        else
          let! e := SetRunState (run_ID run) RepairRunFailed in
          if negb (nil_err e) then ret (None, e) else audit_body
    | None => audit_body
    end.

(** ** Snapshots and apply *)

Definition PrepareSnapshots (runID : Z) (pgRef : string) (refs : gmap string string) : M W error :=
  let! ' (run, e) := GetRun runID in
  match run with
  | None => ret e
  | Some run =>
      if negb (bool_decide (run_State run = RepairRunAudited))
         && negb (bool_decide (run_State run = RepairRunSnapshotting))
      then ret [ErrRunState]
      else
        let! e := RecordSnapshots runID pgRef refs in
        if negb (nil_err e) then ret e else SetRunState runID RepairRunSnapshotting
  end.

Definition missingSnapshotCollections (items : list RepairItem) (refs : gmap string string) : list string :=
  let needed := list_to_set (concat (itemCollections <$> items)) : gset string in
  sort_strings (filter (λ c, trims_to_empty (default "" (refs !! c)) = true) (elements needed)).

Definition filterState (items : list RepairItem) (st : RepairItemState) : list RepairItem :=
  filter (λ i, it_State i = st) items.

(** The two nested loops of [applyItem], over collections and old ids. *)
Fixpoint copy_olds (collection : string) (target : Z) (olds : list Z) : M W error :=
  match olds with
  | [] => ret []
  | old :: rest =>
      if decide (old = target) then copy_olds collection target rest
      else
        let! e := mover_CopyPointVerified collection old target in
        if negb (nil_err e) then ret e else copy_olds collection target rest
  end.

Fixpoint copy_all (collections : list string) (target : Z) (olds : list Z) : M W error :=
  match collections with
  | [] => ret []
  | c :: rest =>
      let! e := copy_olds c target olds in
      if negb (nil_err e) then ret e else copy_all rest target olds
  end.

Fixpoint delete_olds (collection : string) (target : Z) (olds : list Z) : M W error :=
  match olds with
  | [] => ret []
  | old :: rest =>
      if decide (old = target) then delete_olds collection target rest
      else
        let! e := mover_DeletePoint collection old in
        if negb (nil_err e) then ret e else delete_olds collection target rest
  end.

Fixpoint delete_all (collections : list string) (target : Z) (olds : list Z) : M W error :=
  match collections with
  | [] => ret []
  | c :: rest =>
      let! e := delete_olds c target olds in
      if negb (nil_err e) then ret e else delete_all rest target olds
  end.

Definition applyItem (item : RepairItem) : M W error :=
  if negb (NeedsCopy item) then SetItemState item RepairItemCleaned
  else
    let target := default 0%Z (it_TargetNumericID item) in
    let collections := copyableCollections item in
    let! e := copy_all collections target (it_OldNumericIDs item) in
    if negb (nil_err e) then ret e
    else
      let! e := SetItemState item RepairItemCopied in
      if negb (nil_err e) then ret e
      else
        let! e := RetargetMapping (it_Namespace item) (it_EntityType item) (it_StringID item) target in
        if negb (nil_err e) then ret e
        else
          let! e := delete_all collections target (it_OldNumericIDs item) in
          if negb (nil_err e) then ret e else SetItemState item RepairItemCleaned.

Definition recordFailure (runID : Z) (item : option RepairItem) : M W () :=
  (match item with
   | Some i => SetItemState i RepairItemFailed ;;! ret tt
   | None => ret tt
   end) ;;!
  SetRunState runID RepairRunFailed ;;! ret tt.

Fixpoint apply_items (runID : Z) (items : list RepairItem) : M W error :=
  match items with
  | [] => ret []
  | item :: rest =>
      if bool_decide (it_State item = RepairItemCleaned) || bool_decide (it_State item = RepairItemVerified)
      then apply_items runID rest
      else
        let! e := applyItem item in
        if negb (nil_err e) then recordFailure runID (Some item) ;;! ret e
        else apply_items runID rest
  end.

Fixpoint rebuild_all (runID : Z) (rebuild : string → M W error) (namespaces : list string) : M W error :=
  match namespaces with
  | [] => ret []
  | ns :: rest =>
      let! e := rebuild ns in
      if negb (nil_err e) then recordFailure runID None ;;! ret e
      else
        let! e := RecordRebuiltNamespace runID ns in
        if negb (nil_err e) then recordFailure runID None ;;! ret e
        else rebuild_all runID rebuild rest
  end.

Definition sortedNamespaces (items : list RepairItem) : list string :=
  sort_strings (elements (list_to_set (it_Namespace <$> items) : gset string)).

(** The guards of [applyFenced], in order. *)
Definition apply_guard (run : RepairRun) (items : list RepairItem) : error :=
  if negb (bool_decide (ManifestHash items = run_ManifestHash run)) then [ErrManifestChanged]
  else if negb (bool_decide (filterState items RepairItemQuarantined = [])) then [ErrQuarantinedItems]
  else if bool_decide (run_PGSnapshotRef run = "") then [ErrSnapshotsRequired]
  else if negb (bool_decide (missingSnapshotCollections items (run_QdrantSnapshotRefs run) = []))
  then [ErrSnapshotsRequired] else [].

(** [applyFenced] after its guards: the items, then the sparse rebuilds. *)
Definition rebuild_phase (runID : Z) (items : list RepairItem) : M W error :=
  match po_RebuildSparse ports with
  | Some rebuild => rebuild_all runID rebuild (sortedNamespaces items)
  | None => ret []
  end.

Definition apply_manifest (runID : Z) (items : list RepairItem) : M W error :=
  let! e := SetRunState runID RepairRunApplying in
  if negb (nil_err e) then ret e
  else
    let! e := apply_items runID items in
    if negb (nil_err e) then ret e
    else
      let! e := rebuild_phase runID items in
      if negb (nil_err e) then ret e else SetRunState runID RepairRunVerifying.

Definition applyFenced (runID : Z) : M W error :=
  let! ' (run, e) := GetRun runID in
  match run with
  | None => ret e
  | Some run =>
      let! ' (items, e) := ListItems runID in
      if negb (nil_err e) then ret e
      else
        let e := apply_guard run items in
        if negb (nil_err e) then ret e else apply_manifest runID items
  end.

Definition Apply (ctx : Ctx) (runID : Z) : M W error :=
  if negb (po_fenced ports) then ret [ErrFenceRequired]
  else
    let! r := WithGlobalExclusive tt ctx (λ _ _, let! e := applyFenced runID in ret (tt, e)) in
    ret r.2.

Definition Resume (ctx : Ctx) (runID : Z) : M W error :=
  let! ' (run, e) := GetRun runID in
  match run with
  | None => ret e
  | Some run =>
      if bool_decide (run_State run = RepairRunComplete) then ret []
      else if bool_decide (run_State run = RepairRunAudited) then ret [ErrRunState]
      else Apply ctx runID
  end.

(** ** Verification *)

(** The checks of one target point; the count of problems is what matters. *)
Definition check_target (item : RepairItem) (p : InspectedPoint) : nat :=
  (if negb (bool_decide (it_VectorHash item = "")) && negb (bool_decide (ip_VectorHash p = it_VectorHash item))
   then 1 else 0) +
  (if negb (bool_decide (it_PayloadHash item = "")) && negb (bool_decide (ip_PayloadHash p = it_PayloadHash item))
   then 1 else 0).

Fixpoint check_olds (collection : string) (target : Z) (olds : list Z) : M W nat :=
  match olds with
  | [] => ret 0
  | old :: rest =>
      if decide (old = target) then check_olds collection target rest
      else
        let! ' (absent, e) := mover_PointAbsent collection old in
        let! n := check_olds collection target rest in
        ret (if negb (nil_err e) then S n else if negb absent then S n else n)
  end.

Fixpoint check_collections (item : RepairItem) (target : Z) (collections : list string) : M W nat :=
  match collections with
  | [] => ret 0
  | c :: rest =>
      let! r := mover_InspectPoint c target in
      match r with
      | inr _ => let! n := check_collections item target rest in ret (S n)
      | inl None => let! n := check_collections item target rest in ret (S n)
      | inl (Some p) =>
          if negb (bool_decide (ip_StringID p = it_StringID item)) then
            let! n := check_collections item target rest in ret (S n)
          else
            let! m := check_olds c target (it_OldNumericIDs item) in
            let! n := check_collections item target rest in
            ret (check_target item p + m + n)
      end
  end.

(** The number of problems [verifyItem] reports. *)
Definition verifyItem (item : RepairItem) : M W nat :=
  if negb (NeedsCopy item) then ret 0
  else check_collections item (default 0%Z (it_TargetNumericID item)) (copyableCollections item).

Definition unrebuiltNamespaces (items : list RepairItem) (rebuilt : list string) : list string :=
  sort_strings (filter (λ ns, ns ∉ rebuilt) (remove_dups (it_Namespace <$> items))).

Record VerifyReport := {
  vr_Checked : Z;
  vr_Unmoved : list RepairItem;
  vr_Remaining : list RepairItem;
  vr_Problems : nat;
}.

Fixpoint verify_items (items : list RepairItem) (rep : VerifyReport) : M W (VerifyReport + error) :=
  match items with
  | [] => ret (inl rep)
  | item :: rest =>
      if negb (bool_decide (it_State item = RepairItemCleaned))
         && negb (bool_decide (it_State item = RepairItemVerified)) then
        verify_items rest {| vr_Checked := vr_Checked rep; vr_Unmoved := vr_Unmoved rep;
                             vr_Remaining := vr_Remaining rep ++ [item]; vr_Problems := vr_Problems rep |}
      else
        let! problems := verifyItem item in
        if (0 <? problems)%nat then
          verify_items rest {| vr_Checked := vr_Checked rep; vr_Unmoved := vr_Unmoved rep ++ [item];
                               vr_Remaining := vr_Remaining rep;
                               vr_Problems := vr_Problems rep + problems |}
        else
          let! e := SetItemState item RepairItemVerified in
          if negb (nil_err e) then ret (inr e) else verify_items rest rep
  end.

Definition Verify (runID : Z) : M W (VerifyReport + error) :=
  let! ' (items, e) := ListItems runID in
  if negb (nil_err e) then ret (inr e)
  else
    let! ' (run, e) := GetRun runID in
    match run with
    | None => ret (inr e)
    | Some run =>
        let unrebuilt :=
          match po_RebuildSparse ports with
          | Some _ => length (unrebuiltNamespaces items (run_RebuiltNamespaces run))
          | None => 0
          end in
        let! r := verify_items items {| vr_Checked := Z.of_nat (length items); vr_Unmoved := [];
                                        vr_Remaining := []; vr_Problems := unrebuilt |} in
        match r with
        | inr e => ret (inr e)
        | inl rep =>
            let done := bool_decide (vr_Remaining rep = []) && bool_decide (vr_Unmoved rep = [])
                        && (vr_Problems rep =? 0)%nat in
            let! e := SetRunState runID (if done then RepairRunComplete else RepairRunFailed) in
            if negb (nil_err e) then ret (inr e) else ret (inl rep)
        end
    end.
End service.
