(* ===== verification/RepairSafety.v ===== *)
(** * The identity repair: what it preserves

    Theorems about [Repair]: the apply phase never loses a vector whatever
    fails, it refuses unreviewed or uncovered manifests, a complete
    verification means what it says, and where it goes wrong. *)

From stdpp Require Import base tactics gmap strings list sorting.
From Stdlib Require Import ZArith Lia.
From S2P Require Import Prelude GoLib NsNames NsLedger NsService Utf8 RepairStore Repair.

Section safety.
Context {RD : RepairDigests}.

Abbreviation points w := (rs_points (w_ext w)).

(** ** Single commands *)

Lemma next_q_points w : points (next_q w).2 = points w ∧ rs_items (w_ext (next_q w).2) = rs_items (w_ext w).
Proof. unfold next_q. by destruct (rs_q (w_ext w)). Qed.

Lemma readPoint_points c i w :
  points (readPoint c i w).2 = points w ∧
  rs_items (w_ext (readPoint c i w).2) = rs_items (w_ext w) ∧
  (∀ r, (readPoint c i w).1 = inl r → r = points w !! (c, i)) ∧
  (∀ e, (readPoint c i w).1 = inr e → e ≠ []).
Proof.
  unfold readPoint, bind. destruct (next_q_points w) as [Hp Hi].
  destruct (next_q w) as [[| |p] w1]; go; cbn [snd] in *; unfold gets; go;
    (split_and!; [done|done|intros r Hr|intros e He]); simplify_eq; congruence.
Qed.

Lemma upsert_points c i p w :
  rs_items (w_ext (upsert c i p w).2) = rs_items (w_ext w) ∧
  ((upsert c i p w).1 ≠ [] ∧ points (upsert c i p w).2 = points w ∨
   (upsert c i p w).1 = [] ∧ ∃ p', points (upsert c i p w).2 = <[(c, i) := p']> (points w)).
Proof.
  unfold upsert, bind. destruct (next_q_points w) as [Hp Hi].
  destruct (next_q w) as [[| |p'] w1]; cbn [fst snd] in *; go; unfold on_state, modify;
    cbn [snd fst w_ext set_ext set_points rs_points rs_items]; (split; [done|]).
  - right. split; [done|]. exists p. by rewrite Hp.
  - by left.
  - right. split; [done|]. exists p'. by rewrite Hp.
Qed.

Lemma mover_Delete_spec c i w :
  let '(e, w') := mover_DeletePoint c i w in
  rs_items (w_ext w') = rs_items (w_ext w) ∧
  (points w' = points w ∨ points w' = delete (c, i) (points w)).
Proof.
  unfold mover_DeletePoint. destruct (i <? 1)%Z; go; [by auto|].
  unfold DeletePoint, bind. destruct (next_q_points w) as [Hp Hi].
  destruct (next_q w) as [[| |p'] w1]; cbn [fst snd] in *; go; unfold on_state, modify;
    cbn [snd fst w_ext set_ext set_points rs_points rs_items]; (split; [done|]); [right|left|right]; congruence.
Qed.

(** PostgreSQL statements do not touch the points. *)
Lemma pg_exec_spec f w :
  (∀ s, rs_points (f s) = rs_points s) →
  points (pg_exec f w).2 = points w ∧
  (rs_items (w_ext (pg_exec f w).2) = rs_items (w_ext w) ∨
   rs_items (w_ext (pg_exec f w).2) = rs_items (f (w_ext w))).
Proof.
  intros Hf. unfold pg_exec, pg, bind. pose proof (sbf_core _ _ (fault_frame w)) as [_ _ He]. revert He.
  destruct (fault w) as [[] w1]; go; intros He; [by rewrite He; auto|].
  cbn [w_ext set_ext]. rewrite Hf, He. auto.
Qed.

(** The places of an item. *)
Definition target_of (item : RepairItem) : Z := default 0%Z (it_TargetNumericID item).
Definition item_place (item : RepairItem) (c : string) (i : Z) : Prop :=
  c ∈ copyableCollections item ∧ (i = target_of item ∨ i ∈ it_OldNumericIDs item).

(** Items without their progress. *)
Definition manifest (w : W) : list RepairItem := set_item_state RepairItemPending <$> rs_items (w_ext w).

(** PostgreSQL statements of the apply phase: no point moves and the manifest
    stays as it was reviewed. *)
Definition bookkeeping (w w' : W) : Prop := points w' = points w ∧ manifest w' = manifest w.

#[export] Instance bookkeeping_preorder : PreOrder bookkeeping.
Proof. split; [by intros w|]. intros w1 w2 w3 [] []. split; congruence. Qed.

Lemma SetItemState_book item st w : bookkeeping w (SetItemState item st w).2.
Proof.
  unfold bookkeeping, manifest, SetItemState.
  destruct (pg_exec_spec (λ s, set_items ((λ i, if decide (item_key i = item_key item)
    then set_item_state st i else i) <$> rs_items s) s) w ltac:(done)) as [Hp [Hi|Hi]]; (split; [done|]);
    rewrite Hi; [done|]. simpl. rewrite <- list_fmap_compose. apply list_fmap_ext. intros _ i _. simpl.
  by case_decide.
Qed.

Lemma SetRunState_book id st w : bookkeeping w (SetRunState id st w).2.
Proof.
  unfold bookkeeping, manifest, SetRunState.
  destruct (pg_exec_spec (λ s, set_runs (alter (set_run_state st) id (rs_runs s)) s) w ltac:(done))
    as [Hp [Hi|Hi]]; (split; [done|]); by rewrite Hi.
Qed.

Lemma RecordRebuilt_book id ns w : bookkeeping w (RecordRebuiltNamespace id ns w).2.
Proof.
  unfold bookkeeping, manifest, RecordRebuiltNamespace.
  match goal with |- context [pg_exec ?f w] =>
    destruct (pg_exec_spec f w ltac:(done)) as [Hp [Hi|Hi]] end; (split; [done|]); by rewrite Hi.
Qed.

Lemma RetargetMapping_book ns et sid n w : bookkeeping w (RetargetMapping ns et sid n w).2.
Proof.
  unfold bookkeeping, manifest, RetargetMapping, pg, bind.
  pose proof (sbf_core _ _ (fault_frame w)) as [_ _ He]. revert He.
  destruct (fault w) as [[] w1]; go; intros He; [by rewrite He|].
  cbn [w_ext set_ext]. rewrite He. by destruct (rs_mappings (w_ext w) !! (ns, et, sid)).
Qed.

Lemma recordFailure_book id item w : bookkeeping w (recordFailure id item w).2.
Proof.
  unfold recordFailure, bind. destruct item as [i|]; go.
  - etrans; [apply (SetItemState_book i RepairItemFailed)|apply SetRunState_book].
  - apply SetRunState_book.
Qed.

Lemma GetRun_same id w :
  w_ext (GetRun id w).2 = w_ext w ∧
  (∀ run, (GetRun id w).1.1 = Some run → rs_runs (w_ext w) !! id = Some run) ∧
  ((GetRun id w).1.1 = None → (GetRun id w).1.2 ≠ []).
Proof.
  unfold GetRun, pg, bind. pose proof (sbf_core _ _ (fault_frame w)) as [_ _ He]. revert He.
  destruct (fault w) as [[] w1]; go; intros He; [done|]. cbn [w_ext set_ext]. rewrite He.
  destruct (rs_runs (w_ext w) !! id); split_and!; naive_solver.
Qed.

Lemma ListItems_same id w :
  w_ext (ListItems id w).2 = w_ext w ∧
  ((ListItems id w).1.2 = [] →
   (ListItems id w).1.1 = merge_sort item_le (filter (λ i, it_RunID i = id) (rs_items (w_ext w)))).
Proof.
  unfold ListItems, pg, bind. pose proof (sbf_core _ _ (fault_frame w)) as [_ _ He]. revert He.
  destruct (fault w) as [[] w1]; go; intros He; [done|]. cbn [w_ext set_ext]. by rewrite He.
Qed.

(** Apply changes nothing that is not reviewed and covered. Whatever fails,
    if an apply changed any durable state then the run exists, its stored
    manifest still has the digest the operator reviewed, none of its items is
    quarantined, a PostgreSQL backup is recorded, and every collection any of
    its items was seen in has a recorded snapshot that is not blank. *)
Theorem apply_needs_reviewed_manifest ports runID w :
  let w' := (applyFenced ports runID w).2 in
  w_ext w' = w_ext w ∨
  ∃ run, rs_runs (w_ext w) !! runID = Some run ∧
    let items := merge_sort item_le (filter (λ i, it_RunID i = runID) (rs_items (w_ext w))) in
    ManifestHash items = run_ManifestHash run ∧
    (∀ i, i ∈ items → it_State i ≠ RepairItemQuarantined) ∧
    run_PGSnapshotRef run ≠ "" ∧
    (∀ i c, i ∈ items → c ∈ itemCollections i →
       trims_to_empty (default "" (run_QdrantSnapshotRefs run !! c)) = false).
Proof.
  cbv zeta. unfold applyFenced, bind. destruct (GetRun_same runID w) as (He1 & Hr1 & _).
  destruct (GetRun runID w) as [[run e1] w1]; cbn [fst snd] in *. go.
  destruct run as [run|]; [|by left]. specialize (Hr1 run eq_refl).
  destruct (ListItems_same runID w1) as [He2 Hl].
  destruct (ListItems runID w1) as [[items e2] w2]; cbn [fst snd] in *. go.
  destruct e2 as [|x e2]; go; [|left; congruence]. specialize (Hl eq_refl). rewrite He1 in Hl.
  destruct (apply_guard run items) as [|x eg] eqn:Hg; go; [|left; congruence].
  right. exists run. split; [done|]. rewrite <- Hl. revert Hg. unfold apply_guard.
  case_bool_decide as Hhash; simpl; [|done]. case_bool_decide as Hq; simpl; [|done].
  case_bool_decide as Hpg; [done|]. case_bool_decide as Hs; simpl; [|done]. intros _.
  split_and!; [done| |done|].
  - intros i Hi Hst. assert (i ∈ filterState items RepairItemQuarantined) as Hin.
    { apply list_elem_of_filter. done. }
    rewrite Hq in Hin. set_solver.
  - intros i c Hi Hc. destruct (trims_to_empty _) eqn:Ht; [|done]. exfalso.
    assert (c ∈ missingSnapshotCollections items (run_QdrantSnapshotRefs run)) as Hin.
    { unfold missingSnapshotCollections. rewrite elem_of_sort_strings, list_elem_of_filter. split; [done|].
      rewrite elem_of_elements, elem_of_list_to_set, list_elem_of_In, in_concat.
      exists (itemCollections i). rewrite <- !list_elem_of_In. split; [|done].
      apply list_elem_of_fmap. by exists i. }
    rewrite Hs in Hin. set_solver.
Qed.

(** ** Verification *)

Lemma mover_Absent_spec c i w :
  let '((absent, e), w') := mover_PointAbsent c i w in
  bookkeeping w w' ∧ (e = [] → absent = true → points w !! (c, i) = None).
Proof.
  unfold mover_PointAbsent. destruct (i <? 1)%Z; go; [done|]. unfold PointAbsent, bind.
  destruct (readPoint_points c i w) as (Hp & Hi & Hr & _).
  assert (bookkeeping w (readPoint c i w).2) as Hb by (split; [done|unfold manifest; by rewrite Hi]).
  destruct (readPoint c i w) as [[[p|]|e] w1]; go; cbn [fst snd] in *; (split; [done|]); [done| |done].
  intros _ _. symmetry. by apply Hr.
Qed.

Lemma mover_Inspect_spec c i w :
  let '(r, w') := mover_InspectPoint c i w in
  bookkeeping w w' ∧
  (∀ ip, r = inl (Some ip) → ∃ p, points w !! (c, i) = Some p ∧ ip_StringID ip = string_field p (payloadIDField c) ∧
     ip_PayloadHash ip = HashPayload (pt_payload p) ∧ ip_VectorHash ip = HashVectors (pt_vectors p)).
Proof.
  unfold mover_InspectPoint. destruct (i <? 1)%Z; go; [done|]. unfold InspectPoint, bind.
  destruct (readPoint_points c i w) as (Hp & Hi & Hr & _).
  assert (bookkeeping w (readPoint c i w).2) as Hb by (split; [done|unfold manifest; by rewrite Hi]).
  destruct (readPoint c i w) as [[[p|]|e] w1]; go; cbn [fst snd] in *; (split; [done|]); [|done|done].
  intros ip [= <-]. exists p. split_and!; [symmetry; by apply Hr|done..].
Qed.

Lemma check_olds_spec c target olds w :
  let '(n, w') := check_olds c target olds w in
  bookkeeping w w' ∧ (n = 0%nat → ∀ o, o ∈ olds → o ≠ target → points w !! (c, o) = None).
Proof.
  revert w. induction olds as [|o olds IH]; intros w; cbn [check_olds]; go.
  { split; [done|]. set_solver. }
  case_decide as Ho.
  { specialize (IH w). destruct (check_olds c target olds w) as [n w']. destruct IH as [? IH].
    split; [done|]. intros Hn o' [->|?]%elem_of_cons ?; [done|]. by apply IH. }
  unfold bind. pose proof (mover_Absent_spec c o w) as H1.
  destruct (mover_PointAbsent c o w) as [[absent e] w1]. destruct H1 as [Hb1 Ha]. go.
  specialize (IH w1). destruct (check_olds c target olds w1) as [n w2]. destruct IH as [Hb2 IH]. go.
  split; [by etrans|]. destruct e as [|x e]; go; [|done]. destruct absent; go; [|done].
  intros Hn o' [->|?]%elem_of_cons ?; [by apply Ha|]. destruct Hb1 as [<- _]. by apply IH.
Qed.

(** An item is on its target in a collection. *)
Definition moved (item : RepairItem) (c : string) (q : gmap (string * Z) point) : Prop :=
  (∃ p, q !! (c, target_of item) = Some p ∧ string_field p (payloadIDField c) = it_StringID item ∧
     (it_VectorHash item ≠ "" → HashVectors (pt_vectors p) = it_VectorHash item) ∧
     (it_PayloadHash item ≠ "" → HashPayload (pt_payload p) = it_PayloadHash item)) ∧
  (∀ o, o ∈ it_OldNumericIDs item → o ≠ target_of item → q !! (c, o) = None).

Lemma check_collections_spec item cols w :
  let '(n, w') := check_collections item (target_of item) cols w in
  bookkeeping w w' ∧ (n = 0%nat → ∀ c, c ∈ cols → moved item c (points w)).
Proof.
  revert w. induction cols as [|c cols IH]; intros w; cbn [check_collections]; go.
  { split; [done|]. set_solver. }
  unfold bind. pose proof (mover_Inspect_spec c (target_of item) w) as H1.
  destruct (mover_InspectPoint c (target_of item) w) as [r w1]. destruct H1 as [Hb1 Hip].
  assert (∀ w2, bookkeeping w w2 →
    let '(n, w') := check_collections item (target_of item) cols w2 in
    bookkeeping w w' ∧ (n = 0%nat → ∀ c, c ∈ cols → moved item c (points w))) as IH'.
  { intros w2 Hb. specialize (IH w2). destruct (check_collections item (target_of item) cols w2) as [n w'].
    destruct IH as [? IH]. split; [by etrans|]. destruct Hb as [<- _]. done. }
  go. destruct r as [[ip|]|e].
  2,3: specialize (IH' w1 Hb1); destruct (check_collections item (target_of item) cols w1) as [n w'];
       go; by destruct IH'.
  destruct (Hip ip eq_refl) as (p & Hp & Hid & Hph & Hvh).
  case_bool_decide as Hs; go.
  2: { specialize (IH' w1 Hb1). destruct (check_collections item (target_of item) cols w1) as [n w']. go.
       by destruct IH'. }
  pose proof (check_olds_spec c (target_of item) (it_OldNumericIDs item) w1) as H2.
  destruct (check_olds c (target_of item) (it_OldNumericIDs item) w1) as [m w2]. destruct H2 as [Hb2 Ho]. go.
  specialize (IH' w2 ltac:(by etrans)).
  destruct (check_collections item (target_of item) cols w2) as [n w']. destruct IH' as [Hb3 IH']. go.
  split; [done|]. intros Hz c' [->|Hc']%elem_of_cons; [|apply IH'; [lia|done]].
  assert (check_target item ip = 0%nat ∧ m = 0%nat) as [Hct Hm] by lia. split.
  - exists p. split; [done|]. split; [congruence|]. revert Hct. unfold check_target.
    rewrite <- Hvh, <- Hph. repeat case_bool_decide; simpl; try lia; intros; split; intros; congruence.
  - intros o Hin Hne. destruct Hb1 as [<- _]. by apply Ho.
Qed.

Lemma verify_items_spec items rep w :
  let '(r, w') := verify_items items rep w in
  points w' = points w ∧
  (∀ rep', r = inl rep' → vr_Remaining rep' = [] → vr_Unmoved rep' = [] → vr_Problems rep' = 0%nat →
     vr_Remaining rep = [] ∧ vr_Unmoved rep = [] ∧ vr_Problems rep = 0%nat ∧
     ∀ item, item ∈ items → (it_State item = RepairItemCleaned ∨ it_State item = RepairItemVerified) ∧
       (NeedsCopy item = true → ∀ c, c ∈ copyableCollections item → moved item c (points w))).
Proof.
  revert rep w. induction items as [|item items IH]; intros rep w; cbn [verify_items].
  { go. split; [done|]. intros rep' [= <-]. set_solver. }
  destruct (_ && _) eqn:Hst.
  { match goal with |- context [verify_items items ?r w] =>
      specialize (IH r w); destruct (verify_items items r w) as [r' w'] end.
    destruct IH as [Hp IH]. split; [done|]. intros rep' Hr H1 H2 H3.
    destruct (IH rep' Hr H1 H2 H3) as (Hrem & _). simpl in Hrem. by destruct (vr_Remaining rep). }
  assert (it_State item = RepairItemCleaned ∨ it_State item = RepairItemVerified) as Hst'.
  { apply andb_false_iff in Hst as [Hst|Hst]; apply negb_false_iff, bool_decide_eq_true in Hst; auto. }
  unfold bind. assert (let '(n, w1) := verifyItem item w in bookkeeping w w1 ∧
    (n = 0%nat → NeedsCopy item = true → ∀ c, c ∈ copyableCollections item → moved item c (points w))) as Hv.
  { unfold verifyItem. destruct (NeedsCopy item); go; [|done].
    pose proof (check_collections_spec item (copyableCollections item) w) as H1. unfold target_of in H1.
    destruct (check_collections item _ (copyableCollections item) w) as [n w1].
    destruct H1 as [? H1]. split; [done|]. intros Hn _. by apply H1. }
  destruct (verifyItem item w) as [n w1]. destruct Hv as [Hb1 Hmv]. go.
  destruct (Nat.ltb_spec 0 n) as [Hn|Hn].
  { match goal with |- context [verify_items items ?r w1] =>
      specialize (IH r w1); destruct (verify_items items r w1) as [r' w'] end.
    destruct IH as [Hp IH]. split; [destruct Hb1; congruence|]. intros rep' Hr H1 H2 H3.
    destruct (IH rep' Hr H1 H2 H3) as (_ & Hun & _). simpl in Hun. by destruct (vr_Unmoved rep). }
  pose proof (SetItemState_book item RepairItemVerified w1) as [Hp2 _].
  destruct (SetItemState item RepairItemVerified w1) as [[|x e] w2]; cbn [snd] in *; go.
  2: { split; [destruct Hb1; congruence|done]. }
  specialize (IH rep w2). destruct (verify_items items rep w2) as [r' w'].
  destruct IH as [Hp IH]. destruct Hb1 as [Hp1 _]. split; [congruence|]. intros rep' Hr H1 H2 H3.
  destruct (IH rep' Hr H1 H2 H3) as (? & ? & ? & Hall). split_and!; [done..|].
  intros it [->|Hit]%elem_of_cons; [split; [done|]; apply Hmv; lia|].
  destruct (Hall it Hit) as [? Hm]. split; [done|]. rewrite Hp2, Hp1 in Hm. done.
Qed.

(** Verification is sound. Whatever fails, when [Verify] reports nothing
    remaining, nothing unmoved and no problem - the only case in which it
    marks the run complete - then every item of the manifest was finished, and
    every item that had to move is, in every collection apply copies, on its
    target id with its own identity, the recorded vector and payload, and all
    its old ids are free. *)
Theorem verify_complete_sound ports runID w :
  let '(r, w') := Verify ports runID w in
  points w' = points w ∧
  ∀ rep, r = inl rep → vr_Remaining rep = [] → vr_Unmoved rep = [] → vr_Problems rep = 0%nat →
    ∀ item, item ∈ rs_items (w_ext w) → it_RunID item = runID →
      (it_State item = RepairItemCleaned ∨ it_State item = RepairItemVerified) ∧
      (NeedsCopy item = true → ∀ c, c ∈ copyableCollections item → moved item c (points w)).
Proof.
  unfold Verify, bind. destruct (ListItems_same runID w) as [He1 Hl].
  destruct (ListItems runID w) as [[items e1] w1]; cbn [fst snd] in *. go.
  destruct e1 as [|x e1]; go; [|by rewrite He1].
  destruct (GetRun_same runID w1) as (He2 & _). destruct (GetRun runID w1) as [[run e2] w2]; cbn [fst snd] in *. go.
  destruct run as [run|]; go; [|by rewrite He2, He1].
  match goal with |- context [verify_items items ?r w2] =>
    pose proof (verify_items_spec items r w2) as Hv;
    destruct (verify_items items r w2) as [r' w3] end.
  destruct Hv as [Hp Hv]. go. rewrite He2, He1 in Hp.
  destruct r' as [rep|e]; go; [|done].
  pose proof (SetRunState_book runID (if bool_decide (vr_Remaining rep = []) && bool_decide (vr_Unmoved rep = [])
    && (vr_Problems rep =? 0)%nat then RepairRunComplete else RepairRunFailed) w3) as [Hp4 _].
  match goal with |- context [SetRunState runID ?st w3] => destruct (SetRunState runID st w3) as [[|x e4] w4] end;
    cbn [snd] in *; go; (split; [congruence|]); [|done].
  intros rep' [= <-] H1 H2 H3. destruct (Hv rep eq_refl H1 H2 H3) as (_ & _ & _ & Hall).
  rewrite He2, He1 in Hall. intros item Hin Hid. apply Hall. rewrite (Hl eq_refl).
  rewrite merge_sort_Permutation, list_elem_of_filter. done.
Qed.

End safety.

Section copying.
Context {RD : RepairDigests} {RDok : RepairDigestsOk}.

Abbreviation points w := (rs_points (w_ext w)).

Definition empty_point : point := {| pt_payload := dexist (P := plain_keys) ∅ eq_refl; pt_vectors := None |}.

(** A verified copy that reports success is a copy; one that fails has at most
    written the target. *)
Lemma mover_Copy_spec c from to w :
  from ≠ to →
  let '(e, w') := mover_CopyPointVerified c from to w in
  rs_items (w_ext w') = rs_items (w_ext w) ∧
  (points w !! (c, from) = None → e ≠ [] ∧ points w' = points w) ∧
  (∀ p, points w !! (c, from) = Some p →
     (e = [] ∧ points w' = <[(c, to) := p]> (points w)) ∨
     (e ≠ [] ∧ (points w' = points w ∨ ∃ p', points w' = <[(c, to) := p']> (points w)))).
Proof.
  intros Hne. unfold mover_CopyPointVerified.
  destruct (from <? 1)%Z; go; [split_and!; auto|]. destruct (to <? 1)%Z; go; [split_and!; auto|].
  unfold CopyPointVerified. rewrite decide_False by done. unfold bind.
  destruct (readPoint_points c from w) as (Hp1 & Hi1 & Hr1 & He1).
  destruct (readPoint c from w) as [[src|e] w1]; go; cbn [fst snd] in *.
  2: { specialize (He1 e eq_refl). split_and!; [done|done|]. intros p Hp. right. auto. }
  specialize (Hr1 src eq_refl). destruct src as [src|]; go.
  2: { split_and!; [done|done|]. intros p Hp. congruence. }
  destruct (upsert_points c to src w1) as [Hi2 Hu]. destruct (upsert c to src w1) as [e2 w2].
  cbn [fst snd] in *. rewrite <- Hr1. destruct Hu as [[Hne2 Hp2]|[-> (p' & Hp2)]].
  { destruct e2 as [|x e2]; [done|]. go. split_and!; [congruence|done|]. intros p _.
    right. split; [done|left; congruence]. }
  go. destruct (readPoint_points c to w2) as (Hp3 & Hi3 & Hr3 & He3).
  destruct (readPoint c to w2) as [[cp|e] w3]; go; cbn [fst snd] in *.
  2: { specialize (He3 e eq_refl). split_and!; [congruence|done|]. intros p [= <-]. right. split; [done|].
       right. exists p'. congruence. }
  specialize (Hr3 cp eq_refl). rewrite Hp2, lookup_insert_eq in Hr3. subst cp. go.
  rewrite Hp1 in Hp2. rewrite Hp2 in Hp3.
  destruct (bool_decide (HashPayload (pt_payload p') = _)) eqn:H1; go.
  2: { split_and!; [congruence|done|]. intros p [= <-]. right. split; [done|]. right. by exists p'. }
  destruct (bool_decide (HashVectors (pt_vectors p') = _)) eqn:H2; go.
  2: { split_and!; [congruence|done|]. intros p [= <-]. right. split; [done|]. right. by exists p'. }
  split_and!; [congruence|done|]. intros p [= <-]. left. split; [done|].
  apply bool_decide_eq_true, (inj HashPayload) in H1. apply bool_decide_eq_true, (inj HashVectors) in H2.
  rewrite Hp3. f_equal. destruct p', src. simpl in *. congruence.
Qed.

(** ** Where an identity's vector is *)

(** In collection [c], the point [p] is the only one under the old ids (and a
    copy, or junk of a failed copy, may be at the target), or it is at the
    target and the old ids are free. *)
Definition held (olds : list Z) (target : Z) (c : string) (p : point) (q : gmap (string * Z) point) : Prop :=
  (∃ id, id ∈ olds ∧ id ≠ target ∧ q !! (c, id) = Some p ∧
     ∀ b, b ∈ olds → b ≠ id → b ≠ target → q !! (c, b) = None) ∨
  (q !! (c, target) = Some p ∧ ∀ b, b ∈ olds → b ≠ target → q !! (c, b) = None).

(** What the copy phase may change: targets. *)
Definition only_targets (cols : list string) (target : Z) (q q' : gmap (string * Z) point) : Prop :=
  ∀ c i, c ∉ cols ∨ i ≠ target → q' !! (c, i) = q !! (c, i).

(** What the delete phase may change: old ids disappear. *)
Definition only_olds_deleted (cols : list string) (olds : list Z) (target : Z)
    (q q' : gmap (string * Z) point) : Prop :=
  ∀ c i, q' !! (c, i) = q !! (c, i) ∨ (q' !! (c, i) = None ∧ c ∈ cols ∧ i ∈ olds ∧ i ≠ target).

#[local] Instance only_targets_preorder cols t : PreOrder (only_targets cols t).
Proof.
  split; [by intros q c i|]. intros q1 q2 q3 H12 H23 c i Hci. by rewrite (H23 c i Hci), (H12 c i Hci).
Qed.

#[local] Instance only_olds_preorder cols o t : PreOrder (only_olds_deleted cols o t).
Proof.
  split; [intros q c i; by left|]. intros q1 q2 q3 H12 H23 c i.
  destruct (H23 c i) as [->|?]; [apply H12|by right].
Qed.

Lemma only_targets_mono cols cols' t q q' : cols ⊆ cols' → only_targets cols t q q' → only_targets cols' t q q'.
Proof. intros Hs H c i [Hc|Hi]; apply H; [left|by right]. intros ?. by apply Hc, Hs. Qed.

Lemma only_olds_mono cols cols' o t q q' :
  cols ⊆ cols' → only_olds_deleted cols o t q q' → only_olds_deleted cols' o t q q'.
Proof. intros Hs H c i. destruct (H c i) as [?|(? & ? & ? & ?)]; [by left|right]. auto. Qed.

Lemma held_other olds target c p q q' :
  (∀ i, i = target ∨ i ∈ olds → q' !! (c, i) = q !! (c, i)) → held olds target c p q → held olds target c p q'.
Proof.
  intros Hq [(id & ? & ? & ? & Hb)|[? Hb]]; [left; exists id|right]; rewrite Hq by auto; split_and!; try done;
    intros b **; rewrite Hq by auto; auto.
Qed.

(** One copy keeps the vector. *)
Lemma held_copy olds target c p old w :
  old ∈ olds → old ≠ target →
  let '(e, w') := mover_CopyPointVerified c old target w in
  only_targets [c] target (points w) (points w') ∧
  (held olds target c p (points w) → held olds target c p (points w') ∧
     (e = [] → points w' !! (c, target) = Some p)).
Proof.
  intros Hold Hne. pose proof (mover_Copy_spec c old target w Hne) as H.
  destruct (mover_CopyPointVerified c old target w) as [e w'].
  destruct H as (_ & Hnone & Hsome).
  assert (∀ p', only_targets [c] target (points w) (<[(c, target) := p']> (points w))) as Hins.
  { intros p' c' i Hci. rewrite lookup_insert_ne; [done|]. intros [= <- <-]. set_solver. }
  assert (∀ p' id, id ≠ target → <[(c, target) := p']> (points w) !! (c, id) = points w !! (c, id)) as Hid.
  { intros p' id ?. rewrite lookup_insert_ne; [done|congruence]. }
  split.
  { destruct (points w !! (c, old)) as [po|] eqn:Ho; [|by destruct (Hnone eq_refl) as [_ ->]].
    destruct (Hsome po eq_refl) as [[_ ->]|[_ [->|[p' ->]]]]; done. }
  intros [(id & Hid1 & Hid2 & Hidp & Hb)|[Ht Hb]].
  - destruct (decide (old = id)) as [->|Hoi].
    + destruct (Hsome p Hidp) as [[-> ->]|[He Hw]].
      * rewrite lookup_insert_eq. split; [|done]. left. exists id.
        rewrite Hid by done. split_and!; try done. intros b **. rewrite Hid by done. auto.
      * split; [|done]. left. exists id. destruct Hw as [->|[p' ->]]; [done|].
        rewrite Hid by done. split_and!; try done. intros b **. rewrite Hid by done. auto.
    + destruct Hnone as [He ->]; [by apply Hb|]. split; [|done]. left. by exists id.
  - destruct Hnone as [He ->]; [by apply Hb|]. split; [|done]. by right.
Qed.

Lemma copy_olds_nop c target l w :
  Forall (λ o, o = target) l → copy_olds c target l w = ([], w).
Proof. induction 1 as [|o l -> _ IH]; [done|]. cbn [copy_olds]. by rewrite decide_True. Qed.

Lemma copy_olds_spec olds target c p l w :
  (∀ o, o ∈ l → o ∈ olds) →
  let '(e, w') := copy_olds c target l w in
  only_targets [c] target (points w) (points w') ∧
  (held olds target c p (points w) → held olds target c p (points w') ∧
     (e = [] → (∃ o, o ∈ l ∧ o ≠ target) → points w' !! (c, target) = Some p)).
Proof.
  revert w. induction l as [|o l IH]; intros w Hl.
  { cbn. split; [done|]. intros Hh. split; [done|]. intros _ (o & ? & _). set_solver. }
  cbn [copy_olds]. case_decide as Ho.
  { specialize (IH w ltac:(set_solver)). destruct (copy_olds c target l w) as [e w'].
    destruct IH as [IH1 IH2]. split; [done|]. intros Hh. destruct (IH2 Hh) as [? IH3]. split; [done|].
    intros He (o' & [->|?]%elem_of_cons & ?); [done|]. apply IH3; [done|by exists o']. }
  unfold bind. pose proof (held_copy olds target c p o w ltac:(set_solver) Ho) as H1.
  destruct (mover_CopyPointVerified c o target w) as [e1 w1].
  destruct H1 as [Hot1 Hh1]. destruct e1 as [|x e1]; go.
  2: { split; [done|]. intros Hh. split; [by apply Hh1|done]. }
  destruct (decide (Forall (λ o', o' = target) l)) as [Hnop|Hex].
  { rewrite copy_olds_nop by done. split; [done|]. intros Hh. destruct (Hh1 Hh) as [? ?]. auto. }
  apply not_Forall_Exists, Exists_exists in Hex as (o' & Ho' & Hne); [|apply _].
  specialize (IH w1 ltac:(set_solver)). destruct (copy_olds c target l w1) as [e w'].
  destruct IH as [IH1 IH2]. split; [by etrans|]. intros Hh. destruct (Hh1 Hh) as [Hh' _].
  destruct (IH2 Hh') as [? IH3]. split; [done|]. intros He _. apply IH3; [done|by exists o'].
Qed.

Lemma copy_all_spec olds target cols w :
  (∃ o, o ∈ olds ∧ o ≠ target) →
  let '(e, w') := copy_all cols target olds w in
  only_targets cols target (points w) (points w') ∧
  (∀ c p, held olds target c p (points w) → held olds target c p (points w') ∧
     (e = [] → c ∈ cols → points w' !! (c, target) = Some p)).
Proof.
  intros Hex. revert w. induction cols as [|c0 cols IH]; intros w.
  { cbn. split; [done|]. intros c p Hh. split; [done|]. set_solver. }
  cbn [copy_all]. unfold bind.
  pose proof (λ p, copy_olds_spec olds target c0 p olds w ltac:(auto)) as H1.
  destruct (copy_olds c0 target olds w) as [e1 w1].
  assert (only_targets [c0] target (points w) (points w1)) as Hot1 by (by destruct (H1 empty_point)).
  assert (∀ c p, held olds target c p (points w) → held olds target c p (points w1)) as Hh1.
  { intros c p Hh. destruct (decide (c = c0)) as [->|Hc]; [by apply H1|].
    eapply held_other; [|done]. intros i _. apply Hot1. left. set_solver. }
  destruct e1 as [|x e1]; go.
  2: { split; [eapply only_targets_mono; [|done]; set_solver|]. intros c p Hh. split; [by apply Hh1|done]. }
  specialize (IH w1). destruct (copy_all cols target olds w1) as [e w'].
  destruct IH as [IH1 IH2]. split.
  { etrans; [eapply only_targets_mono; [|exact Hot1]; set_solver|]. eapply only_targets_mono; [|exact IH1]. set_solver. }
  intros c p Hh. destruct (IH2 c p (Hh1 c p Hh)) as [Hh2 Ht]. split; [done|].
  intros He Hc. destruct (decide (c ∈ cols)) as [Hin|Hnin]; [by apply Ht|].
  assert (c = c0) as -> by set_solver. rewrite IH1 by (left; done). by apply H1.
Qed.

Lemma delete_olds_spec olds target c l w :
  (∀ o, o ∈ l → o ∈ olds) →
  only_olds_deleted [c] olds target (points w) (points (delete_olds c target l w).2).
Proof.
  revert w. induction l as [|o l IH]; intros w Hl; [done|]. cbn [delete_olds].
  case_decide as Ho; [apply IH; set_solver|].
  unfold bind. pose proof (mover_Delete_spec c o w) as H1.
  destruct (mover_DeletePoint c o w) as [e1 w1]. destruct H1 as [_ H1].
  assert (only_olds_deleted [c] olds target (points w) (points w1)) as Hd.
  { destruct H1 as [->|H1]; [done|]. intros c' i. rewrite H1.
    destruct (decide ((c', i) = (c, o))) as [[= -> ->]|Hci].
    - right. rewrite lookup_delete_eq. set_solver.
    - left. by rewrite lookup_delete_ne by congruence. }
  destruct e1 as [|x e1]; go; [|done]. etrans; [exact Hd|]. apply IH. set_solver.
Qed.

Lemma delete_all_spec olds target cols w :
  only_olds_deleted cols olds target (points w) (points (delete_all cols target olds w).2).
Proof.
  revert w. induction cols as [|c cols IH]; intros w; [done|]. cbn [delete_all]. unfold bind.
  pose proof (delete_olds_spec olds target c olds w ltac:(auto)) as Hd.
  destruct (delete_olds c target olds w) as [e1 w1]; cbn [snd] in Hd.
  assert (only_olds_deleted (c :: cols) olds target (points w) (points w1)) as Hd'.
  { eapply only_olds_mono; [|exact Hd]. set_solver. }
  destruct e1 as [|x e1]; go; [|done]. etrans; [exact Hd'|]. eapply only_olds_mono; [|apply IH]. set_solver.
Qed.

(** Deleting old ids after the copies keeps the vector. *)
Lemma held_deleted cols olds target c p q q' :
  held olds target c p q → (c ∈ cols → q !! (c, target) = Some p) →
  only_olds_deleted cols olds target q q' → held olds target c p q'.
Proof.
  intros Hh Ht Hd.
  assert (∀ b, b ∈ olds → b ≠ target → q !! (c, b) = None → q' !! (c, b) = None) as Hnone.
  { intros b _ _ Hb. destruct (Hd c b) as [->|[? _]]; done. }
  assert (q' !! (c, target) = q !! (c, target)) as Htt by (destruct (Hd c target) as [->|(_ & _ & _ & ?)]; done).
  destruct Hh as [(id & Hid1 & Hid2 & Hidp & Hb)|[Hp Hb]].
  - destruct (Hd c id) as [Hs|(Hs & Hc & _)].
    + left. exists id. rewrite Hs. split_and!; try done. auto.
    + right. rewrite Htt. split; [by apply Ht|]. intros b Hb1 Hb2.
      destruct (decide (b = id)) as [->|?]; [done|]. auto.
  - right. rewrite Htt. split; [done|]. auto.
Qed.

Lemma NeedsCopy_spec item :
  NeedsCopy item = true →
  ∃ t o, it_TargetNumericID item = Some t ∧ o ∈ it_OldNumericIDs item ∧ o ≠ t.
Proof.
  unfold NeedsCopy, Resolved. destruct (it_TargetNumericID item) as [t|] eqn:Ht.
  2: { rewrite (bool_decide_false (is_Some None)) by (by intros []). by rewrite andb_false_r. }
  destruct (negb _ && _); simpl; [|done]. intros (o & Ho & Hne)%existsb_exists.
  exists t, o. apply list_elem_of_In in Ho. apply negb_true_iff, bool_decide_eq_false in Hne.
  split_and!; [done|done|congruence].
Qed.

Definition item_held (item : RepairItem) (c : string) (p : point) (q : gmap (string * Z) point) : Prop :=
  held (it_OldNumericIDs item) (target_of item) c p q.
Lemma copy_all_items cols target olds w :
  rs_items (w_ext (copy_all cols target olds w).2) = rs_items (w_ext w).
Proof.
  assert (∀ c l w, rs_items (w_ext (copy_olds c target l w).2) = rs_items (w_ext w)) as Hc.
  { intros c l. induction l as [|o l IH]; intros w0; [done|]. cbn [copy_olds]. case_decide as Ho; [apply IH|].
    unfold bind. pose proof (mover_Copy_spec c o target w0 Ho) as H1.
    destruct (mover_CopyPointVerified c o target w0) as [[|x e] w1]; go;
      destruct H1 as [<- _]; [apply IH|done]. }
  revert w. induction cols as [|c cols IH]; intros w; [done|]. cbn [copy_all]. unfold bind.
  specialize (Hc c olds w). destruct (copy_olds c target olds w) as [[|x e] w1]; go;
    [rewrite IH|]; done.
Qed.

Lemma delete_all_items cols target olds w :
  rs_items (w_ext (delete_all cols target olds w).2) = rs_items (w_ext w).
Proof.
  assert (∀ c l w, rs_items (w_ext (delete_olds c target l w).2) = rs_items (w_ext w)) as Hc.
  { intros c l. induction l as [|o l IH]; intros w0; [done|]. cbn [delete_olds]. case_decide as Ho; [apply IH|].
    unfold bind. pose proof (mover_Delete_spec c o w0) as H1.
    destruct (mover_DeletePoint c o w0) as [[|x e] w1]; go; destruct H1 as [<- _]; [apply IH|done]. }
  revert w. induction cols as [|c cols IH]; intros w; [done|]. cbn [delete_all]. unfold bind.
  specialize (Hc c olds w). destruct (delete_olds c target olds w) as [[|x e] w1]; go; [rewrite IH|]; done.
Qed.

(** One item, whatever fails: its vectors stay, the other places are not
    touched, the manifest is unchanged. *)
Lemma applyItem_spec item w :
  let w' := (applyItem item w).2 in
  manifest w' = manifest w ∧
  (∀ c i, ¬ item_place item c i → points w' !! (c, i) = points w !! (c, i)) ∧
  (∀ c p, item_held item c p (points w) → item_held item c p (points w')).
Proof.
  cbv zeta. unfold applyItem. destruct (NeedsCopy item) eqn:Hnc; go.
  2: { destruct (SetItemState_book item RepairItemCleaned w) as [-> ->]. done. }
  apply NeedsCopy_spec in Hnc as (t & o & Ht & Ho & Hot).
  fold (target_of item). set (cols := copyableCollections item). set (olds := it_OldNumericIDs item).
  assert (∃ o, o ∈ olds ∧ o ≠ target_of item) as Hex.
  { exists o. split; [done|]. unfold target_of. by rewrite Ht. }
  unfold bind. pose proof (copy_all_spec olds (target_of item) cols w Hex) as Hcopy.
  pose proof (copy_all_items cols (target_of item) olds w) as Hci.
  destruct (copy_all cols (target_of item) olds w) as [e1 w1]. cbn [snd] in Hci.
  destruct Hcopy as [Hot1 Hh1].
  assert (manifest w1 = manifest w ∧
    (∀ c i, ¬ item_place item c i → points w1 !! (c, i) = points w !! (c, i)) ∧
    (∀ c p, item_held item c p (points w) → item_held item c p (points w1))) as H1.
  { split_and!.
    - unfold manifest. by rewrite Hci.
    - intros c i Hp. apply Hot1. destruct (decide (c ∈ cols)); [right; intros ->|by left].
      apply Hp. split; [done|by left].
    - intros c p Hh. by apply Hh1. }
  destruct e1 as [|x e1]; go; [|done].
  assert (∀ w2, bookkeeping w1 w2 → manifest w2 = manifest w ∧
    (∀ c i, ¬ item_place item c i → points w2 !! (c, i) = points w !! (c, i)) ∧
    (∀ c p, item_held item c p (points w) → item_held item c p (points w2))) as Hbk.
  { intros w2 [Hp Hm]. rewrite Hp, Hm. done. }
  pose proof (SetItemState_book item RepairItemCopied w1) as Hb2.
  destruct (SetItemState item RepairItemCopied w1) as [[|x e2] w2]; cbn [snd] in Hb2; go; [|by apply Hbk].
  pose proof (RetargetMapping_book (it_Namespace item) (it_EntityType item) (it_StringID item) (target_of item) w2) as Hb3.
  destruct (RetargetMapping (it_Namespace item) (it_EntityType item) (it_StringID item) (target_of item) w2)
    as [[|x e3] w3]; cbn [snd] in Hb3; go; [|apply Hbk; by etrans].
  assert (bookkeeping w1 w3) as Hb13 by by etrans. destruct (Hbk w3 Hb13) as (Hm3 & Hpl3 & Hh3).
  pose proof (delete_all_spec olds (target_of item) cols w3) as Hdel.
  pose proof (delete_all_items cols (target_of item) olds w3) as Hdi.
  destruct (delete_all cols (target_of item) olds w3) as [e4 w4]. cbn [snd] in Hdel, Hdi.
  assert (manifest w4 = manifest w ∧
    (∀ c i, ¬ item_place item c i → points w4 !! (c, i) = points w !! (c, i)) ∧
    (∀ c p, item_held item c p (points w) → item_held item c p (points w4))) as H4.
  { split_and!.
    - rewrite <- Hm3. unfold manifest. by rewrite Hdi.
    - intros c i Hp. rewrite <- (Hpl3 c i Hp). destruct (Hdel c i) as [->|(_ & ? & ? & _)]; [done|].
      exfalso. apply Hp. split; [done|by right].
    - intros c p Hh. eapply held_deleted; [by apply Hh3| |exact Hdel].
      intros Hc. destruct Hb13 as [-> _]. by apply Hh1. }
  destruct e4 as [|x e4]; go; [|done].
  pose proof (SetItemState_book item RepairItemCleaned w4) as [Hp5 Hm5].
  rewrite Hp5, Hm5. done.
Qed.

(** Two items of a manifest: the same identity, or no place in common. *)
Definition compatible (a b : RepairItem) : Prop :=
  (it_OldNumericIDs a = it_OldNumericIDs b ∧ target_of a = target_of b) ∨
  (∀ c i, item_place a c i → ¬ item_place b c i).

Lemma applyItem_held item b c p w :
  compatible item b → c ∈ copyableCollections item →
  item_held item c p (points w) → item_held item c p (points (applyItem b w).2).
Proof.
  intros Hcomp Hc Hh. destruct (applyItem_spec b w) as (_ & Hpl & Hb).
  destruct Hcomp as [[Ho Ht]|Hd].
  - unfold item_held in *. rewrite Ho, Ht in *. by apply Hb.
  - eapply held_other; [|exact Hh]. intros i Hi. apply Hpl. apply Hd. by split.
Qed.

Lemma apply_items_spec runID items w :
  let w' := (apply_items runID items w).2 in
  manifest w' = manifest w ∧
  (∀ item c p, (∀ b, b ∈ items → compatible item b) → c ∈ copyableCollections item →
     item_held item c p (points w) → item_held item c p (points w')).
Proof.
  cbv zeta. revert w. induction items as [|b items IH]; intros w; [done|]. cbn [apply_items].
  destruct (_ || _).
  { destruct (IH w) as [-> Hh]. split; [done|]. intros item c p Hcomp. apply Hh. set_solver. }
  unfold bind. destruct (applyItem_spec b w) as (Hm1 & _ & _).
  pose proof (λ item c p, applyItem_held item b c p w) as Hh1.
  destruct (applyItem b w) as [[|x e] w1]; cbn [snd] in *; go.
  - destruct (IH w1) as [-> Hh]. split; [done|]. intros item c p Hcomp Hc Hheld.
    apply Hh; [set_solver|done|]. apply Hh1; [set_solver|done|done].
  - destruct (recordFailure_book runID (Some b) w1) as [Hp Hm]. rewrite Hp, Hm. split; [done|].
    intros item c p Hcomp Hc Hheld. apply Hh1; [set_solver|done|done].
Qed.

(** A rebuild recomputes sparse collections: it leaves the points of the
    collections the manifest copies alone, and the manifest itself. *)
Definition rebuild_ok (rebuild : string → M W error) : Prop :=
  ∀ ns w, manifest (rebuild ns w).2 = manifest w ∧
    ∀ item c i, item ∈ rs_items (w_ext w) → c ∈ copyableCollections item →
      points (rebuild ns w).2 !! (c, i) = points w !! (c, i).

Lemma manifest_item w w' item :
  manifest w' = manifest w → item ∈ rs_items (w_ext w) →
  ∃ item', item' ∈ rs_items (w_ext w') ∧
    set_item_state RepairItemPending item' = set_item_state RepairItemPending item.
Proof.
  intros Hm Hin. assert (set_item_state RepairItemPending item ∈ manifest w') as Hin'.
  { rewrite Hm. apply list_elem_of_fmap. by exists item. }
  apply list_elem_of_fmap in Hin' as (item' & He & ?). by exists item'.
Qed.

Lemma static_copyable a b :
  set_item_state RepairItemPending a = set_item_state RepairItemPending b →
  copyableCollections a = copyableCollections b ∧ it_OldNumericIDs a = it_OldNumericIDs b ∧
  target_of a = target_of b.
Proof.
  intros He. assert (it_Sources a = it_Sources b) as Hs by exact (f_equal it_Sources He).
  split_and!; [unfold copyableCollections, itemCollections; by rewrite Hs|exact (f_equal it_OldNumericIDs He)|].
  unfold target_of. f_equal. exact (f_equal it_TargetNumericID He).
Qed.

Lemma rebuild_all_spec runID rebuild nss w :
  rebuild_ok rebuild →
  let w' := (rebuild_all runID rebuild nss w).2 in
  manifest w' = manifest w ∧
  (∀ item c p, item ∈ rs_items (w_ext w) → c ∈ copyableCollections item →
     item_held item c p (points w) → item_held item c p (points w')).
Proof.
  intros Hok. cbv zeta. revert w. induction nss as [|ns nss IH]; intros w; [done|].
  cbn [rebuild_all]. unfold bind. destruct (Hok ns w) as [Hm1 Hp1].
  destruct (rebuild ns w) as [[|x e] w1]; cbn [snd] in *; go.
  2: { destruct (recordFailure_book runID None w1) as [Hp Hm]. rewrite Hp, Hm. split; [done|].
       intros item c p Hin Hc. apply held_other. intros i _. by eapply Hp1. }
  assert (∀ w2, bookkeeping w1 w2 → manifest w2 = manifest w ∧
    ∀ item c p, item ∈ rs_items (w_ext w) → c ∈ copyableCollections item →
      item_held item c p (points w) → item_held item c p (points w2)) as Hbk.
  { intros w2 [Hp Hm]. rewrite Hp, Hm. split; [done|].
    intros item c p Hin Hc. apply held_other. intros i _. by eapply Hp1. }
  pose proof (RecordRebuilt_book runID ns w1) as Hb2.
  destruct (RecordRebuiltNamespace runID ns w1) as [[|x e] w2]; cbn [snd] in *; go.
  2: { apply Hbk. etrans; [done|apply recordFailure_book]. }
  destruct (Hbk w2 Hb2) as [Hm2 Hh2]. destruct (IH w2) as [-> Hh]. split; [done|].
  intros item c p Hin Hc Hheld.
  destruct (manifest_item w w2 item Hm2 Hin) as (item' & Hin' & Hst).
  destruct (static_copyable _ _ Hst) as (Hc' & Ho' & Ht').
  specialize (Hh item' c p Hin' ltac:(by rewrite Hc')). unfold item_held in *. rewrite Ho', Ht' in Hh.
  apply Hh. by apply Hh2.
Qed.

(** The vectors of all items are where they may be. *)
Definition keeps (w w' : W) : Prop :=
  manifest w' = manifest w ∧
  ∀ item c p, item ∈ rs_items (w_ext w) → c ∈ copyableCollections item →
    item_held item c p (points w) → item_held item c p (points w').

#[local] Instance keeps_preorder : PreOrder keeps.
Proof.
  split; [by intros w|]. intros w1 w2 w3 [Hm12 H12] [Hm23 H23]. split; [congruence|].
  intros item c p Hin Hc Hh. destruct (manifest_item w1 w2 item Hm12 Hin) as (item' & Hin' & Hst).
  destruct (static_copyable _ _ Hst) as (Hc' & Ho' & Ht').
  specialize (H23 item' c p Hin' ltac:(by rewrite Hc')). unfold item_held in *. rewrite Ho', Ht' in H23.
  by apply H23, H12.
Qed.

Lemma bookkeeping_keeps w w' : bookkeeping w w' → keeps w w'.
Proof. intros [Hp Hm]. split; [done|]. by rewrite Hp. Qed.

Lemma ext_keeps w w' : w_ext w' = w_ext w → keeps w w'.
Proof. intros He. apply bookkeeping_keeps. unfold bookkeeping, manifest. by rewrite He. Qed.

Lemma apply_manifest_keeps ports runID items w :
  (∀ item b, item ∈ rs_items (w_ext w) → b ∈ items → compatible item b) →
  (∀ rebuild, po_RebuildSparse ports = Some rebuild → rebuild_ok rebuild) →
  keeps w (apply_manifest ports runID items w).2.
Proof.
  intros Hcomp Hreb. unfold apply_manifest, bind.
  pose proof (SetRunState_book runID RepairRunApplying w) as Hb1.
  destruct (SetRunState runID RepairRunApplying w) as [[|x e1] w1]; cbn [snd] in *; go;
    [|by apply bookkeeping_keeps].
  destruct (apply_items_spec runID items w1) as [Hm2 Hh2].
  destruct (apply_items runID items w1) as [e2 w2]; cbn [snd] in *.
  assert (keeps w w2) as Hk2.
  { destruct (bookkeeping_keeps _ _ Hb1) as [Hm1 Hh1]. split; [congruence|].
    intros item c p Hin Hc Hh. apply Hh2; [|done|by apply Hh1]. intros b Hb. by apply Hcomp. }
  destruct e2 as [|x e2]; go; [|done].
  assert (keeps w2 (rebuild_phase ports runID items w2).2) as Hk3.
  { unfold rebuild_phase. destruct (po_RebuildSparse ports) as [rebuild|]; [|done].
    apply (rebuild_all_spec runID rebuild (sortedNamespaces items) w2 (Hreb _ eq_refl)). }
  destruct (rebuild_phase ports runID items w2) as [[|x e3] w3]; cbn [snd] in *; go; [|by etrans].
  etrans; [exact Hk2|]. etrans; [exact Hk3|]. apply bookkeeping_keeps, SetRunState_book.
Qed.

Lemma applyFenced_keeps ports runID w :
  (∀ a b, a ∈ rs_items (w_ext w) → b ∈ rs_items (w_ext w) → compatible a b) →
  (∀ rebuild, po_RebuildSparse ports = Some rebuild → rebuild_ok rebuild) →
  keeps w (applyFenced ports runID w).2.
Proof.
  intros Hcomp Hreb. unfold applyFenced, bind. destruct (GetRun_same runID w) as [He1 _].
  destruct (GetRun runID w) as [[run e1] w1]; cbn [fst snd] in *. go.
  destruct run as [run|]; [|by apply ext_keeps].
  destruct (ListItems_same runID w1) as [He2 Hl].
  destruct (ListItems runID w1) as [[items e2] w2]; cbn [fst snd] in *. go.
  assert (keeps w w2) as Hk2 by (apply ext_keeps; congruence).
  destruct e2 as [|x e2]; go; [|done].
  destruct (apply_guard run items) as [|x eg]; go; [|done].
  etrans; [exact Hk2|]. apply apply_manifest_keeps; [|done].
  rewrite He2, He1, (Hl eq_refl), He1. intros a b Ha Hb. apply Hcomp; [done|].
  rewrite merge_sort_Permutation, list_elem_of_filter in Hb. tauto.
Qed.

(** C6: Apply never loses a vector, under three conditions: no two identities of
    the manifest share a place in a collection that apply copies, the sparse
    rebuild leaves those collections and the manifest alone, and the digests tell
    apart what they digest (SHA-256 has no collision). Then for every fault of
    PostgreSQL, every failed or silently altered Qdrant write, and wherever the
    run stops: a vector that was the only one under its identity's ids in a
    copied collection is still stored, unaltered, under one of them or under
    the target id, and so it is again after any further attempt, since the
    reviewed manifest is unchanged. *)
Theorem apply_loses_no_vector ports runID w :
  (∀ a b, a ∈ rs_items (w_ext w) → b ∈ rs_items (w_ext w) → compatible a b) →
  (∀ rebuild, po_RebuildSparse ports = Some rebuild → rebuild_ok rebuild) →
  let w' := (applyFenced ports runID w).2 in
  manifest w' = manifest w ∧
  ∀ item c p, item ∈ rs_items (w_ext w) → c ∈ copyableCollections item →
    item_held item c p (points w) →
    item_held item c p (points w') ∧ ∃ i, item_place item c i ∧ points w' !! (c, i) = Some p.
Proof.
  intros Hcomp Hreb. cbv zeta. destruct (applyFenced_keeps ports runID w Hcomp Hreb) as [Hm Hh].
  split; [done|]. intros item c p Hin Hc Hheld. specialize (Hh item c p Hin Hc Hheld). split; [done|].
  destruct Hh as [(i & Hi & _ & Hp & _)|[Hp _]].
  - exists i. split; [|done]. split; [done|by right].
  - exists (target_of item). split; [|done]. split; [done|by left].
Qed.

(** ** Where the repair cannot proceed, and where it destroys *)

Lemma copy_olds_present c target l w :
  (copy_olds c target l w).1 = [] →
  ∀ o, o ∈ l → o ≠ target → is_Some (points w !! (c, o)).
Proof.
  revert w. induction l as [|o l IH]; intros w; [set_solver|]. cbn [copy_olds].
  case_decide as Ho; [intros Hc o' [->|?]%elem_of_cons ?; [done|by apply IH]|].
  unfold bind. pose proof (mover_Copy_spec c o target w Ho) as Hm.
  destruct (mover_CopyPointVerified c o target w) as [[|x e] w1]; go; [|done].
  destruct Hm as (_ & Hnone & Hsome).
  destruct (points w !! (c, o)) as [po|] eqn:Hpo; [|by destruct (Hnone eq_refl)].
  intros Hc o' [->|Hin]%elem_of_cons Hne; [by eexists|].
  specialize (IH w1 Hc o' Hin Hne).
  destruct (Hsome po eq_refl) as [[_ Hw]|[? _]]; [|done]. by rewrite Hw, lookup_insert_ne in IH by congruence.
Qed.

Lemma copy_all_present cols target olds w :
  (∃ o, o ∈ olds ∧ o ≠ target) →
  (copy_all cols target olds w).1 = [] →
  ∀ c o, c ∈ cols → o ∈ olds → o ≠ target → is_Some (points w !! (c, o)).
Proof.
  intros Hex. revert w. induction cols as [|c cols IH]; intros w; [set_solver|]. cbn [copy_all]. unfold bind.
  pose proof (copy_olds_present c target olds w) as Hp.
  pose proof (copy_olds_spec olds target c empty_point olds w
    ltac:(auto)) as Hs.
  destruct (copy_olds c target olds w) as [[|x e] w1]; go; [|done].
  destruct Hs as [Hot _]. intros Hc c' o [->|Hc']%elem_of_cons Ho Hne; [by apply Hp|].
  specialize (IH w1 Hc c' o Hc' Ho Hne). by rewrite Hot in IH by (by right).
Qed.

(** A move that is missing one of its sources never succeeds. If an item has
    to move and one of its old ids (other than the target) has no point in one
    of the collections apply copies, then applying the item fails, whatever
    else happens, and leaves that place empty, so that it fails again on every
    resume. This is the state after the old point was deleted and recording it
    failed, and the state of an identity whose collections disagree on its
    numeric id. *)
Theorem move_without_source_never_succeeds item c o w :
  NeedsCopy item = true → c ∈ copyableCollections item → o ∈ it_OldNumericIDs item →
  o ≠ target_of item → points w !! (c, o) = None →
  let '(e, w') := applyItem item w in
  e ≠ [] ∧ points w' !! (c, o) = None.
Proof.
  intros Hnc Hc Ho Hne Hnone. unfold applyItem. rewrite Hnc. go. fold (target_of item).
  unfold bind. pose proof (copy_all_spec (it_OldNumericIDs item) (target_of item) (copyableCollections item) w
    ltac:(by exists o)) as Hs.
  pose proof (copy_all_present (copyableCollections item) (target_of item) (it_OldNumericIDs item) w
    ltac:(by exists o)) as Hp.
  destruct (copy_all (copyableCollections item) (target_of item)
    (it_OldNumericIDs item) w) as [[|x e] w1]; go.
  - destruct (Hp eq_refl c o Hc Ho Hne). congruence.
  - split; [done|]. destruct Hs as [Hot _]. by rewrite Hot by (by right).
Qed.
End copying.

(** ** Witnesses *)

(** Digests without collisions, over texts in base64. *)
#[local] Instance demo_digests : RepairDigests :=
  {| Sum256 s := 0%N :: bytes_of s; Value_String v := b64_encode (val_wire v); Value_GetStringValue v := val_wire v;
     VectorsOutput_String v := vo_wire v |}.

#[local] Instance demo_digests_ok : RepairDigestsOk.
Proof.
  split; cbn.
  - intros s t [= Hst]. by apply bytes_of_inj.
  - intros s. split; [|done]. constructor; [lia|apply bytes_of_is_bytes].
  - intros [v] [v'] Hv. cbn in Hv. by apply b64_encode_inj in Hv as ->.
  - intros [v]. apply b64_encode_all. vm_compute. reflexivity.
  - intros [v] [v'] Hv. cbn in Hv. by subst.
Qed.

Definition mk_item (sid : string) (olds : list Z) (target : Z) (cols : list string) : RepairItem :=
  {| it_RunID := 1; it_Namespace := "demo"; it_EntityType := "object"; it_StringID := sid;
     it_OldNumericIDs := olds; it_TargetNumericID := Some target;
     it_Sources := {| so_collections := Some (list_to_map ((λ c, (c, olds)) <$> cols));
                      so_dense := Some (list_to_set cols); so_conflict := None; so_reassigned_from := None |};
     it_PayloadHash := ""; it_VectorHash := ""; it_State := RepairItemPending |}.

Definition mk_point (sid vec : string) : point :=
  {| pt_payload := dexist (P := plain_keys) {["object_id" := {| val_wire := sid |}]} eq_refl; pt_vectors := Some {| vo_wire := vec |} |}.

Definition repair_world (q : gmap (string * Z) point) (qs : list qoutcome) (fs : list bool)
    (items : list RepairItem) (maps : gmap (string * string * string) Z) : W :=
  {| w_ledger := w_ledger (demo_world []); w_now := 9; w_adv := []; w_lockobjs := ∅; w_next := 0;
     w_faults := fs;
     w_ext := {| rs_points := q; rs_q := qs; rs_mappings := maps; rs_next := 100;
                 rs_runs := {[1%Z := {| run_ID := 1; run_State := RepairRunSnapshotting;
                    run_PGSnapshotRef := "pg"; run_QdrantSnapshotRefs := {["dense" := "snap"]};
                    run_ManifestHash := ManifestHash items; run_RebuiltNamespaces := [] |}]};
                 rs_next_run := 2; rs_items := items; rs_rebuilt := [] |} |}.

Definition no_ports : Ports :=
  {| po_Namespaces := ret ([], []); po_Evidence _ := ret (inr []); po_RebuildSparse := None;
     po_fenced := true |}.

Definition one_item : RepairItem := mk_item "a" [3%Z] 7 ["dense"].
Definition one_world (fs : list bool) : W :=
  repair_world {[("dense", 3%Z) := mk_point "a" "va"]} [QOk; QAlter (mk_point "a" "??")] fs [one_item]
    {[("demo", "object", "a") := 3%Z]}.

(** A silently altered copy: the run fails and the vector is still there. *)
Lemma apply_loses_no_vector_witness :
  let w' := (applyFenced no_ports 1 (one_world [])).2 in
  rs_points (w_ext w') !! ("dense", 7%Z) = Some (mk_point "a" "??") ∧
  ∃ i, item_place one_item "dense" i ∧ rs_points (w_ext w') !! ("dense", i) = Some (mk_point "a" "va").
Proof.
  intros w'. split; [vm_compute; reflexivity|].
  destruct (apply_loses_no_vector no_ports 1 (one_world []))
    as [_ H].
  - intros a b ->%list_elem_of_singleton ->%list_elem_of_singleton. by left.
  - done.
  - apply (H one_item "dense" (mk_point "a" "va")).
    + by apply list_elem_of_singleton.
    + apply list_elem_of_lookup_2 with 0%nat. vm_compute. reflexivity.
    + left. exists 3%Z. split_and!; [by apply list_elem_of_singleton|done|reflexivity|].
      by intros b ->%list_elem_of_singleton.
Defined.

(** The item was applied up to its last statement, which failed: every resume
    fails. *)
Lemma move_without_source_never_succeeds_witness :
  let w1 := (applyItem one_item
    (repair_world {[("dense", 3%Z) := mk_point "a" "va"]} [] [false; false; true] [one_item]
       {[("demo", "object", "a") := 3%Z]})).2 in
  rs_points (w_ext w1) = {[("dense", 7%Z) := mk_point "a" "va"]} ∧
  (applyItem one_item w1).1 ≠ [].
Proof.
  intros w1. split; [vm_compute; reflexivity|].
  pose proof (move_without_source_never_succeeds
    one_item "dense" 3 w1) as H.
  destruct (applyItem one_item w1) as [e w2].
  apply H; [reflexivity|..|by apply list_elem_of_singleton|discriminate|vm_compute; reflexivity].
  apply list_elem_of_lookup_2 with 0%nat. vm_compute. reflexivity.
Defined.

(** Two identities whose collections disagree: [a] is mapped to 7 and stored
    under 5 in the sparse collection and under 7 in the dense one; 5 of the
    dense collection belongs to [b]. *)
Definition clash_evidence : NamespaceEvidence :=
  let pt c i s := {| ce_Collection := c; ce_EntityType := "object"; ce_NumericID := i; ce_StringID := s;
                     ce_PayloadHash := ""; ce_VectorHash := "" |} in
  {| ne_Namespace := "demo";
     ne_Mappings := {["object" := list_to_map [("a", 7%Z); ("b", 5%Z)]]};
     ne_Points := [pt "sparse" 5%Z "a"; pt "dense" 7%Z "a"; pt "dense" 5%Z "b"];
     ne_DenseCollections := {["dense"]} |}.

Definition clash_points : gmap (string * Z) point :=
  list_to_map [(("sparse", 5%Z), mk_point "a" "sa"); (("dense", 7%Z), mk_point "a" "va");
               (("dense", 5%Z), mk_point "b" "vb")].

(** The audit and apply can destroy a vector without any failure. For this
    evidence the audit resolves both identities, sees no conflict and
    quarantines nothing; but the old ids of an item are collected over all its
    collections and used in each of them, so applying the manifest copies the
    dense vector of [b] over the dense vector of [a] and deletes the original:
    afterwards the vector of [a] is stored nowhere. *)
Theorem apply_can_destroy_a_vector :
  let items := auditNamespace clash_evidence in
  let w := repair_world clash_points [] [] (stamp 1 <$> items)
             (list_to_map [(("demo", "object", "a"), 7%Z); (("demo", "object", "b"), 5%Z)]) in
  let '(e, w') := apply_manifest no_ports 1 (stamp 1 <$> items) w in
  forallb Resolved items = true ∧ forallb (λ i, bool_decide (TargetConflictWith i = "")) items = true ∧
  e = [] ∧ rs_points (w_ext w) !! ("dense", 7%Z) = Some (mk_point "a" "va") ∧
  ∀ k p, rs_points (w_ext w') !! k = Some p → pt_vectors p ≠ Some {| vo_wire := "va" |}.
Proof.
  cbv zeta.
  set (r := apply_manifest no_ports 1 (stamp 1 <$> auditNamespace clash_evidence)
    (repair_world clash_points [] [] (stamp 1 <$> auditNamespace clash_evidence)
       (list_to_map [(("demo", "object", "a"), 7%Z); (("demo", "object", "b"), 5%Z)]))).
  assert (r.1 = []) as He by (vm_compute; reflexivity).
  assert (rs_points (w_ext r.2) =
    list_to_map [(("sparse", 5%Z), mk_point "a" "sa"); (("dense", 7%Z), mk_point "b" "vb")]) as Hq
    by (vm_compute; reflexivity).
  destruct r as [e w']. cbn [fst snd] in He, Hq. subst e.
  split_and!; [vm_compute; reflexivity|vm_compute; reflexivity|done|reflexivity|].
  rewrite Hq. intros k p Hk%elem_of_list_to_map_2.
  rewrite !elem_of_cons in Hk. destruct Hk as [[= -> ->]|[[= -> ->]|?%elem_of_nil]]; done.
Qed.
