(* ===== verification/Strategy.v ===== *)
(** * Embedding strategies

    [internal/core/embedstrategy] and the strategy of [internal/embedder]: the
    registry, the tokenizer ([tokenizer.go]) and the hashing strategy
    ([hashing.go], [strategy.go]). Unicode normalisation, case folding and the
    punctuation table are parameters, and so is xxhash. *)

From stdpp Require Import base tactics gmap strings list.
From Stdlib Require Import ZArith SpecFloat Lia.
From S2P Require Import Prelude GoLib Utf8 Float64 NamespaceConfig.

(** ** Single precision *)

Definition float32 : Type := spec_float.

Definition f32_prec : Z := 24.
Definition f32_emax : Z := 128.

Definition f32_add (x y : float32) : float32 := SFadd f32_prec f32_emax x y.
Definition f32_mul (x y : float32) : float32 := SFmul f32_prec f32_emax x y.
Definition f32_of_Z (z : Z) : float32 := binary_normalize f32_prec f32_emax z 0 false.

(** [float32(x)]; the conversion to [float64] is exact. *)
Definition f32_of_f64 (x : float64) : float32 :=
  match x with
  | S754_finite s m e => binary_normalize f32_prec f32_emax (if s then Zneg m else Zpos m) e s
  | x => x
  end.

Definition f64_sqrt (x : float64) : float64 := SFsqrt f64_prec f64_emax x.

(** [int(x)] truncates; out of range it is the smallest integer, as on amd64. *)
Definition int_of_f64 (x : float64) : Z :=
  match x with
  | S754_zero _ => 0
  | S754_finite s m e =>
      let v := if (0 <=? e)%Z then (Zpos m * 2 ^ e)%Z else (Zpos m / 2 ^ (- e))%Z in
      let v := if s then (- v)%Z else v in
      if (- 2 ^ 63 <=? v)%Z && (v <? 2 ^ 63)%Z then v else (- 2 ^ 63)%Z
  | _ => (- 2 ^ 63)%Z
  end.

(** ** Strategies and parameters *)

Definition ErrUnknownStrategy : string := "embedstrategy.ErrUnknownStrategy".
Definition ErrStrategyDimension : string := "embedstrategy.ErrDimensionMismatch".
Definition ErrZeroNorm : string := "embedstrategy.ErrZeroNorm".
Definition ErrInputTooLarge : string := "embedstrategy.ErrInputTooLarge".
Definition ErrTransient : string := "embedstrategy.ErrTransient".

Record Strategy := {
  st_ID : string;
  st_Version : string;
  st_Dim : Z;
  st_MaxInputBytes : Z;
  st_Embed : string → list float32 + error;
}.

(** What the interface asks of an implementation. *)
Definition honest (s : Strategy) : Prop :=
  ∀ content vec, st_Embed s content = inl vec → Z.of_nat (length vec) = st_Dim s.

(** The dynamic types the factory tells apart. *)
Inductive param := PInt (z : Z) | PFloat (f : float64) | POther.

Abbreviation Params := (gmap string param).

Definition param_of_json (v : jvalue) : param := match v with JNumber f => PFloat f | _ => POther end.
Definition params_of_json (m : option (list (string * jvalue))) : Params :=
  list_to_map ((λ p, (p.1, param_of_json p.2)) <$> default [] m).

Abbreviation Factory := (Params → Strategy + error).

Record StrategyDescriptor := {
  sd_ID : string;
  sd_Version : string;
  sd_Dim : Z;
  sd_MaxInputBytes : Z;
}.

Record Registry := {
  reg_factories : gmap (string * string) Factory;
  reg_variants : gmap (string * string) (list StrategyDescriptor);
}.

Definition NewRegistry : Registry := {| reg_factories := ∅; reg_variants := ∅ |}.

(** [None] is a panic. *)
Definition register (id version : string) (f : option Factory) (variants : option (list StrategyDescriptor)) (r : Registry)
    : option Registry :=
  if bool_decide (id = "") || bool_decide (version = "") then None
  else match f with
       | None => None
       | Some f =>
           if bool_decide (is_Some (reg_factories r !! (id, version))) then None
           else Some {| reg_factories := <[(id, version) := f]> (reg_factories r);
                        reg_variants := match variants with
                                        | Some v => <[(id, version) := v]> (reg_variants r)
                                        | None => reg_variants r
                                        end |}
       end.

Definition Register (id version : string) (f : option Factory) (r : Registry) : option Registry := register id version f None r.

Definition RegisterVariants (id version : string) (f : option Factory) (variants : list StrategyDescriptor) (r : Registry)
    : option Registry :=
  if forallb (λ d, bool_decide (sd_ID d = id) && bool_decide (sd_Version d = version)) variants
  then register id version f (Some variants) r else None.

Definition Build (r : Registry) (id version : string) (p : Params) : Strategy + error :=
  match reg_factories r !! (id, version) with
  | None => inr [ErrUnknownStrategy]
  | Some f => f p
  end.

Definition Has (r : Registry) (id version : string) : bool := bool_decide (is_Some (reg_factories r !! (id, version))).

(** ** The tokenizer *)

Class Unicode := {
  NFC : string → string;
  ToLower : string → string;
  is_punct : N → bool;
}.

Definition ngramMin : nat := 3.
Definition ngramMax : nat := 5.

(** [utf8.AppendRune] of a valid code point. *)
Definition encode_rune (r : N) : list N :=
  (if r <? 128 then [r]
   else if r <? 2048 then [192 + r / 64; 128 + r mod 64]
   else if r <? 65536 then [224 + r / 4096; 128 + (r / 64) mod 64; 128 + r mod 64]
   else [240 + r / 262144; 128 + (r / 4096) mod 64; 128 + (r / 64) mod 64; 128 + r mod 64])%N.

Definition urlPrefixes : list (list N) := [runes "http://"; runes "https://"].

Fixpoint has_prefix (prefix s : list N) : bool :=
  match prefix, s with
  | [], _ => true
  | p :: prefix, c :: s => (p =? c)%N && has_prefix prefix s
  | _ :: _, [] => false
  end.

Fixpoint drop_punct `{Unicode} (rs : list N) : list N :=
  match rs with
  | r :: rest => if is_punct r then drop_punct rest else rs
  | [] => []
  end.

(** [strings.TrimFunc(token, unicode.IsPunct)] *)
Definition trim_punct `{Unicode} (rs : list N) : list N := reverse (drop_punct (reverse (drop_punct rs))).

Definition slices (n : nat) (token : list N) : list (list N) :=
  (λ i, take n (drop i token)) <$> seq 0 (length token - n + 1).

(** The loop over [n], which stops at the first [n] not shorter than the token. *)
Fixpoint ngram_loop (ns : list nat) (token : list N) : list (list N) :=
  match ns with
  | [] => []
  | n :: rest => if (length token <=? n)%nat then [] else slices n token ++ ngram_loop rest token
  end.

Definition flush `{Unicode} (word : list N) : list (list N) :=
  if bool_decide (word = []) then []
  else if existsb (λ p, has_prefix p word) urlPrefixes then []
  else
    let token := trim_punct word in
    if bool_decide (token = []) then []
    else token :: ngram_loop (seq ngramMin (ngramMax - ngramMin + 1)) token.

Fixpoint scan_words `{Unicode} (word rs : list N) : list (list N) :=
  match rs with
  | [] => flush word
  | r :: rest => if is_space r then flush word ++ scan_words [] rest else scan_words (word ++ [r]) rest
  end.

(** Features as code points; the code hashes their encodings. *)
Definition Tokenize `{Unicode} (content : string) : list (list N) :=
  if bool_decide (content = "") then [] else scan_words [] (runes (ToLower (NFC content))).

(** ** The hashing strategy *)

Definition hashingNgramsID : string := "internal-hashing-ngrams".
Definition hashingNgramsVersion : string := "v1".
Definition hashingNgramsValidDims : list Z := [64; 128; 256; 512]%Z.

Definition validHashingDim (d : Z) : bool := bool_decide (d ∈ hashingNgramsValidDims).

(** xxhash64 of a byte string, as an unsigned 64-bit integer. *)
Class XXHash := { Sum64 : list N → Z }.

Definition feature_sign (hash : Z) : float32 := if Z.testbit hash 63 then f32_of_Z (-1) else f32_of_Z 1.

Definition add_feature `{XXHash} (dim : Z) (vec : list float32) (f : list N) : list float32 :=
  let hash := Sum64 (f ≫= encode_rune) in
  alter (λ v, f32_add v (feature_sign hash)) (Z.to_nat (hash mod dim)) vec.

Definition sum_squares (vec : list float32) : float32 := foldl (λ acc v, f32_add acc (f32_mul v v)) (S754_zero false) vec.

Definition hashing_embed `{Unicode, XXHash} (dim : Z) (content : string) : list float32 + error :=
  let features := Tokenize content in
  if bool_decide (features = []) then inr [ErrZeroNorm]
  else
    let vec := foldl (add_feature dim) (replicate (Z.to_nat dim) (S754_zero false)) features in
    let sumSq := sum_squares vec in
    if SFeqb sumSq (S754_zero false) then inr [ErrZeroNorm]
    else
      let invNorm := f32_of_f64 (f64_div f64_one (f64_sqrt sumSq)) in
      inl ((λ v, f32_mul v invNorm) <$> vec).

Definition hashingNgrams `{Unicode, XXHash} (dim : Z) : Strategy :=
  {| st_ID := hashingNgramsID; st_Version := hashingNgramsVersion; st_Dim := dim; st_MaxInputBytes := 0;
     st_Embed := hashing_embed dim |}.

Definition ErrBadDim : string := "internal-hashing-ngrams: invalid 'dim' param".

Definition newHashingNgrams `{Unicode, XXHash} : Factory := λ p,
  match p !! "dim" with
  | None | Some POther => inr [ErrBadDim]
  | Some v =>
      let dim := match v with PInt z => z | PFloat f => int_of_f64 f | POther => 0%Z end in
      if negb (validHashingDim dim) then inr [ErrBadDim] else inl (hashingNgrams dim)
  end.

(** The registration in [init]. *)
Definition embedder_registry `{Unicode, XXHash} : option Registry :=
  RegisterVariants hashingNgramsID hashingNgramsVersion (Some newHashingNgrams)
    ((λ d, {| sd_ID := hashingNgramsID; sd_Version := hashingNgramsVersion; sd_Dim := d; sd_MaxInputBytes := 0 |}) <$> hashingNgramsValidDims)
    NewRegistry.

(** ** Facts *)

Section tokens.
Context `{Unicode}.

(** What a feature is: a token, or three to five consecutive code points of a
    longer token. *)
Definition feature_of (token f : list N) : Prop :=
  f = token ∨ (ngramMin <= length f <= ngramMax)%nat ∧ (length f < length token)%nat ∧ ∃ pre post, token = pre ++ f ++ post.

Lemma slices_elem n token f :
  (n < length token)%nat → f ∈ slices n token → length f = n ∧ ∃ pre post, token = pre ++ f ++ post.
Proof.
  intros Hn (i & -> & Hi)%list_elem_of_fmap. apply elem_of_seq in Hi. split.
  - rewrite length_take, length_drop. lia.
  - exists (take i token), (drop n (drop i token)). by rewrite take_drop, take_drop.
Qed.

Lemma ngram_loop_elem ns token f :
  f ∈ ngram_loop ns token → ∃ n, n ∈ ns ∧ (n < length token)%nat ∧ length f = n ∧ ∃ pre post, token = pre ++ f ++ post.
Proof.
  induction ns as [|n ns IH]; cbn [ngram_loop]; [set_solver|]. destruct (Nat.leb_spec (length token) n); [set_solver|].
  rewrite elem_of_app. intros [Hf|Hf].
  - apply slices_elem in Hf as [Hl Hx]; [|done]. exists n. split; [set_solver|]. done.
  - destruct (IH Hf) as (m & Hm & Hx). exists m. split; [set_solver|done].
Qed.

Lemma drop_punct_suffix rs : ∃ pre, rs = pre ++ drop_punct rs.
Proof.
  induction rs as [|r rs [pre IH]]; cbn; [by exists []|]. destruct (is_punct r); [|by exists []]. exists (r :: pre). cbn. by f_equal.
Qed.

Lemma trim_punct_infix rs : ∃ pre post, rs = pre ++ trim_punct rs ++ post.
Proof.
  unfold trim_punct. destruct (drop_punct_suffix rs) as [pre Hp]. destruct (drop_punct_suffix (reverse (drop_punct rs))) as [post Hq].
  exists pre, (reverse post). rewrite <- reverse_app, <- Hq, reverse_involutive. exact Hp.
Qed.

Lemma drop_punct_head rs r rest : drop_punct rs = r :: rest → is_punct r = false.
Proof. induction rs as [|x rs IH]; cbn; [done|]. destruct (is_punct x) eqn:E; [done|]. by intros [= <- _]. Qed.

(** A token: no white space, no URL, no punctuation at either end. *)
Record token_ok (t : list N) : Prop := {
  tk_nonempty : t ≠ [];
  tk_space : Forall (λ r, is_space r = false) t;
  tk_head : ∀ r rest, t = r :: rest → is_punct r = false;
  tk_last : ∀ r rest, t = rest ++ [r] → is_punct r = false;
}.

Lemma trim_punct_ok word :
  Forall (λ r, is_space r = false) word → trim_punct word ≠ [] → token_ok (trim_punct word).
Proof.
  intros Hs Hne. destruct (trim_punct_infix word) as (pre & post & Hw). split; [done| | |].
  - rewrite Hw in Hs. apply Forall_app in Hs as [_ Hs]. by apply Forall_app in Hs as [Hs _].
  - intros r rest Ht. unfold trim_punct in Ht. destruct (drop_punct_suffix (reverse (drop_punct word))) as [p Hp].
    apply (f_equal reverse) in Hp. rewrite reverse_involutive, reverse_app, Ht in Hp. by eapply drop_punct_head.
  - intros r rest Ht. unfold trim_punct in Ht. apply (f_equal reverse) in Ht. rewrite reverse_involutive, reverse_snoc in Ht.
    by eapply drop_punct_head.
Qed.

Lemma flush_elem word f :
  Forall (λ r, is_space r = false) word → f ∈ flush word → ∃ t, token_ok t ∧ feature_of t f.
Proof.
  intros Hs. unfold flush. case_bool_decide; [set_solver|]. destruct (existsb _ _); [set_solver|]. case_bool_decide as Ht; [set_solver|].
  intros Hf. exists (trim_punct word). split; [by apply trim_punct_ok|]. apply elem_of_cons in Hf as [->|Hf]; [by left|right].
  apply ngram_loop_elem in Hf as (n & Hn & Hl & <- & Hx). apply elem_of_seq in Hn. unfold ngramMin, ngramMax in *. split; [lia|]. done.
Qed.

Lemma scan_words_elem rs word f :
  Forall (λ r, is_space r = false) word → f ∈ scan_words word rs → ∃ t, token_ok t ∧ feature_of t f.
Proof.
  revert word. induction rs as [|r rs IH]; intros word Hs; cbn [scan_words]; [by apply flush_elem|].
  destruct (is_space r) eqn:E.
  - rewrite elem_of_app. intros [Hf|Hf]; [by eapply flush_elem|]. by apply (IH []).
  - apply IH. apply Forall_app. by split; [|constructor].
Qed.
End tokens.

Lemma length_add_features `{XXHash} dim fs vec : length (foldl (add_feature dim) vec fs) = length vec.
Proof. revert vec. induction fs as [|f fs IH]; intros vec; [done|]. cbn [foldl]. rewrite IH. apply length_alter. Qed.

(** The built-in strategy: the registry builds it exactly for the numeric
    parameter [dim] in 64, 128, 256 and 512; every vector it returns has that
    length; it refuses a content only for lack of features or because they
    cancel; and a feature is a token without white space and without
    punctuation at its ends, or three to five consecutive code points of a
    longer one. *)
Theorem hashing_strategy_honest `{Unicode, XXHash} :
  ∃ r, embedder_registry = Some r ∧
    (∀ p s, Build r hashingNgramsID hashingNgramsVersion p = inl s →
       ∃ d, d ∈ hashingNgramsValidDims ∧ s = hashingNgrams d ∧ honest s ∧
            (p !! "dim" = Some (PInt d) ∨ ∃ x, p !! "dim" = Some (PFloat x) ∧ int_of_f64 x = d)) ∧
    (∀ p d, d ∈ hashingNgramsValidDims → p !! "dim" = Some (PInt d) →
       Build r hashingNgramsID hashingNgramsVersion p = inl (hashingNgrams d)) ∧
    (∀ d content e, hashing_embed d content = inr e → e = [ErrZeroNorm]) ∧
    (∀ content f, f ∈ Tokenize content → ∃ t, token_ok t ∧ feature_of t f).
Proof.
  eexists. split; [reflexivity|]. split_and!.
  - intros p s. unfold Build. cbn [reg_factories]. rewrite lookup_insert_eq. unfold newHashingNgrams.
    destruct (p !! "dim") as [[d|x|]|] eqn:E; [| |done|done].
    all: match goal with |- context [validHashingDim ?d] => destruct (validHashingDim d) eqn:Ed end; [|done]; intros [= <-].
    all: unfold validHashingDim in Ed; apply bool_decide_eq_true in Ed; eexists; split; [exact Ed|]; split; [done|].
    all: split; [|eauto]; intros content vec; cbn [st_Embed hashingNgrams st_Dim]; unfold hashing_embed.
    all: case_bool_decide; [done|]; case_match; [done|]; intros [= <-]; rewrite length_fmap, length_add_features, length_replicate.
    all: rewrite Z2Nat.id; [done|]; unfold hashingNgramsValidDims in Ed; set_unfold in Ed; lia.
  - intros p d Hd Hp. unfold Build. cbn [reg_factories]. rewrite lookup_insert_eq. unfold newHashingNgrams. rewrite Hp.
    unfold validHashingDim. by rewrite bool_decide_eq_true_2.
  - intros d content e. unfold hashing_embed. case_bool_decide; [by intros [= <-]|]. case_match; [by intros [= <-]|done].
  - intros content f. unfold Tokenize. case_bool_decide; [set_solver|]. by apply scan_words_elem.
Qed.
