(* ===== verification/Embedder.v ===== *)
(** * The catalog embedder

    [internal/embedder]: the repository of [catalog_items], the service that
    embeds one item, the stream worker, the recovery sweeper and the re-embed
    watcher. Other processes work on the same stores: a script says what they
    commit before each statement. Metrics, logs and the progress events of the
    admin plane are left out; the text of an error is a parameter. *)

From stdpp Require Import base tactics gmap sets strings list sorting.
From Stdlib Require Import ZArith Lia Ascii.
From S2P Require Import Prelude GoLib NsNames NsLedger NsService Float64 NamespaceConfig Strategy StreamConsumer Catalog.

(** ** Stores *)

#[export] Instance CatalogState_eq_dec : EqDecision CatalogState.
Proof. solve_decision. Defined.

Record EmbedPoint := {
  eb_object_id : string;
  eb_namespace : string;
  eb_strategy_id : string;
  eb_strategy_version : string;
  eb_embedded_at : Z;
  eb_created_at : option Z;
  eb_vector : list float32;
}.

(** A dense collection: the size and distance it was created with, and its
    points. *)
Inductive DenseDistance := DistanceCosine | DistanceDot.

Record EmbedCollection := {
  cl_size : Z;
  cl_distance : DenseDistance;
  cl_points : gmap Z EmbedPoint;
}.

Definition on_points (f : gmap Z EmbedPoint → gmap Z EmbedPoint) (c : EmbedCollection) : EmbedCollection :=
  {| cl_size := cl_size c; cl_distance := cl_distance c; cl_points := f (cl_points c) |}.

(** A row of [batch_run_logs], as far as the watcher reads and writes it. *)
Record RunRow := {
  rl_ID : Z;
  rl_Namespace : string;
  rl_TriggerSource : string;
  rl_TargetID : string;
  rl_TargetVersion : string;
  rl_StartedAt : Z;
  rl_CompletedAt : option Z;
  rl_DurationMs : Z;
  rl_Processed : Z;
  rl_Success : bool;
  rl_Error : option string;
}.

(** [ed_streams]: the streams that exist, with lag and pending count of the
    embedder's consumer group when the group exists. *)
Record EmbedDB := {
  ed_items : gmap Z Item;
  ed_configs : gmap string Config;
  ed_ids : gmap (string * string) Z;
  ed_next_id : Z;
  ed_collections : gmap string EmbedCollection;
  ed_streams : gmap string (option (Z * Z));
  ed_added : list EmbedEntry;
  ed_acked : list string;
  ed_runs : list RunRow;
}.

Definition set_ed_items (i : gmap Z Item) (d : EmbedDB) : EmbedDB :=
  {| ed_items := i; ed_configs := ed_configs d; ed_ids := ed_ids d; ed_next_id := ed_next_id d; ed_collections := ed_collections d;
     ed_streams := ed_streams d; ed_added := ed_added d; ed_acked := ed_acked d; ed_runs := ed_runs d |}.
Definition set_ed_ids (m : gmap (string * string) Z) (n : Z) (d : EmbedDB) : EmbedDB :=
  {| ed_items := ed_items d; ed_configs := ed_configs d; ed_ids := m; ed_next_id := n; ed_collections := ed_collections d;
     ed_streams := ed_streams d; ed_added := ed_added d; ed_acked := ed_acked d; ed_runs := ed_runs d |}.
Definition set_ed_collections (c : gmap string EmbedCollection) (d : EmbedDB) : EmbedDB :=
  {| ed_items := ed_items d; ed_configs := ed_configs d; ed_ids := ed_ids d; ed_next_id := ed_next_id d; ed_collections := c;
     ed_streams := ed_streams d; ed_added := ed_added d; ed_acked := ed_acked d; ed_runs := ed_runs d |}.
Definition set_ed_streams (s : gmap string (option (Z * Z))) (l : list EmbedEntry) (d : EmbedDB) : EmbedDB :=
  {| ed_items := ed_items d; ed_configs := ed_configs d; ed_ids := ed_ids d; ed_next_id := ed_next_id d; ed_collections := ed_collections d;
     ed_streams := s; ed_added := l; ed_acked := ed_acked d; ed_runs := ed_runs d |}.
Definition set_ed_acked (l : list string) (d : EmbedDB) : EmbedDB :=
  {| ed_items := ed_items d; ed_configs := ed_configs d; ed_ids := ed_ids d; ed_next_id := ed_next_id d; ed_collections := ed_collections d;
     ed_streams := ed_streams d; ed_added := ed_added d; ed_acked := l; ed_runs := ed_runs d |}.
Definition set_ed_runs (l : list RunRow) (d : EmbedDB) : EmbedDB :=
  {| ed_items := ed_items d; ed_configs := ed_configs d; ed_ids := ed_ids d; ed_next_id := ed_next_id d; ed_collections := ed_collections d;
     ed_streams := ed_streams d; ed_added := ed_added d; ed_acked := ed_acked d; ed_runs := l |}.

(** The process: the stores, its memory (the strategy cache by its key and the
    collections it has ensured), its running consumers, and what others commit. *)
Record EmbedWorld := {
  ew_db : EmbedDB;
  ew_cache : gmap string (string * string * option (list (string * jvalue)));
  ew_ensured : gset string;
  ew_running : gset string;
  ew_others : list (EmbedDB → EmbedDB);
}.

Abbreviation W := (World EmbedWorld).

Definition set_db (d : EmbedDB) (x : EmbedWorld) : EmbedWorld :=
  {| ew_db := d; ew_cache := ew_cache x; ew_ensured := ew_ensured x; ew_running := ew_running x; ew_others := ew_others x |}.
Definition set_cache (c : gmap string (string * string * option (list (string * jvalue)))) (x : EmbedWorld) : EmbedWorld :=
  {| ew_db := ew_db x; ew_cache := c; ew_ensured := ew_ensured x; ew_running := ew_running x; ew_others := ew_others x |}.
Definition set_ensured (s : gset string) (x : EmbedWorld) : EmbedWorld :=
  {| ew_db := ew_db x; ew_cache := ew_cache x; ew_ensured := s; ew_running := ew_running x; ew_others := ew_others x |}.
Definition set_running (s : gset string) (x : EmbedWorld) : EmbedWorld :=
  {| ew_db := ew_db x; ew_cache := ew_cache x; ew_ensured := ew_ensured x; ew_running := s; ew_others := ew_others x |}.

Definition on_embed (f : EmbedWorld → EmbedWorld) : M W () := modify (λ w, set_ext (f (w_ext w)) w).

Definition interfere (x : EmbedWorld) : EmbedWorld :=
  match ew_others x with
  | [] => x
  | o :: rest => {| ew_db := o (ew_db x); ew_cache := ew_cache x; ew_ensured := ew_ensured x; ew_running := ew_running x; ew_others := rest |}
  end.

(** A statement: what others commit, then a failure or the statement. *)
Definition stmt {A} (f : Z → EmbedDB → A * EmbedDB) : M W (A + error) :=
  on_embed interfere ;;!
  let! b := fault in
  if b then ret (inr [ErrDriver])
  else λ w, let r := f (w_now w) (ew_db (w_ext w)) in (inl r.1, set_ext (set_db r.2 (w_ext w)) w).

(** ** The repository *)

Definition ErrItemNotFound : string := "embedder.ErrItemNotFound".
Definition ErrStaleItem : string := "embedder.ErrStaleItem".

Definition LoadByID (id : Z) : M W (Item + error) :=
  let! r := stmt (λ _ d, (ed_items d !! id, d)) in
  ret (match r with inr e => inr e | inl None => inr [ErrItemNotFound] | inl (Some item) => inl item end).

Definition in_flight (now : Z) (i : Item) : Item :=
  {| ci_ID := ci_ID i; ci_Namespace := ci_Namespace i; ci_ObjectID := ci_ObjectID i; ci_Content := ci_Content i;
     ci_ContentHash := ci_ContentHash i; ci_Metadata := ci_Metadata i; ci_State := StateInFlight; ci_StrategyID := ci_StrategyID i;
     ci_StrategyVersion := ci_StrategyVersion i; ci_EmbeddedAt := ci_EmbeddedAt i; ci_AttemptCount := ci_AttemptCount i + 1;
     ci_LastError := ci_LastError i; ci_CreatedAt := ci_CreatedAt i; ci_UpdatedAt := now |}.

Definition embedded_row (now : Z) (sid sver : string) (at_ : Z) (i : Item) : Item :=
  {| ci_ID := ci_ID i; ci_Namespace := ci_Namespace i; ci_ObjectID := ci_ObjectID i; ci_Content := ci_Content i;
     ci_ContentHash := ci_ContentHash i; ci_Metadata := ci_Metadata i; ci_State := StateEmbedded; ci_StrategyID := sid;
     ci_StrategyVersion := sver; ci_EmbeddedAt := Some at_; ci_AttemptCount := 0; ci_LastError := "";
     ci_CreatedAt := ci_CreatedAt i; ci_UpdatedAt := now |}.

Definition failed_row (now : Z) (st : CatalogState) (message : string) (i : Item) : Item :=
  {| ci_ID := ci_ID i; ci_Namespace := ci_Namespace i; ci_ObjectID := ci_ObjectID i; ci_Content := ci_Content i;
     ci_ContentHash := ci_ContentHash i; ci_Metadata := ci_Metadata i; ci_State := st; ci_StrategyID := ci_StrategyID i;
     ci_StrategyVersion := ci_StrategyVersion i; ci_EmbeddedAt := ci_EmbeddedAt i; ci_AttemptCount := ci_AttemptCount i;
     ci_LastError := message; ci_CreatedAt := ci_CreatedAt i; ci_UpdatedAt := now |}.

Definition pending_row (now : Z) (i : Item) : Item :=
  {| ci_ID := ci_ID i; ci_Namespace := ci_Namespace i; ci_ObjectID := ci_ObjectID i; ci_Content := ci_Content i;
     ci_ContentHash := ci_ContentHash i; ci_Metadata := ci_Metadata i; ci_State := StatePending; ci_StrategyID := ci_StrategyID i;
     ci_StrategyVersion := ci_StrategyVersion i; ci_EmbeddedAt := ci_EmbeddedAt i; ci_AttemptCount := ci_AttemptCount i;
     ci_LastError := ci_LastError i; ci_CreatedAt := ci_CreatedAt i; ci_UpdatedAt := now |}.

(** UPDATE ... WHERE id = $1 [AND guard]: the rows it affected. *)
Definition update_item (id : Z) (guard : Item → bool) (f : Item → Item) (d : EmbedDB) : option Item * EmbedDB :=
  match ed_items d !! id with
  | Some i => if guard i then (Some (f i), set_ed_items (<[id := f i]> (ed_items d)) d) else (None, d)
  | None => (None, d)
  end.

Definition MarkInFlight (id : Z) : M W (Z + error) :=
  let! r := stmt (λ now d, update_item id (λ _, true) (in_flight now) d) in
  ret (match r with inr e => inr e | inl None => inr [ErrItemNotFound] | inl (Some i) => inl (ci_AttemptCount i) end).

Definition MarkEmbedded (id : Z) (sid sver : string) (at_ : Z) (contentHash : string) : M W error :=
  let! r := stmt (λ now d, update_item id (λ i, bool_decide (ci_ContentHash i = contentHash)) (embedded_row now sid sver at_) d) in
  ret (match r with inr e => e | inl None => [ErrStaleItem] | inl (Some _) => [] end).

Definition MarkFailed (id : Z) (lastError : string) : M W error :=
  let! r := stmt (λ now d, update_item id (λ _, true) (failed_row now StateFailed lastError) d) in
  ret (match r with inr e => e | inl None => [ErrItemNotFound] | inl (Some _) => [] end).

Definition MarkDeadLetter (id : Z) (lastError : string) : M W error :=
  let! r := stmt (λ now d, update_item id (λ _, true) (failed_row now StateDeadLetter lastError) d) in
  ret (match r with inr e => e | inl None => [ErrItemNotFound] | inl (Some _) => [] end).

(** ** The service *)

(** [OutcomeEmbedded] is the zero value of the type. *)
Inductive ProcessOutcome := OutcomeEmbedded | OutcomeDeadLetter | OutcomeSkipped | OutcomeFailed.

Definition ShouldAck (o : ProcessOutcome) : bool := match o with OutcomeFailed => false | _ => true end.

Record EmbedService := {
  es_lifecycle : option Service;
  es_defaultMaxAttempts : Z;
}.

Definition resolveIncarnation (ctx : Ctx) (ns : string) (cfg : Config) : Incarnation :=
  match LeaseIncarnation ctx ns with
  | (inc, true) => inc
  | (_, false) => ConfigIncarnation ns (Some (cfg_Generation cfg))
  end.

Definition nsCfg_Get (ns : string) : M W (option Config + error) := stmt (λ _ d, (ed_configs d !! ns, d)).

(** [idmap.Service.GetOrCreateObjectID] as its clients see it. *)
Definition GetOrCreateObjectID (ctx : Ctx) (obj ns : string) : M W (Z + error) :=
  let e := RequireNamespaceLease ctx ns in
  if negb (nil_err e) then ret (inr e)
  else stmt (λ _ d, match ed_ids d !! (ns, obj) with
                    | Some n => (n, d)
                    | None => (ed_next_id d, set_ed_ids (<[(ns, obj) := ed_next_id d]> (ed_ids d)) (ed_next_id d + 1) d)
                    end).

(** [resolveDenseDistance], with [strings.ToLower] on what can fold to "dot". *)
Definition resolveDenseDistance (s : string) : DenseDistance :=
  if bool_decide (s ∈ ["dot"; "doT"; "dOt"; "dOT"; "Dot"; "DoT"; "DOt"; "DOT"]) then DistanceDot else DistanceCosine.

Definition ErrCollectionExists : string := "qdrant: collection already exists".

(** Creating a collection that another replica created meanwhile fails. *)
Definition ensure_dense (name : string) (dim : Z) (dist : DenseDistance) : M W error :=
  let! r := stmt (λ _ d, (bool_decide (is_Some (ed_collections d !! name)), d)) in
  match r with
  | inr e => ret e
  | inl true => ret []
  | inl false =>
      let! r := stmt (λ _ d, match ed_collections d !! name with
                             | Some _ => (false, d)
                             | None => (true, set_ed_collections (<[name := {| cl_size := dim; cl_distance := dist; cl_points := ∅ |}]> (ed_collections d)) d)
                             end) in
      ret (match r with inr e => e | inl false => [ErrCollectionExists] | inl true => [] end)
  end.

Definition ensureCollFn (inc : Incarnation) (dim : Z) (distance : string) : M W error :=
  let dist := resolveDenseDistance distance in
  match Incarnation_MustPhysicalName inc KindObjectsDense, Incarnation_MustPhysicalName inc KindSubjectsDense with
  | Some o, Some s =>
      let! e := ensure_dense o dim dist in
      if negb (nil_err e) then ret e else ensure_dense s dim dist
  | _, _ => ret [ErrPanic]
  end.

(** [uint64(cfg.EmbeddingDim)] *)
Definition dense_dim (cfg : Config) : Z := (cfg_EmbeddingDim cfg mod 2 ^ 64)%Z.
Definition dense_distance (cfg : Config) : string := if bool_decide (cfg_DenseDistance cfg = "") then "cosine" else cfg_DenseDistance cfg.

(** The key [fmt.Sprintf("%s|%d|%s", ...)] *)
Definition ensured_key (inc : Incarnation) (cfg : Config) : string :=
  Incarnation_QdrantNamespace inc +:+ "|" +:+ itoa (dense_dim cfg) +:+ "|" +:+ dense_distance cfg.

Definition ensureNamespaceCollections (ctx : Ctx) (ns : string) (cfg : Config) : M W error :=
  let inc := resolveIncarnation ctx ns cfg in
  let key := ensured_key inc cfg in
  let! ensured := gets (λ w, ew_ensured (w_ext w)) in
  if bool_decide (key ∈ ensured) then ret []
  else
    let! e := ensureCollFn inc (dense_dim cfg) (dense_distance cfg) in
    if negb (nil_err e) then ret e
    else on_embed (λ x, set_ensured ({[key]} ∪ ew_ensured x) x) ;;! ret [].

Definition invalidateEnsured (ns : string) : M W () :=
  on_embed (λ x, set_ensured (filter (λ key, ¬ (Is_true (String.prefix (ns +:+ "|") key) ∨ Is_true (String.prefix (ns +:+ "_g") key)))
                                (ew_ensured x)) x).

Definition ErrNoCollection : string := "qdrant: collection not found".
Definition ErrVectorSize : string := "qdrant: vector dimension error".

(** RFC 3339 keeps whole seconds. *)
Definition rfc3339 (t : Z) : Z := (t - t mod 1000000000)%Z.

(** Qdrant refuses a vector whose size is not the collection's. *)
Definition upsertVector (item : Item) (inc : Incarnation) (pointID : Z) (vec : list float32) (strategy : Strategy) (embeddedAt : Z)
    : M W error :=
  match Incarnation_MustPhysicalName inc KindObjectsDense with
  | None => ret [ErrPanic]
  | Some collection =>
      let point := {| eb_object_id := ci_ObjectID item; eb_namespace := ci_Namespace item; eb_strategy_id := st_ID strategy;
                      eb_strategy_version := st_Version strategy; eb_embedded_at := rfc3339 embeddedAt;
                      eb_created_at := if (ci_CreatedAt item =? 0)%Z then None else Some (rfc3339 (ci_CreatedAt item)); eb_vector := vec |} in
      let! r := stmt (λ _ d, match ed_collections d !! collection with
                             | Some c =>
                                 if (Z.of_nat (length vec) =? cl_size c)%Z
                                 then ([], set_ed_collections (<[collection := on_points (insert pointID point) c]> (ed_collections d)) d)
                                 else ([ErrVectorSize], d)
                             | None => ([ErrNoCollection], d)
                             end) in
      ret (match r with inr e => e | inl e => e end)
  end.

(** [Strategy.Embed]: a cancelled context, or what the strategy answers. *)
Definition ErrCanceled : string := "context canceled".
Definition strategy_Embed (s : Strategy) (content : string) : M W (list float32 + error) :=
  let! b := fault in
  if b then ret (inr [ErrCanceled]) else ret (st_Embed s content).

Section service.
Context (registry : Registry) (Error : error → string).

Definition strategy_of (key : string * string * option (list (string * jvalue))) : Strategy + error :=
  Build registry key.1.1 key.1.2 (params_of_json key.2).

(** The cache keeps the strategy built for a key; building is deterministic, so
    the key stands for it. *)
Definition resolveStrategy (ns : string) (cfg : Config) : M W (Strategy + error) :=
  let key := (cfg_CatalogStrategyID cfg, cfg_CatalogStrategyVersion cfg, cfg_CatalogStrategyParams cfg) in
  let! cache := gets (λ w, ew_cache (w_ext w)) in
  if bool_decide (cache !! ns = Some key) then ret (strategy_of key)
  else match strategy_of key with
       | inr e => ret (inr e)
       | inl built => on_embed (λ x, set_cache (<[ns := key]> (ew_cache x)) x) ;;! ret (inl built)
       end.

Definition deadLetterOutcome (item : Item) (reason : string) : M W (ProcessOutcome * error) :=
  let! e := MarkDeadLetter (ci_ID item) reason in
  if negb (nil_err e) then ret (OutcomeFailed, e) else ret (OutcomeDeadLetter, []).

(** Best effort. *)
Definition markFailed (item : Item) (reason : string) : M W () :=
  MarkFailed (ci_ID item) reason ;;! ret tt.

Definition handleEmbedError (item : Item) (err : error) : M W (ProcessOutcome * error) :=
  if errors_is err ErrZeroNorm || errors_is err ErrInputTooLarge || errors_is err ErrStrategyDimension
  then deadLetterOutcome item (Error err)
  else markFailed item (Error err) ;;! ret (OutcomeFailed, err).

Definition maxAttempts (s : EmbedService) (cfg : Config) : Z :=
  let m := if (cfg_CatalogMaxAttempts cfg <=? 0)%Z then es_defaultMaxAttempts s else cfg_CatalogMaxAttempts cfg in
  if (m <=? 0)%Z then 5%Z else m.

(** After the vector is there: the collection, the id, the point, the row. *)
Definition store_vector (ctx : Ctx) (item : Item) (cfg : Config) (strategy : Strategy) (vec : list float32) : M W (ProcessOutcome * error) :=
  let! e := ensureNamespaceCollections ctx (ci_Namespace item) cfg in
  if negb (nil_err e) then markFailed item (Error e) ;;! ret (OutcomeFailed, e)
  else
    let! p := GetOrCreateObjectID ctx (ci_ObjectID item) (ci_Namespace item) in
    match p with
    | inr e => markFailed item (Error e) ;;! ret (OutcomeFailed, e)
    | inl pointID =>
        let! embeddedAt := gets w_now in
        let! e := upsertVector item (resolveIncarnation ctx (ci_Namespace item) cfg) pointID vec strategy embeddedAt in
        if negb (nil_err e) then
          invalidateEnsured (ci_Namespace item) ;;! markFailed item (Error e) ;;! ret (OutcomeFailed, e)
        else
          let! e := MarkEmbedded (ci_ID item) (st_ID strategy) (st_Version strategy) embeddedAt (ci_ContentHash item) in
          if negb (nil_err e) then ret (OutcomeFailed, e) else ret (OutcomeEmbedded, [])
    end.

Definition attempt_item (ctx : Ctx) (item : Item) (cfg : Config) : M W (ProcessOutcome * error) :=
  let! r := resolveStrategy (ci_Namespace item) cfg in
  match r with
  | inr e => deadLetterOutcome item (Error e)
  | inl strategy =>
      let! v := strategy_Embed strategy (ci_Content item) in
      match v with
      | inr e => handleEmbedError item e
      | inl vec =>
          if negb (Z.of_nat (length vec) =? cfg_EmbeddingDim cfg)%Z then deadLetterOutcome item (Error [ErrStrategyDimension])
          else store_vector ctx item cfg strategy vec
      end
  end.

Definition processLoadedItem (s : EmbedService) (ctx : Ctx) (item : Item) : M W (ProcessOutcome * error) :=
  let! c := nsCfg_Get (ci_Namespace item) in
  match c with
  | inr e => ret (OutcomeFailed, e)
  | inl None => ret (OutcomeSkipped, [])
  | inl (Some cfg) =>
      if negb (bool_decide (cfg_DenseSource cfg = DenseSourceCatalog)) then ret (OutcomeSkipped, [])
      else if bool_decide (ci_State item = StateEmbedded) && bool_decide (ci_StrategyID item = cfg_CatalogStrategyID cfg)
              && bool_decide (ci_StrategyVersion item = cfg_CatalogStrategyVersion cfg) then ret (OutcomeSkipped, [])
      else
        let! a := MarkInFlight (ci_ID item) in
        match a with
        | inr e => if errors_is e ErrItemNotFound then ret (OutcomeSkipped, []) else ret (OutcomeFailed, e)
        | inl attempt =>
            if (maxAttempts s cfg <? attempt)%Z then deadLetterOutcome item (Error [])
            else attempt_item ctx item cfg
        end
  end.

(** Under a lifecycle the outcome is a variable the section assigns: when the
    section never runs its callback it keeps its zero value. *)
Definition ProcessItem (s : EmbedService) (ctx : Ctx) (catalogItemID : Z) : M W (ProcessOutcome * error) :=
  let! r := LoadByID catalogItemID in
  match r with
  | inr e => if errors_is e ErrItemNotFound then ret (OutcomeSkipped, []) else ret (OutcomeFailed, e)
  | inl item =>
      match es_lifecycle s with
      | Some svc => WithWriter OutcomeEmbedded svc ctx (ci_Namespace item) (λ leased _, processLoadedItem s leased item)
      | None => processLoadedItem s ctx item
      end
  end.

(** ** The worker *)

(** [strconv.ParseInt(s, 10, 64)], [None] for either error. *)
Definition parse_int (s : string) : option Z :=
  match s with
  | String "-"%char r => n ← parse_uint r; if (n <=? 2 ^ 63)%Z then Some (- n)%Z else None
  | String "+"%char r => n ← parse_uint r; if (n <? 2 ^ 63)%Z then Some n else None
  | _ => n ← parse_uint s; if (n <? 2 ^ 63)%Z then Some n else None
  end.

(** Redis answers every field as a string. *)
Definition stringField (m : gmap string string) (key : string) : string := default "" (m !! key).

(** The fields the worker uses. *)
Record StreamEntry := {
  sn_CatalogItemID : Z;
  sn_NamespaceGeneration : option Z;
}.

Definition DecodeStreamEntry (msg : XMessage) : option StreamEntry :=
  raw ← Values msg !! "catalog_item_id";
  itemID ← parse_int raw;
  let g := stringField (Values msg) "namespace_generation" in
  if bool_decide (g = "") then Some {| sn_CatalogItemID := itemID; sn_NamespaceGeneration := None |}
  else
    generation ← parse_int g;
    if (generation <? 1)%Z then None else Some {| sn_CatalogItemID := itemID; sn_NamespaceGeneration := Some generation |}.

Definition XAck (id : string) : M W () :=
  stmt (λ _ d, ((), set_ed_acked (ed_acked d ++ [id]) d)) ;;! ret tt.

Definition process_and_ack (s : EmbedService) (ctx : Ctx) (entry : StreamEntry) (msg : XMessage) : M W () :=
  let! ' (out, _) := ProcessItem s ctx (sn_CatalogItemID entry) in
  if ShouldAck out then XAck (ID msg) else ret tt.

Definition handleMessage (s : EmbedService) (ctx : Ctx) (lifecycle : bool) (ns : string) (msg : XMessage) : M W () :=
  match DecodeStreamEntry msg with
  | None => XAck (ID msg)
  | Some entry =>
      if lifecycle then
        let! ' (disposition, lifecycleErr) := EvaluateEnvelope ns (sn_NamespaceGeneration entry) in
        if negb (nil_err lifecycleErr) then ret tt
        else if bool_decide (disposition = Some EnvelopeStale) then XAck (ID msg)
        else process_and_ack s ctx entry msg
      else process_and_ack s ctx entry msg
  end.

Definition ListCatalogNamespaces : M W (list Config + error) :=
  stmt (λ _ d, (filter (λ c, cfg_DenseSource c = DenseSourceCatalog) (map_to_list (ed_configs d)).*2, d)).

Definition embedStreamName (ns : string) (generation : Z) : option string :=
  Incarnation_MustPhysicalName (NewIncarnation ns generation) KindEmbedStream.

(** The streams of the namespaces that are not paused; [None] is a panic. *)
Definition enabled_streams (cfgs : list Config) : option (list string) :=
  mapM (λ c, embedStreamName (cfg_Namespace c) (cfg_Generation c)) (filter (λ c, cfg_Paused c = false) cfgs).

Definition refreshNamespaces : M W error :=
  let! r := ListCatalogNamespaces in
  match r with
  | inr e => ret e
  | inl cfgs =>
      match enabled_streams cfgs with
      | None => ret [ErrPanic]
      | Some streams =>
          let enabled : gset string := list_to_set streams in
          on_embed (λ x, set_running (filter (λ k, k ∈ enabled) (enabled ∪ ew_running x)) x) ;;! ret []
      end
  end.

(** ** The recovery sweeper *)

Record SweeperConfig := {
  sw_PendingStaleAfter : Z;
  sw_InFlightStaleAfter : Z;
  sw_BatchSize : nat;
}.

Definition streamDrained (ns : string) (generation : Z) : M W (bool + error) :=
  match embedStreamName ns generation with
  | None => ret (inr [ErrPanic])
  | Some stream =>
      stmt (λ _ d, (match ed_streams d !! stream with
                    | Some (Some (lag, pending)) => (lag =? 0)%Z && (pending =? 0)%Z
                    | _ => true
                    end, d))
  end.

Definition older (a b : Item) : Prop := (ci_UpdatedAt a <= ci_UpdatedAt b)%Z.
#[global] Instance older_dec a b : Decision (older a b).
Proof. unfold older. apply _. Defined.

(** ORDER BY updated_at LIMIT n, over the rows in one state. *)
Definition stranded (ns : string) (st : CatalogState) (cutoff : Z) (limit : nat) (d : EmbedDB) : list Item :=
  take limit (merge_sort older
    (filter (λ i, ci_Namespace i = ns ∧ ci_State i = st ∧ (ci_UpdatedAt i < cutoff)%Z) (map_to_list (ed_items d)).*2)).

Definition ListStrandedPending (ns : string) (cutoff : Z) (limit : nat) : M W (list Item + error) :=
  stmt (λ _ d, (stranded ns StatePending cutoff limit d, d)).

Definition ResetStrandedInFlight (ns : string) (cutoff : Z) (limit : nat) : M W (list Item + error) :=
  stmt (λ now d,
    let rows := stranded ns StateInFlight cutoff limit d in
    (rows, set_ed_items (foldr (λ i m, alter (pending_row now) (ci_ID i) m) (ed_items d) rows) d)).

(** XADD creates a missing stream; an entry is owed to an existing group. *)
Definition sweep_publish (ns : string) (generation : Z) (item : Item) (strategyID strategyVersion : string) (now : Z) : M W error :=
  match embedStreamName ns generation with
  | None => ret [ErrPanic]
  | Some stream =>
      let entry := {| ee_Stream := stream; ee_ItemID := ci_ID item; ee_Namespace := ns; ee_Generation := generation;
                      ee_ObjectID := ci_ObjectID item; ee_StrategyID := strategyID; ee_StrategyVersion := strategyVersion;
                      ee_EnqueuedAt := now |} in
      let! r := stmt (λ _ d, ((), set_ed_streams
                  (<[stream := match ed_streams d !! stream with
                               | Some (Some (lag, pending)) => Some ((lag + 1)%Z, pending)
                               | _ => None
                               end]> (ed_streams d)) (ed_added d ++ [entry]) d)) in
      ret (match r with inr e => e | inl _ => [] end)
  end.

Fixpoint republish (ns : string) (generation : Z) (items : list Item) (strategyID strategyVersion : string) (now : Z) : M W () :=
  match items with
  | [] => ret tt
  | item :: rest =>
      sweep_publish ns generation item strategyID strategyVersion now ;;! (* a failure is only logged *)
      republish ns generation rest strategyID strategyVersion now
  end.

Definition sweepNamespace (cfg : SweeperConfig) (ns : string) (generation : Z) (strategyID strategyVersion : string) : M W () :=
  let! drained := streamDrained ns generation in
  match drained with
  | inr _ | inl false => ret tt
  | inl true =>
      let! now := gets w_now in
      let! pending := ListStrandedPending ns (now - sw_PendingStaleAfter cfg) (sw_BatchSize cfg) in
      match pending with
      | inr _ => ret tt
      | inl rows =>
          let! reset := ResetStrandedInFlight ns (now - sw_InFlightStaleAfter cfg) (sw_BatchSize cfg) in
          let reset := match reset with inl l => l | inr _ => [] end in
          republish ns generation (rows ++ reset) strategyID strategyVersion now
      end
  end.

Fixpoint sweep_all (lc : option Service) (ctx : Ctx) (cfg : SweeperConfig) (configs : list Config) : M W () :=
  match configs with
  | [] => ret tt
  | c :: rest =>
      let! cancelled := fault in
      if cancelled then ret tt
      else
        let sweep := sweepNamespace cfg (cfg_Namespace c) (cfg_Generation c) (cfg_CatalogStrategyID c) (cfg_CatalogStrategyVersion c) in
        (match lc with
         | None => sweep
         | Some svc =>
             WithWriter tt svc ctx (cfg_Namespace c) (λ _ current,
               if negb (nl_generation current =? cfg_Generation c)%Z then ret (tt, []) else sweep ;;! ret (tt, [])) ;;! ret tt
         end) ;;!
        sweep_all lc ctx cfg rest
  end.

Definition sweeper_tick (lc : option Service) (ctx : Ctx) (cfg : SweeperConfig) : M W () :=
  let! r := ListCatalogNamespaces in
  match r with inr _ => ret tt | inl configs => sweep_all lc ctx cfg configs end.

(** ** The re-embed watcher *)

Definition TriggerReembed : string := "admin_reembed".

Definition open_run (r : RunRow) : Prop := rl_TriggerSource r = TriggerReembed ∧ rl_CompletedAt r = None.

Definition ListOpenReembedRuns : M W (list RunRow + error) := stmt (λ _ d, (filter open_run (ed_runs d), d)).

(** An item that still has work under the target: a NULL strategy is the empty
    one here. *)
Definition stale_item (ns sid sver : string) (i : Item) : Prop :=
  ci_Namespace i = ns ∧ ci_State i ∈ [StatePending; StateInFlight; StateFailed] ∧
  (ci_StrategyID i = "" ∨ ci_StrategyVersion i = "" ∨ (ci_StrategyID i, ci_StrategyVersion i) ≠ (sid, sver)).

#[global] Instance stale_item_dec ns sid sver i : Decision (stale_item ns sid sver i).
Proof. unfold stale_item. apply _. Defined.

Definition CountStaleCatalogItems (ns sid sver : string) : M W (nat + error) :=
  stmt (λ _ d, (length (filter (stale_item ns sid sver) (map_to_list (ed_items d)).*2), d)).

Definition CountEmbeddedCatalogItems (ns sid sver : string) : M W (nat + error) :=
  stmt (λ _ d, (length (filter (λ i, ci_Namespace i = ns ∧ ci_State i = StateEmbedded ∧
                                     (ci_StrategyID i, ci_StrategyVersion i) = (sid, sver)) (map_to_list (ed_items d)).*2), d)).

Definition complete_row (id : Z) (processed : nat) (completedAt durationMs : Z) (r : RunRow) : RunRow :=
  if decide (rl_ID r = id ∧ open_run r) then
    {| rl_ID := rl_ID r; rl_Namespace := rl_Namespace r; rl_TriggerSource := rl_TriggerSource r; rl_TargetID := rl_TargetID r;
       rl_TargetVersion := rl_TargetVersion r; rl_StartedAt := rl_StartedAt r; rl_CompletedAt := Some completedAt;
       rl_DurationMs := durationMs; rl_Processed := Z.of_nat processed; rl_Success := true; rl_Error := None |}
  else r.

(** The watcher only ever reports success. *)
Definition CompleteReembedRun (id : Z) (processed : nat) (completedAt durationMs : Z) : M W error :=
  let! r := stmt (λ _ d, ((), set_ed_runs (complete_row id processed completedAt durationMs <$> ed_runs d) d)) in
  ret (match r with inr e => e | inl _ => [] end).

Definition watch_run (lc : option Service) (ctx : Ctx) (run : RunRow) : M W () :=
  let! stale := CountStaleCatalogItems (rl_Namespace run) (rl_TargetID run) (rl_TargetVersion run) in
  match stale with
  | inr _ => ret tt
  | inl stale =>
      let! p := CountEmbeddedCatalogItems (rl_Namespace run) (rl_TargetID run) (rl_TargetVersion run) in
      let processed := match p with inl n => n | inr _ => 0%nat end in
      if (0 <? stale)%nat then ret tt
      else
        let! now := gets w_now in
        let complete := CompleteReembedRun (rl_ID run) processed now (Z.quot (now - rl_StartedAt run) 1000000) in
        match lc with
        | Some svc => WithWriter tt svc ctx (rl_Namespace run) (λ _ _, let! e := complete in ret (tt, e)) ;;! ret tt
        | None => complete ;;! ret tt
        end
  end.

Fixpoint watch_runs (lc : option Service) (ctx : Ctx) (runs : list RunRow) : M W () :=
  match runs with
  | [] => ret tt
  | run :: rest => watch_run lc ctx run ;;! watch_runs lc ctx rest
  end.

Definition watcher_tick (lc : option Service) (ctx : Ctx) : M W () :=
  let! r := ListOpenReembedRuns in
  match r with inr _ => ret tt | inl runs => watch_runs lc ctx runs end.
End service.
