(* ===== verification/EmbedderFacts.v ===== *)
(** * Properties of the embedder

    What an item that counts as embedded is backed by, which entries are
    acknowledged, that a failing item is dead-lettered, and what the sweeper
    and the watcher change. *)

From stdpp Require Import base tactics gmap sets strings list sorting.
From Stdlib Require Import ZArith Lia.
From S2P Require Import Prelude GoLib NsNames NsLedger NsService Hoare Float64 NamespaceConfig Strategy StreamConsumer Catalog Embedder.

(** No other process commits anything. *)
Definition quiet (x : EmbedWorld) : Prop := ew_others x = [].

Definition items_wf (d : EmbedDB) : Prop := ∀ id i, ed_items d !! id = Some i → ci_ID i = id.

Lemma set_db_id x : set_db (ew_db x) x = x.
Proof. by destruct x. Qed.

Section statements.
Context {c : bool}.

Lemma writes_stmt {A} (f : Z → EmbedDB → A * EmbedDB) now x (Q : A + error → EmbedWorld → Prop) :
  quiet x → (c = false → Q (inr [ErrDriver]) x) → Q (inl (f now (ew_db x)).1) (set_db (f now (ew_db x)).2 x) → writes c (stmt f) now x Q.
Proof.
  intros Hq He HQ. unfold stmt, on_embed.
  eapply (writes_bind _ _ _ _ (λ _ x', x' = x)); [apply writes_modify; unfold interfere; by rewrite Hq|]. intros [] ? ->.
  eapply (writes_bind _ _ _ _ (λ b x', x' = x ∧ (c = true → b = false))); [apply writes_fault; [by intros ->|done]|].
  intros [] ? [-> Hb]; [apply writes_ret, He; by destruct c; [specialize (Hb eq_refl)|]|]. by intros w <- <- Hf.
Qed.

(** A read. *)
Lemma writes_read {A} (f : Z → EmbedDB → A) now x (Q : A + error → EmbedWorld → Prop) :
  quiet x → (c = false → Q (inr [ErrDriver]) x) → Q (inl (f now (ew_db x))) x → writes c (stmt (λ now d, (f now d, d))) now x Q.
Proof. intros Hq He HQ. apply writes_stmt; [done|done|]. cbn [fst snd]. by destruct x. Qed.
End statements.

(** ** An embedded item *)

(** Worlds a step of the service leaves: nobody else acts, and only what the
    step owns changes. *)
Record keeps_items (x x' : EmbedWorld) : Prop := {
  ki_quiet : quiet x';
  ki_items : ed_items (ew_db x') = ed_items (ew_db x);
  ki_acked : ed_acked (ew_db x') = ed_acked (ew_db x);
}.

Section service_facts.
Context (registry : Registry) (Error : error → string).
Context {c : bool}.

Lemma keeps_items_trans x1 x2 x3 : keeps_items x1 x2 → keeps_items x2 x3 → keeps_items x1 x3.
Proof. intros [] []. split; congruence. Qed.

Lemma ensure_dense_keeps name dim dist now x : quiet x → writes c (ensure_dense name dim dist) now x (λ _ x', keeps_items x x').
Proof.
  intros Hq. unfold ensure_dense. eapply (writes_bind _ _ _ _ (λ _ x', x' = x)); [by apply writes_read|]. intros [[]|e] ? ->; [by apply writes_ret|..|by apply writes_ret].
  eapply (writes_bind _ _ _ _ (λ _ x', keeps_items x x')); [|intros r x' Hk; by apply writes_ret].
  apply writes_stmt; [done|done|]. destruct (ed_collections (ew_db x) !! name); cbn [fst snd]; [rewrite set_db_id|]; by split.
Qed.

Lemma ensureNamespaceCollections_keeps ctx ns cfg now x :
  quiet x → writes c (ensureNamespaceCollections ctx ns cfg) now x (λ _ x', keeps_items x x').
Proof.
  intros Hq. unfold ensureNamespaceCollections. cbv zeta.
  eapply (writes_bind _ _ _ _ (λ _ x', x' = x)); [by apply (writes_gets ew_ensured)|]. intros s ? ->. case_bool_decide; [by apply writes_ret|].
  eapply (writes_bind _ _ _ _ (λ _ x', keeps_items x x')).
  - unfold ensureCollFn. destruct (Incarnation_MustPhysicalName _ KindObjectsDense); [|by apply writes_ret].
    destruct (Incarnation_MustPhysicalName _ KindSubjectsDense); [|by apply writes_ret].
    eapply writes_bind; [by apply ensure_dense_keeps|]. intros e x' Hk. destruct (negb _); [by apply writes_ret|].
    eapply writes_mono; [apply ensure_dense_keeps, Hk|]. intros ? x''. by apply keeps_items_trans.
  - intros e x' Hk. destruct (negb _); [by apply writes_ret|].
    eapply (writes_bind _ _ _ _ (λ _ x'', keeps_items x x'')); [by apply writes_modify; destruct Hk|]. intros [] x'' Hk'. by apply writes_ret.
Qed.

Lemma GetOrCreateObjectID_keeps ctx obj ns now x :
  quiet x → writes c (GetOrCreateObjectID ctx obj ns) now x
    (λ r x', keeps_items x x' ∧ ∀ n, r = inl n → ed_ids (ew_db x') !! (ns, obj) = Some n ∧ RequireNamespaceLease ctx ns = []).
Proof.
  intros Hq. unfold GetOrCreateObjectID. cbv zeta. destruct (RequireNamespaceLease ctx ns) as [|y e]; cbn [nil_err negb]; [|by apply writes_ret].
  apply writes_stmt; [done|done|]. destruct (ed_ids (ew_db x) !! (ns, obj)) as [n|] eqn:E; cbn [fst snd].
  - split; [by destruct x|]. by intros ? [= <-].
  - split; [done|]. intros ? [= <-]. cbn. by rewrite lookup_insert_eq.
Qed.

Lemma resolveStrategy_keeps ns cfg now x :
  quiet x → writes c (resolveStrategy registry ns cfg) now x
    (λ r x', keeps_items x x' ∧ ew_db x' = ew_db x ∧
       r = strategy_of registry (cfg_CatalogStrategyID cfg, cfg_CatalogStrategyVersion cfg, cfg_CatalogStrategyParams cfg)).
Proof.
  intros Hq. unfold resolveStrategy. cbv zeta. eapply (writes_bind _ _ _ _ (λ _ x', x' = x)); [by apply (writes_gets ew_cache)|].
  intros cache ? ->. case_bool_decide; [by apply writes_ret|]. destruct (strategy_of registry _) as [built|e] eqn:E; [|by apply writes_ret].
  eapply (writes_bind _ _ _ _ (λ _ x', keeps_items x x' ∧ ew_db x' = ew_db x)); [by apply writes_modify|]. intros [] x' [Hk Hd]. by apply writes_ret.
Qed.

Lemma upsertVector_keeps item inc pointID vec strategy at_ now x :
  quiet x → writes c (upsertVector item inc pointID vec strategy at_) now x
    (λ e x', keeps_items x x' ∧ ed_ids (ew_db x') = ed_ids (ew_db x) ∧
       (e = [] → ∃ name coll p, Incarnation_MustPhysicalName inc KindObjectsDense = Some name ∧
          ed_collections (ew_db x') !! name = Some coll ∧ cl_size coll = Z.of_nat (length vec) ∧
          cl_points coll !! pointID = Some p ∧ eb_vector p = vec ∧ eb_object_id p = ci_ObjectID item)).
Proof.
  intros Hq. unfold upsertVector. destruct (Incarnation_MustPhysicalName inc KindObjectsDense) as [name|]; [|by apply writes_ret].
  eapply (writes_bind _ _ _ _ (λ r x', keeps_items x x' ∧ ed_ids (ew_db x') = ed_ids (ew_db x) ∧ r ≠ inr [] ∧
    (r = inl [] → ∃ coll p, ed_collections (ew_db x') !! name = Some coll ∧ cl_size coll = Z.of_nat (length vec) ∧
       cl_points coll !! pointID = Some p ∧ eb_vector p = vec ∧ eb_object_id p = ci_ObjectID item))).
  - apply writes_stmt; [done|done|]. destruct (ed_collections (ew_db x) !! name) as [coll|]; [destruct (Z.eqb_spec (Z.of_nat (length vec)) (cl_size coll))|]; cbn [fst snd].
    + split; [done|]. split; [done|]. split; [done|]. intros _. eexists _, _. cbn. rewrite lookup_insert_eq. split; [done|]. split; [done|]. split; [apply lookup_insert_eq|done].
    + split; [by destruct x|]. by destruct x.
    + split; [by destruct x|]. by destruct x.
  - intros r x' (Hk & Hi & Hne & Hr). apply writes_ret. split; [done|]. split; [done|]. destruct r as [e|e]; intros ->; [|done].
    destruct (Hr eq_refl) as (coll & p & ?). by exists name, coll, p.
Qed.

(** What a row update leaves. *)
Definition updated (id : Z) (f : Item → Item) (x x' : EmbedWorld) : Prop :=
  ∃ i, ed_items (ew_db x) !! id = Some i ∧ x' = set_db (set_ed_items (<[id := f i]> (ed_items (ew_db x))) (ew_db x)) x.

Lemma update_item_writes {B} id guard (f : Z → Item → Item) (k : option Item + error → B) now x (Q : B → EmbedWorld → Prop) :
  quiet x → (c = false → Q (k (inr [ErrDriver])) x) →
  (∀ i, ed_items (ew_db x) !! id = Some i → guard i = true →
     Q (k (inl (Some (f now i)))) (set_db (set_ed_items (<[id := f now i]> (ed_items (ew_db x))) (ew_db x)) x)) →
  ((∀ i, ed_items (ew_db x) !! id = Some i → guard i = false) → Q (k (inl None)) x) →
  writes c (let! r := stmt (λ now d, update_item id guard (f now) d) in ret (k r)) now x Q.
Proof.
  intros Hq He Hs Hn. eapply (writes_bind _ _ _ _ (λ r x', Q (k r) x')); [|intros r x' Hr; by apply writes_ret].
  apply writes_stmt; [done|done|]. unfold update_item. destruct (ed_items (ew_db x) !! id) as [i|] eqn:E.
  - destruct (guard i) eqn:G; cbn [fst snd]; [by apply Hs|]. rewrite set_db_id.
    apply Hn. by intros ? [= <-].
  - cbn [fst snd]. rewrite set_db_id. by apply Hn.
Qed.

Lemma markFailed_writes item reason now x :
  quiet x → writes c (markFailed item reason) now x
    (λ _ x', quiet x' ∧ ed_acked (ew_db x') = ed_acked (ew_db x) ∧
       (c = true → ∀ i, ed_items (ew_db x) !! ci_ID item = Some i →
          x' = set_db (set_ed_items (<[ci_ID item := failed_row now StateFailed reason i]> (ed_items (ew_db x))) (ew_db x)) x)).
Proof.
  intros Hq. unfold markFailed, MarkFailed. eapply (writes_bind _ _ _ _ (λ _ x', quiet x' ∧ ed_acked (ew_db x') = ed_acked (ew_db x) ∧
    (c = true → ∀ i, ed_items (ew_db x) !! ci_ID item = Some i →
       x' = set_db (set_ed_items (<[ci_ID item := failed_row now StateFailed reason i]> (ed_items (ew_db x))) (ew_db x)) x))).
  - apply (update_item_writes _ _ (λ now, failed_row now StateFailed reason)); [done| | |].
    + intros ->. split; [done|]. by split.
    + intros i Hi _. split; [done|]. split; [done|]. intros _ i' Hi'. by rewrite Hi in Hi'; simplify_eq.
    + intros Hn. split; [done|]. split; [done|]. intros _ i Hi. by specialize (Hn i Hi).
  - intros r x' Hx. by apply writes_ret.
Qed.

(** The result of an item and the state of its row. *)
Definition dead (item : Item) (x' : EmbedWorld) : Prop :=
  ∃ i, ed_items (ew_db x') !! ci_ID item = Some i ∧ ci_State i = StateDeadLetter.

Lemma deadLetterOutcome_writes item reason now x :
  quiet x → writes c (deadLetterOutcome item reason) now x
    (λ r x', quiet x' ∧ ed_acked (ew_db x') = ed_acked (ew_db x) ∧
       (r.1 = OutcomeFailed ∨ r = (OutcomeDeadLetter, []) ∧ dead item x') ∧
       (c = true → ∀ i, ed_items (ew_db x) !! ci_ID item = Some i →
          x' = set_db (set_ed_items (<[ci_ID item := failed_row now StateDeadLetter reason i]> (ed_items (ew_db x))) (ew_db x)) x)).
Proof.
  intros Hq. unfold deadLetterOutcome, MarkDeadLetter.
  eapply (writes_bind _ _ _ _ (λ e x', quiet x' ∧ ed_acked (ew_db x') = ed_acked (ew_db x) ∧ (e = [] → dead item x') ∧
    (c = true → ∀ i, ed_items (ew_db x) !! ci_ID item = Some i →
       x' = set_db (set_ed_items (<[ci_ID item := failed_row now StateDeadLetter reason i]> (ed_items (ew_db x))) (ew_db x)) x))).
  - apply (update_item_writes _ _ (λ now, failed_row now StateDeadLetter reason)); [done| | |].
    + intros ->. done.
    + intros i Hi _. split; [done|]. split; [done|]. split; [|intros _ i' Hi'; rewrite Hi in Hi'; by simplify_eq].
      intros _. eexists. cbn. by rewrite lookup_insert_eq.
    + intros Hn. split; [done|]. split; [done|]. split; [done|]. intros _ i Hi. by specialize (Hn i Hi).
  - intros e x' (? & ? & Hd & ?). destruct e as [|y e]; cbn [nil_err negb]; apply writes_ret; split_and!; auto.
Qed.

(** An item that counts as embedded: its row, and the vector behind it. *)
Definition item_embedded (cfg : Config) (g : Z) (item : Item) (d : EmbedDB) : Prop :=
  ∃ strategy vec name n coll p i,
    strategy_of registry (cfg_CatalogStrategyID cfg, cfg_CatalogStrategyVersion cfg, cfg_CatalogStrategyParams cfg) = inl strategy ∧
    st_Embed strategy (ci_Content item) = inl vec ∧ Z.of_nat (length vec) = cfg_EmbeddingDim cfg ∧
    Incarnation_MustPhysicalName (NewIncarnation (ci_Namespace item) g) KindObjectsDense = Some name ∧
    ed_ids d !! (ci_Namespace item, ci_ObjectID item) = Some n ∧
    ed_collections d !! name = Some coll ∧ cl_size coll = Z.of_nat (length vec) ∧
    cl_points coll !! n = Some p ∧ eb_vector p = vec ∧ eb_object_id p = ci_ObjectID item ∧
    ed_items d !! ci_ID item = Some i ∧ ci_State i = StateEmbedded ∧ ci_Content i = ci_Content item ∧
    ci_StrategyID i = st_ID strategy ∧ ci_StrategyVersion i = st_Version strategy ∧ ci_AttemptCount i = 0%Z.

(** Nothing to do for an item: its namespace does not embed, or it is embedded
    under the active strategy already. *)
Definition skippable (item : Item) (d : EmbedDB) : Prop :=
  ∀ cfg, ed_configs d !! ci_Namespace item = Some cfg → cfg_DenseSource cfg = DenseSourceCatalog →
  ci_State item = StateEmbedded ∧ ci_StrategyID item = cfg_CatalogStrategyID cfg ∧ ci_StrategyVersion item = cfg_CatalogStrategyVersion cfg.

(** How processing a loaded item may end. *)
Definition processed (g : Z) (item : Item) (x : EmbedWorld) (r : ProcessOutcome * error) (x' : EmbedWorld) : Prop :=
  quiet x' ∧ ed_acked (ew_db x') = ed_acked (ew_db x) ∧
  match r.1 with
  | OutcomeFailed => True
  | OutcomeSkipped => x' = x ∧ skippable item (ew_db x)
  | OutcomeDeadLetter => r.2 = [] ∧ dead item x'
  | OutcomeEmbedded => r.2 = [] ∧ ∃ cfg, ed_configs (ew_db x) !! ci_Namespace item = Some cfg ∧
      cfg_DenseSource cfg = DenseSourceCatalog ∧ item_embedded cfg g item (ew_db x')
  end.

Lemma store_vector_processed ctx l item cfg strategy vec now x :
  ctx_lease ctx = Some l → lv_namespace l = ci_Namespace item → quiet x →
  (∃ i, ed_items (ew_db x) !! ci_ID item = Some i ∧ ci_Content i = ci_Content item) →
  strategy_of registry (cfg_CatalogStrategyID cfg, cfg_CatalogStrategyVersion cfg, cfg_CatalogStrategyParams cfg) = inl strategy →
  st_Embed strategy (ci_Content item) = inl vec → Z.of_nat (length vec) = cfg_EmbeddingDim cfg →
  writes c (store_vector Error ctx item cfg strategy vec) now x
    (λ r x', quiet x' ∧ ed_acked (ew_db x') = ed_acked (ew_db x) ∧
       (r.1 = OutcomeFailed ∨ r = (OutcomeEmbedded, []) ∧ item_embedded cfg (lv_generation l) item (ew_db x'))).
Proof.
  intros Hl Hln Hq (i & Hi & Hcont) Hst Hemb Hlen. unfold store_vector.
  set (Q := λ (r : ProcessOutcome * error) x', quiet x' ∧ ed_acked (ew_db x') = ed_acked (ew_db x) ∧
    (r.1 = OutcomeFailed ∨ r = (OutcomeEmbedded, []) ∧ item_embedded cfg (lv_generation l) item (ew_db x'))).
  assert (∀ e x1, keeps_items x x1 → writes c (markFailed item (Error e) ;;! ret (OutcomeFailed, e)) now x1 Q) as Hfail.
  { intros e x1 [Hq1 _ Ha]. eapply writes_bind; [by apply markFailed_writes|]. intros [] x2 (Hq2 & Ha2 & _). apply writes_ret.
    split; [done|]. split; [congruence|by left]. }
  eapply writes_bind; [by apply ensureNamespaceCollections_keeps|]. intros e x1 K1. destruct (negb _); [by apply Hfail|].
  eapply writes_bind; [apply GetOrCreateObjectID_keeps, K1|]. intros [n|e'] x2 [K2 Hn]; [|apply Hfail; exact (keeps_items_trans _ _ _ K1 K2)].
  destruct (Hn n eq_refl) as [Hid Hreq]. pose proof (keeps_items_trans _ _ _ K1 K2) as K.
  eapply (writes_bind _ _ _ _ (λ t x', t = now ∧ x' = x2)); [by apply writes_gets_now|]. intros ? ? [-> ->].
  eapply writes_bind; [apply upsertVector_keeps, K2|]. intros e1 x3 (K3 & Hids & Hup). pose proof (keeps_items_trans _ _ _ K K3) as K'.
  destruct e1 as [|y e1]; cbn [nil_err negb].
  2: { eapply (writes_bind _ _ _ _ (λ _ x', keeps_items x x')); [apply writes_modify; destruct K'; by split|]. intros [] x4 K4. by apply Hfail. }
  destruct (Hup eq_refl) as (name & coll & p & Hname & Hcoll & Hsize & Hp & Hvec & Hobj).
  unfold resolveIncarnation in Hname. rewrite (leased_incarnation _ _ _ Hl Hln Hreq) in Hname.
  eapply (writes_bind _ _ _ _ (λ e x', quiet x' ∧ ed_acked (ew_db x') = ed_acked (ew_db x) ∧
    (e = [] → item_embedded cfg (lv_generation l) item (ew_db x')))).
  - unfold MarkEmbedded. apply (update_item_writes _ _ (λ t, embedded_row t (st_ID strategy) (st_Version strategy) now)); [apply K'| | |].
    + intros _. split; [apply K'|]. split; [apply K'|done].
    + intros i' Hi' _. split; [apply K'|]. split; [apply K'|]. intros _. rewrite (ki_items _ _ K'), Hi in Hi'. simplify_eq.
      eexists strategy, _, name, n, coll, p, _. cbn [ew_db set_db set_ed_items ed_ids ed_collections ed_items]. rewrite lookup_insert_eq.
      split_and!; try done. by rewrite Hids.
    + intros _. split; [apply K'|]. split; [apply K'|done].
  - intros e4 x4 (Hq4 & Ha4 & He4). destruct e4 as [|y e4]; cbn [nil_err negb]; apply writes_ret; (split; [done|]); (split; [done|]); [right|by left].
    split; [done|]. by apply He4.
Qed.

Lemma handleEmbedError_processed item err now x :
  quiet x → writes c (handleEmbedError Error item err) now x
    (λ r x', quiet x' ∧ ed_acked (ew_db x') = ed_acked (ew_db x) ∧
       (r.1 = OutcomeFailed ∨ r = (OutcomeDeadLetter, []) ∧ dead item x')).
Proof.
  intros Hq. unfold handleEmbedError. case_match.
  - eapply writes_mono; [by apply deadLetterOutcome_writes|]. intros r x' (? & ? & ? & _). done.
  - eapply writes_bind; [by apply markFailed_writes|]. intros [] x' (? & ? & _). apply writes_ret. auto.
Qed.

Lemma attempt_item_processed ctx l item cfg now x :
  ctx_lease ctx = Some l → lv_namespace l = ci_Namespace item → quiet x →
  (∃ i, ed_items (ew_db x) !! ci_ID item = Some i ∧ ci_Content i = ci_Content item) →
  writes c (attempt_item registry Error ctx item cfg) now x
    (λ r x', quiet x' ∧ ed_acked (ew_db x') = ed_acked (ew_db x) ∧
       (r.1 = OutcomeFailed ∨ r = (OutcomeDeadLetter, []) ∧ dead item x' ∨
        r = (OutcomeEmbedded, []) ∧ item_embedded cfg (lv_generation l) item (ew_db x'))).
Proof.
  intros Hl Hln Hq Hi. unfold attempt_item. eapply writes_bind; [by apply resolveStrategy_keeps|]. intros r x1 (K1 & Hd & ->).
  assert (∀ reason, writes c (deadLetterOutcome item reason) now x1 (λ r x', quiet x' ∧ ed_acked (ew_db x') = ed_acked (ew_db x) ∧
       (r.1 = OutcomeFailed ∨ r = (OutcomeDeadLetter, []) ∧ dead item x' ∨
        r = (OutcomeEmbedded, []) ∧ item_embedded cfg (lv_generation l) item (ew_db x')))) as Hdead.
  { intros reason. eapply writes_mono; [apply deadLetterOutcome_writes, K1|]. intros r x' (? & Ha & Hr & _). rewrite Hd in Ha. naive_solver. }
  destruct (strategy_of registry _) as [strategy|e] eqn:Hst; [|apply Hdead].
  eapply (writes_bind _ _ _ _ (λ v x', x' = x1 ∧ (v = inr [ErrCanceled] ∨ v = st_Embed strategy (ci_Content item)))).
  { unfold strategy_Embed. eapply (writes_bind _ _ _ _ (λ _ x', x' = x1)); [by apply writes_fault|]. intros [] ? ->; apply writes_ret; auto. }
  intros v ? [-> Hv]. destruct v as [vec|e].
  2: { eapply writes_mono; [apply handleEmbedError_processed, K1|]. intros r x' (? & Ha & Hr). rewrite Hd in Ha. naive_solver. }
  destruct Hv as [|Hv]; [done|]. destruct (Z.eqb_spec (Z.of_nat (length vec)) (cfg_EmbeddingDim cfg)) as [Hlen|]; cbn [negb]; [|apply Hdead].
  eapply writes_mono; [apply (store_vector_processed ctx l); [done|done|apply K1|by rewrite (ki_items _ _ K1)|done|done|done]|].
  intros r x' (? & Ha & Hr). rewrite Hd in Ha. naive_solver.
Qed.

Lemma processLoadedItem_processed s ctx l item now x :
  ctx_lease ctx = Some l → lv_namespace l = ci_Namespace item → quiet x → ed_items (ew_db x) !! ci_ID item = Some item →
  writes c (processLoadedItem registry Error s ctx item) now x (processed (lv_generation l) item x).
Proof.
  intros Hl Hln Hq Hi. unfold processLoadedItem.
  eapply (writes_bind _ _ _ _ (λ r x', x' = x ∧ ∀ o, r = inl o → o = ed_configs (ew_db x) !! ci_Namespace item)).
  { apply writes_read; [done|done|]. split; [done|]. by intros o [= <-]. }
  assert (∀ e, writes c (ret (OutcomeFailed, e)) now x (processed (lv_generation l) item x)) as Hfail by (intros e; by apply writes_ret).
  assert (skippable item (ew_db x) → writes c (ret (OutcomeSkipped, [])) now x (processed (lv_generation l) item x)) as Hskip by (intros Hs; by apply writes_ret).
  intros [[cfg|]|e] ? [-> Hcfg]; [|apply Hskip; specialize (Hcfg _ eq_refl); intros cfg Hc; congruence|apply Hfail]. specialize (Hcfg _ eq_refl).
  case_bool_decide as Hds; cbn [negb]; [|apply Hskip; intros cfg' Hc; congruence].
  destruct (_ && _) eqn:Hsk.
  { btests. apply Hskip. intros cfg' Hc _. rewrite <- Hcfg in Hc. by simplify_eq. }
  eapply (writes_bind _ _ _ _ (λ r x', r = inr [ErrDriver] ∧ x' = x ∨ r = inl (ci_AttemptCount item + 1)%Z ∧
    x' = set_db (set_ed_items (<[ci_ID item := in_flight now item]> (ed_items (ew_db x))) (ew_db x)) x)).
  { unfold MarkInFlight. apply (update_item_writes _ _ in_flight); [done|by left| |].
    - intros i Hi' _. right. rewrite Hi in Hi'. by simplify_eq.
    - intros Hn. by specialize (Hn _ Hi). }
  intros r x1 [[-> ->]|[-> ->]]; [apply Hfail|]. set (x1 := set_db _ x).
  assert (ed_items (ew_db x1) !! ci_ID item = Some (in_flight now item)) as Hi1 by (cbn; by rewrite lookup_insert_eq).
  destruct (maxAttempts s cfg <? ci_AttemptCount item + 1)%Z.
  - eapply writes_mono; [by apply deadLetterOutcome_writes|]. intros [o e] x' (? & Ha & [Hr|[[= -> ->] ?]] & _); (split; [done|]); (split; [done|]); [|done].
    cbn in *. by subst.
  - eapply writes_mono; [apply (attempt_item_processed ctx l); [done|done|done|by eexists]|].
    intros [o e] x' (? & Ha & Hr). split; [done|]. split; [done|]. destruct Hr as [Hr|[[[= -> ->] ?]|[[= -> ->] ?]]]; cbn in *; [by subst|done|].
    split; [done|]. by exists cfg.
Qed.
End service_facts.

(** ** One delivery *)

Lemma stmt_read_cases {A} (f : Z → EmbedDB → A) (w : W) :
  quiet (w_ext w) →
  ∃ w1, same_but_faults w w1 ∧ (w_faults w = [] → w_faults w1 = []) ∧
    (stmt (λ now d, (f now d, d)) w = (inr [ErrDriver], w1) ∧ w_faults w ≠ [] ∨
     stmt (λ now d, (f now d, d)) w = (inl (f (w_now w) (ew_db (w_ext w))), w1)).
Proof.
  intros Hq. unfold stmt, on_embed, modify, bind. go.
  assert (set_ext (interfere (w_ext w)) w = w) as -> by (unfold interfere; rewrite Hq; by destruct w).
  pose proof (fault_frame w) as Hs. destruct (decide (w_faults w = [])) as [Hf|Hf].
  - rewrite fault_nil by done. exists w. split; [done|]. split; [done|]. right. go. rewrite set_db_id. by destruct w.
  - destruct (fault w) as [[] w1]; cbn [snd] in Hs; exists w1; (split; [done|]); (split; [done|]); [by left|right]. go.
    rewrite (sbf_ext _ _ Hs), (sbf_now _ _ Hs). rewrite set_db_id, <- (sbf_ext _ _ Hs). by destruct w1.
Qed.

(** A stale verdict: the namespace is not active, or the envelope names another
    generation or none. *)
Lemma EvaluateEnvelope_stale {X} ns generation (w : World X) :
  generation ≠ Some 0%Z →
  core_same w (EvaluateEnvelope ns generation w).2 ∧
  ((EvaluateEnvelope ns generation w).1 = (Some EnvelopeStale, []) →
   ∃ row, l_rows (w_ledger w) !! ns = Some row ∧ (r_state row ≠ StateActive ∨ generation ≠ Some (r_generation row))).
Proof.
  intros Hg. unfold EvaluateEnvelope, bind. destruct (repo_GetNamespace_spec ns w) as (w' & H%sbf_core & [->| ->]); go; [done|].
  destruct (l_rows (w_ledger w) !! ns) as [row|] eqn:Hr; go; [|done]. split; [done|]. intros Hv. exists row. split; [done|].
  revert Hv. cbn [nl_state nl_generation nl_legacy scanNamespace]. case_bool_decide as Hs; cbn [negb]; [|by left].
  intros Hv. right. intros ->. revert Hv. cbn. destruct (Z.eqb_spec (r_generation row) 0) as [H0|]; [by rewrite H0 in Hg|].
  by rewrite Z.eqb_refl.
Qed.

Lemma DecodeStreamEntry_generation msg entry : DecodeStreamEntry msg = Some entry → sn_NamespaceGeneration entry ≠ Some 0%Z.
Proof.
  unfold DecodeStreamEntry. destruct (Values msg !! "catalog_item_id") as [raw|]; [|done]. cbn. destruct (parse_int raw); [|done]. cbn.
  case_bool_decide; [by intros [= <-]|]. destruct (parse_int _) as [g|]; [|done]. cbn.
  destruct (Z.ltb_spec g 1); [done|]. intros [= <-]. cbn. intros [= ->]. lia.
Qed.

Section delivery.
Context (registry : Registry) (Error : error → string) (svc : Service) (limit : Z).

Abbreviation service := {| es_lifecycle := Some svc; es_defaultMaxAttempts := limit |}.

(** How processing an item by its id may end: the row cannot be read, there is
    none, the section refuses, or the item is processed under the lease. *)
Inductive delivered (id : Z) (w : W) : ProcessOutcome * error → W → Prop :=
  | del_unread e w' : w_ext w' = w_ext w → delivered id w (OutcomeFailed, e) w'
  | del_gone w' : ed_items (ew_db (w_ext w)) !! id = None → w_ext w' = w_ext w → delivered id w (OutcomeSkipped, []) w'
  | del_refused item e w' :
      ed_items (ew_db (w_ext w)) !! id = Some item → refusal e → w_ext w' = w_ext w → delivered id w (OutcomeEmbedded, e) w'
  | del_processed item row r w' :
      ed_items (ew_db (w_ext w)) !! id = Some item → l_rows (w_ledger w) !! ci_Namespace item = Some row → r_state row = StateActive →
      processed registry (r_generation row) item (w_ext w) r (w_ext w') → delivered id w r w'.

Lemma ProcessItem_delivered ctx id w :
  quiet (w_ext w) → items_wf (ew_db (w_ext w)) → ctx_lease ctx = None →
  delivered id w (ProcessItem registry Error service ctx id w).1 (ProcessItem registry Error service ctx id w).2 ∧
  w_ledger (ProcessItem registry Error service ctx id w).2 = w_ledger w ∧ w_now (ProcessItem registry Error service ctx id w).2 = w_now w.
Proof.
  intros Hq Hwf Hctx. unfold ProcessItem, LoadByID, bind.
  destruct (stmt_read_cases (λ _ d, ed_items d !! id) w Hq) as (w1 & S1 & _ & [[-> _]| ->]); go.
  { split; [by apply del_unread, (sbf_ext _ _ S1)|]. split; [apply S1|apply S1]. }
  destruct (ed_items (ew_db (w_ext w)) !! id) as [item|] eqn:Hi; go.
  2: { cbn. split; [by apply del_gone, (sbf_ext _ _ S1)|]. split; [apply S1|apply S1]. }
  cbn [es_lifecycle].
  destruct (WithWriter_writes false OutcomeEmbedded svc ctx (ci_Namespace item) (λ leased _, processLoadedItem registry Error service leased item) w1
    (λ row, processed registry (r_generation row) item (w_ext w1))) as (Hl & Hn & _ & Hr).
  - unfold existing_lease. by rewrite Hctx.
  - done.
  - intros row Hrow Hs _. apply (processLoadedItem_processed registry Error service _ {| lv_namespace := ci_Namespace item; lv_generation := r_generation row; lv_mode := LockShared |});
      [done|done|by rewrite (sbf_ext _ _ S1)|]. rewrite (sbf_ext _ _ S1). by rewrite (Hwf _ _ Hi).
  - rewrite Hl, Hn, (sbf_ledger _ _ S1), (sbf_now _ _ S1). split; [|done].
    destruct Hr as [(e & He & -> & Hx & _)|(row & Hrow & Hs & _ & HQ)].
    + eapply del_refused; [done|done|]. by rewrite Hx, (sbf_ext _ _ S1).
    + rewrite (sbf_ext _ _ S1), (sbf_ledger _ _ S1) in *. by eapply del_processed.
Qed.

(** C31: An embedded item is backed by its vector: when no other process acts
    meanwhile, processing an item that reports success without an error, whatever
    failed and was retried before, was for a catalog namespace active in the
    ledger; the row is now embedded under the strategy the configuration names,
    with a fresh retry budget, and the dense collection of the active generation
    holds, under the object's registered id, exactly the vector that strategy
    makes of the row's content, of the configured dimension, which is the
    collection's. *)
Theorem embedded_item_has_vector ctx id w :
  quiet (w_ext w) → items_wf (ew_db (w_ext w)) → ctx_lease ctx = None →
  let r := ProcessItem registry Error service ctx id w in
  r.1 = (OutcomeEmbedded, []) →
  ∃ item row cfg, ed_items (ew_db (w_ext w)) !! id = Some item ∧
    l_rows (w_ledger w) !! ci_Namespace item = Some row ∧ r_state row = StateActive ∧
    ed_configs (ew_db (w_ext w)) !! ci_Namespace item = Some cfg ∧ cfg_DenseSource cfg = DenseSourceCatalog ∧
    item_embedded registry cfg (r_generation row) item (ew_db (w_ext r.2)).
Proof.
  intros Hq Hwf Hctx r Hr. destruct (ProcessItem_delivered ctx id w Hq Hwf Hctx) as [Hd _]. fold r in Hd. rewrite Hr in Hd.
  remember (OutcomeEmbedded, []) as res eqn:Hres in Hd. remember r.2 as w2 eqn:Hw2 in Hd.
  destruct Hd as [e w' _|w' _ _|item e w' Hi He%refusal_not_nil _|item row r' w' Hi Hrow Hs (_ & _ & Hp)]; simplify_eq.
  destruct Hp as (_ & cfg & Hcfg & Hds & Hemb). by exists item, row, cfg.
Qed.

(** What became of the item of an entry that is settled. *)
Definition item_settled (id : Z) (w w' : W) : Prop :=
  match ed_items (ew_db (w_ext w)) !! id with
  | None => True
  | Some item =>
      skippable item (ew_db (w_ext w)) ∨ (∃ i, ed_items (ew_db (w_ext w')) !! id = Some i ∧ ci_State i = StateDeadLetter) ∨
      (∃ row cfg, l_rows (w_ledger w) !! ci_Namespace item = Some row ∧ r_state row = StateActive ∧
         item_embedded registry cfg (r_generation row) item (ew_db (w_ext w')))
  end.

(** The envelope is not for the active generation. *)
Definition envelope_stale (ns : string) (entry : StreamEntry) (w : W) : Prop :=
  ∃ row, l_rows (w_ledger w) !! ns = Some row ∧
    (r_state row ≠ StateActive ∨ sn_NamespaceGeneration entry ≠ Some (r_generation row)).

Lemma XAck_writes id now x :
  quiet x → writes false (XAck id) now x (λ _ x', x' = x ∨ x' = set_db (set_ed_acked (ed_acked (ew_db x) ++ [id]) (ew_db x)) x).
Proof.
  intros Hq. unfold XAck. eapply (writes_bind _ _ _ _ (λ _ x', x' = x ∨ x' = set_db (set_ed_acked (ed_acked (ew_db x) ++ [id]) (ew_db x)) x)).
  - apply writes_stmt; [done|by left|by right].
  - intros r x' Hx. by apply writes_ret.
Qed.

Lemma process_and_ack_acked ctx entry msg w :
  quiet (w_ext w) → items_wf (ew_db (w_ext w)) → ctx_lease ctx = None →
  let w' := (process_and_ack registry Error service ctx entry msg w).2 in
  ed_acked (ew_db (w_ext w')) = ed_acked (ew_db (w_ext w)) ∨
  ed_acked (ew_db (w_ext w')) = ed_acked (ew_db (w_ext w)) ++ [ID msg] ∧
    (item_settled (sn_CatalogItemID entry) w w' ∨
     ed_items (ew_db (w_ext w')) = ed_items (ew_db (w_ext w)) ∧
     ∃ e, refusal e ∧ (ProcessItem registry Error service ctx (sn_CatalogItemID entry) w).1 = (OutcomeEmbedded, e)).
Proof.
  intros Hq Hwf Hctx. cbv zeta. unfold process_and_ack, bind.
  destruct (ProcessItem_delivered ctx (sn_CatalogItemID entry) w Hq Hwf Hctx) as (Hd & Hl & Hn).
  destruct (ProcessItem registry Error service ctx (sn_CatalogItemID entry) w) as [[out e] w1] eqn:Hp. cbn [fst snd] in *.
  assert (ed_acked (ew_db (w_ext w1)) = ed_acked (ew_db (w_ext w)) ∧ quiet (w_ext w1)) as [Ha Hq1].
  { remember (out, e) as res. destruct Hd as [? ? ->| ? _ ->| ? ? ? _ _ ->|? ? ? ? _ _ _ (? & ? & _)]; done. }
  destruct (ShouldAck out) eqn:Hack; [|by left].
  destruct (XAck_writes (ID msg) (w_now w1) (w_ext w1) Hq1 w1 eq_refl eq_refl ltac:(done)) as (_ & _ & [Hx|Hx]).
  { left. by rewrite Hx. }
  right. split; [rewrite Hx; cbn; by rewrite Ha|].
  assert (ed_items (ew_db (w_ext (XAck (ID msg) w1).2)) = ed_items (ew_db (w_ext w1))) as Hitems by (by rewrite Hx).
  unfold item_settled. remember (out, e) as res eqn:Hres.
  destruct Hd as [e' w' _|w' Hi _|item e' w' Hi He Hw|item row r' w' Hi Hrow Hs (_ & _ & Hpr)].
  - by simplify_eq.
  - left. by rewrite Hi.
  - right. simplify_eq. rewrite Hitems, Hw. split; [done|]. eexists. split; [exact He|done].
  - left. rewrite Hi, Hitems. subst r'. cbn [fst snd] in Hpr. destruct out; [| | |done].
    + destruct Hpr as (_ & cfg & _ & _ & Hemb). right. right. exists row, cfg. split; [done|]. split; [done|]. rewrite Hx.
      destruct Hemb as (st & vec & name & n & coll & p & i & Hem). exists st, vec, name, n, coll, p, i. exact Hem.
    + right. left. destruct Hpr as (_ & i & Hi' & Hst). exists i. by rewrite <- (Hwf _ _ Hi).
    + left. apply Hpr.
Qed.

(** Embed entries: under every failure pattern, handling a stream entry
    acknowledges at most that entry, and only if it is malformed, or is not for
    the active generation, or its item is gone, has nothing to embed, is
    dead-lettered or is embedded and backed by its vector; or, against the
    contract of the outcomes, because the writer section refused to run, in which
    case nothing was done to the item. *)
Theorem embed_entry_acked_when_settled ctx lifecycle ns msg w :
  quiet (w_ext w) → items_wf (ew_db (w_ext w)) → ctx_lease ctx = None →
  let w' := (handleMessage registry Error service ctx lifecycle ns msg w).2 in
  ed_acked (ew_db (w_ext w')) = ed_acked (ew_db (w_ext w)) ∨
  ed_acked (ew_db (w_ext w')) = ed_acked (ew_db (w_ext w)) ++ [ID msg] ∧
    match DecodeStreamEntry msg with
    | None => True
    | Some entry =>
        lifecycle = true ∧ envelope_stale ns entry w ∨ item_settled (sn_CatalogItemID entry) w w' ∨
        ed_items (ew_db (w_ext w')) = ed_items (ew_db (w_ext w)) ∧
        ∃ e w0, refusal e ∧ core_same w w0 ∧ (ProcessItem registry Error service ctx (sn_CatalogItemID entry) w0).1 = (OutcomeEmbedded, e)
    end.
Proof.
  intros Hq Hwf Hctx. cbv zeta. unfold handleMessage.
  assert (∀ w1 P, core_same w w1 → P → let w' := (XAck (ID msg) w1).2 in
    ed_acked (ew_db (w_ext w')) = ed_acked (ew_db (w_ext w)) ∨ ed_acked (ew_db (w_ext w')) = ed_acked (ew_db (w_ext w)) ++ [ID msg] ∧ P) as Hack.
  { intros w1 P [_ _ Hx1] HP. cbv zeta. rewrite <- Hx1.
    destruct (XAck_writes (ID msg) (w_now w1) (w_ext w1)) with (w := w1) as (_ & _ & [-> | ->]); try done; [by rewrite Hx1|by left|by right]. }
  destruct (DecodeStreamEntry msg) as [entry|] eqn:Hdec; [|by apply Hack].
  assert (∀ w1, core_same w w1 → let w' := (process_and_ack registry Error service ctx entry msg w1).2 in
    ed_acked (ew_db (w_ext w')) = ed_acked (ew_db (w_ext w)) ∨
    ed_acked (ew_db (w_ext w')) = ed_acked (ew_db (w_ext w)) ++ [ID msg] ∧
      (lifecycle = true ∧ envelope_stale ns entry w ∨ item_settled (sn_CatalogItemID entry) w w' ∨
       ed_items (ew_db (w_ext w')) = ed_items (ew_db (w_ext w)) ∧
       ∃ e w0, refusal e ∧ core_same w w0 ∧ (ProcessItem registry Error service ctx (sn_CatalogItemID entry) w0).1 = (OutcomeEmbedded, e))) as Hgo.
  { intros w1 Hc. pose proof Hc as [Hl1 _ Hx1]. cbv zeta.
    pose proof (process_and_ack_acked ctx entry msg w1 ltac:(by rewrite Hx1) ltac:(by rewrite Hx1) Hctx) as Hp. cbv zeta in Hp.
    unfold item_settled in *. rewrite Hx1, Hl1 in Hp. destruct Hp as [?|[? [?|(? & e & ? & ?)]]]; [by left|right; split; [done|]; by right; left|].
    right. split; [done|]. right. right. split; [done|]. by exists e, w1. }
  destruct lifecycle; [|by apply Hgo]. unfold bind.
  destruct (EvaluateEnvelope_stale ns (sn_NamespaceGeneration entry) w) as [Hc Hev]; [by eapply DecodeStreamEntry_generation|].
  destruct (EvaluateEnvelope ns (sn_NamespaceGeneration entry) w) as [[d e] w1]. cbn [fst snd] in *.
  destruct e as [|y e]; cbn [nil_err negb]; [|left; go; by rewrite (cs_ext _ _ Hc)].
  case_bool_decide as Hd; [|by apply Hgo]. apply Hack; [done|]. left. split; [done|]. subst d. by apply Hev.
Qed.

(** *** A refused section *)

Lemma set_ledger_id (w : W) : set_ledger (w_ledger w) w = w.
Proof. by destruct w. Qed.

Lemma EvaluateEnvelope_calm ns g (w : W) : w_faults w = [] → (EvaluateEnvelope ns g w).2 = w.
Proof.
  intros Hf. unfold EvaluateEnvelope, repo_GetNamespace, run_sql, bind. rewrite fault_nil by done. go.
  rewrite set_ledger_id. destruct (l_rows (w_ledger w) !! ns); by go.
Qed.

Lemma XAck_calm id (w : W) :
  w_faults w = [] → quiet (w_ext w) → w_ext (XAck id w).2 = set_db (set_ed_acked (ed_acked (ew_db (w_ext w)) ++ [id]) (ew_db (w_ext w))) (w_ext w).
Proof.
  intros Hf Hq. refine (writes_run (c := true) (XAck id) w (λ _ x', x' = _) _ (λ _, Hf)). unfold XAck.
  eapply writes_bind; [by apply (writes_stmt _ _ _ (λ _ x', x' = set_db (set_ed_acked (ed_acked (ew_db (w_ext w)) ++ [id]) (ew_db (w_ext w))) (w_ext w)))|].
  intros r ? ->. by apply writes_ret.
Qed.

(** A refused writer section loses the entry: while the system is being
    reset, an entry of the active generation whose item waits to be embedded is
    acknowledged although the item was not touched, because the outcome variable
    keeps its zero value, which stands for success. *)
Theorem refused_section_acks_unprocessed ctx lifecycle ns msg entry item w :
  w_faults w = [] → quiet (w_ext w) → ctx_lease ctx = None →
  DecodeStreamEntry msg = Some entry → ed_items (ew_db (w_ext w)) !! sn_CatalogItemID entry = Some item →
  (lifecycle = true → (EvaluateEnvelope ns (sn_NamespaceGeneration entry) w).1 = (Some EnvelopeProcess, [])) →
  y_state (l_sys (w_ledger w)) ≠ SystemActive →
  w_ext (handleMessage registry Error service ctx lifecycle ns msg w).2 =
    set_db (set_ed_acked (ed_acked (ew_db (w_ext w)) ++ [ID msg]) (ew_db (w_ext w))) (w_ext w).
Proof.
  intros Hf Hq Hctx Hdec Hi Hev Hsys. unfold handleMessage. rewrite Hdec.
  assert (w_ext (process_and_ack registry Error service ctx entry msg w).2 =
    set_db (set_ed_acked (ed_acked (ew_db (w_ext w)) ++ [ID msg]) (ew_db (w_ext w))) (w_ext w)) as Hgo.
  { unfold process_and_ack, ProcessItem, LoadByID, bind.
    destruct (stmt_read_cases (λ _ d, ed_items d !! sn_CatalogItemID entry) w Hq) as (w1 & S1 & F1 & [[_ Hx]| ->]); [done|]. go.
    rewrite Hi. go. cbn [es_lifecycle]. rewrite <- (sbf_ledger _ _ S1) in Hsys.
    match goal with |- context [WithWriter ?a ?b ?d ?n ?f w1] =>
      destruct (WithWriter_writes true a b d n f w1 (λ _ _ _, True)) as (_ & _ & Hf2 & [(e & _ & Hr & Hx & _)|(row & _ & _ & Hy & _)]);
      [unfold existing_lease; by rewrite Hctx|by auto|done| |done]; destruct (WithWriter a b d n f w1) as [r w2] end.
    cbn [fst snd] in *. subst r. cbn [ShouldAck]. rewrite XAck_calm; [by rewrite Hx, (sbf_ext _ _ S1)|by apply Hf2|by rewrite Hx, (sbf_ext _ _ S1)]. }
  destruct lifecycle; [|done]. unfold bind. specialize (Hev eq_refl). pose proof (EvaluateEnvelope_calm ns (sn_NamespaceGeneration entry) w Hf) as Hw.
  destruct (EvaluateEnvelope ns (sn_NamespaceGeneration entry) w) as [de w1]. cbn [fst snd] in *. subst de w1. cbn [nil_err negb].
  rewrite bool_decide_eq_false_2 by done. done.
Qed.

(** *** A failing item *)

(** The strategy's refusals that no retry can cure. *)
Definition terminal (e : error) : bool := errors_is e ErrZeroNorm || errors_is e ErrInputTooLarge || errors_is e ErrStrategyDimension.

(** The state a failed attempt leaves. *)
Definition failure_state (max attempt : Z) (e : error) : CatalogState :=
  if (max <? attempt)%Z || terminal e then StateDeadLetter else StateFailed.

(** An item that is due and whose content the strategy refuses with [e]. *)
Record failing (cfg : Config) (e : error) (item : Item) (x : EmbedWorld) : Prop := {
  fl_quiet : quiet x;
  fl_item : ed_items (ew_db x) !! ci_ID item = Some item;
  fl_config : ed_configs (ew_db x) !! ci_Namespace item = Some cfg;
  fl_catalog : cfg_DenseSource cfg = DenseSourceCatalog;
  fl_due : ¬ (ci_State item = StateEmbedded ∧ ci_StrategyID item = cfg_CatalogStrategyID cfg ∧ ci_StrategyVersion item = cfg_CatalogStrategyVersion cfg);
  fl_embed : ∃ st, strategy_of registry (cfg_CatalogStrategyID cfg, cfg_CatalogStrategyVersion cfg, cfg_CatalogStrategyParams cfg) = inl st ∧
               st_Embed st (ci_Content item) = inr e;
}.

Lemma processLoadedItem_failing cfg e item ctx now x :
  failing cfg e item x →
  writes true (processLoadedItem registry Error service ctx item) now x
    (λ _ x', quiet x' ∧ ∃ message,
       ew_db x' = set_ed_items (<[ci_ID item := failed_row now (failure_state (maxAttempts service cfg) (ci_AttemptCount item + 1) e) message (in_flight now item)]>
                    (ed_items (ew_db x))) (ew_db x)).
Proof.
  intros [Hq Hi Hcfg Hcat Hdue (st & Hst & Hemb)]. unfold processLoadedItem.
  eapply (writes_bind _ _ _ _ (λ r x', x' = x ∧ r = inl (Some cfg))); [apply writes_read; [done|done|by rewrite Hcfg]|]. intros ? ? [-> ->].
  rewrite bool_decide_eq_true_2 by done. cbn [negb]. destruct (_ && _) eqn:Hsk; [btests; by destruct Hdue|].
  eapply (writes_bind _ _ _ _ (λ r x', r = inl (ci_AttemptCount item + 1)%Z ∧
    x' = set_db (set_ed_items (<[ci_ID item := in_flight now item]> (ed_items (ew_db x))) (ew_db x)) x)).
  { unfold MarkInFlight. apply (update_item_writes _ _ in_flight); [done|done| |].
    - intros i Hi' _. rewrite Hi in Hi'. by simplify_eq.
    - intros Hn. by specialize (Hn _ Hi). }
  intros ? x1 [-> ->]. set (x1 := set_db _ x). set (i1 := in_flight now item).
  assert (quiet x1 ∧ ed_items (ew_db x1) !! ci_ID item = Some i1) as [Hq1 Hi1] by (split; [done|cbn; by rewrite lookup_insert_eq]).
  assert (∀ x2 S message, ew_db x2 = ew_db x1 → quiet x2 → failure_state (maxAttempts service cfg) (ci_AttemptCount item + 1) e = S →
    ∀ x3, x3 = set_db (set_ed_items (<[ci_ID item := failed_row now S message i1]> (ed_items (ew_db x2))) (ew_db x2)) x2 →
    quiet x3 ∧ ∃ message, ew_db x3 = set_ed_items (<[ci_ID item := failed_row now (failure_state (maxAttempts service cfg) (ci_AttemptCount item + 1) e)
      message i1]> (ed_items (ew_db x))) (ew_db x)) as Hend.
  { intros x2 S message Hd Hq2 <- x3 ->. split; [done|]. exists message. rewrite Hd. cbn. by rewrite insert_insert_eq. }
  unfold failure_state in *. destruct (maxAttempts service cfg <? ci_AttemptCount item + 1)%Z.
  { eapply writes_mono; [by apply deadLetterOutcome_writes|]. intros r x' (_ & _ & _ & Hx). eapply (Hend x1); [done|done|done|]. by apply Hx. }
  unfold attempt_item. eapply writes_bind; [by apply resolveStrategy_keeps|]. intros ? x2 (K & Hd & ->). rewrite Hst.
  eapply (writes_bind _ _ _ _ (λ v x', x' = x2 ∧ v = inr e)).
  { unfold strategy_Embed. eapply (writes_bind _ _ _ _ (λ b x', x' = x2 ∧ b = false)); [by apply writes_fault|]. intros ? ? [-> ->].
    apply writes_ret. by rewrite Hemb. }
  intros ? ? [-> ->]. unfold handleEmbedError. fold (terminal e). destruct (terminal e); cbn [orb] in Hend |- *.
  - eapply writes_mono; [apply deadLetterOutcome_writes, K|]. intros r x' (_ & _ & _ & Hx). eapply (Hend x2); [done|apply K|done|].
    apply Hx; [done|]. by rewrite Hd.
  - eapply writes_bind; [apply markFailed_writes, K|]. intros [] x' (_ & _ & Hx). apply writes_ret. eapply (Hend x2); [done|apply K|done|].
    apply Hx; [done|]. by rewrite Hd.
Qed.

Definition namespace_live (ns : string) (w : W) : Prop :=
  y_state (l_sys (w_ledger w)) = SystemActive ∧ ∃ row, l_rows (w_ledger w) !! ns = Some row ∧ r_state row = StateActive.

(** The row after an attempt that failed. *)
Definition failed_attempt (max now : Z) (e : error) (message : string) (item : Item) : Item :=
  failed_row now (failure_state max (ci_AttemptCount item + 1) e) message (in_flight now item).

Lemma failing_again cfg e item message now x x' :
  failing cfg e item x → quiet x' → (∀ st, failure_state (maxAttempts service cfg) (ci_AttemptCount item + 1) e = st → st ≠ StateEmbedded) →
  ew_db x' = set_ed_items (<[ci_ID item := failed_attempt (maxAttempts service cfg) now e message item]> (ed_items (ew_db x))) (ew_db x) →
  failing cfg e (failed_attempt (maxAttempts service cfg) now e message item) x'.
Proof.
  intros [Hq Hi Hcfg Hcat Hdue Hemb] Hq' Hst Hd. split; [done| | |done| |done].
  - rewrite Hd. cbn. by rewrite lookup_insert_eq.
  - by rewrite Hd.
  - cbn. intros [Hs _]. by eapply Hst.
Qed.

Lemma failure_state_not_embedded max a e st : failure_state max a e = st → st ≠ StateEmbedded.
Proof. unfold failure_state. case_match; by intros <-. Qed.

Lemma ProcessItem_failing cfg e item ctx w :
  w_faults w = [] → ctx_lease ctx = None → failing cfg e item (w_ext w) → namespace_live (ci_Namespace item) w →
  let w' := (ProcessItem registry Error service ctx (ci_ID item) w).2 in
  w_faults w' = [] ∧ w_ledger w' = w_ledger w ∧ w_now w' = w_now w ∧ quiet (w_ext w') ∧ ∃ message,
    ew_db (w_ext w') = set_ed_items (<[ci_ID item := failed_attempt (maxAttempts service cfg) (w_now w) e message item]>
      (ed_items (ew_db (w_ext w)))) (ew_db (w_ext w)).
Proof.
  intros Hf Hctx Hfl [Hy (row & Hrow & Hs)]. cbv zeta. pose proof Hfl as [Hq Hi _ _ _ _]. unfold ProcessItem, LoadByID, bind.
  destruct (stmt_read_cases (λ _ d, ed_items d !! ci_ID item) w Hq) as (w1 & S1 & F1 & [[_ Hx]| ->]); [done|]. go.
  rewrite Hi. go. cbn [es_lifecycle].
  destruct (WithWriter_writes true OutcomeEmbedded svc ctx (ci_Namespace item) (λ leased _, processLoadedItem registry Error service leased item) w1
    (λ _ _ x', quiet x' ∧ ∃ message, ew_db x' = set_ed_items (<[ci_ID item := failed_attempt (maxAttempts service cfg) (w_now w) e message item]>
      (ed_items (ew_db (w_ext w)))) (ew_db (w_ext w)))) as (Hl & Hn & Hf2 & Hr).
  - unfold existing_lease. by rewrite Hctx.
  - auto.
  - intros ? _ _ _. rewrite (sbf_ext _ _ S1), (sbf_now _ _ S1). by apply processLoadedItem_failing.
  - rewrite Hl, Hn, (sbf_ledger _ _ S1), (sbf_now _ _ S1). split; [by apply Hf2|]. split; [done|]. split; [done|].
    destruct Hr as [(? & _ & _ & _ & Hno)|(? & _ & _ & _ & HQ)]; [|done]. destruct Hno; [done|]. rewrite (sbf_ledger _ _ S1). eauto.
Qed.

(** The same entry, delivered again and again. *)
Fixpoint deliveries (ctx : Ctx) (id : Z) (n : nat) : M W () :=
  match n with
  | O => ret tt
  | S n => ProcessItem registry Error service ctx id ;;! deliveries ctx id n
  end.

Lemma deliveries_failing cfg e ctx n item w :
  w_faults w = [] → ctx_lease ctx = None → failing cfg e item (w_ext w) → namespace_live (ci_Namespace item) w →
  ∃ i, ed_items (ew_db (w_ext (deliveries ctx (ci_ID item) (S n) w).2)) !! ci_ID item = Some i ∧
    ci_AttemptCount i = (ci_AttemptCount item + Z.of_nat (S n))%Z ∧
    ci_State i = failure_state (maxAttempts service cfg) (ci_AttemptCount item + Z.of_nat (S n)) e.
Proof.
  revert item w. induction n as [|n IH]; intros item w Hf Hctx Hfl Hlive; cbn [deliveries]; unfold bind at 1.
  all: destruct (ProcessItem_failing cfg e item ctx w Hf Hctx Hfl Hlive) as (Hf' & Hl & Hn & Hq & message & Hd); go.
  - exists (failed_attempt (maxAttempts service cfg) (w_now w) e message item). rewrite Hd. cbn. by rewrite lookup_insert_eq.
  - set (item' := failed_attempt (maxAttempts service cfg) (w_now w) e message item) in *.
    set (w' := (ProcessItem registry Error service ctx (ci_ID item) w).2) in *.
    assert (failing cfg e item' (w_ext w')) as Hfl' by (eapply failing_again; [done|done|apply failure_state_not_embedded|done]).
    destruct (IH item' w' Hf' Hctx Hfl') as (i & Hi & Ha & Hs); [unfold namespace_live in *; by rewrite Hl|].
    change (ci_ID item') with (ci_ID item) in Hi. exists i. cbn [deliveries] in Hi. split; [exact Hi|].
    change (ci_AttemptCount item') with (ci_AttemptCount item + 1)%Z in Ha, Hs. rewrite Ha, Hs.
    rewrite (Nat2Z.inj_succ (S n)). split; [lia|]. f_equal. lia.
Qed.

(** C32: A failing item is dead-lettered exactly when its attempts exceed the
    limit or no retry can cure the refusal: when the stores answer, every delivery
    of an item whose content its strategy refuses counts one attempt; after any
    positive number of deliveries the row is in the dead-letter state if the
    attempts exceed the retry budget or the refusal is terminal, and is failed,
    due for a retry, otherwise. So a transient refusal is retried up to the budget
    and no further. *)
Theorem failing_item_dead_letters cfg e ctx n item w :
  w_faults w = [] → ctx_lease ctx = None → failing cfg e item (w_ext w) → namespace_live (ci_Namespace item) w → (0 < n)%nat →
  ∃ i, ed_items (ew_db (w_ext (deliveries ctx (ci_ID item) n w).2)) !! ci_ID item = Some i ∧
    ci_AttemptCount i = (ci_AttemptCount item + Z.of_nat n)%Z ∧
    (ci_State i = StateDeadLetter ↔ (maxAttempts service cfg < ci_AttemptCount item + Z.of_nat n)%Z ∨ terminal e = true) ∧
    (ci_State i = StateFailed ↔ (ci_AttemptCount item + Z.of_nat n <= maxAttempts service cfg)%Z ∧ terminal e = false).
Proof.
  intros Hf Hctx Hfl Hlive Hn. destruct n as [|n]; [lia|].
  destruct (deliveries_failing cfg e ctx n item w Hf Hctx Hfl Hlive) as (i & Hi & Ha & Hs). exists i. split; [done|]. split; [done|].
  rewrite Hs. unfold failure_state.
  destruct (Z.ltb_spec (maxAttempts service cfg) (ci_AttemptCount item + Z.of_nat (S n))), (terminal e); cbn; intuition (congruence || lia).
Qed.
End delivery.

(** ** A small deployment *)

(** A strategy of dimension two that has trouble with one content. *)
Definition sample_strategy : Strategy :=
  {| st_ID := "sample"; st_Version := "v1"; st_Dim := 2; st_MaxInputBytes := 0;
     st_Embed := λ content, if bool_decide (content = "bad") then inr [ErrTransient]
                            else if bool_decide (content = "new") then inl [f32_of_Z 2; f32_of_Z 0] else inl [f32_of_Z 1; f32_of_Z 0] |}.

Definition sample_registry : Registry := {| reg_factories := {[("sample", "v1") := λ _, inl sample_strategy]}; reg_variants := ∅ |}.

Definition embed_config : Config :=
  {| cfg_Namespace := "demo"; cfg_Generation := 3; cfg_ActionWeights := ∅; cfg_Lambda := f64_zero; cfg_Gamma := f64_zero;
     cfg_MaxResults := 20; cfg_SeenItemsDays := 30; cfg_ExcludeAuthored := false; cfg_Paused := false; cfg_APIKeyHash := "";
     cfg_Alpha := f64_one; cfg_DenseSource := DenseSourceCatalog; cfg_EmbeddingDim := 2; cfg_DenseDistance := "cosine";
     cfg_TrendingWindow := 24; cfg_TrendingTTL := 600; cfg_LambdaTrending := f64_zero; cfg_CatalogStrategyID := "sample";
     cfg_CatalogStrategyVersion := "v1"; cfg_CatalogStrategyParams := None; cfg_CatalogMaxAttempts := 2; cfg_CatalogMaxContentBytes := 1024;
     cfg_CreatedAt := 0; cfg_UpdatedAt := 0 |}.

Definition embed_item (content hash : string) : Item :=
  {| ci_ID := 1; ci_Namespace := "demo"; ci_ObjectID := "o"; ci_Content := content; ci_ContentHash := hash; ci_Metadata := None;
     ci_State := StatePending; ci_StrategyID := ""; ci_StrategyVersion := ""; ci_EmbeddedAt := None; ci_AttemptCount := 0;
     ci_LastError := ""; ci_CreatedAt := 5; ci_UpdatedAt := 5 |}.

Definition embed_db (item : Item) : EmbedDB :=
  {| ed_items := {[1%Z := item]}; ed_configs := {["demo" := embed_config]}; ed_ids := ∅; ed_next_id := 7; ed_collections := ∅;
     ed_streams := ∅; ed_added := []; ed_acked := []; ed_runs := [] |}.

Definition embed_ext (d : EmbedDB) (others : list (EmbedDB → EmbedDB)) : EmbedWorld :=
  {| ew_db := d; ew_cache := ∅; ew_ensured := ∅; ew_running := ∅; ew_others := others |}.

Definition embed_world (d : EmbedDB) (others : list (EmbedDB → EmbedDB)) (fs : list bool) : W :=
  {| w_ledger := w_ledger (demo_world []); w_now := 9; w_adv := []; w_lockobjs := ∅; w_next := 0; w_faults := fs; w_ext := embed_ext d others |}.

Definition no_text (e : error) : string := "".

Lemma embed_db_wf item : ci_ID item = 1%Z → items_wf (embed_db item).
Proof. intros Hid id i Hi. cbn in Hi. apply lookup_singleton_Some in Hi as [<- <-]. done. Qed.

Abbreviation sample_service := {| es_lifecycle := Some pair_service; es_defaultMaxAttempts := 5 |}.

Lemma embedded_item_has_vector_witness :
  let w := embed_world (embed_db (embed_item "text" "h")) [] [] in
  let r := ProcessItem sample_registry no_text sample_service background 1 w in
  r.1 = (OutcomeEmbedded, []) ∧
  ∃ item row cfg, ed_items (ew_db (w_ext w)) !! 1%Z = Some item ∧ l_rows (w_ledger w) !! ci_Namespace item = Some row ∧
    r_state row = StateActive ∧ ed_configs (ew_db (w_ext w)) !! ci_Namespace item = Some cfg ∧ cfg_DenseSource cfg = DenseSourceCatalog ∧
    item_embedded sample_registry cfg (r_generation row) item (ew_db (w_ext r.2)).
Proof.
  split; [vm_compute; reflexivity|].
  apply (embedded_item_has_vector sample_registry no_text pair_service 5 background 1 (embed_world (embed_db (embed_item "text" "h")) [] [])).
  - reflexivity.
  - by apply embed_db_wf.
  - reflexivity.
  - vm_compute. reflexivity.
Defined.

Definition embed_msg : XMessage :=
  {| ID := "1-0"; Values := {["catalog_item_id" := "1"; "namespace_generation" := "3"]} |}.

Lemma embed_entry_acked_when_settled_witness :
  let w := embed_world (embed_db (embed_item "text" "h")) [] [] in
  let w' := (handleMessage sample_registry no_text sample_service background true "demo" embed_msg w).2 in
  ed_acked (ew_db (w_ext w')) = ["1-0"] ∧
  (ed_acked (ew_db (w_ext w')) = [] ∨ ed_acked (ew_db (w_ext w')) = [] ++ ["1-0"] ∧
    match DecodeStreamEntry embed_msg with
    | None => True
    | Some entry =>
        true = true ∧ envelope_stale "demo" entry w ∨ item_settled sample_registry (sn_CatalogItemID entry) w w' ∨
        ed_items (ew_db (w_ext w')) = ed_items (ew_db (w_ext w)) ∧
        ∃ e w0, refusal e ∧ core_same w w0 ∧
          (ProcessItem sample_registry no_text sample_service background (sn_CatalogItemID entry) w0).1 = (OutcomeEmbedded, e)
    end).
Proof.
  split; [vm_compute; reflexivity|].
  apply (embed_entry_acked_when_settled sample_registry no_text pair_service 5 background true "demo" embed_msg
    (embed_world (embed_db (embed_item "text" "h")) [] [])); [reflexivity|by apply embed_db_wf|reflexivity].
Defined.

Definition resetting_world (d : EmbedDB) : W :=
  {| w_ledger := sql_start_reset 9 (w_ledger (demo_world [])); w_now := 9; w_adv := []; w_lockobjs := ∅; w_next := 0; w_faults := [];
     w_ext := embed_ext d [] |}.

Lemma refused_section_acks_unprocessed_witness :
  let w := resetting_world (embed_db (embed_item "text" "h")) in
  let x := w_ext (handleMessage sample_registry no_text sample_service background true "demo" embed_msg w).2 in
  (ed_acked (ew_db x), ci_State <$> ed_items (ew_db x)) = (["1-0"], {[1%Z := StatePending]}) ∧
  x = set_db (set_ed_acked ([] ++ ["1-0"]) (embed_db (embed_item "text" "h"))) (w_ext w).
Proof.
  split; [vm_compute; reflexivity|].
  apply (refused_section_acks_unprocessed sample_registry no_text pair_service 5 background true "demo" embed_msg
    {| sn_CatalogItemID := 1; sn_NamespaceGeneration := Some 3%Z |} (embed_item "text" "h") (resetting_world (embed_db (embed_item "text" "h")))).
  - reflexivity.
  - reflexivity.
  - reflexivity.
  - vm_compute. reflexivity.
  - vm_compute. reflexivity.
  - intros _. vm_compute. reflexivity.
  - vm_compute. discriminate.
Defined.

(** The same loss from one failed statement: a pooled connection that cannot be
    had is enough. *)
Example failed_lock_acks_unprocessed :
  let w := embed_world (embed_db (embed_item "text" "h")) [] [false; true] in
  let x := w_ext (handleMessage sample_registry no_text sample_service background false "demo" embed_msg w).2 in
  (ed_acked (ew_db x), ci_State <$> ed_items (ew_db x)) = (["1-0"], {[1%Z := StatePending]}).
Proof. vm_compute. reflexivity. Qed.

(** With a budget of two attempts the second failure is retried, the third is
    dead-lettered. *)
Lemma failing_item_dead_letters_witness :
  let w := embed_world (embed_db (embed_item "bad" "h")) [] [] in
  (∃ i, ed_items (ew_db (w_ext (deliveries sample_registry no_text pair_service 5 background 1 2 w).2)) !! 1%Z = Some i ∧
    ci_State i = StateFailed) ∧
  (∃ i, ed_items (ew_db (w_ext (deliveries sample_registry no_text pair_service 5 background 1 3 w).2)) !! 1%Z = Some i ∧
    ci_State i = StateDeadLetter).
Proof.
  cbv zeta.
  assert (failing sample_registry embed_config [ErrTransient] (embed_item "bad" "h") (embed_ext (embed_db (embed_item "bad" "h")) [])) as Hfl.
  { split; try (vm_compute; reflexivity); [vm_compute; intros [? _]; discriminate|]. exists sample_strategy. split; vm_compute; reflexivity. }
  assert (namespace_live "demo" (embed_world (embed_db (embed_item "bad" "h")) [] [])) as Hlive.
  { split; [vm_compute; reflexivity|]. eexists. split; [vm_compute; reflexivity|reflexivity]. }
  split.
  - destruct (failing_item_dead_letters sample_registry no_text pair_service 5 embed_config [ErrTransient] background 2 (embed_item "bad" "h")
      (embed_world (embed_db (embed_item "bad" "h")) [] []) eq_refl eq_refl Hfl Hlive ltac:(lia)) as (i & Hi & _ & _ & Hs).
    exists i. split; [exact Hi|]. apply Hs. split; [|reflexivity]. vm_compute. discriminate.
  - destruct (failing_item_dead_letters sample_registry no_text pair_service 5 embed_config [ErrTransient] background 3 (embed_item "bad" "h")
      (embed_world (embed_db (embed_item "bad" "h")) [] []) eq_refl eq_refl Hfl Hlive ltac:(lia)) as (i & Hi & _ & Hs & _).
    exists i. split; [exact Hi|]. apply Hs. left. vm_compute. reflexivity.
Defined.

(** ** A lost update

    Two replicas, one object: the first loads the old content; meanwhile the
    content is ingested anew and a second replica embeds it; then the first
    replica overwrites the point. *)

Definition reingest (d : EmbedDB) : EmbedDB :=
  set_ed_items (alter (λ i, (upsert_row 9 "demo" "o" "new" "h2" None 1 (Some i)).1) 1%Z (ed_items d)) d.

Definition second_replica (d : EmbedDB) : EmbedDB :=
  ew_db (w_ext (ProcessItem sample_registry no_text sample_service background 1 (embed_world (reingest d) [] [])).2).

Definition row_and_vector (d : EmbedDB) : option (CatalogState * string) * option (list float32) :=
  ((λ i, (ci_State i, ci_Content i)) <$> ed_items d !! 1%Z,
   eb_vector <$> (ed_collections d !! "demo_g3_objects_dense" ≫= λ c, cl_points c !! 7%Z)).

(** The guard on the content hash refuses the row update of the first replica,
    but its vector has replaced the newer one; and the redelivery that should
    repair this finds the row embedded and skips it. *)
Example stale_vector_survives :
  let w := embed_world (embed_db (embed_item "text" "h")) [id; id; id; second_replica] [] in
  let r1 := ProcessItem sample_registry no_text sample_service background 1 w in
  let r2 := ProcessItem sample_registry no_text sample_service background 1 r1.2 in
  (r1.1, row_and_vector (ew_db (w_ext r1.2))) =
    ((OutcomeFailed, [ErrStaleItem]), (Some (StateEmbedded, "new"), Some [f32_of_Z 1; f32_of_Z 0])) ∧
  (r2.1, row_and_vector (ew_db (w_ext r2.2))) =
    ((OutcomeSkipped, []), (Some (StateEmbedded, "new"), Some [f32_of_Z 1; f32_of_Z 0])) ∧
  st_Embed sample_strategy "new" = inl [f32_of_Z 2; f32_of_Z 0].
Proof. vm_compute. split; [reflexivity|]. split; reflexivity. Qed.
