(* ===== verification/EmbedderRecovery.v ===== *)
(** * Recovery of lost work

    The sweeper republishes exactly the rows whose stream entry is lost and acts
    only when the stream owes nothing; the watcher closes exactly the re-embed
    runs that have no work left; the worker consumes exactly the enabled
    streams. *)

From stdpp Require Import base tactics gmap sets strings list sorting.
From Stdlib Require Import ZArith Lia.
From S2P Require Import Prelude GoLib NsNames NsLedger NsService Hoare Float64 NamespaceConfig Strategy StreamConsumer Catalog Embedder EmbedderFacts.

(** ** The sweeper *)

(** The consumer group still has entries to deliver or to acknowledge. *)
Definition owed (stream : string) (d : EmbedDB) : Prop :=
  ∃ lag pending, ed_streams d !! stream = Some (Some (lag, pending)) ∧ ¬ (lag = 0 ∧ pending = 0)%Z.

Definition sweep_entry (stream ns : string) (g : Z) (sid sver : string) (now : Z) (i : Item) : EmbedEntry :=
  {| ee_Stream := stream; ee_ItemID := ci_ID i; ee_Namespace := ns; ee_Generation := g; ee_ObjectID := ci_ObjectID i;
     ee_StrategyID := sid; ee_StrategyVersion := sver; ee_EnqueuedAt := now |}.

(** A row in the given state that nobody touched since the cutoff. *)
Definition stale (ns : string) (st : CatalogState) (cutoff : Z) (d : EmbedDB) (i : Item) : Prop :=
  (∃ id, ed_items d !! id = Some i) ∧ ci_Namespace i = ns ∧ ci_State i = st ∧ (ci_UpdatedAt i < cutoff)%Z.

(** [l] lists the [limit] oldest rows with [P], or all of them if there are
    fewer: every row once, no row left out that is older than one listed, and no
    row left out while there is room. *)
Record oldest (P : Item → Prop) (limit : nat) (l : list Item) : Prop := {
  ol_once : NoDup l;
  ol_all : ∀ i, i ∈ l → P i;
  ol_first : ∀ i j, i ∈ l → P j → j ∉ l → (ci_UpdatedAt i <= ci_UpdatedAt j)%Z;
  ol_limit : (length l <= limit)%nat;
  ol_full : ∀ j, P j → j ∉ l → length l = limit;
}.

#[local] Instance older_trans : Transitive older.
Proof. intros x y z. unfold older. lia. Qed.
#[local] Instance older_total : Total older.
Proof. intros x y. unfold older. lia. Qed.

Lemma rows_NoDup d : items_wf d → NoDup (ci_ID <$> (map_to_list (ed_items d)).*2).
Proof.
  intros Hwf. rewrite <- list_fmap_compose.
  replace (ci_ID ∘ snd <$> map_to_list (ed_items d)) with (map_to_list (ed_items d)).*1; [apply NoDup_fst_map_to_list|].
  apply list_fmap_ext. intros k [id i] Hk. cbn. symmetry. apply Hwf, elem_of_map_to_list. by eapply list_elem_of_lookup_2.
Qed.

Lemma stranded_oldest ns st cutoff limit d : items_wf d → oldest (stale ns st cutoff d) limit (stranded ns st cutoff limit d).
Proof.
  intros Hwf. unfold stranded. set (rows := filter _ _). pose proof (merge_sort_Permutation older rows) as Hp.
  pose proof (StronglySorted_merge_sort older rows) as Hs. set (l := merge_sort older rows) in *.
  assert (NoDup l) as Hnd.
  { rewrite Hp. apply NoDup_filter, (NoDup_fmap_1 ci_ID). by apply rows_NoDup. }
  assert (∀ i, i ∈ l ↔ stale ns st cutoff d i) as Hl.
  { intros i. rewrite Hp. unfold rows, stale. rewrite list_elem_of_filter, list_elem_of_fmap. split.
    - intros [? ([id i'] & -> & Hi%elem_of_map_to_list)]. eauto.
    - intros [[id Hi] ?]. split; [done|]. exists (id, i). split; [done|]. by apply elem_of_map_to_list. }
  rewrite <- (take_drop limit l) in Hs, Hnd, Hl. apply NoDup_app in Hnd as (Hnd & _ & _). split; [done| | | |].
  - intros i Hi. apply Hl, elem_of_app. by left.
  - intros i j Hi Hj Hn. apply Hl, elem_of_app in Hj as [?|Hj]; [done|]. by eapply (StronglySorted_app_1_elem_of older).
  - rewrite length_take. lia.
  - intros j Hj Hn. apply Hl, elem_of_app in Hj as [?|Hj]; [done|]. rewrite length_take.
    assert (drop limit l ≠ []) as Hd by (intros Hnil; rewrite Hnil in Hj; by apply elem_of_nil in Hj).
    destruct (decide (length l <= limit)%nat); [|lia]. by rewrite drop_ge in Hd.
Qed.

(** The reset touches exactly the listed rows, each once. *)
Lemma reset_rows now d l id :
  NoDup (ci_ID <$> l) →
  foldr (λ i m, alter (pending_row now) (ci_ID i) m) (ed_items d) l !! id =
    (λ i, if decide (id ∈ ci_ID <$> l) then pending_row now i else i) <$> ed_items d !! id.
Proof.
  induction l as [|x l IH]; intros Hnd; cbn.
  { by destruct (ed_items d !! id). }
  cbn in Hnd. apply NoDup_cons in Hnd as [Hx Hnd]. destruct (decide (id = ci_ID x)) as [->|Hne].
  - rewrite lookup_alter_eq, (IH Hnd). destruct (ed_items d !! ci_ID x); cbn; [|done].
    rewrite (decide_False (P := ci_ID x ∈ ci_ID <$> l)) by done. by rewrite decide_True by left.
  - rewrite lookup_alter_ne, (IH Hnd) by done. destruct (ed_items d !! id) as [i|]; cbn; [|done]. f_equal.
    apply decide_ext. rewrite elem_of_cons. naive_solver.
Qed.

Lemma republish_calm ns g stream items sid sver at_ now x :
  embedStreamName ns g = Some stream → quiet x →
  writes true (republish ns g items sid sver at_) now x
    (λ _ x', quiet x' ∧ ed_items (ew_db x') = ed_items (ew_db x) ∧
       ed_added (ew_db x') = ed_added (ew_db x) ++ (sweep_entry stream ns g sid sver at_ <$> items)).
Proof.
  intros Hs. revert x. induction items as [|i items IH]; intros x Hq; cbn [republish].
  { apply writes_ret. by rewrite app_nil_r. }
  eapply (writes_bind _ _ _ _ (λ _ x', quiet x' ∧ ed_items (ew_db x') = ed_items (ew_db x) ∧
    ed_added (ew_db x') = ed_added (ew_db x) ++ [sweep_entry stream ns g sid sver at_ i])).
  - unfold sweep_publish. rewrite Hs. eapply (writes_bind _ _ _ _ (λ _ x', quiet x' ∧ ed_items (ew_db x') = ed_items (ew_db x) ∧
      ed_added (ew_db x') = ed_added (ew_db x) ++ [sweep_entry stream ns g sid sver at_ i])); [by apply writes_stmt|].
    intros r x' Hx. by apply writes_ret.
  - intros e x' (Hq' & Hi & Ha). eapply writes_mono; [by apply IH|]. intros r x'' (? & Hi' & Ha'). split; [done|]. split; [congruence|].
    rewrite Ha', Ha. by rewrite <- app_assoc.
Qed.

(** What a sweep leaves when nothing fails: the oldest stale in-flight rows are
    pending again and touched now, the other rows are as they were, and one
    entry is added for each of them and each of the oldest stale pending rows. *)
Definition swept (cfg : SweeperConfig) (stream ns : string) (g : Z) (sid sver : string) (now : Z) (d d' : EmbedDB) : Prop :=
  ∃ pending flying,
    oldest (stale ns StatePending (now - sw_PendingStaleAfter cfg) d) (sw_BatchSize cfg) pending ∧
    oldest (stale ns StateInFlight (now - sw_InFlightStaleAfter cfg) d) (sw_BatchSize cfg) flying ∧
    (∀ id, ed_items d' !! id = (λ i, if decide (id ∈ ci_ID <$> flying) then pending_row now i else i) <$> ed_items d !! id) ∧
    ed_added d' = ed_added d ++ (sweep_entry stream ns g sid sver now <$> pending ++ flying).

Lemma sweepNamespace_calm cfg ns g stream sid sver now x :
  embedStreamName ns g = Some stream → quiet x → items_wf (ew_db x) → ¬ owed stream (ew_db x) →
  writes true (sweepNamespace cfg ns g sid sver) now x (λ _ x', swept cfg stream ns g sid sver now (ew_db x) (ew_db x')).
Proof.
  intros Hs Hq Hwf Ho. unfold sweepNamespace, streamDrained. rewrite Hs.
  eapply (writes_bind _ _ _ _ (λ r x', x' = x ∧ r = inl true)).
  { apply writes_read; [done|done|]. split; [done|]. f_equal. destruct (ed_streams (ew_db x) !! stream) as [[[lag pending]|]|] eqn:E; [|done|done].
    destruct (Z.eqb_spec lag 0), (Z.eqb_spec pending 0); try done; destruct Ho; exists lag, pending; (split; [done|lia]). }
  intros ? ? [-> ->]. eapply (writes_bind _ _ _ _ (λ t x', t = now ∧ x' = x)); [by apply writes_gets_now|]. intros ? ? [-> ->].
  eapply (writes_bind _ _ _ _ (λ r x', x' = x ∧ r = inl (stranded ns StatePending (now - sw_PendingStaleAfter cfg) (sw_BatchSize cfg) (ew_db x)))); [by apply writes_read|].
  intros ? ? [-> ->]. set (flying := stranded ns StateInFlight (now - sw_InFlightStaleAfter cfg) (sw_BatchSize cfg) (ew_db x)).
  eapply (writes_bind _ _ _ _ (λ r x', r = inl flying ∧ quiet x' ∧ ed_added (ew_db x') = ed_added (ew_db x) ∧
    ed_items (ew_db x') = foldr (λ i m, alter (pending_row now) (ci_ID i) m) (ed_items (ew_db x)) flying)); [by apply writes_stmt|].
  intros ? x' (-> & Hq' & Ha & Hi). eapply writes_mono; [by apply republish_calm|]. intros r x'' (_ & Hi' & Ha'). unfold swept.
  pose proof (stranded_oldest ns StateInFlight (now - sw_InFlightStaleAfter cfg) (sw_BatchSize cfg) (ew_db x) Hwf) as Hfl. fold flying in Hfl.
  eexists _, flying. split; [by apply stranded_oldest|]. split; [done|]. rewrite Ha', Ha. split; [|done].
  intros id. rewrite Hi', Hi. apply reset_rows, NoDup_fmap_2_strong; [|apply Hfl]. intros i j Hi1 Hj1 Hid.
  destruct (ol_all _ _ _ Hfl i Hi1) as [[k Hk] _], (ol_all _ _ _ Hfl j Hj1) as [[k' Hk'] _].
  pose proof (Hwf _ _ Hk). pose proof (Hwf _ _ Hk'). congruence.
Qed.

(** C33: Recovery: while the consumer group owes entries, or when the stream
    cannot be inspected, a sweep changes nothing, whatever fails. Otherwise,
    when nothing fails, it resets exactly the oldest stale in-flight rows to
    pending, leaves every other row, and publishes exactly one entry for each of
    them and each of the oldest stale pending rows, to the stream of the
    configured generation; as many rows of each kind as the batch allows, so a
    batch that is large enough leaves no stranded row without its entry. *)
Theorem sweep_recovers_stranded cfg ns g stream sid sver w :
  embedStreamName ns g = Some stream → quiet (w_ext w) → items_wf (ew_db (w_ext w)) →
  let d := ew_db (w_ext w) in
  let d' := ew_db (w_ext (sweepNamespace cfg ns g sid sver w).2) in
  (owed stream d → d' = d) ∧
  (w_faults w = [] → ¬ owed stream d → swept cfg stream ns g sid sver (w_now w) d d').
Proof.
  intros Hs Hq Hwf. cbv zeta. split.
  - intros (lag & pending & Hst & Hne). refine (writes_run (c := false) (sweepNamespace cfg ns g sid sver) w (λ _ x', ew_db x' = ew_db (w_ext w)) _ ltac:(done)).
    unfold sweepNamespace, streamDrained. rewrite Hs. eapply (writes_bind _ _ _ _ (λ r x', x' = w_ext w ∧ (r = inr [ErrDriver] ∨ r = inl false))).
    + apply writes_read; [done|by auto|]. split; [done|]. right. f_equal. rewrite Hst. destruct (Z.eqb_spec lag 0), (Z.eqb_spec pending 0); try done. lia.
    + intros ? ? [-> [-> | ->]]; by apply writes_ret.
  - intros Hf Ho. by apply (writes_run (c := true) _ w _ (sweepNamespace_calm cfg ns g stream sid sver (w_now w) (w_ext w) Hs Hq Hwf Ho)).
Qed.

(** ** The watcher *)

Lemma NoDup_fmap_eq {A B} (f : A → B) l x y : NoDup (f <$> l) → x ∈ l → y ∈ l → f x = f y → x = y.
Proof.
  intros Hnd [i Hi]%list_elem_of_lookup [j Hj]%list_elem_of_lookup Hxy.
  assert (i = j) as ->; [|congruence]. apply (NoDup_lookup _ i j (f x) Hnd); rewrite list_lookup_fmap; [by rewrite Hi|]. by rewrite Hj, Hxy.
Qed.

Definition no_stale (d : EmbedDB) (r : RunRow) : Prop :=
  ∀ id i, ed_items d !! id = Some i → ¬ stale_item (rl_Namespace r) (rl_TargetID r) (rl_TargetVersion r) i.

Definition embedded_count (d : EmbedDB) (r : RunRow) : nat :=
  length (filter (λ i, ci_Namespace i = rl_Namespace r ∧ ci_State i = StateEmbedded ∧
    (ci_StrategyID i, ci_StrategyVersion i) = (rl_TargetID r, rl_TargetVersion r)) (map_to_list (ed_items d)).*2).

Lemma stale_count d r :
  length (filter (stale_item (rl_Namespace r) (rl_TargetID r) (rl_TargetVersion r)) (map_to_list (ed_items d)).*2) = 0%nat ↔ no_stale d r.
Proof.
  rewrite length_zero_iff_nil. split.
  - intros Hnil id i Hi Hs. assert (i ∈ filter (stale_item (rl_Namespace r) (rl_TargetID r) (rl_TargetVersion r)) (map_to_list (ed_items d)).*2) as Hin.
    { apply list_elem_of_filter. split; [done|]. apply list_elem_of_fmap. exists (id, i). split; [done|by apply elem_of_map_to_list]. }
    rewrite Hnil in Hin. by apply elem_of_nil in Hin.
  - intros Hn. apply list_filter_none. intros i ([id i'] & -> & Hi%elem_of_map_to_list)%list_elem_of_fmap. by eapply Hn.
Qed.

Definition close_run (run : RunRow) (processed : nat) (now : Z) (d : EmbedDB) : EmbedDB :=
  set_ed_runs (complete_row (rl_ID run) processed now (Z.quot (now - rl_StartedAt run) 1000000) <$> ed_runs d) d.

Section watcher.
Context (svc : Service).

(** One run: nothing, or it is closed for good reason. *)
Lemma watch_run_cases (c : bool) ctx run w :
  quiet (w_ext w) → ctx_lease ctx = None → (c = true → w_faults w = []) →
  ∃ w', watch_run (Some svc) ctx run w = (tt, w') ∧ w_ledger w' = w_ledger w ∧ w_now w' = w_now w ∧ (c = true → w_faults w' = []) ∧
  ((w_ext w' = w_ext w ∧ (c = true → ¬ (no_stale (ew_db (w_ext w)) run ∧ namespace_live (rl_Namespace run) w))) ∨
   (∃ processed, no_stale (ew_db (w_ext w)) run ∧ namespace_live (rl_Namespace run) w ∧
      (c = true → processed = embedded_count (ew_db (w_ext w)) run) ∧
      w_ext w' = set_db (close_run run processed (w_now w) (ew_db (w_ext w))) (w_ext w))).
Proof.
  intros Hq Hctx Hc. unfold watch_run, CountStaleCatalogItems, CountEmbeddedCatalogItems. set (d := ew_db (w_ext w)).
  pose proof (stale_count d run) as Hst. unfold bind at 1.
  destruct (stmt_read_cases (λ _ d, length (filter (stale_item (rl_Namespace run) (rl_TargetID run) (rl_TargetVersion run)) (map_to_list (ed_items d)).*2)) w Hq)
    as (w1 & S1 & F1 & [[-> Hne]| ->]); go.
  { exists w1. split; [done|]. rewrite (sbf_ledger _ _ S1), (sbf_now _ _ S1), (sbf_ext _ _ S1). split_and!; [done|done|auto|]. left. split; [done|]. intros Ht. by destruct Hne; auto. }
  fold d. set (n := length (filter (stale_item _ _ _) _)) in *. unfold bind at 1. pose proof (sbf_ext _ _ S1) as X1.
  destruct (stmt_read_cases (λ _ d, embedded_count d run) w1 ltac:(by rewrite X1)) as (w2 & S2 & F2 & Hcnt).
  assert (∃ p, stmt (λ _ d, (embedded_count d run, d)) w1 = (p, w2) ∧ (c = true → p = inl (embedded_count d run))) as (p & Hp & Hpc).
  { destruct Hcnt as [[Hp Hne]|Hp]; eexists; (split; [exact Hp|]); intros Ht; [by destruct Hne; auto|]. by rewrite X1. }
  unfold embedded_count in Hp. rewrite Hp. go. clear Hp Hcnt. assert (same_but_faults w w2) as S by (by etransitivity).
  destruct (Nat.ltb_spec 0 n) as [Hn|Hn].
  { exists w2. split; [done|]. rewrite (sbf_ledger _ _ S), (sbf_now _ _ S), (sbf_ext _ _ S). split_and!; [done|done|auto|]. left. split; [done|].
    intros _ [Hns _]. apply Hst in Hns. lia. }
  assert (no_stale d run) as Hns by (apply Hst; lia). unfold bind at 1, gets. go. set (processed := match p with inl n => n | inr _ => 0%nat end).
  pose (Q := λ (_ : ns_row) (_ : () * error) x', x' = set_db (close_run run processed (w_now w) d) (w_ext w) ∨ c = false ∧ x' = w_ext w).
  unfold bind at 1.
  match goal with |- context [WithWriter tt svc ctx (rl_Namespace run) ?f w2] =>
    pose proof (WithWriter_writes c tt svc ctx (rl_Namespace run) f w2 Q ltac:(by unfold existing_lease; rewrite Hctx) ltac:(auto)) as HW end.
  cbv zeta in HW. match type of HW with context [WithWriter tt svc ctx (rl_Namespace run) ?f w2] => destruct (WithWriter tt svc ctx (rl_Namespace run) f w2) as [r w3] end.
  cbn [fst snd] in *. exists w3. split; [done|]. rewrite (sbf_ledger _ _ S), (sbf_now _ _ S), (sbf_ext _ _ S) in HW.
  destruct HW as (Hl & Hn3 & Hf & Hr).
  { intros row _ _ _. unfold CompleteReembedRun. eapply (writes_bind _ _ _ _ (λ _ x', Q row r x')); [|intros ? ? ?; by apply writes_ret].
    eapply (writes_bind _ _ _ _ (λ _ x', Q row r x')); [|intros ? ? ?; by apply writes_ret]. apply writes_stmt; [done| |]; [by right|by left]. }
  split; [done|]. split; [done|]. split; [done|]. destruct Hr as [(e & _ & _ & Hx & Hno)|(row & Hrow & Hs & Hy & [Hx|[-> Hx]])].
  - left. split; [done|]. intros Ht [_ Hlive]. by apply Hno.
  - right. exists processed. split; [done|]. split; [by split; [|exists row]|]. split; [|done]. intros Ht. unfold processed. by rewrite (Hpc Ht).
  - by left.
Qed.

(** An open run all of whose work is done, in a namespace that accepts writes. *)
Definition finished (d : EmbedDB) (w : W) (r : RunRow) : Prop := no_stale d r ∧ namespace_live (rl_Namespace r) w.

(** What a tick does to a row, the runs [L] watched. *)
Definition row_watched (c : bool) (d : EmbedDB) (w : W) (L : list RunRow) (r r' : RunRow) : Prop :=
  (r' = r ∧ (c = true → ∀ run, run ∈ L → rl_ID run = rl_ID r → open_run r → ¬ finished d w run)) ∨
  (∃ run p, run ∈ L ∧ rl_ID run = rl_ID r ∧ open_run r ∧ finished d w run ∧ (c = true → p = embedded_count d run) ∧
     r' = complete_row (rl_ID r) p (w_now w) (Z.quot (w_now w - rl_StartedAt run) 1000000) r).

Lemma complete_row_skip id p now ms r : ¬ (rl_ID r = id ∧ open_run r) → complete_row id p now ms r = r.
Proof. intros H. unfold complete_row. by rewrite decide_False. Qed.

Lemma complete_row_closed p now ms r : open_run r → ¬ open_run (complete_row (rl_ID r) p now ms r).
Proof. intros H. unfold complete_row. rewrite decide_True by done. by intros [_ ?]. Qed.

Lemma set_runs_id x : set_db (set_ed_runs (ed_runs (ew_db x)) (ew_db x)) x = x.
Proof. by destruct x as [[]]. Qed.

Lemma watch_runs_rows (c : bool) ctx L w :
  quiet (w_ext w) → ctx_lease ctx = None → (c = true → w_faults w = []) →
  ∃ w' F, watch_runs (Some svc) ctx L w = (tt, w') ∧
    w_ext w' = set_db (set_ed_runs (F <$> ed_runs (ew_db (w_ext w))) (ew_db (w_ext w))) (w_ext w) ∧
    ∀ r, row_watched c (ew_db (w_ext w)) w L r (F r).
Proof.
  intros Hq Hctx. revert w Hq. induction L as [|run L IH]; intros w Hq Hc; cbn [watch_runs].
  { exists w, id. split; [done|]. split; [by rewrite list_fmap_id, set_runs_id|]. intros r. left. split; [done|]. by intros _ ? ?%elem_of_nil. }
  unfold bind. destruct (watch_run_cases c ctx run w Hq Hctx Hc) as (w1 & -> & Hl & Hn & Hf & Hcase). go.
  assert (∃ f, w_ext w1 = set_db (set_ed_runs (f <$> ed_runs (ew_db (w_ext w))) (ew_db (w_ext w))) (w_ext w) ∧
    ∀ r, row_watched c (ew_db (w_ext w)) w [run] r (f r)) as (f & Hx & Hrow).
  { destruct Hcase as [[Hx Hno]|(p & Hns & Hlive & Hp & Hx)].
    - exists id. split; [by rewrite list_fmap_id, Hx, set_runs_id|]. intros r. left. split; [done|].
      intros Ht ? ->%list_elem_of_singleton _ _ [? ?]. by apply Hno.
    - eexists. split; [exact Hx|]. intros r. destruct (decide (rl_ID r = rl_ID run ∧ open_run r)) as [[Hid Ho]|Hne].
      + right. exists run, p. rewrite Hid. split_and!; try done. by apply list_elem_of_singleton.
      + left. rewrite complete_row_skip by done. split; [done|]. intros _ ? ->%list_elem_of_singleton Hid Ho. by destruct Hne. }
  destruct (IH w1) as (w' & F & -> & Hx' & HF); [by rewrite Hx|by auto|]. exists w', (F ∘ f). split; [done|]. split.
  { by rewrite Hx', Hx, list_fmap_compose. }
  assert (∀ r, finished (ew_db (w_ext w1)) w1 r ↔ finished (ew_db (w_ext w)) w r) as Hfin.
  { intros r. unfold finished, namespace_live, no_stale. by rewrite Hl, Hx. }
  intros r. cbn. destruct (Hrow r) as [[Hfr Hno]|(? & p & ->%list_elem_of_singleton & Hid & Ho & Hfi & Hp & Hfr)]; rewrite Hfr.
  - destruct (HF r) as [[-> HnoL]|(run' & p & Hin & Hid & Ho & Hfi & Hp & ->)].
    + left. split; [done|]. intros Ht r' [->|Hin]%elem_of_cons Hid Ho Hfi; [by eapply Hno; [|by apply list_elem_of_singleton|..]|].
      by eapply HnoL; [..|apply Hfin].
    + right. exists run', p. rewrite Hn. split_and!; try done; [by right|by apply Hfin|]. intros Ht. rewrite (Hp Ht). by rewrite Hx.
  - right. exists run, p. split_and!; try done; [by left|]. destruct (HF (complete_row (rl_ID r) p (w_now w) (Z.quot (w_now w - rl_StartedAt run) 1000000) r))
      as [[-> _]|(? & ? & _ & _ & Ho' & _)]; [done|]. by destruct (complete_row_closed p (w_now w) (Z.quot (w_now w - rl_StartedAt run) 1000000) r Ho).
Qed.

(** The watcher: whatever fails, one tick changes nothing but rows of open
    re-embed runs, and closes such a run, as a success at the current time, only
    when its namespace accepts writes and no item of it is still to be embedded
    under the target strategy. When nothing fails it closes every such run with
    the exact number of items embedded under the target. *)
Theorem watcher_closes_finished_runs ctx w :
  quiet (w_ext w) → ctx_lease ctx = None → NoDup (rl_ID <$> ed_runs (ew_db (w_ext w))) →
  let d := ew_db (w_ext w) in
  ∃ runs', w_ext (watcher_tick (Some svc) ctx w).2 = set_db (set_ed_runs runs' d) (w_ext w) ∧
    Forall2 (λ r r',
      (r' = r ∧ (w_faults w = [] → ¬ (open_run r ∧ finished d w r))) ∨
      (∃ p, open_run r ∧ finished d w r ∧ (w_faults w = [] → p = embedded_count d r) ∧
         r' = complete_row (rl_ID r) p (w_now w) (Z.quot (w_now w - rl_StartedAt r) 1000000) r)) (ed_runs d) runs'.
Proof.
  intros Hq Hctx Hnd d. unfold watcher_tick, ListOpenReembedRuns. unfold bind at 1.
  destruct (stmt_read_cases (λ _ d, filter open_run (ed_runs d)) w Hq) as (w1 & S & Hf & [[-> Hne]| ->]); go.
  { exists (ed_runs d). split; [by rewrite (sbf_ext _ _ S); subst d; rewrite set_runs_id|]. apply Forall2_same_length_lookup_2; [done|]. intros k r r' Hr Hr'. left. by simplify_eq. }
  fold d. pose proof (sbf_ext _ _ S) as Hx. destruct (watch_runs_rows (bool_decide (w_faults w = [])) ctx (filter open_run (ed_runs d)) w1)
    as (w' & F & -> & Hx' & HF); [by rewrite Hx|done|by intros Ht%bool_decide_eq_true; auto|].
  rewrite Hx in Hx', HF. exists (F <$> ed_runs d). split; [done|]. apply Forall2_fmap_r, Forall_Forall2_diag, Forall_forall. unfold compose. intros r Hr.
  assert (∀ run, run ∈ filter open_run (ed_runs d) → rl_ID run = rl_ID r → run = r) as Huniq.
  { intros run [_ Hin]%list_elem_of_filter Hid. by eapply (NoDup_fmap_eq rl_ID). }
  assert (∀ run, finished d w1 run ↔ finished d w run) as Hfin by (intros run; unfold finished, namespace_live; by rewrite (sbf_ledger _ _ S)).
  destruct (HF r) as [[-> Hno]|(run & p & Hin & Hid & Ho & Hfi & Hp & ->)].
  - left. split; [done|]. intros Hw [Ho Hfi%Hfin]. eapply (Hno (bool_decide_eq_true_2 _ Hw) r); [by apply list_elem_of_filter|done..].
  - rewrite (Huniq run Hin Hid) in *. right. exists p. rewrite (sbf_now _ _ S). split_and!; try done; [by apply Hfin|]. intros Hw. by apply Hp, bool_decide_eq_true_2.
Qed.
End watcher.

(** ** Witnesses *)

(** Two stranded rows and a batch of one: the older row is published. *)
Definition stranded_item (id updated : Z) : Item :=
  {| ci_ID := id; ci_Namespace := "demo"; ci_ObjectID := "o"; ci_Content := "text"; ci_ContentHash := "h"; ci_Metadata := None;
     ci_State := StatePending; ci_StrategyID := ""; ci_StrategyVersion := ""; ci_EmbeddedAt := None; ci_AttemptCount := 0;
     ci_LastError := ""; ci_CreatedAt := 1; ci_UpdatedAt := updated |}.
Definition stranded_db : EmbedDB :=
  set_ed_items {[1%Z := stranded_item 1 5; 2%Z := stranded_item 2 3]} (embed_db (embed_item "text" "h")).
Definition small_batch : SweeperConfig := {| sw_PendingStaleAfter := 2; sw_InFlightStaleAfter := 2; sw_BatchSize := 1 |}.

Lemma sweep_recovers_stranded_witness :
  ∃ stream, embedStreamName "demo" 3 = Some stream ∧
  let d' := ew_db (w_ext (sweepNamespace small_batch "demo" 3 "sample" "v1" (embed_world stranded_db [] [])).2) in
  ed_added d' = [sweep_entry stream "demo" 3 "sample" "v1" 9 (stranded_item 2 3)] ∧
  swept small_batch stream "demo" 3 "sample" "v1" 9 stranded_db d'.
Proof.
  eexists. split; [vm_compute; reflexivity|]. split; [vm_compute; reflexivity|].
  apply (sweep_recovers_stranded small_batch "demo" 3 _ "sample" "v1" (embed_world stranded_db [] [])).
  - vm_compute. reflexivity.
  - reflexivity.
  - intros id i Hi. cbn in Hi. apply lookup_insert_Some in Hi as [[<- <-]|[_ Hi]]; [reflexivity|].
    apply lookup_singleton_Some in Hi as [<- <-]. reflexivity.
  - reflexivity.
  - intros (lag & pending & H & _). vm_compute in H. discriminate.
Defined.

(** Two open runs; the item is pending under the target of the first. *)
Definition watch_db : EmbedDB :=
  let run id target := {| rl_ID := id; rl_Namespace := "demo"; rl_TriggerSource := TriggerReembed; rl_TargetID := target; rl_TargetVersion := "v1";
    rl_StartedAt := 1; rl_CompletedAt := None; rl_DurationMs := 0; rl_Processed := 0; rl_Success := false; rl_Error := None |} in
  set_ed_runs [run 1%Z "sample"; run 2%Z "other"] (embed_db (pending_row 5 (embedded_row 5 "sample" "v1" 5 (embed_item "text" "h")))).

Lemma watcher_closes_finished_runs_witness :
  let w := embed_world watch_db [] [] in
  let x' := w_ext (watcher_tick (Some pair_service) background w).2 in
  (λ r, (rl_ID r, rl_CompletedAt r, rl_Processed r)) <$> ed_runs (ew_db x') = [(1, Some 9, 0); (2, None, 0)]%Z ∧
  ∃ runs', x' = set_db (set_ed_runs runs' watch_db) (w_ext w) ∧ length runs' = 2%nat.
Proof.
  split; [vm_compute; reflexivity|].
  destruct (watcher_closes_finished_runs pair_service background (embed_world watch_db [] [])) as (runs' & Hx & Hr).
  - reflexivity.
  - reflexivity.
  - apply (bool_decide_unpack _). vm_compute. exact I.
  - exists runs'. split; [exact Hx|]. symmetry. exact (Forall2_length _ _ _ Hr).
Defined.
