(* ===== verification/Scoring.v ===== *)
(** * Scores, candidates and pages

    The pure part of [internal/recommend]: [scoring.go], and of [service.go]
    the score maps, the hybrid blend, the rerank, paging, exclusion and the
    interleaving of two lists. Scores are IEEE doubles, instants are nanoseconds
    since Go's zero time. [math.Exp] is a parameter, as its last bits are not
    documented; [sort.Slice] is an interface with its documented contract,
    since it is not stable. *)

From stdpp Require Import base tactics gmap sets strings list sorting.
From Stdlib Require Import ZArith SpecFloat Lia Ascii.
From S2P Require Import Prelude GoLib Float64 NsNames NsLedger.

(** ** Go's library *)

Class GoMath := { Exp : float64 → float64 }.

(** [less] orders the elements of [l] as [sort.Slice] asks. *)
Definition weak_order {A} (less : A → A → bool) (l : list A) : Prop :=
  (∀ a b, a ∈ l → b ∈ l → less a b = true → less b a = false) ∧
  (∀ a b c, a ∈ l → b ∈ l → c ∈ l → less a b = false → less b c = false → less a c = false).

Class GoSort := {
  sort_slice : ∀ {A : Type}, (A → A → bool) → list A → list A;
  sort_slice_perm : ∀ {A : Type} (less : A → A → bool) (l : list A), sort_slice less l ≡ₚ l;
  sort_slice_sorted : ∀ {A : Type} (less : A → A → bool) (l : list A),
    weak_order less l → Sorted (λ a b, less b a = false) (sort_slice less l);
}.

(** [math.Round] of a finite double, as the integer it is: half away from zero. *)
Definition f64_round (x : float64) : Z :=
  match x with
  | S754_finite s m e =>
      let v := if (0 <=? e)%Z then (Zpos m * 2 ^ e)%Z else ((Zpos m + 2 ^ (- e - 1)) / 2 ^ (- e))%Z in
      if s then (- v)%Z else v
  | _ => 0%Z
  end.

Definition f64_neg (x : float64) : float64 := SFopp x.

(** [time.Time.Sub] saturates at the range of [time.Duration]. *)
Definition time_sub (t u : Z) : Z := Z.max (- 2 ^ 63) (Z.min max_int64 (t - u)).

(** [Duration.Hours]: whole hours plus the remainder over the hour. *)
Definition hour_ns : Z := 3600000000000.
Definition duration_hours (d : Z) : float64 :=
  f64_add (f64_of_Z (Z.quot d hour_ns)) (f64_div (f64_of_Z (Z.rem d hour_ns)) (f64_of_Z hour_ns)).

(** ** scoring.go *)

Definition finiteScore (value : float64) : bool := negb (is_nan value) && negb (is_inf value).

Definition clampUnit (value : float64) : float64 :=
  if negb (finiteScore value) || f64_ltb value f64_zero then f64_zero
  else if f64_gtb value f64_one then f64_one
  else value.

Definition nonNegativeAgeDays (now createdAt : Z) : float64 :=
  let age := f64_div (duration_hours (time_sub now createdAt)) (f64_of_Z 24) in
  if negb (finiteScore age) || f64_ltb age f64_zero then f64_zero else age.

Definition freshnessMultiplier `{GoMath} (now createdAt : Z) (gamma : float64) : float64 :=
  if negb (finiteScore gamma) || f64_ltb gamma f64_zero then f64_zero
  else clampUnit (Exp (f64_mul (f64_neg gamma) (nonNegativeAgeDays now createdAt))).

(** ** Points *)

(** The payload fields the package reads or writes. A [created_at] is [None]
    when absent and [Some None] when [time.Parse] rejects it. *)
Record Payload := {
  pl_object_id : option string;
  pl_subject_id : option string;
  pl_strategy : option string;
  pl_updated_at : option Z;
  pl_created_at : option (option Z);
}.

(** The single precision score of a point is exact as a double. *)
Record ScoredPoint := {
  sp_id : Z;
  sp_score : float64;
  sp_payload : Payload;
}.

Definition objectIDOf (p : ScoredPoint) : option string := pl_object_id (sp_payload p).

Definition extractScores (points : list ScoredPoint) : gmap string float64 :=
  foldl (λ m p, match objectIDOf p with Some id => <[id := sp_score p]> m | None => m end) ∅ points.

Definition clampUnitScores (scores : gmap string float64) : gmap string float64 :=
  clampUnit <$> filter (λ kv, finiteScore kv.2 = true) scores.

Definition denseDistanceDot : string := "dot".
Definition dotNormK : float64 := f64_of_Z 5.

Definition boundDenseScores (scores : gmap string float64) (distance : string) : gmap string float64 :=
  if negb (bool_decide (distance = denseDistanceDot)) then clampUnitScores scores
  else (λ v, if f64_leb v f64_zero then f64_zero else f64_div v (f64_add v dotNormK))
         <$> filter (λ kv, finiteScore kv.2 = true) scores.

Definition pointIDsMissingFrom (base have : list ScoredPoint) : list Z :=
  let inBase : gset string := list_to_set (omap objectIDOf base) in
  omap (λ p, match objectIDOf p with
             | None => None
             | Some id => if decide (id ∈ inBase) then None else Some (sp_id p)
             end) have.

(** The backfilled points lose their creation time. *)
Definition scoresOnly (points : list ScoredPoint) : list ScoredPoint :=
  (λ p, {| sp_id := sp_id p; sp_score := sp_score p;
           sp_payload := {| pl_object_id := pl_object_id (sp_payload p); pl_subject_id := pl_subject_id (sp_payload p);
                            pl_strategy := pl_strategy (sp_payload p); pl_updated_at := pl_updated_at (sp_payload p);
                            pl_created_at := None |} |}) <$> points.

(** The first creation time seen wins. *)
Definition buildCreatedAtLookup (points : list ScoredPoint) : gmap string Z :=
  foldl (λ m p,
    match objectIDOf p with
    | None => m
    | Some id =>
        match m !! id with
        | Some _ => m
        | None => match pl_created_at (sp_payload p) with Some (Some t) => <[id := t]> m | _ => m end
        end
    end) ∅ points.

Record blendedCandidate := {
  bc_objectID : string;
  bc_score : float64;
}.

(** Descending score, then object id. *)
Definition blended_less (a b : blendedCandidate) : bool :=
  if negb (f64_eqb (bc_score a) (bc_score b)) then f64_gtb (bc_score a) (bc_score b)
  else String.ltb (bc_objectID a) (bc_objectID b).

Definition blend_one `{GoMath} (normSparse normDense : gmap string float64) (createdAt : gmap string Z)
    (alpha gamma : float64) (now : Z) (objectID : string) : option blendedCandidate :=
  let blended := f64_add (f64_mul alpha (default f64_zero (normSparse !! objectID)))
                         (f64_mul (f64_sub f64_one alpha) (default f64_zero (normDense !! objectID))) in
  let blended := match createdAt !! objectID with
                 | Some t => f64_mul blended (freshnessMultiplier now t gamma)
                 | None => blended
                 end in
  if negb (finiteScore blended) then None else Some {| bc_objectID := objectID; bc_score := blended |}.

(** The candidate set is a Go map: its iteration order does not survive the sort. *)
Definition blendHybridScores `{GoMath, GoSort} (sparseResults denseResults : list ScoredPoint) (alpha gamma : float64)
    (denseDistance : string) (now : Z) : list blendedCandidate :=
  let normSparse := clampUnitScores (extractScores sparseResults) in
  let normDense := boundDenseScores (extractScores denseResults) denseDistance in
  let candidateSet : gset string := dom normSparse ∪ dom normDense in
  let createdAt := buildCreatedAtLookup (sparseResults ++ denseResults) in
  sort_slice blended_less (omap (blend_one normSparse normDense createdAt alpha gamma now) (elements candidateSet)).

Record scoredItem := {
  si_objectID : string;
  si_finalScore : float64;
}.

Definition rerank_one `{GoMath} (now : Z) (gamma : float64) (p : ScoredPoint) : option scoredItem :=
  match pl_object_id (sp_payload p) with
  | None => None
  | Some id =>
      let finalScore := sp_score p in
      if negb (finiteScore finalScore) then None
      else
        let finalScore := match pl_created_at (sp_payload p) with
                          | Some (Some t) => f64_mul finalScore (freshnessMultiplier now t gamma)
                          | _ => finalScore
                          end in
        if negb (finiteScore finalScore) then None
        else Some {| si_objectID := id; si_finalScore := finalScore |}
  end.

Definition rerank_less (a b : scoredItem) : bool := f64_gtb (si_finalScore a) (si_finalScore b).

Definition rerankScored `{GoMath, GoSort} (points : list ScoredPoint) (now : Z) (gamma : float64) (limit : nat)
    : list scoredItem :=
  let scored := sort_slice rerank_less (omap (rerank_one now gamma) points) in
  if (limit <? length scored)%nat then take limit scored else scored.

(** ** Pages *)

Record RecommendedItem := {
  ri_ObjectID : string;
  ri_Score : float64;
  ri_Rank : nat;
  ri_Scored : bool;
}.

Definition pageOf {A} (s : list A) (offset limit : nat) : list A * nat :=
  let start := Nat.min offset (length s) in
  (take (Nat.min (start + limit) (length s) - start) (drop start s), start).

(** Items with consecutive ranks from [start + 1]. *)
Definition ranked {A} (mk : A → nat → RecommendedItem) (page : list A) (start : nat) : list RecommendedItem :=
  imap (λ i x, mk x (start + i + 1)%nat) page.

Definition unscored (id : string) (rank : nat) : RecommendedItem :=
  {| ri_ObjectID := id; ri_Score := f64_zero; ri_Rank := rank; ri_Scored := false |}.

Definition pageItems (scored : list scoredItem) (offset limit : nat) : list RecommendedItem :=
  let '(paged, start) := pageOf scored offset limit in
  ranked (λ s rank, {| ri_ObjectID := si_objectID s; ri_Score := si_finalScore s; ri_Rank := rank; ri_Scored := true |}) paged start.

Definition repageItems (items : list RecommendedItem) (offset limit : nat) : list RecommendedItem :=
  let '(paged, start) := pageOf items offset limit in
  ranked (λ it rank, {| ri_ObjectID := ri_ObjectID it; ri_Score := ri_Score it; ri_Rank := rank; ri_Scored := ri_Scored it |}) paged start.

Definition itemIDs (items : list RecommendedItem) : list string := ri_ObjectID <$> items.

(** ** Exclusion and interleaving *)

(** A nil map is the empty set. *)
Definition mergeExclusions (a b : gset string) : gset string :=
  if bool_decide (b = ∅) then a else if bool_decide (a = ∅) then b else a ∪ b.

Definition dropAuthored (ids : list string) (authored : gset string) : list string :=
  if bool_decide (authored = ∅) then ids else filter (λ id, id ∉ authored) ids.

(** [take] of [blendItems]: up to [n] new items while the result is short. *)
Fixpoint blend_take (limit : nat) (items : list string) (n : Z) (result : list string) : list string :=
  match items with
  | [] => result
  | item :: rest =>
      if (limit <=? length result)%nat then result
      else if (n <=? 0)%Z then result
      else if decide (item ∈ result) then blend_take limit rest n result
      else blend_take limit rest (n - 1) (result ++ [item])
  end.

Definition blendItems (popular cf : list string) (popularRatio : float64) (limit : nat) : list string :=
  let popularCount := f64_round (f64_mul (f64_of_Z (Z.of_nat limit)) popularRatio) in
  let cfCount := (Z.of_nat limit - popularCount)%Z in
  let result := blend_take limit popular popularCount [] in
  let result := blend_take limit cf cfCount result in
  let result := blend_take limit popular (Z.of_nat limit - Z.of_nat (length result)) result in
  blend_take limit cf (Z.of_nat limit - Z.of_nat (length result)) result.

(** ** Cache keys *)

Definition recCacheKey (ns : string) (generation : Z) (subjectID : string) (limit offset : nat) : option string :=
  (λ p, p +:+ ":" +:+ b64_encode subjectID +:+ ":limit=" +:+ itoa (Z.of_nat limit) +:+ ":offset=" +:+ itoa (Z.of_nat offset))
    <$> MustPhysicalName KindRecommendationCache ns generation.

(** ** Facts *)

Lemma pageOf_page {A} (s : list A) offset limit : (pageOf s offset limit).1 = take limit (drop offset s).
Proof.
  unfold pageOf. cbn [fst]. destruct (Nat.le_gt_cases (length s) offset) as [Hl|Hl].
  - rewrite (Nat.min_r offset) by lia. rewrite !drop_ge by lia. by rewrite !take_nil.
  - rewrite (Nat.min_l offset) by lia. destruct (Nat.le_gt_cases (offset + limit) (length s)).
    + by replace (Nat.min (offset + limit) (length s) - offset)%nat with limit by lia.
    + rewrite (Nat.min_r (offset + limit)) by lia. rewrite !take_ge; [done|rewrite length_drop; lia..].
Qed.

(** Where a page has an item, it starts at the offset. *)
Lemma pageOf_start {A} (s : list A) offset limit : (pageOf s offset limit).1 ≠ [] → (pageOf s offset limit).2 = offset.
Proof.
  rewrite pageOf_page. cbn. intros Hne. apply Nat.min_l. destruct (Nat.le_gt_cases (length s) offset) as [Hl|Hl]; [|lia]. exfalso. apply Hne.
  by rewrite drop_ge, take_nil by lia.
Qed.

(** Items carry the global ranks [offset + 1], [offset + 2], ... *)
Definition ranks_from (offset : nat) (items : list RecommendedItem) : Prop :=
  ri_Rank <$> items = seq (offset + 1) (length items).

Lemma ranked_ranks {A} (mk : A → nat → RecommendedItem) page start :
  (∀ x n, ri_Rank (mk x n) = n) → ranks_from start (ranked mk page start).
Proof.
  intros Hmk. unfold ranks_from, ranked. apply list_eq. intros i. rewrite list_lookup_fmap, list_lookup_imap.
  destruct (decide (i < length page)%nat) as [Hi|Hi].
  - apply lookup_lt_is_Some in Hi as Hx. destruct Hx as [x ->]. cbn. rewrite Hmk.
    symmetry. apply lookup_seq. rewrite length_imap. lia.
  - rewrite lookup_ge_None_2 by lia. cbn. symmetry. apply lookup_ge_None_2. rewrite length_seq, length_imap. lia.
Qed.

Lemma ranks_from_nil n : ranks_from n [].
Proof. done. Qed.

Lemma page_ranked {A} (mk : A → nat → RecommendedItem) s offset limit :
  (∀ x n, ri_Rank (mk x n) = n) →
  let '(paged, start) := pageOf s offset limit in
  ranks_from offset (ranked mk paged start) ∧ (length (ranked mk paged start) <= limit)%nat.
Proof.
  intros Hmk. pose proof (pageOf_page s offset limit) as Hp. pose proof (pageOf_start s offset limit) as Hs.
  destruct (pageOf s offset limit) as [paged start]. cbn [fst snd] in *. split.
  - destruct paged as [|x paged]; [done|]. rewrite Hs by done. by apply ranked_ranks.
  - unfold ranked. rewrite length_imap, Hp, length_take. lia.
Qed.

(** *** Interleaving *)

Section blend_take.
Context (limit : nat).

Lemma blend_take_spec items n result :
  NoDup result → (length result <= limit)%nat →
  let out := blend_take limit items n result in
  NoDup out ∧ (length out <= limit)%nat ∧ (∀ x, x ∈ result → x ∈ out) ∧ (∀ x, x ∈ out → x ∈ result ∨ x ∈ items) ∧
  ((Z.of_nat limit - Z.of_nat (length result) <= n)%Z → length out = limit ∨ ∀ x, x ∈ items → x ∈ out).
Proof.
  revert n result. induction items as [|i items IH]; intros n result Hnd Hl; cbn [blend_take].
  { split_and!; auto. intros _. right. set_solver. }
  destruct (Nat.leb_spec limit (length result)) as [Hf|Hf].
  { split_and!; auto. intros _. left. lia. }
  destruct (Z.leb_spec n 0) as [Hn|Hn].
  { split_and!; auto. intros Hc. left. lia. }
  destruct (decide (i ∈ result)) as [Hi|Hi].
  - destruct (IH n result Hnd Hl) as (H1 & H2 & H3 & H4 & H5). split_and!; auto.
    + intros x Hx. destruct (H4 x Hx); set_solver.
    + intros Hc. destruct (H5 Hc) as [|Ha]; [by left|right]. set_solver.
  - destruct (IH (n - 1)%Z (result ++ [i])) as (H1 & H2 & H3 & H4 & H5).
    + apply NoDup_app. split; [done|]. split; [set_solver|]. apply NoDup_singleton.
    + rewrite length_app. cbn. lia.
    + split_and!; auto.
      * intros x Hx. apply H3. set_solver.
      * intros x Hx. destruct (H4 x Hx); set_solver.
      * intros Hc. destruct H5 as [|Ha]; [rewrite length_app; cbn; lia|by left|right].
        intros x [->|Hx]%elem_of_cons; [apply H3; set_solver|auto].
Qed.
End blend_take.

(** The cold-start interleaving: whatever share the ratio gives each side,
    the result has no duplicates, only objects of the two lists, at most
    [limit] of them, and falls short of [limit] only when both lists are
    exhausted. *)
Theorem blendItems_fills popular cf ratio limit :
  let out := blendItems popular cf ratio limit in
  NoDup out ∧ (∀ x, x ∈ out → x ∈ popular ∨ x ∈ cf) ∧
  length out = Nat.min limit (size (list_to_set (popular ++ cf) : gset string)).
Proof.
  cbv zeta. unfold blendItems. set (n := f64_round _). clearbody n.
  destruct (blend_take_spec limit popular n [] (NoDup_nil_2) ltac:(cbn; lia)) as (A1 & A2 & A3 & A4 & _).
  set (r1 := blend_take limit popular n []) in *. clearbody r1.
  destruct (blend_take_spec limit cf (Z.of_nat limit - n) r1 A1 A2) as (B1 & B2 & B3 & B4 & _).
  set (r2 := blend_take limit cf _ r1) in *. clearbody r2.
  destruct (blend_take_spec limit popular (Z.of_nat limit - Z.of_nat (length r2)) r2 B1 B2) as (C1 & C2 & C3 & C4 & C5).
  set (r3 := blend_take limit popular _ r2) in *. clearbody r3. specialize (C5 ltac:(lia)).
  destruct (blend_take_spec limit cf (Z.of_nat limit - Z.of_nat (length r3)) r3 C1 C2) as (D1 & D2 & D3 & D4 & D5).
  set (r4 := blend_take limit cf _ r3) in *. clearbody r4. specialize (D5 ltac:(lia)).
  assert (∀ x, x ∈ r4 → x ∈ popular ∨ x ∈ cf) as Hsub.
  { intros x Hx. destruct (D4 x Hx) as [H3|]; [|by right]. destruct (C4 x H3) as [H2|]; [|by left].
    destruct (B4 x H2) as [H1|]; [|by right]. destruct (A4 x H1) as [H0|]; [set_solver|by left]. }
  split; [done|]. split; [done|].
  assert (length r4 = size (list_to_set r4 : gset string)) as Hsize by (by rewrite size_list_to_set).
  assert (size (list_to_set r4 : gset string) <= size (list_to_set (popular ++ cf) : gset string))%nat as Hle.
  { apply subseteq_size. intros x. rewrite !elem_of_list_to_set, elem_of_app. apply Hsub. }
  assert (length r4 = limit ∨ (size (list_to_set (popular ++ cf) : gset string) <= length r4)%nat) as [|]; [|lia|lia].
  destruct D5 as [|D5]; [by left|]. destruct C5 as [C5|C5].
  - left. assert (length r3 <= length r4)%nat; [|lia].
    apply submseteq_length, NoDup_submseteq; [done|]. intros x. apply D3.
  - right. rewrite Hsize. apply subseteq_size. intros x. rewrite !elem_of_list_to_set, elem_of_app. intros [Hx|Hx]; auto.
Qed.

(** *** The order of finite doubles *)

(** The order is lexicographic: sign, exponent, mantissa. *)
Definition f64_key (x : float64) : Z * Z * Z :=
  match x with
  | S754_nan => (0, 0, 0)%Z
  | S754_zero _ => (0, 0, 0)%Z
  | S754_infinity s => ((if s then -2 else 2)%Z, 0%Z, 0%Z)
  | S754_finite false m e => (1%Z, e, Zpos m)
  | S754_finite true m e => ((-1)%Z, (- e)%Z, Zneg m)
  end.

Definition key_lt (a b : Z * Z * Z) : Prop :=
  (a.1.1 < b.1.1 ∨ a.1.1 = b.1.1 ∧ (a.1.2 < b.1.2 ∨ a.1.2 = b.1.2 ∧ a.2 < b.2))%Z.

Lemma f64_compare_key x y :
  is_nan x = false → is_nan y = false →
  (f64_ltb x y = true ↔ key_lt (f64_key x) (f64_key y)) ∧ (f64_eqb x y = true ↔ f64_key x = f64_key y).
Proof.
  unfold f64_ltb, f64_eqb, SFltb, SFeqb, key_lt.
  destruct x as [sx|sx| |sx mx ex], y as [sy|sy| |sy my ey]; try done; intros _ _;
    try (destruct sx); try (destruct sy); cbn; try (split; split; try done; intros; simplify_eq; lia).
  all: rewrite ?Pos.compare_cont_spec; change (Pos.compare_cont Eq mx my) with (mx ?= my)%positive.
  all: destruct (Z.compare_spec ex ey); try (split; split; try done; intros; simplify_eq; lia).
  all: destruct (Pos.compare_spec mx my); cbn; subst; split; split; try done; intros; simplify_eq; try lia; try done; f_equal; lia.
Qed.

Lemma key_lt_irrefl a : ¬ key_lt a a.
Proof. unfold key_lt. lia. Qed.
Lemma key_lt_asym a b : key_lt a b → ¬ key_lt b a.
Proof. unfold key_lt. lia. Qed.
Lemma key_lt_trans a b c : key_lt a b → key_lt b c → key_lt a c.
Proof. unfold key_lt. lia. Qed.
Lemma key_lt_total a b : key_lt a b ∨ a = b ∨ key_lt b a.
Proof.
  destruct a as [[a1 a2] a3], b as [[b1 b2] b3]. unfold key_lt. cbn.
  destruct (Z.lt_trichotomy a1 b1) as [|[->|]]; [lia| |lia]. destruct (Z.lt_trichotomy a2 b2) as [|[->|]]; [lia| |lia].
  destruct (Z.lt_trichotomy a3 b3) as [|[->|]]; [lia|by auto|lia].
Qed.

Lemma string_ltb_irrefl a : String.ltb a a = false.
Proof. apply (coll_irrefl (Collation := bytewise_collation)). Qed.
Lemma string_ltb_trans a b c : String.ltb a b = true → String.ltb b c = true → String.ltb a c = true.
Proof. apply (coll_trans (Collation := bytewise_collation)). Qed.
Lemma string_ltb_total a b : a = b ∨ String.ltb a b = true ∨ String.ltb b a = true.
Proof. apply (coll_total (Collation := bytewise_collation)). Qed.

Lemma finiteScore_not_nan x : finiteScore x = true → is_nan x = false.
Proof. unfold finiteScore. intros [H _]%andb_true_iff. by apply negb_true_iff. Qed.

(** A clamped score lies in the unit interval, whatever it was. *)
Lemma clampUnit_unit x :
  finiteScore (clampUnit x) = true ∧ f64_ltb (clampUnit x) f64_zero = false ∧ f64_gtb (clampUnit x) f64_one = false.
Proof.
  unfold clampUnit. destruct (finiteScore x) eqn:Hf; cbn [negb orb]; [|done].
  destruct (f64_ltb x f64_zero) eqn:Hl; [done|]. destruct (f64_gtb x f64_one) eqn:Hg; done.
Qed.

Definition finite_scores (scores : gmap string float64) : Prop := ∀ k v, scores !! k = Some v → finiteScore v = true.

Lemma blend_one_some `{GoMath} ns nd ca alpha gamma now id c :
  blend_one ns nd ca alpha gamma now id = Some c → bc_objectID c = id ∧ finiteScore (bc_score c) = true.
Proof.
  unfold blend_one. set (s := match ca !! id with Some _ => _ | None => _ end). clearbody s.
  destruct (finiteScore s) eqn:Hf; cbn; [|done]. intros [= <-]. done.
Qed.

Lemma blended_less_weak l : (∀ c, c ∈ l → finiteScore (bc_score c) = true) → weak_order blended_less l.
Proof.
  intros Hl.
  assert (∀ a b, a ∈ l → b ∈ l →
    (blended_less a b = true ↔ key_lt (f64_key (bc_score b)) (f64_key (bc_score a)) ∨
      f64_key (bc_score a) = f64_key (bc_score b) ∧ String.ltb (bc_objectID a) (bc_objectID b) = true)) as Hspec.
  { intros a b Ha Hb. pose proof (finiteScore_not_nan _ (Hl a Ha)) as Na. pose proof (finiteScore_not_nan _ (Hl b Hb)) as Nb.
    unfold blended_less, f64_gtb. fold (f64_ltb (bc_score b) (bc_score a)).
    destruct (f64_compare_key _ _ Na Nb) as [_ He]. destruct (f64_compare_key _ _ Nb Na) as [Hlt _].
    destruct (f64_eqb (bc_score a) (bc_score b)) eqn:E; cbn [negb].
    - pose proof (proj1 He eq_refl) as Hk. unfold key_lt. rewrite Hk. split; [by right|]. intros [|[_ ?]]; [lia|done].
    - split; [intros Ht; left; by apply Hlt|]. intros [?|[Hk _]]; [by apply Hlt|]. apply He in Hk. congruence. }
  split.
  - intros a b Ha Hb Hab. apply Hspec in Hab; [|done..]. apply not_true_iff_false. intros Hba. apply Hspec in Hba; [|done..].
    destruct Hab as [Hab|[Hk Hab]], Hba as [Hba|[Hk' Hba]].
    + by apply (key_lt_asym _ _ Hab).
    + rewrite Hk' in Hab. by apply key_lt_irrefl in Hab.
    + rewrite Hk in Hba. by apply key_lt_irrefl in Hba.
    + pose proof (string_ltb_trans _ _ _ Hab Hba) as Hx. by rewrite string_ltb_irrefl in Hx.
  - intros a b c Ha Hb Hc Hab Hbc. apply not_true_iff_false. intros Hac. apply Hspec in Hac; [|done..].
    apply not_true_iff_false in Hab. apply not_true_iff_false in Hbc. rewrite Hspec in Hab, Hbc by done.
    destruct Hac as [Hac|[Hk Hac]].
    + destruct (key_lt_total (f64_key (bc_score a)) (f64_key (bc_score b))) as [Ht|[Ht|Ht]].
      * apply Hbc. left. by eapply key_lt_trans.
      * apply Hbc. left. by rewrite <- Ht.
      * apply Hab. by left.
    + destruct (key_lt_total (f64_key (bc_score a)) (f64_key (bc_score b))) as [Ht|[Ht|Ht]].
      * apply Hbc. left. by rewrite <- Hk.
      * destruct (string_ltb_total (bc_objectID a) (bc_objectID b)) as [Hid|[Hid|Hid]].
        -- apply Hbc. right. rewrite <- Ht, <- Hid. done.
        -- apply Hab. by right.
        -- apply Hbc. right. split; [congruence|]. by eapply string_ltb_trans.
      * apply Hab. by left.
Qed.

Lemma rerank_less_weak l : (∀ c, c ∈ l → finiteScore (si_finalScore c) = true) → weak_order rerank_less l.
Proof.
  intros Hl.
  assert (∀ a b, a ∈ l → b ∈ l → (rerank_less a b = true ↔ key_lt (f64_key (si_finalScore b)) (f64_key (si_finalScore a)))) as Hspec.
  { intros a b Ha Hb. pose proof (finiteScore_not_nan _ (Hl a Ha)) as Na. pose proof (finiteScore_not_nan _ (Hl b Hb)) as Nb.
    by destruct (f64_compare_key _ _ Nb Na) as [Hlt _]. }
  split.
  - intros a b Ha Hb Hab. apply Hspec in Hab; [|done..]. apply not_true_iff_false. intros Hba. apply Hspec in Hba; [|done..].
    by apply (key_lt_asym _ _ Hab).
  - intros a b c Ha Hb Hc Hab Hbc. apply not_true_iff_false. intros Hac. apply Hspec in Hac; [|done..].
    apply not_true_iff_false in Hab. apply not_true_iff_false in Hbc. rewrite Hspec in Hab, Hbc by done.
    destruct (key_lt_total (f64_key (si_finalScore a)) (f64_key (si_finalScore b))) as [Ht|[Ht|Ht]]; [| |done].
    + apply Hbc. by eapply key_lt_trans.
    + apply Hbc. by rewrite <- Ht.
Qed.

(** *** What the blend and the rerank return *)

Definition objects_of (points : list ScoredPoint) : list string := omap objectIDOf points.

Lemma foldl_scores_dom points (m : gmap string float64) k :
  k ∈ dom (foldl (λ m p, match objectIDOf p with Some id => <[id := sp_score p]> m | None => m end) m points) ↔
  k ∈ dom m ∨ k ∈ objects_of points.
Proof.
  revert m. induction points as [|p points IH]; intros m; cbn [foldl]; [set_solver|].
  rewrite IH. unfold objects_of. cbn [omap list_omap]. destruct (objectIDOf p); [|done]. rewrite dom_insert. set_solver.
Qed.

Lemma extractScores_dom points k : k ∈ dom (extractScores points) ↔ k ∈ objects_of points.
Proof. unfold extractScores. rewrite foldl_scores_dom. set_solver. Qed.

Lemma blend_candidates_dom (s : gmap string float64) d k :
  (k ∈ dom (clampUnitScores s) → k ∈ dom s) ∧ (k ∈ dom (boundDenseScores s d) → k ∈ dom s).
Proof.
  assert (∀ f : float64 → float64, k ∈ dom (f <$> filter (λ kv, finiteScore kv.2 = true) s) → k ∈ dom s) as Hf.
  { intros f. rewrite dom_fmap. intros Hk. by eapply dom_filter_subseteq. }
  split; [apply Hf|]. unfold boundDenseScores. destruct (negb _); apply Hf.
Qed.

Lemma blendHybridScores_spec `{GoMath, GoSort} sparse dense alpha gamma d now :
  let out := blendHybridScores sparse dense alpha gamma d now in
  Sorted (λ a b, blended_less b a = false) out ∧ NoDup (bc_objectID <$> out) ∧
  (∀ c, c ∈ out → finiteScore (bc_score c) = true ∧ (bc_objectID c ∈ objects_of sparse ∨ bc_objectID c ∈ objects_of dense)).
Proof.
  cbv zeta. unfold blendHybridScores. set (ns := clampUnitScores _). set (nd := boundDenseScores _ _). set (ca := buildCreatedAtLookup _).
  set (ids := elements _). set (l := omap (blend_one ns nd ca alpha gamma now) ids).
  assert (∀ c, c ∈ l → finiteScore (bc_score c) = true ∧ bc_objectID c ∈ ids) as Hl.
  { intros c (id & Hid & Hc)%list_elem_of_omap. apply blend_one_some in Hc as [-> ?]. done. }
  split_and!.
  - apply sort_slice_sorted, blended_less_weak. intros c Hc. by apply Hl.
  - rewrite sort_slice_perm. unfold l. pose proof (NoDup_elements (dom ns ∪ dom nd)) as Hnd. fold ids in Hnd.
    clearbody ids. clear l Hl. induction Hnd as [|id ids Hid Hnd IH]; [apply NoDup_nil_2|]. cbn [omap list_omap].
    destruct (blend_one ns nd ca alpha gamma now id) as [c|] eqn:E; [|done]. apply blend_one_some in E as [E _].
    rewrite fmap_cons. apply NoDup_cons. split; [|done]. intros (c' & Hc' & (id' & Hid' & E')%list_elem_of_omap)%list_elem_of_fmap.
    apply blend_one_some in E' as [E' _]. apply Hid. congruence.
  - intros c Hc. rewrite sort_slice_perm in Hc. destruct (Hl c Hc) as [? Hid]. split; [done|].
    unfold ids in Hid. apply elem_of_elements, elem_of_union in Hid as [Hid|Hid].
    + left. apply extractScores_dom. by apply (blend_candidates_dom _ "").
    + right. apply extractScores_dom. by apply (blend_candidates_dom _ d).
Qed.

Lemma Sorted_take {A} (R : A → A → Prop) n l : Sorted R l → Sorted R (take n l).
Proof.
  revert n. induction l as [|x l IH]; intros [|n] Hs; cbn; try done.
  apply Sorted_inv in Hs as [Hs Hd]. constructor; [by apply IH|]. destruct l as [|y l], n; cbn; try constructor. by inv Hd.
Qed.

Lemma rerankScored_spec `{GoMath, GoSort} points now gamma limit :
  let out := rerankScored points now gamma limit in
  Sorted (λ a b, rerank_less b a = false) out ∧ (length out <= limit)%nat ∧
  (∀ c, c ∈ out → finiteScore (si_finalScore c) = true ∧ si_objectID c ∈ objects_of points).
Proof.
  cbv zeta. unfold rerankScored. set (l := omap (rerank_one now gamma) points).
  assert (∀ c, c ∈ l → finiteScore (si_finalScore c) = true ∧ si_objectID c ∈ objects_of points) as Hl.
  { intros c (p & Hp & Hc)%list_elem_of_omap. unfold rerank_one in Hc. destruct (pl_object_id (sp_payload p)) as [id|] eqn:E; [|done].
    destruct (finiteScore (sp_score p)); cbn in Hc; [|done].
    match type of Hc with (if negb (finiteScore ?s) then _ else _) = _ => destruct (finiteScore s) eqn:Hf end; [|done].
    injection Hc as <-. split; [done|]. apply list_elem_of_omap. by exists p. }
  assert (Sorted (λ a b, rerank_less b a = false) (sort_slice rerank_less l)) as Hs.
  { apply sort_slice_sorted, rerank_less_weak. intros c Hc. by apply Hl. }
  set (r := if (limit <? length (sort_slice rerank_less l))%nat then _ else _).
  assert (r = take limit (sort_slice rerank_less l)) as ->.
  { unfold r. destruct (Nat.ltb_spec limit (length (sort_slice rerank_less l))); [done|]. by rewrite take_ge. }
  split_and!.
  - by apply Sorted_take.
  - rewrite length_take. lia.
  - intros c Hc. apply elem_of_take in Hc as (i & Hi & _). apply list_elem_of_lookup_2 in Hi.
    rewrite sort_slice_perm in Hi. by apply Hl.
Qed.

(** *** Cache keys *)

Lemma b64_no_colon s : str_all (λ c, negb (bool_decide (c = ":"%char))) (b64_encode s).
Proof. apply Is_true_true, b64_encode_all. vm_compute. reflexivity. Qed.

(** The cache separates requests: two requests have the same cache key only
    when subject, page size and offset agree and the keys' prefixes name the
    same incarnation, that is the namespaces, qualified by their generations,
    are spelled alike. *)
Theorem recCacheKey_injective ns1 ns2 g1 g2 s1 s2 l1 l2 o1 o2 k :
  recCacheKey ns1 g1 s1 l1 o1 = Some k → recCacheKey ns2 g2 s2 l2 o2 = Some k →
  qualify ":"%char ns1 g1 = qualify ":"%char ns2 g2 ∧ s1 = s2 ∧ l1 = l2 ∧ o1 = o2.
Proof.
  unfold recCacheKey, MustPhysicalName. rewrite !PhysicalName_cases.
  repeat case_decide; cbn [kind_store]; try (intros; simplify_eq; done).
  intros Hk1 Hk2. rewrite <- Hk2 in Hk1. clear Hk2. cbn [fmap option_fmap option_map] in Hk1.
  apply (inj Some) in Hk1 as Hk. clear Hk1.
  assert (∀ n s l o, ("rec:v3:" +:+ b64_encode n) +:+ ":" +:+ b64_encode s +:+ ":limit=" +:+ itoa l +:+ ":offset=" +:+ itoa o =
    "rec:v3:" +:+ (b64_encode n +:+ String ":"%char (b64_encode s +:+ String ":"%char ("limit=" +:+ (itoa l +:+ String ":"%char ("offset=" +:+ itoa o)))))) as Hshape.
  { intros. by rewrite <- !string_app_assoc. }
  rewrite !Hshape in Hk. apply string_app_inj_l in Hk.
  apply string_split_unique in Hk as [Hn Hk]; [|apply b64_no_colon..].
  apply string_split_unique in Hk as [Hs Hk]; [|apply b64_no_colon..]. apply string_app_inj_l in Hk.
  apply string_split_unique in Hk as [Hl Hk]; [|apply itoa_no_char; [lia|done]..]. apply string_app_inj_l in Hk.
  apply b64_encode_inj in Hn. apply b64_encode_inj in Hs. apply itoa_inj in Hl, Hk. split_and!; [congruence|congruence|lia|lia].
Qed.

(** A namespace that ends in a generation suffix shares a key with the later
    generation of another; the serving path rechecks the namespace of a hit. *)
Lemma recCacheKey_injective_witness :
  recCacheKey "a" 2 "u" 20 0 = recCacheKey "a:g2" 1 "u" 20 0 ∧
  qualify ":"%char "a" 2 = qualify ":"%char "a:g2" 1 ∧ "u" = "u" ∧ 20%nat = 20%nat ∧ 0%nat = 0%nat.
Proof.
  split; [vm_compute; reflexivity|].
  apply (recCacheKey_injective "a" "a:g2" 2 1 "u" "u" 20 20 0 0 "rec:v3:YTpnMg:dQ:limit=20:offset=0"); vm_compute; reflexivity.
Defined.
