(* ===== verification/Recommend.v ===== *)
(** * Serving recommendations

    [internal/recommend/service.go] with [repository.go], [store.go] and the
    trending reads of [internal/infra/redis/trending.go]: the recommendation
    ladder, ranking, trending, bring-your-own embeddings and object deletion.
    Qdrant's search and the popularity ranking of PostgreSQL are interfaces with
    their documented behaviour; every call to a store may fail. Metrics and logs
    are left out. The two backfill searches, which run concurrently and change
    nothing, are made one after the other. *)

From stdpp Require Import base tactics gmap sets strings list sorting.
From Stdlib Require Import ZArith SpecFloat Lia.
From S2P Require Import Prelude GoLib Float64 NsNames NsLedger NsService NamespaceConfig Scoring.

(** ** The stores *)

Record EventRow := {
  ev_namespace : string;
  ev_subject : string;
  ev_object : string;
  ev_weight : float64;
  ev_occurred : Z;
}.

Record ObjectMeta := {
  om_namespace : string;
  om_object : string;
  om_author : option string;
  om_created : Z;
}.

Definition SparseVector : Type := list Z * list float64.

Record Point := {
  pt_sparse : option SparseVector;
  pt_dense : option (list float64);
  pt_payload : Payload;
}.

Record TrendingEntry := {
  te_ObjectID : string;
  te_Score : float64;
}.

Record Response := {
  rs_SubjectID : string;
  rs_Namespace : string;
  rs_Items : list RecommendedItem;
  rs_Source : string;
  rs_Limit : nat;
  rs_Offset : nat;
  rs_Total : nat;
  rs_GeneratedAt : Z;
}.

(** A trending set is listed by descending score; a cached value is what
    [json.Unmarshal] makes of it. *)
Record Serving := {
  sv_configs : gmap string Config;
  sv_events : list EventRow;
  sv_objects : list ObjectMeta;
  sv_ids : gmap (string * string * string) Z;
  sv_next_id : Z;
  sv_collections : gmap string (gmap Z Point);
  sv_trending : gmap string (list TrendingEntry);
  sv_cache : gmap string (option Response);
}.

Abbreviation W := (World Serving).

Definition set_cache (c : gmap string (option Response)) (s : Serving) : Serving :=
  {| sv_configs := sv_configs s; sv_events := sv_events s; sv_objects := sv_objects s; sv_ids := sv_ids s;
     sv_next_id := sv_next_id s; sv_collections := sv_collections s; sv_trending := sv_trending s; sv_cache := c |}.
Definition set_objects (o : list ObjectMeta) (s : Serving) : Serving :=
  {| sv_configs := sv_configs s; sv_events := sv_events s; sv_objects := o; sv_ids := sv_ids s;
     sv_next_id := sv_next_id s; sv_collections := sv_collections s; sv_trending := sv_trending s; sv_cache := sv_cache s |}.
Definition set_collections (c : gmap string (gmap Z Point)) (s : Serving) : Serving :=
  {| sv_configs := sv_configs s; sv_events := sv_events s; sv_objects := sv_objects s; sv_ids := sv_ids s;
     sv_next_id := sv_next_id s; sv_collections := c; sv_trending := sv_trending s; sv_cache := sv_cache s |}.
Definition set_ids (m : gmap (string * string * string) Z) (n : Z) (s : Serving) : Serving :=
  {| sv_configs := sv_configs s; sv_events := sv_events s; sv_objects := sv_objects s; sv_ids := m;
     sv_next_id := n; sv_collections := sv_collections s; sv_trending := sv_trending s; sv_cache := sv_cache s |}.

Definition on_serving (f : Serving → Serving) : M W () := modify (λ w, set_ext (f (w_ext w)) w).

(** A call to a store: the driver fails, or the answer and the new state. *)
Definition ask {A} (f : Z → Serving → A + error) : M W (A + error) :=
  let! b := fault in
  if b then ret (inr [ErrDriver])
  else let! w := get in ret (f (w_now w) (w_ext w)).

(** Qdrant's filters as the package builds them; a nil filter admits all. *)
Record Filter := {
  f_must : option (gset Z);
  f_must_not : gset Z;
}.

Definition no_filter : Filter := {| f_must := None; f_must_not := ∅ |}.
Definition hasIDFilter (ids : list Z) : Filter := {| f_must := Some (list_to_set ids); f_must_not := ∅ |}.

Definition admits (f : Filter) (id : Z) : Prop :=
  match f_must f with Some ids => id ∈ ids | None => True end ∧ id ∉ f_must_not f.

(** A search returns stored points that pass the filter, each once, at most
    as many as asked for. *)
Record search_sound (coll : gmap Z Point) (f : Filter) (topK : nat) (out : list ScoredPoint) : Prop := {
  ss_stored : ∀ p, p ∈ out → ∃ pt, coll !! sp_id p = Some pt ∧ sp_payload p = pt_payload pt ∧ admits f (sp_id p);
  ss_distinct : NoDup (sp_id <$> out);
  ss_limit : (length out <= topK)%nat;
}.

Class VectorSearch := {
  search_sparse : gmap Z Point → SparseVector → Filter → nat → list ScoredPoint;
  search_dense : gmap Z Point → list float64 → Filter → nat → list ScoredPoint;
  search_sparse_sound : ∀ c q f k, search_sound c f k (search_sparse c q f k);
  search_dense_sound : ∀ c q f k, search_sound c f k (search_dense c q f k);
}.

Definition day_ns : Z := 24 * hour_ns.

(** The objects of a namespace by the weight they gathered in the last seven
    days, as a query with the given LIMIT ranks them; it returns the first LIMIT.
    The query orders by the sum alone, so two limits may break ties differently
    and the ranking is a parameter of each; that an object is listed once is the
    GROUP BY. *)
Class Popularity := {
  popular_ranking : nat → list EventRow → string → Z → list string;
  popular_distinct : ∀ limit evs ns now, NoDup (popular_ranking limit evs ns now);
}.

Section service.
Context `{GoMath, GoSort, VectorSearch, Popularity}.

(** ** Reads *)

Definition config_Get (ns : string) : M W (option Config + error) := ask (λ _ s, inl (sv_configs s !! ns)).

Definition CountInteractions (ns subject : string) : M W (nat + error) :=
  ask (λ _ s, inl (length (filter (λ e, ev_subject e = subject ∧ ev_namespace e = ns) (sv_events s)))).

(** Reading the rows may break off: the items so far come with the error. *)
Fixpoint read_rows (left acc : list string) : M W (list string * error) :=
  let! b := fault in
  if b then ret (acc, [ErrDriver])
  else match left with
       | [] => ret (acc, [])
       | x :: rest => read_rows rest (acc ++ [x])
       end.

Definition GetSeenItems (ns subject : string) (days : Z) : M W (list string * error) :=
  let! r := ask (λ now s, inl (remove_dups (ev_object <$>
      filter (λ e, ev_subject e = subject ∧ ev_namespace e = ns ∧ (now - days * day_ns < ev_occurred e)%Z) (sv_events s)))) in
  match r with
  | inr e => ret ([], e)
  | inl items => read_rows items []
  end.

Definition defaultAuthoredObjectsCap : nat := 5000.

Definition newer (a b : ObjectMeta) : Prop := (om_created b <= om_created a)%Z.
#[local] Instance newer_dec a b : Decision (newer a b).
Proof. unfold newer. apply _. Defined.

Definition authored_rows (objects : list ObjectMeta) (ns subject : string) : list ObjectMeta :=
  merge_sort newer (filter (λ o, om_namespace o = ns ∧ om_author o = Some subject) objects).

Definition GetAuthoredObjects (ns subject : string) : M W ((list string * bool) + error) :=
  ask (λ _ s,
    let items := om_object <$> take (defaultAuthoredObjectsCap + 1) (authored_rows (sv_objects s) ns subject) in
    if (defaultAuthoredObjectsCap <? length items)%nat then inl (take defaultAuthoredObjectsCap items, true)
    else inl (items, false)).

Definition GetPopularItems (ns : string) (limit : nat) : M W (list string + error) :=
  ask (λ now s, inl (take limit (popular_ranking limit (sv_events s) ns now))).

Definition Lookup (id ns et : string) : M W (option Z + error) := ask (λ _ s, inl (sv_ids s !! (ns, et, id))).
Definition LookupSubjectID (id ns : string) : M W (option Z + error) := Lookup id ns "subject".
Definition LookupObjectID (id ns : string) : M W (option Z + error) := Lookup id ns "object".

(** The known ids among those asked for; an empty request asks nothing. *)
Definition known_ids (s : Serving) (ids : list string) (ns : string) : list Z :=
  omap (λ id, sv_ids s !! (ns, "object", id)) (remove_dups ids).

Definition LookupObjectIDs (ids : list string) (ns : string) : M W (list Z + error) :=
  if bool_decide (ids = []) then ret (inl []) else ask (λ _ s, inl (known_ids s ids ns)).

Definition ErrCollection : string := "qdrant: collection not found".

Definition in_collection {A} (name : string) (f : gmap Z Point → A) : M W (A + error) :=
  ask (λ _ s, match sv_collections s !! name with Some c => inl (f c) | None => inr [ErrCollection] end).

Definition FetchSubjectVector (ns : string) (id : Z) : M W (option SparseVector + error) :=
  in_collection (ns +:+ "_subjects") (λ c, c !! id ≫= pt_sparse).

Definition FetchSubjectDenseVector (ns : string) (id : Z) : M W (option (list float64) + error) :=
  in_collection (ns +:+ "_subjects_dense") (λ c, c !! id ≫= pt_dense).

Definition SearchObjects (ns : string) (q : SparseVector) (f : Filter) (topK : nat) : M W (list ScoredPoint + error) :=
  in_collection (ns +:+ "_objects") (λ c, search_sparse c q f topK).

Definition SearchObjectsDense (ns : string) (q : list float64) (f : Filter) (topK : nat) : M W (list ScoredPoint + error) :=
  in_collection (ns +:+ "_objects_dense") (λ c, search_dense c q f topK).

Definition trendingKey (ns : string) (generation : Z) : option string :=
  Incarnation_MustPhysicalName (NewIncarnation ns generation) KindTrending.

(** [ZREVRANGE key offset offset+limit-1]; a missing key is an empty set. *)
Definition GetTrendingPage (ns : string) (generation : Z) (offset limit : nat) : M W (list TrendingEntry + error) :=
  if (limit <=? 0)%nat then ret (inl [])
  else match trendingKey ns generation with
       | None => ret (inr [ErrPanic])
       | Some key => ask (λ _ s, inl (take limit (drop offset (default [] (sv_trending s !! key)))))
       end.

(** ** Requests and outcomes *)

Record Request := {
  rq_SubjectID : string;
  rq_Namespace : string;
  rq_Limit : Z;
  rq_Offset : Z;
}.

Definition SourceCollaborativeFiltering : string := "collaborative_filtering".
Definition SourceFallbackPopular : string := "fallback_popular".
Definition SourceHybridCold : string := "hybrid_cold".
Definition SourceHybridRank : string := "hybrid_rank".
Definition SourceHybrid : string := "hybrid".
Definition SourceNoSubjectVector : string := "no_subject_vector".

Inductive scoreScale := scaleUnscored | scaleRawFreshness | scaleUnitBlend.

Record outcome := {
  oc_items : list RecommendedItem;
  oc_source : string;
  oc_total : nat;
  oc_scale : scoreScale;
  oc_degraded : bool;
}.

Definition with_degraded (d : bool) (o : outcome) : outcome :=
  {| oc_items := oc_items o; oc_source := oc_source o; oc_total := oc_total o; oc_scale := oc_scale o;
     oc_degraded := oc_degraded o || d |}.

Definition coldStartThreshold : nat := 5.
Definition cfOverFetchFactor : nat := 5.
Definition denseOverFetchFactor : nat := 3.
Definition defaultSeenItemsDays : Z := 30.

(** 0.02 *)
Definition defaultGamma : float64 := f64_div (f64_of_Z 2) (f64_of_Z 100).

Definition resolveGamma (cfg : Config) : float64 :=
  if f64_gtb (cfg_Gamma cfg) f64_zero then cfg_Gamma cfg else defaultGamma.

Definition hybridEligible (cfg : Config) : bool :=
  f64_gtb (cfg_Alpha cfg) f64_zero && f64_ltb (cfg_Alpha cfg) f64_one
  && negb (bool_decide (cfg_DenseSource cfg = "")) && negb (bool_decide (cfg_DenseSource cfg = DenseSourceDisabled)).

Definition seenItemsWindow (cfg : Config) : Z :=
  if (0 <? cfg_SeenItemsDays cfg)%Z then cfg_SeenItemsDays cfg else defaultSeenItemsDays.

Definition namespaceGeneration (cfg : Config) : Z := Generation (ConfigIncarnation "" (Some (cfg_Generation cfg))).

Definition qdrantPhysicalNamespace (ns : string) (cfg : Config) : string :=
  Incarnation_QdrantNamespace (ConfigIncarnation ns (Some (cfg_Generation cfg))).

(** ** Exclusion *)

(** Any failure degrades to no filtering. *)
Definition authoredObjectSet (ns subject : string) (cfg : Config) : M W (gset string) :=
  if negb (cfg_ExcludeAuthored cfg) then ret ∅
  else
    let! r := GetAuthoredObjects ns subject in
    match r with
    | inr _ => ret ∅
    | inl (authored, _) => ret (list_to_set authored)
    end.

Definition seenObjectSet (ns subject : string) (cfg : Config) : M W (gset string) :=
  let! ' (seenItems, err) := GetSeenItems ns subject (seenItemsWindow cfg) in
  if negb (nil_err err) then ret ∅ else ret (list_to_set seenItems).

(** The order of the authored part is that of a Go map. *)
Definition excludedObjectIDs (ns subject : string) (cfg : Config) (seenItems : list string) : M W (list string) :=
  let! authored := authoredObjectSet ns subject cfg in
  if bool_decide (authored = ∅) then ret seenItems
  else ret (remove_dups seenItems ++ filter (λ id, id ∉ seenItems) (elements authored)).

Definition buildSeenItemsFilter (ns : string) (excluded : list string) : M W Filter :=
  if bool_decide (excluded = []) then ret no_filter
  else
    let! r := LookupObjectIDs excluded ns in
    match r with
    | inr _ => ret no_filter
    | inl ids => ret {| f_must := None; f_must_not := list_to_set ids |}
    end.

(** ** The ladder *)

Definition fallbackPopular (ns subject : string) (offset limit : nat) (cfg : Config) (exclude : gset string) : M W (outcome + error) :=
  let! authored := authoredObjectSet ns subject cfg in
  let excluded := mergeExclusions authored exclude in
  let! r := GetPopularItems ns (offset + limit + size excluded) in
  match r with
  | inr e => ret (inr e)
  | inl rawItems =>
      let rawItems := dropAuthored rawItems excluded in
      let '(paged, start) := pageOf rawItems offset limit in
      ret (inl {| oc_items := ranked unscored paged start; oc_source := SourceFallbackPopular; oc_total := length rawItems;
                  oc_scale := scaleUnscored; oc_degraded := false |})
  end.

Definition descendPopular (ns subject : string) (offset limit : nat) (cfg : Config) (exclude : gset string) (degraded : bool)
    : M W (outcome + error) :=
  let! r := fallbackPopular ns subject offset limit cfg exclude in
  ret (match r with inr e => inr e | inl out => inl (with_degraded degraded out) end).

Definition trending_outcome (ids : list string) (offset : nat) : outcome :=
  {| oc_items := ranked unscored ids offset; oc_source := SourceFallbackPopular; oc_total := offset + length ids;
     oc_scale := scaleUnscored; oc_degraded := false |}.

Definition fallbackTrending (ns subject : string) (offset limit : nat) (cfg : Config) (exclude : gset string) : M W (outcome + error) :=
  let! authored := authoredObjectSet ns subject cfg in
  let excluded := mergeExclusions authored exclude in
  let some_excluded := negb (bool_decide (excluded = ∅)) in
  let fetchOffset := if some_excluded then 0%nat else offset in
  let fetchLimit := if some_excluded then (offset + limit + size excluded)%nat else limit in
  let generation := namespaceGeneration cfg in
  let! r := GetTrendingPage ns generation fetchOffset fetchLimit in
  match r with
  | inr _ => descendPopular ns subject offset limit cfg exclude true
  | inl entries =>
      let! hasTrending :=
        (if bool_decide (entries = []) && (0 <? fetchOffset)%nat then
           let! probe := GetTrendingPage ns generation 0 1 in
           ret (match probe with inl (_ :: _) => true | _ => false end)
         else ret (negb (bool_decide (entries = [])))) in
      if negb hasTrending then descendPopular ns subject offset limit cfg exclude false
      else if some_excluded then
        let kept := dropAuthored (te_ObjectID <$> entries) excluded in
        if bool_decide (kept = []) then descendPopular ns subject offset limit cfg exclude false
        else ret (inl (trending_outcome (pageOf kept offset limit).1 offset))
      else ret (inl (trending_outcome (te_ObjectID <$> entries) offset))
  end.

(** Score each arm's candidates on the other arm too. [None] is a failed backfill. *)
Definition backfill (ids : list Z) (search : Filter → nat → M W (list ScoredPoint + error)) : M W (option (list ScoredPoint)) :=
  if bool_decide (ids = []) then ret (Some [])
  else
    let! r := search (hasIDFilter ids) (length ids) in
    ret (match r with inl extra => Some (scoresOnly extra) | inr _ => None end).

Definition effective_alpha (sparseOK denseOK : bool) (alpha : float64) : float64 :=
  if sparseOK && denseOK then alpha else if denseOK then f64_zero else f64_one.

Definition blended_item (c : blendedCandidate) (rank : nat) : RecommendedItem :=
  {| ri_ObjectID := bc_objectID c; ri_Score := bc_score c; ri_Rank := rank; ri_Scored := true |}.

Definition hybridRecommend (ns subject : string) (offset limit : nat) (cfg : Config) (sparseVec : SparseVector)
    (denseVec : list float64) (seenFilter : Filter) : M W (outcome + error) :=
  let physical := qdrantPhysicalNamespace ns cfg in
  let! sparse := SearchObjects physical sparseVec seenFilter ((offset + limit) * cfOverFetchFactor) in
  let! dense := SearchObjectsDense physical denseVec seenFilter ((offset + limit) * denseOverFetchFactor) in
  let sparseOK := match sparse with inl _ => true | inr _ => false end in
  let denseOK := match dense with inl _ => true | inr _ => false end in
  let sparseResults := match sparse with inl l => l | inr _ => [] end in
  let denseResults := match dense with inl l => l | inr _ => [] end in
  let degraded := negb sparseOK || negb denseOK in
  if bool_decide (sparseResults = []) && bool_decide (denseResults = []) then
    if degraded then descendPopular ns subject offset limit cfg ∅ true
    else ret (inl {| oc_items := []; oc_source := SourceHybrid; oc_total := 0; oc_scale := scaleUnitBlend; oc_degraded := false |})
  else
    let sparseMissing := if sparseOK then pointIDsMissingFrom sparseResults denseResults else [] in
    let denseMissing := if denseOK then pointIDsMissingFrom denseResults sparseResults else [] in
    let! sparseExtra := backfill sparseMissing (SearchObjects physical sparseVec) in
    let! denseExtra := backfill denseMissing (SearchObjectsDense physical denseVec) in
    let degraded := degraded || bool_decide (sparseExtra = None) || bool_decide (denseExtra = None) in
    let! now := gets w_now in
    let candidates := blendHybridScores (sparseResults ++ default [] sparseExtra) (denseResults ++ default [] denseExtra)
                        (effective_alpha sparseOK denseOK (cfg_Alpha cfg)) (resolveGamma cfg) (cfg_DenseDistance cfg) now in
    let '(paged, start) := pageOf candidates offset limit in
    ret (inl {| oc_items := ranked blended_item paged start; oc_source := SourceHybrid; oc_total := length candidates;
                oc_scale := scaleUnitBlend; oc_degraded := degraded |}).

Definition sparse_cf (ns subject : string) (offset limit : nat) (cfg : Config) (subjectVec : SparseVector) (seenFilter : Filter)
    : M W (outcome + error) :=
  let! r := SearchObjects (qdrantPhysicalNamespace ns cfg) subjectVec seenFilter ((offset + limit) * cfOverFetchFactor) in
  match r with
  | inr _ => descendPopular ns subject offset limit cfg ∅ true
  | inl results =>
      let! now := gets w_now in
      let scored := rerankScored results now (resolveGamma cfg) (offset + limit) in
      ret (inl {| oc_items := pageItems scored offset limit; oc_source := SourceCollaborativeFiltering;
                  oc_total := length scored; oc_scale := scaleRawFreshness; oc_degraded := false |})
  end.

Definition collaborativeFiltering (ns subject : string) (offset limit : nat) (cfg : Config) : M W (outcome + error) :=
  let! r := LookupSubjectID subject ns in
  match r with
  | inr _ | inl None => descendPopular ns subject offset limit cfg ∅ true
  | inl (Some subjectNumID) =>
      let physical := qdrantPhysicalNamespace ns cfg in
      let! v := FetchSubjectVector physical subjectNumID in
      match v with
      | inr _ => descendPopular ns subject offset limit cfg ∅ true
      | inl None => descendPopular ns subject offset limit cfg ∅ false
      | inl (Some subjectVec) =>
          let! ' (seenItems, _) := GetSeenItems ns subject (seenItemsWindow cfg) in
          let! excluded := excludedObjectIDs ns subject cfg seenItems in
          let! seenFilter := buildSeenItemsFilter ns excluded in
          if hybridEligible cfg then
            let! d := FetchSubjectDenseVector physical subjectNumID in
            match d with
            | inl (Some denseVec) => hybridRecommend ns subject offset limit cfg subjectVec denseVec seenFilter
            | _ => sparse_cf ns subject offset limit cfg subjectVec seenFilter
            end
          else sparse_cf ns subject offset limit cfg subjectVec seenFilter
      end
  end.

(** 0.7 *)
Definition popularShare : float64 := f64_div (f64_of_Z 7) (f64_of_Z 10).

Definition repaged (o : outcome) (offset limit : nat) (source : string) (degraded : bool) : outcome :=
  {| oc_items := repageItems (oc_items o) offset limit; oc_source := source; oc_total := oc_total o; oc_scale := oc_scale o;
     oc_degraded := degraded |}.

Definition hybridCold (ns subject : string) (offset limit : nat) (cfg : Config) : M W (outcome + error) :=
  let overLimit := (offset + limit)%nat in
  let! seen := seenObjectSet ns subject cfg in
  let! cf := collaborativeFiltering ns subject 0 overLimit cfg in
  let! pop := fallbackTrending ns subject 0 overLimit cfg seen in
  match pop, cf with
  | inr popErr, inr cfErr => ret (inr popErr)
  | inr _, inl cfOut => ret (inl (repaged cfOut offset limit SourceHybridCold true))
  | inl popOut, inr _ => ret (inl (repaged popOut offset limit (oc_source popOut) true))
  | inl popOut, inl cfOut =>
      let degraded := oc_degraded cfOut || oc_degraded popOut in
      if bool_decide (oc_items cfOut = []) then ret (inl (repaged popOut offset limit (oc_source popOut) degraded))
      else
        let blended := blendItems (itemIDs (oc_items popOut)) (itemIDs (oc_items cfOut)) popularShare overLimit in
        let '(paged, start) := pageOf blended offset limit in
        ret (inl {| oc_items := ranked unscored paged start; oc_source := SourceHybridCold; oc_total := length blended;
                    oc_scale := scaleUnscored; oc_degraded := degraded |})
  end.

Definition doRecommend (ns subject : string) (offset limit : nat) (cfg : Config) : M W (outcome + error) :=
  let! c := CountInteractions ns subject in
  let degraded := match c with inl _ => false | inr _ => true end in
  let count := match c with inl n => n | inr _ => 0%nat end in
  let! out :=
    (if (count =? 0)%nat then fallbackTrending ns subject offset limit cfg ∅
     else if (count <? coldStartThreshold)%nat then hybridCold ns subject offset limit cfg
     else
       let! out := collaborativeFiltering ns subject offset limit cfg in
       match out with
       | inl o =>
           if (oc_total o =? 0)%nat
              && (bool_decide (oc_source o = SourceCollaborativeFiltering) || bool_decide (oc_source o = SourceHybrid)) then
             let! seen := seenObjectSet ns subject cfg in
             fallbackTrending ns subject offset limit cfg seen
           else ret (inl o)
       | inr e => ret (inr e)
       end) in
  ret (match out with inl o => inl (with_degraded degraded o) | inr e => inr e end).

Definition ErrRecNamespaceNotFound : string := "recommend.ErrNamespaceNotFound".
Definition ErrNamespaceConfigUnavailable : string := "recommend.ErrNamespaceConfigUnavailable".
Definition ErrCatalogActive : string := "recommend.ErrCatalogActive".
Definition ErrInvalidEmbedding : string := "recommend.ErrInvalidEmbedding".
Definition ErrInvalidObjectCreatedAt : string := "recommend.ErrInvalidObjectCreatedAt".
Definition ErrDimensionMismatch : string := "embedding dimension mismatch".

Definition cache_Get (key : string) : M W (option (option Response)) :=
  let! r := ask (λ _ s, inl (sv_cache s !! key)) in
  ret (match r with inl v => v | inr _ => None end).

(** Best effort. *)
Definition cache_Set (key : string) (resp : Response) : M W () :=
  let! b := fault in
  if b then ret tt else on_serving (λ s, set_cache (<[key := Some resp]> (sv_cache s)) s).

Definition Recommend (req : Request) : M W (option Response * error) :=
  let limit := if (rq_Limit req <=? 0)%Z then 20%Z else rq_Limit req in
  let offset := if (rq_Offset req <? 0)%Z then 0%Z else rq_Offset req in
  let ns := rq_Namespace req in
  let subject := rq_SubjectID req in
  let! c := config_Get ns in
  match c with
  | inr _ => ret (None, [ErrNamespaceConfigUnavailable])
  | inl None => ret (None, [ErrRecNamespaceNotFound])
  | inl (Some cfg) =>
      let maxResults := if (0 <? cfg_MaxResults cfg)%Z && (cfg_MaxResults cfg <? limit)%Z then cfg_MaxResults cfg else limit in
      let limit := Z.to_nat maxResults in
      let offset := Z.to_nat offset in
      match recCacheKey ns (namespaceGeneration cfg) subject limit offset with
      | None => ret (None, [ErrPanic])
      | Some cacheKey =>
          let! cached := cache_Get cacheKey in
          let hit := match cached with
                     | Some (Some resp) =>
                         if bool_decide (rs_Namespace resp = ns) && bool_decide (rs_SubjectID resp = subject) then Some resp else None
                     | _ => None
                     end in
          match hit with
          | Some resp => ret (Some resp, [])
          | None =>
              let! r := doRecommend ns subject offset limit cfg in
              match r with
              | inr e => ret (None, e)
              | inl out =>
                  let! now := gets w_now in
                  let resp := {| rs_SubjectID := subject; rs_Namespace := ns; rs_Items := oc_items out; rs_Source := oc_source out;
                                 rs_Limit := limit; rs_Offset := offset; rs_Total := oc_total out; rs_GeneratedAt := now |} in
                  (if oc_degraded out then ret tt else cache_Set cacheKey resp) ;;!
                  ret (Some resp, [])
              end
          end
      end
  end.

(** ** Trending *)

Record TrendingResponse := {
  tr_Namespace : string;
  tr_Items : list TrendingEntry;
  tr_WindowHours : Z;
  tr_Limit : nat;
  tr_Offset : nat;
  tr_Total : nat;
  tr_GeneratedAt : Z;
}.

Definition GetTrending (ns : string) (limit offset : Z) : M W (option TrendingResponse * error) :=
  let limit := Z.to_nat (if (limit <=? 0)%Z then 50%Z else limit) in
  let offset := Z.to_nat (if (offset <? 0)%Z then 0%Z else offset) in
  let! c := config_Get ns in
  match c with
  | inr _ => ret (None, [ErrNamespaceConfigUnavailable])
  | inl None => ret (None, [ErrRecNamespaceNotFound])
  | inl (Some cfg) =>
      let actualWindow := if (0 <? cfg_TrendingWindow cfg)%Z then cfg_TrendingWindow cfg else 24%Z in
      let! r := GetTrendingPage ns (namespaceGeneration cfg) offset limit in
      let items := match r with inl entries => entries | inr _ => [] end in
      let! now := gets w_now in
      ret (Some {| tr_Namespace := ns; tr_Items := items; tr_WindowHours := actualWindow; tr_Limit := limit;
                   tr_Offset := offset; tr_Total := length items; tr_GeneratedAt := now |}, [])
  end.

(** ** Ranking *)

Record RankResponse := {
  rr_SubjectID : string;
  rr_Namespace : string;
  rr_Items : list RecommendedItem;
  rr_Source : string;
  rr_Total : nat;
  rr_GeneratedAt : Z;
}.

Definition rank_response (subject ns : string) (items : list RecommendedItem) (source : string) : M W (option RankResponse * error) :=
  let! now := gets w_now in
  ret (Some {| rr_SubjectID := subject; rr_Namespace := ns; rr_Items := items; rr_Source := source;
               rr_Total := length items; rr_GeneratedAt := now |}, []).

Definition rankFallback (subject ns : string) (candidates : list string) : M W (option RankResponse * error) :=
  rank_response subject ns (ranked unscored candidates 0) SourceNoSubjectVector.

(** The candidates that did not score, each once, in request order. *)
Fixpoint trail (candidates : list string) (present : gset string) : list string :=
  match candidates with
  | [] => []
  | c :: rest => if decide (c ∈ present) then trail rest present else c :: trail rest ({[c]} ∪ present)
  end.

Definition rank_items (candidates : list blendedCandidate) (requested : list string) : list RecommendedItem :=
  ranked blended_item candidates 0
    ++ ranked unscored (trail requested (list_to_set (bc_objectID <$> candidates))) (length candidates).

(** The searches and the blend, once the candidate ids are known. *)
Definition rank_scored (subject ns : string) (candidates : list string) (cfg : Config)
    (sparseVec : option SparseVector) (denseVec : option (list float64)) (ids : list Z) : M W (option RankResponse * error) :=
  let physical := qdrantPhysicalNamespace ns cfg in
  let! ' (seenItems, _) := GetSeenItems ns subject (seenItemsWindow cfg) in
  let! excluded := excludedObjectIDs ns subject cfg seenItems in
  let! exclusion := buildSeenItemsFilter ns excluded in
  let filter := {| f_must := Some (list_to_set ids); f_must_not := f_must_not exclusion |} in
  let! sparse := (match sparseVec with
                  | Some q => let! r := SearchObjects physical q filter (length ids) in
                              ret (match r with inl l => Some l | inr _ => None end)
                  | None => ret None
                  end) in
  let! dense := (match denseVec with
                 | Some q => let! r := SearchObjectsDense physical q filter (length ids) in
                             ret (match r with inl l => Some l | inr _ => None end)
                 | None => ret None
                 end) in
  match sparse, dense with
  | None, None => rankFallback subject ns candidates
  | _, _ =>
      let sparseOK := negb (bool_decide (sparse = None)) in
      let denseOK := negb (bool_decide (dense = None)) in
      let! now := gets w_now in
      let scored := blendHybridScores (default [] sparse) (default [] dense)
                      (effective_alpha sparseOK denseOK (cfg_Alpha cfg)) (resolveGamma cfg) (cfg_DenseDistance cfg) now in
      rank_response subject ns (rank_items scored candidates) SourceHybridRank
  end.

Definition Rank (subject : string) (candidates : list string) (ns : string) : M W (option RankResponse * error) :=
  let! c := config_Get ns in
  match c with
  | inr _ => ret (None, [ErrNamespaceConfigUnavailable])
  | inl None => ret (None, [ErrRecNamespaceNotFound])
  | inl (Some cfg) =>
      if bool_decide (candidates = []) then rank_response subject ns [] SourceHybridRank
      else
        let! r := LookupSubjectID subject ns in
        match r with
        | inr _ | inl None => rankFallback subject ns candidates
        | inl (Some subjectNumID) =>
            let physical := qdrantPhysicalNamespace ns cfg in
            let! v := FetchSubjectVector physical subjectNumID in
            let sparseVec := match v with inl q => q | inr _ => None end in
            let! denseVec := (if hybridEligible cfg then
                                let! d := FetchSubjectDenseVector physical subjectNumID in
                                ret (match d with inl q => q | inr _ => None end)
                              else ret None) in
            match sparseVec, denseVec with
            | None, None => rankFallback subject ns candidates
            | _, _ =>
                let! k := LookupObjectIDs candidates ns in
                match k with
                | inr _ | inl [] => rankFallback subject ns candidates
                | inl ids => rank_scored subject ns candidates cfg sparseVec denseVec ids
                end
            end
        end
  end.

(** ** Writes *)

Record RecService := {
  rec_lifecycle : option Service;
  rec_objectMeta : bool;
}.

(** [objects.Service.Delete], on the rows this package reads. *)
Definition objectMeta_Delete (ns objectID : string) : M W error :=
  let! b := fault in
  if b then ret [ErrDriver]
  else on_serving (λ s, set_objects (filter (λ o, ¬ (om_namespace o = ns ∧ om_object o = objectID)) (sv_objects s)) s) ;;! ret [].

(** A missing collection is a successful no-op. *)
Definition DeleteFromCollection (name : string) (id : Z) : M W error :=
  let! b := fault in
  if b then ret [ErrDriver]
  else on_serving (λ s, match sv_collections s !! name with
                        | Some c => set_collections (<[name := delete id c]> (sv_collections s)) s
                        | None => s
                        end) ;;! ret [].

(** [CollectionName] panics for an unnamed namespace. *)
Definition CollectionName (inc : Incarnation) (kind : PhysicalKind) (k : string → M W error) : M W error :=
  match Incarnation_MustPhysicalName inc kind with
  | Some name => k name
  | None => ret [ErrPanic]
  end.

Definition deleteObjectActive (s : RecService) (ns objectID : string) (inc : Incarnation) : M W error :=
  let! r := LookupObjectID objectID ns in
  let! cleanupErr :=
    (match r with
     | inr e => ret e
     | inl None => ret []
     | inl (Some numID) =>
         let! e1 := CollectionName inc KindObjects (λ c, DeleteFromCollection c numID) in
         let! e2 := CollectionName inc KindObjectsDense (λ c, DeleteFromCollection c numID) in
         ret (errors_join e1 e2)
     end) in
  if rec_objectMeta s then
    let! e := objectMeta_Delete ns objectID in ret (errors_join cleanupErr e)
  else ret cleanupErr.

Definition in_section (s : RecService) (ctx : Ctx) (ns : string) (m : Ctx → option NamespaceLifecycle → M W error) : M W error :=
  match rec_lifecycle s with
  | Some svc =>
      let! r := WithWriter () svc ctx ns (λ leased l, let! e := m leased (Some l) in ret ((), e)) in ret r.2
  | None => m ctx None
  end.

Definition DeleteObject (s : RecService) (ctx : Ctx) (ns objectID : string) : M W error :=
  in_section s ctx ns (λ _ l,
    deleteObjectActive s ns objectID (NewIncarnation ns (match l with Some l => nl_generation l | None => 1%Z end))).

Definition maxObjectCreatedAtSkew : Z := 5 * 60 * 1000000000.

(** [idmap.Repository.GetOrCreate]: an existing id, or a fresh one; both need the
    lease. *)
Definition GetOrCreateID (ctx : Ctx) (et id ns : string) : M W (Z + error) :=
  let e := RequireNamespaceLease ctx ns in
  if negb (nil_err e) then ret (inr e)
  else
    let! r := Lookup id ns et in
    match r with
    | inr e => ret (inr e)
    | inl (Some n) => ret (inl n)
    | inl None =>
        let! b := fault in
        if b then ret (inr [ErrDriver])
        else
          let! s := gets w_ext in
          on_serving (λ s, set_ids (<[(ns, et, id) := sv_next_id s]> (sv_ids s)) (sv_next_id s + 1) s) ;;!
          ret (inl (sv_next_id s))
    end.

Definition ensure_collection (name : string) : M W error :=
  let! r := ask (λ _ s, inl (bool_decide (is_Some (sv_collections s !! name)))) in
  match r with
  | inr e => ret e
  | inl true => ret []
  | inl false =>
      let! b := fault in
      if b then ret [ErrDriver]
      else on_serving (λ s, set_collections (<[name := ∅]> (sv_collections s)) s) ;;! ret []
  end.

Definition EnsureDenseCollections (inc : Incarnation) : M W error :=
  CollectionName inc KindObjectsDense (λ o,
    let! e := ensure_collection o in
    if negb (nil_err e) then ret e
    else CollectionName inc KindSubjectsDense ensure_collection).

(** An upsert into a collection that is gone fails. *)
Definition UpsertDensePoint (name : string) (id : Z) (vector : list float64) (payload : Payload) : M W error :=
  let! b := fault in
  if b then ret [ErrDriver]
  else
    let! s := gets w_ext in
    match sv_collections s !! name with
    | None => ret [ErrCollection]
    | Some c =>
        on_serving (λ s, set_collections (<[name := <[id := {| pt_sparse := None; pt_dense := Some vector;
                                                             pt_payload := payload |}]> c]> (sv_collections s)) s) ;;! ret []
    end.

Definition second_ns : Z := 1000000000.

(** A formatted time keeps whole seconds. *)
Definition byoe_payload (entityType entityID : string) (now : Z) (createdAt : option Z) : Payload :=
  {| pl_object_id := if bool_decide (entityType = "object") then Some entityID else None;
     pl_subject_id := if bool_decide (entityType = "subject") then Some entityID else None;
     pl_strategy := Some "byoe"; pl_updated_at := Some (now - now mod second_ns)%Z;
     pl_created_at := (λ t, Some (t - t mod second_ns)%Z) <$> createdAt |}.

Definition storeEmbeddingActive (ctx : Ctx) (ns entityID entityType : string) (vector : list float64) (createdAt : option Z)
    : M W error :=
  let! c := config_Get ns in
  match c with
  | inr _ => ret [ErrNamespaceConfigUnavailable]
  | inl None => ret [ErrRecNamespaceNotFound]
  | inl (Some cfg) =>
      if bool_decide (cfg_DenseSource cfg = DenseSourceCatalog) && bool_decide (entityType = "object") then ret [ErrCatalogActive]
      else if (0 <? cfg_EmbeddingDim cfg)%Z && negb (Z.of_nat (length vector) =? cfg_EmbeddingDim cfg)%Z then ret [ErrDimensionMismatch]
      else
        let inc := match LeaseIncarnation ctx ns with
                   | (inc, true) => inc
                   | (_, false) => ConfigIncarnation ns (Some (cfg_Generation cfg))
                   end in
        let! e := EnsureDenseCollections inc in
        if negb (nil_err e) then ret e
        else
          CollectionName inc (if bool_decide (entityType = "object") then KindObjectsDense else KindSubjectsDense) (λ collection,
            let! n := GetOrCreateID ctx entityType entityID ns in
            match n with
            | inr e => ret e
            | inl numID =>
                let! now := gets w_now in
                UpsertDensePoint collection numID vector (byoe_payload entityType entityID now createdAt)
            end)
  end.

Definition storeEmbedding (s : RecService) (ctx : Ctx) (ns entityID entityType : string) (vector : list float64)
    (createdAt : option Z) : M W error :=
  if negb (forallb finiteScore vector) then ret [ErrInvalidEmbedding]
  else
    let! now := gets w_now in
    if match createdAt with Some t => (now + maxObjectCreatedAtSkew <? t)%Z | None => false end then ret [ErrInvalidObjectCreatedAt]
    else in_section s ctx ns (λ leased _, storeEmbeddingActive leased ns entityID entityType vector createdAt).

Definition StoreObjectEmbedding (s : RecService) (ctx : Ctx) (ns objectID : string) (vector : list float64) (createdAt : option Z) : M W error :=
  storeEmbedding s ctx ns objectID "object" vector createdAt.

Definition StoreSubjectEmbedding (s : RecService) (ctx : Ctx) (ns subjectID : string) (vector : list float64) : M W error :=
  storeEmbedding s ctx ns subjectID "subject" vector None.
End service.
