(* ===== verification/ServingSamples.v ===== *)
(** * Concrete serving collaborators

    Instances of the interfaces of [Scoring] and [Recommend]: an insertion
    sort, a search that lists the admitted points, a popularity ranking and a
    constant exponential. They show that the interfaces' laws can hold and let
    the examples be evaluated. *)

From stdpp Require Import base tactics gmap sets strings list sorting.
From Stdlib Require Import ZArith SpecFloat Lia.
From S2P Require Import Prelude GoLib Float64 Scoring Recommend.

Definition sample_math : GoMath := {| Exp := λ _, f64_one |}.

(** ** An insertion sort *)

Section sort.
Context {A : Type} (less : A → A → bool).

Fixpoint sort_insert (x : A) (l : list A) : list A :=
  match l with
  | [] => [x]
  | y :: rest => if less y x then y :: sort_insert x rest else x :: y :: rest
  end.

Definition insertion_sort (l : list A) : list A := foldr sort_insert [] l.

Lemma sort_insert_perm x l : sort_insert x l ≡ₚ x :: l.
Proof. induction l as [|y l IH]; cbn; [done|]. destruct (less y x); [|done]. rewrite IH. apply Permutation_swap. Qed.

Lemma insertion_sort_perm l : insertion_sort l ≡ₚ l.
Proof. induction l as [|x l IH]; cbn; [done|]. by rewrite sort_insert_perm, IH. Qed.

Lemma sort_insert_sorted x l :
  (∀ a b, a ∈ x :: l → b ∈ x :: l → less a b = true → less b a = false) →
  Sorted (λ a b, less b a = false) l → Sorted (λ a b, less b a = false) (sort_insert x l).
Proof.
  intros Has Hs. induction l as [|y l IH]; cbn; [by repeat constructor|]. destruct (less y x) eqn:E; [|by constructor; [|constructor]].
  apply Sorted_inv in Hs as [Hs Hd]. specialize (Has y x ltac:(set_solver) ltac:(set_solver) E) as Hyx.
  constructor; [apply IH; [|done]; intros a b Ha Hb; apply Has; set_solver|].
  destruct l as [|z l]; cbn; [by constructor|]. destruct (less z x); constructor; [|done]. by inv Hd.
Qed.

Lemma insertion_sort_sorted l : weak_order less l → Sorted (λ a b, less b a = false) (insertion_sort l).
Proof.
  intros [Has _]. induction l as [|x l IH]; cbn; [constructor|]. apply sort_insert_sorted.
  - intros a b Ha Hb. apply Has; revert Ha Hb; rewrite !elem_of_cons, insertion_sort_perm; tauto.
  - apply IH. intros a b Ha Hb. apply Has; set_solver.
Qed.
End sort.

Definition sample_sort : GoSort :=
  {| sort_slice := @insertion_sort; sort_slice_perm := @insertion_sort_perm; sort_slice_sorted := @insertion_sort_sorted |}.

(** ** A search that lists the admitted points *)

#[local] Instance admits_dec f id : Decision (admits f id).
Proof. unfold admits. destruct (f_must f); apply _. Defined.

Definition list_points (coll : gmap Z Point) (f : Filter) (topK : nat) : list ScoredPoint :=
  take topK ((λ kv, {| sp_id := kv.1; sp_score := f64_one; sp_payload := pt_payload kv.2 |})
               <$> filter (λ kv, admits f kv.1) (map_to_list coll)).

Lemma list_points_sound coll f topK : search_sound coll f topK (list_points coll f topK).
Proof.
  unfold list_points. split.
  - intros p Hp. assert (∃ kv : Z * Point, p = {| sp_id := kv.1; sp_score := f64_one; sp_payload := pt_payload kv.2 |}
      ∧ kv ∈ filter (λ kv, admits f kv.1) (map_to_list coll)) as ([id pt] & -> & Hin).
    { apply list_elem_of_fmap. by eapply elem_of_sublist, sublist_take. }
    apply list_elem_of_filter in Hin as [Ha Hin%elem_of_map_to_list]. by exists pt.
  - rewrite fmap_take. eapply sublist_NoDup; [|apply sublist_take]. rewrite <- list_fmap_compose.
    eapply (sublist_NoDup _ (map_to_list coll).*1); [apply NoDup_fst_map_to_list|].
    change (sublist ((filter (λ kv : Z * Point, admits f kv.1) (map_to_list coll)).*1) (map_to_list coll).*1).
    apply fmap_sublist, sublist_filter.
  - rewrite length_take. lia.
Qed.

Definition sample_search : VectorSearch :=
  {| search_sparse := λ c _ f k, list_points c f k; search_dense := λ c _ f k, list_points c f k;
     search_sparse_sound := λ c _ f k, list_points_sound c f k; search_dense_sound := λ c _ f k, list_points_sound c f k |}.

(** ** The objects with recent events, in event order *)

Definition recent_objects (evs : list EventRow) (ns : string) (now : Z) : list string :=
  remove_dups (ev_object <$> filter (λ e, ev_namespace e = ns ∧ (now - 7 * day_ns < ev_occurred e)%Z) evs).

Definition sample_popularity : Popularity :=
  {| popular_ranking := λ _, recent_objects; popular_distinct := λ _ evs ns now, NoDup_remove_dups _ |}.
