(* ===== verification/RecommendFacts.v ===== *)
(** * Properties of serving

    What [Recommend], [Rank] and the fallbacks return: well-formed pages, exact
    pages of the fallback lists, exclusion of authored and seen objects, the
    cache discipline, and that ranking loses no candidate. *)

From stdpp Require Import base tactics gmap sets strings list sorting.
From Stdlib Require Import ZArith SpecFloat Lia.
From S2P Require Import Prelude GoLib Float64 NsNames NsLedger NsService NamespaceConfig Scoring Recommend ServingSamples.

(** ** Reading programs

    [yields c m s now Q]: run on the stores [s] at [now], [m] changes nothing
    and its result satisfies [Q]; with [c] set, provided no call fails. *)

Definition yields {A} (c : bool) (m : M W A) (s : Serving) (now : Z) (Q : A → Prop) : Prop :=
  ∀ w, w_ext w = s → w_now w = now → (c = true → w_faults w = []) →
  same_but_faults w (m w).2 ∧ (c = true → w_faults (m w).2 = []) ∧ Q (m w).1.

Section yields.
Context (c : bool) (s : Serving) (now : Z).

Lemma yields_ret {A} (a : A) (Q : A → Prop) : Q a → yields c (ret a) s now Q.
Proof. intros HQ w _ _ Hf. done. Qed.

Lemma yields_bind {A B} (m : M W A) (k : A → M W B) (R : A → Prop) (Q : B → Prop) :
  yields c m s now R → (∀ a, R a → yields c (k a) s now Q) → yields c (bind m k) s now Q.
Proof.
  intros Hm Hk w Hx Hn Hf. destruct (Hm w Hx Hn Hf) as (Hs & Hf' & Ha). unfold bind. destruct (m w) as [a w1]. cbn [fst snd] in *.
  destruct (Hk a Ha w1) as (Hs2 & Hf2 & Hq); [by rewrite (sbf_ext _ _ Hs)|by rewrite (sbf_now _ _ Hs)|done|].
  split; [by etransitivity|done].
Qed.

Lemma yields_mono {A} (m : M W A) (R Q : A → Prop) : yields c m s now R → (∀ a, R a → Q a) → yields c m s now Q.
Proof. intros Hm HRQ w Hx Hn Hf. destruct (Hm w Hx Hn Hf) as (? & ? & ?). auto. Qed.

Lemma yields_now (Q : Z → Prop) : Q now → yields c (gets w_now) s now Q.
Proof. intros HQ w _ <- Hf. done. Qed.

Lemma yields_fault (Q : bool → Prop) : (c = false → Q true) → Q false → yields c fault s now Q.
Proof.
  intros Ht Hq w Hx Hn Hf. split; [apply fault_frame|]. destruct c.
  - rewrite fault_nil by auto. split; [|done]. intros _. by apply Hf.
  - split; [done|]. destruct (fault w).1; auto.
Qed.

Lemma yields_ask {A} (f : Z → Serving → A + error) (Q : A + error → Prop) :
  (c = false → Q (inr [ErrDriver])) → Q (f now s) → yields c (ask f) s now Q.
Proof.
  intros Hd Hq. unfold ask. eapply (yields_bind _ _ (λ b, c = true → b = false)); [apply yields_fault; [by intros ->|done]|].
  intros [] Hb; [apply yields_ret; apply Hd; by destruct c; [specialize (Hb eq_refl)|]|].
  intros w Hx Hn Hf. unfold bind, get. go. by rewrite Hx, Hn.
Qed.
End yields.

Lemma ask_cases {A} (f : Z → Serving → A + error) (w : W) :
  ∃ w', same_but_faults w w' ∧ (ask f w = (inr [ErrDriver], w') ∧ w_faults w ≠ [] ∨ ask f w = (f (w_now w) (w_ext w), w')).
Proof.
  unfold ask, bind. pose proof (fault_frame w) as Hs. destruct (decide (w_faults w = [])) as [Hf|Hf].
  - rewrite fault_nil by done. go. exists w. split; [done|]. by right.
  - destruct (fault w) as [[] w1]; cbn [snd] in Hs; go; exists w1; (split; [done|]); [by left|right].
    unfold get. go. by rewrite (sbf_ext _ _ Hs), (sbf_now _ _ Hs).
Qed.

(** One step of a reading program whose intermediate results do not matter. *)
Ltac ystep :=
  lazymatch goal with
  | |- yields _ (bind _ _) _ _ _ => eapply (yields_bind _ _ _ _ _ (λ _, True)); [|intros ? _]
  | |- yields _ (ret _) _ _ _ => apply yields_ret
  | |- yields _ (ask _) _ _ _ => apply yields_ask
  | |- yields _ (gets w_now) _ _ _ => apply yields_now
  | |- yields _ fault _ _ _ => apply yields_fault
  | |- yields _ (match ?x with _ => _ end) _ _ _ => destruct x
  end.

Section facts.
Context `{GoMath, GoSort, VectorSearch, Popularity}.

(** ** Well-formed pages *)

(** At most [limit] items with consecutive ranks from [offset + 1]; a score is
    reported exactly for scored items, and is finite. *)
Record page_ok (offset limit : nat) (items : list RecommendedItem) : Prop := {
  pk_ranks : ranks_from offset items;
  pk_limit : (length items <= limit)%nat;
  pk_unscored : ∀ it, it ∈ items → ri_Scored it = false → ri_Score it = f64_zero;
  pk_scored : ∀ it, it ∈ items → ri_Scored it = true → finiteScore (ri_Score it) = true;
}.

Definition outcome_ok (offset limit : nat) (r : outcome + error) : Prop :=
  match r with inl o => page_ok offset limit (oc_items o) | inr e => e ≠ [] end.

Lemma ranked_elem {A} (mk : A → nat → RecommendedItem) page start it :
  it ∈ ranked mk page start → ∃ x n, x ∈ page ∧ it = mk x n.
Proof.
  intros Hin. apply list_elem_of_lookup_1 in Hin as (i & Hi). unfold ranked in Hi. rewrite list_lookup_imap in Hi.
  destruct (page !! i) as [x|] eqn:E; [|done]. injection Hi as <-. exists x, (start + i + 1)%nat.
  split; [by eapply list_elem_of_lookup_2|done].
Qed.

(** A page of well-scored items is well formed. *)
Lemma page_ok_paged {A} (mk : A → nat → RecommendedItem) s offset limit :
  (∀ x n, ri_Rank (mk x n) = n) →
  (∀ x n, x ∈ s → if ri_Scored (mk x n) then finiteScore (ri_Score (mk x n)) = true else ri_Score (mk x n) = f64_zero) →
  let '(paged, start) := pageOf s offset limit in page_ok offset limit (ranked mk paged start).
Proof.
  intros Hr Hs. pose proof (page_ranked mk s offset limit Hr) as Hp. pose proof (pageOf_page s offset limit) as Hpg.
  destruct (pageOf s offset limit) as [paged start]. cbn [fst] in Hpg. destruct Hp as [H1' H2'].
  assert (∀ it, it ∈ ranked mk paged start → if ri_Scored it then finiteScore (ri_Score it) = true else ri_Score it = f64_zero) as Hit.
  { intros it Hin. apply ranked_elem in Hin as (x & k & Hx & ->). apply Hs. subst paged.
    eapply elem_of_sublist; [exact Hx|]. etransitivity; [apply sublist_take|apply sublist_drop]. }
  split; [done|done| |]; intros it Hin Hsc; specialize (Hit it Hin); by rewrite Hsc in Hit.
Qed.

Lemma page_ok_unscored ids offset limit :
  let '(paged, start) := pageOf ids offset limit in page_ok offset limit (ranked unscored paged start).
Proof. by apply page_ok_paged. Qed.

Lemma page_ok_pageItems scored offset limit :
  (∀ c, c ∈ scored → finiteScore (si_finalScore c) = true) → page_ok offset limit (pageItems scored offset limit).
Proof.
  intros Hs. unfold pageItems.
  match goal with |- context [ranked ?mk] => pose proof (page_ok_paged mk scored offset limit (λ _ _, eq_refl)) as Hp end.
  destruct (pageOf scored offset limit). apply Hp. intros x k Hx. by apply Hs.
Qed.

Lemma page_ok_repage items offset limit o l : page_ok o l items → page_ok offset limit (repageItems items offset limit).
Proof.
  intros [_ _ Hu Hs]. unfold repageItems.
  match goal with |- context [ranked ?mk] => pose proof (page_ok_paged mk items offset limit (λ _ _, eq_refl)) as Hp end.
  destruct (pageOf items offset limit). apply Hp. intros x k Hx. cbn. destruct (ri_Scored x) eqn:E; auto.
Qed.

(** A prefix-free page whose ids were already cut to the limit. *)
Lemma page_ok_trending ids offset limit :
  (length ids <= limit)%nat → page_ok offset limit (ranked unscored ids offset).
Proof.
  intros Hl. split.
  - by apply ranked_ranks.
  - unfold ranked. by rewrite length_imap.
  - by intros it Hin; apply ranked_elem in Hin as (x & k & _ & ->).
  - by intros it Hin; apply ranked_elem in Hin as (x & k & _ & ->).
Qed.

Section any.
Context (c : bool) (s : Serving) (now : Z).

(** Every read of the package only reads. *)
Lemma ask_any {A} (f : Z → Serving → A + error) : yields c (ask f) s now (λ _, True).
Proof. by apply yields_ask. Qed.

Lemma read_rows_any left acc : yields c (read_rows left acc) s now (λ _, True).
Proof. revert acc. induction left as [|x left IH]; intros acc; cbn; repeat ystep; try done; apply IH. Qed.

Lemma GetSeenItems_any ns subject days : yields c (GetSeenItems ns subject days) s now (λ _, True).
Proof. unfold GetSeenItems. ystep; [apply ask_any|]. ystep; [apply read_rows_any|by apply yields_ret]. Qed.

Lemma authoredObjectSet_any ns subject cfg : yields c (authoredObjectSet ns subject cfg) s now (λ _, True).
Proof. unfold authoredObjectSet. ystep; [by apply yields_ret|]. ystep; [apply ask_any|]. repeat ystep; done. Qed.

Lemma seenObjectSet_any ns subject cfg : yields c (seenObjectSet ns subject cfg) s now (λ _, True).
Proof. unfold seenObjectSet. ystep; [apply GetSeenItems_any|]. repeat ystep; done. Qed.

Lemma excludedObjectIDs_any ns subject cfg seen : yields c (excludedObjectIDs ns subject cfg seen) s now (λ _, True).
Proof. unfold excludedObjectIDs. ystep; [apply authoredObjectSet_any|]. repeat ystep; done. Qed.

Lemma buildSeenItemsFilter_any ns excluded : yields c (buildSeenItemsFilter ns excluded) s now (λ _, True).
Proof.
  unfold buildSeenItemsFilter, LookupObjectIDs. ystep; [by apply yields_ret|]. ystep; [apply ask_any|repeat ystep; done].
Qed.

Lemma GetTrendingPage_limit ns g offset limit :
  yields c (GetTrendingPage ns g offset limit) s now
    (λ r, match r with inl l => (length l <= limit)%nat | inr _ => True end).
Proof.
  unfold GetTrendingPage. ystep; [apply yields_ret; cbn; lia|]. ystep; [|by apply yields_ret].
  apply yields_ask; [done|]. rewrite length_take. lia.
Qed.

Lemma backfill_any ids search :
  (∀ f k, yields c (search f k) s now (λ _, True)) → yields c (backfill ids search) s now (λ _, True).
Proof. intros Hs. unfold backfill. ystep; [by apply yields_ret|]. ystep; [apply Hs|]. by ystep. Qed.

Lemma fallbackPopular_ok ns subject offset limit cfg exclude :
  yields c (fallbackPopular ns subject offset limit cfg exclude) s now (outcome_ok offset limit).
Proof.
  unfold fallbackPopular. ystep; [apply authoredObjectSet_any|]. cbv zeta.
  eapply (yields_bind _ _ _ _ _ (λ r, match r with inl _ => True | inr e => e ≠ [] end)).
  { by apply yields_ask. }
  intros [raw|e] He; [|by apply yields_ret]. cbv zeta.
  pose proof (page_ok_unscored (dropAuthored raw (mergeExclusions a exclude)) offset limit) as Hp.
  destruct (pageOf _ offset limit) as [paged start]. by apply yields_ret.
Qed.

Lemma descendPopular_ok ns subject offset limit cfg exclude d :
  yields c (descendPopular ns subject offset limit cfg exclude d) s now (outcome_ok offset limit).
Proof.
  unfold descendPopular. eapply yields_bind; [apply fallbackPopular_ok|]. intros [o|e] Ho; by apply yields_ret.
Qed.

Lemma fallbackTrending_ok ns subject offset limit cfg exclude :
  yields c (fallbackTrending ns subject offset limit cfg exclude) s now (outcome_ok offset limit).
Proof.
  unfold fallbackTrending. ystep; [apply authoredObjectSet_any|]. cbv zeta.
  set (excluded := mergeExclusions a exclude). destruct (bool_decide (excluded = ∅)) eqn:Hex; cbn [negb].
  all: eapply yields_bind; [apply GetTrendingPage_limit|]; intros [entries|e] Hl; [|apply descendPopular_ok].
  all: ystep; [repeat ystep; try done; eapply yields_mono; [apply GetTrendingPage_limit|done]|].
  all: ystep; [apply descendPopular_ok|].
  - apply yields_ret. apply page_ok_trending. by rewrite length_fmap.
  - cbv zeta. ystep; [apply descendPopular_ok|]. apply yields_ret. apply page_ok_trending.
    rewrite pageOf_page, length_take. lia.
Qed.

Lemma hybridRecommend_ok ns subject offset limit cfg sv dv f :
  yields c (hybridRecommend ns subject offset limit cfg sv dv f) s now (outcome_ok offset limit).
Proof.
  unfold hybridRecommend. cbv zeta. ystep; [apply ask_any|]. ystep; [apply ask_any|]. ystep.
  { ystep; [apply descendPopular_ok|]. apply yields_ret. split; try done; [cbn; lia|set_solver..]. }
  ystep; [apply backfill_any; intros; apply ask_any|]. ystep; [apply backfill_any; intros; apply ask_any|].
  ystep; [by apply yields_now|].
  match goal with |- context [pageOf ?l offset limit] =>
    pose proof (page_ok_paged blended_item l offset limit (λ _ _, eq_refl)) as Hp; destruct (pageOf l offset limit) end.
  apply yields_ret. apply Hp. intros x k Hx. cbn. by apply blendHybridScores_spec in Hx as [? _].
Qed.

Lemma sparse_cf_ok ns subject offset limit cfg sv f :
  yields c (sparse_cf ns subject offset limit cfg sv f) s now (outcome_ok offset limit).
Proof.
  unfold sparse_cf. ystep; [apply ask_any|]. ystep; [|apply descendPopular_ok]. ystep; [by apply yields_now|].
  apply yields_ret. cbn. apply page_ok_pageItems. intros x Hx. by apply rerankScored_spec in Hx as [? _].
Qed.

Lemma collaborativeFiltering_ok ns subject offset limit cfg :
  yields c (collaborativeFiltering ns subject offset limit cfg) s now (outcome_ok offset limit).
Proof.
  unfold collaborativeFiltering. ystep; [apply ask_any|]. repeat (ystep; try apply descendPopular_ok).
  all: try apply ask_any; try apply GetSeenItems_any; try apply excludedObjectIDs_any; try apply buildSeenItemsFilter_any;
    try apply hybridRecommend_ok; try apply sparse_cf_ok.
Qed.

Lemma hybridCold_ok ns subject offset limit cfg :
  yields c (hybridCold ns subject offset limit cfg) s now (outcome_ok offset limit).
Proof.
  unfold hybridCold. cbv zeta. ystep; [apply seenObjectSet_any|].
  eapply yields_bind; [apply collaborativeFiltering_ok|]. intros cf Hcf.
  eapply yields_bind; [apply fallbackTrending_ok|]. intros pop Hpop.
  destruct pop as [popOut|e], cf as [cfOut|e'].
  - ystep; [apply yields_ret; by eapply page_ok_repage|].
    match goal with |- context [pageOf ?l offset limit] =>
      pose proof (page_ok_unscored l offset limit) as Hp; destruct (pageOf l offset limit) end.
    by apply yields_ret.
  - apply yields_ret. by eapply page_ok_repage.
  - apply yields_ret. by eapply page_ok_repage.
  - by apply yields_ret.
Qed.

Lemma doRecommend_ok ns subject offset limit cfg :
  yields c (doRecommend ns subject offset limit cfg) s now (outcome_ok offset limit).
Proof.
  unfold doRecommend. ystep; [apply ask_any|]. cbv zeta. eapply (yields_bind _ _ _ _ _ (outcome_ok offset limit)).
  2: { intros [o|e] Ho; by apply yields_ret. }
  ystep; [apply fallbackTrending_ok|]. ystep; [apply hybridCold_ok|].
  eapply yields_bind; [apply collaborativeFiltering_ok|]. intros [o|e] Ho; [|by apply yields_ret].
  ystep; [|by apply yields_ret]. ystep; [apply seenObjectSet_any|apply fallbackTrending_ok].
Qed.
End any.

(** ** The response and the cache *)

(** The page size and offset a request is served with. *)
Definition served_limit (req : Request) (cfg : Config) : nat :=
  let limit := if (rq_Limit req <=? 0)%Z then 20%Z else rq_Limit req in
  Z.to_nat (if (0 <? cfg_MaxResults cfg)%Z && (cfg_MaxResults cfg <? limit)%Z then cfg_MaxResults cfg else limit).
Definition served_offset (req : Request) : nat := Z.to_nat (if (rq_Offset req <? 0)%Z then 0%Z else rq_Offset req).

Definition response_of (req : Request) (cfg : Config) (out : outcome) (now : Z) : Response :=
  {| rs_SubjectID := rq_SubjectID req; rs_Namespace := rq_Namespace req; rs_Items := oc_items out; rs_Source := oc_source out;
     rs_Limit := served_limit req cfg; rs_Offset := served_offset req; rs_Total := oc_total out; rs_GeneratedAt := now |}.

(** How a request may end. *)
Inductive recommended (req : Request) (w : W) : option Response → error → W → Prop :=
  | rec_failed e w' :
      e ≠ [] → same_but_faults w w' → recommended req w None e w'
  | rec_hit key r w' :
      sv_cache (w_ext w) !! key = Some (Some r) → rs_Namespace r = rq_Namespace req → rs_SubjectID r = rq_SubjectID req →
      same_but_faults w w' → recommended req w (Some r) [] w'
  | rec_fresh cfg key out w1 w2 w' :
      sv_configs (w_ext w) !! rq_Namespace req = Some cfg →
      recCacheKey (rq_Namespace req) (namespaceGeneration cfg) (rq_SubjectID req) (served_limit req cfg) (served_offset req) = Some key →
      same_but_faults w w1 →
      doRecommend (rq_Namespace req) (rq_SubjectID req) (served_offset req) (served_limit req cfg) cfg w1 = (inl out, w2) →
      page_ok (served_offset req) (served_limit req cfg) (oc_items out) →
      (same_but_faults w w' ∨
       oc_degraded out = false ∧
       w_ext w' = set_cache (<[key := Some (response_of req cfg out (w_now w))]> (sv_cache (w_ext w))) (w_ext w)) →
      recommended req w (Some (response_of req cfg out (w_now w))) [] w'.

(** C37: Serving: under every failure pattern a recommendation request either
    fails with an error and changes nothing; or returns a cached response of
    that very namespace and subject; or serves the ladder's outcome as a page
    of at most the served limit, with consecutive ranks from the offset, finite
    scores where scores are reported and zeros elsewhere. The only state a
    request ever changes is the cache, where it stores exactly the response it
    returns under the key of the request, and never a degraded one. *)
Theorem recommend_serves_page req w :
  let '((resp, e), w') := Recommend req w in recommended req w resp e w'.
Proof.
  unfold Recommend. cbv zeta. unfold bind at 1, config_Get.
  destruct (ask_cases (λ _ s, inl (sv_configs s !! rq_Namespace req)) w) as (w1 & S1 & [[-> _]| ->]); go; [by apply rec_failed|].
  destruct (sv_configs (w_ext w) !! rq_Namespace req) as [cfg|] eqn:Hcfg; go; [|by apply rec_failed].
  fold (served_limit req cfg) (served_offset req).
  destruct (recCacheKey _ _ _ _ _) as [key|] eqn:Hkey; [|by apply rec_failed].
  assert (∃ cached w2, cache_Get key w1 = (cached, w2) ∧ same_but_faults w1 w2 ∧
    (cached = None ∨ cached = sv_cache (w_ext w) !! key)) as (cached & w2 & Hget & S2 & Hv).
  { unfold cache_Get, bind. destruct (ask_cases (λ _ s, inl (sv_cache s !! key)) w1) as (w2 & S2 & [[-> _]| ->]); go;
      eexists _, w2; (split; [done|]); (split; [done|]); [by left|right]. by rewrite (sbf_ext _ _ S1). }
  unfold bind at 1. rewrite Hget. go. assert (same_but_faults w w2) as S3 by (by etransitivity).
  match goal with |- context [match ?hit with Some _ => ret _ | None => _ end] => destruct hit as [r|] eqn:Hhit end.
  { destruct cached as [[r'|]|]; try done. revert Hhit. case_bool_decide as Hn; [|done]. case_bool_decide as Hs; [|done].
    intros [= ->]. destruct Hv as [|Hv]; [done|]. by eapply rec_hit. }
  unfold bind at 1. pose proof (doRecommend_ok false (w_ext w) (w_now w) (rq_Namespace req) (rq_SubjectID req) (served_offset req)
    (served_limit req cfg) cfg w2 (sbf_ext _ _ S3) (sbf_now _ _ S3) ltac:(done)) as (S4 & _ & Hok).
  destruct (doRecommend _ _ _ _ cfg w2) as [r w3] eqn:Hdo. cbn [fst snd] in *. assert (same_but_faults w w3) as S5 by (by etransitivity).
  destruct r as [out|e]; [|by apply rec_failed]. unfold bind, gets. go. rewrite (sbf_now _ _ S5). fold (response_of req cfg out (w_now w)).
  eapply (rec_fresh req w cfg key out w2 w3); [exact Hcfg|exact Hkey|exact S3|exact Hdo|exact Hok|]. destruct (oc_degraded out); go; [by left|]. unfold cache_Set, bind.
  pose proof (fault_frame w3) as S6. destruct (fault w3) as [[] w4]; cbn [snd] in S6; go; [left; by etransitivity|].
  right. split; [done|]. unfold on_serving, modify. cbn. rewrite (sbf_ext _ _ S6). by rewrite (sbf_ext _ _ S5).
Qed.

(** ** The fallback lists, page by page *)

(** What the reads answer when they do not fail. *)
Definition authored_set (s : Serving) (ns subject : string) (cfg : Config) : gset string :=
  if cfg_ExcludeAuthored cfg
  then list_to_set (om_object <$> take defaultAuthoredObjectsCap (authored_rows (sv_objects s) ns subject)) else ∅.

Definition seen_items (s : Serving) (now : Z) (ns subject : string) (cfg : Config) : list string :=
  remove_dups (ev_object <$> filter (λ e, ev_subject e = subject ∧ ev_namespace e = ns
    ∧ (now - seenItemsWindow cfg * day_ns < ev_occurred e)%Z) (sv_events s)).

Section calm.
Context (s : Serving) (now : Z).

Lemma authoredObjectSet_calm ns subject cfg :
  yields true (authoredObjectSet ns subject cfg) s now (λ a, a = authored_set s ns subject cfg).
Proof.
  unfold authoredObjectSet, authored_set. destruct (cfg_ExcludeAuthored cfg); cbn [negb]; [|by apply yields_ret].
  eapply (yields_bind _ _ _ _ _ (λ r, ∃ b, r = inl (om_object <$> take defaultAuthoredObjectsCap (authored_rows (sv_objects s) ns subject), b))).
  - apply yields_ask; [done|]. cbv zeta. set (rows := authored_rows _ _ _).
    destruct (Nat.ltb_spec defaultAuthoredObjectsCap (length (om_object <$> take (defaultAuthoredObjectsCap + 1) rows))) as [Hl|Hl].
    + exists true. rewrite <- fmap_take, take_take. by repeat f_equal.
    + exists false. rewrite length_fmap, length_take in Hl. rewrite !take_ge by lia. done.
  - intros r [b ->]. by apply yields_ret.
Qed.

Lemma read_rows_calm left acc : yields true (read_rows left acc) s now (λ r, r = (acc ++ left, [])).
Proof.
  revert acc. induction left as [|x left IH]; intros acc; cbn [read_rows];
    (eapply (yields_bind _ _ _ _ _ (λ b, b = false)); [by apply yields_fault|intros ? ->]).
  - apply yields_ret. by rewrite app_nil_r.
  - eapply yields_mono; [apply IH|]. intros r ->. by rewrite <- app_assoc.
Qed.

Lemma GetSeenItems_calm ns subject cfg :
  yields true (GetSeenItems ns subject (seenItemsWindow cfg)) s now (λ r, r = (seen_items s now ns subject cfg, [])).
Proof.
  unfold GetSeenItems. eapply (yields_bind _ _ _ _ _ (λ r, r = inl (seen_items s now ns subject cfg))); [by apply yields_ask|].
  intros ? ->. apply read_rows_calm.
Qed.

Lemma seenObjectSet_calm ns subject cfg :
  yields true (seenObjectSet ns subject cfg) s now (λ a, a = list_to_set (seen_items s now ns subject cfg)).
Proof. unfold seenObjectSet. eapply yields_bind; [apply GetSeenItems_calm|]. intros ? ->. by apply yields_ret. Qed.

Lemma mergeExclusions_union a b : mergeExclusions a b = a ∪ b.
Proof. unfold mergeExclusions. repeat case_bool_decide; set_solver. Qed.

Lemma dropAuthored_filter ids x : dropAuthored ids x = filter (λ id, id ∉ x) ids.
Proof.
  unfold dropAuthored. case_bool_decide as Hx; [|done]. symmetry. apply list_filter_all. set_solver.
Qed.

Lemma length_filter_split (x : gset string) (ids : list string) :
  (length (filter (λ id, id ∈ x) ids) + length (filter (λ id, id ∉ x) ids) = length ids)%nat.
Proof.
  induction ids as [|id ids IH]; [done|]. rewrite !filter_cons. destruct (decide (id ∈ x)).
  - rewrite decide_False by tauto. cbn. lia.
  - rewrite decide_True by tauto. cbn. lia.
Qed.

(** Fetching [n] more than can be dropped yields the first [n] survivors. *)
Lemma overfetch (ids : list string) (x : gset string) n :
  NoDup ids → take n (filter (λ id, id ∉ x) (take (n + size x) ids)) = take n (filter (λ id, id ∉ x) ids).
Proof.
  intros Hnd. rewrite <- (take_drop (n + size x) ids) at 2. rewrite filter_app.
  destruct (Nat.le_gt_cases n (length (filter (λ id, id ∉ x) (take (n + size x) ids)))) as [Hl|Hl].
  - by rewrite take_app_le.
  - assert (length (take (n + size x) ids) < n + size x)%nat as Hshort.
    { assert (length (filter (λ id, id ∈ x) (take (n + size x) ids)) <= size x)%nat as Hin.
      { rewrite <- (size_list_to_set (C := gset string)); [|apply NoDup_filter, (sublist_NoDup _ ids); [done|apply sublist_take]].
        apply subseteq_size. intros id. rewrite elem_of_list_to_set, list_elem_of_filter. tauto. }
      pose proof (length_filter_split x (take (n + size x) ids)) as Hsum. lia. }
    rewrite length_take in Hshort. rewrite (drop_ge ids) by lia. by rewrite app_nil_r.
Qed.
End calm.

(** The list a fallback pages through: the trending objects that are not
    excluded, or, when no trending object is left, the popular ones as the query
    for this page ranks them ([fetch] is the end of the page; the exclusions are
    fetched on top). *)
Definition trending_ids (s : Serving) (ns : string) (cfg : Config) : list string :=
  te_ObjectID <$> default [] (trendingKey ns (namespaceGeneration cfg) ≫= λ k, sv_trending s !! k).

Definition popular_list (fetch : nat) (s : Serving) (now : Z) (ns : string) (x : gset string) : list string :=
  filter (λ id, id ∉ x) (popular_ranking (fetch + size x) (sv_events s) ns now).

Definition fallback_list (fetch : nat) (s : Serving) (now : Z) (ns : string) (cfg : Config) (x : gset string) : list string :=
  let survivors := filter (λ id, id ∉ x) (trending_ids s ns cfg) in
  if decide (survivors = []) then popular_list fetch s now ns x else survivors.

(** [r] is an outcome whose items are the page of [l]. *)
Definition page_of_list (l : list string) (offset limit : nat) (r : outcome + error) : Prop :=
  ∃ o, r = inl o ∧ itemIDs (oc_items o) = take limit (drop offset l).

Lemma itemIDs_unscored ids start : itemIDs (ranked unscored ids start) = ids.
Proof.
  unfold itemIDs, ranked. apply list_eq. intros i. rewrite list_lookup_fmap, list_lookup_imap. by destruct (ids !! i).
Qed.

Lemma page_overfetch ids (x : gset string) offset limit :
  NoDup ids →
  take limit (drop offset (filter (λ id, id ∉ x) (take (offset + limit + size x) ids))) =
  take limit (drop offset (filter (λ id, id ∉ x) ids)).
Proof. intros Hnd. rewrite !take_drop_commute. by rewrite overfetch. Qed.

Section calm_pages.
Context (s : Serving) (now : Z).

Lemma descendPopular_page ns subject offset limit cfg exclude d :
  yields true (descendPopular ns subject offset limit cfg exclude d) s now
    (page_of_list (popular_list (offset + limit) s now ns (authored_set s ns subject cfg ∪ exclude)) offset limit).
Proof.
  unfold descendPopular, fallbackPopular.
  eapply (yields_bind _ _ _ _ _ (page_of_list (popular_list (offset + limit) s now ns (authored_set s ns subject cfg ∪ exclude)) offset limit)).
  2: { intros ? (o & -> & Ho). apply yields_ret. eexists. split; [done|]. exact Ho. }
  eapply yields_bind; [apply authoredObjectSet_calm|]. intros ? ->. cbv zeta. rewrite mergeExclusions_union.
  set (x := authored_set s ns subject cfg ∪ exclude).
  eapply (yields_bind _ _ _ _ _ (λ r, r = inl (take (offset + limit + size x) (popular_ranking (offset + limit + size x) (sv_events s) ns now)))); [by apply yields_ask|].
  intros ? ->. rewrite dropAuthored_filter.
  match goal with |- context [pageOf ?l offset limit] => pose proof (pageOf_page l offset limit) as Hp; destruct (pageOf l offset limit) end.
  apply yields_ret. eexists. split; [done|]. cbn [oc_items fst] in *. rewrite itemIDs_unscored, Hp. apply page_overfetch, popular_distinct.
Qed.

Lemma GetTrendingPage_calm ns cfg offset limit :
  ns ≠ "" → (0 < limit)%nat →
  yields true (GetTrendingPage ns (namespaceGeneration cfg) offset limit) s now
    (λ r, ∃ l, r = inl l ∧ te_ObjectID <$> l = take limit (drop offset (trending_ids s ns cfg))).
Proof.
  intros Hns Hl. unfold GetTrendingPage, trending_ids. destruct (Nat.leb_spec limit 0); [lia|].
  assert (is_Some (trendingKey ns (namespaceGeneration cfg))) as [k ->].
  { destruct (Incarnation_total ns (namespaceGeneration cfg) KindTrending) as (_ & (n & Hn & _) & _); [done|by eexists|by exists n]. }
  apply yields_ask; [done|]. eexists. split; [done|]. by rewrite fmap_take, fmap_drop.
Qed.

Lemma fallbackTrending_page ns subject offset limit cfg exclude :
  ns ≠ "" → (0 < limit)%nat → NoDup (trending_ids s ns cfg) →
  yields true (fallbackTrending ns subject offset limit cfg exclude) s now
    (page_of_list (fallback_list (offset + limit) s now ns cfg (authored_set s ns subject cfg ∪ exclude)) offset limit).
Proof.
  intros Hns Hlim Hnd. unfold fallbackTrending. eapply yields_bind; [apply authoredObjectSet_calm|]. intros ? ->. cbv zeta.
  rewrite mergeExclusions_union. set (x := authored_set s ns subject cfg ∪ exclude). unfold fallback_list.
  fold x. set (ids := trending_ids s ns cfg) in *. set (survivors := filter (λ id, id ∉ x) ids).
  assert (∀ d, survivors = [] → yields true (descendPopular ns subject offset limit cfg exclude d) s now
    (page_of_list (if decide (survivors = []) then popular_list (offset + limit) s now ns x else survivors) offset limit)) as Hpop.
  { intros d Hs. rewrite decide_True by done. apply descendPopular_page. }
  destruct (decide (x = ∅)) as [Hx|Hx].
  - rewrite bool_decide_true by done. cbn [negb].
    assert (survivors = ids) as Hsv by (unfold survivors; rewrite Hx; apply list_filter_all; set_solver).
    eapply yields_bind; [by apply GetTrendingPage_calm|]. intros ? (l & -> & Hl). fold ids in Hl.
    eapply (yields_bind _ _ _ _ _ (λ b, b = negb (bool_decide (ids = [])))).
    { destruct (decide (l = [])) as [->|Hne].
      - rewrite bool_decide_true by done. cbn [andb]. cbn in Hl. destruct (Nat.ltb_spec 0 offset).
        + eapply yields_bind; [apply (GetTrendingPage_calm ns cfg 0 1); [done|lia]|]. intros ? (l & -> & Hp). fold ids in Hp.
          apply yields_ret. rewrite drop_0 in Hp. destruct l, ids; done.
        + apply yields_ret. assert (offset = 0)%nat as -> by lia. rewrite drop_0 in Hl. destruct ids, limit; done || lia.
      - rewrite bool_decide_eq_false_2 by done. apply yields_ret. cbn. rewrite bool_decide_eq_false_2; [done|].
        intros Hids. rewrite Hids, drop_nil, take_nil in Hl. by destruct l. }
    intros ? ->. rewrite negb_involutive. case_bool_decide as Hids; [apply Hpop; by rewrite Hsv|].
    apply yields_ret. eexists. split; [done|]. cbn [oc_items trending_outcome]. rewrite itemIDs_unscored, Hl, decide_False by (by rewrite Hsv). by rewrite Hsv.
  - rewrite bool_decide_eq_false_2 by done. cbn [negb].
    eapply yields_bind; [apply GetTrendingPage_calm; [done|lia]|]. intros ? (l & -> & Hl). fold ids in Hl. rewrite drop_0 in Hl.
    eapply (yields_bind _ _ _ _ _ (λ b, b = negb (bool_decide (l = [])))).
    { cbn [Nat.ltb Nat.leb]. rewrite andb_false_r. by apply yields_ret. }
    intros ? ->. rewrite negb_involutive. rewrite dropAuthored_filter.
    assert (filter (λ id, id ∉ x) (te_ObjectID <$> l) = [] → survivors = []) as Hkept.
    { rewrite Hl. intros Hk. pose proof (overfetch ids x (offset + limit) Hnd) as Ho. rewrite Hk, take_nil in Ho.
      fold survivors in Ho. destruct survivors, (offset + limit)%nat eqn:E; done || lia. }
    case_bool_decide as Hle; [apply Hpop, Hkept; by rewrite Hle|].
    case_bool_decide as Hke; [by apply Hpop, Hkept|]. apply yields_ret. eexists. split; [done|]. cbn [oc_items trending_outcome].
    rewrite itemIDs_unscored, pageOf_page, Hl, page_overfetch by done. fold survivors. rewrite decide_False; [done|].
    intros Hs. apply Hke. rewrite Hl. pose proof (list_filter_none (λ id, id ∉ x) (take (offset + limit + size x) ids)) as Hn.
    apply Hn. intros id Hid Hnx. assert (id ∈ survivors) as Hin; [|rewrite Hs in Hin; by apply elem_of_nil in Hin].
    apply list_elem_of_filter. split; [done|]. by eapply elem_of_sublist, sublist_take.
Qed.
End calm_pages.

(** Fallback pages: when no store fails, the fallback serves exactly the
    requested page of one list: the trending objects that are not excluded or,
    when none is left, the popular objects of the last week that are not
    excluded, as the query for that page ranks them. Fetching as many extra entries as there are exclusions loses
    nothing, and an empty page past the end of the trending set does not fall
    over to the popular list. *)
Theorem fallback_pages_exact ns subject offset limit cfg exclude w :
  w_faults w = [] → ns ≠ "" → (0 < limit)%nat → NoDup (trending_ids (w_ext w) ns cfg) →
  page_of_list (fallback_list (offset + limit) (w_ext w) (w_now w) ns cfg (authored_set (w_ext w) ns subject cfg ∪ exclude)) offset limit
    (fallbackTrending ns subject offset limit cfg exclude w).1.
Proof.
  intros Hf Hns Hl Hnd. by destruct (fallbackTrending_page (w_ext w) (w_now w) ns subject offset limit cfg exclude Hns Hl Hnd w) as (_ & _ & ?).
Qed.
End facts.

(** ** A small deployment *)

Definition serving_config : Config :=
  {| cfg_Namespace := "shop"; cfg_Generation := 1; cfg_ActionWeights := ∅; cfg_Lambda := f64_zero; cfg_Gamma := f64_zero;
     cfg_MaxResults := 20; cfg_SeenItemsDays := 30; cfg_ExcludeAuthored := true; cfg_Paused := false; cfg_APIKeyHash := "";
     cfg_Alpha := f64_one; cfg_DenseSource := "disabled"; cfg_EmbeddingDim := 2; cfg_DenseDistance := "cosine";
     cfg_TrendingWindow := 24; cfg_TrendingTTL := 600; cfg_LambdaTrending := f64_zero; cfg_CatalogStrategyID := "";
     cfg_CatalogStrategyVersion := ""; cfg_CatalogStrategyParams := None; cfg_CatalogMaxAttempts := 5; cfg_CatalogMaxContentBytes := 1024;
     cfg_CreatedAt := 0; cfg_UpdatedAt := 0 |}.

Definition sample_serving : Serving :=
  {| sv_configs := {["shop" := serving_config]};
     sv_events := [{| ev_namespace := "shop"; ev_subject := "u"; ev_object := "x"; ev_weight := f64_one; ev_occurred := 100 |}];
     sv_objects := [{| om_namespace := "shop"; om_object := "y"; om_author := Some "u"; om_created := 50 |}];
     sv_ids := {[("shop", "object", "x") := 1%Z; ("shop", "object", "y") := 2%Z]}; sv_next_id := 3;
     sv_collections := ∅;
     sv_trending := {["trending:shop" := (λ o, {| te_ObjectID := o; te_Score := f64_one |}) <$> ["y"; "a"; "b"; "c"]]};
     sv_cache := ∅ |}.

Definition serving_world (s : Serving) : W :=
  {| w_ledger := w_ledger (demo_world []); w_now := 1000; w_adv := []; w_lockobjs := ∅; w_next := 0; w_faults := []; w_ext := s |}.

(** The second page of two: the author of "y" does not see it, and it does not
    shorten the page. *)
Lemma fallback_pages_exact_witness :
  let w := serving_world sample_serving in
  itemIDs <$> (match (fallbackTrending (H2 := sample_popularity) "shop" "u" 1 2 serving_config ∅ w).1 with
               | inl o => Some (oc_items o) | inr _ => None end) = Some ["b"; "c"] ∧
  page_of_list (fallback_list (H2 := sample_popularity) (1 + 2) sample_serving 1000 "shop" serving_config
                  (authored_set sample_serving "shop" "u" serving_config ∪ ∅)) 1 2
    (fallbackTrending (H2 := sample_popularity) "shop" "u" 1 2 serving_config ∅ w).1.
Proof.
  split; [vm_compute; reflexivity|].
  apply (fallback_pages_exact (H2 := sample_popularity) "shop" "u" 1 2 serving_config ∅ (serving_world sample_serving)).
  - reflexivity.
  - discriminate.
  - lia.
  - apply (bool_decide_unpack _). vm_compute. exact I.
Defined.
