(* ===== verification/RecommendExclusion.v ===== *)
(** * Who is shown what

    When no store fails, a subject is never recommended an object it authored,
    on any rung of the ladder, and collaborative filtering never repeats an
    object the subject interacted with inside the window. The ladder's cold
    rung does repeat such objects: an example shows how. *)

From stdpp Require Import base tactics gmap sets strings list sorting.
From Stdlib Require Import ZArith SpecFloat Lia.
From S2P Require Import Prelude GoLib Float64 NsNames NsLedger NsService NamespaceConfig Scoring Recommend ServingSamples RecommendFacts.

(** The object index of a namespace: ids belong to one object each, and a point
    carries the id of the object in its payload. *)
Record index_wf (s : Serving) (ns : string) (cfg : Config) : Prop := {
  iw_inj : ∀ o1 o2 n, sv_ids s !! (ns, "object", o1) = Some n → sv_ids s !! (ns, "object", o2) = Some n → o1 = o2;
  iw_points : ∀ suffix coll n pt o, suffix ∈ ["_objects"; "_objects_dense"] →
    sv_collections s !! (qdrantPhysicalNamespace ns cfg +:+ suffix) = Some coll →
    coll !! n = Some pt → pl_object_id (pt_payload pt) = Some o → sv_ids s !! (ns, "object", o) = Some n;
}.

(** [r] is an outcome none of whose items is in [X]. *)
Definition avoids (X : gset string) (r : outcome + error) : Prop :=
  ∃ o, r = inl o ∧ ∀ id, id ∈ itemIDs (oc_items o) → id ∉ X.

Definition personal (source : string) : Prop := source = SourceCollaborativeFiltering ∨ source = SourceHybrid.

(** An outcome without an object of [A], and without one of [S] if personal. *)
Definition screened (A S : gset string) (r : outcome + error) : Prop :=
  ∃ o, r = inl o ∧ (∀ id, id ∈ itemIDs (oc_items o) → id ∉ A) ∧
       (personal (oc_source o) → ∀ id, id ∈ itemIDs (oc_items o) → id ∉ S).

Lemma itemIDs_ranked {A} (mk : A → nat → RecommendedItem) page start id :
  id ∈ itemIDs (ranked mk page start) → ∃ x n, x ∈ page ∧ ri_ObjectID (mk x n) = id.
Proof. unfold itemIDs. intros (it & -> & Hin)%list_elem_of_fmap. apply ranked_elem in Hin as (x & n & Hx & ->). by exists x, n. Qed.

Lemma elem_of_page {A} (l : list A) offset limit x : x ∈ (pageOf l offset limit).1 → x ∈ l.
Proof.
  rewrite pageOf_page. intros Hx. eapply elem_of_sublist; [exact Hx|]. etransitivity; [apply sublist_take|apply sublist_drop].
Qed.

Lemma page_of_list_avoids l X offset limit r : (∀ id, id ∈ l → id ∉ X) → page_of_list l offset limit r → avoids X r.
Proof.
  intros Hl (o & -> & Ho). exists o. split; [done|]. intros id Hid. rewrite Ho in Hid. apply Hl.
  eapply elem_of_sublist; [exact Hid|]. etransitivity; [apply sublist_take|apply sublist_drop].
Qed.

Lemma repage_ids items offset limit id : id ∈ itemIDs (repageItems items offset limit) → id ∈ itemIDs items.
Proof.
  unfold repageItems. pose proof (elem_of_page items offset limit) as Hp. destruct (pageOf items offset limit) as [page start].
  intros (x & n & Hx & <-)%itemIDs_ranked. apply list_elem_of_fmap. exists x. split; [done|]. by apply Hp.
Qed.

Lemma blendItems_elem popular cf ratio limit id : id ∈ blendItems popular cf ratio limit → id ∈ popular ∨ id ∈ cf.
Proof.
  assert (∀ l items n result, id ∈ blend_take l items n result → id ∈ result ∨ id ∈ items) as Hb.
  { intros l items. induction items as [|x items IH]; intros n result; cbn [blend_take]; [by left|].
    repeat case_match; [by left|by left| |]; intros Hin; apply IH in Hin; set_solver. }
  unfold blendItems. intros Hin. apply Hb in Hin as [Hin|]; [|by right]. apply Hb in Hin as [Hin|]; [|by left].
  apply Hb in Hin as [Hin|]; [|by right]. apply Hb in Hin as [Hin|]; [set_solver|by left].
Qed.

Section screening.
Context `{GoMath, GoSort, VectorSearch, Popularity}.
Context (s : Serving) (now : Z) (ns subject : string) (cfg : Config) (WF : index_wf s ns cfg).

Abbreviation authored := (authored_set s ns subject cfg).
Abbreviation seen := (list_to_set (seen_items s now ns subject cfg) : gset string).

Lemma descendPopular_avoids offset limit exclude d :
  yields true (descendPopular ns subject offset limit cfg exclude d) s now
    (λ r, ∃ o, r = inl o ∧ oc_source o = SourceFallbackPopular ∧ ∀ id, id ∈ itemIDs (oc_items o) → id ∉ authored ∪ exclude).
Proof.
  intros w Hx Hn Hf. destruct (descendPopular_page s now ns subject offset limit cfg exclude d w Hx Hn Hf) as (Hs & Hf' & Hp).
  split; [done|]. split; [done|]. apply (page_of_list_avoids _ (authored ∪ exclude)) in Hp as (o & Ho & Hav).
  2: { intros id [? _]%list_elem_of_filter. done. }
  exists o. split; [done|]. split; [|done]. revert Ho. unfold descendPopular, fallbackPopular, bind.
  repeat (case_match; try done); unfold ret in *; intros; simplify_eq/=; done.
Qed.

Lemma fallbackTrending_avoids offset limit exclude :
  ns ≠ "" → (0 < limit)%nat → NoDup (trending_ids s ns cfg) →
  yields true (fallbackTrending ns subject offset limit cfg exclude) s now (avoids (authored ∪ exclude)).
Proof.
  intros Hns Hl Hnd. eapply yields_mono; [by apply fallbackTrending_page|]. intros r. apply page_of_list_avoids.
  intros id. unfold fallback_list, popular_list. case_decide; intros [? _]%list_elem_of_filter; done.
Qed.

(** The ids a search must not return belong to the excluded objects. *)
Definition guards (X : gset string) (f : Filter) : Prop :=
  ∀ o n, o ∈ X → sv_ids s !! (ns, "object", o) = Some n → n ∈ f_must_not f.

Lemma excludedObjectIDs_calm :
  yields true (excludedObjectIDs ns subject cfg (seen_items s now ns subject cfg)) s now (λ l, ∀ o, o ∈ authored ∪ seen → o ∈ l).
Proof.
  set (items := seen_items s now ns subject cfg). unfold excludedObjectIDs.
  eapply yields_bind; [apply authoredObjectSet_calm|]. intros ? ->. case_bool_decide as Ha; apply yields_ret; intros o.
  - rewrite Ha. set_solver.
  - rewrite elem_of_union, elem_of_list_to_set, elem_of_app, elem_of_remove_dups, list_elem_of_filter, elem_of_elements.
    destruct (decide (o ∈ items)); tauto.
Qed.

Lemma buildSeenItemsFilter_calm (X : gset string) l :
  (∀ o, o ∈ X → o ∈ l) → yields true (buildSeenItemsFilter ns l) s now (guards X).
Proof.
  intros Hl. unfold buildSeenItemsFilter, LookupObjectIDs. case_bool_decide as He.
  - apply yields_ret. intros o n Ho. apply Hl in Ho. rewrite He in Ho. set_solver.
  - eapply (yields_bind _ _ _ _ _ (λ r, r = inl (known_ids s l ns))); [by apply yields_ask|]. intros ? ->. apply yields_ret.
    intros o n Ho Hid. cbn. apply elem_of_list_to_set, list_elem_of_omap. exists o. split; [|done].
    by apply elem_of_remove_dups, Hl.
Qed.

(** Results of a guarded search: their ids are not forbidden, so neither are
    their objects. *)
Definition allowed (f : Filter) (points : list ScoredPoint) : Prop :=
  ∀ p, p ∈ points → sp_id p ∉ f_must_not f ∧
    ∀ o, objectIDOf p = Some o → sv_ids s !! (ns, "object", o) = Some (sp_id p).

Lemma allowed_avoids X f points o : guards X f → allowed f points → o ∈ objects_of points → o ∉ X.
Proof.
  intros Hg Ha (p & Hp & Ho)%list_elem_of_omap Hx. destruct (Ha p Hp) as [Hn Hid]. by apply Hn, (Hg o), Hid.
Qed.

Lemma search_allowed f (q : Filter) suffix (coll : gmap Z Point) k out :
  (∀ n, admits q n → n ∉ f_must_not f) → suffix ∈ ["_objects"; "_objects_dense"] →
  sv_collections s !! (qdrantPhysicalNamespace ns cfg +:+ suffix) = Some coll →
  search_sound coll q k out → allowed f out.
Proof.
  intros Hq Hsuf Hc Hs p Hp. destruct (ss_stored _ _ _ _ Hs p Hp) as (pt & Hpt & Hpl & Had). split; [by apply Hq|].
  intros o Ho. eapply (iw_points _ _ _ WF); [exact Hsuf|exact Hc|exact Hpt|]. by rewrite <- Hpl.
Qed.

Definition allowed_result (f : Filter) (r : list ScoredPoint + error) : Prop :=
  match r with inl l => allowed f l | inr _ => True end.

Lemma SearchObjects_allowed f q v k :
  (∀ n, admits q n → n ∉ f_must_not f) →
  yields true (SearchObjects (qdrantPhysicalNamespace ns cfg) v q k) s now (allowed_result f).
Proof.
  intros Hq. apply yields_ask; [done|]. case_match eqn:E; [|done]. cbn.
  eapply search_allowed; [exact Hq| |exact E|apply search_sparse_sound]. set_solver.
Qed.

Lemma SearchObjectsDense_allowed f q v k :
  (∀ n, admits q n → n ∉ f_must_not f) →
  yields true (SearchObjectsDense (qdrantPhysicalNamespace ns cfg) v q k) s now (allowed_result f).
Proof.
  intros Hq. apply yields_ask; [done|]. case_match eqn:E; [|done]. cbn.
  eapply search_allowed; [exact Hq| |exact E|apply search_dense_sound]. set_solver.
Qed.

Lemma allowed_app f l1 l2 : allowed f l1 → allowed f l2 → allowed f (l1 ++ l2).
Proof. intros H1' H2' p [Hp|Hp]%elem_of_app; auto. Qed.

Lemma backfill_allowed f (search : Filter → nat → M W (list ScoredPoint + error)) base have :
  allowed f have →
  (∀ q k, (∀ n, admits q n → n ∉ f_must_not f) → yields true (search q k) s now (allowed_result f)) →
  yields true (backfill (pointIDsMissingFrom base have) search) s now (λ r, allowed f (default [] r)).
Proof.
  intros Hh Hs. unfold backfill. case_bool_decide; [apply yields_ret; intros p Hp; set_solver|].
  eapply yields_bind; [apply Hs|].
  - intros n [Hin _]. cbn in Hin. apply elem_of_list_to_set in Hin. unfold pointIDsMissingFrom in Hin.
    apply list_elem_of_omap in Hin as (p & Hp & Hn). destruct (objectIDOf p); [|done]. case_decide; simplify_eq. by apply Hh.
  - intros [l|e] Hl; apply yields_ret; cbn; [|intros p Hp; set_solver].
    intros p (q & -> & Hq)%list_elem_of_fmap. by apply (Hl q Hq).
Qed.

Lemma screened_popular offset limit d :
  yields true (descendPopular ns subject offset limit cfg ∅ d) s now (screened authored seen).
Proof.
  eapply yields_mono; [apply descendPopular_avoids|]. intros r (o & -> & Hsrc & Hav). exists o. split; [done|].
  rewrite union_empty_r_L in Hav. split; [done|]. rewrite Hsrc. by intros [|].
Qed.

(** A personal outcome whose objects all come from allowed points. *)
Lemma screened_points f items source total scale d (points : list ScoredPoint) :
  guards (authored ∪ seen) f → allowed f points → (∀ id, id ∈ itemIDs items → id ∈ objects_of points) →
  screened authored seen (inl {| oc_items := items; oc_source := source; oc_total := total; oc_scale := scale; oc_degraded := d |}).
Proof.
  intros Hg Ha Hi. eexists. split; [done|]. cbn [oc_items oc_source].
  assert (∀ id, id ∈ itemIDs items → id ∉ authored ∪ seen) as Hav by (intros id Hid; eapply allowed_avoids; eauto).
  split; [|intros _]; intros id Hid; specialize (Hav id Hid); set_solver.
Qed.

Lemma hybridRecommend_screened offset limit sv dv f :
  f_must f = None → guards (authored ∪ seen) f →
  yields true (hybridRecommend ns subject offset limit cfg sv dv f) s now (screened authored seen).
Proof.
  intros Hm Hg. unfold hybridRecommend. cbv zeta.
  assert (∀ n, admits f n → n ∉ f_must_not f) as Hf by (by intros n [_ ?]).
  eapply yields_bind; [by apply (SearchObjects_allowed f)|]. intros sparse Hsp.
  eapply yields_bind; [by apply (SearchObjectsDense_allowed f)|]. intros dense Hde.
  set (sr := match sparse with inl l => l | inr _ => [] end). set (dr := match dense with inl l => l | inr _ => [] end).
  assert (allowed f sr) as Hsr by (subst sr; destruct sparse; [done|intros ? ?; set_solver]).
  assert (allowed f dr) as Hdr by (subst dr; destruct dense; [done|intros ? ?; set_solver]).
  clearbody sr dr. case_match.
  { case_match; [apply screened_popular|]. apply yields_ret. eapply (screened_points f _ _ _ _ _ []); [done|intros ? ?; set_solver|].
    intros id. cbn. set_solver. }
  assert (∀ (b : bool) base have search, allowed f have →
    (∀ q k, (∀ n, admits q n → n ∉ f_must_not f) → yields true (search q k) s now (allowed_result f)) →
    yields true (backfill (if b then pointIDsMissingFrom base have else []) search) s now (λ r, allowed f (default [] r))) as Hb.
  { intros [] base have search Hh Hs; [by apply backfill_allowed|]. apply yields_ret. intros ? ?; set_solver. }
  eapply yields_bind; [apply Hb; [done|intros; by apply SearchObjects_allowed]|]. intros se Hse.
  eapply yields_bind; [apply Hb; [done|intros; by apply SearchObjectsDense_allowed]|]. intros de Hdx.
  eapply yields_bind; [by apply (yields_now _ _ _ (λ n, n = now))|]. intros ? ->.
  match goal with |- context [pageOf ?l offset limit] => pose proof (elem_of_page l offset limit) as Hp; destruct (pageOf l offset limit) as [page start] end.
  cbn [fst] in Hp. apply yields_ret. apply (screened_points f _ _ _ _ _ ((sr ++ default [] se) ++ (dr ++ default [] de))); [done|by repeat apply allowed_app|].
  intros id (x & n & Hx & <-)%itemIDs_ranked. apply Hp in Hx. apply blendHybridScores_spec in Hx as [_ Hx].
  unfold objects_of. rewrite omap_app. apply elem_of_app. exact Hx.
Qed.

Lemma sparse_cf_screened offset limit sv f :
  guards (authored ∪ seen) f → yields true (sparse_cf ns subject offset limit cfg sv f) s now (screened authored seen).
Proof.
  intros Hg. unfold sparse_cf. eapply yields_bind; [apply (SearchObjects_allowed f); by intros n [_ ?]|].
  intros [l|e] Hl; [|apply screened_popular]. eapply yields_bind; [by apply (yields_now _ _ _ (λ n, n = now))|]. intros ? ->. cbv zeta.
  apply yields_ret. apply (screened_points f _ _ _ _ _ l); [done|done|]. intros id. unfold pageItems.
  match goal with |- context [pageOf ?l offset limit] => pose proof (elem_of_page l offset limit) as Hp; destruct (pageOf l offset limit) as [page start] end.
  intros (x & n & Hx & <-)%itemIDs_ranked. apply Hp in Hx. by apply rerankScored_spec in Hx as [_ ?].
Qed.

Lemma collaborativeFiltering_screened offset limit :
  yields true (collaborativeFiltering ns subject offset limit cfg) s now (screened authored seen).
Proof.
  unfold collaborativeFiltering. ystep; [by apply yields_ask|]. destruct a as [[n|]|e]; try apply screened_popular. cbv zeta.
  ystep; [by apply yields_ask|]. destruct a as [[v|]|e]; try apply screened_popular.
  eapply yields_bind; [apply GetSeenItems_calm|]. intros ? ->.
  eapply yields_bind; [apply excludedObjectIDs_calm|]. intros l Hl.
  eapply (yields_bind _ _ _ _ _ (λ f, f_must f = None ∧ guards (authored ∪ seen) f)).
  { intros w Hx Hn Hf. destruct (buildSeenItemsFilter_calm _ l Hl w Hx Hn Hf) as (? & ? & ?). split_and!; try done.
    unfold buildSeenItemsFilter, bind. repeat case_match; done. }
  intros f [Hm Hg]. ystep; [|by apply sparse_cf_screened]. ystep; [by apply yields_ask|].
  repeat ystep; by apply hybridRecommend_screened || by apply sparse_cf_screened.
Qed.

Lemma hybridCold_screened offset limit :
  ns ≠ "" → (0 < limit)%nat → NoDup (trending_ids s ns cfg) →
  yields true (hybridCold ns subject offset limit cfg) s now (avoids authored).
Proof.
  intros Hns Hl Hnd. unfold hybridCold. cbv zeta. eapply yields_bind; [apply seenObjectSet_calm|]. intros ? ->.
  eapply yields_bind; [apply collaborativeFiltering_screened|]. intros ? (cf & -> & Hcf & _).
  eapply yields_bind; [apply fallbackTrending_avoids; [done|lia|done]|]. intros ? (pop & -> & Hpop).
  case_bool_decide.
  - apply yields_ret. eexists. split; [done|]. intros id Hid%repage_ids. specialize (Hpop id Hid). set_solver.
  - match goal with |- context [pageOf ?l offset limit] => pose proof (elem_of_page l offset limit) as Hp; destruct (pageOf l offset limit) as [page start] end.
    apply yields_ret. eexists. split; [done|]. intros id (x & n & Hx & <-)%itemIDs_ranked. apply Hp, blendItems_elem in Hx as [Hx|Hx]; [|by apply Hcf].
    specialize (Hpop x Hx). set_solver.
Qed.
End screening.

Section exclusion.
Context `{GoMath, GoSort, VectorSearch, Popularity}.

(** The interactions the ladder counts. *)
Definition interactions (s : Serving) (ns subject : string) : nat :=
  length (filter (λ e, ev_subject e = subject ∧ ev_namespace e = ns) (sv_events s)).

(** One of the subject's five thousand newest objects: at most so many objects
    of the subject, itself included, are as new. *)
Definition newest_authored (s : Serving) (ns subject id : string) : Prop :=
  ∃ m, m ∈ sv_objects s ∧ om_namespace m = ns ∧ om_author m = Some subject ∧ om_object m = id ∧
    (length (filter (λ m', om_namespace m' = ns ∧ om_author m' = Some subject ∧ (om_created m <= om_created m')%Z) (sv_objects s)) <= 5000)%nat.

(** An object the subject touched inside the configured window. *)
Definition recently_touched (s : Serving) (now : Z) (ns subject : string) (cfg : Config) (id : string) : Prop :=
  ∃ e, e ∈ sv_events s ∧ ev_subject e = subject ∧ ev_namespace e = ns ∧ ev_object e = id ∧
    (now - seenItemsWindow cfg * day_ns < ev_occurred e)%Z.

#[local] Instance newer_trans : Transitive newer.
Proof. intros x y z. unfold newer. lia. Qed.
#[local] Instance newer_total : Total newer.
Proof. intros x y. unfold newer. lia. Qed.

(** The capped query returns all of them. *)
Lemma newest_authored_set s ns subject cfg id :
  cfg_ExcludeAuthored cfg = true → newest_authored s ns subject id → id ∈ authored_set s ns subject cfg.
Proof.
  intros Hx (m & Hm & Hn & Ha & Hid & Hc). unfold authored_set. rewrite Hx. apply elem_of_list_to_set, list_elem_of_fmap. exists m. split; [done|].
  unfold authored_rows. set (rows := filter (λ o, om_namespace o = ns ∧ om_author o = Some subject) (sv_objects s)).
  match goal with |- _ ∈ take _ ?l => assert (l ≡ₚ rows ∧ StronglySorted newer l) as [Hp Hs];
    [split; [apply merge_sort_Permutation|apply StronglySorted_merge_sort; apply _]|set (sorted := l) in *] end.
  assert (m ∈ sorted) as (l1 & l2 & Hl)%list_elem_of_split by (rewrite Hp; by apply list_elem_of_filter).
  rewrite Hl in Hs |- *. apply StronglySorted_app in Hs as (Hs & _).
  assert (length l1 < 5000)%nat.
  { pose (P := λ m', (om_created m <= om_created m')%Z). assert (length (filter P sorted) <= 5000)%nat as Hle.
    { rewrite Hp. unfold rows. rewrite list_filter_filter. etransitivity; [|exact Hc]. apply Nat.eq_le_incl. f_equal.
      apply list_filter_iff. unfold P. naive_solver. }
    rewrite Hl, filter_app, length_app, (list_filter_all P l1) in Hle; [|intros x Hin; apply (Hs x m Hin); by left].
    rewrite filter_cons_True in Hle by (unfold P; lia). cbn in Hle. lia. }
  rewrite take_app_ge by (unfold defaultAuthoredObjectsCap; lia). apply elem_of_app. right.
  destruct (defaultAuthoredObjectsCap - length l1)%nat eqn:E; [unfold defaultAuthoredObjectsCap in E; lia|]. by left.
Qed.

(** C38: Exclusion: when no store fails and the object index is well formed, the
    ladder serves an outcome on whichever rung it ends. In a namespace that
    excludes them ([exclude_authored], off by default), the outcome contains none
    of the subject's own objects, as far as they are among the newest five
    thousand. For a subject past the cold-start threshold, a personal outcome,
    sparse or hybrid, contains no object the subject touched inside the window. *)
Theorem authored_never_recommended ns subject offset limit cfg w :
  w_faults w = [] → index_wf (w_ext w) ns cfg → ns ≠ "" → (0 < limit)%nat → NoDup (trending_ids (w_ext w) ns cfg) →
  ∃ o, (doRecommend ns subject offset limit cfg w).1 = inl o ∧
    (cfg_ExcludeAuthored cfg = true → ∀ id, id ∈ itemIDs (oc_items o) → ¬ newest_authored (w_ext w) ns subject id) ∧
    ((coldStartThreshold <= interactions (w_ext w) ns subject)%nat → personal (oc_source o) →
     ∀ id, id ∈ itemIDs (oc_items o) → ¬ recently_touched (w_ext w) (w_now w) ns subject cfg id).
Proof.
  intros Hf WF Hns Hl Hnd. set (s := w_ext w) in *. set (now := w_now w).
  set (A := authored_set s ns subject cfg). set (seen := list_to_set (seen_items s now ns subject cfg) : gset string).
  assert (∀ r X S, avoids (A ∪ X) r → S ⊆ X → screened A S r) as Hall.
  { intros r X S (o & -> & Ho) Hs. exists o. split; [done|].
    split; [|intros _]; intros id Hid; specialize (Ho id Hid); set_solver. }
  assert (yields true (doRecommend ns subject offset limit cfg) s now
    (screened A (if (coldStartThreshold <=? interactions s ns subject)%nat then seen else ∅))) as Hy.
  { unfold doRecommend. eapply (yields_bind _ _ _ _ _ (λ r, r = inl (interactions s ns subject))); [by apply yields_ask|]. intros ? ->. cbv zeta.
    set (n := interactions s ns subject). set (S := if (coldStartThreshold <=? n)%nat then seen else ∅). eapply (yields_bind _ _ _ _ _ (screened A S)).
    2: { intros r (o & -> & Ho). apply yields_ret. eexists. split; [done|exact Ho]. }
    destruct (Nat.eqb_spec n 0) as [Hz|Hz].
    - eapply yields_mono; [by apply fallbackTrending_avoids|]. intros r Hr. eapply Hall; [exact Hr|]. unfold S. by rewrite Hz.
    - destruct (Nat.ltb_spec n coldStartThreshold) as [Hc|Hc].
      + eapply yields_mono; [by apply hybridCold_screened|]. intros r Hr. apply (Hall r ∅); [by rewrite union_empty_r_L|].
        unfold S. by rewrite (proj2 (Nat.leb_gt _ _)) by lia.
      + assert (S = seen) as -> by (unfold S; by rewrite (proj2 (Nat.leb_le _ _)) by lia).
        eapply yields_bind; [by apply collaborativeFiltering_screened|]. intros r Hr. destruct Hr as (o & -> & Ho).
        ystep; [|apply yields_ret; by exists o]. eapply yields_bind; [apply seenObjectSet_calm|]. intros ? ->.
        eapply yields_mono; [by apply fallbackTrending_avoids|]. intros r Hr. by eapply Hall. }
  destruct (Hy w eq_refl eq_refl ltac:(done)) as (_ & _ & o & Ho & HA & HS). exists o. split; [done|]. split.
  { intros Hx id Hid Hnew. apply (HA id Hid). by apply newest_authored_set. }
  intros Hc Hp id Hid (e & He & ? & ? & <- & ?). rewrite (proj2 (Nat.leb_le _ _)) in HS by done. apply (HS Hp _ Hid), elem_of_list_to_set.
  unfold seen_items. apply elem_of_remove_dups, list_elem_of_fmap. exists e. split; [done|]. by apply list_elem_of_filter.
Qed.
End exclusion.

(** ** A subject with a vector *)

Definition object_point (o : string) : Point :=
  {| pt_sparse := Some ([1%Z], [f64_one]); pt_dense := None;
     pt_payload := {| pl_object_id := Some o; pl_subject_id := None; pl_strategy := None; pl_updated_at := None; pl_created_at := None |} |}.

(** "u" touched "x" five times and wrote "y"; "z" is left. *)
Definition warm_serving : Serving :=
  {| sv_configs := {["shop" := serving_config]};
     sv_events := replicate 5 {| ev_namespace := "shop"; ev_subject := "u"; ev_object := "x"; ev_weight := f64_one; ev_occurred := 100 |};
     sv_objects := sv_objects sample_serving;
     sv_ids := {[("shop", "object", "x") := 1%Z; ("shop", "object", "y") := 2%Z; ("shop", "object", "z") := 3%Z; ("shop", "subject", "u") := 10%Z]};
     sv_next_id := 11;
     sv_collections := {["shop_objects" := {[1%Z := object_point "x"; 2%Z := object_point "y"; 3%Z := object_point "z"]};
                         "shop_subjects" := {[10%Z := object_point ""]}]};
     sv_trending := ∅; sv_cache := ∅ |}.

Lemma warm_index_wf : index_wf warm_serving "shop" serving_config.
Proof.
  split.
  - intros o1 o2 n H1 H2. cbn in H1, H2. rewrite !lookup_insert_Some in H1, H2. rewrite !lookup_singleton_Some in H1, H2. naive_solver.
  - intros suffix coll n pt o Hs Hc Hn Ho. apply elem_of_cons in Hs as [->|[->|Hs%elem_of_nil]%elem_of_cons]; [| |done].
    + change (Some ({[1%Z := object_point "x"; 2%Z := object_point "y"; 3%Z := object_point "z"]} : gmap Z Point) = Some coll) in Hc.
      injection Hc as <-. rewrite !lookup_insert_Some, lookup_singleton_Some in Hn.
      destruct Hn as [[<- <-]|[_ [[<- <-]|[_ [<- <-]]]]]; cbn in Ho; simplify_eq; try done; vm_compute; reflexivity.
    + exfalso. revert Hc. vm_compute. discriminate.
Qed.

Lemma authored_never_recommended_witness :
  let r := (@doRecommend sample_math sample_sort sample_search sample_popularity "shop" "u" 0 20 serving_config (serving_world warm_serving)).1 in
  (match r with inl o => Some (oc_source o, itemIDs (oc_items o)) | inr _ => None end) = Some (SourceCollaborativeFiltering, ["z"]) ∧
  ∃ o, r = inl o ∧ "y" ∉ itemIDs (oc_items o) ∧ (personal (oc_source o) → "x" ∉ itemIDs (oc_items o)).
Proof.
  split; [vm_compute; reflexivity|].
  destruct (@authored_never_recommended sample_math sample_sort sample_search sample_popularity "shop" "u" 0 20 serving_config
    (serving_world warm_serving)) as (o & Ho & Ha & Hs).
  - reflexivity.
  - exact warm_index_wf.
  - discriminate.
  - lia.
  - vm_compute. constructor.
  - exists o. split; [exact Ho|]. split.
    + intros Hy. apply (Ha eq_refl "y" Hy). eexists. split; [left|]. split; [reflexivity|]. split; [reflexivity|]. split; [reflexivity|].
      apply (bool_decide_unpack _). vm_compute. exact I.
    + intros Hp Hx. refine (Hs _ Hp "x" Hx _); [apply (bool_decide_unpack _); vm_compute; exact I|].
      eexists. split; [left|]. split_and!; reflexivity.
Defined.

(** The cold rung repeats what it means to leave out: with one interaction and
    no vector yet, the collaborative half descends to the popular list without
    exclusions, and the object just touched is recommended again. *)
Example cold_subject_sees_touched_object :
  let s := {| sv_configs := sv_configs warm_serving; sv_events := take 1 (sv_events warm_serving); sv_objects := [];
              sv_ids := ∅; sv_next_id := 1; sv_collections := ∅; sv_trending := ∅; sv_cache := ∅ |} in
  (match (@doRecommend sample_math sample_sort sample_search sample_popularity "shop" "u" 0 20 serving_config (serving_world s)).1 with
   | inl o => Some (oc_source o, itemIDs (oc_items o)) | inr _ => None end) = Some (SourceHybridCold, ["x"]) ∧
  seen_items s 1000 "shop" "u" serving_config = ["x"].
Proof. split; vm_compute; reflexivity. Qed.
