(* ===== verification/RankFacts.v ===== *)
(** * Ranking candidates, deleting objects, storing embeddings

    [Rank] loses and invents no candidate; [DeleteObject] leaves nothing of an
    object in the active generation; an embedding is stored under the lease, in
    the collection of the active generation. *)

From stdpp Require Import base tactics gmap sets strings list sorting.
From Stdlib Require Import ZArith SpecFloat Lia.
From S2P Require Import Prelude GoLib Float64 NsNames NsLedger NsService Hoare NamespaceConfig Scoring Recommend ServingSamples RecommendFacts RecommendExclusion.

(** ** Ranking *)

Lemma trail_spec requested (present : gset string) :
  NoDup (trail requested present) ∧ sublist (trail requested present) requested ∧
  ∀ c, c ∈ trail requested present ↔ c ∈ requested ∧ c ∉ present.
Proof.
  revert present. induction requested as [|r requested IH]; intros present; cbn [trail].
  { split; [constructor|]. split; [done|]. set_solver. }
  case_decide as Hr.
  - destruct (IH present) as (Hnd & Hs & Hc). split; [done|]. split; [by apply sublist_cons|]. intros c. rewrite Hc. set_solver.
  - destruct (IH ({[r]} ∪ present)) as (Hnd & Hs & Hc). split_and!.
    + apply NoDup_cons. split; [|done]. rewrite Hc. set_solver.
    + by apply sublist_skip.
    + intros c. rewrite elem_of_cons, Hc. destruct (decide (c = r)); set_solver.
Qed.

(** The candidates as they were sent, unscored; or each of them once, the
    scored ones first and by descending score, the others in request order. *)
Inductive ranks_all (candidates : list string) (items : list RecommendedItem) : string → Prop :=
  | ranks_as_sent : items = ranked unscored candidates 0 → ranks_all candidates items SourceNoSubjectVector
  | ranks_scored scored rest :
      items = ranked blended_item scored 0 ++ ranked unscored rest (length scored) →
      Sorted (λ a b, blended_less b a = false) scored → sublist rest candidates →
      itemIDs items ≡ₚ remove_dups candidates → ranks_all candidates items SourceHybridRank.

Lemma itemIDs_blended scored start : itemIDs (ranked blended_item scored start) = bc_objectID <$> scored.
Proof.
  unfold itemIDs, ranked. apply list_eq. intros i. rewrite !list_lookup_fmap, list_lookup_imap. by destruct (scored !! i).
Qed.

Lemma rank_items_all scored candidates :
  Sorted (λ a b, blended_less b a = false) scored → NoDup (bc_objectID <$> scored) →
  (∀ c, c ∈ scored → bc_objectID c ∈ candidates) →
  ranks_all candidates (rank_items scored candidates) SourceHybridRank.
Proof.
  intros Hs Hnd Hc. unfold rank_items. set (present := list_to_set (bc_objectID <$> scored) : gset string).
  destruct (trail_spec candidates present) as (Ht & Hsub & Hin). eapply ranks_scored; [done|done|done|].
  unfold itemIDs. rewrite fmap_app. fold (itemIDs (ranked blended_item scored 0)).
  fold (itemIDs (ranked unscored (trail candidates present) (length scored))). rewrite itemIDs_blended, itemIDs_unscored.
  apply NoDup_Permutation; [|apply NoDup_remove_dups|].
  - apply NoDup_app. split; [done|]. split; [|done]. intros c Hcs Hct. apply Hin in Hct as [_ Hp]. apply Hp. by apply elem_of_list_to_set.
  - intros c. rewrite elem_of_app, elem_of_remove_dups, Hin. unfold present. rewrite elem_of_list_to_set.
    destruct (decide (c ∈ bc_objectID <$> scored)) as [Hx|Hx]; [|tauto]. split; [|tauto]. intros _.
    apply list_elem_of_fmap in Hx as (b & -> & Hb). by apply Hc.
Qed.

Lemma rank_items_ranks scored candidates : ranks_from 0 (rank_items scored candidates).
Proof.
  unfold rank_items, ranks_from. rewrite fmap_app, length_app, seq_app.
  rewrite (ranked_ranks blended_item scored 0 (λ _ _, eq_refl)). f_equal.
  rewrite (ranked_ranks unscored _ (length scored) (λ _ _, eq_refl)). f_equal. unfold ranked. rewrite length_imap. lia.
Qed.

Section ranking.
Context `{GoMath, GoSort, VectorSearch, Popularity}.

Definition rank_ok (candidates : list string) (r : option RankResponse * error) : Prop :=
  match r with
  | (Some resp, e) => e = [] ∧ ranks_from 0 (rr_Items resp) ∧ ranks_all candidates (rr_Items resp) (rr_Source resp) ∧
                      rr_Total resp = length (rr_Items resp)
  | (None, e) => e ≠ []
  end.

Section reading.
Context (s : Serving) (now : Z) (ns : string) (cfg : Config) (WF : index_wf s ns cfg) (candidates : list string).

Lemma rankFallback_ok subject : yields false (rankFallback subject ns candidates) s now (rank_ok candidates).
Proof.
  unfold rankFallback, rank_response. ystep; [by apply yields_now|]. apply yields_ret.
  split; [done|]. split; [by apply ranked_ranks|]. split; [by constructor|done].
Qed.

(** A search restricted to known candidates returns only candidates. *)
Definition candidates_only (r : option (list ScoredPoint)) : Prop :=
  ∀ o, o ∈ objects_of (default [] r) → o ∈ candidates.

Lemma arm_candidates {V} (q : option V) (search : V → M W (list ScoredPoint + error)) suffix f :
  suffix ∈ ["_objects"; "_objects_dense"] → f_must f = Some (list_to_set (known_ids s candidates ns)) →
  (∀ v Q, Q (inr [ErrDriver]) → Q (inr [ErrCollection]) →
     (∀ coll out k, sv_collections s !! (qdrantPhysicalNamespace ns cfg +:+ suffix) = Some coll →
        search_sound coll f k out → Q (inl out)) → yields false (search v) s now Q) →
  yields false (match q with
                | Some v => let! r := search v in ret (match r with inl l => Some l | inr _ => None end)
                | None => ret None
                end) s now candidates_only.
Proof.
  intros Hsuf Hm Hs. assert (candidates_only None) as Hnone by (intros o; set_solver).
  destruct q as [v|]; [|by apply yields_ret].
  eapply (yields_bind _ _ _ _ _ (λ r, candidates_only (match r with inl l => Some l | inr _ => None end))).
  2: { intros r Hr. by apply yields_ret. }
  apply Hs; [done|done|]. intros coll out k Hc Hout o (p & Hp & Ho)%list_elem_of_omap.
  destruct (ss_stored _ _ _ _ Hout p Hp) as (pt & Hpt & Hpl & Had & _). rewrite Hm in Had.
  apply elem_of_list_to_set, list_elem_of_omap in Had as (c & Hc' & Hid). rewrite elem_of_remove_dups in Hc'.
  unfold objectIDOf in Ho. rewrite Hpl in Ho. pose proof (iw_points _ _ _ WF _ _ _ _ _ Hsuf Hc Hpt Ho) as Hid'.
  by rewrite (iw_inj _ _ _ WF o c _ Hid' Hid).
Qed.

Lemma rank_scored_ok subject sv dv :
  yields false (rank_scored subject ns candidates cfg sv dv (known_ids s candidates ns)) s now (rank_ok candidates).
Proof.
  unfold rank_scored. cbv zeta. ystep; [apply GetSeenItems_any|]. destruct a as [seenItems ?].
  ystep; [apply excludedObjectIDs_any|]. ystep; [apply buildSeenItemsFilter_any|].
  set (f := {| f_must := Some _; f_must_not := _ |}).
  eapply yields_bind; [apply (arm_candidates sv _ "_objects" f); [set_solver|done|]|].
  { intros v Q HQ1 HQ2 HQ. apply yields_ask; [done|]. case_match; [|done]. eapply HQ; [done|apply search_sparse_sound]. }
  intros sparse Hsp.
  eapply yields_bind; [apply (arm_candidates dv _ "_objects_dense" f); [set_solver|done|]|].
  { intros v Q HQ1 HQ2 HQ. apply yields_ask; [done|]. case_match; [|done]. eapply HQ; [done|apply search_dense_sound]. }
  intros dense Hde.
  assert (∀ alpha, yields false (let! n := gets w_now in
    rank_response subject ns (rank_items (blendHybridScores (default [] sparse) (default [] dense) alpha (resolveGamma cfg) (cfg_DenseDistance cfg) n) candidates)
      SourceHybridRank) s now (rank_ok candidates)) as Hgo.
  { intros alpha. ystep; [by apply yields_now|]. unfold rank_response. ystep; [by apply yields_now|]. apply yields_ret.
    match goal with |- context [blendHybridScores ?sp ?de ?al ?g ?d ?t] => destruct (blendHybridScores_spec sp de al g d t) as (Hs & Hnd & Hc) end.
    split; [done|]. split; [apply rank_items_ranks|]. split; [|done]. apply rank_items_all; [done|done|].
    intros c [_ [Hx|Hx]]%Hc; [by apply Hsp|by apply Hde]. }
  destruct sparse, dense; try apply Hgo. apply rankFallback_ok.
Qed.
End reading.

(** Ranking: under every failure pattern, [Rank] changes nothing and either
    fails with an error or returns the caller's candidates and no other object,
    with ranks from one: unscored and exactly as they were sent when nothing
    could be scored, or each once, scored candidates first by descending score
    and the rest in request order. *)
Theorem rank_returns_every_candidate subject candidates ns w :
  (∀ cfg, sv_configs (w_ext w) !! ns = Some cfg → index_wf (w_ext w) ns cfg) →
  let r := Rank subject candidates ns w in same_but_faults w r.2 ∧ rank_ok candidates r.1.
Proof.
  intros WF. assert (yields false (Rank subject candidates ns) (w_ext w) (w_now w) (rank_ok candidates)) as Hy.
  2: { destruct (Hy w eq_refl eq_refl ltac:(done)) as (? & _ & ?). done. }
  unfold Rank. eapply (yields_bind _ _ _ _ _ (λ r, ∀ cfg, r = inl (Some cfg) → sv_configs (w_ext w) !! ns = Some cfg)).
  { apply yields_ask; [done|]. by intros cfg [= ->]. }
  intros [[cfg|]|e] Hc; [|by apply yields_ret..]. specialize (WF cfg (Hc cfg eq_refl)). case_bool_decide as Hcs.
  { unfold rank_response. ystep; [by apply yields_now|]. apply yields_ret. split; [done|]. split; [done|]. split; [|done].
    subst candidates. by apply (ranks_scored _ _ [] []). }
  ystep; [apply ask_any|]. destruct a as [[n|]|e]; try apply rankFallback_ok. cbv zeta.
  ystep; [apply ask_any|]. ystep; [repeat ystep; done || apply ask_any|].
  match goal with |- context [match ?sv with Some _ => _ | None => _ end] => set (sparse := sv) end.
  assert (yields false (let! k := LookupObjectIDs candidates ns in
    match k with inr _ | inl [] => rankFallback subject ns candidates | inl ids => rank_scored subject ns candidates cfg sparse a0 ids end)
    (w_ext w) (w_now w) (rank_ok candidates)) as Hgo.
  { unfold LookupObjectIDs. rewrite bool_decide_eq_false_2 by done.
    eapply (yields_bind _ _ _ _ _ (λ r, ∀ ids, r = inl ids → ids = known_ids (w_ext w) candidates ns)); [by apply yields_ask; [|intros ? [= <-]]|].
    intros [[|i ids]|e] Hk; try apply rankFallback_ok. rewrite (Hk _ eq_refl). by apply rank_scored_ok. }
  clearbody sparse. destruct sparse, a0; try apply Hgo. apply rankFallback_ok.
Qed.
End ranking.

Lemma rank_returns_every_candidate_witness :
  let r := @Rank sample_math sample_sort sample_search "u" ["q"; "z"; "x"; "q"] "shop" (serving_world warm_serving) in
  ((λ resp, (rr_Source resp, (λ it, (ri_ObjectID it, ri_Rank it, ri_Scored it)) <$> rr_Items resp)) <$> r.1.1) =
    Some (SourceHybridRank, [("z", 1%nat, true); ("q", 2%nat, false); ("x", 3%nat, false)]) ∧
  same_but_faults (serving_world warm_serving) r.2 ∧ rank_ok ["q"; "z"; "x"; "q"] r.1.
Proof.
  split; [vm_compute; reflexivity|].
  apply (@rank_returns_every_candidate sample_math sample_sort sample_search "u" ["q"; "z"; "x"; "q"] "shop" (serving_world warm_serving)).
  intros cfg Hc. assert (cfg = serving_config) as -> by (vm_compute in Hc |- *; by injection Hc as <-). exact warm_index_wf.
Defined.

(** ** Writing programs *)

Abbreviation writes := (Hoare.writes false).

Lemma writes_ask {A} (f : Z → Serving → A + error) now s (Q : A + error → Serving → Prop) :
  Q (inr [ErrDriver]) s → Q (f now s) s → writes (ask f) now s Q.
Proof.
  intros H1 H2. eapply (writes_bind _ _ _ _ (λ _ s', s' = s)); [by apply writes_fault|].
  intros [] ? ->; [by apply writes_ret|]. by intros w <- <- _.
Qed.

Lemma writes_on (f : Serving → Serving) now s (Q : () → Serving → Prop) : Q tt (f s) → writes (on_serving f) now s Q.
Proof. apply writes_modify. Qed.

(** A section under the writer's lease that reports success. *)
Lemma in_section_success svc ctx ns (m : Ctx → option NamespaceLifecycle → M W error) meta w (Q : Z → Serving → Prop) :
  existing_lease ctx ns = None →
  (∀ row, l_rows (w_ledger w) !! ns = Some row → r_state row = StateActive →
     writes (m (with_lease {| lv_namespace := ns; lv_generation := r_generation row; lv_mode := LockShared |} ctx)
               (Some (scanNamespace ns row))) (w_now w) (w_ext w) (λ e s', e = [] → Q (r_generation row) s')) →
  let r := in_section {| rec_lifecycle := Some svc; rec_objectMeta := meta |} ctx ns m w in
  r.1 = [] → ∃ row, l_rows (w_ledger w) !! ns = Some row ∧ r_state row = StateActive ∧ Q (r_generation row) (w_ext r.2).
Proof.
  intros Hl Hm r. subst r. unfold in_section. cbn [rec_lifecycle]. unfold bind at 1 3.
  match goal with |- context [WithWriter ?a ?b ?c ?d ?f w] =>
    destruct (WithWriter_writes false a b c d f w (λ row r s', r.2 = [] → Q (r_generation row) s') Hl ltac:(done))
      as (_ & _ & _ & [(e & He%refusal_not_nil & Hr & _)|(row & Hrow & Hs & _ & HQ)]);
    [intros row Hrow Hs _|destruct (WithWriter a b c d f w) as [r w']; cbn [fst snd ret] in *..] end.
  - eapply writes_bind; [by apply Hm|]. intros e s' He. by apply writes_ret.
  - subst r. cbn. by intros ->.
  - intros Hnil. exists row. auto.
Qed.

(** ** Deleting an object *)

Definition drop_point (inc : Incarnation) (kind : PhysicalKind) (n : Z) (c : gmap string (gmap Z Point)) : gmap string (gmap Z Point) :=
  match Incarnation_MustPhysicalName inc kind with Some name => alter (delete n) name c | None => c end.

(** The stores once an object is gone: its points in both collections of the
    generation and its metadata row; its id is kept. *)
Definition object_deleted (meta : bool) (ns obj : string) (generation : Z) (s : Serving) : Serving :=
  let inc := NewIncarnation ns generation in
  let s1 := match sv_ids s !! (ns, "object", obj) with
            | Some n => set_collections (drop_point inc KindObjectsDense n (drop_point inc KindObjects n (sv_collections s))) s
            | None => s
            end in
  if meta then set_objects (filter (λ o, ¬ (om_namespace o = ns ∧ om_object o = obj)) (sv_objects s1)) s1 else s1.

Lemma DeleteFromCollection_writes inc kind n now s :
  writes (CollectionName inc kind (λ c, DeleteFromCollection c n)) now s
    (λ e s', e = [] → s' = set_collections (drop_point inc kind n (sv_collections s)) s).
Proof.
  unfold CollectionName, drop_point. destruct (Incarnation_MustPhysicalName inc kind) as [name|]; [|by apply writes_ret].
  unfold DeleteFromCollection. eapply (writes_bind _ _ _ _ (λ _ s', s' = s)); [by apply writes_fault|]. intros [] ? ->; [by apply writes_ret|].
  eapply writes_bind; [apply (writes_on _ _ _ (λ _ s', s' = set_collections (alter (delete n) name (sv_collections s)) s))|by intros _ s' ->; apply writes_ret].
  destruct (sv_collections s !! name) as [c|] eqn:E.
  - by rewrite (alter_insert_eq _ _ _ c) || (f_equal; apply map_eq; intros i; destruct (decide (i = name)) as [->|];
      [by rewrite lookup_insert_eq, lookup_alter_eq, E|by rewrite lookup_insert_ne, lookup_alter_ne by done]).
  - rewrite alter_id; [by destruct s|]. intros x Hx. congruence.
Qed.

Lemma deleteObjectActive_writes meta svc ns obj g now s :
  writes (deleteObjectActive {| rec_lifecycle := svc; rec_objectMeta := meta |} ns obj (NewIncarnation ns g)) now s
    (λ e s', e = [] → s' = object_deleted meta ns obj g s).
Proof.
  unfold deleteObjectActive, object_deleted. cbn [rec_objectMeta]. set (inc := NewIncarnation ns g).
  set (s1 := match sv_ids s !! (ns, "object", obj) with Some _ => _ | None => _ end).
  eapply (writes_bind _ _ _ _ (λ r s', s' = s ∧ r ≠ inr [] ∧ ∀ x, r = inl x → x = sv_ids s !! (ns, "object", obj))).
  { apply writes_ask; [done|]. split; [done|]. split; [done|]. by intros x [= <-]. }
  intros r ? (-> & Hne & Hr). cbv zeta. eapply (writes_bind _ _ _ _ (λ e s', e = [] → s' = s1)).
  { destruct r as [[n|]|e]; unfold s1.
    - rewrite <- (Hr _ eq_refl). eapply writes_bind; [apply DeleteFromCollection_writes|]. intros e1 s' H1.
      eapply writes_bind; [apply DeleteFromCollection_writes|]. intros e2 s'' H2. apply writes_ret.
      intros [-> ->]%errors_join_nil. by rewrite H2, H1.
    - rewrite <- (Hr _ eq_refl). by apply writes_ret.
    - apply writes_ret. by intros ->. }
  intros e s' He. destruct meta; [|by apply writes_ret]. unfold objectMeta_Delete.
  eapply (writes_bind _ _ _ _ (λ e2 s2, e2 = [] → s2 = set_objects (filter (λ o, ¬ (om_namespace o = ns ∧ om_object o = obj)) (sv_objects s')) s')).
  - eapply (writes_bind _ _ _ _ (λ _ s2, s2 = s')); [by apply writes_fault|]. intros [] ? ->; [by apply writes_ret|].
    eapply writes_bind; [by apply (writes_on _ _ _ (λ _ s2, s2 = set_objects (filter (λ o, ¬ (om_namespace o = ns ∧ om_object o = obj)) (sv_objects s')) s'))|].
    by intros _ ? ->; apply writes_ret.
  - intros e2 s2 H2. apply writes_ret. intros [-> ->]%errors_join_nil. rewrite H2 by done. by rewrite He.
Qed.

(** Object deletion: when [DeleteObject] reports success, the namespace was
    active, and the stores are exactly what they were less the object's points
    in the sparse and the dense collection of the active generation and less
    its metadata row; every other object, every other generation and the
    object's numeric id are untouched. *)
Theorem delete_object_exact svc meta ctx ns obj w :
  existing_lease ctx ns = None →
  let r := DeleteObject {| rec_lifecycle := Some svc; rec_objectMeta := meta |} ctx ns obj w in
  r.1 = [] →
  ∃ row, l_rows (w_ledger w) !! ns = Some row ∧ r_state row = StateActive ∧
    w_ext r.2 = object_deleted meta ns obj (r_generation row) (w_ext w).
Proof.
  intros Hl. apply (in_section_success svc ctx ns _ meta w (λ g s', s' = object_deleted meta ns obj g (w_ext w)) Hl).
  intros row _ _. apply deleteObjectActive_writes.
Qed.

(** Generation 3 of "demo" holds the object "o" beside its earlier generation. *)
Definition demo_serving : Serving :=
  {| sv_configs := {["demo" := serving_config]}; sv_events := []; 
     sv_objects := [{| om_namespace := "demo"; om_object := "o"; om_author := Some "u"; om_created := 50 |}];
     sv_ids := {[("demo", "object", "o") := 7%Z]}; sv_next_id := 8;
     sv_collections := {["demo_g3_objects" := {[7%Z := object_point "o"]}; "demo_objects" := {[7%Z := object_point "o"]}]};
     sv_trending := ∅; sv_cache := ∅ |}.

Lemma delete_object_exact_witness :
  let r := DeleteObject {| rec_lifecycle := Some pair_service; rec_objectMeta := true |} background "demo" "o" (serving_world demo_serving) in
  (r.1, map_size <$> sv_collections (w_ext r.2), length (sv_objects (w_ext r.2))) =
    ([], {["demo_g3_objects" := 0%nat; "demo_objects" := 1%nat]}, 0%nat) ∧
  ∃ row, l_rows (w_ledger (serving_world demo_serving)) !! "demo" = Some row ∧ r_state row = StateActive ∧
    w_ext r.2 = object_deleted true "demo" "o" (r_generation row) demo_serving.
Proof.
  split; [vm_compute; reflexivity|].
  apply (delete_object_exact pair_service true background "demo" "o" (serving_world demo_serving)); [reflexivity|vm_compute; reflexivity].
Defined.

(** ** Storing an embedding *)

Definition dense_kind (entityType : string) : PhysicalKind :=
  if bool_decide (entityType = "object") then KindObjectsDense else KindSubjectsDense.

(** The configuration admits the vector. *)
Definition admissible (cfg : Config) (entityType : string) (vector : list float64) : Prop :=
  ¬ (cfg_DenseSource cfg = DenseSourceCatalog ∧ entityType = "object") ∧
  ((0 < cfg_EmbeddingDim cfg)%Z → Z.of_nat (length vector) = cfg_EmbeddingDim cfg).

(** The stores hold the vector under the entity's id, in the dense collection
    of the generation. *)
Definition embedded (ns entityID entityType : string) (vector : list float64) (createdAt : option Z) (now g : Z) (s : Serving) : Prop :=
  ∃ name n coll, Incarnation_MustPhysicalName (NewIncarnation ns g) (dense_kind entityType) = Some name ∧
    sv_ids s !! (ns, entityType, entityID) = Some n ∧ sv_collections s !! name = Some coll ∧
    coll !! n = Some {| pt_sparse := None; pt_dense := Some vector; pt_payload := byoe_payload entityType entityID now createdAt |}.

Lemma UpsertDensePoint_writes name n vector payload now s :
  writes (UpsertDensePoint name n vector payload) now s
    (λ e s', e = [] → sv_ids s' = sv_ids s ∧ ∃ coll, sv_collections s' !! name = Some coll ∧
       coll !! n = Some {| pt_sparse := None; pt_dense := Some vector; pt_payload := payload |}).
Proof.
  unfold UpsertDensePoint. eapply (writes_bind _ _ _ _ (λ _ s', s' = s)); [by apply writes_fault|]. intros [] ? ->; [by apply writes_ret|].
  eapply (writes_bind _ _ _ _ (λ x s', x = s ∧ s' = s)); [by apply (writes_gets (λ x, x))|]. intros ? ? [-> ->].
  destruct (sv_collections s !! name) as [c|] eqn:E; [|by apply writes_ret].
  eapply writes_bind; [apply (writes_on _ _ _ (λ _ s', s' = set_collections (<[name := <[n := {| pt_sparse := None;
    pt_dense := Some vector; pt_payload := payload |}]> c]> (sv_collections s)) s)); done|].
  intros _ ? ->. apply writes_ret. intros _. split; [done|]. eexists. cbn [sv_collections set_collections]. rewrite lookup_insert_eq.
  split; [done|]. by rewrite lookup_insert_eq.
Qed.

Lemma ensure_collection_runs name now s : writes (ensure_collection name) now s (λ _ _, True).
Proof.
  unfold ensure_collection. eapply (writes_bind _ _ _ _ (λ _ _, True)); [by apply writes_ask|]. intros [[]|e] s' _; try by apply writes_ret.
  eapply (writes_bind _ _ _ _ (λ _ _, True)); [by apply writes_fault|]. intros [] s'' _; [by apply writes_ret|].
  eapply (writes_bind _ _ _ _ (λ _ _, True)); [by apply writes_on|]. intros [] s3 _. by apply writes_ret.
Qed.

Lemma EnsureDenseCollections_runs inc now s : writes (EnsureDenseCollections inc) now s (λ _ _, True).
Proof.
  unfold EnsureDenseCollections, CollectionName. case_match; [|by apply writes_ret].
  eapply writes_bind; [apply ensure_collection_runs|]. intros e s' _. case_match; [by apply writes_ret|].
  case_match; [apply ensure_collection_runs|by apply writes_ret].
Qed.

Lemma GetOrCreateID_writes ctx et id ns now s :
  writes (GetOrCreateID ctx et id ns) now s
    (λ r s', match r with
             | inl n => sv_ids s' !! (ns, et, id) = Some n ∧ RequireNamespaceLease ctx ns = []
             | inr e => e ≠ []
             end).
Proof.
  unfold GetOrCreateID. cbv zeta. destruct (RequireNamespaceLease ctx ns) as [|x e] eqn:El; cbn [nil_err negb]; [|by apply writes_ret].
  eapply (writes_bind _ _ _ _ (λ r s', s' = s ∧ match r with inl (Some n) => sv_ids s !! (ns, et, id) = Some n | inl None => True | inr e => e ≠ [] end)).
  { apply writes_ask; [done|]. split; [done|]. by destruct (sv_ids s !! (ns, et, id)). }
  intros [[n|]|e] ? [-> Hr]; [by apply writes_ret| |by apply writes_ret].
  eapply (writes_bind _ _ _ _ (λ _ s', s' = s)); [by apply writes_fault|]. intros [] ? ->; [by apply writes_ret|].
  eapply (writes_bind _ _ _ _ (λ x s', x = s ∧ s' = s)); [by apply (writes_gets (λ x, x))|]. intros ? ? [-> ->].
  eapply writes_bind; [apply (writes_on _ _ _ (λ _ s', sv_ids s' !! (ns, et, id) = Some (sv_next_id s))); apply lookup_insert_eq|].
  intros [] s' Hs. by apply writes_ret.
Qed.

Lemma storeEmbeddingActive_writes ctx ns entityID entityType vector createdAt l now s :
  ctx_lease ctx = Some l → lv_namespace l = ns →
  writes (storeEmbeddingActive ctx ns entityID entityType vector createdAt) now s
    (λ e s', e = [] → (∃ cfg, sv_configs s !! ns = Some cfg ∧ admissible cfg entityType vector) ∧
       embedded ns entityID entityType vector createdAt now (lv_generation l) s').
Proof.
  intros Hl Hln. unfold storeEmbeddingActive.
  eapply (writes_bind _ _ _ _ (λ r s', s' = s ∧ ∀ cfg, r = inl (Some cfg) → sv_configs s !! ns = Some cfg)).
  { apply writes_ask; [done|]. split; [done|]. by intros cfg [= ->]. }
  intros [[cfg|]|e] ? [-> Hcfg]; [|by apply writes_ret..]. specialize (Hcfg cfg eq_refl).
  destruct (_ && _) eqn:Hcat; [by apply writes_ret|]. destruct (_ && negb _) eqn:Hdim; [by apply writes_ret|]. cbv zeta.
  assert (admissible cfg entityType vector) as Had.
  { split.
    - intros [Hc ->]. rewrite Hc in Hcat. revert Hcat. by rewrite !bool_decide_eq_true_2 by done.
    - intros Hp. destruct (Z.ltb_spec 0 (cfg_EmbeddingDim cfg)); [|lia]. cbn in Hdim. apply negb_false_iff in Hdim. lia. }
  set (inc := match LeaseIncarnation ctx ns with (_, _) => _ end).
  eapply (writes_bind _ _ _ _ (λ _ _, True)); [apply EnsureDenseCollections_runs|]. intros e s1 _.
  destruct e as [|x e]; cbn [nil_err negb]; [|by apply writes_ret]. unfold CollectionName. fold (dense_kind entityType).
  destruct (Incarnation_MustPhysicalName inc (dense_kind entityType)) as [name|] eqn:Hname; [|by apply writes_ret].
  eapply writes_bind; [apply GetOrCreateID_writes|]. intros [n|e] s2; [|by intros He; apply writes_ret]. intros [Hn Hreq].
  eapply (writes_bind _ _ _ _ (λ t s', t = now ∧ s' = s2)); [by apply writes_gets_now|]. intros ? ? [-> ->].
  eapply writes_mono; [apply UpsertDensePoint_writes|]. intros e s3 Hup He. destruct (Hup He) as (Hids & coll & Hc & Hpt).
  split; [by exists cfg|]. exists name, n, coll. unfold inc in Hname. rewrite (leased_incarnation _ _ _ Hl Hln Hreq) in Hname.
  by rewrite Hids.
Qed.

(** Embeddings: a vector the service reports stored is finite in every
    coordinate, has the configured dimension, is not an object vector of a
    catalog namespace and not dated more than five minutes ahead; the namespace
    was active, and the vector is now the entity's point in the dense collection
    of that active generation, under the entity's registered id. *)
Theorem embedding_stored_under_lease svc meta ctx ns entityID entityType vector createdAt w :
  existing_lease ctx ns = None →
  let r := storeEmbedding {| rec_lifecycle := Some svc; rec_objectMeta := meta |} ctx ns entityID entityType vector createdAt w in
  r.1 = [] →
  forallb finiteScore vector = true ∧ (∀ t, createdAt = Some t → (t <= w_now w + maxObjectCreatedAtSkew)%Z) ∧
  ∃ row, l_rows (w_ledger w) !! ns = Some row ∧ r_state row = StateActive ∧
    (∃ cfg, sv_configs (w_ext w) !! ns = Some cfg ∧ admissible cfg entityType vector) ∧
    embedded ns entityID entityType vector createdAt (w_now w) (r_generation row) (w_ext r.2).
Proof.
  intros Hl. unfold storeEmbedding. destruct (forallb finiteScore vector) eqn:Hf; cbn [negb]; [|done].
  unfold bind, gets. cbv zeta. cbn [fst snd]. case_match eqn:Ht; [done|]. intros Hnil. split; [done|]. split.
  { intros t ->. apply Z.ltb_ge in Ht. lia. }
  apply (in_section_success svc ctx ns _ meta w (λ g s', (∃ cfg, sv_configs (w_ext w) !! ns = Some cfg ∧ admissible cfg entityType vector) ∧
    embedded ns entityID entityType vector createdAt (w_now w) g s') Hl) in Hnil; [exact Hnil|].
  intros row _ _. by apply (storeEmbeddingActive_writes _ ns entityID entityType vector createdAt
    {| lv_namespace := ns; lv_generation := r_generation row; lv_mode := LockShared |}).
Qed.

Lemma embedding_stored_under_lease_witness :
  let r := storeEmbedding {| rec_lifecycle := Some pair_service; rec_objectMeta := true |} background "demo" "new" "object"
             [f64_one; f64_zero] None (serving_world demo_serving) in
  (r.1, sv_ids (w_ext r.2) !! ("demo", "object", "new"), map_size <$> (sv_collections (w_ext r.2) !! "demo_g3_objects_dense")) =
    ([], Some 8%Z, Some 1%nat) ∧
  ∃ row, l_rows (w_ledger (serving_world demo_serving)) !! "demo" = Some row ∧ r_state row = StateActive ∧
    embedded "demo" "new" "object" [f64_one; f64_zero] None 1000 (r_generation row) (w_ext r.2).
Proof.
  split; [vm_compute; reflexivity|].
  destruct (embedding_stored_under_lease pair_service true background "demo" "new" "object" [f64_one; f64_zero] None
    (serving_world demo_serving)) as (_ & _ & row & Hr & Hs & _ & He).
  - reflexivity.
  - vm_compute. reflexivity.
  - exists row. split; [exact Hr|]. split; [exact Hs|exact He].
Defined.
