(* ===== verification/ComputeVectors.v ===== *)
(** * Scores and vectors of the batch job

    The pure part of [internal/compute]: the decayed scores of a subject, sparse
    vectors, the object co-occurrence matrix and its partition into passes
    ([service.go]), trending scores ([trending.go]), mean-pooled subject vectors
    ([user_dense.go]) and interaction sequences ([dense.go]). The iteration
    order of a Go map is an interface: any permutation of its entries. *)

From stdpp Require Import base tactics gmap sets strings list sorting.
From Stdlib Require Import ZArith SpecFloat Lia.
From S2P Require Import Prelude GoLib Float64 Scoring Strategy.

(** ** Go's library *)

Class GoRange := {
  range_map : ∀ {A : Type}, gmap Z A → list (Z * A);
  range_perm : ∀ {A : Type} (m : gmap Z A), range_map m ≡ₚ map_to_list m;
}.

(** [float64(v)] of a [float32]: exact. *)
Definition f64_of_f32 (x : float32) : float64 :=
  match x with
  | S754_finite s m e => binary_normalize f64_prec f64_emax (if s then Zneg m else Zpos m) e s
  | x => x
  end.

Definition f32_zero : float32 := S754_zero false.
Definition f32_div (x y : float32) : float32 := SFdiv f32_prec f32_emax x y.

(** The built-in [max(x, 0)]. *)
Definition max_zero (x : float64) : float64 :=
  if is_nan x then x else if f64_leb x f64_zero then f64_zero else x.

(** ** Events *)

Record RawEvent := {
  re_SubjectID : string;
  re_ObjectID : string;
  re_Action : string;
  re_Weight : float64;
  re_OccurredAt : Z;            (* Unix seconds *)
  re_ObjectCreatedAt : option Z;
}.

(** [if t > m[k] { m[k] = t }]: a missing entry reads as zero. *)
Definition raise_to `{Countable K} (k : K) (t : Z) (m : gmap K Z) : gmap K Z :=
  if (default 0 (m !! k) <? t)%Z then <[k := t]> m else m.

(** [m[k] += v] *)
Definition add_to {K A} `{Countable K} (add : A → A → A) (zero : A) (k : K) (v : A) (m : gmap K A) : gmap K A :=
  <[k := add (default zero (m !! k)) v]> m.

Record subjectScores := {
  ss_scores : gmap string float64;
  ss_maxTimes : gmap string Z;
  ss_createdTimes : gmap string Z;
}.

Section scores.
Context `{GoMath}.

(** Decay per [unit] seconds of age; an event of the future is fresh. *)
Definition decay (lambda : float64) (unit now at_ : Z) : float64 :=
  Exp (f64_mul (f64_neg lambda) (max_zero (f64_div (f64_of_Z (now - at_)) (f64_of_Z unit)))).

Definition score_event (lambda : float64) (now : Z) (sc : subjectScores) (e : RawEvent) : subjectScores :=
  {| ss_scores := add_to f64_add f64_zero (re_ObjectID e) (f64_mul (re_Weight e) (decay lambda 86400 now (re_OccurredAt e))) (ss_scores sc);
     ss_maxTimes := raise_to (re_ObjectID e) (re_OccurredAt e) (ss_maxTimes sc);
     ss_createdTimes := match re_ObjectCreatedAt e with
                        | Some t => raise_to (re_ObjectID e) t (ss_createdTimes sc)
                        | None => ss_createdTimes sc
                        end |}.

Definition scoreEvents (events : list RawEvent) (lambda : float64) (now : Z) : subjectScores :=
  foldl (score_event lambda now) {| ss_scores := ∅; ss_maxTimes := ∅; ss_createdTimes := ∅ |} events.

Definition trending_event (weights : gmap string float64) (lambda : float64) (windowSecs now : Z) (scores : gmap string float64) (e : RawEvent) : gmap string float64 :=
  if (windowSecs <? now - re_OccurredAt e)%Z then scores
  else add_to f64_add f64_zero (re_ObjectID e)
         (f64_mul (default f64_one (weights !! re_Action e)) (decay lambda 3600 now (re_OccurredAt e))) scores.

Definition TrendingScores (events : list RawEvent) (weights : gmap string float64) (lambda : float64) (windowHours now : Z) : gmap string float64 :=
  foldl (trending_event weights lambda (windowHours * 3600) now) ∅ events.
End scores.

(** ** Sparse vectors *)

Definition maxSparseIndex : Z := 2 ^ 32 - 1.

Definition sparseIndex (numericID : Z) : Z * bool :=
  if (maxSparseIndex <? numericID)%Z then (0%Z, false) else (numericID, true).

Abbreviation sparseEntry := (Z * float32)%type.

Definition l2Normalize (values : list float32) : list float32 :=
  let sum := foldl (λ s v, f64_add s (f64_mul (f64_of_f32 v) (f64_of_f32 v))) f64_zero values in
  if f64_eqb sum f64_zero then values
  else let norm := f64_sqrt sum in (λ v, f32_of_f64 (f64_div (f64_of_f32 v) norm)) <$> values.

Definition sparseVectorFrom `{GoSort} (entries : list sparseEntry) : list Z * list float32 :=
  let entries := sort_slice (λ a b, (a.1 <? b.1)%Z) entries in
  (entries.*1, l2Normalize entries.*2).

(** The dimensions that fit, in the order given. *)
Definition fitting (entries : list sparseEntry) : list sparseEntry :=
  filter (λ e, (sparseIndex e.1).2 = true) entries.

Record SubjectVector := {
  sv_SubjectID : string;
  sv_NumericID : Z;
  sv_Indices : list Z;
  sv_Values : list float32;
}.

Definition ErrNoObjectID : string := "no numeric id resolved for object".
Definition ErrNoDimension : string := "every dimension exceeds the uint32 sparse index space".

(** The loop over the scores: an object without an id is an error, one whose id
    does not fit is left out. *)
Fixpoint subject_entries (objectIDs : gmap string Z) (scores : list (string * float64)) : list sparseEntry + error :=
  match scores with
  | [] => inl []
  | (obj, score) :: rest =>
      match objectIDs !! obj with
      | None => inr [ErrNoObjectID]
      | Some n =>
          match subject_entries objectIDs rest with
          | inr e => inr e
          | inl entries => let '(index, fits) := sparseIndex n in inl (if fits then (index, f32_of_f64 score) :: entries else entries)
          end
      end
  end.

Definition buildSubjectVector `{GoSort} (subjectID : string) (subjectNumID : Z) (scores : gmap string float64) (objectIDs : gmap string Z) : SubjectVector + error :=
  match subject_entries objectIDs (map_to_list scores) with
  | inr e => inr e
  | inl entries =>
      if bool_decide (scores ≠ ∅) && bool_decide (entries = []) then inr [ErrNoDimension]
      else
        let '(indices, values) := sparseVectorFrom entries in
        inl {| sv_SubjectID := subjectID; sv_NumericID := subjectNumID; sv_Indices := indices; sv_Values := values |}
  end.

(** ** Co-occurrence *)

Abbreviation coEntry := (Z * float32)%type.

Record cooccurrence := {
  co_rows : list (list coEntry);
  co_keys : gmap Z string;
  co_maxTimes : gmap Z Z;
  co_createdTimes : gmap Z Z;
}.

Definition newCooccurrence : cooccurrence := {| co_rows := []; co_keys := ∅; co_maxTimes := ∅; co_createdTimes := ∅ |}.

Definition id_of (objectIDs : gmap string Z) (obj : string) : Z := default 0%Z (objectIDs !! obj).

Definition co_add (sc : subjectScores) (objectIDs : gmap string Z) (c : cooccurrence) : cooccurrence :=
  let entries := map_to_list (ss_scores sc) in
  let times (m : gmap string Z) (acc : gmap Z Z) :=
    foldl (λ acc kv, match m !! kv.1 with Some t => raise_to (id_of objectIDs kv.1) t acc | None => acc end) acc entries in
  {| co_rows := co_rows c ++ [(λ kv : string * float64, (id_of objectIDs kv.1, f32_of_f64 kv.2)) <$> entries];
     co_keys := foldl (λ acc kv, <[id_of objectIDs kv.1 := kv.1]> acc) (co_keys c) entries;
     co_maxTimes := times (ss_maxTimes sc) (co_maxTimes c);
     co_createdTimes := times (ss_createdTimes sc) (co_createdTimes c) |}.

Definition cooccurrenceBudget : Z := 10000000.

Definition row_load (load : gmap Z Z) (row : list coEntry) : gmap Z Z :=
  foldl (λ load (e : coEntry), add_to Z.add 0%Z e.1 (Z.of_nat (length row) - 1)%Z load) load row.

Definition loads (rows : list (list coEntry)) : gmap Z Z := foldl row_load ∅ rows.

Record packing := { pk_passOf : gmap Z nat; pk_passes : nat; pk_current : Z }.

Definition pack_step (budget : Z) (p : packing) (il : Z * Z) : packing :=
  let '(id, l) := il in
  let '(passes, current) :=
    if (0 <? pk_current p)%Z && (budget <? pk_current p + l)%Z then (S (pk_passes p), 0%Z) else (pk_passes p, pk_current p) in
  {| pk_passOf := <[id := passes]> (pk_passOf p); pk_passes := passes; pk_current := (current + l)%Z |}.

Definition pack (budget : Z) (order : list (Z * Z)) : packing :=
  foldl (pack_step budget) {| pk_passOf := ∅; pk_passes := 0; pk_current := 0 |} order.

Definition planPasses `{GoRange} (budget : Z) (rows : list (list coEntry)) : gmap Z nat * nat :=
  let p := pack budget (range_map (loads rows)) in (pk_passOf p, S (pk_passes p)).

Abbreviation matrix := (gmap Z (gmap Z float32)).

Definition co_contribute (target : Z) (m : matrix) (other : coEntry) : matrix :=
  if (other.1 =? target)%Z then m
  else <[target := add_to f32_add f32_zero other.1 other.2 (default ∅ (m !! target))]> m.

Definition co_target (passOf : gmap Z nat) (pass : nat) (row : list coEntry) (m : matrix) (target : coEntry) : matrix :=
  if bool_decide (default 0%nat (passOf !! target.1) = pass) then foldl (co_contribute target.1) m row else m.

Definition accumulate (passOf : gmap Z nat) (pass : nat) (rows : list (list coEntry)) : matrix :=
  foldl (λ m row, foldl (co_target passOf pass row) m row) ∅ rows.

(** ** Subject vectors *)

Fixpoint insert_sorted (s : string) (l : list string) : list string :=
  match l with
  | [] => [s]
  | x :: rest => if String.leb s x then s :: l else x :: insert_sorted s rest
  end.

(** [sort.Strings] orders by bytes. *)
Definition sort_strings (l : list string) : list string := foldr insert_sorted [] l.

Fixpoint distinct_objects (seen : gset string) (events : list RawEvent) : list string :=
  match events with
  | [] => []
  | e :: rest =>
      if decide (re_ObjectID e ∈ seen) then distinct_objects seen rest
      else re_ObjectID e :: distinct_objects ({[re_ObjectID e]} ∪ seen) rest
  end.

Definition interactedObjectIDs (events : list RawEvent) : list string := sort_strings (distinct_objects ∅ events).

(** [for d, v := range vec { sum[d] += v }]: a longer vector is a panic. *)
Fixpoint add_vec (sum vec : list float32) : option (list float32) :=
  match vec, sum with
  | [], _ => Some sum
  | v :: vec, s :: sum => (f32_add s v ::.) <$> add_vec sum vec
  | _ :: _, [] => None
  end.

Definition pool_event (itemVecs : gmap string (list float32)) (acc : gmap string (list float32 * nat)) (e : RawEvent) : option (gmap string (list float32 * nat)) :=
  match itemVecs !! re_ObjectID e with
  | None => Some acc
  | Some vec =>
      let '(sum, count) := default (replicate (length vec) f32_zero, 0%nat) (acc !! re_SubjectID e) in
      sum ← add_vec sum vec; Some (<[re_SubjectID e := (sum, S count)]> acc)
  end.

Fixpoint pool_events (itemVecs : gmap string (list float32)) (events : list RawEvent) (acc : gmap string (list float32 * nat)) : option (gmap string (list float32 * nat)) :=
  match events with
  | [] => Some acc
  | e :: rest => acc ← pool_event itemVecs acc e; pool_events itemVecs rest acc
  end.

Definition mean (sum : list float32) (count : nat) : list float32 := (λ v, f32_div v (f32_of_Z (Z.of_nat count))) <$> sum.

(** [None] is a panic. *)
Definition UserDenseVectors (events : list RawEvent) (itemVecs : gmap string (list float32)) : option (gmap string (list float32)) :=
  if decide (itemVecs = ∅) then Some ∅
  else (λ acc : gmap string (list float32 * nat), (λ a : list float32 * nat, mean a.1 a.2) <$> acc) <$> pool_events itemVecs events ∅.

(** ** Interaction sequences *)

Record InteractionSequence := { is_SubjectID : string; is_ObjectIDs : list string }.

Definition close_seq (seqs : list InteractionSequence) (cur : InteractionSequence) : list InteractionSequence :=
  if bool_decide (is_ObjectIDs cur = []) then seqs else seqs ++ [cur].

Fixpoint sequence_loop (seqs : list InteractionSequence) (cur : InteractionSequence) (events : list RawEvent) : list InteractionSequence :=
  match events with
  | [] => close_seq seqs cur
  | e :: rest =>
      let '(seqs, cur) := if bool_decide (re_SubjectID e = is_SubjectID cur) then (seqs, cur)
                          else (close_seq seqs cur, {| is_SubjectID := re_SubjectID e; is_ObjectIDs := [] |}) in
      sequence_loop seqs {| is_SubjectID := is_SubjectID cur; is_ObjectIDs := is_ObjectIDs cur ++ [re_ObjectID e] |} rest
  end.

Definition BuildInteractionSequences (events : list RawEvent) : list InteractionSequence :=
  match events with
  | [] => []
  | e :: _ => sequence_loop [] {| is_SubjectID := re_SubjectID e; is_ObjectIDs := [] |} events
  end.

(** ** Creation times *)

(** The instants [objectCreatedAtLookup] formats. *)
Definition objectCreatedAtLookup (events : list RawEvent) : gmap string Z :=
  let maxSeen := foldl (λ m e, raise_to (re_ObjectID e) (re_OccurredAt e) m) ∅ events in
  let explicit := foldl (λ m e, match re_ObjectCreatedAt e with Some t => raise_to (re_ObjectID e) t m | None => m end) ∅ events in
  omap (λ t : Z, if (0 <? t)%Z then Some t else None)
    (map_imap (λ id t, let et := default 0%Z (explicit !! id) in Some (if (0 <? et)%Z then et else t)) maxSeen).
