(* ===== verification/Cooccurrence.v ===== *)
(** * The co-occurrence matrix in passes

    Building the matrix pass by pass gives the matrix as it is defined, every
    target in exactly one pass, and no pass holds more entries than the budget
    unless one target alone does. *)

From stdpp Require Import base tactics gmap sets strings list sorting.
From Stdlib Require Import ZArith SpecFloat Lia.
From S2P Require Import Prelude GoLib Float64 Scoring Strategy ComputeVectors.

(** ** The matrix by definition *)

(** The scores of [other] in the rows that [target] is in too, by row. *)
Definition co_scores (rows : list (list coEntry)) (target other : Z) : list float32 :=
  rows ≫= λ row, if decide (target ∈ row.*1) then (filter (λ e, e.1 = other) row).*2 else [].

Definition co_cell (rows : list (list coEntry)) (target other : Z) : option float32 :=
  if decide (target = other ∨ co_scores rows target other = []) then None
  else Some (foldl f32_add f32_zero (co_scores rows target other)).

Definition cell (m : matrix) (target other : Z) : option float32 := row ← m !! target; row !! other.

(** Rows as [add] builds them: no object twice. *)
Definition rows_ok (rows : list (list coEntry)) : Prop := ∀ row, row ∈ rows → NoDup row.*1.

(** What folding more scores does to a cell. *)
Definition more (v : option float32) (scores : list float32) : option float32 :=
  match scores with [] => v | _ => Some (foldl f32_add (default f32_zero v) scores) end.

Lemma more_app v s1 s2 : more (more v s1) s2 = more v (s1 ++ s2).
Proof. destruct s1, s2; cbn; rewrite ?app_nil_r; try done. by rewrite foldl_app. Qed.

(** Rows that exist have entries. *)
Definition compact (m : matrix) : Prop := ∀ t row, m !! t = Some row → row ≠ ∅.

Lemma contribute_cell target row m t o :
  compact m →
  compact (foldl (co_contribute target) m row) ∧
  cell (foldl (co_contribute target) m row) t o =
    if decide (t = target ∧ o ≠ target) then more (cell m t o) (filter (λ e, e.1 = o) row).*2 else cell m t o.
Proof.
  revert m. induction row as [|[i s] row IH]; intros m Hc; cbn [foldl]; [by case_decide|].
  unfold co_contribute at 2 4. cbn [fst snd]. destruct (Z.eqb_spec i target) as [->|Hi].
  - destruct (IH m Hc) as [Hc' ->]. split; [done|]. case_decide as Hd; [|done]. destruct Hd as [-> Ho].
    rewrite filter_cons_False; [done|]. cbn. congruence.
  - set (m' := <[target := _]> m). assert (compact m') as Hm'.
    { intros t' r. subst m'. destruct (decide (t' = target)) as [->|Ht]; [rewrite lookup_insert_eq|rewrite lookup_insert_ne by done; by apply Hc].
      intros [= <-]. unfold add_to. apply insert_non_empty. }
    destruct (IH m' Hm') as [Hc' ->]. split; [done|].
    assert (cell m' t o = if decide (t = target ∧ o = i) then Some (f32_add (default f32_zero (cell m t o)) s) else cell m t o) as Hcell.
    { unfold cell. subst m'. destruct (decide (t = target)) as [->|Ht]; [|rewrite lookup_insert_ne by done; by rewrite decide_False by tauto].
      rewrite lookup_insert_eq. cbn. unfold add_to. destruct (decide (o = i)) as [->|Ho].
      - rewrite decide_True by done. rewrite lookup_insert_eq. by destruct (m !! target).
      - rewrite decide_False by tauto. rewrite lookup_insert_ne by done. by destruct (m !! target); cbn; rewrite ?lookup_empty. }
    rewrite Hcell. destruct (decide (t = target ∧ o ≠ target)) as [[-> Ho]|Hd].
    + destruct (decide (i = o)) as [->|Hio].
      * rewrite decide_True by done. rewrite filter_cons_True by done. rewrite fmap_cons. cbn [snd].
        exact (more_app (cell m target o) [s] _).
      * rewrite decide_False by naive_solver. by rewrite filter_cons_False.
    + rewrite decide_False; [done|]. intros [-> ->]. by apply Hd.
Qed.

(** One row: each of its targets of this pass gets its scores. *)
Lemma row_cell passOf pass row targets m t o :
  compact m → NoDup targets.*1 →
  let m' := foldl (co_target passOf pass row) m targets in
  compact m' ∧
  cell m' t o =
    if decide (t ∈ targets.*1 ∧ default 0%nat (passOf !! t) = pass ∧ o ≠ t) then more (cell m t o) (filter (λ e, e.1 = o) row).*2 else cell m t o.
Proof.
  revert m. induction targets as [|[i s] targets IH]; intros m Hc Hnd; cbn [foldl].
  { split; [done|]. rewrite decide_False; [done|]. by intros [?%elem_of_nil _]. }
  rewrite fmap_cons in Hnd. apply NoDup_cons in Hnd as [Hi Hnd]. cbn [fst] in Hi.
  assert (compact (co_target passOf pass row m (i, s)) ∧ cell (co_target passOf pass row m (i, s)) t o =
    if decide (t = i ∧ default 0%nat (passOf !! t) = pass ∧ o ≠ t) then more (cell m t o) (filter (λ e, e.1 = o) row).*2 else cell m t o) as [Hc1 H1].
  { unfold co_target. cbn [fst]. case_bool_decide as Hp.
    - destruct (contribute_cell i row m t o Hc) as [? ->]. split; [done|]. repeat case_decide; naive_solver.
    - split; [done|]. rewrite decide_False; [done|]. intros (-> & ? & _). done. }
  destruct (IH _ Hc1 Hnd) as [Hc2 ->]. split; [done|]. rewrite H1. rewrite fmap_cons. cbn [fst].
  destruct (decide (t ∈ targets.*1 ∧ _)) as [(Ht & Hp & Ho)|Hn].
  - rewrite decide_False by naive_solver. rewrite decide_True; [done|]. set_solver.
  - destruct (decide (t = i ∧ _)) as [(-> & Hp & Ho)|Hn']; [rewrite decide_True; [done|set_solver]|].
    rewrite decide_False; [done|]. rewrite elem_of_cons. naive_solver.
Qed.

Lemma accumulate_cell_from passOf pass rows m t o :
  compact m → rows_ok rows →
  let m' := foldl (λ m row, foldl (co_target passOf pass row) m row) m rows in
  compact m' ∧
  cell m' t o = if decide (default 0%nat (passOf !! t) = pass ∧ o ≠ t) then more (cell m t o) (co_scores rows t o) else cell m t o.
Proof.
  revert m. induction rows as [|row rows IH]; intros m Hc Hok; cbn [foldl]; [split; [done|]; by case_decide|].
  destruct (row_cell passOf pass row row m t o Hc) as [Hc1 H1]; [apply Hok; by left|].
  destruct (IH _ Hc1) as [Hc2 ->]; [intros r Hr; apply Hok; by right|]. split; [done|]. rewrite H1.
  destruct (decide (default 0%nat (passOf !! t) = pass ∧ o ≠ t)) as [[Hp Ho]|Hn].
  - unfold co_scores. cbn [mbind list_bind]. destruct (decide (t ∈ row.*1)) as [Ht|Ht].
    + rewrite decide_True by done. apply more_app.
    + rewrite decide_False by tauto. done.
  - rewrite decide_False by tauto. done.
Qed.

(** The rows of a pass are the rows of the matrix for its targets. *)
Lemma accumulate_cell passOf pass rows t o :
  rows_ok rows →
  cell (accumulate passOf pass rows) t o = if decide (default 0%nat (passOf !! t) = pass) then co_cell rows t o else None.
Proof.
  intros Hok. destruct (accumulate_cell_from passOf pass rows ∅ t o) as [_ H]; [by intros ? ? ?%lookup_empty_Some|done|].
  unfold accumulate. rewrite H. unfold co_cell. assert (cell ∅ t o = None) as -> by done.
  destruct (decide (default 0%nat (passOf !! t) = pass)) as [Hp|Hp].
  - destruct (decide (t = o)) as [->|Hto]; [rewrite decide_False by naive_solver; rewrite decide_True by auto; done|].
    rewrite decide_True by auto. destruct (co_scores rows t o); [by rewrite decide_True by auto|]. rewrite decide_False; [done|]. naive_solver.
  - rewrite decide_False by tauto. done.
Qed.

Lemma accumulate_compact passOf pass rows : rows_ok rows → compact (accumulate passOf pass rows).
Proof. intros Hok. apply (accumulate_cell_from passOf pass rows ∅ 0 0); [by intros ? ? ?%lookup_empty_Some|done]. Qed.

(** ** The plan *)

Definition pass_total (passOf : gmap Z nat) (order : list (Z * Z)) (p : nat) : Z :=
  foldr Z.add 0%Z (snd <$> filter (λ il, passOf !! il.1 = Some p) order).

(** A pass is within the budget, or one target carries all of its load. *)
Definition pass_ok (budget : Z) (passOf : gmap Z nat) (order : list (Z * Z)) (p : nat) : Prop :=
  (pass_total passOf order p <= budget)%Z ∨
  ∃ id, ∀ id' l, (id', l) ∈ order → passOf !! id' = Some p → id' ≠ id → l = 0%Z.

Record packed (budget : Z) (order : list (Z * Z)) (p : packing) : Prop := {
  pa_dom : ∀ id, is_Some (pk_passOf p !! id) ↔ id ∈ order.*1;
  pa_bound : ∀ id n, pk_passOf p !! id = Some n → (n <= pk_passes p)%nat;
  pa_current : pk_current p = pass_total (pk_passOf p) order (pk_passes p);
  pa_pos : (0 <= pk_current p)%Z;
  pa_zero : (pk_current p <= 0)%Z → ∀ id l, (id, l) ∈ order → pk_passOf p !! id = Some (pk_passes p) → l = 0%Z;
  pa_ok : ∀ q, pass_ok budget (pk_passOf p) order q;
}.

Lemma filter_agree {A} (P Q : A → Prop) `{!∀ x, Decision (P x), !∀ x, Decision (Q x)} (l : list A) :
  (∀ x, x ∈ l → P x ↔ Q x) → filter P l = filter Q l.
Proof.
  induction l as [|x l IH]; intros Hpq; [done|]. rewrite !filter_cons. rewrite IH by (intros y Hy; apply Hpq; by right).
  pose proof (Hpq x (list_elem_of_here _ _)). repeat case_decide; tauto.
Qed.

Lemma pass_total_snoc passOf order id l n q :
  id ∉ order.*1 → pass_total (<[id := n]> passOf) (order ++ [(id, l)]) q = (pass_total passOf order q + if decide (n = q) then l else 0)%Z.
Proof.
  intros Hid. unfold pass_total. rewrite filter_app, fmap_app.
  assert (filter (λ il, <[id:=n]> passOf !! il.1 = Some q) order = filter (λ il : Z * Z, passOf !! il.1 = Some q) order) as ->.
  { apply filter_agree. intros [i v] Hi. cbn. rewrite lookup_insert_ne; [done|]. intros ->. apply Hid, list_elem_of_fmap. by exists (i, v). }
  rewrite foldr_app.
  assert (∀ z l, foldr Z.add z l = (foldr Z.add 0 l + z)%Z) as Hf by (intros z k; induction k as [|a k IH]; cbn; [done|rewrite IH; lia]).
  rewrite Hf. destruct (decide (n = q)) as [->|Hn].
  - rewrite filter_cons_True by (cbn; by rewrite lookup_insert_eq). cbn. lia.
  - rewrite filter_cons_False; [cbn; lia|]. cbn. rewrite lookup_insert_eq. congruence.
Qed.

Lemma pass_total_fresh passOf order q : (∀ id n, passOf !! id = Some n → n ≠ q) → pass_total passOf order q = 0%Z.
Proof.
  intros Hq. unfold pass_total. rewrite (list_filter_none _ order); [done|]. intros [i v] _ Hi. by eapply Hq.
Qed.

Lemma pack_packed budget order :
  (0 <= budget)%Z → NoDup order.*1 → (∀ id l, (id, l) ∈ order → (0 <= l)%Z) → packed budget order (pack budget order).
Proof.
  intros Hb. induction order as [|[id l] order IH] using rev_ind; intros Hnd Hpos.
  { split; cbn; [|by intros ? ? ?%lookup_empty_Some|done|done|by intros _ ? ? ?%elem_of_nil|intros q; by left].
    intros id. rewrite elem_of_nil, lookup_empty. by split; [intros [? ?]|]. }
  rewrite fmap_app in Hnd. apply NoDup_app in Hnd as (Hnd & Hid & _).
  assert (id ∉ order.*1) as Hfresh by (intros Hin; apply (Hid _ Hin); set_solver).
  destruct IH as [Hdom Hbound Hcur Hcpos Hzero Hok]; [done|intros; apply (Hpos id0); set_solver|].
  assert (0 <= l)%Z as Hl by (apply (Hpos id); set_solver).
  unfold pack. rewrite foldl_app. cbn [foldl]. fold (pack budget order). set (p := pack budget order) in *.
  assert (∀ id' n, pk_passOf p !! id' = Some n → id' ≠ id) as Hne.
  { intros id' n Hs ->. apply Hfresh, Hdom. by eexists. }
  assert (∀ n id', is_Some (<[id:=n]> (pk_passOf p) !! id') ↔ id' ∈ (order ++ [(id, l)]).*1) as Hdom'.
  { intros n id'. rewrite fmap_app, elem_of_app, <- Hdom. destruct (decide (id' = id)) as [->|Hd].
    - rewrite lookup_insert_eq. set_solver.
    - rewrite lookup_insert_ne by done. set_solver. }
  assert (∀ n q, n ≠ q → pass_ok budget (<[id:=n]> (pk_passOf p)) (order ++ [(id, l)]) q) as Hother.
  { intros n q Hq. destruct (Hok q) as [Ht|(i & Hi)]; [left; rewrite pass_total_snoc by done; rewrite decide_False by done; lia|].
    right. exists i. intros i' l' [Hin|[= -> ->]%list_elem_of_singleton]%elem_of_app Hs Hn; [|rewrite lookup_insert_eq in Hs; congruence].
    eapply Hi; [done| |done]. rewrite lookup_insert_ne in Hs; [done|]. intros ->. apply Hfresh, list_elem_of_fmap. by exists (i', l'). }
  unfold pack_step. destruct ((0 <? pk_current p)%Z && (budget <? pk_current p + l)%Z) eqn:Hcond; cbn.
  - (* a new pass *)
    assert (pass_total (pk_passOf p) order (S (pk_passes p)) = 0%Z) as H0.
    { apply pass_total_fresh. intros i n Hn ->. apply Hbound in Hn. lia. }
    assert (∀ id' l', (id', l') ∈ order ++ [(id, l)] → <[id:=S (pk_passes p)]> (pk_passOf p) !! id' = Some (S (pk_passes p)) → id' = id ∧ l' = l) as Honly.
    { intros i' l' [Hin|[= -> ->]%list_elem_of_singleton]%elem_of_app Hs; [|done]. exfalso. destruct (decide (i' = id)) as [->|Hd].
      - apply Hfresh, list_elem_of_fmap. by exists (id, l').
      - rewrite lookup_insert_ne in Hs by done. apply Hbound in Hs. lia. }
    split; [apply Hdom'| | |cbn; lia| |]; cbn.
    + intros i n. destruct (decide (i = id)) as [->|Hd]; [rewrite lookup_insert_eq; intros [= <-]; lia|].
      rewrite lookup_insert_ne by done. intros Hs%Hbound. lia.
    + rewrite pass_total_snoc by done. rewrite decide_True by done. rewrite H0. lia.
    + intros Hz i l' Hin Hs. destruct (Honly i l' Hin Hs) as [_ ->]. lia.
    + intros q. destruct (decide (S (pk_passes p) = q)) as [<-|Hq]; [|by apply Hother]. right. exists id. intros i l' Hin Hs Hn.
      by destruct (Honly i l' Hin Hs).
  - split; [apply Hdom'| | |cbn; lia| |]; cbn.
    + intros i n. destruct (decide (i = id)) as [->|Hd]; [rewrite lookup_insert_eq; by intros [= <-]|].
      rewrite lookup_insert_ne by done. apply Hbound.
    + rewrite pass_total_snoc by done. rewrite decide_True by done. by rewrite Hcur.
    + intros Hz i l' [Hin|[= -> ->]%list_elem_of_singleton]%elem_of_app Hs; [|btests; lia].
      rewrite lookup_insert_ne in Hs by (intros ->; apply Hfresh, list_elem_of_fmap; by exists (i, l')). eapply Hzero; [lia|done|done].
    + intros q. destruct (decide (pk_passes p = q)) as [<-|Hq]; [|by apply Hother].
      destruct (Z.leb_spec (pk_current p + l) budget) as [Hle|Hgt].
      * left. rewrite pass_total_snoc by done. rewrite decide_True by done. rewrite <- Hcur. lia.
      * assert (pk_current p <= 0)%Z as Hc0 by (apply andb_false_iff in Hcond as [?%Z.ltb_ge|?%Z.ltb_ge]; lia).
        right. exists id. intros i l' [Hin|[= -> ->]%list_elem_of_singleton]%elem_of_app Hs Hn; [|done].
        rewrite lookup_insert_ne in Hs by done. by eapply Hzero.
Qed.

(** ** Loads *)

(** The entries a target can have: everything else in its rows. *)
Definition neighbours (rows : list (list coEntry)) (t : Z) : list Z :=
  rows ≫= λ row, if decide (t ∈ row.*1) then filter (.≠ t) row.*1 else [].

Lemma add_each_lookup (ids : list Z) (c : Z) (load : gmap Z Z) t :
  NoDup ids →
  let load' := foldl (λ load i, add_to Z.add 0%Z i c load) load ids in
  default 0%Z (load' !! t) = (default 0 (load !! t) + if decide (t ∈ ids) then c else 0)%Z ∧
  (is_Some (load' !! t) ↔ is_Some (load !! t) ∨ t ∈ ids).
Proof.
  revert load. induction ids as [|i ids IH]; intros load Hnd; cbn [foldl].
  { rewrite decide_False by (by intros ?%elem_of_nil). split; [lia|]. rewrite elem_of_nil. tauto. }
  apply NoDup_cons in Hnd as [Hi Hnd]. destruct (IH (add_to Z.add 0%Z i c load) Hnd) as [-> ->]. unfold add_to.
  destruct (decide (t = i)) as [->|Ht].
  - rewrite lookup_insert_eq. cbn. rewrite decide_False by done. rewrite decide_True by (by left). split; [lia|].
    split; intros _; [right; by left|left; by eexists].
  - rewrite lookup_insert_ne by done. split; [|rewrite elem_of_cons; tauto]. f_equal. destruct (decide (t ∈ ids)); [by rewrite decide_True by (by right)|].
    rewrite decide_False; [done|]. rewrite elem_of_cons. tauto.
Qed.

Lemma row_load_each load row : row_load load row = foldl (λ load i, add_to Z.add 0%Z i (Z.of_nat (length row) - 1)%Z load) load row.*1.
Proof.
  unfold row_load. generalize (Z.of_nat (length row) - 1)%Z. intros c. revert load. induction row as [|e row IH]; intros load; [done|].
  cbn [foldl]. rewrite fmap_cons. cbn [foldl]. apply IH.
Qed.

Lemma length_filter_ne (t : Z) l : NoDup l → t ∈ l → (Z.of_nat (length (filter (.≠ t) l)) = Z.of_nat (length l) - 1)%Z.
Proof.
  induction l as [|x l IH]; intros Hnd Hin; [by apply elem_of_nil in Hin|]. apply NoDup_cons in Hnd as [Hx Hnd].
  destruct (decide (x = t)) as [->|Hne].
  - rewrite filter_cons_False by tauto. assert (filter (.≠ t) l = l) as ->; [|cbn; lia].
    transitivity (filter (λ _ : Z, True) l); [apply filter_agree; intros y Hy; split; [done|]; by intros _ ->|].
    clear. induction l as [|y l IH]; [done|]. rewrite filter_cons_True by done. by rewrite IH.
  - rewrite filter_cons_True by done. apply elem_of_cons in Hin as [->|Hin]; [done|]. cbn. rewrite !Nat2Z.inj_succ, IH by done. lia.
Qed.

Lemma loads_spec rows t :
  rows_ok rows →
  default 0%Z (loads rows !! t) = Z.of_nat (length (neighbours rows t)) ∧
  (is_Some (loads rows !! t) ↔ ∃ row, row ∈ rows ∧ t ∈ row.*1).
Proof.
  intros Hok. unfold loads.
  enough (∀ load, default 0%Z (foldl row_load load rows !! t) = (default 0 (load !! t) + Z.of_nat (length (neighbours rows t)))%Z ∧
    (is_Some (foldl row_load load rows !! t) ↔ is_Some (load !! t) ∨ ∃ row, row ∈ rows ∧ t ∈ row.*1)) as H.
  { destruct (H ∅) as [-> ->]. rewrite lookup_empty. split; [done|]. split; [intros [[? ?]|?]; done|auto]. }
  induction rows as [|row rows IH]; intros load; cbn [foldl].
  { cbn. split; [lia|]. split; [auto|]. intros [?|(? & ?%elem_of_nil & _)]; done. }
  assert (NoDup row.*1) as Hnd by (apply Hok; by left).
  destruct (IH ltac:(intros r Hr; apply Hok; by right) (row_load load row)) as [-> ->]. rewrite row_load_each.
  destruct (add_each_lookup row.*1 (Z.of_nat (length row) - 1) load t Hnd) as [-> ->]. unfold neighbours. cbn [mbind list_bind].
  fold (neighbours rows t). rewrite length_app. split.
  - case_decide as Ht; [|cbn; lia]. pose proof (length_filter_ne t row.*1 Hnd Ht) as Hl. rewrite length_fmap in Hl. lia.
  - set_solver.
Qed.

(** ** Entries *)

Definition row_size (m : matrix) (t : Z) : nat := size (default ∅ (m !! t)).

Lemma co_scores_nonempty rows t o : co_scores rows t o ≠ [] → ∃ row, row ∈ rows ∧ t ∈ row.*1 ∧ o ∈ row.*1.
Proof.
  intros Hne. destruct (co_scores rows t o) as [|s l] eqn:E; [done|].
  assert (s ∈ co_scores rows t o) as Hs by (rewrite E; by left). apply list_elem_of_bind in Hs as (row & Hs & Hrow). exists row. split; [done|].
  case_decide as Ht; [|by apply elem_of_nil in Hs]. split; [done|]. apply list_elem_of_fmap in Hs as ([i v] & _ & [Hi Hin]%list_elem_of_filter).
  apply list_elem_of_fmap. exists (i, v). done.
Qed.

Lemma co_cell_neighbour rows t o : is_Some (co_cell rows t o) → o ∈ neighbours rows t.
Proof.
  unfold co_cell. case_decide as Hd; [by intros [? ?]|]. intros _. destruct (co_scores_nonempty rows t o) as (row & Hrow & Ht & Ho); [tauto|].
  unfold neighbours. apply list_elem_of_bind. exists row. split; [|done]. rewrite decide_True by done. apply list_elem_of_filter. split; [|done].
  intros ->. apply Hd. by left.
Qed.

Lemma size_list_to_set_le (l : list Z) : (size (list_to_set l : gset Z) <= length l)%nat.
Proof.
  induction l as [|x l IH]; [done|]. cbn [list_to_set length]. pose proof (size_union_alt (C := gset Z) {[x]} (list_to_set l)) as H.
  rewrite H, size_singleton. pose proof (subseteq_size (list_to_set l ∖ {[x]}) (list_to_set l : gset Z) ltac:(set_solver)). lia.
Qed.

Lemma row_size_le passOf p rows t : rows_ok rows → (row_size (accumulate passOf p rows) t <= length (neighbours rows t))%nat.
Proof.
  intros Hok. unfold row_size. rewrite <- size_dom. etransitivity; [|apply size_list_to_set_le]. apply subseteq_size. intros o Ho.
  apply elem_of_list_to_set, co_cell_neighbour. pose proof (accumulate_cell passOf p rows t o Hok) as Hc. unfold cell in Hc.
  apply elem_of_dom in Ho as [v Hv]. destruct (accumulate passOf p rows !! t) as [row|]; cbn in Hc, Hv; [|by rewrite lookup_empty in Hv].
  rewrite Hv in Hc. case_decide; [rewrite <- Hc; by eexists|done].
Qed.

(** A target with a row has it in the pass it is planned for. *)
Lemma accumulate_planned passOf p rows t :
  rows_ok rows → is_Some (accumulate passOf p rows !! t) →
  default 0%nat (passOf !! t) = p ∧ neighbours rows t ≠ [] ∧ ∃ row, row ∈ rows ∧ t ∈ row.*1.
Proof.
  intros Hok [row Hrow]. pose proof (accumulate_compact passOf p rows Hok t row Hrow) as Hne.
  apply map_choose in Hne as (o & v & Hv). pose proof (accumulate_cell passOf p rows t o Hok) as Hc. unfold cell in Hc.
  rewrite Hrow in Hc. cbn in Hc. rewrite Hv in Hc. case_decide as Hp; [|done]. split; [done|].
  assert (is_Some (co_cell rows t o)) as Hs by (rewrite <- Hc; by eexists). split.
  - intros Hnil. apply co_cell_neighbour in Hs. rewrite Hnil in Hs. by apply elem_of_nil in Hs.
  - unfold co_cell in Hs. case_decide as Hd; [by destruct Hs|]. destruct (co_scores_nonempty rows t o) as (r & ? & ? & _); [tauto|]. by exists r.
Qed.

Lemma sum_subset {A} (f : A → nat) (g : A → Z) (l1 l2 : list A) :
  NoDup l1 → (∀ x, x ∈ l1 → x ∈ l2) → (∀ x, x ∈ l2 → (Z.of_nat (f x) <= g x)%Z) →
  (Z.of_nat (sum_list_with f l1) <= foldr Z.add 0 (g <$> l2))%Z.
Proof.
  intros Hnd Hsub Hle. assert (l1 ⊆+ l2) as (k & Hk)%submseteq_Permutation by (by apply NoDup_submseteq).
  assert (∀ l, (∀ x, x ∈ l → (Z.of_nat (f x) <= g x)%Z) → (Z.of_nat (sum_list_with f l) <= foldr Z.add 0 (g <$> l))%Z) as Hall.
  { induction l as [|x l IH]; intros H; [done|]. cbn [sum_list_with]. rewrite fmap_cons. cbn [foldr]. pose proof (H x ltac:(by left)).
    pose proof (IH ltac:(intros y Hy; apply H; by right)). lia. }
  etransitivity; [|apply Hall, Hle]. rewrite Hk, sum_list_with_app. lia.
Qed.

(** The map entries a pass holds. *)
Definition entries (m : matrix) : nat := sum_list_with (row_size m) (elements (dom m)).

Section plan.
Context `{GoRange}.

Lemma order_elem {A} (m : gmap Z A) k v : (k, v) ∈ range_map m ↔ m !! k = Some v.
Proof. rewrite range_perm. apply elem_of_map_to_list. Qed.

Lemma plan_packed budget rows : (0 <= budget)%Z → rows_ok rows → packed budget (range_map (loads rows)) (pack budget (range_map (loads rows))).
Proof.
  intros Hb Hok. apply pack_packed; [done| |].
  - rewrite range_perm. apply NoDup_fst_map_to_list.
  - intros id l Hin%order_elem. pose proof (proj1 (loads_spec rows id Hok)) as Hl. rewrite Hin in Hl. cbn in Hl. lia.
Qed.

Lemma entries_le_total budget rows p :
  (0 <= budget)%Z → rows_ok rows →
  let pk := pack budget (range_map (loads rows)) in
  (Z.of_nat (entries (accumulate (pk_passOf pk) p rows)) <= pass_total (pk_passOf pk) (range_map (loads rows)) p)%Z.
Proof.
  intros Hb Hok pk. unfold pass_total, entries. pose proof (plan_packed budget rows Hb Hok) as Hpk. fold pk in Hpk.
  set (order := range_map (loads rows)) in *. set (planned := filter (λ il : Z * Z, pk_passOf pk !! il.1 = Some p) order).
  assert (planned.*2 = (λ t, default 0%Z (loads rows !! t)) <$> planned.*1) as ->.
  { rewrite <- list_fmap_compose. apply list_fmap_ext. intros i [t l] Hi%list_elem_of_lookup_2. cbn.
    apply list_elem_of_filter in Hi as [_ Hi%order_elem]. by rewrite Hi. }
  apply sum_subset; [apply NoDup_elements| |].
  - intros t Ht%elem_of_elements%elem_of_dom. destruct (accumulate_planned _ _ _ _ Hok Ht) as (Hp & _ & Hrow).
    apply (loads_spec rows t Hok) in Hrow as [l Hl]. apply list_elem_of_fmap. exists (t, l). split; [done|].
    apply list_elem_of_filter. split; [|by apply order_elem]. cbn. destruct (pk_passOf pk !! t) as [n|] eqn:En; [cbn in Hp; by subst|].
    assert (is_Some (pk_passOf pk !! t)) as [? ?]; [|congruence]. apply (pa_dom _ _ _ Hpk), list_elem_of_fmap. exists (t, l). split; [done|by apply order_elem].
  - intros t _. rewrite (proj1 (loads_spec rows t Hok)). apply inj_le, row_size_le, Hok.
Qed.

(** C26: Building co-occurrence in passes, whatever order the map of loads is
    walked in: every object has all of its row in one of the passes, exactly as
    the matrix is defined (the sums over the subjects' rows, in row order), and
    nothing of it in any other; and a pass holds at most the budget of entries
    unless it holds the row of a single object. *)
Theorem cooccurrence_in_passes budget rows :
  (0 <= budget)%Z → rows_ok rows →
  let '(passOf, passes) := planPasses budget rows in
  (∀ t, ∃ p, (p < passes)%nat ∧ (∀ o, cell (accumulate passOf p rows) t o = co_cell rows t o) ∧
     ∀ q, q ≠ p → accumulate passOf q rows !! t = None) ∧
  (∀ p, (Z.of_nat (entries (accumulate passOf p rows)) <= budget)%Z ∨
     ∃ t, ∀ t', is_Some (accumulate passOf p rows !! t') → t' = t).
Proof.
  intros Hb Hok. unfold planPasses. pose proof (plan_packed budget rows Hb Hok) as Hpk. cbv zeta in *.
  set (pk := pack budget (range_map (loads rows))) in *. split.
  - intros t. exists (default 0%nat (pk_passOf pk !! t)). split.
    { destruct (pk_passOf pk !! t) as [n|] eqn:E; cbn; [apply (pa_bound _ _ _ Hpk) in E; lia|lia]. }
    split; [intros o; rewrite accumulate_cell by done; by rewrite decide_True|]. intros q Hq.
    destruct (accumulate (pk_passOf pk) q rows !! t) as [r|] eqn:E; [|done].
    destruct (accumulate_planned (pk_passOf pk) q rows t Hok) as [Hp _]; [by eexists|]. done.
  - intros p. destruct (pa_ok _ _ _ Hpk p) as [Hle|(t & Ht)]; [left|right].
    + etransitivity; [apply (entries_le_total budget rows p Hb Hok)|done].
    + exists t. intros t' Ht'. destruct (accumulate_planned _ _ _ _ Hok Ht') as (Hp & Hne & Hrow). destruct (loads_spec rows t' Hok) as [Hl Hs].
      apply Hs in Hrow as [l El]. rewrite El in Hl. cbn in Hl. destruct (decide (t' = t)) as [->|Hd]; [done|]. exfalso.
      assert (l = 0%Z) as ->; [|destruct (neighbours rows t'); [done|cbn in Hl; lia]]. apply (Ht t' l); [by apply order_elem| |done].
      assert (is_Some (pk_passOf pk !! t')) as [n En]; [|rewrite En in Hp |- *; cbn in Hp; congruence].
      apply (pa_dom _ _ _ Hpk), list_elem_of_fmap. exists (t', l). split; [done|by apply order_elem].
Qed.
End plan.

(** ** Witness *)

#[local] Instance canonical_range : GoRange := {| range_map A m := map_to_list m; range_perm A m := reflexivity _ |}.

Definition sample_rows : list (list coEntry) :=
  let s := f32_of_Z 1 in [[(1%Z, s); (2%Z, s); (3%Z, s)]; [(2%Z, s); (3%Z, s)]; [(4%Z, s)]].

Lemma cooccurrence_in_passes_witness :
  (planPasses 3 sample_rows).2 = 3%nat ∧
  ∃ p, (p < 3)%nat ∧ ∀ o, cell (accumulate (planPasses 3 sample_rows).1 p sample_rows) 2%Z o = co_cell sample_rows 2%Z o.
Proof.
  split; [vm_compute; reflexivity|].
  assert (rows_ok sample_rows) as Hok.
  { intros row Hrow. apply (bool_decide_unpack _). unfold sample_rows in Hrow.
    repeat (apply elem_of_cons in Hrow as [->|Hrow]; [vm_compute; exact I|]). by apply elem_of_nil in Hrow. }
  destruct (cooccurrence_in_passes 3 sample_rows ltac:(lia) Hok) as [Hpart _]. destruct (Hpart 2%Z) as (p & Hp & Hc & _). by exists p.
Defined.
