(* ===== verification/VectorFacts.v ===== *)
(** * What the vectors hold

    A subject's sparse vector holds exactly its scored objects, one dimension
    each, in ascending order; folded scores are the sums over the events of an
    object; a pooled vector is the mean of its items' vectors; interaction
    sequences are the events cut by subject. *)

From stdpp Require Import base tactics gmap sets strings list sorting.
From Stdlib Require Import ZArith SpecFloat Lia.
From S2P Require Import Prelude GoLib Float64 Scoring Strategy ServingSamples ComputeVectors Cooccurrence.

(** ** Folding into a map *)

Section fold.
Context {E K A : Type} `{Countable K}.
Context (key : E → K) (val : E → A) (add : A → A → A) (zero : A).

(** The values of one key, folded in order. *)
Definition folded (k : K) (l : list E) : option A :=
  match filter (λ e, key e = k) l with [] => None | es => Some (foldl add zero (val <$> es)) end.

Lemma folded_cons_ne k e l : key e ≠ k → folded k (e :: l) = folded k l.
Proof. intros Hk. unfold folded. by rewrite filter_cons_False. Qed.

Lemma fold_add_to_lookup l m k :
  foldl (λ m e, add_to add zero (key e) (val e) m) m l !! k =
    match filter (λ e, key e = k) l with [] => m !! k | es => Some (foldl add (default zero (m !! k)) (val <$> es)) end.
Proof.
  revert m. induction l as [|e l IH]; intros m; [done|]. cbn [foldl]. rewrite IH. unfold add_to. destruct (decide (key e = k)) as [Hk|Hk].
  - rewrite (filter_cons_True _ e) by done. rewrite Hk, lookup_insert_eq. cbn. by destruct (filter _ l).
  - rewrite (filter_cons_False _ e) by done. by rewrite lookup_insert_ne.
Qed.

Lemma fold_add_to l k : foldl (λ m e, add_to add zero (key e) (val e) m) ∅ l !! k = folded k l.
Proof. rewrite fold_add_to_lookup, lookup_empty. unfold folded. by destruct (filter _ l). Qed.
End fold.

(** The largest positive instant of a key. *)
Lemma fold_raise_to {E} `{Countable K} (key : E → K) (val : E → Z) (l : list E) (m : gmap K Z) k :
  (∀ i t, m !! i = Some t → (0 < t)%Z) →
  let m' := foldl (λ m e, raise_to (key e) (val e) m) m l in
  (∀ i t, m' !! i = Some t → (0 < t)%Z) ∧
  default 0%Z (m' !! k) = foldr Z.max (default 0 (m !! k))%Z (val <$> filter (λ e, key e = k) l).
Proof.
  revert m. induction l as [|e l IH]; intros m Hm; [done|]. cbn [foldl].
  assert (∀ i t, raise_to (key e) (val e) m !! i = Some t → (0 < t)%Z) as Hm'.
  { intros i t. unfold raise_to. destruct (Z.ltb_spec (default 0 (m !! key e)) (val e))%Z as [Hlt|Hge]; [|apply Hm].
    destruct (decide (i = key e)) as [->|Hi]; [rewrite lookup_insert_eq; intros [= <-]|rewrite lookup_insert_ne by done; apply Hm].
    destruct (m !! key e) as [u|] eqn:Eu; cbn in Hlt; [apply Hm in Eu|]; lia. }
  destruct (IH _ Hm') as [Hpos ->]. split; [done|].
  assert (∀ a z l, foldr Z.max (Z.max a z) l = Z.max a (foldr Z.max z l)) as Hf by (intros a z q; induction q as [|b q IHq]; cbn; [done|rewrite IHq; lia]).
  destruct (decide (key e = k)) as [Hk|Hk].
  - rewrite filter_cons_True by done. rewrite fmap_cons. cbn [foldr]. rewrite <- Hf. f_equal. unfold raise_to. rewrite Hk.
    destruct (Z.ltb_spec (default 0 (m !! k)) (val e))%Z; [rewrite lookup_insert_eq; cbn; lia|lia].
  - rewrite filter_cons_False by done. f_equal. f_equal. unfold raise_to. destruct (_ <? _)%Z; [by rewrite lookup_insert_ne|done].
Qed.

(** ** Scores *)

Section scores.
Context `{GoMath}.

Definition score_of (lambda : float64) (now : Z) (e : RawEvent) : float64 := f64_mul (re_Weight e) (decay lambda 86400 now (re_OccurredAt e)).

Lemma scoreEvents_split events lambda now :
  scoreEvents events lambda now =
  {| ss_scores := foldl (λ m e, add_to f64_add f64_zero (re_ObjectID e) (score_of lambda now e) m) ∅ events;
     ss_maxTimes := foldl (λ m e, raise_to (re_ObjectID e) (re_OccurredAt e) m) ∅ events;
     ss_createdTimes := foldl (λ m e, match re_ObjectCreatedAt e with Some t => raise_to (re_ObjectID e) t m | None => m end) ∅ events |}.
Proof.
  unfold scoreEvents. enough (∀ sc, foldl (score_event lambda now) sc events =
    {| ss_scores := foldl (λ m e, add_to f64_add f64_zero (re_ObjectID e) (score_of lambda now e) m) (ss_scores sc) events;
       ss_maxTimes := foldl (λ m e, raise_to (re_ObjectID e) (re_OccurredAt e) m) (ss_maxTimes sc) events;
       ss_createdTimes := foldl (λ m e, match re_ObjectCreatedAt e with Some t => raise_to (re_ObjectID e) t m | None => m end) (ss_createdTimes sc) events |}) as ->
    by done.
  induction events as [|e events IH]; intros sc; [by destruct sc|]. cbn [foldl]. by rewrite IH.
Qed.

(** A score is the sum over the object's events, in their order. *)
Lemma scoreEvents_score events lambda now obj :
  ss_scores (scoreEvents events lambda now) !! obj = folded re_ObjectID (score_of lambda now) f64_add f64_zero obj events.
Proof. rewrite scoreEvents_split. apply (fold_add_to re_ObjectID). Qed.

Lemma scoreEvents_dom events lambda now obj :
  is_Some (ss_scores (scoreEvents events lambda now) !! obj) ↔ ∃ e, e ∈ events ∧ re_ObjectID e = obj.
Proof.
  rewrite scoreEvents_score. unfold folded. destruct (filter (λ e, re_ObjectID e = obj) events) as [|e es] eqn:Ef.
  - split; [by intros [? ?]|]. intros (e & He & Ho). assert (e ∈ filter (λ e, re_ObjectID e = obj) events) as Hin by (by apply list_elem_of_filter).
    rewrite Ef in Hin. by apply elem_of_nil in Hin.
  - split; [|by eexists]. intros _. exists e. assert (e ∈ filter (λ e, re_ObjectID e = obj) events) as [Ho He]%list_elem_of_filter by (rewrite Ef; by left). done.
Qed.

Definition in_window (windowSecs now : Z) (e : RawEvent) : Prop := (now - re_OccurredAt e <= windowSecs)%Z.

#[global] Instance in_window_dec windowSecs now e : Decision (in_window windowSecs now e).
Proof. unfold in_window. apply _. Defined.

(** Trending: the same over the events of the window. *)
Lemma TrendingScores_score events weights lambda windowHours now obj :
  TrendingScores events weights lambda windowHours now !! obj =
  folded re_ObjectID (λ e, f64_mul (default f64_one (weights !! re_Action e)) (decay lambda 3600 now (re_OccurredAt e))) f64_add f64_zero obj
    (filter (in_window (windowHours * 3600) now) events).
Proof.
  rewrite <- (fold_add_to re_ObjectID). unfold TrendingScores. generalize (∅ : gmap string float64).
  induction events as [|e events IH]; intros m; [done|]. cbn [foldl]. rewrite filter_cons. unfold trending_event at 2.
  destruct (Z.ltb_spec (windowHours * 3600) (now - re_OccurredAt e)); [rewrite decide_False by (unfold in_window; lia)|rewrite decide_True by (unfold in_window; lia)]; apply IH.
Qed.
End scores.

(** ** Sparse vectors *)

Section sparse.
Context `{GoSort}.

Lemma sort_by_index entries :
  NoDup (entries : list sparseEntry).*1 →
  let sorted := sort_slice (λ a b, (a.1 <? b.1)%Z) entries in
  sorted ≡ₚ entries ∧ StronglySorted Z.lt sorted.*1.
Proof.
  intros Hnd sorted. pose proof (sort_slice_perm (λ a b : sparseEntry, (a.1 <? b.1)%Z) entries) as Hp. fold sorted in Hp. split; [done|].
  assert (Sorted (λ a b, (b.1 <? a.1)%Z = false) sorted) as Hs.
  { apply sort_slice_sorted. split; [intros a b _ _ Hab%Z.ltb_lt; apply Z.ltb_ge; lia|intros a b c _ _ _ Hab%Z.ltb_ge Hbc%Z.ltb_ge; apply Z.ltb_ge; lia]. }
  assert (NoDup sorted.*1) as Hnd' by (by rewrite Hp).
  assert (StronglySorted (λ a b : sparseEntry, (a.1 <= b.1)%Z) sorted) as Hss.
  { apply Sorted_StronglySorted; [intros a b c; lia|]. clear -Hs. induction Hs as [|a l _ IH Hd]; constructor; [done|]. destruct Hd as [|b l' Hb]; constructor. btests. lia. }
  clear Hs Hp. revert Hss Hnd'. clear. induction sorted as [|[i v] l IH]; intros Hss Hnd; [constructor|].
  apply StronglySorted_inv in Hss as [Hss Hall]. rewrite fmap_cons in Hnd |- *. apply NoDup_cons in Hnd as [Hi Hnd]. constructor; [by apply IH|].
  apply Forall_fmap, Forall_forall. intros [j u] Hj. cbn. rewrite Forall_forall in Hall. specialize (Hall _ Hj). cbn in *.
  assert (i ≠ j); [|lia]. intros ->. apply Hi, list_elem_of_fmap. by exists (j, u).
Qed.

Lemma length_l2Normalize values : length (l2Normalize values) = length values.
Proof. unfold l2Normalize. case_match; [done|]. by rewrite length_fmap. Qed.

Lemma sparseIndex_cases n : sparseIndex n = (n, true) ∧ (n <= maxSparseIndex)%Z ∨ sparseIndex n = (0%Z, false) ∧ (maxSparseIndex < n)%Z.
Proof. unfold sparseIndex. destruct (Z.ltb_spec maxSparseIndex n); auto. Qed.

(** The entries of the scores whose ids fit. *)
Lemma subject_entries_spec ids scores :
  match subject_entries ids scores with
  | inr e => ∃ obj, obj ∈ scores.*1 ∧ ids !! obj = None
  | inl entries =>
      (∀ obj, obj ∈ scores.*1 → is_Some (ids !! obj)) ∧
      (∀ i v, (i, v) ∈ entries ↔ ∃ obj s, (obj, s) ∈ scores ∧ ids !! obj = Some i ∧ (i <= maxSparseIndex)%Z ∧ v = f32_of_f64 s)
  end.
Proof.
  induction scores as [|[obj s] scores IH]; cbn [subject_entries].
  { split; [by intros ? ?%elem_of_nil|]. intros i v. split; [by intros ?%elem_of_nil|]. by intros (? & ? & ?%elem_of_nil & _). }
  destruct (ids !! obj) as [n|] eqn:En; [|exists obj; split; [by left|done]].
  destruct (subject_entries ids scores) as [entries|e]; [|destruct IH as (o & Ho & Hn); exists o; split; [by right|done]]. destruct IH as [Hall Hin].
  destruct (sparseIndex_cases n) as [[-> Hn]|[-> Hn]]; (split; [intros o [->|Ho]%elem_of_cons; [by eexists|by apply Hall]|]); intros i v.
  - rewrite elem_of_cons, Hin. split.
    + intros [[= -> ->]|(o & u & Hou & ?)]; [exists obj, s; split; [by left|done]|exists o, u; split; [by right|done]].
    + intros (o & u & [[= -> ->]|Hou]%elem_of_cons & Ho & Hi & ->); [left; congruence|right; by exists o, u].
  - rewrite Hin. split.
    + intros (o & u & Hou & ?). exists o, u. split; [by right|done].
    + intros (o & u & [[= -> ->]|Hou]%elem_of_cons & Ho & Hi & ->); [|by exists o, u]. rewrite En in Ho. simplify_eq. lia.
Qed.

Lemma subject_entries_nodup ids scores entries :
  (∀ a b k, ids !! a = Some k → ids !! b = Some k → a = b) → NoDup scores.*1 → subject_entries ids scores = inl entries → NoDup entries.*1.
Proof.
  intros Hinj. revert entries. induction scores as [|[obj s] scores IH]; intros entries Hnd; cbn [subject_entries]; [intros [= <-]; constructor|].
  rewrite fmap_cons in Hnd. apply NoDup_cons in Hnd as [Hobj Hnd]. destruct (ids !! obj) as [n|] eqn:En; [|done].
  pose proof (subject_entries_spec ids scores) as Hspec. destruct (subject_entries ids scores) as [es|] eqn:Ees; [|done]. destruct Hspec as [_ Hin].
  destruct (sparseIndex_cases n) as [[-> Hn]|[-> Hn]]; intros [= <-]; [|by apply IH]. rewrite fmap_cons. apply NoDup_cons. split; [|by apply IH].
  intros ([i v] & Heq & Hiv)%list_elem_of_fmap. cbn in Heq. subst i. apply Hin in Hiv as (o & u & Ho & Hid & _). assert (o = obj) as -> by (by eapply Hinj).
  apply Hobj, list_elem_of_fmap. by exists (obj, u).
Qed.

(** A subject's sparse vector, for any sorting and any walk over the maps:
    given distinct ids for distinct objects it has one dimension for every
    scored object whose id fits an unsigned 32-bit index, none for any other, in
    strictly ascending order, and the values are the scores of these objects,
    normalised together. It is refused exactly when an object has no id or no
    id fits. *)
Theorem subject_vector_exact subject n scores ids :
  (∀ a b k, ids !! a = Some k → ids !! b = Some k → a = b) →
  match buildSubjectVector subject n scores ids with
  | inl v =>
      sv_SubjectID v = subject ∧ sv_NumericID v = n ∧ StronglySorted Z.lt (sv_Indices v) ∧
      (∀ i, i ∈ sv_Indices v ↔ ∃ obj, is_Some (scores !! obj) ∧ ids !! obj = Some i ∧ (i <= maxSparseIndex)%Z) ∧
      (∃ raw, sv_Values v = l2Normalize raw ∧
         Forall2 (λ i x, ∃ obj s, ids !! obj = Some i ∧ scores !! obj = Some s ∧ x = f32_of_f64 s) (sv_Indices v) raw)
  | inr _ =>
      (∃ obj, is_Some (scores !! obj) ∧ ids !! obj = None) ∨
      (scores ≠ ∅ ∧ ∀ obj, is_Some (scores !! obj) → ∃ k, ids !! obj = Some k ∧ (maxSparseIndex < k)%Z)
  end.
Proof.
  intros Hinj. unfold buildSubjectVector. pose proof (subject_entries_spec ids (map_to_list scores)) as Hspec.
  pose proof (subject_entries_nodup ids (map_to_list scores)) as Hnodup.
  assert (∀ obj, obj ∈ (map_to_list scores).*1 ↔ is_Some (scores !! obj)) as Hdom.
  { intros obj. rewrite list_elem_of_fmap. split; [intros ([o s] & -> & Hs%elem_of_map_to_list); by eexists|].
    intros [s Hs]. exists (obj, s). split; [done|by apply elem_of_map_to_list]. }
  destruct (subject_entries ids (map_to_list scores)) as [entries|e].
  2: { left. destruct Hspec as (obj & Ho & Hn). exists obj. split; [by apply Hdom|done]. }
  destruct Hspec as [Hall Hin]. specialize (Hnodup entries Hinj (NoDup_fst_map_to_list _) eq_refl).
  destruct (bool_decide (scores ≠ ∅) && bool_decide (entries = [])) eqn:Hc.
  { apply andb_true_iff in Hc as [Hne%bool_decide_eq_true He%bool_decide_eq_true]. subst entries. right. split; [done|]. intros obj Hs.
    destruct (Hall obj ltac:(by apply Hdom)) as [k Hk]. exists k. split; [done|]. destruct (Z.leb_spec k maxSparseIndex) as [Hle|]; [|done].
    destruct Hs as [s Hs]. exfalso. assert ((k, f32_of_f64 s) ∈ []) as []%elem_of_nil. apply Hin. exists obj, s. by rewrite elem_of_map_to_list. }
  unfold sparseVectorFrom. destruct (sort_by_index entries Hnodup) as [Hp Hs]. set (sorted := sort_slice _ entries) in *. cbn.
  assert (∀ i x, (i, x) ∈ sorted ↔ ∃ obj s, scores !! obj = Some s ∧ ids !! obj = Some i ∧ (i <= maxSparseIndex)%Z ∧ x = f32_of_f64 s) as Hin'.
  { intros i x. rewrite Hp, Hin. by setoid_rewrite elem_of_map_to_list. }
  split_and!; try done.
  - intros i. rewrite list_elem_of_fmap. split.
    + intros ([j x] & -> & (obj & s & Hos & Hi & Hle & _)%Hin'). exists obj. split; [by eexists|done].
    + intros (obj & [s Hos] & Hi & Hle). exists (i, f32_of_f64 s). split; [done|]. apply Hin'. by exists obj, s.
  - eexists. split; [reflexivity|]. apply Forall2_fmap_l, Forall2_fmap_r, Forall_Forall2_diag, Forall_forall. intros [i x] (obj & s & ? & ? & _ & ->)%Hin'. by exists obj, s.
Qed.
End sparse.

Lemma subject_vector_exact_witness :
  let sort : GoSort := sample_sort in
  let ids : gmap string Z := {["a" := 7%Z; "b" := 3%Z]} in
  let scores : gmap string float64 := {["a" := f64_of_Z 3; "b" := f64_of_Z 4]} in
  match buildSubjectVector "s" 1 scores ids with
  | inl v => sv_Indices v = [3; 7]%Z ∧ StronglySorted Z.lt (sv_Indices v)
  | inr _ => False
  end.
Proof.
  intros sort ids scores. pose proof (subject_vector_exact "s" 1 scores ids) as H.
  destruct (buildSubjectVector "s" 1 scores ids) as [v|e] eqn:E; [|vm_compute in E; discriminate].
  split; [vm_compute in E; injection E as <-; reflexivity|]. apply H.
  intros a b k. unfold ids. rewrite !lookup_insert_Some, !lookup_singleton_Some. naive_solver.
Defined.

(** ** Pooling *)

Lemma add_vec_zip sum vec : length vec = length sum → add_vec sum vec = Some (zip_with f32_add sum vec).
Proof.
  revert sum. induction vec as [|v vec IH]; intros [|s sum]; cbn; [done..|]. intros [= Hl]. by rewrite IH.
Qed.

Lemma length_pool d (vs : list (list float32)) sum :
  length sum = d → Forall (λ v, length v = d) vs → length (foldl (zip_with f32_add) sum vs) = d.
Proof.
  revert sum. induction vs as [|v vs IH]; intros sum Hs Hall; [done|]. apply Forall_cons in Hall as [Hv Hall]. cbn. apply IH; [|done].
  rewrite length_zip_with. lia.
Qed.

(** The vectors of the items a subject touched, by event. *)
Definition touched (itemVecs : gmap string (list float32)) (events : list RawEvent) (s : string) : list (list float32) :=
  omap (λ e, itemVecs !! re_ObjectID e) (filter (λ e, re_SubjectID e = s) events).

Lemma touched_cons itemVecs e events s :
  touched itemVecs (e :: events) s =
    if decide (re_SubjectID e = s) then match itemVecs !! re_ObjectID e with Some v => v :: touched itemVecs events s | None => touched itemVecs events s end
    else touched itemVecs events s.
Proof.
  unfold touched. rewrite filter_cons. destruct (decide (re_SubjectID e = s)); [|done]. cbn [omap list_omap].
  by destruct (itemVecs !! re_ObjectID e).
Qed.

Section pooling.
Context (itemVecs : gmap string (list float32)) (d : nat).
Hypothesis dims : ∀ obj v, itemVecs !! obj = Some v → length v = d.

Lemma touched_dims events s : Forall (λ v, length v = d) (touched itemVecs events s).
Proof. apply Forall_forall. intros v (e & _ & He)%list_elem_of_omap. by eapply dims. Qed.

Definition pooled (acc : option (list float32 * nat)) (vs : list (list float32)) : option (list float32 * nat) :=
  match vs with
  | [] => acc
  | _ => let '(sum, count) := default (replicate d f32_zero, 0%nat) acc in Some (foldl (zip_with f32_add) sum vs, (count + length vs)%nat)
  end.

Lemma pooled_cons acc v vs :
  pooled acc (v :: vs) = pooled (Some (let '(sum, count) := default (replicate d f32_zero, 0%nat) acc in (zip_with f32_add sum v, S count))) vs.
Proof. unfold pooled. destruct (default _ acc) as [sum count]. destruct vs; cbn; do 2 f_equal; lia. Qed.

Lemma pool_events_spec events acc :
  (∀ s a, acc !! s = Some a → length a.1 = d) →
  ∃ acc', pool_events itemVecs events acc = Some acc' ∧ ∀ s, acc' !! s = pooled (acc !! s) (touched itemVecs events s).
Proof.
  revert acc. induction events as [|e events IH]; intros acc Hacc; cbn [pool_events]; [by exists acc|]. unfold pool_event.
  destruct (itemVecs !! re_ObjectID e) as [v|] eqn:Ev.
  - assert (length v = d) as Hv by (by eapply dims). rewrite Hv. destruct (default _ (acc !! re_SubjectID e)) as [sum count] eqn:Ed.
    assert (length sum = d) as Hs.
    { destruct (acc !! re_SubjectID e) as [a|] eqn:Ea; cbn in Ed; [rewrite <- (Hacc _ _ Ea); by rewrite Ed|]. injection Ed as <- _. apply length_replicate. }
    rewrite add_vec_zip by lia. cbn [mbind option_bind].
    destruct (IH (<[re_SubjectID e := (zip_with f32_add sum v, S count)]> acc)) as (acc' & -> & Hacc').
    { intros s a. destruct (decide (s = re_SubjectID e)) as [->|Hn]; [rewrite lookup_insert_eq; intros [= <-]; cbn; rewrite length_zip_with; lia|].
      rewrite lookup_insert_ne by done. apply Hacc. }
    exists acc'. split; [done|]. intros s. rewrite Hacc', touched_cons. destruct (decide (re_SubjectID e = s)) as [<-|Hn].
    + rewrite lookup_insert_eq, Ev, pooled_cons. by rewrite Ed.
    + by rewrite lookup_insert_ne.
  - cbn [mbind option_bind]. destruct (IH acc Hacc) as (acc' & -> & Hacc'). exists acc'. split; [done|]. intros s. rewrite Hacc', touched_cons, Ev.
    by destruct (decide _).
Qed.

(** With item vectors of one dimension nothing panics, and a subject has the
    mean of the vectors of its items, if it touched any. *)
Lemma UserDenseVectors_exact events :
  ∃ m, UserDenseVectors events itemVecs = Some m ∧
    ∀ s, m !! s = match touched itemVecs events s with
                  | [] => None
                  | vs => Some (mean (foldl (zip_with f32_add) (replicate d f32_zero) vs) (length vs))
                  end.
Proof.
  unfold UserDenseVectors. case_decide as He.
  - exists ∅. split; [done|]. intros s. rewrite lookup_empty. unfold touched. rewrite He.
    by assert (∀ l, omap (λ e, (∅ : gmap string (list float32)) !! re_ObjectID e) l = []) as -> by (induction l; done).
  - destruct (pool_events_spec events ∅) as (acc & -> & Hacc); [by intros ? ? ?%lookup_empty_Some|]. cbn. eexists. split; [done|].
    intros s. rewrite lookup_fmap, Hacc, lookup_empty. by destruct (touched itemVecs events s).
Qed.

Lemma UserDenseVectors_dims events m s v : UserDenseVectors events itemVecs = Some m → m !! s = Some v → length v = d.
Proof.
  intros Hm Hv. destruct (UserDenseVectors_exact events) as (m' & Hm' & Hs). rewrite Hm in Hm'. injection Hm' as <-. rewrite Hs in Hv.
  pose proof (touched_dims events s) as Hd. destruct (touched itemVecs events s) as [|u vs]; [done|]. injection Hv as <-. unfold mean.
  rewrite length_fmap. apply (length_pool d (u :: vs)); [apply length_replicate|done].
Qed.
End pooling.

(** Without that, a longer vector of a subject's later item is a panic. *)
Example mixed_dimensions_panic :
  let ev obj := {| re_SubjectID := "s"; re_ObjectID := obj; re_Action := "VIEW"; re_Weight := f64_one; re_OccurredAt := 1; re_ObjectCreatedAt := None |} in
  UserDenseVectors [ev "a"; ev "b"] {["a" := [f32_zero]; "b" := [f32_zero; f32_zero]]} = None.
Proof. vm_compute. reflexivity. Qed.

(** ** Sequences *)

Definition flat (seqs : list InteractionSequence) : list (string * string) :=
  seqs ≫= λ q, (λ o, (is_SubjectID q, o)) <$> is_ObjectIDs q.

Lemma flat_app a b : flat (a ++ b) = flat a ++ flat b.
Proof. unfold flat. by rewrite bind_app. Qed.

(** Neighbouring sequences belong to different subjects. *)
Definition apart (seqs : list InteractionSequence) : Prop :=
  Forall (λ q, is_ObjectIDs q ≠ []) seqs ∧
  ∀ k a b, seqs !! k = Some a → seqs !! S k = Some b → is_SubjectID a ≠ is_SubjectID b.

Lemma close_seq_flat seqs cur : flat (close_seq seqs cur) = flat seqs ++ ((λ o, (is_SubjectID cur, o)) <$> is_ObjectIDs cur).
Proof.
  unfold close_seq. case_bool_decide as E; [rewrite E; by rewrite app_nil_r|]. rewrite flat_app. cbn. by rewrite app_nil_r.
Qed.

Lemma close_seq_apart seqs cur :
  apart seqs → (∀ q, last seqs = Some q → is_SubjectID q ≠ is_SubjectID cur) → apart (close_seq seqs cur).
Proof.
  intros [Hne Hap] Hl. unfold close_seq. case_bool_decide as E; [done|]. split; [apply Forall_app; by split; [|constructor]|].
  intros k a b Ha Hb. destruct (decide (S k < length seqs)%nat) as [Hk|Hk]; [rewrite lookup_app_l in Ha, Hb by lia; by eapply Hap|].
  apply lookup_app_Some in Hb as [Hb|[Hk' Hb]]; [apply lookup_lt_Some in Hb; lia|]. apply list_lookup_singleton_Some in Hb as [Hk2 <-].
  apply Hl. rewrite last_lookup. rewrite lookup_app_l in Ha by lia. rewrite <- Ha. f_equal. lia.
Qed.

Lemma close_seq_last seqs cur : is_ObjectIDs cur ≠ [] → last (close_seq seqs cur) = Some cur.
Proof. intros E. unfold close_seq. rewrite bool_decide_eq_false_2 by done. apply last_snoc. Qed.

Lemma sequence_loop_spec events seqs cur :
  apart seqs → (∀ q, last seqs = Some q → is_SubjectID q ≠ is_SubjectID cur) →
  (is_ObjectIDs cur = [] → ∀ e, head events = Some e → re_SubjectID e = is_SubjectID cur) →
  let out := sequence_loop seqs cur events in
  apart out ∧ flat out = flat seqs ++ ((λ o, (is_SubjectID cur, o)) <$> is_ObjectIDs cur) ++ ((λ e, (re_SubjectID e, re_ObjectID e)) <$> events).
Proof.
  revert seqs cur. induction events as [|e events IH]; intros seqs cur Hap Hl Hcur; cbn [sequence_loop].
  { split; [by apply close_seq_apart|]. by rewrite close_seq_flat, app_nil_r. }
  case_bool_decide as Hs; cbn zeta beta iota.
  - destruct (IH seqs {| is_SubjectID := is_SubjectID cur; is_ObjectIDs := is_ObjectIDs cur ++ [re_ObjectID e] |}) as [Ha Hf]; [done|done| |].
    { cbn. intros Hnil. by apply app_nil in Hnil as [_ ?]. }
    split; [done|]. rewrite Hf. cbn. rewrite fmap_app, <- !app_assoc. cbn. by rewrite Hs.
  - assert (is_ObjectIDs cur ≠ []) as Hne by (intros E; by apply Hs, (Hcur E)).
    destruct (IH (close_seq seqs cur) {| is_SubjectID := re_SubjectID e; is_ObjectIDs := [re_ObjectID e] |}) as [Ha Hf].
    { by apply close_seq_apart. }
    { intros q. rewrite close_seq_last by done. intros [= <-]. cbn. congruence. }
    { done. }
    split; [done|]. cbn in Hf |- *. rewrite Hf, close_seq_flat. by rewrite <- app_assoc.
Qed.

(** The sequences are the events in their order, cut where the subject changes. *)
Lemma BuildInteractionSequences_cuts events :
  apart (BuildInteractionSequences events) ∧
  flat (BuildInteractionSequences events) = (λ e, (re_SubjectID e, re_ObjectID e)) <$> events.
Proof.
  destruct events as [|e events]; [by split; [split; [constructor|]|]|]. unfold BuildInteractionSequences.
  destruct (sequence_loop_spec (e :: events) [] {| is_SubjectID := re_SubjectID e; is_ObjectIDs := [] |}) as [Ha Hf]; [|done| |done].
  - by split; [constructor|].
  - by intros _ ? [= <-].
Qed.
