(* ===== verification/Recompute.v ===== *)
(** * Recomputing a namespace

    [internal/compute]: the event queries ([repository.go]), the stale-point
    sweep ([cleanup.go]), the physical collections ([physical.go]) and the
    sparse phase ([service.go]), over PostgreSQL rows, the id mapping of [IdMap]
    and Qdrant collections. A query without ORDER BY answers its rows in any
    order. *)

From stdpp Require Import base tactics gmap sets strings list sorting.
From Stdlib Require Import ZArith SpecFloat Lia.
From S2P Require Import Prelude GoLib NsNames NsLedger NsService Float64 NamespaceConfig IdMap Scoring Strategy ComputeVectors.

(** ** Stores *)

(** A row of [events]; instants are nanoseconds since the Unix epoch. *)
Record EventRec := {
  er_namespace : string;
  er_subject : string;
  er_object : string;
  er_action : string;
  er_weight : float64;
  er_occurred_at : Z;
  er_created_at : option Z;
}.

Inductive vector := VSparse (indices : list Z) (values : list float32) | VDense (values : list float32).

Record VPoint := {
  vp_entity : string;             (* subject_id or object_id *)
  vp_vector : vector;
  vp_created_at : option Z;
  vp_strategy : option string;
  vp_updated_at : option Z;
}.

Abbreviation collection := (gmap Z VPoint).

(** A row of [batch_run_logs], as far as the job reads and writes it. *)
Record PhaseResult := {
  ph_OK : bool;
  ph_DurationMs : Z;
  ph_Count1 : nat;
  ph_Count2 : nat;
  ph_Error : error;
}.

Record PhaseResults := { Phase1 : option PhaseResult; Phase2 : option PhaseResult; Phase3 : option PhaseResult }.

Record BatchRow := {
  br_ID : Z;
  br_Namespace : string;
  br_StartedAt : Z;
  br_Trigger : string;
  br_CompletedAt : option Z;
  br_DurationMs : Z;
  br_Processed : nat;
  br_Success : bool;
  br_Error : error;
  br_CancelRequested : bool;
  br_Phases : PhaseResults;
}.

(** What a [BatchRunObserver] is told. *)
Inductive Notification :=
| OnRunStarted (runID : Z) (ns trigger : string)
| OnPhaseStarted (runID : Z) (ns : string) (phase : nat)
| OnPhaseCompleted (runID : Z) (ns : string) (phase : nat) (result : PhaseResult)
| OnRunCompleted (runID : Z) (ns : string) (success : bool) (err : error)
| OnRunCancelled (runID : Z) (ns : string).

Record Compute := {
  cp_events : list EventRec;
  cp_configs : gmap string Config;
  cp_ids : IdTable;
  cp_collections : gmap string collection;
  cp_trending : gmap string (gmap string float64 * Z);  (* scores and expiry *)
  cp_runs : list BatchRow;
  cp_next_run : Z;
  cp_operators : list (list Z);  (* runs operators ask to stop before the next poll *)
  cp_observed : list Notification;
  cp_locks : list (nat * (Z * Z) * bool);  (* compute locks: session, key, shared *)
}.

Abbreviation W := (World Compute).

Definition set_cp_ids (t : IdTable) (s : Compute) : Compute :=
  {| cp_events := cp_events s; cp_configs := cp_configs s; cp_ids := t; cp_collections := cp_collections s;
     cp_trending := cp_trending s; cp_runs := cp_runs s; cp_next_run := cp_next_run s; cp_operators := cp_operators s;
     cp_observed := cp_observed s; cp_locks := cp_locks s |}.
Definition set_cp_collections (c : gmap string collection) (s : Compute) : Compute :=
  {| cp_events := cp_events s; cp_configs := cp_configs s; cp_ids := cp_ids s; cp_collections := c;
     cp_trending := cp_trending s; cp_runs := cp_runs s; cp_next_run := cp_next_run s; cp_operators := cp_operators s;
     cp_observed := cp_observed s; cp_locks := cp_locks s |}.
Definition set_cp_trending (t : gmap string (gmap string float64 * Z)) (s : Compute) : Compute :=
  {| cp_events := cp_events s; cp_configs := cp_configs s; cp_ids := cp_ids s; cp_collections := cp_collections s;
     cp_trending := t; cp_runs := cp_runs s; cp_next_run := cp_next_run s; cp_operators := cp_operators s;
     cp_observed := cp_observed s; cp_locks := cp_locks s |}.
Definition set_cp_runs (l : list BatchRow) (n : Z) (s : Compute) : Compute :=
  {| cp_events := cp_events s; cp_configs := cp_configs s; cp_ids := cp_ids s; cp_collections := cp_collections s;
     cp_trending := cp_trending s; cp_runs := l; cp_next_run := n; cp_operators := cp_operators s;
     cp_observed := cp_observed s; cp_locks := cp_locks s |}.
Definition set_cp_operators (l : list (list Z)) (s : Compute) : Compute :=
  {| cp_events := cp_events s; cp_configs := cp_configs s; cp_ids := cp_ids s; cp_collections := cp_collections s;
     cp_trending := cp_trending s; cp_runs := cp_runs s; cp_next_run := cp_next_run s; cp_operators := l;
     cp_observed := cp_observed s; cp_locks := cp_locks s |}.
Definition set_cp_observed (l : list Notification) (s : Compute) : Compute :=
  {| cp_events := cp_events s; cp_configs := cp_configs s; cp_ids := cp_ids s; cp_collections := cp_collections s;
     cp_trending := cp_trending s; cp_runs := cp_runs s; cp_next_run := cp_next_run s; cp_operators := cp_operators s;
     cp_observed := l; cp_locks := cp_locks s |}.
Definition set_cp_locks (l : list (nat * (Z * Z) * bool)) (s : Compute) : Compute :=
  {| cp_events := cp_events s; cp_configs := cp_configs s; cp_ids := cp_ids s; cp_collections := cp_collections s;
     cp_trending := cp_trending s; cp_runs := cp_runs s; cp_next_run := cp_next_run s; cp_operators := cp_operators s;
     cp_observed := cp_observed s; cp_locks := l |}.

(** A call to a store: a failure, or the answer and what it leaves. *)
Definition call {A} (f : Z → Compute → A * Compute) : M W (A + error) :=
  let! b := fault in
  if b then ret (inr [ErrDriver])
  else λ w, let r := f (w_now w) (w_ext w) in (inl r.1, set_ext r.2 w).

(** The id mapping service on its table. *)
Definition with_world {X Y} (y : Y) (w : World X) : World Y :=
  {| w_ledger := w_ledger w; w_now := w_now w; w_adv := w_adv w; w_lockobjs := w_lockobjs w; w_next := w_next w;
     w_faults := w_faults w; w_ext := y |}.

Definition on_ids {A} (m : M (World IdTable) A) : M W A := λ w,
  let r := m (with_world (cp_ids (w_ext w)) w) in
  (r.1, with_world (set_cp_ids (w_ext r.2) (w_ext w)) r.2).

Class SqlOrder := {
  unordered : ∀ {A : Type}, list A → list A;
  unordered_perm : ∀ {A : Type} (l : list A), unordered l ≡ₚ l;
}.

(** ** repository.go *)

Definition window_90d : Z := 90 * 86400 * 1000000000.

(** [EXTRACT(EPOCH FROM t)::BIGINT] rounds to the nearest second. *)
Definition epoch (t : Z) : Z := Z.sgn t * ((2 * Z.abs t + 1000000000) / 2000000000).

Definition raw_event (r : EventRec) : RawEvent :=
  {| re_SubjectID := er_subject r; re_ObjectID := er_object r; re_Action := er_action r; re_Weight := er_weight r;
     re_OccurredAt := epoch (er_occurred_at r); re_ObjectCreatedAt := epoch <$> er_created_at r |}.

Definition recent (ns : string) (age now : Z) (r : EventRec) : Prop :=
  er_namespace r = ns ∧ (now - age < er_occurred_at r)%Z.

#[global] Instance recent_dec ns age now r : Decision (recent ns age now r).
Proof. unfold recent. apply _. Defined.

Section queries.
Context `{SqlOrder}.

Definition active_subjects (ns : string) (now : Z) (s : Compute) : list string :=
  unordered (remove_dups (er_subject <$> filter (recent ns window_90d now) (cp_events s))).

Definition GetActiveSubjects (ns : string) : M W (list string + error) := call (λ now s, (active_subjects ns now s, s)).

(** Rows grouped by subject. *)
Definition group_events (rows : list RawEvent) : gmap string (list RawEvent) :=
  foldl (λ m e, <[re_SubjectID e := default [] (m !! re_SubjectID e) ++ [e]]> m) ∅ rows.

Definition subjects_rows (ns : string) (subjects : list string) (now : Z) (s : Compute) : list RawEvent :=
  raw_event <$> unordered (filter (λ r, recent ns window_90d now r ∧ er_subject r ∈ subjects) (cp_events s)).

Definition GetSubjectsEvents (ns : string) (subjects : list string) : M W (gmap string (list RawEvent) + error) :=
  call (λ now s, (group_events (subjects_rows ns subjects now s), s)).
End queries.

(** [ORDER BY subject_id, occurred_at]; ties in any order, here by row. *)
Definition by_subject_time (a b : EventRec) : Prop :=
  String.ltb (er_subject a) (er_subject b) = true ∨
  er_subject a = er_subject b ∧ (er_occurred_at a <= er_occurred_at b)%Z.

#[global] Instance by_subject_time_dec a b : Decision (by_subject_time a b).
Proof. unfold by_subject_time. apply _. Defined.

Definition by_time (a b : EventRec) : Prop := (er_occurred_at a <= er_occurred_at b)%Z.

#[global] Instance by_time_dec a b : Decision (by_time a b).
Proof. unfold by_time. apply _. Defined.

Definition namespace_rows (ns : string) (now : Z) (s : Compute) : list RawEvent :=
  raw_event <$> merge_sort by_subject_time (filter (recent ns window_90d now) (cp_events s)).

Definition GetAllNamespaceEvents (ns : string) : M W (list RawEvent + error) := call (λ now s, (namespace_rows ns now s, s)).

Definition hour_nanos : Z := 3600 * 1000000000.

Definition window_rows (ns : string) (windowHours now : Z) (s : Compute) : list RawEvent :=
  raw_event <$> merge_sort by_time (filter (recent ns (windowHours * hour_nanos) now) (cp_events s)).

Definition GetNamespaceEventsInWindow (ns : string) (windowHours : Z) : M W (list RawEvent + error) :=
  call (λ now s, (window_rows ns windowHours now s, s)).

Definition HasAnyEvents (ns : string) : M W (bool + error) :=
  call (λ _ s, (existsb (λ r, bool_decide (er_namespace r = ns)) (cp_events s), s)).

(** [SELECT namespace FROM namespace_configs WHERE paused_at IS NULL ORDER BY
    namespace] *)
Definition scheduled (s : Compute) : list string :=
  sort_strings (filter (λ c, cfg_Paused c.2 = false) (map_to_list (cp_configs s))).*1.

Definition GetScheduledNamespaces : M W (list string + error) := call (λ _ s, (scheduled s, s)).

(** ** physical.go *)

(** A panic of [MustPhysicalName] is an error here. *)
Definition collectionForContext (ctx : Ctx) (ns : string) (kind : PhysicalKind) : string + error :=
  match LeaseIncarnation ctx ns with
  | (inc, true) => match Incarnation_MustPhysicalName inc kind with Some name => inl name | None => inr [ErrPanic] end
  | (_, false) => inr [ErrLeaseRequired]
  end.

(** ** Qdrant *)

Definition ErrNoCollection : string := "qdrant: collection not found".

(** Upsert: all points of the request, or a failure. *)
Definition put_points (points : list (Z * VPoint)) (coll : collection) : collection :=
  foldl (λ c p, <[p.1 := p.2]> c) coll points.

Definition UpsertPoints (name : string) (points : list (Z * VPoint)) : M W error :=
  let! r := call (λ _ s, match cp_collections s !! name with
                         | Some coll => (true, set_cp_collections (<[name := put_points points coll]> (cp_collections s)) s)
                         | None => (false, s)
                         end) in
  ret (match r with inr e => e | inl true => [] | inl false => [ErrNoCollection] end).

(** Points ascend by id; an offset is the first id of a page. *)
Definition sorted_ids (coll : collection) : list Z := merge_sort Z.le (map_to_list coll).*1.

Definition scroll_page (limit : nat) (offset : option Z) (ids : list Z) : list Z * option Z :=
  let rest := filter (λ i, (default i offset <= i)%Z) ids in
  (take limit rest, head (drop limit rest)).

Definition ScrollAndOffset (name : string) (limit : nat) (offset : option Z) : M W ((list Z * option Z) + error) :=
  let! r := call (λ _ s, (match cp_collections s !! name with
                          | Some coll => Some (scroll_page limit offset (sorted_ids coll))
                          | None => None
                          end, s)) in
  ret (match r with inr e => inr e | inl (Some p) => inl p | inl None => inr [ErrNoCollection] end).

Definition DeletePoints (name : string) (ids : list Z) : M W error :=
  let! r := call (λ _ s, match cp_collections s !! name with
                         | Some coll => (true, set_cp_collections (<[name := foldr delete coll ids]> (cp_collections s)) s)
                         | None => (false, s)
                         end) in
  ret (match r with inr e => e | inl true => [] | inl false => [ErrNoCollection] end).

(** ** cleanup.go *)

Definition cleanupScrollPageSize : nat := 1000.
Definition qdrantBatchSize : nat := 100.
Definition ErrOutOfFuel : string := "out of fuel".

Fixpoint scroll_stale (fuel : nat) (name : string) (keep : gset Z) (offset : option Z) (stale : list Z) : M W (list Z + error) :=
  match fuel with
  | O => ret (inr [ErrOutOfFuel])
  | S fuel =>
      let! r := ScrollAndOffset name cleanupScrollPageSize offset in
      match r with
      | inr e => ret (inr e)
      | inl (points, next) =>
          let stale := stale ++ filter (.∉ keep) points in
          match next with
          | Some o => if bool_decide (points = []) then ret (inl stale) else scroll_stale fuel name keep (Some o) stale
          | None => ret (inl stale)
          end
      end
  end.

(** [l[start:start+n]] for [start = 0, n, 2n, ...] *)
Definition batches {A} (n : nat) (l : list A) : list (list A) :=
  (λ i, take n (drop (i * n) l)) <$> seq 0 ((length l + n - 1) / n).

Fixpoint delete_batches (name : string) (done : nat) (bs : list (list Z)) : M W (nat + error) :=
  match bs with
  | [] => ret (inl done)
  | b :: rest =>
      let! e := DeletePoints name b in
      if negb (nil_err e) then ret (inr e) else delete_batches name (done + length b) rest
  end.

(** The fuel is one page more than the collection can have. *)
Definition CleanupStalePoints (name : string) (keep : gset Z) : M W (nat + error) :=
  let! n := gets (λ w, match cp_collections (w_ext w) !! name with Some coll => size coll | None => 0%nat end) in
  let! r := scroll_stale (S n) name keep None [] in
  match r with
  | inr e => ret (inr e)
  | inl stale => delete_batches name 0 (batches qdrantBatchSize stale)
  end.

(** ** service.go *)

Definition unix (now : Z) : Z := now / 1000000000.

Definition resolveObjectIDs (ctx : Ctx) (ns : string) (keys : list string) : M W (gmap string Z + error) :=
  match keys with
  | [] => ret (inl ∅)
  | _ => on_ids (GetOrCreateObjectIDs ctx keys ns)
  end.

Record subjectVectors := { bt_scores : subjectScores; bt_vec : SubjectVector }.

Section service.
Context `{GoMath, GoSort, GoRange, SqlOrder}.

(** The subjects that can be built; the others are logged. *)
Definition build_subjects (ids objectIDs : gmap string Z) (scored : list (string * subjectScores)) : list subjectVectors :=
  omap (λ p : string * subjectScores,
    match ids !! p.1 with
    | None => None
    | Some n => match buildSubjectVector p.1 n (ss_scores p.2) objectIDs with
                | inl vec => Some {| bt_scores := p.2; bt_vec := vec |}
                | inr _ => None
                end
    end) scored.

Definition buildChunk (ctx : Ctx) (ns : string) (chunk : list string) (lambda : float64) : M W ((list subjectVectors * gmap string Z) + error) :=
  let! r := GetSubjectsEvents ns chunk in
  match r with
  | inr e => ret (inr e)
  | inl events =>
      let! r := on_ids (GetOrCreateSubjectIDs ctx chunk ns) in
      match r with
      | inr e => ret (inr e)
      | inl subjectIDs =>
          let! now := gets w_now in
          let scored := (λ s, (s, scoreEvents (default [] (events !! s)) lambda (unix now))) <$> chunk in
          let objectSet : gset string := ⋃ ((λ p, dom (ss_scores p.2)) <$> scored) in
          let! r := resolveObjectIDs ctx ns (elements objectSet) in
          match r with
          | inr e => ret (inr e)
          | inl objectIDs => ret (inl (build_subjects subjectIDs objectIDs scored, objectIDs))
          end
      end
  end.

Definition subject_point (now : Z) (v : SubjectVector) : Z * VPoint :=
  (sv_NumericID v, {| vp_entity := sv_SubjectID v; vp_vector := VSparse (sv_Indices v) (sv_Values v); vp_created_at := None;
                      vp_strategy := None; vp_updated_at := Some now |}).

Definition upsertSubjectVectors (ctx : Ctx) (ns : string) (vecs : list SubjectVector) : M W error :=
  match vecs with
  | [] => ret []
  | _ =>
      match collectionForContext ctx ns KindSubjects with
      | inr e => ret e
      | inl name => let! now := gets w_now in UpsertPoints name (subject_point now <$> vecs)
      end
  end.

(** The accumulators of the chunk loop. *)
Record progress := { pr_co : cooccurrence; pr_upserted : nat; pr_failed : nat; pr_keep : gset Z }.

Definition recompute_chunk (ctx : Ctx) (ns : string) (lambda : float64) (chunk : list string) (p : progress) : M W progress :=
  let! r := buildChunk ctx ns chunk lambda in
  match r with
  | inr _ => ret {| pr_co := pr_co p; pr_upserted := pr_upserted p; pr_failed := S (pr_failed p); pr_keep := pr_keep p |}
  | inl (built, objectIDs) =>
      let vecs := bt_vec <$> built in
      let! e := upsertSubjectVectors ctx ns vecs in
      let co := foldl (λ c b, co_add (bt_scores b) objectIDs c) (pr_co p) built in
      if negb (nil_err e)
      then ret {| pr_co := co; pr_upserted := pr_upserted p; pr_failed := S (pr_failed p); pr_keep := pr_keep p |}
      else ret {| pr_co := co; pr_upserted := pr_upserted p + length vecs; pr_failed := pr_failed p;
                  pr_keep := pr_keep p ∪ list_to_set (sv_NumericID <$> vecs) |}
  end.

Fixpoint recompute_chunks (ctx : Ctx) (ns : string) (lambda : float64) (chunks : list (list string)) (p : progress) : M W progress :=
  match chunks with
  | [] => ret p
  | chunk :: rest => let! p := recompute_chunk ctx ns lambda chunk p in recompute_chunks ctx ns lambda rest p
  end.

Definition object_point (co : cooccurrence) (now : Z) (target : Z) (row : gmap Z float32) : Z * VPoint :=
  let '(indices, values) := sparseVectorFrom (fitting (map_to_list row)) in
  let created := default 0%Z (co_createdTimes co !! target) in
  let seen := default 0%Z (co_maxTimes co !! target) in
  (target, {| vp_entity := default "" (co_keys co !! target); vp_vector := VSparse indices values;
              vp_created_at := Some (if (0 <? created)%Z then created else if (0 <? seen)%Z then seen else unix now);
              vp_strategy := None; vp_updated_at := None |}).

Definition flush_points (name : string) (batch : list (Z * VPoint)) : M W error :=
  match batch with [] => ret [] | _ => UpsertPoints name batch end.

Fixpoint upsert_rows (name : string) (co : cooccurrence) (rows : list (Z * gmap Z float32)) (batch : list (Z * VPoint)) : M W error :=
  match rows with
  | [] => flush_points name batch
  | (target, row) :: rest =>
      let! now := gets w_now in
      let batch := batch ++ [object_point co now target row] in
      if (qdrantBatchSize <=? length batch)%nat
      then let! e := flush_points name batch in
           if negb (nil_err e) then ret e else upsert_rows name co rest []
      else upsert_rows name co rest batch
  end.

(** The ids written, or the first failure. *)
Definition upsertObjectVectors (ctx : Ctx) (ns : string) (accum : matrix) (co : cooccurrence) : M W (gset Z + error) :=
  match collectionForContext ctx ns KindObjects with
  | inr e => ret (inr e)
  | inl name =>
      let! e := upsert_rows name co (range_map accum) [] in
      ret (if nil_err e then inl (dom accum) else inr e)
  end.

Fixpoint upsert_passes (ctx : Ctx) (ns : string) (co : cooccurrence) (passOf : gmap Z nat) (passes : list nat) (keep : gset Z) (objects : nat) : M W ((gset Z * nat) + error) :=
  match passes with
  | [] => ret (inl (keep, objects))
  | pass :: rest =>
      let accum := accumulate passOf pass (co_rows co) in
      let! r := upsertObjectVectors ctx ns accum co in
      match r with
      | inr e => ret (inr e)
      | inl kept => upsert_passes ctx ns co passOf rest (keep ∪ kept) (objects + size accum)
      end
  end.

(** Best effort: a failed sweep is only logged. *)
Definition cleanupCollection (ctx : Ctx) (ns : string) (kind : PhysicalKind) (keep : gset Z) : M W () :=
  match collectionForContext ctx ns kind with
  | inr _ => ret tt
  | inl name => CleanupStalePoints name keep ;;! ret tt
  end.

Definition ErrAllFailed : string := "all subject upserts failed".

Definition RecomputeNamespace (ctx : Ctx) (ns : string) (lambda : float64) : M W ((nat * nat) * error) :=
  let! r := GetActiveSubjects ns in
  match r with
  | inr e => ret ((0, 0)%nat, e)
  | inl subjects =>
      let! p := recompute_chunks ctx ns lambda (batches qdrantBatchSize subjects)
                  {| pr_co := newCooccurrence; pr_upserted := 0; pr_failed := 0; pr_keep := ∅ |} in
      if bool_decide (subjects ≠ []) && (pr_upserted p =? 0)%nat then ret ((0, 0)%nat, [ErrAllFailed])
      else
        let '(passOf, passes) := planPasses cooccurrenceBudget (co_rows (pr_co p)) in
        let! r := upsert_passes ctx ns (pr_co p) passOf (seq 0 passes) ∅ 0 in
        match r with
        | inr e => ret ((pr_upserted p, 0%nat), e)
        | inl (keepObjects, objects) =>
            (if (0 <? pr_failed p)%nat then ret tt
             else cleanupCollection ctx ns KindSubjects (pr_keep p) ;;!
                  cleanupCollection ctx ns KindObjects keepObjects) ;;!
            ret ((pr_upserted p, objects), [])
        end
  end.
End service.
