(* ===== verification/RecomputeFacts.v ===== *)
(** * What recomputing leaves in the collections

    A sweep removes exactly the points that are not kept. A recompute writes,
    for every active subject that can be built, the vector its events give, and
    for every object its co-occurrence row; it removes a point only when nothing
    of the current window speaks for it. *)

From stdpp Require Import base tactics gmap sets strings list sorting.
From Stdlib Require Import ZArith SpecFloat Lia.
From S2P Require Import Prelude GoLib NsNames NsLedger NsService Hoare Float64 NamespaceConfig IdMap Scoring Strategy ComputeVectors Cooccurrence VectorFacts Recompute.

(** ** Calls *)

Section calls.
Context {c : bool}.

Lemma writes_call {A} (f : Z → Compute → A * Compute) now x (Q : A + error → Compute → Prop) :
  (c = false → Q (inr [ErrDriver]) x) → Q (inl (f now x).1) (f now x).2 → writes c (call f) now x Q.
Proof.
  intros He HQ. unfold call. eapply (writes_bind _ _ _ _ (λ b x', x' = x ∧ (c = true → b = false))); [apply writes_fault; [by intros ->|done]|].
  intros [] ? [-> Hb]; [apply writes_ret, He; destruct c; [by specialize (Hb eq_refl)|done]|]. by intros w <- <- Hf.
Qed.

Lemma writes_query {A} (f : Z → Compute → A) now x (Q : A + error → Compute → Prop) :
  (c = false → Q (inr [ErrDriver]) x) → Q (inl (f now x)) x → writes c (call (λ now s, (f now s, s))) now x Q.
Proof. intros He HQ. by apply writes_call. Qed.

(** The id mapping inside the larger world. *)
Lemma writes_on_ids {A} (m : M (World IdTable) A) now x (Q : A → IdTable → Prop) :
  writes c m now (cp_ids x) Q → writes c (on_ids m) now x (λ a x', ∃ t, x' = set_cp_ids t x ∧ Q a t).
Proof.
  intros Hm w <- <- Hf. unfold on_ids. destruct (Hm (with_world (cp_ids (w_ext w)) w) eq_refl eq_refl Hf) as ([Hl Hn Ha Hlo] & Hf' & HQ).
  destruct (m _) as [a w1]. cbn in *. split; [by split|]. split; [done|]. by exists (w_ext w1).
Qed.
End calls.

(** ** Batches *)

Lemma concat_batches {A} n (l : list A) : (0 < n)%nat → concat (batches n l) = l.
Proof.
  intros Hn. unfold batches.
  assert (∀ k, concat ((λ i, take n (drop (i * n) l)) <$> seq 0 k) = take (k * n) l) as H.
  { induction k as [|k IH]; [done|]. rewrite seq_S, fmap_app, concat_app, IH. cbn. rewrite app_nil_r, take_take_drop. f_equal. lia. }
  rewrite H. apply take_ge. pose proof (Nat.div_mod (length l + n - 1) n ltac:(lia)). pose proof (Nat.mod_upper_bound (length l + n - 1) n ltac:(lia)). nia.
Qed.

(** ** The stale-point sweep *)

Lemma sorted_ids_spec coll : StronglySorted Z.lt (sorted_ids coll) ∧ ∀ i, i ∈ sorted_ids coll ↔ is_Some (coll !! i).
Proof.
  unfold sorted_ids. set (ids := (map_to_list coll).*1).
  assert (merge_sort Z.le ids ≡ₚ ids) as Hp by apply merge_sort_Permutation.
  assert (StronglySorted Z.le (merge_sort Z.le ids)) as Hs by (apply StronglySorted_merge_sort; intros a b; lia).
  assert (NoDup (merge_sort Z.le ids)) as Hnd by (rewrite Hp; apply NoDup_fst_map_to_list). split.
  - clear Hp. induction Hs as [|i l Hs IH Hall]; [constructor|]. apply NoDup_cons in Hnd as [Hi Hnd]. constructor; [by apply IH|].
    rewrite Forall_forall in Hall |- *. intros j Hj. specialize (Hall j Hj). assert (i ≠ j) by (by intros ->). lia.
  - intros i. rewrite Hp. subst ids. rewrite list_elem_of_fmap. split.
    + intros ([j p] & -> & Hj%elem_of_map_to_list). by eexists.
    + intros [p Hi]. exists (i, p). by rewrite elem_of_map_to_list.
Qed.

Lemma StronglySorted_filter_sub {A} (R : A → A → Prop) (P : A → Prop) `{!∀ x, Decision (P x)} (l : list A) :
  StronglySorted R l → StronglySorted R (filter P l).
Proof.
  induction 1 as [|x l Hs IH Hall]; [constructor|]. rewrite filter_cons. case_decide; [|done]. constructor; [done|].
  rewrite Forall_forall in Hall |- *. intros y [_ Hy]%list_elem_of_filter. by apply Hall.
Qed.

(** The next page starts where this one stops. *)
Lemma scroll_resumes ids limit offset o :
  StronglySorted Z.lt ids →
  let rest := filter (λ i, (default i offset <= i)%Z) ids in
  head (drop limit rest) = Some o → filter (λ i, (default i (Some o) <= i)%Z) ids = drop limit rest.
Proof.
  intros Hs rest Ho. change (filter (λ i, (o <= i)%Z) ids = drop limit rest). destruct (drop limit rest) as [|o' tl] eqn:Ed; [done|]. injection Ho as ->.
  assert (filter (λ i, (o <= i)%Z) ids = filter (λ i, (o <= i)%Z) rest) as ->.
  { unfold rest. rewrite list_filter_filter. apply filter_agree. intros i _. split; [|tauto]. intros Hi. split; [done|].
    assert (o ∈ rest) as [Hle _]%list_elem_of_filter by (rewrite <- (take_drop limit rest), Ed; set_solver). destruct offset as [k|]; cbn in *; lia. }
  assert (StronglySorted Z.lt rest) as Hr by (by apply StronglySorted_filter_sub). rewrite <- (take_drop limit rest) in Hr |- *. rewrite Ed in Hr |- *.
  rewrite filter_app. apply StronglySorted_app in Hr as (Hlt & _ & Hd).
  rewrite (list_filter_none _ (take limit rest)) by (intros i Hi Hle; specialize (Hlt i o Hi ltac:(by left)); lia).
  apply StronglySorted_inv in Hd as [_ Hall]. rewrite Forall_forall in Hall. cbn [app].
  rewrite filter_cons_True by lia. f_equal. transitivity (filter (λ _ : Z, True) tl).
  - apply filter_agree. intros i Hi. specialize (Hall i Hi). split; [done|lia].
  - clear. induction tl as [|i tl IH]; [done|]. rewrite filter_cons_True by done. by rewrite IH.
Qed.

Section sweep.
Context {c : bool}.

Lemma ScrollAndOffset_writes name coll limit offset now x (Q : (list Z * option Z) + error → Compute → Prop) :
  cp_collections x !! name = Some coll → (c = false → Q (inr [ErrDriver]) x) → Q (inl (scroll_page limit offset (sorted_ids coll))) x →
  writes c (ScrollAndOffset name limit offset) now x Q.
Proof.
  intros Hc He HQ. unfold ScrollAndOffset.
  eapply (writes_bind _ _ _ _ (λ r x', x' = x ∧ (c = false ∧ r = inr [ErrDriver] ∨ r = inl (Some (scroll_page limit offset (sorted_ids coll))))));
    [apply writes_query; [by auto|rewrite Hc; by auto]|].
  intros r ? [-> [[Hf ->]| ->]]; apply writes_ret; auto.
Qed.

Lemma scroll_stale_writes fuel name coll keep offset stale now x :
  cp_collections x !! name = Some coll →
  (length (filter (λ i, (default i offset <= i)%Z) (sorted_ids coll)) < fuel)%nat →
  writes c (scroll_stale fuel name keep offset stale) now x (λ r x', x' = x ∧
    (r = inl (stale ++ filter (.∉ keep) (filter (λ i, (default i offset <= i)%Z) (sorted_ids coll))) ∨ c = false ∧ r = inr [ErrDriver])).
Proof.
  intros Hc. destruct (sorted_ids_spec coll) as [Hs _]. revert offset stale.
  induction fuel as [|fuel IH]; intros offset stale Hfuel; [lia|]. cbn [scroll_stale].
  set (rest := filter (λ i, (default i offset <= i)%Z) (sorted_ids coll)) in *.
  eapply (writes_bind _ _ _ _ (λ r x', x' = x ∧ (c = false ∧ r = inr [ErrDriver] ∨ r = inl (take cleanupScrollPageSize rest, head (drop cleanupScrollPageSize rest)))));
    [apply (ScrollAndOffset_writes _ coll); auto|].
  intros ? ? [-> [[Hf ->]| ->]]; [by apply writes_ret; auto|].
  destruct (head (drop cleanupScrollPageSize rest)) as [o|] eqn:Ho.
  - pose proof (scroll_resumes _ cleanupScrollPageSize offset o Hs Ho) as Hnext. fold rest in Hnext.
    assert (cleanupScrollPageSize < length rest)%nat as Hlen.
    { destruct (Nat.lt_ge_cases cleanupScrollPageSize (length rest)) as [?|Hge]; [done|]. by rewrite drop_ge in Ho by done. }
    rewrite bool_decide_eq_false_2 by (intros Hnil%(f_equal length); rewrite length_take in Hnil; cbn [length] in Hnil; unfold cleanupScrollPageSize in *; lia).
    eapply writes_mono; [apply IH|].
    { rewrite Hnext, length_drop. unfold cleanupScrollPageSize in *. lia. }
    intros r x' [-> Hr]. split; [done|]. destruct Hr as [-> |?]; [left|by right]. rewrite Hnext. f_equal.
    by rewrite <- app_assoc, <- filter_app, take_drop.
  - apply writes_ret. split; [done|]. left. do 2 f_equal. f_equal. apply take_ge.
    destruct (drop cleanupScrollPageSize rest) as [|y l] eqn:Ed; [|done]. assert (length (drop cleanupScrollPageSize rest) = 0%nat) as Hl by (by rewrite Ed).
    rewrite length_drop in Hl. lia.
Qed.

(** [coll] with changes of one collection. *)
Definition put_coll (name : string) (coll : collection) (x : Compute) : Compute := set_cp_collections (<[name := coll]> (cp_collections x)) x.

Lemma put_coll_same name coll x : cp_collections x !! name = Some coll → put_coll name coll x = x.
Proof. intros Hc. unfold put_coll. rewrite insert_id by done. by destruct x. Qed.

Lemma put_coll_twice name c1 c2 x : put_coll name c2 (put_coll name c1 x) = put_coll name c2 x.
Proof. unfold put_coll, set_cp_collections. cbn. by rewrite insert_insert_eq. Qed.

Lemma lookup_put_coll name coll x : cp_collections (put_coll name coll x) !! name = Some coll.
Proof. cbn. apply lookup_insert_eq. Qed.

Lemma DeletePoints_writes name coll ids now x (Q : error → Compute → Prop) :
  cp_collections x !! name = Some coll → (c = false → Q [ErrDriver] x) → Q [] (put_coll name (foldr delete coll ids) x) →
  writes c (DeletePoints name ids) now x Q.
Proof.
  intros Hc He HQ. unfold DeletePoints.
  eapply (writes_bind _ _ _ _ (λ r x', c = false ∧ r = inr [ErrDriver] ∧ x' = x ∨ r = inl true ∧ x' = put_coll name (foldr delete coll ids) x));
    [apply writes_call; [by auto|rewrite Hc; by auto]|].
  intros r ? [(Hf & -> & ->)|[-> ->]]; apply writes_ret; auto.
Qed.

Lemma delete_batches_writes name coll bs n now x :
  cp_collections x !! name = Some coll →
  writes c (delete_batches name n bs) now x (λ _ x', ∃ gone, (∀ i, i ∈ gone → i ∈ concat bs) ∧ (c = true → ∀ i, i ∈ concat bs → i ∈ gone) ∧
    x' = put_coll name (foldr delete coll gone) x).
Proof.
  revert coll n x. induction bs as [|b bs IH]; intros coll n x Hc; cbn [delete_batches].
  { apply writes_ret. exists []. split; [done|]. split; [done|]. symmetry. by apply put_coll_same. }
  eapply (writes_bind _ _ _ _ (λ e x', c = false ∧ e = [ErrDriver] ∧ x' = x ∨ e = [] ∧ x' = put_coll name (foldr delete coll b) x));
    [apply (DeletePoints_writes name coll); auto|].
  intros e ? [(Hf & -> & ->)|[-> ->]]; cbn [nil_err negb].
  { apply writes_ret. exists []. split; [by intros ? ?%elem_of_nil|]. split; [congruence|]. symmetry. by apply put_coll_same. }
  eapply writes_mono; [apply IH, lookup_put_coll|]. intros r x' (gone & Hsub & Hall & ->). exists (gone ++ b). split_and!.
  - intros i. cbn [concat]. rewrite !elem_of_app. intros [Hi|Hi]; [right; by apply Hsub|by left].
  - intros Ht i. cbn [concat]. rewrite !elem_of_app. intros [Hi|Hi]; [by right|left; by apply Hall].
  - by rewrite put_coll_twice, foldr_app.
Qed.

Lemma lookup_foldr_delete (ids : list Z) (coll : collection) i : foldr delete coll ids !! i = if decide (i ∈ ids) then None else coll !! i.
Proof.
  induction ids as [|j ids IH]; cbn [foldr]; [by rewrite decide_False by (by intros ?%elem_of_nil)|]. destruct (decide (i = j)) as [->|Hij].
  - rewrite lookup_delete_eq. by rewrite decide_True by (by left).
  - rewrite lookup_delete_ne by done. rewrite IH. destruct (decide (i ∈ ids)); [by rewrite decide_True by (by right)|].
    rewrite decide_False; [done|]. rewrite elem_of_cons. tauto.
Qed.

(** The sweep keeps what is to be kept and, when nothing fails, nothing else. *)
Definition swept_to (keep : gset Z) (coll coll' : collection) : Prop :=
  (∀ i, i ∈ keep → coll' !! i = coll !! i) ∧ (∀ i, coll' !! i = coll !! i ∨ coll' !! i = None) ∧
  (c = true → ∀ i, i ∉ keep → coll' !! i = None).

Lemma CleanupStalePoints_writes name coll keep now x :
  cp_collections x !! name = Some coll →
  writes c (CleanupStalePoints name keep) now x (λ _ x', ∃ coll', swept_to keep coll coll' ∧ x' = put_coll name coll' x).
Proof.
  intros Hc. destruct (sorted_ids_spec coll) as [_ Hin]. unfold CleanupStalePoints.
  eapply (writes_bind _ _ _ _ (λ n x', x' = x ∧ n = size coll)).
  { apply (writes_gets (λ x, match cp_collections x !! name with Some coll => size coll | None => 0%nat end)). by rewrite Hc. }
  intros ? ? [-> ->].
  assert (filter (λ i, (default i None <= i)%Z) (sorted_ids coll) = sorted_ids coll) as Hall.
  { clear. induction (sorted_ids coll) as [|i l IH]; [done|]. rewrite filter_cons_True by (cbn; lia). by rewrite IH. }
  eapply writes_bind; [apply (scroll_stale_writes _ _ coll); [done|]|].
  { rewrite Hall. unfold sorted_ids. rewrite merge_sort_Permutation, length_fmap, length_map_to_list. lia. }
  rewrite Hall. cbn [app]. intros r ? [-> [-> |[Hf ->]]].
  2: { apply writes_ret. exists coll. split; [|symmetry; by apply put_coll_same]. split; [done|]. split; [by intros i; left|congruence]. }
  eapply writes_mono; [by apply delete_batches_writes|]. intros _ x' (gone & Hsub & Hgone & ->). rewrite concat_batches in Hsub, Hgone by (unfold qdrantBatchSize; lia).
  eexists. split; [|done]. split_and!.
  - intros i Hi. rewrite lookup_foldr_delete, decide_False; [done|]. intros Hg%Hsub. by apply list_elem_of_filter in Hg as [? _].
  - intros i. rewrite lookup_foldr_delete. case_decide; auto.
  - intros Ht i Hi. rewrite lookup_foldr_delete. case_decide as Hd; [done|]. destruct (coll !! i) eqn:E; [|done]. exfalso. apply Hd, Hgone; [done|].
    apply list_elem_of_filter. split; [done|]. apply Hin. by eexists.
Qed.
End sweep.

(** ** Numeric ids *)

Section ids.
Context {c : bool}.

Lemma id_stmt_writes {A} (f : IdTable → A * IdTable) now t (Q : A + error → IdTable → Prop) :
  (c = false → Q (inr [ErrDriver]) (race t)) → Q (inl (f (race t)).1) (f (race t)).2 → writes c (id_stmt f) now t Q.
Proof.
  intros He HQ. unfold id_stmt. eapply (writes_bind _ _ _ _ (λ _ t', t' = race t)); [by apply writes_modify|]. intros [] ? ->.
  eapply (writes_bind _ _ _ _ (λ b t', t' = race t ∧ (c = true → b = false))); [apply writes_fault; [by intros ->|done]|].
  intros [] ? [-> Hb]; [apply writes_ret, He; destruct c; [by specialize (Hb eq_refl)|done]|]. intros w Hx <- Hf. cbn. by rewrite Hx.
Qed.

(** What every step keeps: others only insert. *)
Definition quiet_step {A} (r : A + error) (t t' : IdTable) : Prop := (no_deletes t → no_deletes t') ∧ (c = true → ∃ a, r = inl a).

Lemma id_stmt_quiet {A} (f : IdTable → A * IdTable) now t :
  (∀ t, im_racers (f t).2 = im_racers t) → writes c (id_stmt f) now t (λ r t', quiet_step r t t').
Proof.
  intros Hf. assert (no_deletes t → no_deletes (race t)) as Hr by apply race_grows. apply id_stmt_writes; [intros Hc|]; split; [done|congruence| |by eauto].
  intros Hn%Hr. unfold no_deletes in *. by rewrite Hf.
Qed.

Lemma insert_rows_racers ns et ids t : im_racers (insert_rows ns et ids t).2 = im_racers t.
Proof.
  revert t. induction ids as [|id ids IH]; intros t; cbn [insert_rows]; [done|]. unfold insert_row.
  destruct (im_rows t !! (ns, et, id)); [pose proof (IH {| im_rows := im_rows t; im_next := im_next t + 1; im_racers := im_racers t |}) as H
    |pose proof (IH {| im_rows := <[(ns, et, id) := im_next t]> (im_rows t); im_next := im_next t + 1; im_racers := im_racers t |}) as H];
  destruct (insert_rows _ _ _ _); done.
Qed.

Lemma LookupBatch_quiet ids ns et now t : writes c (LookupBatch ids ns et) now t (λ r t', quiet_step r t t').
Proof.
  unfold LookupBatch. destruct ids as [|i ids]; [apply writes_ret; split; eauto|]. eapply writes_bind; [by apply id_stmt_quiet|].
  intros [rows|e] t' [Hn Hc]; apply writes_ret; split; try done; [by eauto|]. intros Ht. by destruct (Hc Ht).
Qed.

Lemma GetOrCreateBatch_quiet ctx ids ns et now t :
  RequireNamespaceLease ctx ns = [] → writes c (GetOrCreateBatch ctx ids ns et) now t (λ r t', quiet_step r t t').
Proof.
  intros Hl. unfold GetOrCreateBatch. destruct ids as [|i ids]; [apply writes_ret; split; eauto|]. rewrite Hl. cbn [nil_err negb].
  eapply writes_bind; [apply LookupBatch_quiet|]. intros [out|e] t1 [Hn1 Hc1]; [|apply writes_ret; split; [done|]; intros Ht; by destruct (Hc1 Ht)].
  case_decide; [apply writes_ret; split; eauto|]. eapply writes_bind; [apply id_stmt_quiet; intros; apply insert_rows_racers|].
  intros [rows|e] t2 [Hn2 Hc2]; [|apply writes_ret; split; [by auto|]; intros Ht; by destruct (Hc2 Ht)].
  case_decide; [apply writes_ret; split; eauto|]. eapply writes_bind; [apply LookupBatch_quiet|].
  intros [won|e] t3 [Hn3 Hc3]; apply writes_ret; (split; [by auto|]); [by eauto|]. intros Ht. by destruct (Hc3 Ht).
Qed.

(** A table other writers only add to. *)
Definition ids_ok (t : IdTable) : Prop := table_wf t ∧ no_deletes t.

Definition ids_grow (t t' : IdTable) : Prop := ids_ok t' ∧ im_rows t ⊆ im_rows t' ∧ table_le t t'.

Lemma ids_grow_trans t1 t2 t3 : ids_grow t1 t2 → ids_grow t2 t3 → ids_grow t1 t3.
Proof. intros (_ & H1 & L1) (? & H2 & L2). split; [done|]. split; by etrans. Qed.

Lemma ids_grow_refl t : ids_ok t → ids_grow t t.
Proof. intros ?. by split_and!. Qed.

Lemma GetOrCreateBatch_writes ctx ids ns et now t :
  RequireNamespaceLease ctx ns = [] → ids_ok t →
  writes c (GetOrCreateBatch ctx ids ns et) now t (λ r t', ids_grow t t' ∧ (c = true → ∃ out, r = inl out) ∧
    (in_range t' → ∀ out, r = inl out → ∀ id, id ∈ ids → ∃ n, out !! id = Some n ∧ im_rows t' !! (ns, et, id) = Some n)).
Proof.
  intros Hl [Hwf Hnd] w Hw Hn Hf. destruct (GetOrCreateBatch_quiet ctx ids ns et now t Hl w Hw Hn Hf) as (Hs & Hf' & Hq & Hc).
  split; [done|]. split; [done|]. subst t. destruct ids as [|i ids].
  { cbn in *. split; [by apply ids_grow_refl|]. split; [done|]. by intros _ ? _ ? ?%elem_of_nil. }
  pose proof (GetOrCreateBatch_ok ctx i ids ns et w Hwf Hl) as Hok. destruct (GetOrCreateBatch ctx (i :: ids) ns et w) as [r w']. cbn [fst snd] in *.
  destruct Hok as [H1 H2 H3 _ H5]. split; [split; [by split; [|apply Hq]|]; by split; [apply H3|]|]. split; [done|].
  intros Hr out -> id Hid. by apply (H5 Hr out eq_refl).
Qed.
End ids.

(** The mapping of one namespace and entity type. *)
Definition type_map (R : gmap idkey Z) (ns et : string) : gmap string Z :=
  default ∅ (map_curry (M1 := gmap (string * string)) (M2 := gmap string) R !! (ns, et)).

Lemma lookup_type_map R ns et s : type_map R ns et !! s = R !! (ns, et, s).
Proof.
  unfold type_map. pose proof (lookup_map_curry (M1 := gmap (string * string)) (M2 := gmap string) R (ns, et) s) as H.
  destruct (map_curry R !! (ns, et)) as [m|]; cbn in *; [done|]. by rewrite lookup_empty.
Qed.

(** ** A chunk of subjects *)

Lemma foldl_agree {A B} (f g : A → B → A) (l : list B) a : (∀ a b, b ∈ l → f a b = g a b) → foldl f a l = foldl g a l.
Proof.
  revert a. induction l as [|b l IH]; intros a Hfg; [done|]. cbn. rewrite (Hfg a b) by (by left). apply IH. intros a' b' Hb. apply Hfg. by right.
Qed.

Lemma subject_entries_agree ids1 ids2 scores :
  (∀ p, p ∈ scores → ids1 !! p.1 = ids2 !! p.1) → subject_entries ids1 scores = subject_entries ids2 scores.
Proof.
  induction scores as [|[o s] scores IH]; intros Hids; [done|]. cbn [subject_entries]. pose proof (Hids (o, s) ltac:(by left)) as Hos. cbn in Hos. rewrite Hos. rewrite IH; [done|].
  intros p Hp. apply Hids. by right.
Qed.

(** Two maps that give the objects of these scores the same ids. *)
Definition agree_on (sc : subjectScores) (ids1 ids2 : gmap string Z) : Prop := ∀ o, is_Some (ss_scores sc !! o) → ids1 !! o = ids2 !! o.

Lemma co_add_agree sc ids1 ids2 co : agree_on sc ids1 ids2 → co_add sc ids1 co = co_add sc ids2 co.
Proof.
  intros Ha. assert (∀ kv : string * float64, kv ∈ map_to_list (ss_scores sc) → id_of ids1 kv.1 = id_of ids2 kv.1) as Hid.
  { intros [o s] Ho%elem_of_map_to_list. unfold id_of. cbn. rewrite Ha; [done|]. by eexists. }
  unfold co_add. f_equal.
  - f_equal. f_equal. apply list_fmap_ext. intros i kv Hkv%list_elem_of_lookup_2. by rewrite Hid.
  - apply foldl_agree. intros a kv Hkv. by rewrite Hid.
  - apply foldl_agree. intros a kv Hkv. case_match; [by rewrite Hid|done].
  - apply foldl_agree. intros a kv Hkv. case_match; [by rewrite Hid|done].
Qed.

Section build.
Context `{GoMath, GoSort, SqlOrder}.

Lemma build_subjects_agree ids1 ids2 oids1 oids2 scored :
  (∀ p, p ∈ scored → ids1 !! p.1 = ids2 !! p.1 ∧ agree_on p.2 oids1 oids2) →
  build_subjects ids1 oids1 scored = build_subjects ids2 oids2 scored.
Proof.
  intros Ha. unfold build_subjects. induction scored as [|p scored IH]; [done|]. cbn [omap list_omap].
  destruct (Ha p ltac:(by left)) as [-> Ho]. rewrite IH by (intros q Hq; apply Ha; by right). destruct (ids2 !! p.1) as [n|]; [|done].
  unfold buildSubjectVector. rewrite (subject_entries_agree oids1 oids2); [done|]. intros [o s] Hs%elem_of_map_to_list. apply Ho. by eexists.
Qed.

Definition scored_chunk (ns : string) (lambda : float64) (now : Z) (x : Compute) (chunk : list string) : list (string * subjectScores) :=
  let events := group_events (subjects_rows ns chunk now x) in
  (λ s, (s, scoreEvents (default [] (events !! s)) lambda (unix now))) <$> chunk.

(** What a chunk builds under the mappings [R]. *)
Definition built_chunk (R : gmap idkey Z) (ns : string) (lambda : float64) (now : Z) (x : Compute) (chunk : list string) : list subjectVectors :=
  build_subjects (type_map R ns "subject") (type_map R ns "object") (scored_chunk ns lambda now x chunk).

Lemma built_scores ids oids scored b : b ∈ build_subjects ids oids scored → ∃ p, p ∈ scored ∧ bt_scores b = p.2.
Proof.
  intros (p & Hp & Hb)%list_elem_of_omap. exists p. split; [done|]. destruct (ids !! p.1); [|done]. destruct (buildSubjectVector _ _ _ _); [|done]. by simplify_eq.
Qed.

Context {c : bool} (ctx : Ctx) (ns : string) (lambda : float64).
Hypothesis lease : RequireNamespaceLease ctx ns = [].

Lemma resolveObjectIDs_writes keys now x :
  ids_ok (cp_ids x) →
  writes c (resolveObjectIDs ctx ns keys) now x (λ r x', ∃ t, x' = set_cp_ids t x ∧ ids_grow (cp_ids x) t ∧ (c = true → ∃ out, r = inl out) ∧
    (in_range t → ∀ out, r = inl out → ∀ o, o ∈ keys → ∃ n, out !! o = Some n ∧ im_rows t !! (ns, "object", o) = Some n)).
Proof.
  intros Hok. unfold resolveObjectIDs. destruct keys as [|k keys].
  - apply writes_ret. exists (cp_ids x). split; [by destruct x|]. split; [by apply ids_grow_refl|]. split; [by eauto|]. by intros _ ? _ ? ?%elem_of_nil.
  - eapply writes_mono; [apply writes_on_ids, GetOrCreateBatch_writes; [done|done]|]. done.
Qed.

(** What building a chunk establishes about its answer. *)
Record chunk_ok (now : Z) (x : Compute) (chunk : list string) (r : (list subjectVectors * gmap string Z) + error) (t : IdTable) : Prop := {
  ck_grow : ids_grow (cp_ids x) t;
  ck_calm : c = true → ∃ v, r = inl v;
  ck_built : in_range t → ∀ built oids, r = inl (built, oids) → ∀ R, im_rows t ⊆ R →
    built = built_chunk R ns lambda now x chunk ∧ ∀ b, b ∈ built → agree_on (bt_scores b) oids (type_map R ns "object");
}.

Lemma chunk_failed now x chunk e t : c = false → ids_grow (cp_ids x) t → chunk_ok now x chunk (inr e) t.
Proof. intros Hc Hg. split; [done|congruence|done]. Qed.

Lemma buildChunk_writes chunk now x :
  ids_ok (cp_ids x) → writes c (buildChunk ctx ns chunk lambda) now x (λ r x', ∃ t, x' = set_cp_ids t x ∧ chunk_ok now x chunk r t).
Proof.
  intros Hok. unfold buildChunk, GetSubjectsEvents.
  eapply (writes_bind _ _ _ _ (λ r x', x' = x ∧ (c = false ∧ r = inr [ErrDriver] ∨ r = inl (group_events (subjects_rows ns chunk now x)))));
    [by apply writes_query; auto|].
  intros ? ? [-> [[Hcf ->]| ->]].
  { apply writes_ret. exists (cp_ids x). split; [by destruct x|]. apply chunk_failed; [done|by apply ids_grow_refl]. }
  eapply writes_bind; [apply writes_on_ids, GetOrCreateBatch_writes; done|]. intros r ? (t1 & -> & Hg1 & Hc1 & Hr1).
  destruct r as [sids|e]; [|apply writes_ret; exists t1; split; [done|]; apply chunk_failed; [|done]; destruct c; [by destruct (Hc1 eq_refl)|done]].
  eapply (writes_bind _ _ _ _ (λ n x', n = now ∧ x' = set_cp_ids t1 x)); [by apply writes_gets_now|]. intros ? ? [-> ->]. cbv zeta.
  fold (scored_chunk ns lambda now x chunk). set (scored := scored_chunk ns lambda now x chunk).
  eapply writes_bind; [apply resolveObjectIDs_writes; apply Hg1|]. intros r ? (t2 & -> & Hg2 & Hc2 & Hr2). cbn [cp_ids set_cp_ids] in *.
  assert (ids_grow (cp_ids x) t2) as Hg by (by eapply ids_grow_trans).
  destruct r as [oids|e]; apply writes_ret; exists t2; (split; [done|]); [|apply chunk_failed; [|done]; destruct c; [by destruct (Hc2 eq_refl)|done]].
  split; [done|by eauto|]. intros Hrange ? ? [= <- <-] R HR.
  assert (∀ p, p ∈ scored → sids !! p.1 = type_map R ns "subject" !! p.1 ∧ agree_on p.2 oids (type_map R ns "object")) as Hagree.
  { intros p Hp. split.
    - apply list_elem_of_fmap in Hp as (s & -> & Hs). cbn. destruct (Hr1 (in_range_le _ _ (proj2 (proj2 Hg2)) Hrange) sids eq_refl s Hs) as (n & -> & Hn).
      rewrite lookup_type_map. symmetry. eapply lookup_weaken; [|exact HR]. eapply lookup_weaken; [exact Hn|]. apply Hg2.
    - intros o Ho. destruct (Hr2 Hrange oids eq_refl o) as (n & -> & Hn).
      + apply elem_of_elements, elem_of_union_list. exists (dom (ss_scores p.2)). split; [|by apply elem_of_dom]. apply list_elem_of_fmap. by exists p.
      + rewrite lookup_type_map. symmetry. by eapply lookup_weaken. }
  split; [by apply build_subjects_agree|]. intros b (p & Hp & ->)%built_scores. by apply Hagree.
Qed.
End build.

(** ** Writing subject vectors *)

Lemma put_points_app a b coll : put_points (a ++ b) coll = put_points b (put_points a coll).
Proof. unfold put_points. apply foldl_app. Qed.

Lemma put_points_grows points coll i : is_Some (coll !! i) → is_Some (put_points points coll !! i).
Proof.
  revert coll. induction points as [|[j p] points IH]; intros coll Hi; [done|]. cbn. apply IH.
  destruct (decide (i = j)) as [->|?]; [rewrite lookup_insert_eq; by eexists|by rewrite lookup_insert_ne].
Qed.

Section upsert.
Context {c : bool}.

Lemma UpsertPoints_writes name coll points now x (Q : error → Compute → Prop) :
  cp_collections x !! name = Some coll → (c = false → Q [ErrDriver] x) → Q [] (put_coll name (put_points points coll) x) →
  writes c (UpsertPoints name points) now x Q.
Proof.
  intros Hc He HQ. unfold UpsertPoints.
  eapply (writes_bind _ _ _ _ (λ r x', c = false ∧ r = inr [ErrDriver] ∧ x' = x ∨ r = inl true ∧ x' = put_coll name (put_points points coll) x));
    [apply writes_call; [by auto|rewrite Hc; by auto]|].
  intros r ? [(Hf & -> & ->)|[-> ->]]; apply writes_ret; auto.
Qed.
End upsert.

Section chunks.
Context `{GoMath, GoSort, SqlOrder}.
Context {c : bool} (ctx : Ctx) (ns : string) (lambda : float64) (Sn : string).
Hypothesis lease : RequireNamespaceLease ctx ns = [].
Hypothesis subjects_name : collectionForContext ctx ns KindSubjects = inl Sn.

Definition co_fold (R : gmap idkey Z) (co : cooccurrence) (B : list subjectVectors) : cooccurrence :=
  foldl (λ co b, co_add (bt_scores b) (type_map R ns "object") co) co B.

Definition vec_points (now : Z) (B : list subjectVectors) : list (Z * VPoint) := (λ b, subject_point now (bt_vec b)) <$> B.

Definition vec_ids (B : list subjectVectors) : gset Z := list_to_set ((λ b, sv_NumericID (bt_vec b)) <$> B).

(** What the loop has done, exactly, when no chunk failed. *)
Record all_written (R : gmap idkey Z) (now : Z) (B : list subjectVectors) (coll coll' : collection) (p p' : progress) : Prop := {
  aw_coll : coll' = put_points (vec_points now B) coll;
  aw_keep : pr_keep p' = pr_keep p ∪ vec_ids B;
  aw_co : pr_co p' = co_fold R (pr_co p) B;
  aw_upserted : pr_upserted p' = (pr_upserted p + length B)%nat;
}.

Record chunks_done (now : Z) (chunks : list (list string)) (coll : collection) (x : Compute) (p p' : progress) (t : IdTable) (coll' : collection) : Prop := {
  cd_grow : ids_grow (cp_ids x) t;
  cd_dom : ∀ i, is_Some (coll !! i) → is_Some (coll' !! i);
  cd_failed : (pr_failed p <= pr_failed p')%nat;
  cd_calm : c = true → pr_failed p' = pr_failed p;
  cd_exact : pr_failed p' = pr_failed p → in_range t → ∀ R, im_rows t ⊆ R →
    all_written R now (chunks ≫= built_chunk R ns lambda now x) coll coll' p p';
}.

Lemma upsertSubjectVectors_writes coll built now x (Q : error → Compute → Prop) :
  cp_collections x !! Sn = Some coll → (c = false → ∀ e, e ≠ [] → Q e x) → Q [] (put_coll Sn (put_points (vec_points now built) coll) x) →
  writes c (upsertSubjectVectors ctx ns (bt_vec <$> built)) now x Q.
Proof.
  intros Hc He HQ. unfold upsertSubjectVectors. destruct built as [|b built].
  { apply writes_ret. cbn in HQ. by rewrite put_coll_same in HQ. }
  rewrite fmap_cons.
  rewrite subjects_name. eapply (writes_bind _ _ _ _ (λ n x', n = now ∧ x' = x)); [by apply writes_gets_now|]. intros ? ? [-> ->].
  apply (UpsertPoints_writes _ coll); [done|by intros Hcf; apply He|]. unfold vec_points in HQ.
  rewrite fmap_cons in HQ. by rewrite fmap_cons, <- list_fmap_compose.
Qed.

Lemma recompute_chunk_writes chunk p coll now x :
  ids_ok (cp_ids x) → cp_collections x !! Sn = Some coll →
  writes c (recompute_chunk ctx ns lambda chunk p) now x (λ p' x', ∃ t coll', x' = put_coll Sn coll' (set_cp_ids t x) ∧ chunks_done now [chunk] coll x p p' t coll').
Proof.
  intros Hok Hc. unfold recompute_chunk. eapply writes_bind; [by apply buildChunk_writes|]. intros r ? (t & -> & Hck).
  assert (cp_collections (set_cp_ids t x) !! Sn = Some coll) as Hc' by done.
  destruct r as [[built oids]|e].
  2: { apply writes_ret. exists t, coll. split; [by rewrite put_coll_same|]. split; cbn; [apply Hck|done|lia| |lia].
       intros Ht. by destruct (ck_calm _ _ _ _ _ _ _ Hck Ht). }
  eapply (writes_bind _ _ _ _ (λ e x', c = false ∧ e ≠ [] ∧ x' = set_cp_ids t x ∨ e = [] ∧ x' = put_coll Sn (put_points (vec_points now built) coll) (set_cp_ids t x))).
  { apply (upsertSubjectVectors_writes coll); [done|by auto|by auto]. }
  intros e ? [(Hcf & Hne & ->)|[-> ->]].
  - destruct e as [|a e]; [done|]. cbn [nil_err negb]. apply writes_ret. exists t, coll. split; [by rewrite put_coll_same|].
    split; cbn; [apply Hck|done|lia|congruence|lia].
  - cbn [nil_err negb]. apply writes_ret. eexists t, _. split; [done|]. split; cbn; [apply Hck|intros i; apply put_points_grows|lia|done|].
    intros _ Hr R HR. destruct (ck_built _ _ _ _ _ _ _ Hck Hr built oids eq_refl R HR) as [Hb Ha]. rewrite app_nil_r, <- Hb. split; cbn; [done| | |].
    + unfold vec_ids. by rewrite <- list_fmap_compose.
    + unfold co_fold. apply foldl_agree. intros co b Hin. by apply co_add_agree, Ha.
    + by rewrite length_fmap.
Qed.

Lemma recompute_chunks_writes chunks p coll now x :
  ids_ok (cp_ids x) → cp_collections x !! Sn = Some coll →
  writes c (recompute_chunks ctx ns lambda chunks p) now x (λ p' x', ∃ t coll', x' = put_coll Sn coll' (set_cp_ids t x) ∧ chunks_done now chunks coll x p p' t coll').
Proof.
  revert p coll x. induction chunks as [|chunk chunks IH]; intros p coll x Hok Hc; cbn [recompute_chunks].
  { apply writes_ret. exists (cp_ids x), coll. split; [unfold put_coll, set_cp_collections, set_cp_ids; cbn; rewrite insert_id by done; by destruct x|].
    split; [by apply ids_grow_refl|done|done|done|]. intros _ _ R _. split; cbn; [done| |done|lia]. unfold vec_ids. cbn. set_solver. }
  eapply writes_bind; [by apply recompute_chunk_writes|]. intros p1 ? (t1 & coll1 & -> & D1).
  eapply writes_mono; [apply IH; [apply (cd_grow _ _ _ _ _ _ _ _ D1)|apply lookup_put_coll]|].
  intros p2 ? (t2 & coll2 & -> & D2). exists t2, coll2. split.
  { unfold put_coll, set_cp_collections, set_cp_ids. cbn. by rewrite insert_insert_eq. }
  destruct D1 as [G1 O1 F1 C1 E1], D2 as [G2 O2 F2 C2 E2]. cbn [cp_ids put_coll set_cp_collections set_cp_ids] in G2.
  split; [by eapply ids_grow_trans|by auto|lia|intros Ht; by rewrite C2, C1|].
  intros Hf Hr R HR. destruct (E2 ltac:(lia) Hr R HR) as [-> K2 O3 U2].
  destruct (E1 ltac:(lia) (in_range_le _ _ (proj2 (proj2 G2)) Hr) R) as [-> K1 O4 U1]; [etrans; [apply G2|done]|].
  cbn [mbind list_bind] in *. rewrite app_nil_r in *.
  change (built_chunk R ns lambda now (put_coll Sn _ (set_cp_ids t1 x))) with (built_chunk R ns lambda now x) in *.
  split.
  - unfold vec_points. by rewrite fmap_app, put_points_app.
  - rewrite K2, K1. unfold vec_ids. rewrite fmap_app, list_to_set_app_L. set_solver.
  - rewrite O3, O4. unfold co_fold. by rewrite foldl_app.
  - rewrite U2, U1, length_app. lia.
Qed.
End chunks.
