(* ===== verification/RecomputeExact.v ===== *)
(** * Recomputing is exact and spares the living

    The object side of a recompute, and the theorems about the whole of it:
    without failures the sparse collections hold exactly what the current
    window gives; with any failures no point of a subject or object the window
    speaks for is removed. *)

From stdpp Require Import base tactics gmap sets strings list sorting.
From Stdlib Require Import ZArith SpecFloat Lia.
From S2P Require Import Prelude GoLib NsNames NsLedger NsService Hoare Float64 NamespaceConfig IdMap Scoring Strategy ComputeVectors Cooccurrence VectorFacts ServingSamples Recompute RecomputeFacts.

(** ** Points *)

Lemma put_points_cons j p points coll : put_points ((j, p) :: points) coll = put_points points (<[j := p]> coll).
Proof. done. Qed.

Lemma put_points_other points coll i : i ∉ points.*1 → put_points points coll !! i = coll !! i.
Proof.
  revert coll. induction points as [|[j p] points IH]; intros coll Hi; [done|]. rewrite put_points_cons, IH by set_solver. apply lookup_insert_ne. set_solver.
Qed.

Lemma put_points_own points coll i : i ∈ points.*1 → put_points points coll !! i = put_points points ∅ !! i.
Proof.
  revert coll. induction points as [|[j p] points IH] using rev_ind; intros coll Hi; [by apply elem_of_nil in Hi|].
  rewrite !put_points_app, !put_points_cons. cbn [put_points foldl]. destruct (decide (i = j)) as [->|Hij]; [by rewrite !lookup_insert_eq|]. rewrite !lookup_insert_ne by done. apply IH.
  rewrite fmap_app in Hi. set_solver.
Qed.

Lemma put_points_unique points i p : (i, p) ∈ points → (∀ q, (i, q) ∈ points → q = p) → put_points points ∅ !! i = Some p.
Proof.
  induction points as [|[j q] points IH] using rev_ind; intros Hin Huniq; [by apply elem_of_nil in Hin|]. rewrite put_points_app, put_points_cons. cbn [put_points foldl].
  destruct (decide (i = j)) as [->|Hij].
  - rewrite lookup_insert_eq. f_equal. apply Huniq. set_solver.
  - rewrite lookup_insert_ne by done. apply IH; [set_solver|]. intros q' Hq'. apply Huniq. set_solver.
Qed.

(** Keeping exactly what was written leaves exactly what was written. *)
Lemma sweep_leaves_written points keep coll coll' :
  keep = (list_to_set points.*1 : gset Z) → swept_to (c := true) keep (put_points points coll) coll' → coll' = put_points points ∅.
Proof.
  intros -> (Hk & _ & Hd). apply map_eq. intros i. destruct (decide (i ∈ points.*1)) as [Hi|Hi].
  - rewrite Hk by set_solver. by apply put_points_own.
  - rewrite Hd by set_solver. rewrite put_points_other by done. by rewrite lookup_empty.
Qed.

(** ** Writing object vectors *)

Section objects.
Context `{GoSort, GoRange}.
Context {c : bool} (ctx : Ctx) (ns : string) (On : string).
Hypothesis objects_name : collectionForContext ctx ns KindObjects = inl On.

Definition row_points (co : cooccurrence) (now : Z) (rows : list (Z * gmap Z float32)) : list (Z * VPoint) :=
  (λ tr, object_point co now tr.1 tr.2) <$> rows.

Lemma row_points_ids co now rows : (row_points co now rows).*1 = rows.*1.
Proof.
  unfold row_points. rewrite <- list_fmap_compose. apply list_fmap_ext. intros i [t row] _. done.
Qed.

(** What a series of upserts establishes. *)
Record written (points : list (Z * VPoint)) (coll coll' : collection) (e : error) : Prop := {
  wr_dom : ∀ i, is_Some (coll !! i) → is_Some (coll' !! i);
  wr_all : e = [] → coll' = put_points points coll;
  wr_calm : c = true → e = [];
}.

Lemma flush_points_writes coll batch now x :
  cp_collections x !! On = Some coll →
  writes c (flush_points On batch) now x (λ e x', ∃ coll', x' = put_coll On coll' x ∧ written batch coll coll' e).
Proof.
  intros Hc. unfold flush_points. destruct batch as [|b batch].
  - apply writes_ret. exists coll. split; [by rewrite put_coll_same|]. by split.
  - apply (UpsertPoints_writes _ coll); [done| |].
    + intros Hcf. exists coll. split; [by rewrite put_coll_same|]. split; [done|done|congruence].
    + eexists. split; [done|]. split; [intros i; apply put_points_grows|done|done].
Qed.

Lemma upsert_rows_writes co rows batch coll now x :
  cp_collections x !! On = Some coll →
  writes c (upsert_rows On co rows batch) now x (λ e x', ∃ coll', x' = put_coll On coll' x ∧ written (batch ++ row_points co now rows) coll coll' e).
Proof.
  revert batch coll x. induction rows as [|[t row] rows IH]; intros batch coll x Hc; cbn [upsert_rows].
  { cbn. rewrite app_nil_r. by apply flush_points_writes. }
  eapply (writes_bind _ _ _ _ (λ n x', n = now ∧ x' = x)); [by apply writes_gets_now|]. intros ? ? [-> ->].
  set (batch' := batch ++ [object_point co now t row]). assert (batch ++ row_points co now ((t, row) :: rows) = batch' ++ row_points co now rows) as ->.
  { unfold batch', row_points. rewrite fmap_cons. by rewrite <- app_assoc. }
  destruct (_ <=? _)%nat; [|by apply IH].
  eapply writes_bind; [by apply flush_points_writes|]. intros e ? (coll1 & -> & [D1 A1 C1]). destruct e as [|a e]; cbn [nil_err negb].
  - eapply writes_mono; [apply IH, lookup_put_coll|]. intros e ? (coll2 & -> & [D2 A2 C2]). exists coll2. split; [by rewrite put_coll_twice|].
    split; [by auto| |done]. intros He. rewrite (A2 He), (A1 eq_refl). by rewrite (put_points_app batch').
  - apply writes_ret. exists coll1. split; [done|]. by split.
Qed.

Definition pass_points (co : cooccurrence) (now : Z) (passOf : gmap Z nat) (passes : list nat) : list (Z * VPoint) :=
  passes ≫= λ p, row_points co now (range_map (accumulate passOf p (co_rows co))).

Lemma upsert_passes_writes co passOf passes keep n coll now x :
  cp_collections x !! On = Some coll →
  writes c (upsert_passes ctx ns co passOf passes keep n) now x (λ r x', ∃ coll', x' = put_coll On coll' x ∧
    written (pass_points co now passOf passes) coll coll' (match r with inl _ => [] | inr e => e end) ∧ (∀ e, r = inr e → e ≠ []) ∧
    ∀ kept m, r = inl (kept, m) → kept = keep ∪ list_to_set (pass_points co now passOf passes).*1 ∧
      m = (n + length (pass_points co now passOf passes))%nat).
Proof.
  revert keep n coll x. induction passes as [|p passes IH]; intros keep n coll x Hc; cbn [upsert_passes].
  { apply writes_ret. exists coll. split; [by rewrite put_coll_same|]. split; [by split|]. split; [done|]. intros ? ? [= <- <-]. cbn. split; [set_solver|lia]. }
  unfold upsertObjectVectors. rewrite objects_name. set (accum := accumulate passOf p (co_rows co)).
  eapply (writes_bind _ _ _ _ (λ r x', ∃ coll', x' = put_coll On coll' x ∧
    written (row_points co now (range_map accum)) coll coll' (match r with inl _ => [] | inr e => e end) ∧ (∀ kept, r = inl kept → kept = dom accum) ∧ ∀ e, r = inr e → e ≠ [])).
  { eapply writes_bind; [by apply upsert_rows_writes|]. intros e ? (coll1 & -> & W1). apply writes_ret. exists coll1. split; [done|]. cbn [app] in W1.
    destruct e; cbn [nil_err]; (split; [done|]); split; by intros ? [= <-]. }
  intros r ? (coll1 & -> & [D1 A1 C1] & Hk1 & Hne). destruct r as [kept1|e].
  2: { apply writes_ret. exists coll1. split; [done|]. split; [split; [done|intros ->; by destruct (Hne [] eq_refl)|done]|]. split; [|done]. intros ? [= <-]. by apply Hne. }
  rewrite (Hk1 kept1 eq_refl).
  eapply writes_mono; [apply IH, lookup_put_coll|]. intros r ? (coll2 & -> & [D2 A2 C2] & Hne2 & Hk2). exists coll2. split; [by rewrite put_coll_twice|].
  assert (pass_points co now passOf (p :: passes) = row_points co now (range_map accum) ++ pass_points co now passOf passes) as -> by done.
  split.
  - split; [by auto| |done]. intros He. rewrite (A2 He), (A1 eq_refl). by rewrite put_points_app.
  - split; [done|]. intros kept m Hr. destruct (Hk2 kept m Hr) as [-> ->]. rewrite fmap_app, row_points_ids, list_to_set_app_L, length_app.
    assert (list_to_set (range_map accum).*1 = dom accum) as ->.
    { apply set_eq. intros t. rewrite elem_of_list_to_set, elem_of_dom, list_elem_of_fmap. split.
      - intros ([u row] & -> & Hu%order_elem). by eexists.
      - intros [row Hrow]. exists (t, row). split; [done|by apply order_elem]. }
    split; [by rewrite (assoc_L (∪))|]. unfold row_points at 1. rewrite length_fmap, range_perm, length_map_to_list. fold accum. lia.
Qed.
End objects.

(** ** The rows of the subjects *)

Section rows.
Context `{GoMath, GoSort, GoRange, SqlOrder}.
Context (ns : string) (lambda : float64).

(** The subjects a run builds under the mappings [R]. *)
Definition built_subjects (R : gmap idkey Z) (now : Z) (x : Compute) : list subjectVectors :=
  batches qdrantBatchSize (active_subjects ns now x) ≫= built_chunk R ns lambda now x.

Definition run_co (R : gmap idkey Z) (now : Z) (x : Compute) : cooccurrence := co_fold ns R newCooccurrence (built_subjects R now x).

Lemma built_resolved ids oids scored b o :
  b ∈ build_subjects ids oids scored → is_Some (ss_scores (bt_scores b) !! o) → is_Some (oids !! o).
Proof.
  intros (p & _ & Hb)%list_elem_of_omap [s Hs]. destruct (ids !! p.1); [|done]. destruct (buildSubjectVector _ _ _ _) as [v|] eqn:Ev; [|done].
  simplify_eq. cbn in Hs. unfold buildSubjectVector in Ev. pose proof (subject_entries_spec oids (map_to_list (ss_scores p.2))) as Hspec.
  destruct (subject_entries oids _); [|done]. apply Hspec, list_elem_of_fmap. exists (o, s). by rewrite elem_of_map_to_list.
Qed.

Definition row_of (R : gmap idkey Z) (b : subjectVectors) : list coEntry :=
  (λ kv : string * float64, (id_of (type_map R ns "object") kv.1, f32_of_f64 kv.2)) <$> map_to_list (ss_scores (bt_scores b)).

Lemma co_fold_rows R co B : co_rows (co_fold ns R co B) = co_rows co ++ (row_of R <$> B).
Proof.
  unfold co_fold. revert co. induction B as [|b B IH]; intros co; [by rewrite app_nil_r|]. cbn [foldl]. rewrite IH. cbn. by rewrite <- app_assoc.
Qed.

Lemma run_rows_ok t now x : table_wf t → rows_ok (co_rows (run_co (im_rows t) now x)).
Proof.
  intros Hwf row. unfold run_co. rewrite co_fold_rows. cbn [newCooccurrence co_rows app]. intros (b & -> & Hb)%list_elem_of_fmap.
  apply list_elem_of_bind in Hb as (chunk & Hb & _). unfold row_of. rewrite <- list_fmap_compose.
  change (NoDup ((λ kv : string * float64, id_of (type_map (im_rows t) ns "object") kv.1) <$> map_to_list (ss_scores (bt_scores b)))).
  apply NoDup_fmap_2_strong; [|apply NoDup_map_to_list]. intros [o1 s1] [o2 s2] Hs1%elem_of_map_to_list Hs2%elem_of_map_to_list Hid. cbn in Hid.
  destruct (built_resolved _ _ _ b o1 Hb ltac:(by eexists)) as [n1 E1]. destruct (built_resolved _ _ _ b o2 Hb ltac:(by eexists)) as [n2 E2].
  unfold id_of in Hid. rewrite E1, E2 in Hid. cbn in Hid. subst n2. rewrite lookup_type_map in E1, E2.
  pose proof (tw_inj _ Hwf _ _ _ E1 E2). simplify_eq. congruence.
Qed.

(** Every object has its full row in what the passes write, once. *)
Lemma pass_points_rows co now t :
  rows_ok (co_rows co) →
  let '(passOf, passes) := planPasses cooccurrenceBudget (co_rows co) in
  ∃ row, (∀ o, row !! o = co_cell (co_rows co) t o) ∧
    (t ∈ (pass_points co now passOf (seq 0 passes)).*1 ↔ row ≠ ∅) ∧
    put_points (pass_points co now passOf (seq 0 passes)) ∅ !! t = if decide (row = ∅) then None else Some (object_point co now t row).2.
Proof.
  intros Hok. unfold planPasses. cbv zeta.
  pose proof (plan_packed cooccurrenceBudget (co_rows co) ltac:(unfold cooccurrenceBudget; lia) Hok) as Hpk.
  set (pk := pack cooccurrenceBudget (range_map (loads (co_rows co)))) in *. set (p0 := default 0%nat (pk_passOf pk !! t)).
  set (P := pass_points co now (pk_passOf pk) (seq 0 (S (pk_passes pk)))).
  assert (p0 ∈ seq 0 (S (pk_passes pk))) as Hp0.
  { apply elem_of_seq. unfold p0. destruct (pk_passOf pk !! t) as [n|] eqn:E; cbn; [apply (pa_bound _ _ _ Hpk) in E; lia|lia]. }
  assert (∀ pt, (t, pt) ∈ P ↔ ∃ row, accumulate (pk_passOf pk) p0 (co_rows co) !! t = Some row ∧ pt = (object_point co now t row).2) as HP.
  { intros pt. unfold P, pass_points. rewrite list_elem_of_bind. split.
    - intros (p & Hpt & Hp). apply list_elem_of_fmap in Hpt as ([u row] & Heq & Hin%order_elem).
      assert (u = t) as -> by (symmetry; exact (f_equal fst Heq)). destruct (accumulate_planned (pk_passOf pk) p (co_rows co) t Hok) as [Hp' _]; [by eexists|].
      fold p0 in Hp'. subst p. exists row. split; [done|]. exact (f_equal snd Heq).
    - intros (row & Hrow & ->). exists p0. split; [|done]. apply list_elem_of_fmap. exists (t, row). split; [done|by apply order_elem]. }
  exists (default ∅ (accumulate (pk_passOf pk) p0 (co_rows co) !! t)). split.
  { intros o. pose proof (accumulate_cell (pk_passOf pk) p0 (co_rows co) t o Hok) as Hcell. rewrite decide_True in Hcell by done. rewrite <- Hcell.
    unfold cell. destruct (accumulate _ _ _ !! t); cbn; [done|by rewrite lookup_empty]. }
  destruct (accumulate (pk_passOf pk) p0 (co_rows co) !! t) as [row|] eqn:Erow; cbn [from_option id].
  - assert (row ≠ ∅) as Hne by (by eapply accumulate_compact). assert ((t, (object_point co now t row).2) ∈ P) as Hin by (apply HP; by exists row).
    split; [split; [done|]; intros _; apply list_elem_of_fmap; by eexists (t, _)|]. rewrite decide_False by done.
    apply put_points_unique; [done|]. intros q (row' & Hr & ->)%HP. by simplify_eq.
  - assert (t ∉ P.*1) as Hno.
    { intros ([u pt] & -> & Hin)%list_elem_of_fmap. cbn in *. apply HP in Hin as (row & Hr & _). done. }
    split; [done|]. rewrite decide_True by done. rewrite put_points_other by done. apply lookup_empty.
Qed.
End rows.

(** ** The whole recompute *)

Section recompute.
Context `{GoMath, GoSort, GoRange, SqlOrder}.
Context {c : bool} (ctx : Ctx) (ns : string) (lambda : float64) (Sn On : string).
Hypothesis lease : RequireNamespaceLease ctx ns = [].
Hypothesis subjects_name : collectionForContext ctx ns KindSubjects = inl Sn.
Hypothesis objects_name : collectionForContext ctx ns KindObjects = inl On.

Abbreviation B R now x := (built_subjects ns lambda R now x).
Abbreviation CO R now x := (run_co ns lambda R now x).
Abbreviation PP co now := (pass_points co now (planPasses cooccurrenceBudget (co_rows co)).1 (seq 0 (planPasses cooccurrenceBudget (co_rows co)).2)).

Record recomputed (now : Z) (x : Compute) (s o : collection) (r : (nat * nat) * error) (t : IdTable) (s' o' : collection) : Prop := {
  rc_grow : ids_grow (cp_ids x) t;
  rc_subjects : in_range t → ∀ i, is_Some (s !! i) → s' !! i = None → i ∉ vec_ids (B (im_rows t) now x);
  rc_objects : in_range t → ∀ i, is_Some (o !! i) → o' !! i = None → ∀ k, co_cell (co_rows (CO (im_rows t) now x)) i k = None;
  rc_exact : c = true → in_range t → active_subjects ns now x = [] ∨ B (im_rows t) now x ≠ [] →
    r = ((length (B (im_rows t) now x), length (PP (CO (im_rows t) now x) now)), []) ∧
    s' = put_points (vec_points now (B (im_rows t) now x)) ∅ ∧ o' = put_points (PP (CO (im_rows t) now x) now) ∅;
}.

Lemma RecomputeNamespace_writes s o now x :
  ids_ok (cp_ids x) → Sn ≠ On → cp_collections x !! Sn = Some s → cp_collections x !! On = Some o →
  writes c (RecomputeNamespace ctx ns lambda) now x (λ r x', ∃ t s' o', x' = put_coll On o' (put_coll Sn s' (set_cp_ids t x)) ∧ recomputed now x s o r t s' o').
Proof.
  intros Hok Hne Hs Ho. unfold RecomputeNamespace, GetActiveSubjects.
  eapply (writes_bind _ _ _ _ (λ r x', x' = x ∧ (c = false ∧ r = inr [ErrDriver] ∨ r = inl (active_subjects ns now x)))); [by apply writes_query; auto|].
  intros ? ? [-> [[Hcf ->]| ->]].
  { apply writes_ret. exists (cp_ids x), s, o. split.
    - unfold put_coll, set_cp_collections, set_cp_ids. cbn. rewrite (insert_id _ Sn) by done. rewrite insert_id by done. by destruct x.
    - split; [by apply ids_grow_refl|intros _ i [? Hi]; congruence|intros _ i [? Hi]; congruence|congruence]. }
  set (subjects := active_subjects ns now x). set (p0 := {| pr_co := newCooccurrence; pr_upserted := 0; pr_failed := 0; pr_keep := ∅ |}).
  eapply writes_bind; [by apply (recompute_chunks_writes ctx ns lambda Sn lease subjects_name (batches qdrantBatchSize subjects) p0 s now x)|].
  intros p ? (t & s1 & -> & [Hg Hdom Hfl Hcalm Hexact]). fold subjects.
  assert (pr_failed p = 0%nat → in_range t → all_written ns (im_rows t) now (B (im_rows t) now x) s s1 p0 p) as Haw by (intros Hf Hr; by apply Hexact).
  assert (∀ i, is_Some (s !! i) → s1 !! i = None → False) as Hs1 by (intros i Hi Hn; destruct (Hdom i Hi); congruence).
  assert (∀ x o1, cp_collections x !! On = Some o1 → put_coll On o1 x = x) as Hid by (intros; by apply put_coll_same).
  assert (cp_collections (put_coll Sn s1 (set_cp_ids t x)) !! On = Some o) as Ho1 by (cbn; by rewrite lookup_insert_ne).
  destruct (bool_decide (subjects ≠ []) && (pr_upserted p =? 0)%nat) eqn:Hall.
  { apply writes_ret. exists t, s1, o. split; [by rewrite Hid|]. split; [done|intros _ i Hi Hn; by destruct (Hs1 i)|intros _ i [? Hi]; congruence|].
    intros Ht Hr Hne'. exfalso. apply andb_true_iff in Hall as [Hsub%bool_decide_eq_true Hu%Nat.eqb_eq].
    destruct Hne' as [?|HB]; [done|]. destruct (Haw (Hcalm Ht) Hr) as [_ _ _ HU]. rewrite Hu in HU. cbn [p0 pr_upserted] in HU. apply HB, length_zero_iff_nil. lia. }
  destruct (planPasses cooccurrenceBudget (co_rows (pr_co p))) as [passOf passes] eqn:Epl.
  eapply writes_bind; [by apply (upsert_passes_writes ctx ns On objects_name (pr_co p) passOf (seq 0 passes) ∅ 0 o now)|].
  intros r ? (o1 & -> & [Wd Wa Wc] & Hrne & Hk). set (x1 := put_coll Sn s1 (set_cp_ids t x)) in *.
  assert (∀ i, is_Some (o !! i) → o1 !! i = None → False) as Hob by (intros i Hi Hn; destruct (Wd i Hi); congruence).
  destruct r as [[keepO m]|e].
  2: { apply writes_ret. exists t, s1, o1. split; [done|]. split; [done|intros _ i Hi Hn; by destruct (Hs1 i)|intros _ i Hi Hn; by destruct (Hob i)|].
       intros Ht. specialize (Wc Ht). by destruct (Hrne e eq_refl). }
  destruct (Hk keepO m eq_refl) as [-> ->]. specialize (Wa eq_refl). set (P := pass_points (pr_co p) now passOf (seq 0 passes)) in *.
  destruct (Nat.ltb_spec 0 (pr_failed p)) as [Hf|Hf].
  { eapply (writes_bind _ _ _ _ (λ _ x', x' = put_coll On o1 x1)); [by apply writes_ret|]. intros _ ? ->. apply writes_ret. exists t, s1, o1.
    split; [done|]. split; [done|intros _ i Hi Hn; by destruct (Hs1 i)|intros _ i Hi Hn; by destruct (Hob i)|]. intros Ht. specialize (Hcalm Ht). cbn in Hcalm. lia. }
  assert (pr_failed p = 0%nat) as Hf0 by lia. specialize (Haw Hf0).
  eapply (writes_bind _ _ _ _ (λ _ x', ∃ s2 o2, x' = put_coll On o2 (put_coll Sn s2 (set_cp_ids t x)) ∧
    swept_to (c := c) (pr_keep p) s1 s2 ∧ swept_to (c := c) (∅ ∪ list_to_set P.*1) o1 o2)).
  { unfold cleanupCollection. rewrite subjects_name, objects_name.
    eapply (writes_bind _ _ _ _ (λ _ x', ∃ s2, x' = put_coll On o1 (put_coll Sn s2 (set_cp_ids t x)) ∧ swept_to (c := c) (pr_keep p) s1 s2)).
    - eapply writes_bind; [apply (CleanupStalePoints_writes Sn s1); cbn; rewrite lookup_insert_ne by done; apply lookup_insert_eq|].
      intros _ ? (s2 & Hsw & ->). apply writes_ret. exists s2. split; [|done]. unfold x1, put_coll, set_cp_collections. cbn. f_equal.
      rewrite (insert_insert_ne _ Sn On) by done. by rewrite insert_insert_eq.
    - intros _ ? (s2 & -> & Hsw). eapply writes_bind; [apply (CleanupStalePoints_writes On o1), lookup_put_coll|].
      intros _ ? (o2 & Hsw2 & ->). apply writes_ret. exists s2, o2. split; [by rewrite put_coll_twice|done]. }
  intros _ ? (s2 & o2 & -> & HS & HO). apply writes_ret. exists t, s2, o2. split; [done|]. cbn [app] in *.
  pose proof Epl as Epl'. split; [done| | |].
  - intros Hr i Hi Hn. destruct (Haw Hr) as [_ HK _ _]. cbn [pr_keep p0] in HK. destruct HS as (Hkeep & _ & _). intros Hin.
    rewrite Hkeep in Hn by (rewrite HK; apply elem_of_union; by right). by destruct (Hs1 i).
  - intros Hr i Hi Hn k. destruct (Haw Hr) as [_ _ HCO _]. cbn [pr_co p0] in HCO. fold (run_co ns lambda (im_rows t) now x) in HCO.
    destruct HO as (Hkeep & _ & _). assert (i ∉ P.*1) as Hni by (intros Hin; rewrite Hkeep in Hn by (apply elem_of_union; right; by apply elem_of_list_to_set); by destruct (Hob i)).
    pose proof (pass_points_rows (pr_co p) now i) as Hrows. rewrite Epl in Hrows. rewrite HCO in Hrows at 1.
    destruct (Hrows ltac:(apply run_rows_ok, Hg)) as (row & Hrow & Hin & _). fold P in Hin. rewrite <- HCO, <- Hrow.
    destruct (decide (row = ∅)) as [->|Hrne']; [apply lookup_empty|]. by destruct Hni; apply Hin.
  - intros Ht Hr _. destruct (Haw Hr) as [-> HK HCO HU]. cbn [pr_keep pr_co pr_upserted p0] in *. fold (run_co ns lambda (im_rows t) now x) in HCO.
    rewrite <- HCO, Epl. cbn [fst snd]. fold P. split_and!.
    + by rewrite HU.
    + apply (sweep_leaves_written _ (pr_keep p) s); [|by rewrite Ht in HS]. rewrite HK. unfold vec_ids, vec_points. rewrite <- list_fmap_compose. apply (left_id_L ∅ (∪)).
    + apply (sweep_leaves_written _ (∅ ∪ list_to_set P.*1) o); [apply (left_id_L ∅ (∪))|]. rewrite Ht in HO. by rewrite Wa in HO.
Qed.
End recompute.

(** ** What the window says *)

Lemma group_events_lookup rows s : default [] (group_events rows !! s) = filter (λ e, re_SubjectID e = s) rows.
Proof.
  unfold group_events. enough (∀ m : gmap string (list RawEvent), default [] (foldl (λ m e, <[re_SubjectID e := default [] (m !! re_SubjectID e) ++ [e]]> m) m rows !! s) =
    default [] (m !! s) ++ filter (λ e, re_SubjectID e = s) rows) as H by (rewrite H; by rewrite lookup_empty).
  induction rows as [|e rows IH]; intros m; [by rewrite app_nil_r|]. cbn [foldl]. rewrite IH. destruct (decide (re_SubjectID e = s)) as [<-|Hn].
  - rewrite lookup_insert_eq, filter_cons_True by done. cbn. by rewrite <- app_assoc.
  - by rewrite lookup_insert_ne, filter_cons_False by done.
Qed.

(** A subject is scored by exactly its own events of the last ninety days. *)
Lemma chunk_events `{SqlOrder} ns chunk now x s :
  s ∈ chunk →
  default [] (group_events (subjects_rows ns chunk now x) !! s) ≡ₚ
    raw_event <$> filter (λ r, recent ns window_90d now r ∧ er_subject r = s) (cp_events x).
Proof.
  intros Hs. rewrite group_events_lookup. unfold subjects_rows.
  assert (∀ l, filter (λ e, re_SubjectID e = s) (raw_event <$> l) = raw_event <$> filter (λ r, er_subject r = s) l) as ->.
  { induction l as [|r l IH]; [done|]. rewrite fmap_cons. destruct (decide (er_subject r = s)).
    - rewrite !filter_cons_True by done. by rewrite IH.
    - rewrite !filter_cons_False by done. by rewrite IH. }
  rewrite unordered_perm, list_filter_filter. f_equiv. apply reflexive_eq, filter_agree. intros r _. split; [tauto|]. intros [? <-]. auto.
Qed.

Lemma active_subjects_elem `{SqlOrder} ns now x s :
  s ∈ active_subjects ns now x ↔ ∃ r, r ∈ cp_events x ∧ recent ns window_90d now r ∧ er_subject r = s.
Proof.
  unfold active_subjects. rewrite unordered_perm, elem_of_remove_dups, list_elem_of_fmap. setoid_rewrite list_elem_of_filter. naive_solver.
Qed.

Section theorems.
Context `{GoMath, GoSort, GoRange, SqlOrder}.

(** C23: Recomputing without failures: afterwards the subjects' collection holds
    exactly the vectors of the active subjects that can be built from their
    events of the window, and the objects' collection exactly one point for
    every object that some subject touched together with another, its vector
    being its full co-occurrence row; whatever was there before, and in
    whatever order rows and maps are walked. *)
Theorem recompute_exact ctx ns lambda Sn On s o w :
  RequireNamespaceLease ctx ns = [] → collectionForContext ctx ns KindSubjects = inl Sn → collectionForContext ctx ns KindObjects = inl On → Sn ≠ On →
  cp_collections (w_ext w) !! Sn = Some s → cp_collections (w_ext w) !! On = Some o → ids_ok (cp_ids (w_ext w)) → w_faults w = [] →
  let r := RecomputeNamespace ctx ns lambda w in
  let R := im_rows (cp_ids (w_ext r.2)) in
  let B := built_subjects ns lambda R (w_now w) (w_ext w) in
  in_range (cp_ids (w_ext r.2)) → active_subjects ns (w_now w) (w_ext w) = [] ∨ B ≠ [] →
  r.1.2 = [] ∧ r.1.1.1 = length B ∧
  cp_collections (w_ext r.2) !! Sn = Some (put_points (vec_points (w_now w) B) ∅) ∧
  ∃ objs, cp_collections (w_ext r.2) !! On = Some objs ∧
    ∀ t, ∃ row, (∀ k, row !! k = co_cell (row_of ns R <$> B) t k) ∧
      objs !! t = if decide (row = ∅) then None else Some (object_point (run_co ns lambda R (w_now w) (w_ext w)) (w_now w) t row).2.
Proof.
  intros Hl HSn HOn Hne Hs Ho Hok Hf r R B Hr HB.
  destruct (writes_run (c := true) (RecomputeNamespace ctx ns lambda) w _ (RecomputeNamespace_writes ctx ns lambda Sn On Hl HSn HOn s o (w_now w) (w_ext w) Hok Hne Hs Ho) ltac:(done))
    as (t & s' & o' & Hx & [Hg _ _ Hexact]).
  fold r in Hx, Hexact. assert (cp_ids (w_ext r.2) = t) as Ht by (by rewrite Hx). assert (R = im_rows t) as HR by (unfold R; by rewrite Ht).
  rewrite Ht in Hr. subst B. clearbody R. subst R.
  destruct (Hexact eq_refl Hr HB) as (Hr1 & -> & ->). rewrite Hr1. split; [done|]. split; [done|]. rewrite Hx. split; [cbn; rewrite lookup_insert_ne by done; apply lookup_insert_eq|].
  eexists. split; [apply lookup_put_coll|]. intros k.
  pose proof (pass_points_rows (run_co ns lambda (im_rows t) (w_now w) (w_ext w)) (w_now w) k ltac:(apply run_rows_ok, Hg)) as Hrow.
  destruct (planPasses cooccurrenceBudget _) as [passOf passes]. destruct Hrow as (row & Hrow & _ & Hpt). exists row. split; [|done].
  intros j. rewrite Hrow. unfold run_co. by rewrite co_fold_rows.
Qed.

(** C24: Recomputing under any failures: nothing but the two sparse collections
    of the leased generation and the id mapping changes, mappings are only
    added, and a point is removed only when the window no longer speaks for it:
    no active subject that can be built has its id, and no subject touched the
    object together with another. *)
Theorem recompute_spares_the_living ctx ns lambda Sn On s o w :
  RequireNamespaceLease ctx ns = [] → collectionForContext ctx ns KindSubjects = inl Sn → collectionForContext ctx ns KindObjects = inl On → Sn ≠ On →
  cp_collections (w_ext w) !! Sn = Some s → cp_collections (w_ext w) !! On = Some o → ids_ok (cp_ids (w_ext w)) →
  let x := w_ext w in
  let x' := w_ext (RecomputeNamespace ctx ns lambda w).2 in
  let R := im_rows (cp_ids x') in
  in_range (cp_ids x') →
  (∃ s' o', x' = put_coll On o' (put_coll Sn s' (set_cp_ids (cp_ids x') x)) ∧ im_rows (cp_ids x) ⊆ R ∧
     (∀ i, is_Some (s !! i) → s' !! i = None → ∀ b, b ∈ built_subjects ns lambda R (w_now w) x → sv_NumericID (bt_vec b) ≠ i) ∧
     (∀ i, is_Some (o !! i) → o' !! i = None → ∀ k, co_cell (row_of ns R <$> built_subjects ns lambda R (w_now w) x) i k = None)).
Proof.
  intros Hl HSn HOn Hne Hs Ho Hok x x' R Hr.
  destruct (writes_run (c := false) (RecomputeNamespace ctx ns lambda) w _ (RecomputeNamespace_writes ctx ns lambda Sn On Hl HSn HOn s o (w_now w) (w_ext w) Hok Hne Hs Ho) ltac:(done))
    as (t & s' & o' & Hx & [Hg HS HO _]).
  fold x' in Hx. assert (cp_ids x' = t) as Ht by (by rewrite Hx). assert (R = im_rows t) as HR by (unfold R; by rewrite Ht).
  rewrite Ht in Hr |- *. clearbody R. subst R. exists s', o'. split; [done|]. split; [apply Hg|]. split.
  - intros i Hi Hn b Hb <-. apply (HS Hr _ Hi Hn). apply elem_of_list_to_set, list_elem_of_fmap. by exists b.
  - intros i Hi Hn k. rewrite <- (HO Hr i Hi Hn k). unfold run_co. by rewrite co_fold_rows.
Qed.
End theorems.

(** ** Witnesses *)

Definition sample_order : SqlOrder := {| unordered A l := l; unordered_perm A l := reflexivity l |}.

Definition sample_event (s obj : string) : EventRec :=
  {| er_namespace := "demo"; er_subject := s; er_object := obj; er_action := "VIEW"; er_weight := f64_one; er_occurred_at := 9; er_created_at := None |}.

Definition sample_point (entity : string) : VPoint :=
  {| vp_entity := entity; vp_vector := VSparse [] []; vp_created_at := None; vp_strategy := None; vp_updated_at := None |}.

Definition lease_ctx : Ctx := with_lease {| lv_namespace := "demo"; lv_generation := 3; lv_mode := LockShared |} background.

Definition coll_name (kind : PhysicalKind) : string := match collectionForContext lease_ctx "demo" kind with inl name => name | inr _ => "" end.

(** One subject touched two objects, another one of them; a point of each
    collection is left over from an older run. *)
Definition compute_state : Compute :=
  {| cp_events := [sample_event "s1" "a"; sample_event "s1" "b"; sample_event "s2" "b"]; cp_configs := ∅;
     cp_ids := {| im_rows := ∅; im_next := 1; im_racers := [] |};
     cp_collections := {[coll_name KindSubjects := {[99%Z := sample_point "gone"]}; coll_name KindObjects := {[98%Z := sample_point "gone"]}]};
     cp_trending := ∅; cp_runs := []; cp_next_run := 1; cp_operators := []; cp_observed := []; cp_locks := [] |}.

Definition compute_world (fs : list bool) : World Compute := with_world compute_state (demo_world fs).

Lemma sample_ids_ok : ids_ok (cp_ids compute_state).
Proof. split; [split; cbn; try done; intros *; by rewrite lookup_empty|]. by intros ? ? ?%elem_of_nil. Qed.

Section samples.
#[local] Existing Instances sample_math sample_sort canonical_range sample_order.

Lemma recompute_exact_witness :
  let r := RecomputeNamespace lease_ctx "demo" f64_one (compute_world []) in
  dom <$> (cp_collections (w_ext r.2)) = {["demo_g3_subjects" := {[1; 2]}%Z; "demo_g3_objects" := {[3; 4]}%Z]} ∧
  cp_collections (w_ext r.2) !! "demo_g3_subjects" =
    Some (put_points (vec_points 9 (built_subjects "demo" f64_one (im_rows (cp_ids (w_ext r.2))) 9 compute_state)) ∅).
Proof.
  split; [vm_compute; reflexivity|].
  apply (recompute_exact lease_ctx "demo" f64_one "demo_g3_subjects" "demo_g3_objects" {[99%Z := sample_point "gone"]} {[98%Z := sample_point "gone"]} (compute_world [])).
  - reflexivity.
  - vm_compute. reflexivity.
  - vm_compute. reflexivity.
  - discriminate.
  - vm_compute. reflexivity.
  - vm_compute. reflexivity.
  - apply sample_ids_ok.
  - reflexivity.
  - vm_compute. discriminate.
  - right. vm_compute. discriminate.
Defined.

(** The third call fails: the chunk is lost, nothing is removed. *)
Lemma recompute_spares_the_living_witness :
  let x' := w_ext (RecomputeNamespace lease_ctx "demo" f64_one (compute_world [false; false; true])).2 in
  (∃ p, cp_collections x' !! "demo_g3_subjects" = Some {[99%Z := p]}) ∧ im_rows (cp_ids compute_state) ⊆ im_rows (cp_ids x').
Proof.
  split; [eexists; vm_compute; reflexivity|].
  destruct (recompute_spares_the_living lease_ctx "demo" f64_one "demo_g3_subjects" "demo_g3_objects" {[99%Z := sample_point "gone"]} {[98%Z := sample_point "gone"]}
    (compute_world [false; false; true])) as (s' & o' & _ & Hsub & _).
  - reflexivity.
  - vm_compute. reflexivity.
  - vm_compute. reflexivity.
  - discriminate.
  - vm_compute. reflexivity.
  - vm_compute. reflexivity.
  - apply sample_ids_ok.
  - vm_compute. discriminate.
  - exact Hsub.
Defined.
End samples.
