(* ===== verification/DenseTraining.v ===== *)
(** * Training item vectors

    [internal/compute/dense.go]: skip-gram training with negative sampling and
    the truncated SVD. The random generator and [math.Pow] are interfaces of
    Go's library, the factorisation is gonum's. An index out of range is a
    panic, [None] here; the theorems show there is none. *)

From stdpp Require Import base tactics gmap sets strings list.
From Stdlib Require Import ZArith SpecFloat Lia.
From S2P Require Import Prelude GoLib Float64 Scoring Strategy Recommend ServingSamples ComputeVectors.

(** ** Libraries *)

(** [math/rand/v2]: a shuffle of [n] elements is a permutation of their
    positions. *)
Class GoRand := {
  rng : Type;
  NewPCG : Z → Z → rng;
  rand_Float32 : rng → float32 * rng;
  rand_Float64 : rng → float64 * rng;
  rand_Shuffle : nat → rng → list nat * rng;
  rand_Shuffle_perm : ∀ n r, (rand_Shuffle n r).1 ≡ₚ seq 0 n;
}.

Class GoPow := { Pow : float64 → float64 → float64 }.

(** The order in which the vocabulary map is walked. *)
Class GoRangeStrings := {
  range_strings : ∀ {A : Type}, gmap string A → list (string * A);
  range_strings_perm : ∀ {A : Type} (m : gmap string A), range_strings m ≡ₚ map_to_list m;
}.

(** gonum's thin SVD of an [r × c] matrix: [min r c] columns of V and as many
    singular values. *)
Record SVD := { svd_V : nat → nat → float64; svd_cols : nat; svd_values : list float64 }.

Class GonumSVD := {
  Factorize : nat → nat → list float64 → option SVD;
  Factorize_thin : ∀ r c data s, Factorize r c data = Some s → svd_cols s = Nat.min r c ∧ length (svd_values s) = Nat.min r c;
}.

Definition f32_sub (x y : float32) : float32 := SFsub f32_prec f32_emax x y.
Definition f32_one : float32 := f32_of_Z 1.

(** ** Helpers *)

Section sgd.
Context `{GoMath}.

Definition sigmoid32 (x : float32) : float32 :=
  f32_of_f64 (f64_div f64_one (f64_add f64_one (Exp (f64_neg (f64_of_f32 x))))).

Definition dot (target output : list float32) : float32 :=
  foldl (λ acc p, f32_add acc (f32_mul p.1 p.2)) f32_zero (zip target output).

(** A shorter output is an index out of range. *)
Definition sgdUpdate (target output : list float32) (label lr : float32) : option (list float32 * list float32) :=
  if (length output <? length target)%nat then None
  else
    let grad := f32_mul lr (f32_sub label (sigmoid32 (dot target output))) in
    let n := length target in
    Some (zip_with (λ t o, f32_add t (f32_mul grad o)) target output,
          zip_with (λ t o, f32_add o (f32_mul grad t)) target (take n output) ++ drop n output).
End sgd.

Section training.
Context `{GoMath, GoRand, GoPow, GoRangeStrings}.

(** [cum] of [newNoiseSampler]. *)
Definition noise_probs (counts : list nat) : list float64 := (λ c, Pow (f64_of_Z (Z.of_nat c)) (f64_scaled 3 (-2))) <$> counts.

Fixpoint running_sums (total running : float64) (probs : list float64) : list float64 :=
  match probs with
  | [] => []
  | p :: rest => let running := f64_add running (f64_div p total) in running :: running_sums total running rest
  end.

Definition newNoiseSampler (counts : list nat) : list float64 :=
  let probs := noise_probs counts in running_sums (foldl f64_add f64_zero probs) f64_zero probs.

(** The binary search; every round shrinks the interval. *)
Fixpoint sample_loop (fuel : nat) (cum : list float64) (r : float64) (lo hi : nat) : option nat :=
  if (lo <? hi)%nat then
    match fuel with
    | O => None
    | S fuel =>
        let mid := ((lo + hi) / 2)%nat in
        c ← cum !! mid;
        if f64_ltb c r then sample_loop fuel cum r (S mid) hi else sample_loop fuel cum r lo mid
    end
  else Some lo.

Definition sample (cum : list float64) (g : rng) : option nat * rng :=
  let '(r, g) := rand_Float64 g in (sample_loop (length cum) cum r 0 (length cum - 1), g).

Fixpoint random_values (n : nat) (dim : nat) (g : rng) : list float32 * rng :=
  match n with
  | O => ([], g)
  | S n =>
      let '(x, g) := rand_Float32 g in
      let '(rest, g) := random_values n dim g in
      (f32_div (f32_sub x (f32_of_f64 (f64_scaled 1 (-1)))) (f32_of_Z (Z.of_nat dim)) :: rest, g)
  end.

Definition randomVec (dim : nat) (g : rng) : list float32 * rng := random_values dim dim g.

(** ** Training *)

Record Item2VecConfig := { i2v_Dim : nat; i2v_Window : nat; i2v_MinCount : nat; i2v_Epochs : nat; i2v_NegSamples : nat }.

Definition item_freq (seqs : list InteractionSequence) : gmap string nat :=
  foldl (λ m item, add_to Nat.add 0%nat item 1%nat m) ∅ (seqs ≫= is_ObjectIDs).

(** The items of the vocabulary with their counts, in walking order. *)
Definition vocabulary (cfg : Item2VecConfig) (seqs : list InteractionSequence) : list (string * nat) :=
  filter (λ ic, (i2v_MinCount cfg <= ic.2)%nat) (range_strings (item_freq seqs)).

Definition vocab_index (vocab : list (string * nat)) : gmap string nat := list_to_map (zip vocab.*1 (seq 0 (length vocab))).

Record weights := { wt_W : list (list float32); wt_Wp : list (list float32); wt_rng : rng }.

Fixpoint init_vecs (n dim : nat) (g : rng) : list (list float32) * rng :=
  match n with
  | O => ([], g)
  | S n => let '(v, g) := randomVec dim g in let '(vs, g) := init_vecs n dim g in (v :: vs, g)
  end.

(** One pair: W[i] against Wp[j]. *)
Definition update_pair (i j : nat) (label lr : float32) (w : weights) : option weights :=
  target ← wt_W w !! i; output ← wt_Wp w !! j;
  p ← sgdUpdate target output label lr;
  Some {| wt_W := <[i := p.1]> (wt_W w); wt_Wp := <[j := p.2]> (wt_Wp w); wt_rng := wt_rng w |}.

Fixpoint negatives (k : nat) (cum : list float64) (i ctxIdx : nat) (lr : float32) (w : weights) : option weights :=
  match k with
  | O => Some w
  | S k =>
      let '(neg, g) := sample cum (wt_rng w) in
      neg ← neg;
      let w := {| wt_W := wt_W w; wt_Wp := wt_Wp w; wt_rng := g |} in
      w ← (if (neg =? ctxIdx)%nat then Some w else update_pair i neg f32_zero lr w);
      negatives k cum i ctxIdx lr w
  end.

Definition train_pair (cfg : Item2VecConfig) (cum : list float64) (lr : float32) (i ctxIdx : nat) (w : weights) : option weights :=
  w ← update_pair i ctxIdx f32_one lr w; negatives (i2v_NegSamples cfg) cum i ctxIdx lr w.

Fixpoint train_all {A} (step : A → weights → option weights) (l : list A) (w : weights) : option weights :=
  match l with
  | [] => Some w
  | a :: rest => w ← step a w; train_all step rest w
  end.

(** The contexts of position [pos]. *)
Definition contexts (cfg : Item2VecConfig) (sq : list nat) (pos : nat) : list nat :=
  filter (.≠ pos) (seq (pos - i2v_Window cfg) (Nat.min (length sq) (pos + i2v_Window cfg + 1) - (pos - i2v_Window cfg))).

Definition train_position (cfg : Item2VecConfig) (cum : list float64) (lr : float32) (sq : list nat) (pos : nat) (w : weights) : option weights :=
  i ← sq !! pos;
  train_all (λ ctxPos w, j ← sq !! ctxPos; train_pair cfg cum lr i j w) (contexts cfg sq pos) w.

Definition train_seq (cfg : Item2VecConfig) (cum : list float64) (lr : float32) (sq : list nat) (w : weights) : option weights :=
  train_all (train_position cfg cum lr sq) (seq 0 (length sq)) w.

Definition max32 (a b : float32) : float32 := if SFltb b a then a else b.

(** [startLR] and [minLR] are the nearest singles to 0.025 and 0.0001. *)
Definition startLR : float32 := f32_of_f64 (f64_div f64_one (f64_of_Z 40)).
Definition minLR : float32 := f32_of_f64 (f64_div f64_one (f64_of_Z 10000)).

Definition train_epoch (cfg : Item2VecConfig) (cum : list float64) (epoch : nat) (st : list (list nat) * weights) : option (list (list nat) * weights) :=
  let '(filtered, w) := st in
  let '(perm, g) := rand_Shuffle (length filtered) (wt_rng w) in
  let filtered := (λ k, default [] (filtered !! k)) <$> perm in
  let progress := f32_div (f32_of_Z (Z.of_nat epoch)) (f32_of_Z (Z.of_nat (i2v_Epochs cfg))) in
  let lr := max32 minLR (f32_mul startLR (f32_sub f32_one progress)) in
  w ← train_all (train_seq cfg cum lr) filtered {| wt_W := wt_W w; wt_Wp := wt_Wp w; wt_rng := g |};
  Some (filtered, w).

Fixpoint train_epochs (cfg : Item2VecConfig) (cum : list float64) (epochs : list nat) (st : list (list nat) * weights) : option (list (list nat) * weights) :=
  match epochs with
  | [] => Some st
  | e :: rest => st ← train_epoch cfg cum e st; train_epochs cfg cum rest st
  end.

(** [None] is a panic, an empty map a vocabulary too small to train. *)
Definition TrainItem2Vec (seqs : list InteractionSequence) (cfg : Item2VecConfig) : option (gmap string (list float32)) :=
  let vocab := vocabulary cfg seqs in
  let index := vocab_index vocab in
  let n := length vocab in
  if (n <? 2)%nat then Some ∅
  else
    let '(W, g) := init_vecs n (i2v_Dim cfg) (NewPCG 42 0) in
    let w := {| wt_W := W; wt_Wp := replicate n (replicate (i2v_Dim cfg) f32_zero); wt_rng := g |} in
    let cum := newNoiseSampler vocab.*2 in
    let filtered := filter (λ fs, (2 <= length fs)%nat) ((λ q, omap (index !!.) (is_ObjectIDs q)) <$> seqs) in
    st ← train_epochs cfg cum (seq 0 (i2v_Epochs cfg)) (filtered, w);
    Some (omap (λ i : nat, wt_W st.2 !! i) index).
End training.

(** ** SVD *)

Definition svdMaxMatrixSize : Z := 10000000.
Definition ErrSVDTooLarge : string := "SVD matrix too large".
Definition ErrSVDFailed : string := "SVD factorization failed".

Section svd.
Context `{GoMath, GonumSVD}.

(** Indices in order of first appearance. *)
Definition first_index (keys : list string) : gmap string nat :=
  foldl (λ m k, if decide (is_Some (m !! k)) then m else <[k := size m]> m) ∅ keys.

Definition svd_cell (lambda : float64) (now : Z) (si oi : gmap string nat) (data : list float64) (e : RawEvent) : option (list float64) :=
  i ← si !! re_SubjectID e; j ← oi !! re_ObjectID e;
  let k := (i * size oi + j)%nat in
  v ← data !! k;
  Some (<[k := f64_add v (f64_mul (re_Weight e) (decay lambda 86400 now (re_OccurredAt e)))]> data).

Fixpoint svd_fill (lambda : float64) (now : Z) (si oi : gmap string nat) (events : list RawEvent) (data : list float64) : option (list float64) :=
  match events with
  | [] => Some data
  | e :: rest => data ← svd_cell lambda now si oi data e; svd_fill lambda now si oi rest data
  end.

(** Row [oi] of V, scaled, padded with zeros; [None] is an index out of range. *)
Definition svd_vector (s : SVD) (dim oi : nat) : option (list float32) :=
  let rank := Nat.min dim (svd_cols s) in
  vals ← mapM (λ d, v ← svd_values s !! d; Some (f32_of_f64 (f64_mul (svd_V s oi d) (f64_sqrt v)))) (seq 0 rank);
  Some (vals ++ replicate (dim - rank) f32_zero).

Definition SVDEmbeddings (events : list RawEvent) (dim : nat) (lambda : float64) (now : Z) : option (gmap string (list float32) + error) :=
  let si := first_index (re_SubjectID <$> events) in
  let oi := first_index (re_ObjectID <$> events) in
  let '(nS, nO) := (size si, size oi) in
  if (nS =? 0)%nat || (nO =? 0)%nat then Some (inl ∅)
  else if (svdMaxMatrixSize <? Z.of_nat nS * Z.of_nat nO)%Z then Some (inr [ErrSVDTooLarge])
  else
    data ← svd_fill lambda now si oi events (replicate (nS * nO) f64_zero);
    match Factorize nS nO data with
    | None => Some (inr [ErrSVDFailed])
    | Some s => vecs ← mapM (λ kv : string * nat, v ← svd_vector s dim kv.2; Some (kv.1, v)) (map_to_list oi); Some (inl (list_to_map vecs))
    end.
End svd.

(** ** The noise sampler *)

(** The search ends, inside its interval, before the fuel does. *)
Lemma sample_loop_range fuel cum r lo hi :
  (lo <= hi)%nat → (hi < length cum)%nat → (hi - lo <= fuel)%nat →
  ∃ k, sample_loop fuel cum r lo hi = Some k ∧ (lo <= k <= hi)%nat.
Proof.
  induction fuel as [|fuel IH] in lo, hi |- *; intros Hlh Hhi Hf; cbn [sample_loop].
  - destruct (Nat.ltb_spec lo hi); [lia | exists lo; split; [done | lia]].
  - destruct (Nat.ltb_spec lo hi) as [Hlt|]; [|exists lo; split; [done | lia]].
    assert (lo <= (lo + hi) / 2 < hi)%nat as Hmid.
    { split; [apply Nat.div_le_lower_bound | apply Nat.Div0.div_lt_upper_bound]; lia. }
    destruct (lookup_lt_is_Some_2 cum ((lo + hi) / 2)) as [c Hc]; [lia|].
    unfold mbind, option_bind. rewrite Hc. destruct (f64_ltb c r).
    + destruct (IH (S ((lo + hi) / 2)) hi) as (k & -> & Hk); [lia..|]. exists k; split; [done | lia].
    + destruct (IH lo ((lo + hi) / 2)%nat) as (k & -> & Hk); [lia..|]. exists k; split; [done | lia].
Qed.

Lemma running_sums_length total running probs : length (running_sums total running probs) = length probs.
Proof. induction probs as [|p probs IH] in running |- *; simpl; [done | by rewrite IH]. Qed.

Section item2vec.
Context `{GoMath, GoRand, GoPow, GoRangeStrings}.

Lemma newNoiseSampler_length counts : length (newNoiseSampler counts) = length counts.
Proof. unfold newNoiseSampler, noise_probs. by rewrite running_sums_length, length_fmap. Qed.

Lemma sample_in_range cum g : cum ≠ [] → ∃ k g', sample cum g = (Some k, g') ∧ (k < length cum)%nat.
Proof.
  intros Hne. unfold sample. destruct (rand_Float64 g) as [r g'].
  assert (length cum ≠ 0%nat) by (by rewrite length_zero_iff_nil).
  destruct (sample_loop_range (length cum) cum r 0 (length cum - 1)) as (k & -> & Hk); [lia..|].
  exists k, g'. split; [done | lia].
Qed.

(** ** The shape of the weights *)

Definition shaped (n dim : nat) (w : weights) : Prop :=
  length (wt_W w) = n ∧ length (wt_Wp w) = n ∧
  Forall (λ v, length v = dim) (wt_W w) ∧ Forall (λ v, length v = dim) (wt_Wp w).

(** A step that keeps the shape and does not panic. *)
Definition keeps (n dim : nat) (step : weights → option weights) : Prop :=
  ∀ w, shaped n dim w → ∃ w', step w = Some w' ∧ shaped n dim w'.

Lemma keeps_bind n dim f g : keeps n dim f → keeps n dim g → keeps n dim (λ w, w ← f w; g w).
Proof.
  intros Hf Hg w Hw. destruct (Hf w Hw) as (w' & Hfw & Hw'). unfold mbind, option_bind. rewrite Hfw. exact (Hg w' Hw').
Qed.

Lemma sgdUpdate_dims target output label lr :
  length target = length output →
  ∃ t o, sgdUpdate target output label lr = Some (t, o) ∧ length t = length target ∧ length o = length output.
Proof.
  intros Hl. unfold sgdUpdate. destruct (Nat.ltb_spec (length output) (length target)); [lia|].
  eexists _, _. split; [done|]. rewrite length_app, !length_zip_with, length_drop, length_take. lia.
Qed.

Lemma update_pair_keeps n dim i j label lr : (i < n)%nat → (j < n)%nat → keeps n dim (update_pair i j label lr).
Proof.
  intros Hi Hj w (HW & HWp & HdW & HdWp). unfold update_pair, mbind, option_bind.
  destruct (lookup_lt_is_Some_2 (wt_W w) i) as [t Ht]; [lia|].
  destruct (lookup_lt_is_Some_2 (wt_Wp w) j) as [o Ho]; [lia|].
  rewrite Ht, Ho.
  pose proof (Forall_lookup_1 _ _ _ _ HdW Ht) as Hlt. pose proof (Forall_lookup_1 _ _ _ _ HdWp Ho) as Hlo. simpl in Hlt, Hlo.
  destruct (sgdUpdate_dims t o label lr) as (t' & o' & -> & Ht' & Ho'); [lia|].
  eexists. split; [done|]. unfold shaped. simpl. rewrite !length_insert.
  repeat split; [done..| |]; apply Forall_insert; [done | lia | done | lia].
Qed.

Lemma negatives_keeps n dim k cum i ctxIdx lr :
  length cum = n → cum ≠ [] → (i < n)%nat → keeps n dim (negatives k cum i ctxIdx lr).
Proof.
  intros Hn Hne Hi. induction k as [|k IH]; intros w Hw; simpl; [eauto|].
  destruct (sample_in_range cum (wt_rng w) Hne) as (neg & g & -> & Hneg). simpl.
  destruct (_ =? _)%nat; simpl; [by apply IH|].
  by apply (keeps_bind n dim _ _ (update_pair_keeps n dim i neg f32_zero lr Hi ltac:(lia)) IH).
Qed.

Lemma train_pair_keeps n dim cfg cum lr i j :
  length cum = n → cum ≠ [] → (i < n)%nat → (j < n)%nat → keeps n dim (train_pair cfg cum lr i j).
Proof. intros. unfold train_pair. apply keeps_bind; [by apply update_pair_keeps | by apply negatives_keeps]. Qed.

Lemma train_all_keeps {A} n dim (step : A → weights → option weights) l :
  (∀ a, a ∈ l → keeps n dim (step a)) → keeps n dim (train_all step l).
Proof.
  induction l as [|a l IH]; intros Hs w Hw; simpl; [eauto|].
  apply (keeps_bind n dim); [apply Hs; by left | apply IH; intros b Hb; apply Hs; by right | done].
Qed.

Lemma train_seq_keeps n dim cfg cum lr sq :
  length cum = n → cum ≠ [] → Forall (λ i, (i < n)%nat) sq → keeps n dim (train_seq cfg cum lr sq).
Proof.
  intros Hn Hne Hsq. apply train_all_keeps. intros pos Hpos. apply elem_of_seq in Hpos.
  destruct (lookup_lt_is_Some_2 sq pos) as [i Hi]; [lia|]. unfold train_position.
  intros w Hw. unfold mbind, option_bind. rewrite Hi. revert w Hw. apply train_all_keeps.
  intros c Hc w Hw. unfold contexts in Hc. apply list_elem_of_filter in Hc as [_ Hc]. apply elem_of_seq in Hc.
  destruct (lookup_lt_is_Some_2 sq c) as [j Hj]; [lia|]. rewrite Hj.
  apply (train_pair_keeps n dim); [done | done | exact (Forall_lookup_1 _ _ _ _ Hsq Hi) | exact (Forall_lookup_1 _ _ _ _ Hsq Hj) | done].
Qed.

Definition indexed (n : nat) (filtered : list (list nat)) : Prop := Forall (Forall (λ i, (i < n)%nat)) filtered.

Lemma shuffled_indexed n filtered perm :
  indexed n filtered → indexed n ((λ k, default [] (filtered !! k)) <$> perm).
Proof.
  intros Hf. apply Forall_fmap, Forall_forall. intros k _. simpl. destruct (filtered !! k) as [sq|] eqn:Hk; simpl; [|constructor].
  exact (Forall_lookup_1 _ _ _ _ Hf Hk).
Qed.

Lemma train_epoch_keeps n dim cfg cum epoch filtered w :
  length cum = n → cum ≠ [] → indexed n filtered → shaped n dim w →
  ∃ filtered' w', train_epoch cfg cum epoch (filtered, w) = Some (filtered', w') ∧ indexed n filtered' ∧ shaped n dim w'.
Proof.
  intros Hn Hne Hf Hw. unfold train_epoch. destruct (rand_Shuffle (length filtered) (wt_rng w)) as [perm g].
  pose proof (shuffled_indexed n filtered perm Hf) as Hf'. set (sh := _ <$> perm) in *.
  set (lr := max32 _ _).
  destruct (train_all_keeps n dim (train_seq cfg cum lr) sh) with (w := {| wt_W := wt_W w; wt_Wp := wt_Wp w; wt_rng := g |})
    as (w' & Hr & Hw'); [|done|].
  - intros sq Hsq. apply train_seq_keeps; [done..|]. by apply (Forall_forall _ sh).
  - unfold mbind, option_bind. rewrite Hr. eauto.
Qed.

Lemma train_epochs_keeps n dim cfg cum epochs filtered w :
  length cum = n → cum ≠ [] → indexed n filtered → shaped n dim w →
  ∃ filtered' w', train_epochs cfg cum epochs (filtered, w) = Some (filtered', w') ∧ shaped n dim w'.
Proof.
  intros Hn Hne. induction epochs as [|e epochs IH] in filtered, w |- *; intros Hf Hw; cbn [train_epochs]; [eauto|].
  destruct (train_epoch_keeps n dim cfg cum e filtered w) as (f' & w' & He & Hf' & Hw'); [done..|].
  unfold mbind, option_bind. rewrite He. by apply IH.
Qed.

Lemma random_values_length n dim g : length (random_values n dim g).1 = n.
Proof.
  induction n as [|n IH] in g |- *; simpl; [done|]. destruct (rand_Float32 g) as [x g'].
  specialize (IH g'). destruct (random_values n dim g'). simpl in *. by rewrite IH.
Qed.

Lemma init_vecs_shape n dim g : length (init_vecs n dim g).1 = n ∧ Forall (λ v, length v = dim) (init_vecs n dim g).1.
Proof.
  induction n as [|n IH] in g |- *; simpl; [by split|]. unfold randomVec.
  pose proof (random_values_length dim dim g) as Hl. destruct (random_values dim dim g) as [v g']. simpl in Hl.
  destruct (IH g') as [Hlen Hall]. destruct (init_vecs n dim g') as [vs g'']. simpl in *. split; [by rewrite Hlen | by constructor].
Qed.

(** ** The vocabulary *)

(** How often [item] was interacted with. *)
Definition occurrences (seqs : list InteractionSequence) (item : string) : nat :=
  length (filter (.= item) (seqs ≫= is_ObjectIDs)).

Lemma count_fold (items : list string) (m : gmap string nat) item :
  default 0%nat (foldl (λ m i, add_to Nat.add 0%nat i 1%nat m) m items !! item) =
    (default 0%nat (m !! item) + length (filter (.= item) items))%nat ∧
  (is_Some (foldl (λ m i, add_to Nat.add 0%nat i 1%nat m) m items !! item) ↔ is_Some (m !! item) ∨ item ∈ items).
Proof.
  induction items as [|i items IH] in m |- *; simpl; [rewrite elem_of_nil; split; [lia | tauto]|].
  destruct (IH (add_to Nat.add 0%nat i 1%nat m)) as [-> ->]. unfold add_to. rewrite elem_of_cons.
  destruct (decide (i = item)) as [->|Hne].
  - rewrite lookup_insert_eq. rewrite filter_cons_True by done. simpl. split; [lia | naive_solver].
  - rewrite lookup_insert_ne by done. rewrite filter_cons_False by done. split; [done | naive_solver].
Qed.

Lemma item_freq_lookup seqs item c :
  item_freq seqs !! item = Some c ↔ item ∈ (seqs ≫= is_ObjectIDs) ∧ c = occurrences seqs item.
Proof.
  unfold item_freq. destruct (count_fold (seqs ≫= is_ObjectIDs) ∅ item) as [Hd Hs]. rewrite lookup_empty in Hd, Hs.
  simpl in Hd. unfold occurrences. destruct (foldl _ ∅ _ !! item) as [c'|].
  - simpl in Hd. split; [intros [= ->] | intros [_ ->]; by rewrite Hd]. split; [|done].
    destruct Hs as [Hs _]. destruct (Hs ltac:(eauto)) as [[? ?]|]; done.
  - split; [done|]. intros [Hin _]. destruct Hs as [_ Hs]. destruct Hs as [? ?]; [by right | done].
Qed.

(** The items worth training: seen at least [MinCount] times. *)
Definition eligible (cfg : Item2VecConfig) (seqs : list InteractionSequence) : gset string :=
  filter (λ item, (i2v_MinCount cfg <= occurrences seqs item)%nat) (list_to_set (seqs ≫= is_ObjectIDs)).

Lemma vocabulary_spec cfg seqs item c :
  (item, c) ∈ vocabulary cfg seqs ↔ item ∈ eligible cfg seqs ∧ c = occurrences seqs item.
Proof.
  unfold vocabulary, eligible. rewrite list_elem_of_filter, range_strings_perm, elem_of_map_to_list, item_freq_lookup.
  simpl. rewrite elem_of_filter, elem_of_list_to_set. naive_solver.
Qed.

Lemma vocabulary_NoDup cfg seqs : NoDup (vocabulary cfg seqs).*1.
Proof.
  unfold vocabulary. eapply sublist_NoDup; [|apply fmap_sublist, sublist_filter].
  rewrite (fmap_Permutation fst _ _ (range_strings_perm (item_freq seqs))). apply NoDup_fst_map_to_list.
Qed.

Lemma vocabulary_items cfg seqs : list_to_set (vocabulary cfg seqs).*1 =@{gset string} eligible cfg seqs.
Proof.
  apply set_eq. intros item. rewrite elem_of_list_to_set, list_elem_of_fmap. split.
  - intros ([i c] & -> & Hi). by apply vocabulary_spec in Hi as [? _].
  - intros Hi. exists (item, occurrences seqs item). split; [done|]. by apply vocabulary_spec.
Qed.

Lemma vocabulary_length cfg seqs : length (vocabulary cfg seqs) = size (eligible cfg seqs).
Proof.
  rewrite <- vocabulary_items, size_list_to_set by apply vocabulary_NoDup. by rewrite length_fmap.
Qed.

Lemma zip_seq_lookup {A} (l : list A) k x : (x, k) ∈ zip l (seq 0 (length l)) → l !! k = Some x.
Proof.
  intros [i Hi]%list_elem_of_lookup. apply lookup_zip_with_Some in Hi as (a & b & [= -> ->] & Ha & Hb).
  apply lookup_seq in Hb as [-> _]. done.
Qed.

Lemma vocab_index_lookup vocab item k :
  vocab_index vocab !! item = Some k → (k < length vocab)%nat ∧ (vocab.*1) !! k = Some item.
Proof.
  unfold vocab_index. intros Hk%elem_of_list_to_map_2.
  rewrite <- (length_fmap fst vocab) in Hk. apply zip_seq_lookup in Hk. split; [|done].
  rewrite <- (length_fmap fst vocab). by eapply lookup_lt_Some.
Qed.

Lemma vocab_index_dom vocab : dom (vocab_index vocab) = list_to_set vocab.*1.
Proof.
  unfold vocab_index. rewrite dom_list_to_map_L. f_equal. rewrite fst_zip; [done|]. rewrite length_seq, length_fmap. lia.
Qed.

Lemma filtered_indexed (index : gmap string nat) n seqs :
  (∀ item k, index !! item = Some k → (k < n)%nat) →
  indexed n (filter (λ fs, (2 <= length fs)%nat) ((λ q, omap (index !!.) (is_ObjectIDs q)) <$> seqs)).
Proof.
  intros Hi. apply Forall_forall. intros fs [_ Hfs]%list_elem_of_filter.
  apply list_elem_of_fmap in Hfs as (q & -> & _). apply Forall_forall. intros k Hk.
  apply list_elem_of_omap in Hk as (item & _ & Hk). by eapply Hi.
Qed.

Lemma TrainItem2Vec_fits seqs cfg :
  ∃ vecs, TrainItem2Vec seqs cfg = Some vecs ∧
    dom vecs = (if decide (size (eligible cfg seqs) < 2)%nat then ∅ else eligible cfg seqs) ∧
    ∀ item v, vecs !! item = Some v → length v = i2v_Dim cfg.
Proof.
  unfold TrainItem2Vec. rewrite vocabulary_length. destruct (decide _) as [Hlt|Hge].
  { rewrite (proj2 (Nat.ltb_lt _ _) Hlt). exists ∅. split_and!; [done | by rewrite dom_empty_L | done]. }
  rewrite (proj2 (Nat.ltb_ge _ _)) by lia. rewrite <- vocabulary_length in *. set (vocab := vocabulary cfg seqs) in *.
  destruct (init_vecs_shape (length vocab) (i2v_Dim cfg) (NewPCG 42 0)) as [HlW HdW].
  destruct (init_vecs _ _ _) as [W0 g]. simpl in HlW, HdW.
  set (filtered := filter _ _). set (w0 := {| wt_W := W0 |}).
  assert (∀ item k, vocab_index vocab !! item = Some k → (k < length vocab)%nat) as Hidx.
  { intros item k Hk. by apply vocab_index_lookup in Hk as [? _]. }
  destruct (train_epochs_keeps (length vocab) (i2v_Dim cfg) cfg (newNoiseSampler vocab.*2) (seq 0 (i2v_Epochs cfg)) filtered w0)
    as (f' & w' & Ht & HW & _ & HdW' & _).
  - by rewrite newNoiseSampler_length, length_fmap.
  - intros Hnil. apply (f_equal length) in Hnil. rewrite newNoiseSampler_length, length_fmap in Hnil. simpl in Hnil. lia.
  - by apply filtered_indexed.
  - unfold w0. split_and!; cbn [wt_W wt_Wp]; [done | by rewrite length_replicate | done|]. apply Forall_replicate. by rewrite length_replicate.
  - unfold mbind, option_bind. rewrite Ht. simpl. eexists. split; [done|]. split.
    + rewrite <- vocabulary_items, <- vocab_index_dom. apply set_eq. intros item. rewrite !elem_of_dom, lookup_omap.
      fold vocab. destruct (vocab_index vocab !! item) as [k|] eqn:Hk; simpl; [|done]. rewrite lookup_lt_is_Some.
      rewrite HW. split; [by eauto | intros _; by eapply Hidx].
    + intros item v. rewrite lookup_omap. destruct (vocab_index vocab !! item) as [k|]; simpl; [|done]. intros Hv.
      exact (Forall_lookup_1 _ _ _ _ HdW' Hv).
Qed.

(** item2vec never indexes out of range and its negative sampling always
    ends inside the vocabulary; with at least two items seen [MinCount] times
    the result has exactly those items, each with a vector of the configured
    dimension, and with fewer it is empty, for every source of randomness and
    every walking order of the frequency map. *)
Theorem trained_vectors_fit seqs cfg :
  ∃ vecs, TrainItem2Vec seqs cfg = Some vecs ∧
    dom vecs = (if decide (size (eligible cfg seqs) < 2)%nat then ∅ else eligible cfg seqs) ∧
    ∀ item v, vecs !! item = Some v → length v = i2v_Dim cfg.
Proof. apply TrainItem2Vec_fits. Qed.
End item2vec.

(** ** The interaction matrix *)

(** [first_index] numbers the keys from zero. *)
Lemma first_index_spec (keys : list string) (m : gmap string nat) :
  (∀ k i, m !! k = Some i → (i < size m)%nat) →
  let m' := foldl (λ m k, if decide (is_Some (m !! k)) then m else <[k := size m]> m) m keys in
  (∀ k i, m' !! k = Some i → (i < size m')%nat) ∧ dom m' = dom m ∪ list_to_set keys.
Proof.
  induction keys as [|k keys IH] in m |- *; intros Hm; simpl; [split; [done | by rewrite union_empty_r_L]|].
  destruct (decide (is_Some (m !! k))) as [Hk|Hk].
  - destruct (IH m Hm) as [H1 H2]. split; [done|]. rewrite H2. apply elem_of_dom in Hk. set_solver.
  - destruct (IH (<[k := size m]> m)) as [H1 H2].
    + intros k' i. rewrite map_size_insert_None by (by apply eq_None_not_Some).
      destruct (decide (k = k')) as [<-|]; [rewrite lookup_insert_eq; intros [= <-]; lia|].
      rewrite lookup_insert_ne by done. intros Hi. specialize (Hm _ _ Hi). lia.
    + split; [done|]. rewrite H2, dom_insert_L. set_solver.
Qed.

Lemma first_index_lookup keys k i : first_index keys !! k = Some i → (i < size (first_index keys))%nat.
Proof. destruct (first_index_spec keys ∅) as [H1 _]; [done|]. exact (H1 k i). Qed.

Lemma first_index_dom keys : dom (first_index keys) = list_to_set keys.
Proof. destruct (first_index_spec keys ∅) as [_ H2]; [done|]. unfold first_index. rewrite H2, dom_empty_L. by rewrite union_empty_l_L. Qed.

Lemma first_index_has keys k : k ∈ keys → ∃ i, first_index keys !! k = Some i ∧ (i < size (first_index keys))%nat.
Proof.
  intros Hk. assert (k ∈ dom (first_index keys)) as [i Hi]%elem_of_dom by (rewrite first_index_dom; by apply elem_of_list_to_set).
  exists i. split; [done|]. by eapply first_index_lookup.
Qed.

Section svd_facts.
Context `{GoMath, GonumSVD}.

Lemma svd_cell_total lambda now si oi data e i j nS :
  si !! re_SubjectID e = Some i → oi !! re_ObjectID e = Some j → (i < nS)%nat → (j < size oi)%nat →
  length data = (nS * size oi)%nat →
  ∃ data', svd_cell lambda now si oi data e = Some data' ∧ length data' = length data.
Proof.
  intros Hi Hj Hin Hjn Hl. unfold svd_cell, mbind, option_bind. rewrite Hi, Hj.
  destruct (lookup_lt_is_Some_2 data (i * size oi + j)) as [v Hv]; [rewrite Hl; nia|].
  rewrite Hv. eexists. split; [done|]. by rewrite length_insert.
Qed.

Lemma svd_fill_total lambda now (events es : list RawEvent) data :
  es ⊆ events →
  let si := first_index (re_SubjectID <$> events) in
  let oi := first_index (re_ObjectID <$> events) in
  length data = (size si * size oi)%nat →
  ∃ data', svd_fill lambda now si oi es data = Some data' ∧ length data' = length data.
Proof.
  intros Hsub si oi. induction es as [|e es IH] in data, Hsub |- *; intros Hl; cbn [svd_fill]; [eauto|].
  assert (e ∈ events) as He by (apply Hsub; by left).
  destruct (first_index_has (re_SubjectID <$> events) (re_SubjectID e)) as (i & Hi & Hin); [by apply list_elem_of_fmap_2|].
  destruct (first_index_has (re_ObjectID <$> events) (re_ObjectID e)) as (j & Hj & Hjn); [by apply list_elem_of_fmap_2|].
  destruct (svd_cell_total lambda now si oi data e i j (size si)) as (data' & Hc & Hl'); [done..|].
  unfold mbind, option_bind. rewrite Hc. destruct (IH data') as (d'' & -> & Hd); [set_solver | lia|]. exists d''. split; [done | lia].
Qed.

Lemma mapM_total {A B} (f : A → option B) (l : list A) : (∀ a, a ∈ l → is_Some (f a)) → ∃ k, mapM f l = Some k.
Proof. intros Hf. apply mapM_is_Some, Forall_forall. exact Hf. Qed.

Lemma svd_vector_fits s dim oi :
  length (svd_values s) = svd_cols s → ∃ v, svd_vector s dim oi = Some v ∧ length v = dim.
Proof.
  intros Hl. unfold svd_vector. set (f := λ d : nat, _).
  destruct (mapM_total f (seq 0 (dim `min` svd_cols s))) as [vals Hv].
  - intros d Hd%elem_of_seq. destruct (lookup_lt_is_Some_2 (svd_values s) d) as [x Hx]; [lia|].
    unfold f, mbind, option_bind. rewrite Hx. eauto.
  - unfold mbind at 1, option_bind at 1. rewrite Hv. eexists. split; [done|].
    apply length_mapM in Hv. rewrite length_seq in Hv. rewrite length_app, length_replicate. lia.
Qed.

Lemma vectors_dims (f : nat → option (list float32)) dim (oi : gmap string nat) :
  (∀ i, ∃ v, f i = Some v ∧ length v = dim) →
  ∃ vecs, mapM (λ kv : string * nat, v ← f kv.2; Some (kv.1, v)) (map_to_list oi) = Some vecs ∧
    dom (list_to_map vecs : gmap string (list float32)) = dom oi ∧
    ∀ item v, (list_to_map vecs : gmap string (list float32)) !! item = Some v → length v = dim.
Proof.
  intros Hf. set (g := λ kv : string * nat, _).
  assert (∀ kv, ∃ v, g kv = Some (kv.1, v) ∧ length v = dim) as Hg.
  { intros kv. destruct (Hf kv.2) as (v & Hv & Hl). exists v. unfold g, mbind, option_bind. by rewrite Hv. }
  destruct (mapM_total g (map_to_list oi)) as [vecs Hv].
  { intros kv _. destruct (Hg kv) as (v & -> & _). eauto. }
  exists vecs. split; [done|]. apply mapM_Some_1 in Hv.
  assert (vecs.*1 = (map_to_list oi).*1 ∧ Forall (λ p, length p.2 = dim) vecs) as [Hfst Hall].
  { clear -Hv Hg. induction Hv as [|kv p l l' Hp _ [IH1 IH2]]; [by split|]. destruct (Hg kv) as (v & Hv & Hl).
    rewrite Hv in Hp. injection Hp as <-. split; [rewrite !fmap_cons, IH1; done | by constructor]. }
  split.
  - rewrite dom_list_to_map_L, Hfst, <- dom_list_to_map_L. by rewrite list_to_map_to_list.
  - intros item v Hi%elem_of_list_to_map_2. exact (proj1 (Forall_forall _ _) Hall _ Hi).
Qed.

Lemma SVDEmbeddings_fits events dim lambda now :
  ∃ r, SVDEmbeddings events dim lambda now = Some r ∧
    match r with
    | inl vecs => dom vecs = list_to_set (re_ObjectID <$> events) ∧ ∀ item v, vecs !! item = Some v → length v = dim
    | inr e => (e = [ErrSVDTooLarge] ∧
                (svdMaxMatrixSize < Z.of_nat (size (list_to_set (re_SubjectID <$> events) : gset string)) *
                                    Z.of_nat (size (list_to_set (re_ObjectID <$> events) : gset string)))%Z) ∨
               e = [ErrSVDFailed]
    end.
Proof.
  unfold SVDEmbeddings. set (si := first_index (re_SubjectID <$> events)). set (oi := first_index (re_ObjectID <$> events)).
  assert (size si = size (list_to_set (re_SubjectID <$> events) : gset string)) as HnS
    by (unfold si; by rewrite <- first_index_dom, size_dom).
  assert (size oi = size (list_to_set (re_ObjectID <$> events) : gset string)) as HnO
    by (unfold oi; by rewrite <- first_index_dom, size_dom).
  destruct (_ || _) eqn:Hz.
  { exists (inl ∅). split; [done|]. split; [|done]. rewrite dom_empty_L.
    destruct events as [|e events]; [done|]. exfalso. apply orb_true_iff in Hz.
    rewrite HnS, HnO, !fmap_cons, !list_to_set_cons in Hz.
    destruct Hz as [Hz|Hz]; apply Nat.eqb_eq, size_empty_inv in Hz; set_solver. }
  destruct (Z.ltb_spec svdMaxMatrixSize (Z.of_nat (size si) * Z.of_nat (size oi))) as [Hlt|_].
  { eexists. split; [done|]. left. split; [done|]. by rewrite <- HnS, <- HnO. }
  destruct (svd_fill_total lambda now events events (replicate (size si * size oi) f64_zero)) as (data & Hd & _);
    [done | by rewrite length_replicate|].
  fold si oi in Hd. unfold mbind at 1, option_bind at 1. rewrite Hd.
  destruct (Factorize (size si) (size oi) data) as [s|] eqn:Hs; [|eexists; split; [done | by right]].
  apply Factorize_thin in Hs as [Hc Hv].
  destruct (vectors_dims (svd_vector s dim) dim oi) as (vecs & Hm & Hdom & Hdims).
  { intros i. apply svd_vector_fits. by rewrite Hc. }
  unfold mbind at 1, option_bind at 1. rewrite Hm. eexists. split; [done|]. split; [|done].
  rewrite Hdom. unfold oi. apply first_index_dom.
Qed.

(** the SVD never indexes out of range: it reports a matrix over the
    limit and a factorisation gonum refused, and otherwise gives every object
    of the events, and nothing else, a vector of exactly the collection's
    dimension, also when there are fewer singular values than dimensions. *)
Theorem svd_vectors_fit events dim lambda now :
  ∃ r, SVDEmbeddings events dim lambda now = Some r ∧
    match r with
    | inl vecs => dom vecs = list_to_set (re_ObjectID <$> events) ∧ ∀ item v, vecs !! item = Some v → length v = dim
    | inr e => (e = [ErrSVDTooLarge] ∧
                (svdMaxMatrixSize < Z.of_nat (size (list_to_set (re_SubjectID <$> events) : gset string)) *
                                    Z.of_nat (size (list_to_set (re_ObjectID <$> events) : gset string)))%Z) ∨
               e = [ErrSVDFailed]
    end.
Proof. apply SVDEmbeddings_fits. Qed.
End svd_facts.

(** ** Instances and samples *)

Definition sample_rand : GoRand :=
  {| rng := Z; NewPCG a _ := a; rand_Float32 r := (f32_of_Z r, (r + 1)%Z); rand_Float64 r := (f64_zero, (r + 1)%Z);
     rand_Shuffle n r := (rev (seq 0 n), r); rand_Shuffle_perm n _ := symmetry (Permutation_rev (seq 0 n)) |}.
Definition sample_pow : GoPow := {| Pow x _ := x |}.
Definition sample_range_strings : GoRangeStrings := {| range_strings A m := map_to_list m; range_strings_perm A m := reflexivity _ |}.

Lemma sample_thin n : length (replicate n f64_one) = n.
Proof. apply length_replicate. Qed.

Definition sample_svd : GonumSVD.
Proof.
  refine {| Factorize r c _ := Some {| svd_V _ _ := f64_one; svd_cols := Nat.min r c; svd_values := replicate (Nat.min r c) f64_one |} |}.
  intros r c data s [= <-]. split; [done | apply sample_thin].
Defined.

Definition train_samples : list InteractionSequence :=
  [{| is_SubjectID := "s1"; is_ObjectIDs := ["a"; "b"; "c"; "a"] |}; {| is_SubjectID := "s2"; is_ObjectIDs := ["b"; "a"] |}].
Definition train_cfg : Item2VecConfig := {| i2v_Dim := 2; i2v_Window := 1; i2v_MinCount := 2; i2v_Epochs := 1; i2v_NegSamples := 1 |}.

Section samples.
#[local] Existing Instances sample_math sample_rand sample_pow sample_range_strings sample_svd.

Lemma trained_vectors_fit_witness :
  ∃ vecs, TrainItem2Vec train_samples train_cfg = Some vecs ∧ dom vecs = {["a"; "b"]} ∧ ∀ item v, vecs !! item = Some v → length v = 2%nat.
Proof.
  destruct (trained_vectors_fit train_samples train_cfg) as (vecs & Hr & Hd & Hl).
  exists vecs. split; [exact Hr|]. split; [|exact Hl]. rewrite Hd. vm_compute. reflexivity.
Defined.

(** Two objects, one subject, dimension three: the tail is zero. *)
Definition svd_events : list RawEvent :=
  (λ o, {| re_SubjectID := "s"; re_ObjectID := o; re_Action := "VIEW"; re_Weight := f64_one; re_OccurredAt := 0; re_ObjectCreatedAt := None |}) <$> ["a"; "b"; "a"].

Lemma svd_vectors_fit_witness :
  SVDEmbeddings svd_events 3 f64_one 0 =
    Some (inl {["a" := [f32_one; f32_zero; f32_zero]; "b" := [f32_one; f32_zero; f32_zero]]}) ∧
  ∃ vecs, SVDEmbeddings svd_events 3 f64_one 0 = Some (inl vecs) ∧ dom vecs = {["a"; "b"]} ∧ ∀ item v, vecs !! item = Some v → length v = 3%nat.
Proof.
  split; [vm_compute; reflexivity|].
  destruct (svd_vectors_fit svd_events 3 f64_one 0) as ([vecs|e] & Hr & Hv); [|vm_compute in Hr; discriminate].
  exists vecs. split; [exact Hr|]. destruct Hv as [Hd Hl]. split; [|exact Hl]. rewrite Hd. vm_compute. reflexivity.
Defined.
End samples.
