(* ===== verification/DensePhase.v ===== *)
(** * The dense phase

    [internal/compute/dense.go]'s reads and writes of the dense collections,
    the dense sweeps of [cleanup.go], [infra/qdrant/collections.go] and
    [runPhase2Dense] of [job.go]. Item vectors are trained here or, under
    "catalog", read back from what the embedder wrote; subject vectors are
    always pooled from them. *)

From stdpp Require Import base tactics gmap sets strings list sorting.
From Stdlib Require Import ZArith SpecFloat Lia.
From S2P Require Import Prelude GoLib NsNames NsLedger NsService Float64 NamespaceConfig IdMap Scoring Strategy ComputeVectors Recompute DenseTraining.

(** ** collections.go *)

Definition CollectionExists (name : string) : M W (bool + error) :=
  call (λ _ s, (bool_decide (is_Some (cp_collections s !! name)), s)).

Definition ErrCollectionExists : string := "qdrant: collection already exists".

(** Creating a collection that is there fails. *)
Definition CreateCollection (name : string) : M W error :=
  let! r := call (λ _ s, match cp_collections s !! name with
                         | Some _ => (false, s)
                         | None => (true, set_cp_collections (<[name := ∅]> (cp_collections s)) s)
                         end) in
  ret (match r with inr e => e | inl true => [] | inl false => [ErrCollectionExists] end).

Definition ensure_collection (name : string) : M W error :=
  let! r := CollectionExists name in
  match r with
  | inr e => ret e
  | inl true => ret []
  | inl false => CreateCollection name
  end.

Fixpoint ensure_kinds (inc : Incarnation) (kinds : list PhysicalKind) : M W error :=
  match kinds with
  | [] => ret []
  | kind :: rest =>
      match Incarnation_MustPhysicalName inc kind with
      | None => ret [ErrPanic]
      | Some name => let! e := ensure_collection name in if negb (nil_err e) then ret e else ensure_kinds inc rest
      end
  end.

(** [qdrantVectorStore]: without a lease there is no collection to address. *)
Definition EnsureCollections (ctx : Ctx) (ns : string) : M W error :=
  match LeaseIncarnation ctx ns with
  | (inc, true) => ensure_kinds inc [KindSubjects; KindObjects]
  | (_, false) => ret [ErrLeaseRequired]
  end.

Definition EnsureDenseCollections (ctx : Ctx) (ns : string) : M W error :=
  match LeaseIncarnation ctx ns with
  | (inc, true) => ensure_kinds inc [KindObjectsDense; KindSubjectsDense]
  | (_, false) => ret [ErrLeaseRequired]
  end.

(** ** Writing dense vectors *)

Definition denseBatchSize : nat := 500.

Inductive entity := EObject | ESubject.

Definition entity_type (et : entity) : string := match et with EObject => "object" | ESubject => "subject" end.
Definition dense_kind (et : entity) : PhysicalKind := match et with EObject => KindObjectsDense | ESubject => KindSubjectsDense end.

Definition numeric_id (ctx : Ctx) (ns : string) (et : entity) (id : string) : M W (Z * error) :=
  on_ids (match et with EObject => GetOrCreateObjectID ctx id ns | ESubject => GetOrCreateSubjectID ctx id ns end).

Definition dense_point (strategy : string) (createdAt : gmap string Z) (now : Z) (id : string) (vec : list float32) : VPoint :=
  {| vp_entity := id; vp_vector := VDense vec; vp_created_at := createdAt !! id; vp_strategy := Some strategy; vp_updated_at := Some now |}.

Section dense_store.
Context (ctx : Ctx) (ns : string) (et : entity).

(** An id that cannot be resolved is logged and skipped. *)
Fixpoint upsert_dense_loop (name strategy : string) (vecs : gmap string (list float32)) (createdAt : gmap string Z) (now : Z) (ids : list string) (batch : list (Z * VPoint)) : M W error :=
  match ids with
  | [] => flush_points name batch
  | id :: rest =>
      let! ' (numID, err) := numeric_id ctx ns et id in
      if negb (nil_err err) then upsert_dense_loop name strategy vecs createdAt now rest batch
      else
        let batch := batch ++ [(numID, dense_point strategy createdAt now id (default [] (vecs !! id)))] in
        if (denseBatchSize <=? length batch)%nat
        then let! e := flush_points name batch in
             if negb (nil_err e) then ret e else upsert_dense_loop name strategy vecs createdAt now rest []
        else upsert_dense_loop name strategy vecs createdAt now rest batch
  end.

Definition upsertDenseVectors (name strategy : string) (vecs : gmap string (list float32)) (createdAt : gmap string Z) : M W error :=
  let! now := gets w_now in
  upsert_dense_loop name strategy vecs createdAt now (sort_strings (map_to_list vecs).*1) [].

(** [UpsertItemDenseVectors] and [UpsertSubjectDenseVectors]. *)
Definition UpsertDenseVectors (strategy : string) (vecs : gmap string (list float32)) (createdAt : gmap string Z) : M W error :=
  match collectionForContext ctx ns (dense_kind et) with
  | inr e => ret e
  | inl name => upsertDenseVectors name strategy vecs createdAt
  end.

(** The ids to keep; one that cannot be resolved ends the sweep. *)
Fixpoint keep_ids (ids : list string) (keep : gset Z) : M W (gset Z + error) :=
  match ids with
  | [] => ret (inl keep)
  | id :: rest =>
      let! ' (numID, err) := numeric_id ctx ns et id in
      if negb (nil_err err) then ret (inr err) else keep_ids rest ({[numID]} ∪ keep)
  end.

(** [CleanupStaleItemDensePoints] and [CleanupStaleSubjectDensePoints]. *)
Definition CleanupStaleDensePoints (ids : list string) : M W (nat + error) :=
  let! r := keep_ids ids ∅ in
  match r with
  | inr e => ret (inr e)
  | inl keep =>
      match collectionForContext ctx ns (dense_kind et) with
      | inr e => ret (inr e)
      | inl name => CleanupStalePoints name keep
      end
  end.
End dense_store.

(** ** Reading dense vectors *)

Section fetch.
Context `{SqlOrder}.

(** Qdrant's Get: the points there are, in any order. *)
Definition GetPoints (name : string) (ids : list Z) : M W (list (Z * VPoint) + error) :=
  let! r := call (λ _ s, ((λ coll : collection, unordered (omap (λ i, (λ p, (i, p)) <$> coll !! i) (remove_dups ids))) <$> cp_collections s !! name, s)) in
  ret (match r with inr e => inr e | inl (Some ps) => inl ps | inl None => inr [ErrNoCollection] end).

Definition fetched (numToString : gmap Z string) (out : gmap string (list float32)) (p : Z * VPoint) : gmap string (list float32) :=
  match numToString !! p.1, vp_vector p.2 with
  | Some objectID, VDense (v :: vs) => <[objectID := v :: vs]> out
  | _, _ => out
  end.

Definition fetch_flush (name : string) (batch : list Z) (numToString : gmap Z string) (out : gmap string (list float32)) : M W (gmap string (list float32) + error) :=
  match batch with
  | [] => ret (inl out)
  | _ => let! r := GetPoints name batch in
         match r with
         | inr e => ret (inr e)
         | inl ps => ret (inl (foldl (fetched numToString) out ps))
         end
  end.

Fixpoint fetch_loop (ctx : Ctx) (ns name : string) (ids : list string) (batch : list Z) (numToString : gmap Z string) (out : gmap string (list float32)) : M W (gmap string (list float32) + error) :=
  match ids with
  | [] => fetch_flush name batch numToString out
  | id :: rest =>
      let! ' (numID, err) := numeric_id ctx ns EObject id in
      if negb (nil_err err) then fetch_loop ctx ns name rest batch numToString out
      else
        let numToString := <[numID := id]> numToString in
        let batch := batch ++ [numID] in
        if (denseBatchSize <=? length batch)%nat
        then let! r := fetch_flush name batch numToString out in
             match r with
             | inr e => ret (inr e)
             | inl out => fetch_loop ctx ns name rest [] ∅ out
             end
        else fetch_loop ctx ns name rest batch numToString out
  end.

Definition FetchItemDenseVectors (ctx : Ctx) (ns : string) (objectIDs : list string) : M W (gmap string (list float32) + error) :=
  match collectionForContext ctx ns KindObjectsDense with
  | inr e => ret (inr e)
  | inl name => fetch_loop ctx ns name (sort_strings objectIDs) [] ∅ ∅
  end.
End fetch.

(** ** job.go: the phase *)

Definition trains (denseSource : string) : bool :=
  bool_decide (denseSource = DenseSourceItem2Vec) || bool_decide (denseSource = DenseSourceSVD).

Definition phase2Runs (denseSource : string) : bool :=
  bool_decide (denseSource = DenseSourceItem2Vec) || bool_decide (denseSource = DenseSourceSVD) || bool_decide (denseSource = DenseSourceCatalog).

(** 0.05, as the compiler rounds it. *)
Definition defaultLambda : float64 := f64_div f64_one (f64_of_Z 20).

Definition lambda_of (l : float64) : float64 := if f64_ltb f64_zero l then l else defaultLambda.

Definition embedding_dim (cfg : Config) : nat := Z.to_nat (if (0 <? cfg_EmbeddingDim cfg)%Z then cfg_EmbeddingDim cfg else 64).

Section phase.
Context `{GoMath, GoRand, GoPow, GoRangeStrings, GonumSVD, SqlOrder}.

(** The item vectors, and whether this run trained them. A panic is an error. *)
Definition item_vectors (ctx : Ctx) (ns : string) (cfg : Config) (events : list RawEvent) : M W ((gmap string (list float32) * bool) + error) :=
  if bool_decide (cfg_DenseSource cfg = DenseSourceItem2Vec) then
    ret (match TrainItem2Vec (BuildInteractionSequences events)
                 {| i2v_Dim := embedding_dim cfg; i2v_Window := 5; i2v_MinCount := 5; i2v_Epochs := 10; i2v_NegSamples := 5 |} with
         | Some vecs => inl (vecs, true)
         | None => inr [ErrPanic]
         end)
  else if bool_decide (cfg_DenseSource cfg = DenseSourceSVD) then
    let! now := gets w_now in
    ret (match SVDEmbeddings events (embedding_dim cfg) (lambda_of (cfg_Lambda cfg)) (unix now) with
         | Some (inl vecs) => inl (vecs, true)
         | Some (inr e) => inr e
         | None => inr [ErrPanic]
         end)
  else if bool_decide (cfg_DenseSource cfg = DenseSourceCatalog) then
    let! r := FetchItemDenseVectors ctx ns (interactedObjectIDs events) in
    ret (match r with inl vecs => inl (vecs, false) | inr e => inr e end)
  else ret (inl (∅, true)).

(** Both collections, the items' only when this run owns them. *)
Definition clear_dense (ctx : Ctx) (ns : string) (owned : bool) : M W error :=
  let! r := (if owned then CleanupStaleDensePoints ctx ns EObject [] else ret (inl 0%nat)) in
  match r with
  | inr e => ret e
  | inl _ =>
      let! r := CleanupStaleDensePoints ctx ns ESubject [] in
      ret (match r with inr e => e | inl _ => [] end)
  end.

(** Best effort. *)
Definition sweep_dense (ctx : Ctx) (ns : string) (itemVecs subjectVecs : gmap string (list float32)) : M W () :=
  CleanupStaleDensePoints ctx ns EObject (range_strings itemVecs).*1 ;;!
  CleanupStaleDensePoints ctx ns ESubject (range_strings subjectVecs).*1 ;;!
  ret tt.

Definition write_dense (ctx : Ctx) (ns : string) (cfg : Config) (events : list RawEvent) (itemVecs : gmap string (list float32)) (trained : bool) : M W ((nat * nat) * error) :=
  let! e := (if trained then UpsertDenseVectors ctx ns EObject (cfg_DenseSource cfg) itemVecs (objectCreatedAtLookup events) else ret []) in
  if negb (nil_err e) then ret ((0, 0)%nat, e)
  else
    match UserDenseVectors events itemVecs with
    | None => ret ((0, 0)%nat, [ErrPanic])
    | Some subjectVecs =>
        let! e := (if decide (subjectVecs = ∅) then ret [] else UpsertDenseVectors ctx ns ESubject (cfg_DenseSource cfg) subjectVecs ∅) in
        if negb (nil_err e) then ret ((0, 0)%nat, e)
        else
          (if trained then sweep_dense ctx ns itemVecs subjectVecs else ret tt) ;;!
          ret ((size itemVecs, size subjectVecs), [])
    end.

Definition runPhase2Dense (ctx : Ctx) (ns : string) (cfg : Config) : M W ((nat * nat) * error) :=
  let! r := HasAnyEvents ns in
  match r with
  | inr e => ret ((0, 0)%nat, e)
  | inl false => ret ((0, 0)%nat, [])
  | inl true =>
      let! e := EnsureDenseCollections ctx ns in
      if negb (nil_err e) then ret ((0, 0)%nat, e)
      else
        let! r := GetAllNamespaceEvents ns in
        match r with
        | inr e => ret ((0, 0)%nat, e)
        | inl [] => let! e := clear_dense ctx ns (trains (cfg_DenseSource cfg)) in ret ((0, 0)%nat, e)
        | inl events =>
            let! r := item_vectors ctx ns cfg events in
            match r with
            | inr e => ret ((0, 0)%nat, e)
            | inl (itemVecs, trained) =>
                if decide (itemVecs = ∅) then let! e := clear_dense ctx ns trained in ret ((0, 0)%nat, e)
                else write_dense ctx ns cfg events itemVecs trained
            end
        end
  end.
End phase.
