(* ===== verification/ComputeJob.v ===== *)
(** * The batch job

    [internal/compute/job.go] with the run log of [repository.go] and the
    trending store of [infra/redis/trending.go]: a run refreshes trending, then
    recomputes sparse and dense vectors, polling for an operator's cancel
    between phases, and closes its row of [batch_run_logs]. Observers are told
    as the run goes; log lines are not modelled. An error stands for its text.
    Between two polls operators may ask to stop runs: [cp_operators] scripts
    that, as the fault script of a world scripts failures. *)

From stdpp Require Import base tactics gmap sets strings list sorting.
From Stdlib Require Import ZArith SpecFloat Lia.
From S2P Require Import Prelude GoLib NsNames NsLedger NsService Stores ComputeLocks Float64 NamespaceConfig IdMap Scoring Strategy ComputeVectors Recompute DenseTraining DensePhase.

Abbreviation W := (World Compute).
Abbreviation call := Recompute.call.

(** ** batchrun *)

Definition TriggerCron : string := "cron".
Definition TriggerManual : string := "manual".
Definition TriggerReembed : string := "admin_reembed".
Definition OperatorCancelledMessage : string := "operator_cancelled".
Definition OrphanedRunMessage : string := "orphaned by process restart".
Definition ErrRunInProgress : string := "batch run already in progress".

(** ** repository.go: the run log *)

Definition no_phases : PhaseResults := {| Phase1 := None; Phase2 := None; Phase3 := None |}.

Definition new_run (id : Z) (ns : string) (startedAt : Z) (trigger : string) : BatchRow :=
  {| br_ID := id; br_Namespace := ns; br_StartedAt := startedAt; br_Trigger := trigger; br_CompletedAt := None; br_DurationMs := 0;
     br_Processed := 0; br_Success := false; br_Error := []; br_CancelRequested := false; br_Phases := no_phases |}.

Definition InsertBatchRunLog (ns : string) (startedAt : Z) (trigger : string) : M W (Z + error) :=
  call (λ _ s, let id := cp_next_run s in (id, set_cp_runs (cp_runs s ++ [new_run id ns startedAt trigger]) (id + 1) s)).

Definition close_run (completedAt durationMs : Z) (processed : nat) (success : bool) (err : error) (r : BatchRow) : BatchRow :=
  {| br_ID := br_ID r; br_Namespace := br_Namespace r; br_StartedAt := br_StartedAt r; br_Trigger := br_Trigger r;
     br_CompletedAt := Some completedAt; br_DurationMs := durationMs; br_Processed := processed; br_Success := success; br_Error := err;
     br_CancelRequested := br_CancelRequested r; br_Phases := br_Phases r |}.

Definition set_phases (p : PhaseResults) (r : BatchRow) : BatchRow :=
  {| br_ID := br_ID r; br_Namespace := br_Namespace r; br_StartedAt := br_StartedAt r; br_Trigger := br_Trigger r;
     br_CompletedAt := br_CompletedAt r; br_DurationMs := br_DurationMs r; br_Processed := br_Processed r; br_Success := br_Success r;
     br_Error := br_Error r; br_CancelRequested := br_CancelRequested r; br_Phases := p |}.

Definition ask_cancel (r : BatchRow) : BatchRow :=
  {| br_ID := br_ID r; br_Namespace := br_Namespace r; br_StartedAt := br_StartedAt r; br_Trigger := br_Trigger r;
     br_CompletedAt := br_CompletedAt r; br_DurationMs := br_DurationMs r; br_Processed := br_Processed r; br_Success := br_Success r;
     br_Error := br_Error r; br_CancelRequested := true; br_Phases := br_Phases r |}.

(** [UPDATE batch_run_logs ... WHERE P] *)
Definition update_runs (P : BatchRow → Prop) `{!∀ r, Decision (P r)} (f : BatchRow → BatchRow) (s : Compute) : nat * Compute :=
  (length (filter P (cp_runs s)), set_cp_runs ((λ r, if decide (P r) then f r else r) <$> cp_runs s) (cp_next_run s) s).

Definition UpdateBatchRunLog (id completedAt durationMs : Z) (processed : nat) (success : bool) (err : error) : M W error :=
  let! r := call (λ _, update_runs (λ r, br_ID r = id) (close_run completedAt durationMs processed success err)) in
  ret (match r with inr e => e | inl _ => [] end).

(** A phase that did not run leaves NULL columns. *)
Definition UpdateBatchRunPhases (id : Z) (phases : PhaseResults) : M W error :=
  let! r := call (λ _, update_runs (λ r, br_ID r = id) (set_phases phases)) in
  ret (match r with inr e => e | inl _ => [] end).

Definition orphaned (cutoff : Z) (r : BatchRow) : Prop := br_CompletedAt r = None ∧ (br_StartedAt r < cutoff)%Z.

#[global] Instance orphaned_dec cutoff r : Decision (orphaned cutoff r).
Proof. unfold orphaned. apply _. Defined.

(** [close_run] keeps the progress a reaped row had; [EXTRACT(EPOCH ...) * 1000]
    is cast to an int, to the nearest. *)
Definition reap (now : Z) (r : BatchRow) : BatchRow :=
  close_run now ((2 * (now - br_StartedAt r) + 1000000) / 2000000) (br_Processed r) false [OrphanedRunMessage] r.

Definition FinalizeOrphanRuns (cutoff : Z) : M W (nat + error) :=
  call (λ now, update_runs (orphaned cutoff) (reap now)).

Definition cancellable (id : Z) (r : BatchRow) : Prop := br_ID r = id ∧ br_CompletedAt r = None ∧ br_CancelRequested r = false.

#[global] Instance cancellable_dec id r : Decision (cancellable id r).
Proof. unfold cancellable. apply _. Defined.

Definition RequestCancel (id : Z) : M W (bool + error) :=
  let! r := call (λ _, update_runs (cancellable id) ask_cancel) in
  ret (match r with inr e => inr e | inl n => inl (0 <? n)%nat end).

(** What the operators did since the last poll. *)
Definition operators_act (s : Compute) : Compute :=
  match cp_operators s with
  | [] => s
  | ids :: rest => set_cp_operators rest (foldl (λ s id, (update_runs (cancellable id) ask_cancel s).2) s ids)
  end.

Definition ErrNoRows : string := "no rows in result set".

Definition GetCancelRequested (id : Z) : M W (bool + error) :=
  modify (λ w, set_ext (operators_act (w_ext w)) w) ;;!
  let! r := call (λ _ s, ((λ p, br_CancelRequested p.2) <$> list_find (λ r, br_ID r = id) (cp_runs s), s)) in
  ret (match r with inr e => inr e | inl (Some b) => inl b | inl None => inr [ErrNoRows] end).

(** [nsConfigSvc.Get]; a namespace without configuration is not an error. *)
Definition get_config (ns : string) : M W (option Config + error) := call (λ _ s, (cp_configs s !! ns, s)).

(** ** trending.go and its store *)

(** DEL, then ZADD and EXPIRE unless there is nothing to add. *)
Definition StoreTrending (ctx : Ctx) (ns : string) (scores : gmap string float64) (ttlSeconds : Z) : M W error :=
  match LeaseGeneration ctx ns with
  | (generation, true) =>
      match Incarnation_MustPhysicalName (NewIncarnation ns generation) KindTrending with
      | None => ret [ErrPanic]
      | Some key =>
          let! r := call (λ now s, (tt, set_cp_trending
            (if decide (scores = ∅) then delete key (cp_trending s)
             else <[key := (scores, (now + ttlSeconds * 1000000000)%Z)]> (cp_trending s)) s)) in
          ret (match r with inr e => e | inl _ => [] end)
      end
  | (_, false) => ret [ErrLeaseRequired]
  end.

(** ** job.go *)

Record Job := {
  j_batchLog : bool;
  j_observer : bool;
  j_lifecycle : option Service;
  j_locks : bool;
  j_trending : bool;
}.

Definition on_locks {A} (m : M (World Stores) A) : M W A := λ w,
  let r := m (with_world {| st_pg := λ _, []; st_redis := ∅; st_qdrant := ∅; st_compute := cp_locks (w_ext w) |} w) in
  (r.1, with_world (set_cp_locks (st_compute (w_ext r.2)) (w_ext w)) r.2).

Definition observe (j : Job) (runID : Z) (n : Notification) : M W () :=
  if j_observer j && (0 <? runID)%Z then modify (λ w, set_ext (set_cp_observed (cp_observed (w_ext w) ++ [n]) (w_ext w)) w) else ret tt.

Definition millis (t0 t1 : Z) : Z := (t1 - t0) / 1000000.

(** [executePhase]; [executePhase1Arg] has a second count of zero. *)
Definition executePhase (j : Job) (runID : Z) (ns : string) (phase : nat) (run : M W ((nat * nat) * error)) : M W PhaseResult :=
  observe j runID (OnPhaseStarted runID ns phase) ;;!
  let! t0 := gets w_now in
  let! ' ((c1, c2), err) := run in
  let! t1 := gets w_now in
  let p := {| ph_OK := nil_err err; ph_DurationMs := millis t0 t1; ph_Count1 := c1; ph_Count2 := c2; ph_Error := err |} in
  observe j runID (OnPhaseCompleted runID ns phase p) ;;!
  ret p.

Definition checkCancelBetweenPhases (j : Job) (runID : Z) : M W bool :=
  if negb (j_batchLog j) || (runID =? 0)%Z then ret false
  else
    let! r := GetCancelRequested runID in
    ret (match r with inl b => b | inr _ => false end).

Section job.
Context `{GoMath, GoSort, GoRange, GoRand, GoPow, GoRangeStrings, GonumSVD, SqlOrder, PgHash}.

Definition runPhase1 (ctx : Ctx) (ns : string) (cfg : option Config) : M W ((nat * nat) * error) :=
  let! r := HasAnyEvents ns in
  match r with
  | inr e => ret ((0, 0)%nat, e)
  | inl false => ret ((0, 0)%nat, [])
  | inl true =>
      let! e := EnsureCollections ctx ns in
      if negb (nil_err e) then ret ((0, 0)%nat, e)
      else
        let lambda := match cfg with Some c => lambda_of (cfg_Lambda c) | None => defaultLambda end in
        let! ' (counts, e) := RecomputeNamespace ctx ns lambda in
        if negb (nil_err e) then ret ((0, 0)%nat, e) else ret (counts, [])
  end.

(** Window in hours, decay, TTL in seconds and weights; 0.1 as the compiler
    rounds it. *)
Definition trending_params (cfg : option Config) : Z * float64 * Z * gmap string float64 :=
  match cfg with
  | None => (24, f64_div f64_one (f64_of_Z 10), 600, ∅)
  | Some c =>
      (if (0 <? cfg_TrendingWindow c)%Z then cfg_TrendingWindow c else 24,
       if f64_ltb f64_zero (cfg_LambdaTrending c) then cfg_LambdaTrending c else f64_div f64_one (f64_of_Z 10),
       if (0 <? cfg_TrendingTTL c)%Z then cfg_TrendingTTL c else 600,
       cfg_ActionWeights c)
  end%Z.

Definition runPhase3Trending (ctx : Ctx) (ns : string) (cfg : option Config) : M W ((nat * nat) * error) :=
  let '(windowHours, lambdaTrending, ttlSeconds, actionWeights) := trending_params cfg in
  let! r := GetNamespaceEventsInWindow ns windowHours in
  match r with
  | inr e => ret ((0, 0)%nat, e)
  | inl [] => let! e := StoreTrending ctx ns ∅ ttlSeconds in ret ((0, 0)%nat, e)
  | inl events =>
      let! now := gets w_now in
      let scores := TrendingScores events actionWeights lambdaTrending windowHours (unix now) in
      if decide (scores = ∅) then ret ((0, 0)%nat, [])
      else
        let! e := StoreTrending ctx ns scores ttlSeconds in
        if negb (nil_err e) then ret ((0, 0)%nat, e) else ret ((size scores, 0%nat), [])
  end.

(** What the phases of a run leave to its end. *)
Record outcome := { oc_phases : PhaseResults; oc_err : error; oc_cancelled : bool }.

Definition failure_of (p : option PhaseResult) : error := match p with Some r => if ph_OK r then [] else ph_Error r | None => [] end.

(** From the configuration to the end of phase 2. *)
Definition run_phases (j : Job) (ctx : Ctx) (ns : string) (logID : Z) (preTrending : option PhaseResult) : M W outcome :=
  let! r := get_config ns in
  let '(cfg, runErr) := match r with inl c => (c, []) | inr e => (None, e) end in
  let! p3 := (match preTrending with
              | Some p => ret (Some p)
              | None => if j_trending j then let! p := executePhase j logID ns 3 (runPhase3Trending ctx ns cfg) in ret (Some p)
                        else ret None
              end) in
  let! cancelled := checkCancelBetweenPhases j logID in
  let! ' (p1, runErr) := (if negb cancelled && nil_err runErr then
                            let! p := executePhase j logID ns 1 (runPhase1 ctx ns cfg) in ret (Some p, failure_of (Some p))
                          else ret (None, runErr)) in
  let! cancelled := (if negb cancelled && nil_err runErr then checkCancelBetweenPhases j logID else ret cancelled) in
  let! ' (p2, runErr) := (match cfg with
                          | Some c => if negb cancelled && nil_err runErr && phase2Runs (cfg_DenseSource c)
                                      then let! p := executePhase j logID ns 2 (runPhase2Dense ctx ns c) in ret (Some p, failure_of (Some p))
                                      else ret (None, runErr)
                          | None => ret (None, runErr)
                          end) in
  ret {| oc_phases := {| Phase1 := p1; Phase2 := p2; Phase3 := p3 |};
         oc_err := if nil_err runErr then failure_of p3 else runErr; oc_cancelled := cancelled |}.

(** Closing the row, on a context of its own, and telling the observer. *)
Definition finish_run (j : Job) (ns : string) (logID nsStart : Z) (o : outcome) : M W () :=
  let! now := gets w_now in
  let success := nil_err (oc_err o) && negb (oc_cancelled o) in
  let errMsg := if oc_cancelled o then [OperatorCancelledMessage] else oc_err o in
  let subjects := match Phase1 (oc_phases o) with Some p => ph_Count1 p | None => 0%nat end in
  (if j_batchLog j && (0 <? logID)%Z then
     UpdateBatchRunLog logID now (millis nsStart now) subjects success errMsg ;;!
     UpdateBatchRunPhases logID (oc_phases o) ;;!
     ret tt
   else ret tt) ;;!
  (if oc_cancelled o then observe j logID (OnRunCancelled logID ns)
   else observe j logID (OnRunCompleted logID ns success errMsg)).

(** The row's id; a failed insert leaves the run without one. *)
Definition open_run (j : Job) (ns trigger : string) (nsStart logID : Z) : M W Z :=
  if (logID =? 0)%Z && j_batchLog j then
    let! r := InsertBatchRunLog ns nsStart trigger in
    ret (match r with inl id => id | inr _ => 0%Z end)
  else ret logID.

Definition runNamespaceLocked (j : Job) (ctx : Ctx) (ns trigger : string) (logID : Z) (preTrending : option PhaseResult) : M W () :=
  let! nsStart := gets w_now in
  let! logID := open_run j ns trigger nsStart logID in
  observe j logID (OnRunStarted logID ns trigger) ;;!
  let! o := run_phases j ctx ns logID preTrending in
  finish_run j ns logID nsStart o.

Definition tryLock (j : Job) (ns : string) : M W (option ComputeRelease * error) := on_locks (job_tryLock (j_locks j) ns).

Definition locked {A} (a0 : A) (j : Job) (ns : string) (fn : Ctx → M W (A * error)) (ctx : Ctx) : M W (A * error) :=
  let! ' (release, err) := tryLock j ns in
  if negb (nil_err err) then ret (a0, err)
  else
    match release with
    | None => ret (a0, [ErrRunInProgress])
    | Some rel => let! a := fn ctx in on_locks (run_release rel) ;;! ret a
    end.

(** The lifecycle lease, when configured, then the compute lock. *)
Definition withNamespaceLocks {A} (a0 : A) (j : Job) (ctx : Ctx) (ns : string) (fn : Ctx → M W (A * error)) : M W (A * error) :=
  match j_lifecycle j with
  | Some svc => WithWriter a0 svc ctx ns (λ leased _, locked a0 j ns fn leased)
  | None => locked a0 j ns fn ctx
  end.

Definition runNamespace (j : Job) (ctx : Ctx) (ns trigger : string) (preTrending : option PhaseResult) : M W error :=
  let! r := withNamespaceLocks tt j ctx ns (λ ctx, runNamespaceLocked j ctx ns trigger 0 preTrending ;;! ret (tt, [])) in
  ret r.2.

Definition RunNamespace (j : Job) (ctx : Ctx) (ns trigger : string) : M W error := runNamespace j ctx ns trigger None.

Definition refreshTrending (j : Job) (ctx : Ctx) (ns : string) : M W (option PhaseResult * error) :=
  withNamespaceLocks None j ctx ns (λ ctx,
    let! r := get_config ns in
    let cfg := match r with inl c => c | inr _ => None end in
    let! p := executePhase j 0 ns 3 (runPhase3Trending ctx ns cfg) in
    ret (Some p, [])).

(** The caller is answered once the row is there; the run goes on without it. *)
Definition StartNamespaceRun (j : Job) (ctx : Ctx) (ns trigger : string) : M W (Z * error) :=
  let! r := withNamespaceLocks None j ctx ns (λ ctx,
    let! t := gets w_now in
    let! r := (if j_batchLog j then InsertBatchRunLog ns t trigger else ret (inl 0%Z)) in
    match r with
    | inr e => ret (None, e)
    | inl logID => runNamespaceLocked j ctx ns trigger logID None ;;! ret (Some logID, [])
    end) in
  ret (match r with (Some id, _) => (id, []) | (None, e) => (0%Z, e) end).

(** *** One tick *)

Definition orphanRunCutoff : Z := 90 * 60 * 1000000000.

(** A namespace that could not be refreshed is retried by its run. *)
Fixpoint refresh_all (j : Job) (ctx : Ctx) (namespaces : list string) (pre : gmap string PhaseResult) : M W (gmap string PhaseResult) :=
  match namespaces with
  | [] => ret pre
  | ns :: rest =>
      let! ' (result, err) := refreshTrending j ctx ns in
      refresh_all j ctx rest (match result, err with Some p, [] => <[ns := p]> pre | _, _ => pre end)
  end.

Fixpoint run_all (j : Job) (ctx : Ctx) (pre : gmap string PhaseResult) (namespaces : list string) : M W () :=
  match namespaces with
  | [] => ret tt
  | ns :: rest => runNamespace j ctx ns TriggerCron (pre !! ns) ;;! run_all j ctx pre rest
  end.

Definition runOnce (j : Job) (ctx : Ctx) : M W () :=
  let! now := gets w_now in
  FinalizeOrphanRuns (now - orphanRunCutoff) ;;!
  let! r := GetScheduledNamespaces in
  match r with
  | inr _ => ret tt
  | inl namespaces =>
      let! pre := (if j_trending j then refresh_all j ctx namespaces ∅ else ret ∅) in
      run_all j ctx pre namespaces
  end.
End job.
