(* ===== verification/JobFrames.v ===== *)
(** * What the phases of a run may touch

    [stays R m]: whatever fails, [m] leaves stores that [R] relates to those it
    started from. The trending phase writes only the trending sets, the vector
    phases only id mappings and collections. *)

From stdpp Require Import base tactics gmap sets strings list sorting.
From Stdlib Require Import ZArith SpecFloat Lia.
From S2P Require Import Prelude GoLib NsNames NsLedger NsService Hoare Stores ComputeLocks Float64 NamespaceConfig IdMap Scoring Strategy ComputeVectors Cooccurrence VectorFacts Recompute RecomputeFacts DenseTraining DensePhase ComputeJob.

Abbreviation call := Recompute.call.

Definition stays {A} (R : Compute → Compute → Prop) (m : M (World Compute) A) : Prop :=
  ∀ c now x, writes c m now x (λ _ x', R x x').

Create HintDb stays discriminated.

Section rules.
Context (R : Compute → Compute → Prop) `{!PreOrder R}.

Lemma stays_ret {A} (a : A) : stays R (ret a).
Proof. intros c now x. by apply writes_ret. Qed.

Lemma stays_bind {A B} (m : M (World Compute) A) (k : A → M (World Compute) B) : stays R m → (∀ a, stays R (k a)) → stays R (bind m k).
Proof.
  intros Hm Hk c now x. eapply writes_bind; [apply Hm|]. intros a x1 H1. eapply writes_mono; [apply Hk|]. intros b x2 H2. by transitivity x1.
Qed.

Lemma stays_call {A} (f : Z → Compute → A * Compute) : (∀ now x, R x (f now x).2) → stays R (call f).
Proof. intros Hf c now x. by apply writes_call. Qed.

Lemma stays_query {A} (f : Z → Compute → A) : stays R (call (λ now s, (f now s, s))).
Proof. by apply stays_call. Qed.

Lemma stays_gets {B} (f : Compute → B) : stays R (gets (λ w, f (w_ext w))).
Proof. intros c now x. by apply writes_gets. Qed.

Lemma stays_now : stays R (gets w_now).
Proof. intros c now x. by apply writes_gets_now. Qed.
End rules.

#[export] Hint Resolve stays_query stays_gets stays_now : stays.

(** Walk through a program, leaving what it calls to the hints. *)
Ltac stays_step :=
  match goal with
  | |- stays _ (ret _) => apply (stays_ret _)
  | |- stays _ (bind _ _) => apply (stays_bind _); [|intros ?]
  | |- stays _ (match ?x with _ => _ end) => destruct x eqn:?
  | |- stays _ (if ?b then _ else _) => destruct b eqn:?
  | |- stays _ _ => solve [eauto with stays typeclass_instances]
  end.
Ltac stays_tac := repeat stays_step.

(** ** Relations *)

(** Only ids and collections differ. *)
Definition only_vectors (x x' : Compute) : Prop := ∃ t cs, x' = set_cp_collections cs (set_cp_ids t x).

Definition only_trending (x x' : Compute) : Prop := ∃ t, x' = set_cp_trending t x.

#[export] Instance only_vectors_preorder : PreOrder only_vectors.
Proof.
  split; [intros x; exists (cp_ids x), (cp_collections x); by destruct x|].
  intros x y z (t1 & c1 & ->) (t2 & c2 & ->). by exists t2, c2.
Qed.

#[export] Instance only_trending_preorder : PreOrder only_trending.
Proof. split; [intros x; exists (cp_trending x); by destruct x|]. intros x y z (t1 & ->) (t2 & ->). by exists t2. Qed.

Lemma only_vectors_ids t x : only_vectors x (set_cp_ids t x).
Proof. exists t, (cp_collections x). by destruct x. Qed.

Lemma only_vectors_collections cs x : only_vectors x (set_cp_collections cs x).
Proof. exists (cp_ids x), cs. by destruct x. Qed.

#[export] Hint Resolve only_vectors_ids only_vectors_collections : stays.

(** ** The vector phases *)

Lemma stays_on_ids {A} (m : M (World IdTable) A) :
  (∀ c now t, writes c m now t (λ _ _, True)) → stays only_vectors (on_ids m).
Proof.
  intros Hm c now x. eapply writes_mono; [by apply (writes_on_ids _ _ _ (λ _ _, True))|]. intros a x' (t & -> & _). apply only_vectors_ids.
Qed.

Lemma batch_runs ctx ids ns et c now t : writes c (GetOrCreateBatch ctx ids ns et) now t (λ _ _, True).
Proof.
  destruct (RequireNamespaceLease ctx ns) as [|e err] eqn:Hl; [eapply writes_mono; [by apply GetOrCreateBatch_quiet|done]|].
  unfold GetOrCreateBatch. destruct ids; [by apply writes_ret|]. rewrite Hl. by apply writes_ret.
Qed.

Lemma create_runs ctx id ns et c now t : writes c (GetOrCreate ctx id ns et) now t (λ _ _, True).
Proof. unfold GetOrCreate. eapply writes_bind; [apply batch_runs|]. intros r t' _. repeat case_match; by apply writes_ret. Qed.

Lemma stays_numeric_id ctx ns et id : stays only_vectors (numeric_id ctx ns et id).
Proof. apply stays_on_ids. intros c now t. destruct et; apply create_runs. Qed.

Lemma stays_CollectionExists R `{!PreOrder R} name : stays R (CollectionExists name).
Proof. unfold CollectionExists. by apply stays_query. Qed.

Lemma stays_CreateCollection name : stays only_vectors (CreateCollection name).
Proof. unfold CreateCollection. stays_tac. apply (stays_call _). intros now x. case_match; [done | apply only_vectors_collections]. Qed.

Lemma stays_UpsertPoints name points : stays only_vectors (UpsertPoints name points).
Proof. unfold UpsertPoints. stays_tac. apply (stays_call _). intros now x. case_match; [apply only_vectors_collections | done]. Qed.

Lemma stays_DeletePoints name ids : stays only_vectors (DeletePoints name ids).
Proof. unfold DeletePoints. stays_tac. apply (stays_call _). intros now x. case_match; [apply only_vectors_collections | done]. Qed.

Lemma stays_ScrollAndOffset R `{!PreOrder R} name limit offset : stays R (ScrollAndOffset name limit offset).
Proof. unfold ScrollAndOffset. stays_tac. Qed.

#[export] Hint Resolve stays_numeric_id stays_CollectionExists stays_CreateCollection stays_UpsertPoints stays_DeletePoints stays_ScrollAndOffset : stays.

Lemma stays_scroll_stale fuel name keep offset stale : stays only_vectors (scroll_stale fuel name keep offset stale).
Proof. revert offset stale. induction fuel as [|fuel IH]; intros offset stale; cbn [scroll_stale]; stays_tac; apply IH. Qed.

Lemma stays_delete_batches name n bs : stays only_vectors (delete_batches name n bs).
Proof. revert n. induction bs as [|b bs IH]; intros n; cbn [delete_batches]; stays_tac; apply IH. Qed.

#[export] Hint Resolve stays_scroll_stale stays_delete_batches : stays.

Lemma stays_CleanupStalePoints name keep : stays only_vectors (CleanupStalePoints name keep).
Proof.
  unfold CleanupStalePoints. apply (stays_bind _); [|intros n; stays_tac].
  exact (stays_gets only_vectors (λ x, match cp_collections x !! name with Some coll => size coll | None => 0%nat end)).
Qed.

Lemma stays_flush_points name batch : stays only_vectors (flush_points name batch).
Proof. unfold flush_points. stays_tac. Qed.

#[export] Hint Resolve stays_CleanupStalePoints stays_flush_points : stays.

Lemma stays_ensure_kinds inc kinds : stays only_vectors (ensure_kinds inc kinds).
Proof. induction kinds as [|k kinds IH]; cbn [ensure_kinds]; unfold ensure_collection; stays_tac; apply IH. Qed.

#[export] Hint Resolve stays_ensure_kinds : stays.

Lemma stays_EnsureCollections ctx ns : stays only_vectors (EnsureCollections ctx ns).
Proof. unfold EnsureCollections. stays_tac. Qed.

Lemma stays_EnsureDenseCollections ctx ns : stays only_vectors (EnsureDenseCollections ctx ns).
Proof. unfold EnsureDenseCollections. stays_tac. Qed.

#[export] Hint Resolve stays_EnsureCollections stays_EnsureDenseCollections : stays.

Lemma stays_upsert_dense_loop ctx ns et name strategy vecs createdAt now ids batch :
  stays only_vectors (upsert_dense_loop ctx ns et name strategy vecs createdAt now ids batch).
Proof. revert batch. induction ids as [|id ids IH]; intros batch; cbn [upsert_dense_loop]; stays_tac; apply IH. Qed.

Lemma stays_keep_ids ctx ns et ids keep : stays only_vectors (keep_ids ctx ns et ids keep).
Proof. revert keep. induction ids as [|id ids IH]; intros keep; cbn [keep_ids]; stays_tac; apply IH. Qed.

#[export] Hint Resolve stays_upsert_dense_loop stays_keep_ids : stays.

Lemma stays_UpsertDenseVectors ctx ns et strategy vecs createdAt : stays only_vectors (UpsertDenseVectors ctx ns et strategy vecs createdAt).
Proof. unfold UpsertDenseVectors, upsertDenseVectors. stays_tac. Qed.

Lemma stays_CleanupStaleDensePoints ctx ns et ids : stays only_vectors (CleanupStaleDensePoints ctx ns et ids).
Proof. unfold CleanupStaleDensePoints. stays_tac. Qed.

#[export] Hint Resolve stays_UpsertDenseVectors stays_CleanupStaleDensePoints : stays.

Section phases.
Context `{GoMath, GoSort, GoRange, GoRand, GoPow, GoRangeStrings, GonumSVD, SqlOrder}.

Lemma stays_GetPoints R `{!PreOrder R} name ids : stays R (GetPoints name ids).
Proof. unfold GetPoints. stays_tac. Qed.

Lemma stays_fetch_flush name batch m out : stays only_vectors (fetch_flush name batch m out).
Proof. unfold fetch_flush, GetPoints. stays_tac. Qed.

Hint Resolve stays_fetch_flush : stays.

Lemma stays_fetch_loop ctx ns name ids batch m out : stays only_vectors (fetch_loop ctx ns name ids batch m out).
Proof. revert batch m out. induction ids as [|id ids IH]; intros batch m out; cbn [fetch_loop]; stays_tac; apply IH. Qed.

Hint Resolve stays_fetch_loop : stays.

Lemma stays_item_vectors ctx ns cfg events : stays only_vectors (item_vectors ctx ns cfg events).
Proof. unfold item_vectors, FetchItemDenseVectors. stays_tac. Qed.

Lemma stays_clear_dense ctx ns owned : stays only_vectors (clear_dense ctx ns owned).
Proof. unfold clear_dense. stays_tac. Qed.

Lemma stays_write_dense ctx ns cfg events vecs trained : stays only_vectors (write_dense ctx ns cfg events vecs trained).
Proof. unfold write_dense, sweep_dense. stays_tac. Qed.

Hint Resolve stays_item_vectors stays_clear_dense stays_write_dense : stays.

Lemma stays_runPhase2Dense ctx ns cfg : stays only_vectors (runPhase2Dense ctx ns cfg).
Proof. unfold runPhase2Dense, HasAnyEvents, GetAllNamespaceEvents. stays_tac. Qed.

(** *** The sparse phase *)

Lemma stays_resolveObjectIDs ctx ns keys : stays only_vectors (resolveObjectIDs ctx ns keys).
Proof. unfold resolveObjectIDs. stays_tac. apply stays_on_ids. intros. apply batch_runs. Qed.

Lemma stays_GetOrCreateSubjectIDs ctx l ns : stays only_vectors (on_ids (GetOrCreateSubjectIDs ctx l ns)).
Proof. apply stays_on_ids. intros. apply batch_runs. Qed.

Hint Resolve stays_resolveObjectIDs stays_GetOrCreateSubjectIDs : stays.

Lemma stays_buildChunk ctx ns chunk lambda : stays only_vectors (buildChunk ctx ns chunk lambda).
Proof. unfold buildChunk, GetSubjectsEvents. stays_tac. Qed.

Lemma stays_upsertSubjectVectors ctx ns vecs : stays only_vectors (upsertSubjectVectors ctx ns vecs).
Proof. unfold upsertSubjectVectors. stays_tac. Qed.

Hint Resolve stays_buildChunk stays_upsertSubjectVectors : stays.

Lemma stays_recompute_chunks ctx ns lambda chunks p : stays only_vectors (recompute_chunks ctx ns lambda chunks p).
Proof.
  revert p. induction chunks as [|chunk chunks IH]; intros p; cbn [recompute_chunks]; [stays_tac|].
  apply (stays_bind _); [unfold recompute_chunk; stays_tac|apply IH].
Qed.

Lemma stays_upsert_rows name co rows batch : stays only_vectors (upsert_rows name co rows batch).
Proof. revert batch. induction rows as [|[t row] rows IH]; intros batch; cbn [upsert_rows]; stays_tac; apply IH. Qed.

Hint Resolve stays_recompute_chunks stays_upsert_rows : stays.

Lemma stays_upsert_passes ctx ns co passOf passes keep n : stays only_vectors (upsert_passes ctx ns co passOf passes keep n).
Proof.
  revert keep n. induction passes as [|p passes IH]; intros keep n; cbn [upsert_passes]; unfold upsertObjectVectors; stays_tac; apply IH.
Qed.

Lemma stays_cleanupCollection ctx ns kind keep : stays only_vectors (cleanupCollection ctx ns kind keep).
Proof. unfold cleanupCollection. stays_tac. Qed.

Hint Resolve stays_upsert_passes stays_cleanupCollection : stays.

Lemma stays_RecomputeNamespace ctx ns lambda : stays only_vectors (RecomputeNamespace ctx ns lambda).
Proof. unfold RecomputeNamespace, GetActiveSubjects. stays_tac. Qed.

Hint Resolve stays_RecomputeNamespace : stays.

Lemma stays_runPhase1 ctx ns cfg : stays only_vectors (runPhase1 ctx ns cfg).
Proof. unfold runPhase1, HasAnyEvents. stays_tac. Qed.

(** *** The trending phase *)

Lemma stays_StoreTrending ctx ns scores ttl : stays only_trending (StoreTrending ctx ns scores ttl).
Proof. unfold StoreTrending. stays_tac. apply (stays_call _). intros now x. by eexists. Qed.

Hint Resolve stays_StoreTrending : stays.

Lemma stays_runPhase3Trending ctx ns cfg : stays only_trending (runPhase3Trending ctx ns cfg).
Proof. unfold runPhase3Trending, GetNamespaceEventsInWindow. stays_tac. Qed.
End phases.
