(* ===== verification/JobFacts.v ===== *)
(** * What a run records

    The row of a run tells what its phases did: it is marked successful exactly
    when the sparse phase ran, every recorded phase succeeded and no operator
    stopped it. A run stopped before the vector phases writes no vector. A tick
    closes one row per scheduled namespace. *)

From stdpp Require Import base tactics gmap sets strings list sorting.
From Stdlib Require Import ZArith SpecFloat Lia.
From S2P Require Import Prelude GoLib NsNames NsLedger NsService Hoare Stores ComputeLocks Float64 NamespaceConfig IdMap Scoring Strategy Recommend ServingSamples ComputeVectors Cooccurrence VectorFacts Recompute RecomputeFacts RecomputeExact DenseTraining DensePhase ComputeJob JobFrames.

Abbreviation W := (World Compute).
Abbreviation call := Recompute.call.

(** ** Rows up to cancel requests *)

Definition asked (r r' : BatchRow) : Prop := r' = r ∨ r' = ask_cancel r.

#[export] Instance asked_preorder : PreOrder asked.
Proof. split; [by left|]. intros r1 r2 r3 [-> | ->] [-> | ->]; [by left|by right|by right|by right]. Qed.

Definition run_frame (x x' : Compute) : Prop :=
  cp_events x' = cp_events x ∧ cp_configs x' = cp_configs x ∧ cp_locks x' = cp_locks x ∧ cp_next_run x' = cp_next_run x ∧
  Forall2 asked (cp_runs x) (cp_runs x').

#[export] Instance run_frame_preorder : PreOrder run_frame.
Proof.
  split; [intros x; split_and!; try done; reflexivity|].
  intros x y z (? & ? & ? & ? & Hxy) (? & ? & ? & ? & Hyz). split_and!; [congruence..|]. by etransitivity.
Qed.

Lemma vectors_frame x x' : only_vectors x x' → run_frame x x'.
Proof. intros (t & cs & ->). by split_and!. Qed.

Lemma trending_frame x x' : only_trending x x' → run_frame x x'.
Proof. intros (t & ->). by split_and!. Qed.

Lemma stays_mono {A} (R S : Compute → Compute → Prop) (m : M (World Compute) A) : (∀ x x', R x x' → S x x') → stays R m → stays S m.
Proof. intros HRS Hm c now x. eapply writes_mono; [apply Hm|]. intros a x'. apply HRS. Qed.

Lemma update_runs_asked id x : Forall2 asked (cp_runs x) (cp_runs (update_runs (cancellable id) ask_cancel x).2).
Proof. cbn. rewrite <- (list_fmap_id (cp_runs x)) at 1. apply Forall2_fmap, Forall_Forall2_diag, Forall_forall. intros r _. case_decide; [by right|by left]. Qed.

Lemma operators_act_frame x : run_frame x (operators_act x).
Proof.
  unfold operators_act. destruct (cp_operators x) as [|ids rest]; [reflexivity|].
  assert (∀ y, run_frame y (foldl (λ s id, (update_runs (cancellable id) ask_cancel s).2) y ids)) as Hf.
  { induction ids as [|id ids IH]; intros y; cbn [foldl]; [reflexivity|]. etransitivity; [|apply IH]. split_and!; try done. apply update_runs_asked. }
  destruct (Hf x) as (? & ? & ? & ? & ?). by split_and!.
Qed.

Lemma observe_frame j id n : stays run_frame (observe j id n).
Proof.
  unfold observe. destruct (_ && _); [|by apply (stays_ret _)]. intros c now x.
  by apply (writes_modify (λ s, set_cp_observed (cp_observed s ++ [n]) s)).
Qed.

#[export] Hint Resolve observe_frame : stays.

Lemma GetCancelRequested_frame id : stays run_frame (GetCancelRequested id).
Proof.
  unfold GetCancelRequested. stays_tac. intros c now x. apply (writes_modify operators_act). apply operators_act_frame.
Qed.

#[export] Hint Resolve GetCancelRequested_frame : stays.

Lemma checkCancel_frame j id : stays run_frame (checkCancelBetweenPhases j id).
Proof. unfold checkCancelBetweenPhases. stays_tac. Qed.

(** ** One phase *)

Definition consistent (p : PhaseResult) : Prop := ph_OK p = nil_err (ph_Error p).

Lemma executePhase_writes c j id ns phase run now x :
  stays run_frame run → writes c (executePhase j id ns phase run) now x (λ p x', consistent p ∧ run_frame x x').
Proof.
  intros Hr. unfold executePhase. eapply writes_bind; [apply observe_frame|]. intros ? x1 H1.
  eapply (writes_bind _ _ _ _ (λ t y, y = x1)); [by apply writes_gets_now|]. intros t0 y Hy; subst y.
  eapply writes_bind; [apply Hr|]. intros [[c1 c2] err] x2 H2.
  eapply (writes_bind _ _ _ _ (λ t y, y = x2)); [by apply writes_gets_now|]. intros t1 y Hy; subst y.
  eapply writes_bind; [apply observe_frame|]. intros ? x3 H3. apply writes_ret. split; [done|]. cbn in *. by rewrite H1, H2.
Qed.

(** ** The outcome *)

Section outcome.
Context `{GoMath, GoSort, GoRange, GoRand, GoPow, GoRangeStrings, GonumSVD, SqlOrder, PgHash}.

Definition recorded (ps : PhaseResults) (p : PhaseResult) : Prop := Phase1 ps = Some p ∨ Phase2 ps = Some p ∨ Phase3 ps = Some p.

Definition succeeded (o : outcome) : bool := nil_err (oc_err o) && negb (oc_cancelled o).

(** What an outcome says of the phases; [x] holds the configuration. *)
Record honest (j : Job) (ns : string) (pre : option PhaseResult) (x : Compute) (o : outcome) : Prop := {
  ho_success : succeeded o = true ↔
    oc_cancelled o = false ∧ is_Some (Phase1 (oc_phases o)) ∧ ∀ p, recorded (oc_phases o) p → ph_OK p = true;
  ho_dense : ∀ p, Phase2 (oc_phases o) = Some p →
    oc_cancelled o = false ∧ (∃ p1, Phase1 (oc_phases o) = Some p1 ∧ ph_OK p1 = true) ∧
    ∃ cfg, cp_configs x !! ns = Some cfg ∧ phase2Runs (cfg_DenseSource cfg) = true;
  ho_dense_runs : succeeded o = true → ∀ cfg, cp_configs x !! ns = Some cfg → phase2Runs (cfg_DenseSource cfg) = true →
    is_Some (Phase2 (oc_phases o));
  ho_trending : is_Some (Phase3 (oc_phases o)) ↔ is_Some pre ∨ j_trending j = true;
}.

Lemma nil_err_failure p : consistent p → nil_err (failure_of (Some p)) = ph_OK p.
Proof. intros Hc. unfold failure_of. rewrite Hc. by destruct (nil_err (ph_Error p)) eqn:?. Qed.

Lemma runPhase1_frame ctx ns cfg : stays run_frame (runPhase1 ctx ns cfg).
Proof. eapply stays_mono; [apply vectors_frame|apply stays_runPhase1]. Qed.

Lemma runPhase2_frame ctx ns cfg : stays run_frame (runPhase2Dense ctx ns cfg).
Proof. eapply stays_mono; [apply vectors_frame|apply stays_runPhase2Dense]. Qed.

Lemma runPhase3_frame ctx ns cfg : stays run_frame (runPhase3Trending ctx ns cfg).
Proof. eapply stays_mono; [apply trending_frame|apply stays_runPhase3Trending]. Qed.

Definition loaded (x : Compute) (ns : string) (cfg : option Config) (err0 : error) : Prop :=
  cfg = None ∧ err0 = [ErrDriver] ∨ cfg = cp_configs x !! ns ∧ err0 = [].

#[local] Arguments failure_of : simpl never.

(** A phase that runs under a condition: recorded with its failure, or skipped. *)
Definition sparse_step (err0 : error) (cancelled : bool) (r : option PhaseResult * error) : Prop :=
  r = (None, err0) ∧ negb cancelled && nil_err err0 = false ∨
  ∃ p, r.1 = Some p ∧ r.2 = failure_of (Some p) ∧ consistent p ∧ negb cancelled && nil_err err0 = true.

Definition dense_step (cfg : option Config) (cancelled : bool) (err1 : error) (r : option PhaseResult * error) : Prop :=
  r = (None, err1) ∧ (∀ cf, cfg = Some cf → negb cancelled && nil_err err1 && phase2Runs (cfg_DenseSource cf) = false) ∨
  ∃ p cf, r.1 = Some p ∧ r.2 = failure_of (Some p) ∧ cfg = Some cf ∧ consistent p ∧ negb cancelled && nil_err err1 && phase2Runs (cfg_DenseSource cf) = true.

Lemma nil_err_p3 p3 : (∀ p, p3 = Some p → consistent p) → nil_err (failure_of p3) = true ↔ ∀ p, p3 = Some p → ph_OK p = true.
Proof.
  intros Hc. destruct p3 as [p|]; [rewrite nil_err_failure by auto; naive_solver|]. by cbn.
Qed.

Lemma outcome_honest j ns pre x cfg err0 p3 cancelled p1 err1 cancelled' p2 err2 :
  loaded x ns cfg err0 →
  (is_Some p3 ↔ is_Some pre ∨ j_trending j = true) → (∀ p, p3 = Some p → consistent p) →
  sparse_step err0 cancelled (p1, err1) →
  (cancelled' = cancelled ∨ negb cancelled && nil_err err1 = true) →
  dense_step cfg cancelled' err1 (p2, err2) →
  honest j ns pre x {| oc_phases := {| Phase1 := p1; Phase2 := p2; Phase3 := p3 |};
                       oc_err := if nil_err err2 then failure_of p3 else err2; oc_cancelled := cancelled' |}.
Proof.
  intros Hcfg T3 C3 S1 Hc S2. unfold sparse_step, dense_step in S1, S2.
  assert (succeeded {| oc_phases := {| Phase1 := p1; Phase2 := p2; Phase3 := p3 |};
                       oc_err := if nil_err err2 then failure_of p3 else err2; oc_cancelled := cancelled' |} = true ↔
    cancelled' = false ∧ nil_err err2 = true ∧ ∀ p, p3 = Some p → ph_OK p = true) as Hs.
  { unfold succeeded. cbn. rewrite <- (nil_err_p3 p3 C3). destruct (nil_err err2) eqn:E; rewrite ?E; destruct cancelled', (nil_err (failure_of p3)); naive_solver. }
  cbn [fst snd] in *. destruct S1 as [[[= -> ->] E1]|(q1 & -> & -> & K1 & E1)].
  - (* the sparse phase did not run: cancelled or failed before *)
    assert (cancelled' = true ∨ nil_err err0 = false) as Hno.
    { destruct cancelled, (nil_err err0) eqn:E; cbn in *; destruct Hc as [-> |]; auto; discriminate. }
    destruct S2 as [[[= -> ->] _]|(q2 & cf & _ & _ & _ & _ & E2)]; [|destruct cancelled', (nil_err err0); cbn in E2; destruct Hno; discriminate].
    split; cbn; [|done| |done].
    + rewrite Hs. split; [intros (-> & Hn & _); destruct Hno; congruence|]. by intros (_ & [? ?] & _).
    + rewrite Hs. intros (-> & Hn & _). destruct Hno; congruence.
  - destruct S2 as [[[= -> ->] Hd]|(q2 & cf & -> & -> & -> & K2 & E2)]; rewrite ?nil_err_failure in * by done.
    + split; cbn; [|done| |done].
      * rewrite Hs. split; [intros (-> & Hn & HP3)|intros (-> & _ & HP)]; (split; [done|]).
        -- split; [by eexists|]. intros p [[= <-]|[|]]; [done|done|by apply HP3].
        -- split; [apply HP; by left|]. intros p Hp. apply HP. by right; right.
      * rewrite Hs. intros (-> & Hn & _) cf Hcf Hr. exfalso. destruct Hcfg as [[-> ->]|[-> ->]]; [cbn in E1; by rewrite andb_false_r in E1|].
        specialize (Hd cf Hcf). rewrite Hn, Hr in Hd. discriminate.
    + apply andb_true_iff in E2 as [[Hcf Hn1]%andb_true_iff Hr]. apply negb_true_iff in Hcf. subst cancelled'.
      split; cbn; [| | |done].
      * rewrite Hs. split; [intros (_ & Hn & HP3)|intros (_ & _ & HP)]; (split; [done|]).
        -- split; [by eexists|]. intros p [[= <-]|[[= <-]|]]; [done|done|by apply HP3].
        -- split; [apply HP; by right; left|]. intros p Hp. apply HP. by right; right.
      * intros p [= <-]. split; [done|]. split; [by exists q1|]. exists cf. split; [|done]. by destruct Hcfg as [[? ?]|[? ?]].
      * intros _ cf' _ _. by eexists.
Qed.

Lemma run_phases_writes c j ctx ns logID pre now x :
  (∀ p, pre = Some p → consistent p) →
  writes c (run_phases j ctx ns logID pre) now x (λ o x', honest j ns pre x o ∧ run_frame x x').
Proof.
  intros Hpre. unfold run_phases.
  eapply (writes_bind _ _ _ _ (λ r x', x' = x ∧ (r = inr [ErrDriver] ∨ r = inl (cp_configs x !! ns)))); [apply writes_query; auto|].
  intros r y [-> Hcfg].
  match goal with |- writes _ (match ?m with _ => _ end) _ _ _ =>
    assert (∃ cfg err0, m = (cfg, err0) ∧ loaded x ns cfg err0) as (cfg & err0 & Heq & Hc0); [|rewrite Heq; clear Heq] end.
  { destruct Hcfg as [-> | ->]; eexists _, _; (split; [done|]); [by left|by right]. }
  eapply (writes_bind _ _ _ _ (λ p3 x', run_frame x x' ∧ (is_Some p3 ↔ is_Some pre ∨ j_trending j = true) ∧ ∀ p, p3 = Some p → consistent p)).
  { destruct pre as [p|]; [apply writes_ret; naive_solver|]. destruct (j_trending j); [|apply writes_ret; naive_solver].
    eapply writes_bind; [apply executePhase_writes, runPhase3_frame|]. intros p x1 [Hp Hf]. apply writes_ret. split; [done|]. naive_solver. }
  intros p3 x1 (F1 & T3 & C3).
  eapply writes_bind; [apply checkCancel_frame|]. intros cancelled x2 F2. cbn in F2.
  eapply (writes_bind _ _ _ _ (λ r x', run_frame x x' ∧ sparse_step err0 cancelled r)).
  { destruct (negb cancelled && nil_err err0) eqn:E; [|apply writes_ret; split; [by rewrite F1|by left]].
    eapply writes_bind; [apply executePhase_writes, runPhase1_frame|]. intros p x3 [Hp Hf]. apply writes_ret.
    split; [by rewrite F1, F2|]. right. by exists p. }
  intros [p1 err1] x3 [F3 Hp1].
  eapply (writes_bind _ _ _ _ (λ cancelled' x', run_frame x x' ∧ (cancelled' = cancelled ∨ negb cancelled && nil_err err1 = true))).
  { destruct (negb cancelled && nil_err err1) eqn:E; [|apply writes_ret; by auto].
    eapply writes_mono; [apply checkCancel_frame|]. intros b x4 F4. cbn in F4. split; [by rewrite F3|]. by right. }
  intros cancelled' x4 [F4 Hc'].
  eapply (writes_bind _ _ _ _ (λ r x', run_frame x x' ∧ dense_step cfg cancelled' err1 r)).
  { destruct cfg as [cf|]; [|apply writes_ret; split; [done|by left]].
    destruct (negb cancelled' && nil_err err1 && phase2Runs (cfg_DenseSource cf)) eqn:E.
    - eapply writes_bind; [apply executePhase_writes, runPhase2_frame|]. intros p x5 [Hp Hf]. apply writes_ret.
      split; [by rewrite F4|]. right. by exists p, cf.
    - apply writes_ret. split; [done|]. left. split; [done|]. by intros ? [= <-]. }
  intros [p2 err2] x5 [F5 Hp2]. apply writes_ret. split; [|done]. by eapply outcome_honest.
Qed.

(** ** The row *)

(** The columns the end of a run writes. *)
Definition closed_row (now start : Z) (o : outcome) (r : BatchRow) : BatchRow :=
  close_run now (millis start now) (match Phase1 (oc_phases o) with Some p => ph_Count1 p | None => 0%nat end) (succeeded o)
    (if oc_cancelled o then [OperatorCancelledMessage] else oc_err o) r.

Definition final_row (now start : Z) (o : outcome) (r : BatchRow) : BatchRow := set_phases (oc_phases o) (closed_row now start o r).

(** What the end of a run makes of a row: everything, or with [c] unset as much
    as the two statements that may fail. *)
Definition row_end (c : bool) (logID now start : Z) (o : outcome) (r r' : BatchRow) : Prop :=
  if decide (br_ID r = logID)
  then r' ∈ [r; closed_row now start o r; set_phases (oc_phases o) r; final_row now start o r] ∧ (c = true → r' = final_row now start o r)
  else r' = r.

Lemma update_writes {A} c (P : BatchRow → Prop) `{!∀ r, Decision (P r)} f (g : nat + error → A) now x :
  writes c (let! r := call (λ _, update_runs P f) in ret (g r)) now x
    (λ _ x', (c = false ∧ x' = x) ∨ x' = (update_runs P f x).2).
Proof.
  eapply (writes_bind _ _ _ _ (λ _ x', (c = false ∧ x' = x) ∨ x' = (update_runs P f x).2)); [apply writes_call; auto|].
  intros r x' Hx. by apply writes_ret.
Qed.

Lemma observe_rows c j id n now x : writes c (observe j id n) now x (λ _ x', ∃ l, x' = set_cp_observed l x).
Proof.
  unfold observe. destruct (_ && _); [apply (writes_modify (λ s, set_cp_observed (cp_observed s ++ [n]) s)); by eexists|].
  apply writes_ret. exists (cp_observed x). by destruct x.
Qed.

Lemma rows_fmap (f : BatchRow → BatchRow) (Q : BatchRow → BatchRow → Prop) l : (∀ r, Q r (f r)) → Forall2 Q l (f <$> l).
Proof. intros Hf. rewrite <- (list_fmap_id l) at 1. apply Forall2_fmap, Forall_Forall2_diag, Forall_forall. intros r _. apply Hf. Qed.

Lemma set_cp_runs_same f x : (∀ r, f r = r) → set_cp_runs (f <$> cp_runs x) (cp_next_run x) x = x.
Proof.
  intros Hf. assert (f <$> cp_runs x = cp_runs x) as -> by (rewrite <- (list_fmap_id (cp_runs x)) at 2; apply list_fmap_ext; intros ? r _; apply Hf).
  by destruct x.
Qed.

Lemma finish_run_writes c j ns logID start o now x :
  j_batchLog j = true → (0 < logID)%Z →
  writes c (finish_run j ns logID start o) now x (λ _ x', Forall2 (row_end c logID now start o) (cp_runs x) (cp_runs x') ∧
    cp_events x' = cp_events x ∧ cp_configs x' = cp_configs x ∧ cp_locks x' = cp_locks x ∧ cp_next_run x' = cp_next_run x ∧
    cp_collections x' = cp_collections x ∧ cp_ids x' = cp_ids x).
Proof.
  intros Hj Hid. unfold finish_run. eapply (writes_bind _ _ _ _ (λ t y, t = now ∧ y = x)); [by apply writes_gets_now|]. intros t y [-> ->].
  rewrite Hj, (proj2 (Z.ltb_lt _ _) Hid). cbn [andb].
  eapply (writes_bind _ _ _ _ (λ _ y, ∃ a b : bool, (c = true → a = true ∧ b = true) ∧
    let f := (λ r, if decide (br_ID r = logID) then (if b then set_phases (oc_phases o) else id) ((if a then closed_row now start o else id) r) else r) in
    y = set_cp_runs (f <$> cp_runs x) (cp_next_run x) x)).
  - eapply writes_bind; [apply update_writes|]. intros e y Hy.
    eapply writes_bind; [apply update_writes|]. intros e' z Hz. apply writes_ret.
    destruct Hy as [[Ha ->]| ->], Hz as [[Hb ->]| ->]; cbn.
    + exists false, false. split; [congruence|]. symmetry. apply set_cp_runs_same. intros r. by case_decide.
    + exists false, true. split; [congruence|]. unfold set_cp_runs. cbn. f_equal.
    + exists true, false. split; [congruence|]. unfold set_cp_runs. cbn. f_equal.
    + exists true, true. split; [done|]. unfold set_cp_runs. cbn. f_equal. rewrite <- list_fmap_compose. apply list_fmap_ext. intros ? r _. cbn.
      case_decide; cbn; by case_decide.
  - intros [] y (a & b & Hab & ->). cbv zeta. set (f := λ r, _).
    eapply (writes_mono _ _ _ (λ _ x', ∃ l, x' = set_cp_observed l (set_cp_runs (f <$> cp_runs x) (cp_next_run x) x))); [case_match; apply observe_rows|].
    intros [] x' [l ->]. cbn. split; [|done]. apply rows_fmap. intros r. unfold row_end, f. case_decide as Hr; [|done].
    split; [unfold final_row; destruct a, b; cbn; set_solver|]. intros Hc. by destruct (Hab Hc) as [-> ->].
Qed.

Lemma Forall2_compose {A} (P Q : A → A → Prop) l k m : Forall2 P l k → Forall2 Q k m → Forall2 (λ a b, ∃ q, P a q ∧ Q q b) l m.
Proof. intros HP HQ. revert m HQ. induction HP; intros m HQ; inv HQ; constructor; eauto. Qed.

(** C22: the row of a run is closed when its phases are over, however they went,
    as long as the closing statements do not fail: it carries the phases that
    ran, and success exactly when the sparse phase ran, every recorded phase
    succeeded and no operator stopped it; the dense phase is recorded only
    after a successful sparse phase under a source that has one. Whatever
    fails, no other row changes but for cancel requests. *)
Theorem run_row_tells_the_truth j ctx ns trigger logID pre w :
  j_batchLog j = true → (0 < logID)%Z → (∀ p, pre = Some p → consistent p) →
  let w0 := (observe j logID (OnRunStarted logID ns trigger) w).2 in
  let '(o, w1) := run_phases j ctx ns logID pre w0 in
  let w2 := (runNamespaceLocked j ctx ns trigger logID pre w).2 in
  honest j ns pre (w_ext w) o ∧
  Forall2 (λ r r', ∃ q, asked r q ∧ row_end (bool_decide (w_faults w1 = [])) logID (w_now w) (w_now w) o q r') (cp_runs (w_ext w)) (cp_runs (w_ext w2)).
Proof.
  intros Hj Hid Hpre w0. destruct (observe_rows false j logID (OnRunStarted logID ns trigger) (w_now w) (w_ext w) w eq_refl eq_refl ltac:(done)) as (S0 & _ & [l Hl]).
  fold w0 in S0, Hl. destruct (run_phases_writes false j ctx ns logID pre (w_now w) (w_ext w0) Hpre w0 eq_refl (so_now _ _ S0) ltac:(done)) as (S1 & _ & Hh & Hf).
  unfold runNamespaceLocked, open_run, gets, bind. go. rewrite (proj2 (Z.eqb_neq logID 0)) by lia. cbn [andb]. go. fold w0.
  destruct (run_phases j ctx ns logID pre w0) as [o w1]. cbn [fst snd] in *.
  destruct (finish_run_writes (bool_decide (w_faults w1 = [])) j ns logID (w_now w) o (w_now w) (w_ext w1) Hj Hid w1 eq_refl) as (_ & _ & He & _);
    [by rewrite (so_now _ _ S1), (so_now _ _ S0)|by intros ?%bool_decide_eq_true_1|].
  rewrite Hl in Hh, Hf. split; [by destruct Hh|]. destruct Hf as (_ & _ & _ & _ & Ha). eapply Forall2_compose; [exact Ha|exact He].
Qed.

(** ** Stopping a run *)

(** The flag the next poll reads. *)
Definition poll (id : Z) (x : Compute) : option bool := (λ p, br_CancelRequested p.2) <$> list_find (λ r, br_ID r = id) (cp_runs (operators_act x)).

(** Neither vectors nor the run log nor the operators' script differ. *)
Definition quiet (x x' : Compute) : Prop :=
  cp_runs x' = cp_runs x ∧ cp_operators x' = cp_operators x ∧ cp_collections x' = cp_collections x ∧ cp_ids x' = cp_ids x.

#[local] Instance quiet_preorder : PreOrder quiet.
Proof. split; [by intros x|]. intros x y z (? & ? & ? & ?) (? & ? & ? & ?). split_and!; congruence. Qed.

Lemma observe_quiet j id n : stays quiet (observe j id n).
Proof. intros c now x. eapply writes_mono; [apply observe_rows|]. by intros [] x' [l ->]. Qed.

Lemma runPhase3_quiet ctx ns cfg : stays quiet (runPhase3Trending ctx ns cfg).
Proof. eapply stays_mono; [|apply stays_runPhase3Trending]. by intros x x' [t ->]. Qed.

Lemma executePhase_quiet j id ns phase run : stays quiet run → stays quiet (executePhase j id ns phase run).
Proof. intros Hr. unfold executePhase. pose proof observe_quiet. stays_tac. Qed.

Lemma cancel_fold_agree ids x y :
  cp_runs x = cp_runs y →
  cp_runs (foldl (λ s id, (update_runs (cancellable id) ask_cancel s).2) x ids) = cp_runs (foldl (λ s id, (update_runs (cancellable id) ask_cancel s).2) y ids).
Proof. revert x y. induction ids as [|id ids IH]; intros x y Hxy; cbn [foldl]; [done|]. apply IH. cbn. by rewrite Hxy. Qed.

Lemma poll_quiet id x x' : quiet x x' → poll id x' = poll id x.
Proof.
  intros (Hr & Ho & _ & _). unfold poll, operators_act. rewrite Ho. destruct (cp_operators x) as [|ids rest]; [by rewrite Hr|].
  cbn [cp_runs set_cp_operators]. by rewrite (cancel_fold_agree ids x' x).
Qed.

Lemma operators_act_vectors x : cp_collections (operators_act x) = cp_collections x ∧ cp_ids (operators_act x) = cp_ids x.
Proof.
  unfold operators_act. destruct (cp_operators x) as [|ids rest]; [done|].
  assert (∀ y, let z := foldl (λ s id, (update_runs (cancellable id) ask_cancel s).2) y ids in cp_collections z = cp_collections y ∧ cp_ids z = cp_ids y) as Hz.
  { induction ids as [|id ids IH]; intros y; cbn [foldl]; [done|]. apply (IH (update_runs (cancellable id) ask_cancel y).2). }
  apply (Hz x).
Qed.

Lemma checkCancel_stops j id now x :
  j_batchLog j = true → (0 < id)%Z → poll id x = Some true →
  writes true (checkCancelBetweenPhases j id) now x (λ b x', b = true ∧ cp_collections x' = cp_collections x ∧ cp_ids x' = cp_ids x).
Proof.
  intros Hj Hid Hp. unfold checkCancelBetweenPhases, GetCancelRequested. rewrite Hj, (proj2 (Z.eqb_neq id 0)) by lia. cbn [negb orb].
  eapply (writes_bind _ _ _ _ (λ r x', r = inl true ∧ x' = operators_act x)).
  - eapply (writes_bind _ _ _ _ (λ _ x', x' = operators_act x)); [by apply (writes_modify operators_act)|]. intros [] y ->.
    eapply (writes_bind _ _ _ _ (λ r x', r = inl (Some true) ∧ x' = operators_act x)); [apply writes_query; [done|]; split; [|done]; by rewrite <- Hp|].
    intros ? y [-> ->]. by apply writes_ret.
  - intros ? y [-> ->]. apply writes_ret. split; [done|]. apply operators_act_vectors.
Qed.

Lemma run_phases_stopped j ctx ns logID pre now x :
  j_batchLog j = true → (0 < logID)%Z → poll logID x = Some true →
  writes true (run_phases j ctx ns logID pre) now x (λ o x',
    oc_cancelled o = true ∧ Phase1 (oc_phases o) = None ∧ Phase2 (oc_phases o) = None ∧ cp_collections x' = cp_collections x ∧ cp_ids x' = cp_ids x).
Proof.
  intros Hj Hid Hp. unfold run_phases.
  eapply (writes_bind _ _ _ _ (λ r x', x' = x)); [by apply writes_query|]. intros r y ->.
  match goal with |- writes _ (match ?m with _ => _ end) _ _ _ => destruct m as [cfg err0] end.
  eapply (writes_bind _ _ _ _ (λ p3 x', quiet x x')).
  { destruct pre as [p|]; [by apply writes_ret|]. destruct (j_trending j); [|by apply writes_ret].
    eapply writes_bind; [apply executePhase_quiet, runPhase3_quiet|]. intros p x1 Hq. by apply writes_ret. }
  intros p3 x1 Hq. eapply writes_bind; [apply checkCancel_stops; [done|done|by rewrite (poll_quiet _ x x1)]|].
  intros b x2 (-> & Hc & Hi). cbn [negb andb]. destruct Hq as (_ & _ & Hc' & Hi').
  eapply (writes_bind _ _ _ _ (λ r x', r = (None, err0) ∧ x' = x2)); [by apply writes_ret|]. intros ? y [-> ->].
  eapply (writes_bind _ _ _ _ (λ b x', b = true ∧ x' = x2)); [by apply writes_ret|]. intros ? y [-> ->].
  eapply (writes_bind _ _ _ _ (λ r x', r = (None, err0) ∧ x' = x2)); [destruct cfg; by apply writes_ret|]. intros ? y [-> ->].
  apply writes_ret. cbn. split_and!; try done; congruence.
Qed.

Definition operator_cancelled (now : Z) (r : BatchRow) : Prop :=
  br_CompletedAt r = Some now ∧ br_Success r = false ∧ br_Error r = [OperatorCancelledMessage] ∧
  Phase1 (br_Phases r) = None ∧ Phase2 (br_Phases r) = None.

Lemma runNamespaceLocked_stopped j ctx ns trigger logID pre now x :
  j_batchLog j = true → (0 < logID)%Z → poll logID x = Some true →
  writes true (runNamespaceLocked j ctx ns trigger logID pre) now x (λ _ x',
    cp_collections x' = cp_collections x ∧ cp_ids x' = cp_ids x ∧ ∀ r, r ∈ cp_runs x' → br_ID r = logID → operator_cancelled now r).
Proof.
  intros Hj Hid Hp. unfold runNamespaceLocked, open_run.
  eapply (writes_bind _ _ _ _ (λ t x', t = now ∧ x' = x)); [by apply writes_gets_now|]. intros t y [-> ->].
  rewrite (proj2 (Z.eqb_neq logID 0)) by lia. cbn [andb].
  eapply (writes_bind _ _ _ _ (λ t x', t = logID ∧ x' = x)); [by apply writes_ret|]. intros t y [-> ->].
  eapply writes_bind; [apply observe_quiet|]. intros [] x0 Hq. cbn in Hq. pose proof Hq as (_ & _ & Hc0 & Hi0).
  eapply writes_bind; [apply run_phases_stopped; [done|done|by rewrite (poll_quiet _ x x0)]|].
  intros o x1 (Ho & Hp1 & Hp2 & Hc1 & Hi1).
  eapply writes_mono; [by apply finish_run_writes|]. intros [] x2 (Hr & _ & _ & _ & _ & Hc2 & Hi2). split; [congruence|]. split; [congruence|].
  intros r Hr' Hlog. apply list_elem_of_lookup in Hr' as [i Hi]. destruct (Forall2_lookup_r _ _ _ _ _ Hr Hi) as (q & _ & He).
  unfold row_end in He. case_decide; [|congruence]. destruct He as [_ He]. rewrite (He eq_refl). unfold operator_cancelled. cbn. unfold succeeded. by rewrite Ho, andb_false_r.
Qed.

(** a run whose row an operator flagged before the vector phases neither
    writes nor removes a vector or an id mapping; when no call fails its row is
    closed as cancelled by the operator, without success and without a sparse
    or dense phase. *)
Theorem cancelled_run_writes_no_vectors j ctx ns trigger logID pre w :
  j_batchLog j = true → (0 < logID)%Z → w_faults w = [] → poll logID (w_ext w) = Some true →
  let x' := w_ext (runNamespaceLocked j ctx ns trigger logID pre w).2 in
  cp_collections x' = cp_collections (w_ext w) ∧ cp_ids x' = cp_ids (w_ext w) ∧
  ∀ r, r ∈ cp_runs x' → br_ID r = logID → operator_cancelled (w_now w) r.
Proof.
  intros Hj Hid Hf Hp.
  exact (writes_run _ w _ (runNamespaceLocked_stopped j ctx ns trigger logID pre (w_now w) (w_ext w) Hj Hid Hp) (λ _, Hf)).
Qed.
End outcome.

(** ** Samples *)

Definition job_cfg : Config :=
  {| cfg_Namespace := "demo"; cfg_Generation := 3; cfg_ActionWeights := ∅; cfg_Lambda := f64_zero; cfg_Gamma := f64_zero;
     cfg_MaxResults := 10; cfg_SeenItemsDays := 30; cfg_ExcludeAuthored := false; cfg_Paused := false; cfg_APIKeyHash := "";
     cfg_Alpha := f64_one; cfg_DenseSource := DenseSourceSVD; cfg_EmbeddingDim := 2; cfg_DenseDistance := "cosine";
     cfg_TrendingWindow := 0; cfg_TrendingTTL := 0; cfg_LambdaTrending := f64_zero; cfg_CatalogStrategyID := "";
     cfg_CatalogStrategyVersion := ""; cfg_CatalogStrategyParams := None; cfg_CatalogMaxAttempts := 0; cfg_CatalogMaxContentBytes := 0;
     cfg_CreatedAt := 0; cfg_UpdatedAt := 0 |}.

Definition sample_job : Job := {| j_batchLog := true; j_observer := true; j_lifecycle := Some pair_service; j_locks := true; j_trending := true |}.

(** [compute_state] with a configuration, a run log and operators. *)
Definition job_state (runs : list BatchRow) (next : Z) (operators : list (list Z)) : Compute :=
  {| cp_events := cp_events compute_state; cp_configs := {["demo" := job_cfg]}; cp_ids := cp_ids compute_state;
     cp_collections := cp_collections compute_state; cp_trending := ∅; cp_runs := runs; cp_next_run := next; cp_operators := operators;
     cp_observed := []; cp_locks := [] |}.

Definition job_world (fs : list bool) (runs : list BatchRow) (next : Z) (operators : list (list Z)) : W :=
  with_world (job_state runs next operators) (demo_world fs).

Section samples.
#[local] Existing Instances sample_math sample_sort canonical_range sample_order sample_rand sample_pow sample_range_strings sample_svd ComputeLocks.length_hash.

(** The configuration cannot be read: trending goes on, the vector phases do
    not, and the row says so. *)
Lemma run_row_tells_the_truth_witness :
  let w := job_world [true] [new_run 1 "demo" 9 TriggerManual] 2 [] in
  let w0 := (observe sample_job 1 (OnRunStarted 1 "demo" TriggerManual) w).2 in
  let '(o, w1) := run_phases sample_job lease_ctx "demo" 1 None w0 in
  br_Success <$> cp_runs (w_ext (runNamespaceLocked sample_job lease_ctx "demo" TriggerManual 1 None w).2) = [false] ∧
  w_faults w1 = [] ∧ oc_err o = [ErrDriver] ∧ honest sample_job "demo" None (w_ext w) o.
Proof.
  set (w := job_world [true] [new_run 1 "demo" 9 TriggerManual] 2 []).
  pose proof (run_row_tells_the_truth sample_job lease_ctx "demo" TriggerManual 1 None w ltac:(reflexivity) ltac:(lia) ltac:(discriminate)) as HT.
  cbv zeta in HT |- *. destruct (run_phases _ _ _ _ _ _) as [o w1] eqn:E. destruct HT as [Hh _].
  vm_compute in E. injection E as <- <-. split; [vm_compute; reflexivity|]. split; [reflexivity|]. split; [reflexivity|exact Hh].
Defined.

(** An operator stops the run before its first poll. *)
Lemma cancelled_run_writes_no_vectors_witness :
  let x' := w_ext (runNamespaceLocked sample_job lease_ctx "demo" TriggerManual 1 None (job_world [] [new_run 1 "demo" 9 TriggerManual] 2 [[1%Z]])).2 in
  cp_collections x' = cp_collections compute_state ∧ ∃ r, cp_runs x' = [r] ∧ operator_cancelled 9 r.
Proof.
  destruct (cancelled_run_writes_no_vectors sample_job lease_ctx "demo" TriggerManual 1 None (job_world [] [new_run 1 "demo" 9 TriggerManual] 2 [[1%Z]])) as (Hc & _ & Hr).
  - reflexivity.
  - lia.
  - reflexivity.
  - vm_compute. reflexivity.
  - split; [exact Hc|]. eexists. split; [vm_compute; reflexivity|]. apply Hr; [vm_compute; left|vm_compute; reflexivity].
Defined.
End samples.
