(* ===== verification/TickFacts.v ===== *)
(** * A tick of the batch job

    [ticks c m l now x Q]: like [writes], for programs that also take and give
    back lifecycle locks. When nothing fails and nobody else computes, one tick
    reaps abandoned rows, refreshes trending and leaves one closed row per
    scheduled namespace, in order, with every compute lock given back. *)

From stdpp Require Import base tactics gmap sets strings list sorting.
From Stdlib Require Import ZArith SpecFloat Lia.
From S2P Require Import Prelude GoLib NsNames NsLedger NsService Hoare Stores ComputeLocks Float64 NamespaceConfig IdMap Scoring Strategy Recommend ServingSamples ComputeVectors Cooccurrence VectorFacts Recompute RecomputeFacts RecomputeExact DenseTraining DensePhase ComputeJob JobFrames JobFacts.

Abbreviation W := (World Compute).
Abbreviation call := Recompute.call.

Definition ticks {A} (c : bool) (m : M W A) (l : ledger) (now : Z) (x : Compute) (Q : A → Compute → Prop) : Prop :=
  ∀ w, w_ledger w = l → w_now w = now → w_ext w = x → (c = true → w_faults w = []) →
  w_ledger (m w).2 = l ∧ w_now (m w).2 = now ∧ (c = true → w_faults (m w).2 = []) ∧ Q (m w).1 (w_ext (m w).2).

Section rules.
Context {c : bool}.

Lemma ticks_bind {A B} (m : M W A) (k : A → M W B) l now x (R : A → Compute → Prop) (Q : B → Compute → Prop) :
  ticks c m l now x R → (∀ a x', R a x' → ticks c (k a) l now x' Q) → ticks c (bind m k) l now x Q.
Proof.
  intros Hm Hk w Hl Hn Hx Hf. unfold bind. destruct (Hm w Hl Hn Hx Hf) as (Hl1 & Hn1 & Hf1 & HR). destruct (m w) as [a w1]. cbn [fst snd] in *.
  by apply (Hk a (w_ext w1) HR w1).
Qed.

Lemma ticks_writes {A} (m : M W A) l now x (Q : A → Compute → Prop) : writes c m now x Q → ticks c m l now x Q.
Proof.
  intros Hm w Hl Hn Hx Hf. destruct (Hm w Hx Hn Hf) as ([Hsl Hsn _ _] & Hf' & HQ). split; [congruence|]. split; [congruence|]. done.
Qed.

Lemma ticks_mono {A} (m : M W A) l now x (R Q : A → Compute → Prop) : ticks c m l now x R → (∀ a x', R a x' → Q a x') → ticks c m l now x Q.
Proof. intros Hm HRQ w Hl Hn Hx Hf. destruct (Hm w Hl Hn Hx Hf) as (? & ? & ? & ?). auto. Qed.

(** ** The locks around a run *)

(** Releasing [rel] in a state that holds [held] leaves no lock. *)
Definition gives_back `{PgHash} (rel : ComputeRelease) (held : list (nat * (Z * Z) * bool)) : Prop :=
  ∀ w : World Stores, st_compute (w_ext w) = held → relocked [] w (run_release rel w).2.

Lemma on_locks_writes {A} (m : M (World Stores) A) now x (Q : A → list (nat * (Z * Z) * bool) → Prop) :
  (∀ w, st_compute (w_ext w) = cp_locks x → (c = true → w_faults w = []) → ∃ held, relocked held w (m w).2 ∧ Q (m w).1 held) →
  writes c (on_locks m) now x (λ a x', ∃ held, x' = set_cp_locks held x ∧ Q a held).
Proof.
  intros Hm w <- <- Hf. unfold on_locks.
  match goal with |- context [m ?w0] => destruct (Hm w0 eq_refl Hf) as (held & Hr & HQ); destruct (m w0) as [a w1] end.
  destruct Hr as [Hl Hn Ha Ho Hx Hc]. cbn in *. split; [by split|]. split; [by auto|]. exists held. split; [by rewrite Hx|done].
Qed.

Lemma tryLock_writes `{PgHash} j ns now x :
  cp_locks x = [] →
  writes c (tryLock j ns) now x (λ r x', ∃ held, x' = set_cp_locks held x ∧
    ((∃ rel, r = (Some rel, []) ∧ gives_back rel held) ∨ c = false ∧ r = (None, [ErrDriver]) ∧ held = [])).
Proof.
  intros Hx. unfold tryLock. apply on_locks_writes. intros w Hw Hf. rewrite Hx in Hw. unfold job_tryLock. destruct (j_locks j); cbn [negb].
  - assert (fresh_sessions w) as Hfr by (intros e; rewrite Hw; by intros ?%elem_of_nil).
    pose proof (TryLockNamespace_spec ns w Hfr) as Hs. destruct (TryLockNamespace ns w) as [[[rel|] e] w']; cbn [fst snd] in *.
    + destruct Hs as (-> & _ & [Hr Hb]). eexists. split; [exact Hr|]. left. exists rel. split; [done|]. rewrite Hw in *. intros w2 Hw2.
      apply Hb. rewrite Hw2, (rl_ext _ _ _ Hr). done.
    + destruct Hs as [Hr [[-> Hne]|[_ Hidle]]]; rewrite Hw in Hr.
      * exists []. split; [done|]. right. split; [|done]. destruct c; [|done]. by specialize (Hf eq_refl).
      * exfalso. apply Hidle. intros s b. rewrite Hw. by split; intros ?%elem_of_nil.
  - exists []. assert (∀ v : World Stores, st_compute (w_ext v) = [] → relocked [] v v) as Hself.
    { intros v Hv. split; try done. rewrite <- Hv. by rewrite set_st_compute_same. }
    split; [by apply Hself|]. left. exists RelNothing. by split.
Qed.

Lemma locked_writes `{PgHash} {A} (a0 : A) j ns (fn : Ctx → M W (A * error)) ctx now x (Q : A * error → Compute → Prop) :
  cp_locks x = [] →
  (∀ held, writes c (fn ctx) now (set_cp_locks held x) (λ a x', cp_locks x' = held ∧ Q a (set_cp_locks [] x'))) →
  writes c (locked a0 j ns fn ctx) now x (λ a x', Q a x' ∨ c = false ∧ x' = x ∧ a = (a0, [ErrDriver])).
Proof.
  intros Hx Hfn. unfold locked. eapply writes_bind; [by apply tryLock_writes|].
  intros ? x1 (held & -> & [(rel & -> & Hb)|(Hc & -> & ->)]); cbn [nil_err negb].
  - eapply writes_bind; [apply Hfn|]. intros a x2 [Hl HQ].
    eapply (writes_bind _ _ _ _ (λ _ x', x' = set_cp_locks [] x2)).
    + eapply writes_mono; [apply (on_locks_writes _ _ _ (λ _ l, l = []))|by intros ? ? (? & -> & ->)].
      intros w Hw _. exists []. split; [|done]. apply Hb. congruence.
    + intros [] ? ->. apply writes_ret. by left.
  - apply writes_ret. right. split; [done|]. split; [|done]. destruct x; cbn in *. by subst.
Qed.
End rules.

Definition active_in (l : ledger) (ns : string) : Prop :=
  y_state (l_sys l) = SystemActive ∧ ∃ row, l_rows l !! ns = Some row ∧ r_state row = StateActive.

Lemma withNamespaceLocks_ticks `{PgHash} {A} (a0 : A) j ctx ns (fn : Ctx → M W (A * error)) l now x (Q : A * error → Compute → Prop) :
  ctx_lease ctx = None → cp_locks x = [] → active_in l ns →
  (∀ ctx' held, writes true (fn ctx') now (set_cp_locks held x) (λ a x', cp_locks x' = held ∧ Q a (set_cp_locks [] x'))) →
  ticks true (withNamespaceLocks a0 j ctx ns fn) l now x Q.
Proof.
  intros Hctx Hx Hact Hfn. assert (∀ ctx', writes true (locked a0 j ns fn ctx') now x Q) as Hlocked.
  { intros ctx'. eapply writes_mono; [by apply locked_writes|]. by intros a x' [?|[? _]]. }
  unfold withNamespaceLocks. destruct (j_lifecycle j) as [svc|]; [|by apply ticks_writes].
  intros w <- <- <- Hf. pose proof (WithWriter_writes true a0 svc ctx ns (λ leased _, locked a0 j ns fn leased) w (λ _, Q)) as HW.
  destruct HW as (Hl & Hn & Hf' & [(e & _ & _ & _ & Hno)|(row & _ & _ & _ & HQ)]); [unfold existing_lease; by rewrite Hctx|done|by intros; apply Hlocked| |done].
  by destruct (Hno eq_refl).
Qed.

Section tick.
Context `{GoMath, GoSort, GoRange, GoRand, GoPow, GoRangeStrings, GonumSVD, SqlOrder, PgHash}.

Lemma frame_locks x x' held : cp_locks x = [] → run_frame (set_cp_locks held x) x' → cp_locks x' = held ∧ run_frame x (set_cp_locks [] x').
Proof. intros Hx (He & Hc & Hl & Hn & Hr). split; [done|]. by split_and!. Qed.

Lemma refreshTrending_ticks j ctx ns l now x :
  ctx_lease ctx = None → cp_locks x = [] → active_in l ns →
  ticks true (refreshTrending j ctx ns) l now x (λ r x', run_frame x x' ∧ ∃ p, r = (Some p, []) ∧ consistent p).
Proof.
  intros Hctx Hx Hact. apply withNamespaceLocks_ticks; [done..|]. intros ctx' held.
  eapply (writes_bind _ _ _ _ (λ _ x', x' = set_cp_locks held x)); [by apply writes_query|]. intros r ? ->.
  eapply writes_bind; [apply executePhase_writes, runPhase3_frame|]. intros p x1 [Hp Hf]. apply writes_ret.
  destruct (frame_locks x x1 held Hx Hf) as [? ?]. split; [done|]. split; [done|]. by exists p.
Qed.

(** Ids are handed out once. *)
Definition runs_wf (x : Compute) : Prop := (0 < cp_next_run x)%Z ∧ ∀ r, r ∈ cp_runs x → (br_ID r < cp_next_run x)%Z.

Definition closed_for (ns trigger : string) (now : Z) (r : BatchRow) : Prop :=
  br_Namespace r = ns ∧ br_Trigger r = trigger ∧ br_CompletedAt r = Some now ∧
  (br_Success r = true → ∀ p, recorded (br_Phases r) p → ph_OK p = true).

(** One run: one more row, and it is closed. *)
Definition ran (ns trigger : string) (now : Z) (x x' : Compute) : Prop :=
  cp_configs x' = cp_configs x ∧ cp_events x' = cp_events x ∧ cp_locks x' = cp_locks x ∧ runs_wf x' ∧
  ∃ old r, cp_runs x' = old ++ [r] ∧ Forall2 asked (cp_runs x) old ∧ closed_for ns trigger now r.

Lemma asked_id r r' : asked r r' → br_ID r' = br_ID r ∧ br_Namespace r' = br_Namespace r ∧ br_Trigger r' = br_Trigger r.
Proof. by intros [-> | ->]. Qed.

Lemma row_end_others c logID now start o rows rows' :
  (∀ r, r ∈ rows → br_ID r ≠ logID) → Forall2 (row_end c logID now start o) rows rows' → rows' = rows.
Proof.
  intros Hne HF. induction HF as [|r r' rows rows' Hr _ IH]; [done|]. f_equal; [|apply IH; intros q Hq; apply Hne; by right].
  unfold row_end in Hr. rewrite decide_False in Hr; [done|]. apply Hne. by left.
Qed.

Lemma asked_ids rows rows' : Forall2 asked rows rows' → br_ID <$> rows' = br_ID <$> rows.
Proof. induction 1 as [|r r' rows rows' Ha _ IH]; [done|]. rewrite !fmap_cons, IH. f_equal. by apply asked_id. Qed.

Lemma runNamespaceLocked_ran j ctx ns trigger pre now x :
  j_batchLog j = true → (∀ p, pre = Some p → consistent p) → runs_wf x →
  writes true (runNamespaceLocked j ctx ns trigger 0 pre) now x (λ _ x', ran ns trigger now x x').
Proof.
  intros Hj Hpre [Hpos Hids]. unfold runNamespaceLocked, open_run.
  eapply (writes_bind _ _ _ _ (λ t y, t = now ∧ y = x)); [by apply writes_gets_now|]. intros t y [-> ->]. rewrite Hj. cbn [Z.eqb andb].
  set (id := cp_next_run x) in *. set (x1 := set_cp_runs (cp_runs x ++ [new_run id ns now trigger]) (id + 1) x).
  eapply (writes_bind _ _ _ _ (λ i y, i = id ∧ y = x1)).
  { eapply (writes_bind _ _ _ _ (λ r y, r = inl id ∧ y = x1)); [by apply writes_call|]. intros ? y [-> ->]. by apply writes_ret. }
  intros ? y [-> ->]. eapply writes_bind; [apply observe_frame|]. intros [] x2 F2. cbn in F2.
  eapply writes_bind; [by apply run_phases_writes|]. intros o x3 [Ho F3].
  eapply writes_mono; [by apply finish_run_writes|]. intros [] x4 (Hr & He & Hc & Hl & Hn & _).
  assert (run_frame x1 x3) as (He3 & Hc3 & Hl3 & Hn3 & Hr3) by (by etransitivity).
  apply Forall2_app_inv_l in Hr3 as (old & new & Hold & Hnew & Hx3). apply Forall2_cons_inv_l in Hnew as (r & ? & Hask & ?%Forall2_nil_inv_l & ->). subst.
  rewrite Hx3 in Hr. apply Forall2_app_inv_l in Hr as (old' & new' & Hold' & Hnew' & Hx4).
  assert (∀ q, q ∈ old → br_ID q ≠ id) as Hother.
  { intros q Hq. assert (br_ID q ∈ br_ID <$> cp_runs x) as (q0 & -> & Hq0)%list_elem_of_fmap by (rewrite <- (asked_ids _ _ Hold); by apply list_elem_of_fmap_2).
    specialize (Hids _ Hq0). lia. }
  apply row_end_others in Hold' as ->; [|done].
  apply Forall2_cons_inv_l in Hnew' as (r' & ? & Hend & ?%Forall2_nil_inv_l & ->). subst.
  destruct (asked_id _ _ Hask) as (Hrid & Hrns & Hrtr). unfold row_end in Hend. rewrite decide_True in Hend by done. destruct Hend as [_ Hend]. specialize (Hend eq_refl).
  split; [by rewrite Hc, Hc3|]. split; [by rewrite He, He3|]. split; [by rewrite Hl, Hl3|]. split.
  - split; rewrite Hn, Hn3; cbn; [lia|]. rewrite Hx4. intros q [Hq|Hq]%elem_of_app.
    + assert (br_ID q ∈ br_ID <$> cp_runs x) as (q0 & -> & Hq0)%list_elem_of_fmap by (rewrite <- (asked_ids _ _ Hold); by apply list_elem_of_fmap_2).
      specialize (Hids _ Hq0). lia.
    + apply list_elem_of_singleton in Hq as ->. rewrite Hend. cbn. rewrite Hrid. cbn. lia.
  - exists old, r'. split; [done|]. split; [done|]. rewrite Hend. split; [exact Hrns|]. split; [exact Hrtr|]. split; [done|].
    cbn. intros Hs. by apply (ho_success _ _ _ _ _ Ho) in Hs as (_ & _ & ?).
Qed.

Lemma runNamespace_ticks j ctx ns trigger pre l now x :
  j_batchLog j = true → (∀ p, pre = Some p → consistent p) → ctx_lease ctx = None → cp_locks x = [] → active_in l ns → runs_wf x →
  ticks true (runNamespace j ctx ns trigger pre) l now x (λ e x', e = [] ∧ ran ns trigger now x x').
Proof.
  intros Hj Hpre Hctx Hx Hact Hwf. unfold runNamespace.
  eapply (ticks_bind _ _ _ _ _ (λ r x', r = (tt, []) ∧ ran ns trigger now x x')); [|intros ? x' [-> Hr]; by apply ticks_writes, writes_ret].
  apply withNamespaceLocks_ticks; [done..|]. intros ctx' held.
  eapply writes_bind; [by apply runNamespaceLocked_ran|]. intros [] x1 (Hc & He & Hl & Hw & Hrows). apply writes_ret. split; [done|]. by split_and!.
Qed.

(** *** Every namespace in turn *)

Lemma closed_asked ns trigger now r r' : asked r r' → closed_for ns trigger now r → closed_for ns trigger now r'.
Proof. by intros [-> | ->]. Qed.

Definition all_ran (namespaces : list string) (now : Z) (x x' : Compute) : Prop :=
  cp_locks x' = cp_locks x ∧
  ∃ old new, cp_runs x' = old ++ new ∧ Forall2 asked (cp_runs x) old ∧ Forall2 (λ ns r, closed_for ns TriggerCron now r) namespaces new.

Lemma all_ran_cons ns namespaces now x x1 x2 :
  ran ns TriggerCron now x x1 → all_ran namespaces now x1 x2 → all_ran (ns :: namespaces) now x x2.
Proof.
  intros (_ & _ & Hl1 & _ & old & r & Hx1 & Hold & Hr) (Hl2 & old2 & new & Hx2 & Hold2 & Hnew). split; [congruence|].
  rewrite Hx1 in Hold2. apply Forall2_app_inv_l in Hold2 as (old' & rs & Ha & Hb & ->). apply Forall2_cons_inv_l in Hb as (r' & ? & Hr' & ?%Forall2_nil_inv_l & ->). subst.
  exists old', (r' :: new). split; [by rewrite Hx2, <- app_assoc|]. split; [by etransitivity|]. constructor; [by eapply closed_asked|done].
Qed.

Lemma run_all_ticks j ctx pre namespaces l now x :
  j_batchLog j = true → (∀ ns p, pre !! ns = Some p → consistent p) → ctx_lease ctx = None → cp_locks x = [] → runs_wf x →
  (∀ ns, ns ∈ namespaces → active_in l ns) →
  ticks true (run_all j ctx pre namespaces) l now x (λ _ x', all_ran namespaces now x x').
Proof.
  intros Hj Hpre Hctx. revert x. induction namespaces as [|ns namespaces IH]; intros x Hx Hwf Hact; cbn [run_all].
  - apply ticks_writes, writes_ret. split; [done|]. exists (cp_runs x), []. split; [by rewrite app_nil_r|]. split; [reflexivity|constructor].
  - eapply ticks_bind; [apply runNamespace_ticks; try done; [by eauto|apply Hact; by left]|].
    intros e x1 [-> Hr]. pose proof Hr as (_ & _ & Hl & Hw & _).
    eapply ticks_mono; [apply IH; [congruence|done|intros n Hn; apply Hact; by right]|]. intros [] x2 Hall. by eapply all_ran_cons.
Qed.

Lemma refresh_all_ticks j ctx namespaces pre l now x :
  ctx_lease ctx = None → cp_locks x = [] → (∀ ns p, pre !! ns = Some p → consistent p) → (∀ ns, ns ∈ namespaces → active_in l ns) →
  ticks true (refresh_all j ctx namespaces pre) l now x (λ pre' x', run_frame x x' ∧ ∀ ns p, pre' !! ns = Some p → consistent p).
Proof.
  intros Hctx. revert pre x. induction namespaces as [|ns namespaces IH]; intros pre x Hx Hpre Hact; cbn [refresh_all].
  - apply ticks_writes, writes_ret. by split.
  - eapply ticks_bind; [apply refreshTrending_ticks; try done; apply Hact; by left|].
    intros ? x1 [Hf (p & -> & Hp)]. eapply ticks_mono; [apply IH|].
    + destruct Hf as (_ & _ & Hl & _). congruence.
    + intros ns' q Hq. destruct (decide (ns = ns')) as [->|]; [rewrite lookup_insert_eq in Hq; by injection Hq as <-|].
      rewrite lookup_insert_ne in Hq by done. by eauto.
    + intros n Hn. apply Hact. by right.
    + intros pre' x2 [Hf2 Hp2]. split; [by etransitivity|done].
Qed.

(** What a tick makes of the rows that were there. *)
Definition settled (now : Z) (r r' : BatchRow) : Prop :=
  asked (if decide (orphaned (now - orphanRunCutoff) r) then reap now r else r) r'.

Lemma runs_wf_fmap f x : (∀ r, br_ID (f r) = br_ID r) → runs_wf x → runs_wf (set_cp_runs (f <$> cp_runs x) (cp_next_run x) x).
Proof. intros Hf [Hp Hi]. split; [done|]. cbn. intros ? (r & -> & Hr)%list_elem_of_fmap. rewrite Hf. by apply Hi. Qed.

Lemma frame_wf x x' : run_frame x x' → runs_wf x → runs_wf x'.
Proof.
  intros (_ & _ & _ & Hn & Hr) [Hp Hi]. split; rewrite Hn; [done|]. intros q Hq.
  assert (br_ID q ∈ br_ID <$> cp_runs x) as (r & -> & Hr')%list_elem_of_fmap by (rewrite <- (asked_ids _ _ Hr); by apply list_elem_of_fmap_2). by apply Hi.
Qed.

(** C21: when nothing fails, nobody else holds a compute lock and the scheduled
    namespaces are active, one tick of the batch job leaves exactly one new row
    per scheduled namespace, in their order: a cron run, closed, and marked
    successful only if every phase it recorded succeeded. Rows left open for
    more than ninety minutes are closed as orphaned, the other rows keep what
    they say, and every compute lock is given back. *)
Theorem tick_closes_a_run_per_namespace j ctx w :
  j_batchLog j = true → ctx_lease ctx = None → w_faults w = [] → cp_locks (w_ext w) = [] → runs_wf (w_ext w) →
  (∀ ns, ns ∈ scheduled (w_ext w) → active_in (w_ledger w) ns) →
  let x' := w_ext (runOnce j ctx w).2 in
  cp_locks x' = [] ∧
  ∃ old new, cp_runs x' = old ++ new ∧ Forall2 (settled (w_now w)) (cp_runs (w_ext w)) old ∧
    Forall2 (λ ns r, closed_for ns TriggerCron (w_now w) r) (scheduled (w_ext w)) new.
Proof.
  intros Hj Hctx Hf Hx Hwf Hact.
  set (x1 := (update_runs (orphaned (w_now w - orphanRunCutoff)) (reap (w_now w)) (w_ext w)).2).
  assert (runs_wf x1) as Hwf1 by (apply (runs_wf_fmap (λ r, if decide (orphaned (w_now w - orphanRunCutoff) r) then reap (w_now w) r else r)); [by intros r; case_decide|done]).
  assert (ticks true (runOnce j ctx) (w_ledger w) (w_now w) (w_ext w) (λ _ x', all_ran (scheduled (w_ext w)) (w_now w) x1 x')) as HT.
  { unfold runOnce. eapply (ticks_bind _ _ _ _ _ (λ t y, t = w_now w ∧ y = w_ext w)); [by apply ticks_writes, writes_gets_now|]. intros ? y [-> ->].
    eapply (ticks_bind _ _ _ _ _ (λ _ y, y = x1)); [by apply ticks_writes, writes_call|]. intros n y ->.
    eapply (ticks_bind _ _ _ _ _ (λ r y, r = inl (scheduled (w_ext w)) ∧ y = x1)); [by apply ticks_writes, writes_query|]. intros ? y [-> ->].
    eapply (ticks_bind _ _ _ _ _ (λ pre y, run_frame x1 y ∧ ∀ ns p, pre !! ns = Some p → consistent p)).
    { destruct (j_trending j); [by apply refresh_all_ticks|]. apply ticks_writes, writes_ret. split; [reflexivity|]. intros ns p. by rewrite lookup_empty. }
    intros pre x2 [HF Hpre]. pose proof HF as (_ & _ & Hl2 & _ & Hr2).
    eapply ticks_mono; [apply run_all_ticks; try done; [rewrite Hl2; exact Hx|by eapply frame_wf]|].
    intros [] x3 (Hl3 & old & new & Hx3 & Hold & Hnew). split; [congruence|]. exists old, new. split; [done|]. split; [by etransitivity|done]. }
  destruct (HT w eq_refl eq_refl eq_refl (λ _, Hf)) as (_ & _ & _ & Hl & old & new & Hrows & Hold & Hnew). cbv zeta.
  split; [by rewrite Hl|]. exists old, new. split; [done|]. split; [|done]. exact (proj1 (Forall2_fmap_l (λ r, if decide (orphaned (w_now w - orphanRunCutoff) r) then reap (w_now w) r else r) asked (cp_runs (w_ext w)) old) Hold).
Qed.
End tick.

(** ** Samples *)

Section samples.
#[local] Existing Instances sample_math sample_sort canonical_range sample_order sample_rand sample_pow sample_range_strings sample_svd ComputeLocks.length_hash.

(** A re-embed that has been running for two hours. *)
Definition long_reembed : BatchRow := new_run 1 "demo" (9 - 2 * 60 * 60 * 1000000000) TriggerReembed.

(** The reaper does not ask who owns a row: the re-embed, which the embedder
    still works on, is closed as orphaned. *)
Example reembed_row_is_reaped :
  br_Error <$> cp_runs (w_ext (FinalizeOrphanRuns (9 - orphanRunCutoff) (job_world [] [long_reembed] 2 [])).2) = [[OrphanedRunMessage]].
Proof. vm_compute. reflexivity. Qed.

Lemma tick_closes_a_run_per_namespace_witness :
  let x' := w_ext (runOnce sample_job background (job_world [] [long_reembed] 2 [])).2 in
  br_Success <$> cp_runs x' = [false; true] ∧ cp_locks x' = [] ∧
  ∃ old new, cp_runs x' = old ++ new ∧ Forall2 (λ ns r, closed_for ns TriggerCron 9 r) ["demo"] new.
Proof.
  split; [vm_compute; reflexivity|].
  destruct (tick_closes_a_run_per_namespace sample_job background (job_world [] [long_reembed] 2 [])) as (Hl & old & new & Hr & _ & Hn).
  - reflexivity.
  - reflexivity.
  - reflexivity.
  - reflexivity.
  - split; [reflexivity|]. cbn. intros r [-> | ?%elem_of_nil]%elem_of_cons; [cbn; lia|done].
  - intros ns Hns. assert (ns = "demo") as ->.
    { assert (scheduled (w_ext (job_world [] [long_reembed] 2 [])) = ["demo"]) as Hsch by (vm_compute; reflexivity). rewrite Hsch in Hns. by apply list_elem_of_singleton in Hns. }
    split; [reflexivity|]. eexists. split; reflexivity.
  - split; [exact Hl|]. exists old, new. split; [exact Hr|].
    assert (scheduled (w_ext (job_world [] [long_reembed] 2 [])) = ["demo"]) as Hsch by (vm_compute; reflexivity). rewrite Hsch in Hn. exact Hn.
Defined.
End samples.
