(* ===== verification/DenseFacts.v ===== *)
(** * What the dense phase leaves in the collections

    Under item2vec and SVD the dense collections end up holding exactly what
    this run trained and pooled; under "catalog" the item vectors are the
    embedder's and stay as they are, whatever fails. *)

From stdpp Require Import base tactics gmap sets strings list sorting.
From Stdlib Require Import ZArith SpecFloat Lia.
From S2P Require Import Prelude GoLib NsNames NsLedger NsService Hoare Float64 NamespaceConfig IdMap Scoring Strategy Recommend ServingSamples ComputeVectors Cooccurrence VectorFacts Recompute RecomputeFacts RecomputeExact DenseTraining DensePhase ComputeJob JobFrames JobFacts.

Abbreviation W := (World Compute).
Abbreviation call := Recompute.call.

(** ** Ids one by one *)

Section writing.
Context (ctx : Ctx) (ns : string).
Hypothesis lease : RequireNamespaceLease ctx ns = [].

Definition key (et : entity) (id : string) : idkey := (ns, entity_type et, id).

Lemma numeric_id_writes et id now x :
  ids_ok (cp_ids x) →
  writes true (numeric_id ctx ns et id) now x (λ r x', ∃ t, x' = set_cp_ids t x ∧ ids_grow (cp_ids x) t ∧
    (in_range t → r.2 = [] ∧ im_rows t !! key et id = Some r.1)).
Proof.
  intros Hok. unfold numeric_id. apply writes_on_ids.
  assert (writes true (GetOrCreate ctx id ns (entity_type et)) now (cp_ids x) (λ r t, ids_grow (cp_ids x) t ∧ (in_range t → r.2 = [] ∧ im_rows t !! key et id = Some r.1))) as HG.
  { unfold GetOrCreate. eapply writes_bind; [by apply GetOrCreateBatch_writes|]. intros r t (Hg & Hc & Hr). destruct (Hc eq_refl) as [out ->].
    destruct (out !! id) as [n|] eqn:E; apply writes_ret; (split; [done|]); intros Hin; destruct (Hr Hin out eq_refl id) as (n' & Hn & Ht); try (by left); [|congruence].
    split; [done|]. cbn. unfold key. congruence. }
  by destruct et.
Qed.

(** ** Upserts *)

Definition dense_points (R : gmap idkey Z) (et : entity) (strategy : string) (vecs : gmap string (list float32)) (createdAt : gmap string Z) (now : Z) (ids : list string) : list (Z * VPoint) :=
  (λ id, (default 0%Z (R !! key et id), dense_point strategy createdAt now id (default [] (vecs !! id)))) <$> ids.

Definition resolved (R : gmap idkey Z) (et : entity) (ids : list string) : Prop := ∀ id, id ∈ ids → is_Some (R !! key et id).

Lemma dense_points_mono R R' et strategy vecs createdAt now ids :
  R ⊆ R' → resolved R et ids → dense_points R' et strategy vecs createdAt now ids = dense_points R et strategy vecs createdAt now ids.
Proof.
  intros Hsub Hres. apply list_fmap_ext. intros i id Hid. destruct (Hres id) as [n Hn]; [by eapply list_elem_of_lookup_2|].
  by rewrite Hn, (lookup_weaken _ _ _ _ Hn Hsub).
Qed.

Lemma put_ids name coll t t' x : set_cp_ids t' (put_coll name coll (set_cp_ids t x)) = put_coll name coll (set_cp_ids t' x).
Proof. done. Qed.

Lemma in_range_grow t t' : ids_grow t t' → in_range t' → in_range t.
Proof. intros (_ & _ & Hle). by apply in_range_le. Qed.

Lemma upsert_dense_loop_writes name et strategy vecs createdAt at_ ids batch coll now x :
  ids_ok (cp_ids x) → cp_collections x !! name = Some coll →
  writes true (upsert_dense_loop ctx ns et name strategy vecs createdAt at_ ids batch) now x (λ e x', ∃ t coll',
    x' = put_coll name coll' (set_cp_ids t x) ∧ ids_grow (cp_ids x) t ∧
    (in_range t → e = [] ∧ resolved (im_rows t) et ids ∧ coll' = put_points (batch ++ dense_points (im_rows t) et strategy vecs createdAt at_ ids) coll)).
Proof.
  revert batch coll x. induction ids as [|id ids IH]; intros batch coll x Hok Hc; cbn [upsert_dense_loop].
  { eapply writes_mono; [by apply (flush_points_writes (c := true))|]. intros e x' (coll' & -> & [_ Ha Hcalm]). exists (cp_ids x), coll'.
    split; [by destruct x|]. split; [by apply ids_grow_refl|]. intros _. split; [by apply Hcalm|]. split; [by intros ? ?%elem_of_nil|].
    cbn. rewrite app_nil_r. by apply Ha, Hcalm. }
  eapply writes_bind; [by apply numeric_id_writes|]. intros [n err] x1 (t1 & -> & Hg1 & Hr1). cbn [fst snd] in Hr1.
  assert (ids_ok t1) as Hok1 by apply Hg1.
  destruct err as [|er err]; cbn [nil_err negb].
  2: { eapply writes_mono; [by apply IH|]. intros e x' (t & coll' & -> & Hg & _). exists t, coll'. split; [done|].
       split; [by eapply ids_grow_trans|]. intros Hin. by destruct (Hr1 (in_range_grow _ _ Hg Hin)). }
  assert (∀ t, ids_grow t1 t → in_range t → resolved (im_rows t) et ids → resolved (im_rows t) et (id :: ids) ∧
    batch ++ dense_points (im_rows t) et strategy vecs createdAt at_ (id :: ids) =
    (batch ++ [(n, dense_point strategy createdAt at_ id (default [] (vecs !! id)))]) ++ dense_points (im_rows t) et strategy vecs createdAt at_ ids) as Hstep.
  { intros t Hg Hin Hres. destruct (Hr1 (in_range_grow _ _ Hg Hin)) as [_ Hn]. assert (im_rows t !! key et id = Some n) as Hn' by (eapply lookup_weaken; [exact Hn|apply Hg]).
    split; [intros i [-> |Hi]%elem_of_cons; [by eexists|by apply Hres]|]. unfold dense_points. rewrite fmap_cons, Hn'. cbn. by rewrite <- app_assoc. }
  set (batch' := batch ++ _) in *. destruct (denseBatchSize <=? length batch')%nat.
  - eapply writes_bind; [by apply (flush_points_writes (c := true))|]. intros e x2 (coll2 & -> & [_ Ha Hcalm]). rewrite (Hcalm eq_refl). cbn [nil_err negb].
    specialize (Ha (Hcalm eq_refl)). eapply writes_mono; [apply IH; [done|apply lookup_put_coll]|].
    intros e' x' (t & coll' & -> & Hg & Hr). exists t, coll'. split; [rewrite put_ids; apply put_coll_twice|]. split; [by eapply ids_grow_trans|].
    intros Hin. destruct (Hr Hin) as (He & Hres & ->). destruct (Hstep t Hg Hin Hres) as [Hres' ->]. split; [done|]. split; [done|].
    rewrite (put_points_app batch'). by rewrite <- Ha.
  - eapply writes_mono; [by apply IH|]. intros e' x' (t & coll' & -> & Hg & Hr). exists t, coll'. split; [done|]. split; [by eapply ids_grow_trans|].
    intros Hin. destruct (Hr Hin) as (He & Hres & ->). by destruct (Hstep t Hg Hin Hres) as [Hres' ->].
Qed.

Lemma insert_sorted_perm s l : insert_sorted s l ≡ₚ s :: l.
Proof. induction l as [|y l IH]; cbn; [done|]. destruct (String.leb s y); [done|]. rewrite IH. apply Permutation_swap. Qed.

Lemma sort_strings_perm l : sort_strings l ≡ₚ l.
Proof. induction l as [|s l IH]; cbn; [done|]. by rewrite insert_sorted_perm, IH. Qed.

(** The ids of the vectors, in the order they are written. *)
Definition vec_keys (vecs : gmap string (list float32)) : list string := sort_strings (map_to_list vecs).*1.

Lemma elem_of_vec_keys vecs id : id ∈ vec_keys vecs ↔ is_Some (vecs !! id).
Proof.
  unfold vec_keys. rewrite sort_strings_perm, list_elem_of_fmap. split.
  - intros ([i v] & -> & Hv%elem_of_map_to_list). by eexists.
  - intros [v Hv]. exists (id, v). by rewrite elem_of_map_to_list.
Qed.

(** [x'] differs from [x] in ids, which only grow, and in the collection
    [name], which satisfies [P] if numeric ids have not run out. *)
Definition step (name : string) (x x' : Compute) (P : gmap idkey Z → collection → Prop) : Prop :=
  ∃ coll', cp_collections x' = <[name := coll']> (cp_collections x) ∧ ids_grow (cp_ids x) (cp_ids x') ∧
    (in_range (cp_ids x') → P (im_rows (cp_ids x')) coll').

Lemma UpsertDenseVectors_writes et name strategy vecs createdAt coll now x :
  collectionForContext ctx ns (dense_kind et) = inl name → ids_ok (cp_ids x) → cp_collections x !! name = Some coll →
  writes true (UpsertDenseVectors ctx ns et strategy vecs createdAt) now x (λ e x', step name x x' (λ R coll',
    e = [] ∧ resolved R et (vec_keys vecs) ∧ coll' = put_points (dense_points R et strategy vecs createdAt now (vec_keys vecs)) coll)).
Proof.
  intros Hn Hok Hc. unfold UpsertDenseVectors, upsertDenseVectors. rewrite Hn.
  eapply (writes_bind _ _ _ _ (λ t y, t = now ∧ y = x)); [by apply writes_gets_now|]. intros ? y [-> ->].
  eapply writes_mono; [by apply upsert_dense_loop_writes|]. intros e x' (t & coll' & -> & Hg & Hr). exists coll'. split; [done|]. by split.
Qed.

(** ** Sweeps *)

Lemma writes_and {X A} c (m : M (World X) A) now x (P Q : A → X → Prop) : writes c m now x P → writes c m now x Q → writes c m now x (λ a x', P a x' ∧ Q a x').
Proof. intros HP HQ w Hx Hn Hf. destruct (HP w Hx Hn Hf) as (? & ? & ?), (HQ w Hx Hn Hf) as (_ & _ & ?). done. Qed.

Lemma delete_batches_succeeds name coll bs n now x :
  cp_collections x !! name = Some coll → writes true (delete_batches name n bs) now x (λ r _, ∃ n, r = inl n).
Proof.
  revert coll n x. induction bs as [|b bs IH]; intros coll n x Hc; cbn [delete_batches]; [apply writes_ret; by eexists|].
  eapply (writes_bind _ _ _ _ (λ e x', e = [] ∧ x' = put_coll name (foldr delete coll b) x)); [by apply (DeletePoints_writes name coll)|].
  intros ? ? [-> ->]. cbn [nil_err negb]. eapply IH, lookup_put_coll.
Qed.

Lemma scroll_stale_fuel fuel name keep offset stale now x coll :
  cp_collections x !! name = Some coll → (size coll < fuel)%nat → 
  writes true (scroll_stale fuel name keep offset stale) now x (λ r x', x' = x ∧ ∃ l, r = inl l).
Proof.
  intros Hc Hf. eapply writes_mono; [apply (scroll_stale_writes _ _ coll); [done|]|].
  - eapply Nat.le_lt_trans; [apply length_filter|]. unfold sorted_ids. rewrite merge_sort_Permutation, length_fmap, length_map_to_list. done.
  - intros r x' [-> [-> |[? _]]]; [|done]. by split; [|eexists].
Qed.

Lemma CleanupStalePoints_succeeds name coll keep now x :
  cp_collections x !! name = Some coll → writes true (CleanupStalePoints name keep) now x (λ r _, ∃ n, r = inl n).
Proof.
  intros Hc. unfold CleanupStalePoints. eapply (writes_bind _ _ _ _ (λ n x', x' = x ∧ n = size coll)).
  { apply (writes_gets (λ x, match cp_collections x !! name with Some coll => size coll | None => 0%nat end)). by rewrite Hc. }
  intros ? ? [-> ->]. eapply writes_bind; [apply (scroll_stale_fuel _ _ _ _ _ _ _ coll); [done|lia]|]. intros ? ? [-> [l ->]].
  by eapply delete_batches_succeeds.
Qed.

Lemma keep_ids_writes et ids keep now x :
  ids_ok (cp_ids x) →
  writes true (keep_ids ctx ns et ids keep) now x (λ r x', ∃ t, x' = set_cp_ids t x ∧ ids_grow (cp_ids x) t ∧
    (in_range t → ∃ k, r = inl k ∧ ∀ n, n ∈ k ↔ n ∈ keep ∨ ∃ id, id ∈ ids ∧ im_rows t !! key et id = Some n)).
Proof.
  revert keep x. induction ids as [|id ids IH]; intros keep x Hok; cbn [keep_ids].
  { apply writes_ret. exists (cp_ids x). split; [by destruct x|]. split; [by apply ids_grow_refl|]. intros _. exists keep. split; [done|].
    intros n. split; [by left|]. intros [?|(? & ?%elem_of_nil & _)]; done. }
  eapply writes_bind; [by apply numeric_id_writes|]. intros [n err] x1 (t1 & -> & Hg1 & Hr1). cbn [fst snd] in Hr1.
  destruct err as [|er err]; cbn [nil_err negb].
  2: { apply writes_ret. exists t1. split; [done|]. split; [done|]. intros Hin. by destruct (Hr1 Hin). }
  eapply writes_mono; [apply IH; apply Hg1|]. intros r x' (t & -> & Hg & Hr). exists t. split; [done|]. split; [by eapply ids_grow_trans|].
  intros Hin. destruct (Hr Hin) as (k & -> & Hk). exists k. split; [done|]. destruct (Hr1 (in_range_grow _ _ Hg Hin)) as [_ Hn].
  assert (im_rows t !! key et id = Some n) as Hn' by (eapply lookup_weaken; [exact Hn|apply Hg]).
  intros m. rewrite Hk, elem_of_union, elem_of_singleton. split.
  - intros [[-> |?]|(i & Hi & Him)]; [right; exists id; split; [by left|done]|by left|right; exists i; split; [by right|done]].
  - intros [?|(i & [-> |Hi]%elem_of_cons & Him)]; [by auto|left; left; congruence|right; by exists i].
Qed.

Lemma CleanupStaleDensePoints_writes et name ids coll now x :
  collectionForContext ctx ns (dense_kind et) = inl name → ids_ok (cp_ids x) → cp_collections x !! name = Some coll →
  writes true (CleanupStaleDensePoints ctx ns et ids) now x (λ r x', step name x x' (λ R coll',
    (∃ n, r = inl n) ∧ ∃ keep, swept_to (c := true) keep coll coll' ∧ ∀ n, n ∈ keep ↔ ∃ id, id ∈ ids ∧ R !! key et id = Some n)).
Proof.
  intros Hname Hok Hc. unfold CleanupStaleDensePoints. eapply writes_bind; [by apply keep_ids_writes|]. intros [k|e] x1 (t & -> & Hg & Hr).
  - rewrite Hname. eapply (writes_mono _ _ _ (λ r x', (∃ n, r = inl n) ∧ ∃ coll', swept_to (c := true) k coll coll' ∧ x' = put_coll name coll' (set_cp_ids t x))).
    + apply writes_and; [by eapply CleanupStalePoints_succeeds|by apply CleanupStalePoints_writes].
    + intros r x' [Hn (coll' & Hs & ->)]. exists coll'. split; [done|]. split; [done|]. intros Hin. split; [done|]. destruct (Hr Hin) as (k' & [= <-] & Hk).
      exists k. split; [done|]. intros n. rewrite Hk, elem_of_empty. naive_solver.
  - apply writes_ret. exists coll. split; [cbn; by rewrite insert_id|]. split; [done|]. intros Hin. by destruct (Hr Hin) as (? & ? & _).
Qed.

(** ** What a collection holds *)

Lemma dense_points_ids R et strategy vecs createdAt now ids n :
  resolved R et ids → n ∈ (dense_points R et strategy vecs createdAt now ids).*1 ↔ ∃ id, id ∈ ids ∧ R !! key et id = Some n.
Proof.
  intros Hres. unfold dense_points. rewrite list_elem_of_fmap. split.
  - intros ([m p] & -> & (id & [= -> ->] & Hid)%list_elem_of_fmap). exists id. split; [done|]. destruct (Hres id Hid) as [k Hk]. cbn. by rewrite Hk.
  - intros (id & Hid & Hn). eexists (n, _). split; [done|]. apply list_elem_of_fmap. exists id. by rewrite Hn.
Qed.

Lemma swept_ext keep keep' coll coll' : (∀ n, n ∈ keep ↔ n ∈ keep') → swept_to (c := true) keep coll coll' → swept_to (c := true) keep' coll coll'.
Proof. intros Hk (H1 & H2 & H3). split_and!; [|done|]; intros; [apply H1|apply H3]; set_solver. Qed.

(** Writing vectors and sweeping all other points leaves those vectors. *)
Lemma written_then_swept R R' et strategy vecs createdAt now (ids ids' : list string) coll coll' keep :
  R ⊆ R' → resolved R et ids → (∀ id, id ∈ ids' ↔ id ∈ ids) → (∀ n, n ∈ keep ↔ ∃ id, id ∈ ids' ∧ R' !! key et id = Some n) →
  swept_to (c := true) keep (put_points (dense_points R et strategy vecs createdAt now ids) coll) coll' →
  coll' = put_points (dense_points R' et strategy vecs createdAt now ids) ∅.
Proof.
  intros Hsub Hres Hids Hkeep Hsw. assert (resolved R' et ids) as Hres' by (intros id Hid; destruct (Hres id Hid) as [n Hn]; exists n; by eapply lookup_weaken).
  rewrite <- (dense_points_mono R R') in Hsw by done. eapply sweep_leaves_written; [reflexivity|].
  eapply swept_ext; [|exact Hsw]. intros n. rewrite Hkeep, elem_of_list_to_set, (dense_points_ids _ _ _ _ _ _ _ _ Hres'). setoid_rewrite Hids. done.
Qed.

(** One point per vector, under the id the table gives, and no other. *)
Definition dense_holds (R : gmap idkey Z) (et : entity) (strategy : string) (createdAt : gmap string Z) (now : Z) (vecs : gmap string (list float32)) (coll : collection) : Prop :=
  ∀ i p, coll !! i = Some p ↔ ∃ id v, vecs !! id = Some v ∧ R !! key et id = Some i ∧ p = dense_point strategy createdAt now id v.

Lemma put_points_inv points i p : put_points points ∅ !! i = Some p → (i, p) ∈ points.
Proof.
  induction points as [|[j q] points IH] using rev_ind; [done|]. rewrite put_points_app, put_points_cons. cbn [put_points foldl].
  destruct (decide (i = j)) as [->|Hn]; [rewrite lookup_insert_eq; intros [= ->]; set_solver|]. rewrite lookup_insert_ne by done. intros ?%IH. set_solver.
Qed.

Lemma dense_holds_points t et strategy vecs createdAt now :
  table_wf t → resolved (im_rows t) et (vec_keys vecs) →
  dense_holds (im_rows t) et strategy createdAt now vecs (put_points (dense_points (im_rows t) et strategy vecs createdAt now (vec_keys vecs)) ∅).
Proof.
  intros Hwf Hres i p. assert (∀ j q, (j, q) ∈ dense_points (im_rows t) et strategy vecs createdAt now (vec_keys vecs) ↔
    ∃ id v, vecs !! id = Some v ∧ im_rows t !! key et id = Some j ∧ q = dense_point strategy createdAt now id v) as Hpts.
  { intros j q. unfold dense_points. rewrite list_elem_of_fmap. split.
    - intros (id & [= -> ->] & Hid). destruct (Hres id Hid) as [n Hn]. apply elem_of_vec_keys in Hid as [v Hv]. exists id, v. by rewrite Hn, Hv.
    - intros (id & v & Hv & Hn & ->). exists id. rewrite Hn, Hv. split; [done|]. apply elem_of_vec_keys. by eexists. }
  rewrite <- Hpts. split; [apply put_points_inv|]. intros Hp. apply put_points_unique; [done|]. intros q (id & v & Hv & Hn & ->)%Hpts.
  apply Hpts in Hp as (id' & v' & Hv' & Hn' & ->). pose proof (tw_inj _ Hwf _ _ _ Hn Hn') as [= ->]. by rewrite Hv in Hv'; injection Hv' as ->.
Qed.

(** ** The phase *)

Section phase.
Context `{GoMath, GoRand, GoPow, GoRangeStrings, GonumSVD, SqlOrder}.
Context (On Sn : string).
Hypothesis items_name : collectionForContext ctx ns KindObjectsDense = inl On.
Hypothesis subjects_name : collectionForContext ctx ns KindSubjectsDense = inl Sn.
Hypothesis names_differ : On ≠ Sn.

Lemma ensure_collection_writes name now x :
  writes true (ensure_collection name) now x (λ e x', e = [] ∧ x' = put_coll name (default ∅ (cp_collections x !! name)) x).
Proof.
  unfold ensure_collection. eapply (writes_bind _ _ _ _ (λ r x', r = inl (bool_decide (is_Some (cp_collections x !! name))) ∧ x' = x)); [by apply writes_query|].
  intros ? ? [-> ->]. destruct (cp_collections x !! name) as [coll|] eqn:E.
  - rewrite bool_decide_eq_true_2 by (by eexists). apply writes_ret. split; [done|]. symmetry. by apply put_coll_same.
  - rewrite bool_decide_eq_false_2 by (by intros [? ?]). unfold CreateCollection.
    eapply (writes_bind _ _ _ _ (λ r x', r = inl true ∧ x' = put_coll name ∅ x)); [apply writes_call; [done|]; by rewrite E|]. intros ? ? [-> ->]. by apply writes_ret.
Qed.

Lemma collection_name kind name :
  collectionForContext ctx ns kind = inl name → ∃ inc, LeaseIncarnation ctx ns = (inc, true) ∧ Incarnation_MustPhysicalName inc kind = Some name.
Proof.
  unfold collectionForContext. destruct (LeaseIncarnation ctx ns) as [inc []]; [|done]. destruct (Incarnation_MustPhysicalName inc kind) eqn:E; [|done].
  intros [= <-]. by exists inc.
Qed.

(** Both collections are there, as they were or empty. *)
Definition ensured (x x' : Compute) : Prop :=
  cp_ids x' = cp_ids x ∧ cp_events x' = cp_events x ∧ cp_collections x' !! On = Some (default ∅ (cp_collections x !! On)) ∧
  cp_collections x' !! Sn = Some (default ∅ (cp_collections x !! Sn)).

Lemma EnsureDenseCollections_writes now x : writes true (EnsureDenseCollections ctx ns) now x (λ e x', e = [] ∧ ensured x x').
Proof.
  destruct (collection_name _ _ items_name) as (inc & Hi & HOn). destruct (collection_name _ _ subjects_name) as (inc' & Hi' & HSn).
  unfold EnsureDenseCollections. rewrite Hi in Hi' |- *. injection Hi' as <-. cbn [ensure_kinds]. rewrite HOn.
  eapply writes_bind; [apply ensure_collection_writes|]. intros ? ? [-> ->]. cbn [nil_err negb]. rewrite HSn.
  eapply writes_bind; [apply ensure_collection_writes|]. intros ? ? [-> ->]. apply writes_ret. split; [done|]. split; [done|]. split; [done|]. split.
  - cbn. rewrite lookup_insert_ne by done. apply lookup_insert_eq.
  - cbn. rewrite lookup_insert_eq, lookup_insert_ne by done. done.
Qed.

(** The end of a phase that owns both collections. *)
Definition dense_result (strategy : string) (createdAt : gmap string Z) (now : Z) (vecs subj : gmap string (list float32)) (x' : Compute) : Prop :=
  ∃ oc sc, cp_collections x' !! On = Some oc ∧ cp_collections x' !! Sn = Some sc ∧
    dense_holds (im_rows (cp_ids x')) EObject strategy createdAt now vecs oc ∧ dense_holds (im_rows (cp_ids x')) ESubject strategy ∅ now subj sc.

Lemma range_keys vecs id : id ∈ (range_strings vecs).*1 ↔ id ∈ vec_keys vecs.
Proof. unfold vec_keys. by rewrite sort_strings_perm, range_strings_perm. Qed.

Lemma vec_keys_empty : vec_keys ∅ = [].
Proof. unfold vec_keys. by rewrite map_to_list_empty. Qed.

Lemma upsert_subjects_writes strategy subj sc now x :
  ids_ok (cp_ids x) → cp_collections x !! Sn = Some sc →
  writes true (if decide (subj = ∅) then ret [] else UpsertDenseVectors ctx ns ESubject strategy subj ∅) now x (λ e x', step Sn x x' (λ R coll',
    e = [] ∧ resolved R ESubject (vec_keys subj) ∧ coll' = put_points (dense_points R ESubject strategy subj ∅ now (vec_keys subj)) sc)).
Proof.
  intros Hok Hc. case_decide as Hs; [|by apply UpsertDenseVectors_writes]. apply writes_ret. exists sc. split; [by rewrite insert_id|].
  split; [by apply ids_grow_refl|]. intros _. subst. rewrite vec_keys_empty. split; [done|]. split; [|done]. by intros ? ?%elem_of_nil.
Qed.

Lemma write_dense_writes cfg events vecs subj oc sc now x :
  UserDenseVectors events vecs = Some subj → ids_ok (cp_ids x) → cp_collections x !! On = Some oc → cp_collections x !! Sn = Some sc →
  writes true (write_dense ctx ns cfg events vecs true) now x (λ r x', in_range (cp_ids x') →
    r = ((size vecs, size subj), []) ∧ dense_result (cfg_DenseSource cfg) (objectCreatedAtLookup events) now vecs subj x').
Proof.
  intros Hsubj Hok Ho Hs. unfold write_dense, sweep_dense.
  eapply writes_bind; [by apply UpsertDenseVectors_writes|]. intros e1 x1 (c1 & E1 & G1 & P1).
  destruct e1 as [|er e1]; cbn [nil_err negb]; [|apply writes_ret; intros Hin; by destruct (P1 Hin)]. rewrite Hsubj.
  eapply writes_bind; [apply (upsert_subjects_writes _ _ sc); [apply G1|by rewrite E1, lookup_insert_ne]|]. intros e2 x2 (c2 & E2 & G2 & P2).
  destruct e2 as [|er e2]; cbn [nil_err negb]; [|apply writes_ret; intros Hin; by destruct (P2 Hin)].
  eapply (writes_bind _ _ _ _ (λ _ x4, ∃ c3 c4, cp_collections x4 !! On = Some c3 ∧ cp_collections x4 !! Sn = Some c4 ∧ ids_grow (cp_ids x2) (cp_ids x4) ∧
    (in_range (cp_ids x4) → ∃ k3 k4 R3, im_rows (cp_ids x2) ⊆ R3 ∧ R3 ⊆ im_rows (cp_ids x4) ∧ swept_to (c := true) k3 c1 c3 ∧ swept_to (c := true) k4 c2 c4 ∧
       (∀ n, n ∈ k3 ↔ ∃ id, id ∈ (range_strings vecs).*1 ∧ R3 !! key EObject id = Some n) ∧
       (∀ n, n ∈ k4 ↔ ∃ id, id ∈ (range_strings subj).*1 ∧ im_rows (cp_ids x4) !! key ESubject id = Some n)))).
  - eapply writes_bind; [apply (CleanupStaleDensePoints_writes EObject On _ c1); [done|apply G2|rewrite E2, E1, lookup_insert_ne by done; apply lookup_insert_eq]|].
    intros r3 x3 (c3 & E3 & G3 & P3).
    eapply writes_bind; [apply (CleanupStaleDensePoints_writes ESubject Sn _ c2); [done|apply G3|rewrite E3, E2, lookup_insert_ne by done; apply lookup_insert_eq]|].
    intros r4 x4 (c4 & E4 & G4 & P4). apply writes_ret. exists c3, c4. split; [rewrite E4, E3, lookup_insert_ne by done; apply lookup_insert_eq|].
    split; [rewrite E4; apply lookup_insert_eq|]. split; [by eapply ids_grow_trans|]. intros Hin.
    destruct (P4 Hin) as (_ & k4 & S4 & K4). destruct (P3 (in_range_grow _ _ G4 Hin)) as (_ & k3 & S3 & K3).
    exists k3, k4, (im_rows (cp_ids x3)). split; [apply G3|]. split; [apply G4|done].
  - intros [] x4 (c3 & c4 & L3 & L4 & G4 & P4). apply writes_ret. intros Hin. split; [done|]. exists c3, c4. split; [done|]. split; [done|].
    destruct (P4 Hin) as (k3 & k4 & R3 & Hsub3 & Hsub4 & S3 & S4 & K3 & K4).
    assert (in_range (cp_ids x2)) as Hin2 by (by eapply in_range_grow). destruct (P2 Hin2) as (_ & Res2 & ->).
    destruct (P1 (in_range_grow _ _ G2 Hin2)) as (_ & Res1 & ->).
    assert (im_rows (cp_ids x1) ⊆ R3) as HR3 by (etransitivity; [apply G2|done]).
    pose proof (written_then_swept _ R3 _ _ _ _ _ _ _ _ _ _ HR3 Res1 (range_keys vecs) K3 S3) as ->.
    pose proof (written_then_swept _ _ _ _ _ _ _ _ _ _ _ _ (proj1 (proj2 G4)) Res2 (range_keys subj) K4 S4) as ->.
    assert (resolved R3 EObject (vec_keys vecs)) as Res3 by (intros id Hid; destruct (Res1 id Hid) as [n Hn]; exists n; by eapply lookup_weaken).
    rewrite <- (dense_points_mono R3 (im_rows (cp_ids x4))) by done.
    split; apply dense_holds_points; try apply G4; intros id Hid.
    + destruct (Res3 id Hid) as [n Hn]. exists n. by eapply lookup_weaken.
    + destruct (Res2 id Hid) as [n Hn]. exists n. eapply lookup_weaken; [done|apply G4].
Qed.

Lemma swept_nothing keep coll coll' : (∀ n, n ∉ keep) → swept_to (c := true) keep coll coll' → coll' = ∅.
Proof. intros Hk (_ & _ & Hd). apply map_eq. intros i. by rewrite Hd, lookup_empty. Qed.

Lemma dense_holds_empty R et strategy createdAt now : dense_holds R et strategy createdAt now ∅ ∅.
Proof. intros i p. rewrite lookup_empty. split; [done|]. intros (id & v & Hv & _). by rewrite lookup_empty in Hv. Qed.

Lemma clear_dense_writes strategy createdAt oc sc now x :
  ids_ok (cp_ids x) → cp_collections x !! On = Some oc → cp_collections x !! Sn = Some sc →
  writes true (clear_dense ctx ns true) now x (λ e x', in_range (cp_ids x') → e = [] ∧ dense_result strategy createdAt now ∅ ∅ x').
Proof.
  intros Hok Ho Hs. unfold clear_dense.
  eapply writes_bind; [by apply (CleanupStaleDensePoints_writes EObject On _ oc)|]. intros r1 x1 (c1 & E1 & G1 & P1).
  destruct r1 as [n|e]; [|apply writes_ret; intros Hin; by destruct (P1 Hin) as [[? ?] _]].
  eapply writes_bind; [apply (CleanupStaleDensePoints_writes ESubject Sn _ sc); [done|apply G1|by rewrite E1, lookup_insert_ne]|].
  intros r2 x2 (c2 & E2 & G2 & P2). apply writes_ret. intros Hin. destruct (P2 Hin) as [[m ->] (k2 & S2 & K2)]. split; [done|].
  destruct (P1 (in_range_grow _ _ G2 Hin)) as (_ & k1 & S1 & K1).
  rewrite (swept_nothing k1 oc c1) in E1 by (done || (intros i; rewrite K1; by intros (? & ?%elem_of_nil & _))).
  rewrite (swept_nothing k2 sc c2) in E2 by (done || (intros i; rewrite K2; by intros (? & ?%elem_of_nil & _))).
  exists ∅, ∅. split; [rewrite E2, E1, lookup_insert_ne by done; apply lookup_insert_eq|]. split; [rewrite E2; apply lookup_insert_eq|].
  split; apply dense_holds_empty.
Qed.

(** What training gives: the vectors, or why the SVD was refused. *)
Definition i2v_config (cfg : Config) : Item2VecConfig :=
  {| i2v_Dim := embedding_dim cfg; i2v_Window := 5; i2v_MinCount := 5; i2v_Epochs := 10; i2v_NegSamples := 5 |}.

Definition trained_as (cfg : Config) (events : list RawEvent) (now : Z) (r : gmap string (list float32) + error) : Prop :=
  if bool_decide (cfg_DenseSource cfg = DenseSourceItem2Vec)
  then ∃ vecs, r = inl vecs ∧ TrainItem2Vec (BuildInteractionSequences events) (i2v_config cfg) = Some vecs
  else SVDEmbeddings events (embedding_dim cfg) (lambda_of (cfg_Lambda cfg)) (unix now) = Some r.

Lemma item_vectors_writes cfg events now x :
  trains (cfg_DenseSource cfg) = true →
  writes true (item_vectors ctx ns cfg events) now x (λ r x', x' = x ∧ ∃ tr, trained_as cfg events now tr ∧
    match tr with
    | inl vecs => r = inl (vecs, true) ∧ ∀ item v, vecs !! item = Some v → length v = embedding_dim cfg
    | inr e => r = inr e
    end).
Proof.
  intros Ht. unfold item_vectors, trained_as, trains in *. destruct (bool_decide (cfg_DenseSource cfg = DenseSourceItem2Vec)).
  - destruct (TrainItem2Vec_fits (BuildInteractionSequences events) (i2v_config cfg)) as (vecs & Hv & _ & Hd). unfold i2v_config in *. rewrite Hv. apply writes_ret.
    split; [done|]. exists (inl vecs). split; [by exists vecs|]. done.
  - cbn [orb] in Ht. rewrite Ht. eapply (writes_bind _ _ _ _ (λ t y, t = now ∧ y = x)); [by apply writes_gets_now|]. intros ? ? [-> ->].
    destruct (SVDEmbeddings_fits events (embedding_dim cfg) (lambda_of (cfg_Lambda cfg)) (unix now)) as (r & Hr & Hv). rewrite Hr. apply writes_ret.
    split; [done|]. exists r. split; [done|]. destruct r as [vecs|e]; [|done]. by destruct Hv.
Qed.

(** No events, no vectors. *)
Lemma trained_empty cfg now : trained_as cfg [] now (inl ∅).
Proof.
  unfold trained_as. destruct (bool_decide _); [|by vm_compute].
  destruct (TrainItem2Vec_fits (BuildInteractionSequences []) (i2v_config cfg)) as (vecs & Hv & Hd & _).
  exists ∅. split; [done|]. rewrite Hv. f_equal. apply dom_empty_inv_L. rewrite Hd. case_decide; [done|]. apply set_eq. intros i.
  unfold eligible. cbn. rewrite elem_of_filter, elem_of_empty. tauto.
Qed.

(** The phase's answer, given what training gave. *)
Definition phase_result (cfg : Config) (events : list RawEvent) (now : Z) (x : Compute) (tr : gmap string (list float32) + error) (r : (nat * nat) * error) (x' : Compute) : Prop :=
  match tr with
  | inl vecs => ∃ subj, UserDenseVectors events vecs = Some subj ∧ r = ((size vecs, size subj), []) ∧
                  dense_result (cfg_DenseSource cfg) (objectCreatedAtLookup events) now vecs subj x'
  | inr e => r = ((0, 0)%nat, e) ∧ ensured x x'
  end.

Lemma runPhase2Dense_writes cfg now x :
  trains (cfg_DenseSource cfg) = true → ids_ok (cp_ids x) → existsb (λ r, bool_decide (er_namespace r = ns)) (cp_events x) = true →
  writes true (runPhase2Dense ctx ns cfg) now x (λ r x', in_range (cp_ids x') →
    ∃ tr, trained_as cfg (namespace_rows ns now x) now tr ∧ phase_result cfg (namespace_rows ns now x) now x tr r x').
Proof.
  intros Ht Hok Hev. unfold runPhase2Dense.
  eapply (writes_bind _ _ _ _ (λ r y, r = inl true ∧ y = x)); [apply writes_query; [done|]; by rewrite Hev|]. intros ? ? [-> ->].
  eapply writes_bind; [apply EnsureDenseCollections_writes|]. intros ? x1 [-> Hens]. pose proof Hens as (Hids & Hevs & Ho & Hs). cbn [nil_err negb].
  assert (namespace_rows ns now x1 = namespace_rows ns now x) as Hrows by (unfold namespace_rows; by rewrite Hevs).
  eapply (writes_bind _ _ _ _ (λ r y, r = inl (namespace_rows ns now x) ∧ y = x1)); [apply writes_query; [done|]; by rewrite Hrows|]. intros ? ? [-> ->].
  assert (ids_ok (cp_ids x1)) as Hok1 by (by rewrite Hids).
  assert (∀ vecs, vecs = ∅ → UserDenseVectors (namespace_rows ns now x) vecs = Some ∅) as Hpool by (intros vecs ->; unfold UserDenseVectors; by rewrite decide_True).
  destruct (namespace_rows ns now x) as [|e0 events0] eqn:Eev; [|set (events := e0 :: events0) in *].
  - rewrite Ht. eapply writes_bind; [by eapply clear_dense_writes|]. intros e x2 He. apply writes_ret. intros Hin. destruct (He Hin) as [-> Hres].
    exists (inl ∅). split; [apply trained_empty|]. exists ∅. split; [by apply Hpool|]. by rewrite map_size_empty.
  - eapply writes_bind; [by apply item_vectors_writes|]. intros r x2 [-> (tr & Htr & Hr)]. destruct tr as [vecs|e]; [destruct Hr as [-> Hd]|subst r].
    + case_decide as Hv.
      * subst vecs. eapply writes_bind; [by eapply clear_dense_writes|]. intros e x3 He. apply writes_ret. intros Hin. destruct (He Hin) as [-> Hres].
        exists (inl ∅). split; [done|]. exists ∅. split; [by apply Hpool|]. by rewrite map_size_empty.
      * destruct (UserDenseVectors_exact vecs (embedding_dim cfg) Hd events) as (subj & Hsubj & _).
        eapply writes_mono; [by eapply write_dense_writes|]. intros r x3 Hr Hin. destruct (Hr Hin) as [-> Hres]. exists (inl vecs). split; [done|]. by exists subj.
    + apply writes_ret. intros _. exists (inr e). split; [done|]. by split.
Qed.
End phase.
End writing.

Section theorems.
Context `{GoMath, GoRand, GoPow, GoRangeStrings, GonumSVD, SqlOrder}.

(** C25: under item2vec or SVD, when nothing fails, the dense phase leaves in
    the items' collection exactly one point per trained item and in the
    subjects' exactly one per subject with an item to pool, each with its
    vector, under the numeric id of the mapping, whatever was there before; a
    namespace whose events aged out ends with both empty, and a matrix the SVD
    refuses changes no point. *)
Theorem dense_phase_exact ctx ns cfg On Sn w :
  RequireNamespaceLease ctx ns = [] → collectionForContext ctx ns KindObjectsDense = inl On → collectionForContext ctx ns KindSubjectsDense = inl Sn → On ≠ Sn →
  trains (cfg_DenseSource cfg) = true → ids_ok (cp_ids (w_ext w)) → w_faults w = [] →
  existsb (λ r, bool_decide (er_namespace r = ns)) (cp_events (w_ext w)) = true →
  let r := runPhase2Dense ctx ns cfg w in
  let events := namespace_rows ns (w_now w) (w_ext w) in
  in_range (cp_ids (w_ext r.2)) →
  ∃ tr, trained_as cfg events (w_now w) tr ∧ phase_result ns On Sn cfg events (w_now w) (w_ext w) tr r.1 (w_ext r.2).
Proof.
  intros Hl HOn HSn Hne Ht Hok Hf Hev.
  exact (writes_run _ w _ (runPhase2Dense_writes ctx ns Hl On Sn HOn HSn Hne cfg (w_now w) (w_ext w) Ht Hok Hev) (λ _, Hf)).
Qed.
End theorems.

(** ** Item vectors of the embedder *)

Definition keeps_coll (name : string) (x x' : Compute) : Prop :=
  ∀ coll, cp_collections x !! name = Some coll → cp_collections x' !! name = Some coll.

#[export] Instance keeps_coll_preorder name : PreOrder (keeps_coll name).
Proof. split; [by intros x coll|]. intros x y z H1 H2 coll Hc. by apply H2, H1. Qed.

Lemma keeps_numeric_id On ctx ns et id : stays (keeps_coll On) (numeric_id ctx ns et id).
Proof.
  intros c now x. unfold numeric_id. eapply writes_mono; [apply (writes_on_ids _ _ _ (λ _ _, True)); destruct et; apply create_runs|].
  intros r x' (t & -> & _) coll Hc. exact Hc.
Qed.

Lemma keeps_ensure On name : stays (keeps_coll On) (ensure_collection name).
Proof.
  unfold ensure_collection, CreateCollection. stays_tac. apply (stays_call _). intros now x. destruct (cp_collections x !! name) eqn:E; [done|].
  intros coll Hc. cbn. rewrite lookup_insert_ne; [done|]. intros ->. congruence.
Qed.

#[local] Hint Resolve keeps_numeric_id keeps_ensure : stays.

Section other.
Context (On name : string).
Hypothesis other_name : name ≠ On.

Lemma keeps_UpsertPoints points : stays (keeps_coll On) (UpsertPoints name points).
Proof.
  unfold UpsertPoints. stays_tac. apply (stays_call _). intros now x. destruct (cp_collections x !! name); [|done].
  intros coll Hc. cbn. by rewrite lookup_insert_ne.
Qed.

Lemma keeps_DeletePoints ids : stays (keeps_coll On) (DeletePoints name ids).
Proof.
  unfold DeletePoints. stays_tac. apply (stays_call _). intros now x. destruct (cp_collections x !! name); [|done].
  intros coll Hc. cbn. by rewrite lookup_insert_ne.
Qed.

Hint Resolve keeps_UpsertPoints keeps_DeletePoints : stays.

Lemma keeps_CleanupStalePoints keep : stays (keeps_coll On) (CleanupStalePoints name keep).
Proof.
  unfold CleanupStalePoints. apply (stays_bind _); [exact (stays_gets _ (λ x, match cp_collections x !! name with Some coll => size coll | None => 0%nat end))|].
  intros n. apply (stays_bind _).
  - generalize (S n) (@None Z) (@nil Z). intros fuel. induction fuel as [|fuel IH]; intros offset stale; cbn [scroll_stale]; stays_tac; apply IH.
  - intros [stale|e]; [|stays_tac]. generalize 0%nat. induction (batches qdrantBatchSize stale) as [|b bs IH]; intros k; cbn [delete_batches]; stays_tac; apply IH.
Qed.

Hint Resolve keeps_CleanupStalePoints : stays.

Section named.
Context (ctx : Ctx) (ns : string).
Hypothesis named : collectionForContext ctx ns KindSubjectsDense = inl name.

Lemma keeps_upsert_dense strategy vecs createdAt : stays (keeps_coll On) (UpsertDenseVectors ctx ns ESubject strategy vecs createdAt).
Proof.
  unfold UpsertDenseVectors, upsertDenseVectors. cbn [dense_kind]. rewrite named. stays_tac. generalize (@nil (Z * VPoint)).
  induction (sort_strings _) as [|id ids IH]; intros batch; cbn [upsert_dense_loop]; unfold flush_points; stays_tac; apply IH.
Qed.

Lemma keeps_cleanup_dense ids : stays (keeps_coll On) (CleanupStaleDensePoints ctx ns ESubject ids).
Proof.
  unfold CleanupStaleDensePoints. cbn [dense_kind]. rewrite named. apply (stays_bind _); [|intros ?; stays_tac].
  generalize (∅ : gset Z). induction ids as [|id ids IH]; intros keep; cbn [keep_ids]; stays_tac; apply IH.
Qed.
End named.
End other.

Section catalog.
Context `{GoMath, GoRand, GoPow, GoRangeStrings, GonumSVD, SqlOrder}.

Lemma keeps_fetch On ctx ns objectIDs : stays (keeps_coll On) (FetchItemDenseVectors ctx ns objectIDs).
Proof.
  unfold FetchItemDenseVectors. destruct (collectionForContext ctx ns KindObjectsDense) as [name|e]; [|stays_tac].
  generalize (@nil Z) (∅ : gmap Z string) (∅ : gmap string (list float32)).
  induction (sort_strings objectIDs) as [|id ids IH]; intros batch m out; cbn [fetch_loop]; unfold fetch_flush, GetPoints; stays_tac; apply IH.
Qed.

Lemma keeps_EnsureDense On ctx ns : stays (keeps_coll On) (EnsureDenseCollections ctx ns).
Proof. unfold EnsureDenseCollections, ensure_kinds. stays_tac. Qed.

Lemma item_vectors_read c On ctx ns cfg events now x :
  cfg_DenseSource cfg = DenseSourceCatalog →
  writes c (item_vectors ctx ns cfg events) now x (λ r x', keeps_coll On x x' ∧ ∀ vecs trained, r = inl (vecs, trained) → trained = false).
Proof.
  intros Hsrc. unfold item_vectors. rewrite Hsrc. rewrite !bool_decide_eq_false_2 by discriminate. rewrite bool_decide_eq_true_2 by done.
  eapply writes_bind; [apply keeps_fetch|]. intros r x' Hk. apply writes_ret. split; [exact Hk|]. destruct r; [by intros ? ? [= _ <-]|done].
Qed.

Lemma runPhase2Dense_keeps c ctx ns cfg On Sn now x :
  collectionForContext ctx ns KindSubjectsDense = inl Sn → Sn ≠ On → cfg_DenseSource cfg = DenseSourceCatalog →
  writes c (runPhase2Dense ctx ns cfg) now x (λ _ x', keeps_coll On x x').
Proof.
  intros HSn Hne Hsrc. pose proof (keeps_upsert_dense On Sn Hne ctx ns HSn) as Hup. pose proof (keeps_cleanup_dense On Sn Hne ctx ns HSn) as Hcl.
  pose proof (keeps_EnsureDense On ctx ns) as Hen.
  assert (stays (keeps_coll On) (clear_dense ctx ns false)) as Hclear by (unfold clear_dense; stays_tac).
  assert (∀ events vecs, stays (keeps_coll On) (write_dense ctx ns cfg events vecs false)) as Hwrite by (intros; unfold write_dense; stays_tac; auto).
  revert c now x. change (stays (keeps_coll On) (runPhase2Dense ctx ns cfg)). unfold runPhase2Dense, HasAnyEvents, GetAllNamespaceEvents.
  assert (trains (cfg_DenseSource cfg) = false) as -> by (by rewrite Hsrc).
  apply (stays_bind _); [stays_tac|]. intros [[]|e]; [|stays_tac..]. apply (stays_bind _); [done|]. intros e. destruct (negb _); [stays_tac|].
  apply (stays_bind _); [stays_tac|]. intros [[|e0 events]|e']; [stays_tac| |stays_tac].
  intros c now x. eapply writes_bind; [by apply (item_vectors_read c On)|]. intros [[vecs trained]|e'] x1 [Hk Ht]; [|by apply writes_ret].
  specialize (Ht _ _ eq_refl) as ->. eapply writes_mono; [|intros r x2 Hx2; transitivity x1; [exact Hk|exact Hx2]].
  case_decide; [|apply Hwrite]. eapply writes_bind; [apply Hclear|]. intros e'' x2 Hx2. by apply writes_ret.
Qed.

(** under "catalog" the dense phase never changes the items' collection,
    which the embedder owns, whatever fails: it creates it when it is missing,
    reads the vectors of the items that were interacted with and writes only
    the subjects'. *)
Theorem catalog_items_untouched ctx ns cfg On Sn coll w :
  collectionForContext ctx ns KindSubjectsDense = inl Sn → Sn ≠ On → cfg_DenseSource cfg = DenseSourceCatalog →
  cp_collections (w_ext w) !! On = Some coll →
  cp_collections (w_ext (runPhase2Dense ctx ns cfg w).2) !! On = Some coll.
Proof.
  intros HSn Hne Hsrc Hc. exact (writes_run _ w _ (runPhase2Dense_keeps false ctx ns cfg On Sn (w_now w) (w_ext w) HSn Hne Hsrc) ltac:(done) coll Hc).
Qed.
End catalog.

(** ** Samples *)

Definition catalog_cfg : Config :=
  {| cfg_Namespace := "demo"; cfg_Generation := 3; cfg_ActionWeights := ∅; cfg_Lambda := f64_zero; cfg_Gamma := f64_zero;
     cfg_MaxResults := 10; cfg_SeenItemsDays := 30; cfg_ExcludeAuthored := false; cfg_Paused := false; cfg_APIKeyHash := "";
     cfg_Alpha := f64_one; cfg_DenseSource := DenseSourceCatalog; cfg_EmbeddingDim := 2; cfg_DenseDistance := "cosine";
     cfg_TrendingWindow := 0; cfg_TrendingTTL := 0; cfg_LambdaTrending := f64_zero; cfg_CatalogStrategyID := "";
     cfg_CatalogStrategyVersion := ""; cfg_CatalogStrategyParams := None; cfg_CatalogMaxAttempts := 0; cfg_CatalogMaxContentBytes := 0;
     cfg_CreatedAt := 0; cfg_UpdatedAt := 0 |}.

(** [compute_world] with points in the dense collections. *)
Definition dense_world (items subjects : collection) (fs : list bool) : W :=
  with_world (set_cp_collections {[coll_name KindObjectsDense := items; coll_name KindSubjectsDense := subjects]} compute_state) (demo_world fs).

Section samples.
#[local] Existing Instances sample_math sample_order sample_rand sample_pow sample_range_strings sample_svd.

(** A stale item and a stale subject go; two items and two subjects come. *)
Lemma dense_phase_exact_witness :
  let r := runPhase2Dense lease_ctx "demo" job_cfg (dense_world {[99%Z := sample_point "gone"]} {[98%Z := sample_point "gone"]} []) in
  r.1 = ((2, 2)%nat, []) ∧ dom <$> cp_collections (w_ext r.2) = {["demo_g3_objects_dense" := {[1; 2]}%Z; "demo_g3_subjects_dense" := {[3; 4]}%Z]} ∧
  ∃ tr, trained_as job_cfg (namespace_rows "demo" 9 compute_state) 9 tr ∧
    phase_result "demo" "demo_g3_objects_dense" "demo_g3_subjects_dense" job_cfg (namespace_rows "demo" 9 compute_state) 9
      (w_ext (dense_world {[99%Z := sample_point "gone"]} {[98%Z := sample_point "gone"]} [])) tr r.1 (w_ext r.2).
Proof.
  split; [vm_compute; reflexivity|]. split; [vm_compute; reflexivity|].
  apply (dense_phase_exact lease_ctx "demo" job_cfg "demo_g3_objects_dense" "demo_g3_subjects_dense" (dense_world {[99%Z := sample_point "gone"]} {[98%Z := sample_point "gone"]} [])).
  - reflexivity.
  - vm_compute. reflexivity.
  - vm_compute. reflexivity.
  - discriminate.
  - reflexivity.
  - apply sample_ids_ok.
  - reflexivity.
  - reflexivity.
  - vm_compute. discriminate.
Defined.

(** The embedder has embedded one item; the third call of the phase fails. *)
Lemma catalog_items_untouched_witness :
  let items : collection := {[1%Z := dense_point "catalog" ∅ 0 "a" [f32_one; f32_zero]]} in
  cp_collections (w_ext (runPhase2Dense lease_ctx "demo" catalog_cfg (dense_world items ∅ [false; false; true])).2) !! "demo_g3_objects_dense" = Some items.
Proof.
  apply (catalog_items_untouched lease_ctx "demo" catalog_cfg "demo_g3_objects_dense" "demo_g3_subjects_dense").
  - vm_compute. reflexivity.
  - discriminate.
  - reflexivity.
  - reflexivity.
Defined.

(** Nothing embedded yet: the phase logs that the subject vectors are unchanged
    and removes all of them. *)
Example subjects_lost_without_embeddings :
  cp_collections (w_ext (runPhase2Dense lease_ctx "demo" catalog_cfg (dense_world ∅ {[4%Z := sample_point "s2"]} [])).2) !! "demo_g3_subjects_dense" = Some ∅.
Proof. vm_compute. reflexivity. Qed.
End samples.
