(* ===== verification/EmbedWire.v ===== *)
(** * Embed entries on the wire

    What the catalog service and the recovery sweeper put on an embed stream
    ([catalog/service.go], [embedder/recovery_sweeper.go]) and what the worker
    reads back ([embedder/types.go]). go-redis writes an int64 as its decimal
    digits, and Redis answers every value as a string. The text of a time is
    not read back by the worker's logic and stays a parameter. *)

From stdpp Require Import base tactics gmap strings pretty list.
From Stdlib Require Import ZArith Lia Ascii.
From S2P Require Import Prelude GoLib NsNames NsLedger NsService RedisStream StreamConsumer NamespaceConfig Catalog Embedder.

Section wire.
Context (format_time : Z → string).

(** The [Values] of the XADD. *)
Definition entry_values (e : EmbedEntry) : gmap string string :=
  {["catalog_item_id" := itoa (ee_ItemID e); "namespace" := ee_Namespace e; "namespace_generation" := itoa (ee_Generation e);
    "object_id" := ee_ObjectID e; "strategy_id" := ee_StrategyID e; "strategy_version" := ee_StrategyVersion e;
    "enqueued_at" := format_time (ee_EnqueuedAt e)]}.

Definition int64_range (z : Z) : Prop := (- 2 ^ 63 <= z < 2 ^ 63)%Z.

Lemma digit_not_sign c : is_digit c = true → c ≠ "-"%char ∧ c ≠ "+"%char.
Proof. intros Hd. split; intros ->; vm_compute in Hd; discriminate. Qed.

Lemma parse_int_digits s z : str_all is_digit s → s ≠ "" → parse_uint s = Some z → (z < 2 ^ 63)%Z → parse_int s = Some z.
Proof.
  intros Ha Hne Hp Hz. destruct s as [|c s]; [done|]. cbn in Ha. apply andb_True in Ha as [Hc _]. apply Is_true_true in Hc.
  destruct (digit_not_sign c Hc) as [Hm Hpl]. unfold parse_int.
  assert (∀ (A : Type) (x y d : A), match c with "-"%char => x | "+"%char => y | _ => d end = d) as Hd.
  { intros A x y d. destruct c as [[] [] [] [] [] [] [] []]; first [reflexivity | exfalso; by apply Hm | exfalso; by apply Hpl]. }
  rewrite Hd. rewrite Hp. cbn. destruct (Z.ltb_spec z (2 ^ 63)); [done|lia].
Qed.

(** Decimal printing and parsing are inverse on int64. *)
Lemma parse_int_itoa z : int64_range z → parse_int (itoa z) = Some z.
Proof.
  unfold int64_range. intros Hz. destruct (Z.leb_spec 0 z) as [Hp|Hn].
  - apply parse_int_digits; [|apply itoa_not_empty|apply parse_uint_itoa; unfold max_uint64; lia|lia].
    apply itoa_pos_all; [done|]. intros n Hd. by destruct (pretty_N_char_digit n Hd) as [-> _].
  - destruct z as [|p|p]; [lia|lia|]. change (itoa (Z.neg p)) with (String "-" (itoa (Z.pos p))). cbn [parse_int].
    rewrite parse_uint_itoa by (unfold max_uint64; lia). cbn. destruct (Z.leb_spec (Z.pos p) (2 ^ 63)); [done|lia].
Qed.

(** what is published for a catalog item is what the worker decodes: every
    entry whose numbers are int64 comes back with its item id and generation,
    unless its generation is below one, which the worker treats as malformed. *)
Theorem embed_entry_roundtrips e id :
  int64_range (ee_ItemID e) → int64_range (ee_Generation e) →
  DecodeStreamEntry {| ID := id; Values := entry_values e |} =
    (if (ee_Generation e <? 1)%Z then None
     else Some {| sn_CatalogItemID := ee_ItemID e; sn_NamespaceGeneration := Some (ee_Generation e) |}).
Proof.
  intros Hi Hg. unfold DecodeStreamEntry. cbn [Values].
  assert ((entry_values e : message) !! "catalog_item_id" = Some (itoa (ee_ItemID e))) as Hid by (unfold entry_values; by simplify_map_eq).
  rewrite Hid.
  assert (stringField (entry_values e) "namespace_generation" = itoa (ee_Generation e)) as -> by (unfold stringField, entry_values; by simplify_map_eq).
  cbn. rewrite parse_int_itoa by done. cbn. rewrite bool_decide_eq_false_2 by apply itoa_not_empty. rewrite parse_int_itoa by done. done.
Qed.
End wire.

Lemma embed_entry_roundtrips_witness :
  let e := {| ee_Stream := "catalog:embed:demo"; ee_ItemID := 42; ee_Namespace := "demo"; ee_Generation := 3; ee_ObjectID := "o";
              ee_StrategyID := "hashing"; ee_StrategyVersion := "v1"; ee_EnqueuedAt := 5 |} in
  DecodeStreamEntry {| ID := "1-0"; Values := entry_values (λ _, "now") e |} = Some {| sn_CatalogItemID := 42; sn_NamespaceGeneration := Some 3%Z |}.
Proof.
  set (e := {| ee_ItemID := 42 |}).
  apply (embed_entry_roundtrips (λ _, "now") e "1-0"); unfold int64_range; cbn; lia.
Defined.
