(* ===== verification/NsConfig.v ===== *)
(** * Namespace configuration service

    [internal/nsconfig]: request validation ([validate.go]), the statements on
    [namespace_configs] and [namespace_provisions] ([repository.go]) and the
    service ([service.go]), with the dense collection checker of [cmd/admin].
    Other processes change the same rows: the world carries a script of what they
    commit between two statements of this one. bcrypt and the source of
    randomness are interfaces; a document in a [jsonb] column keeps the members
    of an object in one order, and numbers as doubles without a negative zero. *)

From stdpp Require Import base tactics gmap sets strings list sorting.
From Stdlib Require Import ZArith SpecFloat Lia.
From S2P Require Import Prelude GoLib NsNames NsLedger NsService Utf8 Float64 NamespaceConfig Strategy.

(** ** Library code *)

Class GoFmt := {
  fmt_v : float64 → string;  (* %v *)
  fmt_q : string → string;   (* %q *)
}.

(** The order in which Go walks a map with string keys. *)
Class StringRange := {
  range_keys : ∀ {A : Type}, gmap string A → list (string * A);
  range_keys_perm : ∀ {A : Type} (m : gmap string A), range_keys m ≡ₚ map_to_list m;
}.

(** [golang.org/x/crypto/bcrypt]: the hash of a password under the n-th salt
    drawn. *)
Class Bcrypt := {
  bcrypt_hash : nat → string → string;
  bcrypt_compare : string → string → bool;
  bcrypt_matches : ∀ n password, bcrypt_compare (bcrypt_hash n password) password = true;
  bcrypt_too_short : ∀ password, bcrypt_compare "" password = false;  (* ErrHashTooShort *)
}.

(** [crypto/rand]: the n-th 32 bytes read. *)
Class CryptoRand := {
  rand_bytes : nat → list N;
  rand_bytes_ok : ∀ n, is_bytes (rand_bytes n) ∧ length (rand_bytes n) = 32%nat;
}.

(** [hex.DecodeString] *)
Definition hex_val (c : N) : option N :=
  if between 48 c 57 then Some (c - 48)%N
  else if between 97 c 102 then Some (c - 87)%N
  else if between 65 c 70 then Some (c - 55)%N
  else None.

Fixpoint hex_decode (l : list N) : option (list N) :=
  match l with
  | [] => Some []
  | [_] => None
  | a :: b :: rest =>
      match hex_val a, hex_val b, hex_decode rest with
      | Some x, Some y, Some r => Some ((16 * x + y)%N :: r)
      | _, _, _ => None
      end
  end.
Definition DecodeString (s : string) : option (list N) := hex_decode (bytes_of s).

Definition is_finite (x : float64) : bool := negb (is_nan x) && negb (is_inf x).

(** What [json.Marshal] and a [jsonb] column accept: finite numbers, no U+0000. *)
Fixpoint jsonb_ok (v : jvalue) : bool :=
  match v with
  | JNumber f => is_finite f
  | JString s => negb (contains_nul s)
  | JArray l => forallb jsonb_ok l
  | JObject m => forallb (λ p, negb (contains_nul p.1) && jsonb_ok p.2) m
  | JNull | JBool _ => true
  end.

Definition jsonb_num (f : float64) : float64 := match f with S754_zero _ => f64_zero | _ => f end.
Fixpoint jsonb (v : jvalue) : jvalue :=
  match v with
  | JNumber f => JNumber (jsonb_num f)
  | JArray l => JArray (List.map jsonb l)
  | JObject m => JObject (List.map (λ p, (p.1, jsonb p.2)) m)
  | _ => v
  end.

(** ** Requests *)

Record UpsertRequest := {
  uq_ProvisionAPIKey : string;
  uq_ActionWeights : option (gmap string float64);  (* None: a nil map or pointer *)
  uq_Lambda : option float64;
  uq_Gamma : option float64;
  uq_MaxResults : option Z;
  uq_SeenItemsDays : option Z;
  uq_ExcludeAuthored : option bool;
  uq_Paused : option bool;
  uq_Alpha : option float64;
  uq_DenseSource : option string;
  uq_EmbeddingDim : option Z;
  uq_DenseDistance : option string;
  uq_CatalogStrategyID : option string;
  uq_CatalogStrategyVersion : option string;
  uq_CatalogStrategyParams : option (gmap string jvalue);
  uq_TrendingWindow : option Z;
  uq_TrendingTTL : option Z;
  uq_LambdaTrending : option float64;
}.

Record UpsertResponse := {
  ur_Namespace : string;
  ur_Generation : Z;
  ur_UpdatedAt : Z;
  ur_APIKey : string;
}.

Record RotateAPIKeyResponse := { rk_Namespace : string; rk_APIKey : string }.

Record UpdateCatalogRequest := {
  cq_Enabled : bool;
  cq_StrategyID : string;
  cq_StrategyVersion : string;
  cq_Params : option (gmap string jvalue);
  cq_MaxAttempts : Z;
  cq_MaxContentBytes : Z;
}.

Definition ErrInvalidConfig : string := "nsconfig.ErrInvalidConfig".
Definition ErrCatalogViaUpsert : string := "nsconfig.ErrCatalogViaUpsert".
Definition ErrEmbeddingDimLocked : string := "nsconfig.ErrEmbeddingDimLocked".
Definition ErrProvisionConflict : string := "nsconfig.ErrProvisionConflict".
Definition ErrConfigNotFound : string := "nsconfig.ErrNamespaceNotFound".
Definition ErrDimensionMismatch : string := "nsconfig.DimensionMismatchError".
Definition ErrStrategyRequired : string := "strategy_id and strategy_version are required when enabling catalog".

(** The sentinel [errors.Is] finds and the text of [Error()]. *)
Abbreviation sentence := (string * string)%type.

Definition upsertDenseSources : gset string :=
  {[ DenseSourceDisabled; DenseSourceItem2Vec; DenseSourceSVD; DenseSourceBYOE ]}.
Definition denseDistances : gset string := {[ "cosine"; "dot" ]}.

Section validate.
Context `{GoFmt, StringRange}.

Definition invalid (message : string) : option sentence :=
  Some (ErrInvalidConfig, "nsconfig: invalid configuration: " +:+ message).

Definition ErrCatalogViaUpsert_text : string :=
  "nsconfig: dense_source=catalog requires catalog_strategy_id and catalog_strategy_version in the same request".

(** The first failing guard decides. *)
Fixpoint first_failure (guards : list (option sentence)) : option sentence :=
  match guards with
  | [] => None
  | Some e :: _ => Some e
  | None :: rest => first_failure rest
  end.

Definition check {A} (x : option A) (bad : A → bool) (message : A → string) : option sentence :=
  match x with
  | Some v => if bad v then invalid (message v) else None
  | None => None
  end.

Definition check_key (key : string) : option sentence :=
  if bool_decide (key = "") then None
  else match DecodeString key with
       | Some raw => if bool_decide (length raw = 32%nat) then None
                     else invalid "provision_api_key must be 64 hex characters encoding 32 random bytes"
       | None => invalid "provision_api_key must be 64 hex characters encoding 32 random bytes"
       end.

Definition check_weights (weights : option (gmap string float64)) : option sentence :=
  match List.find (λ p : string * float64, is_nan p.2 || is_inf p.2) (range_keys (default ∅ weights)) with
  | Some (action, w) => invalid ("action_weights[" +:+ action +:+ "] must be a finite number, got " +:+ fmt_v w)
  | None => None
  end.

Definition check_source (req : UpsertRequest) : option sentence :=
  match uq_DenseSource req with
  | None => None
  | Some src =>
      if bool_decide (src = DenseSourceCatalog) then
        if bool_decide (default "" (uq_CatalogStrategyID req) = "") || bool_decide (default "" (uq_CatalogStrategyVersion req) = "")
        then Some (ErrCatalogViaUpsert, ErrCatalogViaUpsert_text) else None
      else if decide (src ∈ upsertDenseSources) then None
      else invalid ("dense_source must be one of disabled|item2vec|svd|byoe|catalog, got " +:+ fmt_q src)
  end.

Definition not_positive (z : Z) : bool := (z <=? 0)%Z.

Definition validateUpsert (req : UpsertRequest) : option sentence :=
  first_failure [
    check_key (uq_ProvisionAPIKey req);
    check_weights (uq_ActionWeights req);
    check (uq_Lambda req) (λ v, f64_leb v f64_zero) (λ v, "lambda must be > 0, got " +:+ fmt_v v);
    check (uq_Gamma req) (λ v, f64_ltb v f64_zero) (λ v, "gamma must be >= 0, got " +:+ fmt_v v);
    check (uq_MaxResults req) not_positive (λ v, "max_results must be > 0, got " +:+ itoa v);
    check (uq_SeenItemsDays req) not_positive (λ v, "seen_items_days must be > 0, got " +:+ itoa v);
    check (uq_Alpha req) (λ v, f64_ltb v f64_zero || f64_gtb v f64_one) (λ v, "alpha must be within [0, 1], got " +:+ fmt_v v);
    check_source req;
    check (uq_EmbeddingDim req) not_positive (λ v, "embedding_dim must be > 0, got " +:+ itoa v);
    check (uq_DenseDistance req) (λ v, negb (bool_decide (v = "")) && negb (bool_decide (v ∈ denseDistances)))
      (λ v, "dense_distance must be one of cosine|dot, got " +:+ fmt_q v);
    check (uq_TrendingWindow req) not_positive (λ v, "trending_window must be > 0, got " +:+ itoa v);
    check (uq_TrendingTTL req) not_positive (λ v, "trending_ttl must be > 0, got " +:+ itoa v);
    check (uq_LambdaTrending req) (λ v, f64_leb v f64_zero) (λ v, "lambda_trending must be > 0, got " +:+ fmt_v v)
  ].
End validate.

(** ** The tables *)

(** A row of [namespace_configs]; [None] is NULL. *)
Record ConfigRow := {
  nr_action_weights : gmap string jvalue;
  nr_time_decay_factor : float64;
  nr_gamma : float64;
  nr_max_results : Z;
  nr_seen_items_days : Z;
  nr_exclude_authored : bool;
  nr_api_key_hash : option string;
  nr_alpha : float64;
  nr_dense_source : string;
  nr_embedding_dim : Z;
  nr_dense_distance : string;
  nr_trending_window : Z;
  nr_trending_ttl : Z;
  nr_lambda_trending : float64;
  nr_strategy_id : option string;
  nr_strategy_version : option string;
  nr_strategy_params : gmap string jvalue;
  nr_max_attempts : option Z;
  nr_max_content_bytes : option Z;
  nr_generation : Z;
  nr_created_at : Z;
  nr_updated_at : Z;
  nr_paused_at : option Z;
  nr_recommendations_revision : Z;
  nr_signals_revision : Z;
  nr_trending_revision : Z;
  nr_embeddings_revision : Z;
}.

(** What other processes commit: the first key of a namespace, a rotation, an
    edit of the settings, new Qdrant collections. *)
Inductive Other :=
| OtherSetKey (ns hash : string)
| OtherReplaceKey (ns hash : string)
| OtherSettings (ns : string) (req : UpsertRequest)
| OtherCollections (names : list string).

Record NsConfigs := {
  nc_rows : gmap string ConfigRow;
  nc_provisions : gmap string string;
  nc_collections : gset string;
  nc_draws : nat;                 (* salts and keys drawn so far *)
  nc_others : list (list Other);  (* what others commit before the next statements *)
}.

Abbreviation W := (World NsConfigs).

Definition set_nc_tables (rows : gmap string ConfigRow) (provisions : gmap string string) (x : NsConfigs) : NsConfigs :=
  {| nc_rows := rows; nc_provisions := provisions; nc_collections := nc_collections x; nc_draws := nc_draws x;
     nc_others := nc_others x |}.
Definition set_nc_rows (rows : gmap string ConfigRow) (x : NsConfigs) : NsConfigs := set_nc_tables rows (nc_provisions x) x.

(** One PostgreSQL snapshot. *)
Record Db := { db_ledger : ledger; db_rows : gmap string ConfigRow; db_provisions : gmap string string }.

Definition world_db (w : W) : Db :=
  {| db_ledger := w_ledger w; db_rows := nc_rows (w_ext w); db_provisions := nc_provisions (w_ext w) |}.
Definition put_db (d : Db) (w : W) : W :=
  set_ledger (db_ledger d) (set_ext (set_nc_tables (db_rows d) (db_provisions d) (w_ext w)) w).

Definition map_rows (f : gmap string ConfigRow → gmap string ConfigRow) (d : Db) : Db :=
  {| db_ledger := db_ledger d; db_rows := f (db_rows d); db_provisions := db_provisions d |}.

(** The columns an update sets. *)
Definition set_key (hash : option string) (updated_at : Z) (r : ConfigRow) : ConfigRow :=
  {| nr_action_weights := nr_action_weights r; nr_time_decay_factor := nr_time_decay_factor r; nr_gamma := nr_gamma r;
     nr_max_results := nr_max_results r; nr_seen_items_days := nr_seen_items_days r; nr_exclude_authored := nr_exclude_authored r;
     nr_api_key_hash := hash; nr_alpha := nr_alpha r; nr_dense_source := nr_dense_source r; nr_embedding_dim := nr_embedding_dim r;
     nr_dense_distance := nr_dense_distance r; nr_trending_window := nr_trending_window r; nr_trending_ttl := nr_trending_ttl r;
     nr_lambda_trending := nr_lambda_trending r; nr_strategy_id := nr_strategy_id r; nr_strategy_version := nr_strategy_version r;
     nr_strategy_params := nr_strategy_params r; nr_max_attempts := nr_max_attempts r;
     nr_max_content_bytes := nr_max_content_bytes r; nr_generation := nr_generation r; nr_created_at := nr_created_at r;
     nr_updated_at := updated_at; nr_paused_at := nr_paused_at r; nr_recommendations_revision := nr_recommendations_revision r;
     nr_signals_revision := nr_signals_revision r; nr_trending_revision := nr_trending_revision r;
     nr_embeddings_revision := nr_embeddings_revision r |}.

(** Equality of [float8]: NaN equals NaN, the zeros are equal. *)
Definition pg_eqb (x y : float64) : bool := match x, y with S754_nan, S754_nan => true | _, _ => f64_eqb x y end.

(** The groups of columns the revision trigger compares (migration 029). *)
Definition same_recommendations (r r' : ConfigRow) : bool :=
  pg_eqb (nr_alpha r) (nr_alpha r') && pg_eqb (nr_gamma r) (nr_gamma r') && (nr_max_results r =? nr_max_results r')%Z &&
  (nr_seen_items_days r =? nr_seen_items_days r')%Z && Bool.eqb (nr_exclude_authored r) (nr_exclude_authored r').
Definition same_signals (r r' : ConfigRow) : bool :=
  bool_decide (nr_action_weights r = nr_action_weights r') && pg_eqb (nr_time_decay_factor r) (nr_time_decay_factor r').
Definition same_trending (r r' : ConfigRow) : bool :=
  (nr_trending_window r =? nr_trending_window r')%Z && (nr_trending_ttl r =? nr_trending_ttl r')%Z &&
  pg_eqb (nr_lambda_trending r) (nr_lambda_trending r').
Definition same_embeddings (r r' : ConfigRow) : bool :=
  bool_decide (nr_dense_source r = nr_dense_source r') && (nr_embedding_dim r =? nr_embedding_dim r')%Z &&
  bool_decide (nr_dense_distance r = nr_dense_distance r') && bool_decide (nr_strategy_id r = nr_strategy_id r') &&
  bool_decide (nr_strategy_version r = nr_strategy_version r') && bool_decide (nr_strategy_params r = nr_strategy_params r') &&
  bool_decide (nr_max_attempts r = nr_max_attempts r') && bool_decide (nr_max_content_bytes r = nr_max_content_bytes r').

(** The trigger BEFORE UPDATE: [r'] is the row the statement would store. *)
Definition advance_revisions (r r' : ConfigRow) : ConfigRow :=
  let bump (same : bool) (n : Z) := (if same then n else n + 1)%Z in
  {| nr_action_weights := nr_action_weights r'; nr_time_decay_factor := nr_time_decay_factor r'; nr_gamma := nr_gamma r';
     nr_max_results := nr_max_results r'; nr_seen_items_days := nr_seen_items_days r'; nr_exclude_authored := nr_exclude_authored r';
     nr_api_key_hash := nr_api_key_hash r'; nr_alpha := nr_alpha r'; nr_dense_source := nr_dense_source r';
     nr_embedding_dim := nr_embedding_dim r'; nr_dense_distance := nr_dense_distance r'; nr_trending_window := nr_trending_window r';
     nr_trending_ttl := nr_trending_ttl r'; nr_lambda_trending := nr_lambda_trending r'; nr_strategy_id := nr_strategy_id r';
     nr_strategy_version := nr_strategy_version r'; nr_strategy_params := nr_strategy_params r'; nr_max_attempts := nr_max_attempts r';
     nr_max_content_bytes := nr_max_content_bytes r'; nr_generation := nr_generation r'; nr_created_at := nr_created_at r';
     nr_updated_at := nr_updated_at r'; nr_paused_at := nr_paused_at r';
     nr_recommendations_revision := bump (same_recommendations r r') (nr_recommendations_revision r);
     nr_signals_revision := bump (same_signals r r') (nr_signals_revision r);
     nr_trending_revision := bump (same_trending r r') (nr_trending_revision r);
     nr_embeddings_revision := bump (same_embeddings r r') (nr_embeddings_revision r) |}.

(** ** Statements *)

Definition schemaEmbeddingDim : Z := 64.

Definition decimal (n d : Z) : float64 := f64_div (f64_of_Z n) (f64_of_Z d).

(** [INSERT INTO namespace_configs (namespace, generation, dense_source)]: the
    other columns take the defaults of the schema. *)
Definition new_row (generation now : Z) : ConfigRow :=
  {| nr_action_weights := ∅; nr_time_decay_factor := decimal 95 100; nr_gamma := decimal 2 100; nr_max_results := 50;
     nr_seen_items_days := 30; nr_exclude_authored := false; nr_api_key_hash := None; nr_alpha := decimal 7 10;
     nr_dense_source := DenseSourceDisabled; nr_embedding_dim := schemaEmbeddingDim; nr_dense_distance := "cosine";
     nr_trending_window := 24; nr_trending_ttl := 600; nr_lambda_trending := decimal 1 10; nr_strategy_id := None;
     nr_strategy_version := None; nr_strategy_params := ∅; nr_max_attempts := None; nr_max_content_bytes := None;
     nr_generation := generation; nr_created_at := now; nr_updated_at := now; nr_paused_at := None;
     nr_recommendations_revision := 1; nr_signals_revision := 1; nr_trending_revision := 1; nr_embeddings_revision := 1 |}.

(** The first statement of [Upsert]; [inr] is an error the database raises. A
    row of an older generation blocks the foreign key. *)
Definition sql_create (ns : string) (now : Z) (d : Db) : (() * Db) + error :=
  if negb (bool_decide (y_state (l_sys (db_ledger d)) = SystemActive)) then inl (tt, d)
  else
    match sql_activate now ns (db_ledger d) with
    | (SqlRaise, _) => inr [ErrDriver]
    | (SqlNoRow, _) => inl (tt, d)
    | (SqlRow r, l) =>
        match db_rows d !! ns with
        | Some c => if (nr_generation c =? r_generation r)%Z
                    then inl (tt, {| db_ledger := l; db_rows := db_rows d; db_provisions := db_provisions d |}) else inr [ErrDriver]
        | None => inl (tt, {| db_ledger := l; db_rows := <[ns := new_row (r_generation r) now]> (db_rows d);
                              db_provisions := db_provisions d |})
        end
    end.

Definition in_int4 (z : Z) : bool := (- 2 ^ 31 <=? z)%Z && (z <=? 2 ^ 31 - 1)%Z.
Definition denseSourceCheck (s : string) : bool := bool_decide (s = DenseSourceCatalog) || bool_decide (s ∈ upsertDenseSources).

Definition opt_ok {A} (ok : A → bool) (x : option A) : bool := match x with Some v => ok v | None => true end.

(** The parameters of the UPDATE fit their types. *)
Definition update_ok (req : UpsertRequest) : bool :=
  opt_ok in_int4 (uq_MaxResults req) && opt_ok in_int4 (uq_SeenItemsDays req) && opt_ok in_int4 (uq_EmbeddingDim req) &&
  opt_ok in_int4 (uq_TrendingWindow req) && opt_ok in_int4 (uq_TrendingTTL req) &&
  opt_ok (λ w : gmap string float64, bool_decide (map_Forall (λ k _, contains_nul k = false) w)) (uq_ActionWeights req) &&
  opt_ok pg_text (uq_DenseSource req) && opt_ok pg_text (uq_DenseDistance req).

Definition weights_doc (w : gmap string float64) : gmap string jvalue := (λ f, JNumber (jsonb_num f)) <$> w.

(** The COALESCE columns; a nil field keeps the column. *)
Definition patched (req : UpsertRequest) (now : Z) (r : ConfigRow) : ConfigRow :=
  {| nr_action_weights := default (nr_action_weights r) (weights_doc <$> uq_ActionWeights req);
     nr_time_decay_factor := default (nr_time_decay_factor r) (uq_Lambda req);
     nr_gamma := default (nr_gamma r) (uq_Gamma req);
     nr_max_results := default (nr_max_results r) (uq_MaxResults req);
     nr_seen_items_days := default (nr_seen_items_days r) (uq_SeenItemsDays req);
     nr_exclude_authored := default (nr_exclude_authored r) (uq_ExcludeAuthored req);
     nr_api_key_hash := nr_api_key_hash r;
     nr_alpha := default (nr_alpha r) (uq_Alpha req);
     nr_dense_source := if bool_decide (nr_dense_source r = DenseSourceCatalog) then DenseSourceCatalog
                        else default (nr_dense_source r) (uq_DenseSource req);
     nr_embedding_dim := default (nr_embedding_dim r) (uq_EmbeddingDim req);
     nr_dense_distance := default (nr_dense_distance r) (uq_DenseDistance req);
     nr_trending_window := default (nr_trending_window r) (uq_TrendingWindow req);
     nr_trending_ttl := default (nr_trending_ttl r) (uq_TrendingTTL req);
     nr_lambda_trending := default (nr_lambda_trending r) (uq_LambdaTrending req);
     nr_strategy_id := nr_strategy_id r; nr_strategy_version := nr_strategy_version r; nr_strategy_params := nr_strategy_params r;
     nr_max_attempts := nr_max_attempts r; nr_max_content_bytes := nr_max_content_bytes r;
     nr_generation := nr_generation r; nr_created_at := nr_created_at r; nr_updated_at := now;
     nr_paused_at := match uq_Paused req with
                     | None => nr_paused_at r
                     | Some true => Some (default now (nr_paused_at r))
                     | Some false => None
                     end;
     nr_recommendations_revision := nr_recommendations_revision r; nr_signals_revision := nr_signals_revision r;
     nr_trending_revision := nr_trending_revision r; nr_embeddings_revision := nr_embeddings_revision r |}.

(** UPDATE ... WHERE namespace = $1 RETURNING: [None] is no row. *)
Definition sql_update (f : ConfigRow → ConfigRow) (ns : string) (d : Db) : (option ConfigRow * Db) + error :=
  match db_rows d !! ns with
  | None => inl (None, d)
  | Some r =>
      let r' := advance_revisions r (f r) in
      if denseSourceCheck (nr_dense_source r') then inl (Some r', map_rows (<[ns := r']>) d) else inr [ErrDriver]
  end.

Definition sql_patch (req : UpsertRequest) (ns : string) (now : Z) (d : Db) : (option ConfigRow * Db) + error :=
  if update_ok req then sql_update (patched req now) ns d else inr [ErrDriver].

(** The catalog columns; the limits are kept when the request says zero. *)
Definition catalog_patched (req : UpdateCatalogRequest) (now : Z) (r : ConfigRow) : ConfigRow :=
  let limit (n : Z) (old : option Z) := if (n =? 0)%Z then old else Some n in
  {| nr_action_weights := nr_action_weights r; nr_time_decay_factor := nr_time_decay_factor r; nr_gamma := nr_gamma r;
     nr_max_results := nr_max_results r; nr_seen_items_days := nr_seen_items_days r; nr_exclude_authored := nr_exclude_authored r;
     nr_api_key_hash := nr_api_key_hash r; nr_alpha := nr_alpha r;
     nr_dense_source := if cq_Enabled req then DenseSourceCatalog
                        else if bool_decide (nr_dense_source r = DenseSourceCatalog) then DenseSourceDisabled
                        else nr_dense_source r;
     nr_embedding_dim := nr_embedding_dim r; nr_dense_distance := nr_dense_distance r; nr_trending_window := nr_trending_window r;
     nr_trending_ttl := nr_trending_ttl r; nr_lambda_trending := nr_lambda_trending r;
     nr_strategy_id := if cq_Enabled req then Some (cq_StrategyID req) else None;
     nr_strategy_version := if cq_Enabled req then Some (cq_StrategyVersion req) else None;
     nr_strategy_params := jsonb <$> default ∅ (cq_Params req);
     nr_max_attempts := limit (cq_MaxAttempts req) (nr_max_attempts r);
     nr_max_content_bytes := limit (cq_MaxContentBytes req) (nr_max_content_bytes r);
     nr_generation := nr_generation r; nr_created_at := nr_created_at r; nr_updated_at := now; nr_paused_at := nr_paused_at r;
     nr_recommendations_revision := nr_recommendations_revision r; nr_signals_revision := nr_signals_revision r;
     nr_trending_revision := nr_trending_revision r; nr_embeddings_revision := nr_embeddings_revision r |}.

Definition params_ok (m : option (gmap string jvalue)) : bool :=
  bool_decide (map_Forall (λ k v, negb (contains_nul k) && jsonb_ok v = true) (default ∅ m)).

Definition catalog_ok (req : UpdateCatalogRequest) : bool :=
  (negb (cq_Enabled req) || (pg_text (cq_StrategyID req) && pg_text (cq_StrategyVersion req))) &&
  in_int4 (cq_MaxAttempts req) && in_int4 (cq_MaxContentBytes req) && params_ok (cq_Params req).

Definition sql_catalog (req : UpdateCatalogRequest) (ns : string) (now : Z) (d : Db) : (option ConfigRow * Db) + error :=
  if catalog_ok req then sql_update (catalog_patched req now) ns d else inr [ErrDriver].

(** The number of rows affected, as far as the callers look at it. *)
Definition sql_set_key (hash ns : string) (now : Z) (d : Db) : (bool * Db) + error :=
  match db_rows d !! ns with
  | Some r => if decide (nr_api_key_hash r = None)
              then inl (true, map_rows (<[ns := advance_revisions r (set_key (Some hash) (nr_updated_at r) r)]>) d) else inl (false, d)
  | None => inl (false, d)
  end.

Definition sql_replace_key (hash ns : string) (now : Z) (d : Db) : (bool * Db) + error :=
  match db_rows d !! ns with
  | Some r => inl (true, map_rows (<[ns := advance_revisions r (set_key (Some hash) now r)]>) d)
  | None => inl (false, d)
  end.

Definition sql_insert_provision (ns hash : string) (now : Z) (d : Db) : (() * Db) + error :=
  match db_provisions d !! ns, db_rows d !! ns with
  | None, Some _ => inl (tt, {| db_ledger := db_ledger d; db_rows := db_rows d; db_provisions := <[ns := hash]> (db_provisions d) |})
  | _, _ => inr [ErrDriver]  (* the primary or the foreign key *)
  end.

(** ** Effects *)

(** What one other process does, as a statement of its own. *)
Definition do_other (now : Z) (o : Other) (x : NsConfigs) : NsConfigs :=
  let on (ns : string) (f : ConfigRow → ConfigRow) :=
    set_nc_rows (alter (λ r, advance_revisions r (f r)) ns (nc_rows x)) x in
  match o with
  | OtherSetKey ns h => on ns (λ r, if decide (nr_api_key_hash r = None) then set_key (Some h) (nr_updated_at r) r else r)
  | OtherReplaceKey ns h => on ns (set_key (Some h) now)
  | OtherSettings ns req => on ns (patched req now)
  | OtherCollections names =>
      {| nc_rows := nc_rows x; nc_provisions := nc_provisions x; nc_collections := list_to_set names ∪ nc_collections x;
         nc_draws := nc_draws x; nc_others := nc_others x |}
  end.

Definition race (now : Z) (x : NsConfigs) : NsConfigs :=
  match nc_others x with
  | [] => x
  | ops :: rest =>
      let x' := foldl (λ x o, do_other now o x) x ops in
      {| nc_rows := nc_rows x'; nc_provisions := nc_provisions x'; nc_collections := nc_collections x';
         nc_draws := nc_draws x'; nc_others := rest |}
  end.

Definition others_run : M W () := λ w, (tt, set_ext (race (w_now w) (w_ext w)) w).

(** One statement: it fails, raises, or answers and changes the tables. *)
Definition stmt {A} (f : Z → Db → (A * Db) + error) : M W (A + error) :=
  let! b := fault in
  if b then ret (inr [ErrDriver])
  else λ w, match f (w_now w) (world_db w) with
            | inl (a, d) => (inl a, put_db d w)
            | inr e => (inr e, w)
            end.

(** A [Repository] over the pool, or bound to a transaction; inside one the
    advisory lock and the row locks keep the others out. *)
Inductive Repository := Pool | Tx.

Definition run {A} (r : Repository) (f : Z → Db → (A * Db) + error) : M W (A + error) :=
  (match r with Pool => others_run | Tx => ret tt end) ;;! stmt f.

(** [pgx.BeginFunc]: what the body stored is undone when it or COMMIT fails. *)
Definition rollback (d : Db) : M W () := λ w, (tt, put_db d w).

Definition withinTx {A} (a0 : A) (fn : Repository → M W (A * error)) : M W (A * error) :=
  others_run ;;!
  let! b := fault in
  if b then ret (a0, [ErrDriver])
  else
    let! before := gets world_db in
    let! r := fn Tx in
    if negb (nil_err r.2) then rollback before ;;! ret r
    else
      let! b := fault in
      if b then rollback before ;;! ret (r.1, [ErrDriver]) else ret r.

(** ** repository.go *)

(** [json.Unmarshal] into [map[string]float64]: null decodes to zero. *)
Definition weight_of (v : jvalue) : option float64 :=
  match v with JNumber f => Some f | JNull => Some f64_zero | _ => None end.
Definition decode_weights (m : gmap string jvalue) : option (gmap string float64) :=
  if decide (map_Forall (λ _ v, weight_of v ≠ None) m) then Some (omap weight_of m) else None.

Definition unmarshalCatalogParams (m : gmap string jvalue) : option (list (string * jvalue)) :=
  if decide (m = ∅) then None else Some (map_to_list m).

Definition ErrUnmarshal : string := "json: cannot unmarshal".

(** The scanned row. *)
Definition scan_config (ns : string) (r : ConfigRow) : Config + error :=
  match decode_weights (nr_action_weights r) with
  | None => inr [ErrUnmarshal]
  | Some weights =>
      inl {| cfg_Namespace := ns; cfg_Generation := nr_generation r; cfg_ActionWeights := weights;
             cfg_Lambda := nr_time_decay_factor r; cfg_Gamma := nr_gamma r; cfg_MaxResults := nr_max_results r;
             cfg_SeenItemsDays := nr_seen_items_days r; cfg_ExcludeAuthored := nr_exclude_authored r;
             cfg_Paused := bool_decide (is_Some (nr_paused_at r)); cfg_APIKeyHash := default "" (nr_api_key_hash r);
             cfg_Alpha := nr_alpha r; cfg_DenseSource := nr_dense_source r; cfg_EmbeddingDim := nr_embedding_dim r;
             cfg_DenseDistance := nr_dense_distance r; cfg_TrendingWindow := nr_trending_window r;
             cfg_TrendingTTL := nr_trending_ttl r; cfg_LambdaTrending := nr_lambda_trending r;
             cfg_CatalogStrategyID := default "" (nr_strategy_id r); cfg_CatalogStrategyVersion := default "" (nr_strategy_version r);
             cfg_CatalogStrategyParams := unmarshalCatalogParams (nr_strategy_params r);
             cfg_CatalogMaxAttempts := default 0%Z (nr_max_attempts r);
             cfg_CatalogMaxContentBytes := default 0%Z (nr_max_content_bytes r);
             cfg_CreatedAt := nr_created_at r; cfg_UpdatedAt := nr_updated_at r |}
  end.

(** [pgx.ErrNoRows] is [inl None]. *)
Definition scan_row (ns : string) (r : option ConfigRow + error) : option Config + error :=
  match r with
  | inr e => inr e
  | inl None => inl None
  | inl (Some row) => match scan_config ns row with inl c => inl (Some c) | inr e => inr e end
  end.

Definition sql_get (ns : string) (now : Z) (d : Db) : (option ConfigRow * Db) + error := inl (db_rows d !! ns, d).

Definition Get (r : Repository) (ns : string) : M W (option Config + error) :=
  let! row := run r (sql_get ns) in ret (scan_row ns row).

Definition with_source (src : option string) (req : UpsertRequest) : UpsertRequest :=
  {| uq_ProvisionAPIKey := uq_ProvisionAPIKey req; uq_ActionWeights := uq_ActionWeights req; uq_Lambda := uq_Lambda req;
     uq_Gamma := uq_Gamma req; uq_MaxResults := uq_MaxResults req; uq_SeenItemsDays := uq_SeenItemsDays req;
     uq_ExcludeAuthored := uq_ExcludeAuthored req; uq_Paused := uq_Paused req; uq_Alpha := uq_Alpha req; uq_DenseSource := src;
     uq_EmbeddingDim := uq_EmbeddingDim req; uq_DenseDistance := uq_DenseDistance req;
     uq_CatalogStrategyID := uq_CatalogStrategyID req; uq_CatalogStrategyVersion := uq_CatalogStrategyVersion req;
     uq_CatalogStrategyParams := uq_CatalogStrategyParams req; uq_TrendingWindow := uq_TrendingWindow req;
     uq_TrendingTTL := uq_TrendingTTL req; uq_LambdaTrending := uq_LambdaTrending req |}.

Definition weights_marshal (w : option (gmap string float64)) : bool :=
  opt_ok (λ m : gmap string float64, bool_decide (map_Forall (λ _ f, is_finite f = true) m)) w.

(** Two statements: seed the row, then COALESCE. *)
Definition Upsert (r : Repository) (ns : string) (req : UpsertRequest) : M W (Config + error) :=
  if negb (weights_marshal (uq_ActionWeights req)) then ret (inr [ErrUnmarshal])
  else
    let denseSource := match uq_DenseSource req with Some "" => None | s => s end in
    let! e := run r (sql_create ns) in
    match e with
    | inr e => ret (inr e)
    | inl _ =>
        let! row := run r (sql_patch (with_source denseSource req) ns) in
        ret (match scan_row ns row with
             | inr e => inr e
             | inl None => inr [ErrDriver]  (* pgx.ErrNoRows *)
             | inl (Some c) => inl c
             end)
    end.

Definition SetAPIKeyHash (r : Repository) (ns hash : string) : M W (bool + error) := run r (sql_set_key hash ns).
Definition ReplaceAPIKeyHash (r : Repository) (ns hash : string) : M W (bool + error) := run r (sql_replace_key hash ns).

Definition UpsertCatalogConfig (r : Repository) (ns : string) (req : UpdateCatalogRequest) : M W (option Config + error) :=
  let! row := run r (sql_catalog req ns) in ret (scan_row ns row).

(** ORDER BY namespace, in the order of the database. *)
Definition config_le `{Collation} (p q : string * ConfigRow) : Prop := coll_ltb q.1 p.1 = false.
#[export] Instance config_le_dec `{Collation} p q : Decision (config_le p q) := bool_eq_dec _ _.

Definition sql_list_catalog `{Collation} (now : Z) (d : Db) : (list (string * ConfigRow) * Db) + error :=
  inl (merge_sort config_le
         (filter (λ p, nr_dense_source p.2 = DenseSourceCatalog) (map_to_list (db_rows d))), d).

Fixpoint scan_all (rows : list (string * ConfigRow)) : list Config + error :=
  match rows with
  | [] => inl []
  | (ns, r) :: rest =>
      match scan_config ns r with
      | inr e => inr e
      | inl c => match scan_all rest with inl cs => inl (c :: cs) | inr e => inr e end
      end
  end.

Definition ListCatalogNamespaces `{Collation} : M W (list Config + error) :=
  let! r := run Pool sql_list_catalog in
  ret (match r with inl rows => scan_all rows | inr e => inr e end).

Section keys.
Context `{Bcrypt, CryptoRand}.

Definition bcryptMax : nat := 72.
Definition ErrPasswordTooLong : string := "bcrypt.ErrPasswordTooLong".

Definition draw {A} (f : nat → A) : M W A := λ w,
  let x := w_ext w in
  (f (nc_draws x), set_ext {| nc_rows := nc_rows x; nc_provisions := nc_provisions x; nc_collections := nc_collections x;
                              nc_draws := S (nc_draws x); nc_others := nc_others x |} w).

Definition GenerateFromPassword (password : string) : M W (string + error) :=
  if (bcryptMax <? String.length password)%nat then ret (inr [ErrPasswordTooLong])
  else
    let! b := fault in
    if b then ret (inr [ErrDriver]) else draw (λ n, inl (bcrypt_hash n password)).

(** The plaintext and its hash. *)
Definition generateAPIKey : M W ((string * string) + error) :=
  let! b := fault in
  if b then ret (inr [ErrDriver])
  else
    let! plaintext := draw (λ n, EncodeToString (rand_bytes n)) in
    let! h := GenerateFromPassword plaintext in
    ret (match h with inl hash => inl (plaintext, hash) | inr e => inr e end).
End keys.

(** The digest of the marshalled provisioning request, without its key. *)
Class ProvisionDigest := { provision_digest : UpsertRequest → option UpdateCatalogRequest → string }.

Definition without_key (req : UpsertRequest) : UpsertRequest :=
  {| uq_ProvisionAPIKey := ""; uq_ActionWeights := uq_ActionWeights req; uq_Lambda := uq_Lambda req; uq_Gamma := uq_Gamma req;
     uq_MaxResults := uq_MaxResults req; uq_SeenItemsDays := uq_SeenItemsDays req; uq_ExcludeAuthored := uq_ExcludeAuthored req;
     uq_Paused := uq_Paused req; uq_Alpha := uq_Alpha req; uq_DenseSource := uq_DenseSource req;
     uq_EmbeddingDim := uq_EmbeddingDim req; uq_DenseDistance := uq_DenseDistance req;
     uq_CatalogStrategyID := uq_CatalogStrategyID req; uq_CatalogStrategyVersion := uq_CatalogStrategyVersion req;
     uq_CatalogStrategyParams := uq_CatalogStrategyParams req; uq_TrendingWindow := uq_TrendingWindow req;
     uq_TrendingTTL := uq_TrendingTTL req; uq_LambdaTrending := uq_LambdaTrending req |}.

(** [json.Marshal] of the request refuses NaN and the infinities. *)
Definition request_marshal (req : UpsertRequest) : bool :=
  weights_marshal (uq_ActionWeights req) && opt_ok is_finite (uq_Lambda req) && opt_ok is_finite (uq_Gamma req) &&
  opt_ok is_finite (uq_Alpha req) && opt_ok is_finite (uq_LambdaTrending req).

Definition with_hash (hash : string) (c : Config) : Config :=
  {| cfg_Namespace := cfg_Namespace c; cfg_Generation := cfg_Generation c; cfg_ActionWeights := cfg_ActionWeights c;
     cfg_Lambda := cfg_Lambda c; cfg_Gamma := cfg_Gamma c; cfg_MaxResults := cfg_MaxResults c;
     cfg_SeenItemsDays := cfg_SeenItemsDays c; cfg_ExcludeAuthored := cfg_ExcludeAuthored c; cfg_Paused := cfg_Paused c;
     cfg_APIKeyHash := hash; cfg_Alpha := cfg_Alpha c; cfg_DenseSource := cfg_DenseSource c; cfg_EmbeddingDim := cfg_EmbeddingDim c;
     cfg_DenseDistance := cfg_DenseDistance c; cfg_TrendingWindow := cfg_TrendingWindow c; cfg_TrendingTTL := cfg_TrendingTTL c;
     cfg_LambdaTrending := cfg_LambdaTrending c; cfg_CatalogStrategyID := cfg_CatalogStrategyID c;
     cfg_CatalogStrategyVersion := cfg_CatalogStrategyVersion c; cfg_CatalogStrategyParams := cfg_CatalogStrategyParams c;
     cfg_CatalogMaxAttempts := cfg_CatalogMaxAttempts c; cfg_CatalogMaxContentBytes := cfg_CatalogMaxContentBytes c;
     cfg_CreatedAt := cfg_CreatedAt c; cfg_UpdatedAt := cfg_UpdatedAt c |}.

Definition sql_provision (ns : string) (now : Z) (d : Db) : (option string * Db) + error := inl (db_provisions d !! ns, d).

(** [SELECT pg_advisory_xact_lock(...)] *)
Definition sql_lock (now : Z) (d : Db) : (() * Db) + error := inl (tt, d).

Section upsert.
Context `{Bcrypt, CryptoRand, ProvisionDigest}.

(** A provisioning request for a namespace that exists: the same request under
    the same key is answered with the row, anything else is a conflict. *)
Definition verify_provision (ns : string) (req : UpsertRequest) (desired : string) (existing : Config) : M W (option Config * error) :=
  let! stored := run Tx (sql_provision ns) in
  match stored with
  | inr e => ret (None, e)
  | inl None => ret (None, [ErrProvisionConflict])
  | inl (Some h) =>
      if negb (bool_decide (h = desired)) || negb (bcrypt_compare (cfg_APIKeyHash existing) (uq_ProvisionAPIKey req))
      then ret (None, [ErrProvisionConflict]) else ret (Some existing, [])
  end.

(** After the upsert: the key and the digest of a provisioning request. *)
Definition record_provision (ns : string) (req : UpsertRequest) (desired : string) (cfg : Config) : M W (option Config * error) :=
  if bool_decide (uq_ProvisionAPIKey req = "") then ret (Some cfg, [])
  else
    let! h := GenerateFromPassword (uq_ProvisionAPIKey req) in
    match h with
    | inr e => ret (Some cfg, e)
    | inl hash =>
        let! won := SetAPIKeyHash Tx ns hash in
        match won with
        | inr e => ret (Some cfg, e)
        | inl _ =>
            let! e := run Tx (sql_insert_provision ns desired) in
            ret (Some (with_hash hash cfg), match e with inr e => e | inl _ => [] end)
        end
    end.

(** The row a transaction of this request writes. *)
Definition write_config (ns : string) (req : UpsertRequest) (catalogReq : option UpdateCatalogRequest) (desired : string) : M W (option Config * error) :=
  let! r := Upsert Tx ns req in
  match r with
  | inr e => ret (None, e)
  | inl cfg =>
      let! ' (cfg, e) := record_provision ns req desired cfg in
      if negb (nil_err e) then ret (cfg, e)
      else
        match catalogReq with
        | None => ret (cfg, [])
        | Some cq =>
            let! r := UpsertCatalogConfig Tx ns cq in
            ret (match r with
                 | inr e => (None, e)
                 | inl None => (None, [ErrConfigNotFound])
                 | inl (Some cfg) => (Some cfg, [])
                 end)
        end
  end.

Definition upsert_tx (ns : string) (req : UpsertRequest) (catalogReq : option UpdateCatalogRequest) : M W (option Config * error) :=
  let! e := run Tx sql_lock in
  match e with
  | inr e => ret (None, e)
  | inl _ =>
      if bool_decide (uq_ProvisionAPIKey req = "") then write_config ns req catalogReq ""
      else if negb (request_marshal req) then ret (None, [ErrUnmarshal])
      else
        let desired := provision_digest (without_key req) catalogReq in
        let! existing := Get Tx ns in
        match existing with
        | inr e => ret (None, e)
        | inl (Some existing) => verify_provision ns req desired existing
        | inl None => write_config ns req catalogReq desired
        end
  end.

Definition UpsertWithCatalog (ns : string) (req : UpsertRequest) (catalogReq : option UpdateCatalogRequest) : M W (Config + error) :=
  let! r := withinTx None (λ _, upsert_tx ns req catalogReq) in
  ret (match r with (Some cfg, []) => inl cfg | (None, []) => inr [ErrPanic] | (_, e) => inr e end).
End upsert.

(** ** cmd/admin/dense_collection_checker.go *)

Fixpoint any_collection (inc : Incarnation) (kinds : list PhysicalKind) : M W (bool * error) :=
  match kinds with
  | [] => ret (false, [])
  | kind :: rest =>
      match Incarnation_MustPhysicalName inc kind with
      | None => ret (false, [ErrPanic])
      | Some name =>
          let! b := fault in
          if b then ret (false, [ErrDriver])
          else
            let! exists_ := gets (λ w, bool_decide (name ∈ nc_collections (w_ext w))) in
            if exists_ : bool then ret (true, []) else any_collection inc rest
      end
  end.

Definition DenseCollectionsExist (ns : string) (generation : Z) : M W (bool * error) :=
  any_collection (NewIncarnation ns generation) [KindObjectsDense; KindSubjectsDense].

(** ** service.go *)

(** [cs_checker]: whether the dense collection checker is wired. *)
Record ConfigService := {
  cs_registry : Registry;
  cs_checker : bool;
  cs_lifecycle : option Service;
}.

Section service.
Context `{GoFmt, StringRange, Bcrypt, CryptoRand, ProvisionDigest}.

Definition guardEmbeddingDimChange (s : ConfigService) (ns : string) (req : UpsertRequest) : M W error :=
  match uq_EmbeddingDim req with
  | None => ret []
  | Some dim =>
      if negb (cs_checker s) || negb (bool_decide (uq_ProvisionAPIKey req = "")) then ret []
      else
        let! current := Get Pool ns in
        match current with
        | inr e => ret e
        | inl None => ret []
        | inl (Some current) =>
            if (cfg_EmbeddingDim current =? dim)%Z then ret []
            else
              let! ' (exists_, e) := DenseCollectionsExist ns (cfg_Generation current) in
              if negb (nil_err e) then ret e
              else ret (if exists_ : bool then [ErrEmbeddingDimLocked] else [])
        end
  end.

(** The requested dimension, then the stored one, then the schema's. *)
Definition stored_dim (r : Repository) (ns : string) : M W (Z + error) :=
  let! current := Get r ns in
  ret (match current with
       | inr e => inr e
       | inl (Some c) => inl (if (0 <? cfg_EmbeddingDim c)%Z then cfg_EmbeddingDim c else schemaEmbeddingDim)
       | inl None => inl schemaEmbeddingDim
       end).

Definition effective_dim (r : Repository) (ns : string) (requestedDim : option Z) : M W (Z + error) :=
  match requestedDim with
  | Some d => if (0 <? d)%Z then ret (inl d) else stored_dim r ns
  | None => stored_dim r ns
  end.

Definition build_strategy (s : ConfigService) (req : UpdateCatalogRequest) : Strategy + error :=
  Build (cs_registry s) (cq_StrategyID req) (cq_StrategyVersion req) (params_of_json (map_to_list <$> cq_Params req)).

Definition validateCatalogStrategy (s : ConfigService) (ns : string) (req : UpdateCatalogRequest) (requestedDim : option Z) : M W error :=
  if negb (cq_Enabled req) then ret []
  else if bool_decide (cq_StrategyID req = "") || bool_decide (cq_StrategyVersion req = "") then ret [ErrStrategyRequired]
  else
    match build_strategy s req with
    | inr e => ret e
    | inl strategy =>
        let! d := effective_dim Pool ns requestedDim in
        ret (match d with
             | inr e => e
             | inl dim => if (st_Dim strategy =? dim)%Z then [] else [ErrDimensionMismatch]
             end)
    end.

(** The catalog half of an upsert that selects the catalog source. *)
Definition catalog_half (req : UpsertRequest) : option UpdateCatalogRequest :=
  if decide (uq_DenseSource req = Some DenseSourceCatalog) then
    Some {| cq_Enabled := true; cq_StrategyID := default "" (uq_CatalogStrategyID req);
            cq_StrategyVersion := default "" (uq_CatalogStrategyVersion req); cq_Params := uq_CatalogStrategyParams req;
            cq_MaxAttempts := 0; cq_MaxContentBytes := 0 |}
  else None.

Definition base_half (req : UpsertRequest) : UpsertRequest :=
  if decide (uq_DenseSource req = Some DenseSourceCatalog) then with_source None req else req.

Definition requested_dim (req : UpsertRequest) : option Z :=
  if negb (bool_decide (uq_ProvisionAPIKey req = "")) && negb (bool_decide (is_Some (uq_EmbeddingDim req)))
  then Some schemaEmbeddingDim else uq_EmbeddingDim req.

(** Only the writer whose hash landed hands out its plaintext. *)
Definition first_key (ns : string) (cfg : Config) : M W (option UpsertResponse * error) :=
  let resp key := {| ur_Namespace := cfg_Namespace cfg; ur_Generation := cfg_Generation cfg; ur_UpdatedAt := cfg_UpdatedAt cfg;
                     ur_APIKey := key |} in
  if negb (bool_decide (cfg_APIKeyHash cfg = "")) then ret (Some (resp ""), [])
  else
    let! k := generateAPIKey in
    match k with
    | inr e => ret (None, e)
    | inl (plaintext, hash) =>
        let! won := SetAPIKeyHash Pool ns hash in
        ret (match won with
             | inr e => (None, e)
             | inl won => (Some (resp (if won : bool then plaintext else "")), [])
             end)
    end.

Definition upsertActive (s : ConfigService) (ns : string) (req : UpsertRequest) : M W (option UpsertResponse * error) :=
  let! e := (match catalog_half req with
             | Some cq => validateCatalogStrategy s ns cq (requested_dim req)
             | None => ret []
             end) in
  if negb (nil_err e) then ret (None, e)
  else
    let! r := UpsertWithCatalog ns (base_half req) (catalog_half req) in
    match r with
    | inr e => ret (None, e)
    | inl cfg => first_key ns cfg
    end.

Definition service_Upsert (s : ConfigService) (ctx : Ctx) (ns : string) (req : UpsertRequest) : M W (option UpsertResponse * error) :=
  match validateUpsert req with
  | Some (sentinel, _) => ret (None, [sentinel])
  | None =>
      let! e := guardEmbeddingDimChange s ns req in
      if negb (nil_err e) then ret (None, e)
      else
        match cs_lifecycle s with
        | None => upsertActive s ns req
        | Some svc =>
            let! e := (if negb (nil_err (RequireNamespaceLease ctx ns))
                       then let! r := Activate svc ns in ret r.2 else ret []) in
            if negb (nil_err e) then ret (None, e)
            else WithWriter None svc ctx ns (λ _ _, upsertActive s ns req)
        end
  end.

Definition rotateAPIKeyActive (ns : string) : M W (option RotateAPIKeyResponse * error) :=
  let! k := generateAPIKey in
  match k with
  | inr e => ret (None, e)
  | inl (plaintext, hash) =>
      let! found := ReplaceAPIKeyHash Pool ns hash in
      ret (match found with
           | inr e => (None, e)
           | inl false => (None, [ErrConfigNotFound])
           | inl true => (Some {| rk_Namespace := ns; rk_APIKey := plaintext |}, [])
           end)
  end.

(** The writer section when the service has a lifecycle. *)
Definition with_writer {A} (s : ConfigService) (ctx : Ctx) (ns : string) (fn : M W (option A * error)) : M W (option A * error) :=
  match cs_lifecycle s with
  | Some svc => WithWriter None svc ctx ns (λ _ _, fn)
  | None => fn
  end.

Definition RotateAPIKey (s : ConfigService) (ctx : Ctx) (ns : string) : M W (option RotateAPIKeyResponse * error) :=
  with_writer s ctx ns (rotateAPIKeyActive ns).

Definition updateCatalogConfigActive (s : ConfigService) (ns : string) (req : UpdateCatalogRequest) : M W (option Config * error) :=
  let! cfg := Get Pool ns in
  match cfg with
  | inr e => ret (None, e)
  | inl None => ret (None, [ErrConfigNotFound])
  | inl (Some _) =>
      let! e := validateCatalogStrategy s ns req None in
      if negb (nil_err e) then ret (None, e)
      else
        let! r := UpsertCatalogConfig Pool ns req in
        ret (match r with
             | inr e => (None, e)
             | inl None => (None, [ErrConfigNotFound])
             | inl (Some c) => (Some c, [])
             end)
  end.

Definition UpdateCatalogConfig (s : ConfigService) (ctx : Ctx) (ns : string) (req : UpdateCatalogRequest) : M W (option Config * error) :=
  with_writer s ctx ns (updateCatalogConfigActive s ns req).
End service.
