(* ===== verification/NsConfiguration.v ===== *)
(** * Revisioned configuration edits

    [internal/nsconfig/configuration_repository.go] and
    [configuration_service.go]: the administrative view of a namespace's
    settings in four groups, each with its revision, and the PATCH that carries
    the generation and revision it was made from. A raw JSON value is what its
    text decodes to, and an integer literal is told apart from other numbers. So
    two spellings of one string count as equal: a locked field sent unchanged but
    spelled with escapes is refused by the code and accepted here, which only
    adds patches for which the theorems hold. *)

From stdpp Require Import base tactics gmap sets strings list.
From Stdlib Require Import ZArith Ascii SpecFloat Lia.
From S2P Require Import Prelude GoLib NsNames NsLedger NsService Utf8 Float64 NamespaceConfig Strategy NsConfig.

(** ** Raw JSON *)

Inductive RawMessage :=
| RawNull
| RawBool (b : bool)
| RawInt (z : Z)
| RawFloat (f : float64)
| RawString (s : string)
| RawArray (l : list jvalue)
| RawObject (m : gmap string jvalue).

#[export] Instance RawMessage_eq_dec : EqDecision RawMessage.
Proof. solve_decision. Defined.

(** [json.Unmarshal] into a pointer of a type: [None] is an error, [Some None]
    is null, which leaves the pointer nil. *)
Definition decoder (A : Type) : Type := RawMessage → option (option A).

Definition decode_bool : decoder bool := λ v,
  match v with RawNull => Some None | RawBool b => Some (Some b) | _ => None end.
Definition decode_string : decoder string := λ v,
  match v with RawNull => Some None | RawString s => Some (Some s) | _ => None end.
Definition decode_float : decoder float64 := λ v,
  match v with
  | RawNull => Some None
  | RawInt z => if is_finite (f64_of_Z z) then Some (Some (f64_of_Z z)) else None
  | RawFloat f => if is_finite f then Some (Some f) else None
  | _ => None
  end.
Definition decode_int (lo hi : Z) : decoder Z := λ v,
  match v with
  | RawNull => Some None
  | RawInt z => if (lo <=? z)%Z && (z <=? hi)%Z then Some (Some z) else None
  | _ => None
  end.
Definition decode_int32 : decoder Z := decode_int (- 2 ^ 31) (2 ^ 31 - 1).
Definition decode_int64 : decoder Z := decode_int (- 2 ^ 63) max_int64.
Definition decode_floats : decoder (gmap string float64) := λ v,
  match v with
  | RawNull => Some None
  | RawObject m => if decide (map_Forall (λ _ v, opt_ok is_finite (weight_of v) = true) m)
                   then match decode_weights m with Some w => Some (Some w) | None => None end else None
  | _ => None
  end.
Definition decode_any : decoder (gmap string jvalue) := λ v,
  match v with RawNull => Some None | RawObject m => Some (Some m) | _ => None end.

(** ** The groups *)

Definition configurationFields (group : string) : option (list string) :=
  if bool_decide (group = "recommendations") then Some ["alpha"; "gamma"; "max_results"; "seen_items_days"; "exclude_authored"]
  else if bool_decide (group = "signals") then Some ["action_weights"; "lambda"]
  else if bool_decide (group = "trending") then Some ["trending_window"; "trending_ttl"; "lambda_trending"]
  else if bool_decide (group = "embeddings") then
    Some ["dense_source"; "embedding_dim"; "dense_distance"; "catalog_strategy_id"; "catalog_strategy_version";
          "catalog_strategy_params"; "catalog_max_attempts"; "catalog_max_content_bytes"]
  else None.

Definition groups : list string := ["recommendations"; "signals"; "trending"; "embeddings"].
Definition fields_of (group : string) : list string := default [] (configurationFields group).

Record ConfigurationGroup := {
  cg_Revision : Z;
  cg_Values : gmap string RawMessage;
  cg_Locks : gset string;
}.

Record Configuration := {
  cn_Namespace : string;
  cn_Generation : Z;
  cn_Groups : gmap string ConfigurationGroup;
}.

Record ConfigurationPatch := {
  cp_Group : string;
  cp_Generation : Z;
  cp_BaseRevision : Z;
  cp_Changes : gmap string RawMessage;
}.

(** The field is the path in [Fields]; other errors have none. *)
Record ConfigurationError := {
  ce_Status : Z;
  ce_Code : string;
  ce_Field : option (string * string);
  ce_Message : string;
  ce_Current : option Configuration;
}.

Definition ErrConfiguration : string := "namespace.ConfigurationError".

(** An error of this component: sentinels, and what [errors.As] finds. *)
Abbreviation failure := (error * option ConfigurationError)%type.
Definition ok : failure := ([], None).
Definition plain (e : error) : failure := (e, None).
Definition conf (ce : ConfigurationError) : failure := ([ErrConfiguration], Some ce).

Definition configurationInvalid (group field message : string) : failure :=
  conf {| ce_Status := 422; ce_Code := "invalid_configuration"; ce_Field := Some (group, field); ce_Message := message;
          ce_Current := None |}.
Definition notFound (message : string) : failure :=
  conf {| ce_Status := 404; ce_Code := "not_found"; ce_Field := None; ce_Message := message; ce_Current := None |}.

(** ** configuration_repository.go *)

(** [jsonb_build_object] of a [float8] column. *)
Definition raw_float (f : float64) : RawMessage :=
  match f with
  | S754_nan => RawString "NaN"
  | S754_infinity s => RawString (if s then "-Infinity" else "Infinity")
  | _ => RawFloat (jsonb_num f)
  end.
Definition raw_text (s : option string) : RawMessage := match s with Some s => RawString s | None => RawNull end.
Definition raw_int (z : option Z) : RawMessage := match z with Some z => RawInt z | None => RawNull end.

(** The column of a field ([configurationColumn]: lambda is time_decay_factor). *)
Definition column_value (r : ConfigRow) (field : string) : RawMessage :=
  if bool_decide (field = "alpha") then raw_float (nr_alpha r)
  else if bool_decide (field = "gamma") then raw_float (nr_gamma r)
  else if bool_decide (field = "max_results") then RawInt (nr_max_results r)
  else if bool_decide (field = "seen_items_days") then RawInt (nr_seen_items_days r)
  else if bool_decide (field = "exclude_authored") then RawBool (nr_exclude_authored r)
  else if bool_decide (field = "action_weights") then RawObject (nr_action_weights r)
  else if bool_decide (field = "lambda") then raw_float (nr_time_decay_factor r)
  else if bool_decide (field = "trending_window") then RawInt (nr_trending_window r)
  else if bool_decide (field = "trending_ttl") then RawInt (nr_trending_ttl r)
  else if bool_decide (field = "lambda_trending") then raw_float (nr_lambda_trending r)
  else if bool_decide (field = "dense_source") then RawString (nr_dense_source r)
  else if bool_decide (field = "embedding_dim") then RawInt (nr_embedding_dim r)
  else if bool_decide (field = "dense_distance") then RawString (nr_dense_distance r)
  else if bool_decide (field = "catalog_strategy_id") then raw_text (nr_strategy_id r)
  else if bool_decide (field = "catalog_strategy_version") then raw_text (nr_strategy_version r)
  else if bool_decide (field = "catalog_strategy_params") then RawObject (nr_strategy_params r)
  else if bool_decide (field = "catalog_max_attempts") then raw_int (nr_max_attempts r)
  else if bool_decide (field = "catalog_max_content_bytes") then raw_int (nr_max_content_bytes r)
  else RawNull.

Definition group_revision (r : ConfigRow) (group : string) : Z :=
  if bool_decide (group = "recommendations") then nr_recommendations_revision r
  else if bool_decide (group = "signals") then nr_signals_revision r
  else if bool_decide (group = "trending") then nr_trending_revision r
  else nr_embeddings_revision r.

Definition group_view (r : ConfigRow) (group : string) : ConfigurationGroup :=
  {| cg_Revision := group_revision r group;
     cg_Values := list_to_map ((λ f, (f, column_value r f)) <$> fields_of group); cg_Locks := ∅ |}.

Definition view (ns : string) (r : ConfigRow) : Configuration :=
  {| cn_Namespace := ns; cn_Generation := nr_generation r;
     cn_Groups := list_to_map ((λ g, (g, group_view r g)) <$> groups) |}.

(** The row of an active namespace whose generation is the ledger's. *)
Definition sql_read (ns : string) (now : Z) (d : Db) : (option ConfigRow * Db) + error :=
  inl (match db_rows d !! ns, l_rows (db_ledger d) !! ns with
       | Some r, Some l =>
           if bool_decide (r_state l = StateActive) && (nr_generation r =? r_generation l)%Z then Some r else None
       | _, _ => None
       end, d).

Definition ReadConfiguration (repo : Repository) (ns : string) : M W (option Configuration * failure) :=
  let! r := run repo (sql_read ns) in
  ret (match r with
       | inr e => (None, plain e)
       | inl None => (None, notFound "Namespace is not active or does not exist")
       | inl (Some row) => (Some (view ns row), ok)
       end).

(** [jsonb_populate_record]: [None] is an error of the database (a NULL in a
    NOT NULL column, a value the column cannot hold). *)
Definition col_float (v : RawMessage) : option float64 :=
  match v with RawInt z => Some (f64_of_Z z) | RawFloat f => Some (jsonb_num f) | _ => None end.
Definition col_int (v : RawMessage) : option Z :=
  match v with RawInt z => if in_int4 z then Some z else None | _ => None end.
Definition col_bool (v : RawMessage) : option bool := match v with RawBool b => Some b | _ => None end.
Definition col_text (v : RawMessage) : option string :=
  match v with RawString s => if pg_text s then Some s else None | _ => None end.
Definition col_object (v : RawMessage) : option (gmap string jvalue) :=
  match v with RawObject m => if params_ok (Some m) then Some (jsonb <$> m) else None | _ => None end.
Definition col_null {A} (col : RawMessage → option A) (v : RawMessage) : option (option A) :=
  match v with RawNull => Some None | _ => Some <$> col v end.

Definition new_col {A} (changes : gmap string RawMessage) (field : string) (col : RawMessage → option A) (old : A) : option A :=
  match changes !! field with Some v => col v | None => Some old end.

(** The SET list over the changed columns. *)
Definition apply_changes (changes : gmap string RawMessage) (now : Z) (r : ConfigRow) : option ConfigRow :=
  alpha ← new_col changes "alpha" col_float (nr_alpha r);
  gamma ← new_col changes "gamma" col_float (nr_gamma r);
  max_results ← new_col changes "max_results" col_int (nr_max_results r);
  days ← new_col changes "seen_items_days" col_int (nr_seen_items_days r);
  authored ← new_col changes "exclude_authored" col_bool (nr_exclude_authored r);
  weights ← new_col changes "action_weights" col_object (nr_action_weights r);
  lambda ← new_col changes "lambda" col_float (nr_time_decay_factor r);
  window ← new_col changes "trending_window" col_int (nr_trending_window r);
  ttl ← new_col changes "trending_ttl" col_int (nr_trending_ttl r);
  lambda_trending ← new_col changes "lambda_trending" col_float (nr_lambda_trending r);
  src ← new_col changes "dense_source" col_text (nr_dense_source r);
  dim ← new_col changes "embedding_dim" col_int (nr_embedding_dim r);
  distance ← new_col changes "dense_distance" col_text (nr_dense_distance r);
  sid ← new_col changes "catalog_strategy_id" (col_null col_text) (nr_strategy_id r);
  sver ← new_col changes "catalog_strategy_version" (col_null col_text) (nr_strategy_version r);
  params ← new_col changes "catalog_strategy_params" col_object (nr_strategy_params r);
  attempts ← new_col changes "catalog_max_attempts" (col_null col_int) (nr_max_attempts r);
  bytes ← new_col changes "catalog_max_content_bytes" (col_null col_int) (nr_max_content_bytes r);
  Some {| nr_action_weights := weights; nr_time_decay_factor := lambda; nr_gamma := gamma; nr_max_results := max_results;
          nr_seen_items_days := days; nr_exclude_authored := authored; nr_api_key_hash := nr_api_key_hash r; nr_alpha := alpha;
          nr_dense_source := src; nr_embedding_dim := dim; nr_dense_distance := distance; nr_trending_window := window;
          nr_trending_ttl := ttl; nr_lambda_trending := lambda_trending; nr_strategy_id := sid; nr_strategy_version := sver;
          nr_strategy_params := params; nr_max_attempts := attempts; nr_max_content_bytes := bytes;
          nr_generation := nr_generation r; nr_created_at := nr_created_at r; nr_updated_at := now; nr_paused_at := nr_paused_at r;
          nr_recommendations_revision := nr_recommendations_revision r; nr_signals_revision := nr_signals_revision r;
          nr_trending_revision := nr_trending_revision r; nr_embeddings_revision := nr_embeddings_revision r |}.

(** Only allowlisted columns enter the statement. *)
Definition allowed_changes (group : string) (changes : gmap string RawMessage) : gmap string RawMessage :=
  filter (λ p, p.1 ∈ fields_of group) changes.

Definition sql_apply (ns : string) (changes : gmap string RawMessage) (now : Z) (d : Db) : (() * Db) + error :=
  match db_rows d !! ns with
  | None => inl (tt, d)
  | Some r =>
      match apply_changes changes now r with
      | None => inr [ErrDriver]
      | Some r' =>
          let r' := advance_revisions r r' in
          if denseSourceCheck (nr_dense_source r') then inl (tt, map_rows (<[ns := r']>) d) else inr [ErrDriver]
      end
  end.

Definition sql_generation (ns : string) (now : Z) (d : Db) : (option Z * Db) + error := inl (nr_generation <$> db_rows d !! ns, d).

Definition merged_values (current : Configuration) (changes : gmap string RawMessage) : gmap string RawMessage :=
  changes ∪ map_fold (λ _ g m, cg_Values g ∪ m) ∅ (cn_Groups current).

Definition revision_of (c : Configuration) (group : string) : Z :=
  match cn_Groups c !! group with Some g => cg_Revision g | None => 0%Z end.

Definition with_locks (from c : Configuration) : Configuration :=
  {| cn_Namespace := cn_Namespace c; cn_Generation := cn_Generation c;
     cn_Groups := map_imap (λ name g, Some {| cg_Revision := cg_Revision g; cg_Values := cg_Values g;
                                              cg_Locks := match cn_Groups from !! name with Some g' => cg_Locks g' | None => ∅ end |})
                           (cn_Groups c) |}.

Definition conflict (current : Configuration) : failure :=
  conf {| ce_Status := 409; ce_Code := "configuration_conflict"; ce_Field := None;
          ce_Message := "This group changed since you started editing. Review the current values before saving.";
          ce_Current := Some current |}.

(** The callback validates the merged values; it may lock fields of [current]. *)
Abbreviation validator := (Configuration → gmap string RawMessage → M W (Configuration * failure)).

Definition write_changes (ns : string) (req : ConfigurationPatch) (validateOnly : bool) : M W error :=
  let changes := allowed_changes (cp_Group req) (cp_Changes req) in
  if validateOnly || bool_decide (cp_Changes req = ∅) || bool_decide (changes = ∅) then ret []
  else let! r := run Tx (sql_apply ns changes) in ret (match r with inr e => e | inl _ => [] end).

(** The captured result and the failure; the sentinels decide the transaction. *)
Definition change_tx (ns : string) (req : ConfigurationPatch) (validateOnly : bool) (validate : validator)
    : M W ((option Configuration * option ConfigurationError) * error) :=
  let failed (f : failure) : M W ((option Configuration * option ConfigurationError) * error) := ret ((None, f.2), f.1) in
  let! l := run Tx sql_lock in
  match l with
  | inr e => failed (plain e)
  | inl _ =>
      let! g := run Tx (sql_generation ns) in
      match g with
      | inr e => failed (plain e)
      | inl None => failed (notFound "Namespace does not exist")
      | inl (Some _) =>
          let! ' (current, f) := ReadConfiguration Tx ns in
          match current with
          | None => failed f
          | Some current =>
              if negb (cn_Generation current =? cp_Generation req)%Z ||
                 negb (revision_of current (cp_Group req) =? cp_BaseRevision req)%Z
              then failed (conflict current)
              else
                let! ' (current, f) := validate current (merged_values current (cp_Changes req)) in
                if negb (nil_err f.1) then failed f
                else
                  let! e := write_changes ns req validateOnly in
                  if negb (nil_err e) then failed (plain e)
                  else
                    let! ' (result, f) := ReadConfiguration Tx ns in
                    ret ((match result with Some c => Some (with_locks current c) | None => None end, f.2), f.1)
          end
      end
  end.

Definition ChangeConfiguration (ns : string) (req : ConfigurationPatch) (validateOnly : bool) (validate : validator)
    : M W ((option Configuration * option ConfigurationError) * error) :=
  withinTx (None, None) (λ _, change_tx ns req validateOnly validate).

(** ** configuration_service.go *)

Definition identifier (c : ascii) : bool :=
  let n := N_of_ascii c in (n =? 95)%N || between 48 n 57 || between 97 n 122 || between 65 n 90.

Definition boundary (message : string) (i : nat) : bool :=
  match String.get i message with Some c => negb (identifier c) | None => true end.

Fixpoint fieldAt_from (fuel at_ : nat) (message field : string) : option nat :=
  match fuel with
  | O => None
  | S fuel =>
      if (at_ + String.length field <=? String.length message)%nat then
        match String.index at_ field message with
        | None => None
        | Some i =>
            if (bool_decide (i = 0%nat) || boundary message (i - 1)) && boundary message (i + String.length field) then Some i
            else fieldAt_from fuel (S i) message field
        end
      else None
  end.

(** [None] is -1. Every round starts later in the message. *)
Definition fieldAt (message field : string) : option nat :=
  if bool_decide (field = "") then None else fieldAt_from (S (String.length message)) 0 message field.

(** The field of the group named first in the message. *)
Definition blame (message : string) (fields : list string) : string * nat :=
  foldl (λ best f, match fieldAt message f with
                   | Some at_ => if (at_ <? best.2)%nat then (f, at_) else best
                   | None => best
                   end) ("values", String.length message) fields.

Definition lock_fields (locked : bool) (c : Configuration) : Configuration :=
  if locked then
    {| cn_Namespace := cn_Namespace c; cn_Generation := cn_Generation c;
       cn_Groups := alter (λ g, {| cg_Revision := cg_Revision g; cg_Values := cg_Values g;
                                   cg_Locks := {[ "embedding_dim"; "dense_distance" ]} ∪ cg_Locks g |}) "embeddings" (cn_Groups c) |}
  else c.

Definition configurationLocks (s : ConfigService) (ns : string) (c : Configuration) : M W (Configuration * error) :=
  if cs_checker s then
    let! ' (exists_, e) := DenseCollectionsExist ns (cn_Generation c) in
    if negb (nil_err e) then ret (c, e) else ret (lock_fields exists_ c, [])
  else ret (c, []).

Definition service_ReadConfiguration (s : ConfigService) (ns : string) : M W (option Configuration * failure) :=
  let! ' (out, f) := ReadConfiguration Pool ns in
  match out with
  | None => ret (None, f)
  | Some c =>
      let! ' (c, e) := configurationLocks s ns c in
      if negb (nil_err e) then ret (None, plain e) else ret (Some c, ok)
  end.

(** Whether the value decodes into the type of its field. *)
Definition decodes (field : string) (v : RawMessage) : bool :=
  let is_ok {A} (r : option (option A)) := bool_decide (is_Some r) in
  if bool_decide (field = "exclude_authored") then is_ok (decode_bool v)
  else if bool_decide (field ∈ ["dense_source"; "dense_distance"; "catalog_strategy_id"; "catalog_strategy_version"])
  then is_ok (decode_string v)
  else if bool_decide (field = "action_weights") then is_ok (decode_floats v)
  else if bool_decide (field = "catalog_strategy_params") then is_ok (decode_any v)
  else if bool_decide (field ∈ ["alpha"; "gamma"; "lambda"; "lambda_trending"]) then is_ok (decode_float v)
  else is_ok (decode_int32 v).

Definition nullable (field : string) : bool := bool_decide (field ∈ ["catalog_max_attempts"; "catalog_max_content_bytes"]).

Section service.
Context `{GoFmt, StringRange} (Error : error → string).

Fixpoint check_changes (group : string) (fields : list string) (changes : list (string * RawMessage)) : failure :=
  match changes with
  | [] => ok
  | (f, v) :: rest =>
      if negb (bool_decide (f ∈ fields)) then configurationInvalid group f "Field does not belong to this group"
      else if bool_decide (v = RawNull) && negb (nullable f)
      then configurationInvalid group f "This field cannot inherit a system default"
      else if negb (decodes f v) then configurationInvalid group f "Invalid value type"
      else check_changes group fields rest
  end.

Definition validateConfigurationPatch (req : ConfigurationPatch) : failure :=
  match configurationFields (cp_Group req) with
  | None => configurationInvalid (cp_Group req) "group" "Unknown configuration group"
  | Some fields =>
      if (cp_Generation req <? 1)%Z || (cp_BaseRevision req <? 1)%Z
      then configurationInvalid (cp_Group req) "base_revision" "Positive generation and base_revision are required"
      else check_changes (cp_Group req) fields (range_keys (cp_Changes req))
  end.

(** A key that is absent decodes like null. *)
Definition member {A} (values : gmap string RawMessage) (field : string) (d : decoder A) : option (option A) :=
  d (default RawNull (values !! field)).

Definition decode_request (values : gmap string RawMessage) : option UpsertRequest :=
  weights ← member values "action_weights" decode_floats;
  lambda ← member values "lambda" decode_float;
  gamma ← member values "gamma" decode_float;
  max_results ← member values "max_results" decode_int64;
  days ← member values "seen_items_days" decode_int64;
  authored ← member values "exclude_authored" decode_bool;
  paused ← member values "paused" decode_bool;
  alpha ← member values "alpha" decode_float;
  src ← member values "dense_source" decode_string;
  dim ← member values "embedding_dim" decode_int64;
  distance ← member values "dense_distance" decode_string;
  sid ← member values "catalog_strategy_id" decode_string;
  sver ← member values "catalog_strategy_version" decode_string;
  params ← member values "catalog_strategy_params" decode_any;
  window ← member values "trending_window" decode_int64;
  ttl ← member values "trending_ttl" decode_int64;
  lambda_trending ← member values "lambda_trending" decode_float;
  key ← member values "provision_api_key" decode_string;
  Some {| uq_ProvisionAPIKey := default "" key; uq_ActionWeights := weights; uq_Lambda := lambda; uq_Gamma := gamma;
          uq_MaxResults := max_results; uq_SeenItemsDays := days; uq_ExcludeAuthored := authored; uq_Paused := paused;
          uq_Alpha := alpha; uq_DenseSource := src; uq_EmbeddingDim := dim; uq_DenseDistance := distance;
          uq_CatalogStrategyID := sid; uq_CatalogStrategyVersion := sver; uq_CatalogStrategyParams := params;
          uq_TrendingWindow := window; uq_TrendingTTL := ttl; uq_LambdaTrending := lambda_trending |}.

Definition padded (action : string) : bool :=
  bool_decide (trim_space action = "") || negb (bool_decide (trim_space action = action)).

(** [string(values[f]) != "null"], then a positive integer. *)
Fixpoint check_limits (values : gmap string RawMessage) (fields : list string) : failure :=
  match fields with
  | [] => ok
  | f :: rest =>
      match values !! f with
      | Some RawNull => check_limits values rest
      | Some (RawInt z) => if (1 <=? z)%Z && (z <=? max_int64)%Z then check_limits values rest
                           else configurationInvalid "embeddings" f "Override must be a positive integer; use null to inherit"
      | _ => configurationInvalid "embeddings" f "Override must be a positive integer; use null to inherit"
      end
  end.

Definition strategy_half (req : UpsertRequest) : UpdateCatalogRequest :=
  {| cq_Enabled := true; cq_StrategyID := default "" (uq_CatalogStrategyID req);
     cq_StrategyVersion := default "" (uq_CatalogStrategyVersion req); cq_Params := uq_CatalogStrategyParams req;
     cq_MaxAttempts := 0; cq_MaxContentBytes := 0 |}.

(** A locked field that differs from the stored one. *)
Fixpoint check_locks (ns : string) (current : Configuration) (values : gmap string RawMessage) (fields : list string) : M W failure :=
  match fields with
  | [] => ret ok
  | f :: rest =>
      let stored := match cn_Groups current !! "embeddings" with Some g => cg_Values g !! f | None => None end in
      if bool_decide (values !! f = stored) then check_locks ns current values rest
      else
        let! ' (exists_, e) := DenseCollectionsExist ns (cn_Generation current) in
        if negb (nil_err e) then ret (plain e)
        else if exists_ : bool
        then ret (configurationInvalid "embeddings" f "Dense collections exist; a separate collection migration is required")
        else check_locks ns current values rest
  end.

Definition validateConfiguration (s : ConfigService) (ns : string) (patch : ConfigurationPatch) (current : Configuration)
    (values : gmap string RawMessage) : M W failure :=
  match decode_request values with
  | None => ret (configurationInvalid (cp_Group patch) "values" "Invalid configuration values")
  | Some req =>
      match validateUpsert req with
      | Some (_, text) => ret (configurationInvalid (cp_Group patch) (blame text (fields_of (cp_Group patch))).1 text)
      | None =>
          if opt_ok (λ d, bool_decide (d = "") || bool_decide (d ∈ denseDistances)) (uq_DenseDistance req) then
            if existsb (λ p : string * float64, padded p.1) (map_to_list (default ∅ (uq_ActionWeights req)))
            then ret (configurationInvalid "signals" "action_weights" "Action names must be non-empty and have no surrounding whitespace")
            else
              let f := check_limits values ["catalog_max_attempts"; "catalog_max_content_bytes"] in
              if negb (nil_err f.1) then ret f
              else
                let! e := (if decide (uq_DenseSource req = Some DenseSourceCatalog)
                           then match uq_CatalogStrategyID req, uq_CatalogStrategyVersion req with
                                | Some _, Some _ => validateCatalogStrategy s ns (strategy_half req) (uq_EmbeddingDim req)
                                | _, _ => ret [ErrPanic]
                                end
                           else ret []) in
                if negb (nil_err e) then ret (configurationInvalid "embeddings" "catalog_strategy_id" (Error e))
                else if cs_checker s && bool_decide (cp_Group patch = "embeddings")
                then check_locks ns current values ["embedding_dim"; "dense_distance"]
                else ret ok
          else ret (configurationInvalid "embeddings" "dense_distance" "Select cosine or dot")
      end
  end.

(** The callback [PatchConfiguration] gives the repository. *)
Definition patch_validator (s : ConfigService) (ns : string) (req : ConfigurationPatch) : validator := λ current values,
  let! ' (current, e) := configurationLocks s ns current in
  if negb (nil_err e) then ret (current, plain e)
  else let! f := validateConfiguration s ns req current values in ret (current, f).

(** A conflict is answered with the locks of the current values. *)
Definition refresh_locks (s : ConfigService) (ns : string) (ce : option ConfigurationError) : M W (option ConfigurationError * error) :=
  match ce with
  | Some c =>
      match ce_Current c with
      | Some cur =>
          let! ' (cur, le) := configurationLocks s ns cur in
          ret (Some {| ce_Status := ce_Status c; ce_Code := ce_Code c; ce_Field := ce_Field c;
                       ce_Message := ce_Message c; ce_Current := Some cur |}, le)
      | None => ret (Some c, [])
      end
  | None => ret (None, [])
  end.

Definition patch_outcome (result : option Configuration) (e : error) (ce : option ConfigurationError) : option Configuration * failure :=
  if errors_is e ErrNamespaceNotFound || errors_is e ErrNamespaceNotActive
  then (None, notFound "Namespace is not active or does not exist")
  else if errors_is e ErrSystemResetting
  then (None, conf {| ce_Status := 409; ce_Code := "system_resetting"; ce_Field := None;
                      ce_Message := "System reset is in progress; retry after it completes"; ce_Current := None |})
  else (result, (e, ce)).

Definition PatchConfiguration (s : ConfigService) (ctx : Ctx) (ns : string) (req : ConfigurationPatch) (validateOnly : bool)
    : M W (option Configuration * failure) :=
  let f := validateConfigurationPatch req in
  if negb (nil_err f.1) then ret (None, f)
  else
    let! ' (pre, f) := ReadConfiguration Pool ns in
    match pre with
    | None => ret (None, f)
    | Some _ =>
        let change := ChangeConfiguration ns req validateOnly (patch_validator s ns req) in
        let! ' ((result, ce), e) := (match cs_lifecycle s with
                                     | Some svc => WithWriter (None, None) svc ctx ns (λ _ _, change)
                                     | None => change
                                     end) in
        let! ' (ce, lockErr) := refresh_locks s ns ce in
        if negb (nil_err lockErr) then ret (None, plain lockErr)
        else ret (patch_outcome result e ce)
    end.
End service.
