(* ===== verification/NsConfigRules.v ===== *)
(** * Reasoning about the configuration service

    Rules for the statements and transactions of [NsConfig], and what its
    repository operations do: a transaction writes one row as a whole or leaves
    the tables as it found them. *)

From stdpp Require Import base tactics gmap sets strings list.
From Stdlib Require Import ZArith SpecFloat Lia.
From S2P Require Import Prelude GoLib NsNames NsLedger NsService Hoare Utf8 Float64 NamespaceConfig Strategy NsConfig.

Definition db_of (l : ledger) (x : NsConfigs) : Db :=
  {| db_ledger := l; db_rows := nc_rows x; db_provisions := nc_provisions x |}.

(** The stores a statement finds: over the pool the others go first. *)
Definition settle (r : Repository) (now : Z) (x : NsConfigs) : NsConfigs := match r with Pool => race now x | Tx => x end.

(** Equal but for the randomness drawn. *)
Record same_tables (x x' : NsConfigs) : Prop := {
  st_rows : nc_rows x' = nc_rows x;
  st_provisions : nc_provisions x' = nc_provisions x;
  st_collections : nc_collections x' = nc_collections x;
  st_others : nc_others x' = nc_others x;
}.

#[export] Instance same_tables_preorder : PreOrder same_tables.
Proof. split; [by intros x|]. intros x1 x2 x3 [] []. split; congruence. Qed.

Lemma set_tables_id x : set_nc_tables (nc_rows x) (nc_provisions x) x = x.
Proof. by destruct x. Qed.

(** Others do not undo what this process wrote elsewhere. *)
Lemma race_quiet now x : nc_others x = [] → race now x = x.
Proof. unfold race. by intros ->. Qed.

Section rules.
Context {c : bool} {l : ledger}.
Implicit Types (x : NsConfigs) (now : Z).

Lemma at_maybe {A} (k : bool → M W A) now x (Q : A → NsConfigs → Prop) :
  (c = false → writes_at c (k true) l now x Q) → writes_at c (k false) l now x Q → writes_at c (bind fault k) l now x Q.
Proof.
  intros Ht Hk. apply at_bind with (λ b x', x' = x ∧ (b = true → c = false)).
  - apply at_fault; [by intros ->|done].
  - intros [] ? [-> Hb]; auto.
Qed.

Lemma at_stmt {A} (f : Z → Db → (A * Db) + error) now x (Q : A + error → NsConfigs → Prop) :
  (c = false → Q (inr [ErrDriver]) x) →
  match f now (db_of l x) with
  | inl (a, d) => db_ledger d = l ∧ Q (inl a) (set_nc_tables (db_rows d) (db_provisions d) x)
  | inr e => Q (inr e) x
  end → writes_at c (stmt f) l now x Q.
Proof.
  intros Hf Hs. unfold stmt. apply at_maybe; [intros Hc; apply at_ret; auto|]. intros w Hl Hx Hn Hc. unfold world_db. rewrite Hl, Hx, Hn. fold (db_of l x).
  destruct (f now (db_of l x)) as [[a d]|e]; cbn [fst snd].
  - destruct Hs as [Hd HQ]. unfold put_db. split; [by split; cbn; rewrite ?Hd, ?Hl, ?Hn|]. split; [exact Hc|]. cbn. by rewrite Hx.
  - split; [done|]. split; [done|]. by rewrite Hx.
Qed.

Lemma at_sql {A} r (f : Z → Db → (A * Db) + error) now x (Q : A + error → NsConfigs → Prop) :
  (c = false → Q (inr [ErrDriver]) (settle r now x)) →
  match f now (db_of l (settle r now x)) with
  | inl (a, d) => db_ledger d = l ∧ Q (inl a) (set_nc_tables (db_rows d) (db_provisions d) (settle r now x))
  | inr e => Q (inr e) (settle r now x)
  end → writes_at c (run r f) l now x Q.
Proof.
  intros Hf Hs. unfold run. apply at_bind with (λ _ x', x' = settle r now x); [|intros _ ? ->; by apply at_stmt].
  destruct r; [|by apply at_ret]. intros w Hl Hx Hn Hc. cbn. rewrite Hx, Hn. split; [by split|split; [exact Hc|done]].
Qed.

(** A statement that only reads. *)
Lemma at_read {A} r (f : Z → Db → A) now x (Q : A + error → NsConfigs → Prop) :
  (c = false → Q (inr [ErrDriver]) (settle r now x)) → Q (inl (f now (db_of l (settle r now x)))) (settle r now x) →
  writes_at c (run r (λ now d, inl (f now d, d))) l now x Q.
Proof. intros Hf HQ. apply at_sql; [done|]. cbn. by rewrite set_tables_id. Qed.

(** [pgx.BeginFunc]: an error undoes the tables. *)
Definition undone (now : Z) (x x' : NsConfigs) : NsConfigs := set_nc_tables (nc_rows (race now x)) (nc_provisions (race now x)) x'.

Lemma at_tx {A} (a0 : A) (fn : Repository → M W (A * error)) now x (Q : A * error → NsConfigs → Prop) :
  (c = false → Q (a0, [ErrDriver]) (race now x)) →
  writes_at c (fn Tx) l now (race now x) (λ r x',
    (r.2 ≠ [] → Q r (undone now x x')) ∧ (r.2 = [] → Q r x' ∧ (c = false → Q (r.1, [ErrDriver]) (undone now x x')))) →
  writes_at c (withinTx a0 fn) l now x Q.
Proof.
  intros Hf Hfn. unfold withinTx.
  apply at_bind with (λ _ x', x' = race now x);
    [intros w Hl Hx Hn Hc; cbn; rewrite Hx, Hn; split; [by split|split; [exact Hc|done]]|]. intros _ ? ->.
  apply at_maybe; [intros Hc; apply at_ret; auto|].
  apply at_bind with (λ d x', d = db_of l (race now x) ∧ x' = race now x).
  { intros w Hl Hx Hn Hc. cbn. unfold world_db. by rewrite Hl, Hx. }
  intros d ? [-> ->]. eapply at_bind; [exact Hfn|]. intros r x' [He Hok].
  assert (∀ r', Q r' (undone now x x') → writes_at c (rollback (db_of l (race now x)) ;;! ret r') l now x' Q) as Hundo.
  { intros r' HQ. apply at_bind with (λ _ x'', x'' = undone now x x'); [|intros _ ? ->; by apply at_ret].
    intros w Hl Hx Hn Hc. cbn. rewrite Hx. split; [by split; cbn|]. split; [done|]. done. }
  destruct (r.2) as [|s e] eqn:Er; cbn [nil_err negb]; [|apply Hundo, He; done].
  destruct (Hok eq_refl) as [HQ Hc]. apply at_maybe; [intros Hf'; apply Hundo; auto|by apply at_ret].
Qed.

Lemma at_draw {A} (f : nat → A) now x (Q : A → NsConfigs → Prop) :
  (∀ x', same_tables x x' → Q (f (nc_draws x)) x') → writes_at c (draw f) l now x Q.
Proof.
  intros HQ w Hl Hx Hn Hc. cbn. split; [by split|]. split; [done|]. rewrite Hx. by apply HQ.
Qed.
End rules.

(** ** Rows *)

(** A row the services can read back. *)
Definition row_ok (r : ConfigRow) : Prop := is_Some (decode_weights (nr_action_weights r)) ∧ denseSourceCheck (nr_dense_source r) = true.

Lemma scan_ok ns r : row_ok r → ∃ cfg, scan_config ns r = inl cfg.
Proof. intros [[w Hw] _]. unfold scan_config. rewrite Hw. by eexists. Qed.

Lemma scan_error ns r e : scan_config ns r = inr e → e ≠ [] ∧ ¬ row_ok r.
Proof.
  unfold scan_config, row_ok. destruct (decode_weights (nr_action_weights r)) eqn:E; intros He; [done|]. injection He as <-.
  split; [done|]. by intros [[? ?] _].
Qed.

Lemma scan_fields ns r cfg :
  scan_config ns r = inl cfg →
  cfg_Namespace cfg = ns ∧ cfg_Generation cfg = nr_generation r ∧ cfg_APIKeyHash cfg = default "" (nr_api_key_hash r) ∧
  cfg_EmbeddingDim cfg = nr_embedding_dim r ∧ cfg_UpdatedAt cfg = nr_updated_at r.
Proof. unfold scan_config. destruct (decode_weights _); intros He; [|done]. by injection He as <-. Qed.

Lemma decode_weights_numbers (w : gmap string float64) : is_Some (decode_weights (weights_doc w)).
Proof.
  unfold decode_weights. rewrite decide_True; [by eexists|]. intros k v. unfold weights_doc. rewrite lookup_fmap.
  destruct (w !! k); [|done]. cbn. by intros [= <-].
Qed.

(** What a row keeps through the revision trigger. *)
Lemma advance_ok r r' : row_ok r' → row_ok (advance_revisions r r').
Proof. done. Qed.

(** The request as the statement takes it: an empty source is not supplied. *)
Definition normalized (req : UpsertRequest) : UpsertRequest :=
  with_source (match uq_DenseSource req with Some "" => None | s => s end) req.

Definition source_ok (req : UpsertRequest) : bool := opt_ok denseSourceCheck (uq_DenseSource req).

Lemma patched_ok req now r : row_ok r → source_ok req = true → row_ok (patched req now r).
Proof.
  intros [Hw Hs] Hq. split; cbn.
  - destruct (uq_ActionWeights req); cbn; [apply decode_weights_numbers|done].
  - unfold source_ok in Hq. destruct (bool_decide _); [done|]. by destruct (uq_DenseSource req).
Qed.

Lemma catalog_patched_ok req now r : row_ok r → row_ok (catalog_patched req now r).
Proof. intros [Hw Hs]. split; cbn; [done|]. destruct (cq_Enabled req); [done|]. by destruct (bool_decide _). Qed.

Definition update_row (f : ConfigRow → ConfigRow) (r : ConfigRow) : ConfigRow := advance_revisions r (f r).

Lemma sql_update_spec f ns l x r :
  nc_rows x !! ns = Some r →
  sql_update f ns (db_of l x) =
    if denseSourceCheck (nr_dense_source (f r))
    then inl (Some (update_row f r), db_of l (set_nc_rows (<[ns := update_row f r]> (nc_rows x)) x)) else inr [ErrDriver].
Proof. intros Hr. unfold sql_update. cbn. by rewrite Hr. Qed.

Lemma put_rows rows x : set_nc_tables rows (nc_provisions x) x = set_nc_rows rows x.
Proof. done. Qed.

(** ** The upsert transaction *)

(** The key and the catalog half of a write. *)
Definition keyed (key : option string) (r : ConfigRow) : ConfigRow :=
  match key with Some h => update_row (λ r, set_key (Some h) (nr_updated_at r) r) r | None => r end.
Definition with_catalog (cq : option UpdateCatalogRequest) (now : Z) (r : ConfigRow) : ConfigRow :=
  match cq with Some cq => update_row (catalog_patched cq now) r | None => r end.

Section upsert.
Context `{Bcrypt, CryptoRand, ProvisionDigest}.
Context {c : bool} {l : ledger} (ns : string) (lrow : ns_row).
Context (Hrow : l_rows l !! ns = Some lrow) (Hact : r_state lrow = StateActive) (Hsys : y_state (l_sys l) = SystemActive).

(** The row an upsert starts from. *)
Definition base_row (now : Z) (x : NsConfigs) : ConfigRow := default (new_row (r_generation lrow) now) (nc_rows x !! ns).

(** The stored row, if any, belongs to the active generation and reads back. *)
Definition stored_ok (x : NsConfigs) : Prop := ∀ r, nc_rows x !! ns = Some r → nr_generation r = r_generation lrow ∧ row_ok r.

Lemma activate_active now : sql_activate now ns l = (SqlRow lrow, l).
Proof.
  unfold sql_activate. rewrite Hrow, Hact. destruct lrow as [g st a lg le u]. cbn in *. subst st. f_equal.
  unfold set_rows. rewrite insert_id by done. by destruct l.
Qed.

Lemma create_active now x :
  sql_create ns now (db_of l x) =
    match nc_rows x !! ns with
    | Some r => if (nr_generation r =? r_generation lrow)%Z then inl (tt, db_of l x) else inr [ErrDriver]
    | None => inl (tt, db_of l (set_nc_rows (<[ns := new_row (r_generation lrow) now]> (nc_rows x)) x))
    end.
Proof.
  unfold sql_create. cbn. rewrite bool_decide_eq_true_2 by done. cbn. rewrite activate_active. by destruct (nc_rows x !! ns).
Qed.

Lemma base_row_ok now x : stored_ok x → row_ok (base_row now x).
Proof.
  intros Hs. unfold base_row. destruct (nc_rows x !! ns) as [r|] eqn:E; cbn; [by apply Hs in E as [_ ?]|].
  split; [|done]. pose proof (decode_weights_numbers ∅) as Hd. unfold weights_doc in Hd. by rewrite fmap_empty in Hd.
Qed.

(** What the two statements of [Upsert] need. *)
Definition writable (req : UpsertRequest) (x : NsConfigs) : Prop :=
  stored_ok x ∧ weights_marshal (uq_ActionWeights req) = true ∧ update_ok (normalized req) = true ∧ source_ok (normalized req) = true.

Record outside (x x' : NsConfigs) : Prop := {
  ou_collections : nc_collections x' = nc_collections x;
  ou_others : nc_others x' = nc_others x;
}.

Lemma Upsert_writes req now x :
  writes_at c (Upsert Tx ns req) l now x (λ r x',
    match r with
    | inr e => e ≠ [] ∧ outside x x' ∧ (c = true → ¬ writable req x)
    | inl cfg => let row := update_row (patched (normalized req) now) (base_row now x) in
                 x' = set_nc_rows (<[ns := row]> (nc_rows x)) x ∧ scan_config ns row = inl cfg
    end).
Proof.
  unfold Upsert. destruct (weights_marshal (uq_ActionWeights req)) eqn:Hw; cbn [negb]; [|apply at_ret; split_and!; [done|done|intros _ (_ & ? & _); congruence]].
  fold (normalized req).
  apply at_bind with (λ r x', match r with
    | inr e => e ≠ [] ∧ outside x x' ∧ (c = true → ¬ writable req x)
    | inl _ => nc_rows x' = <[ns := base_row now x]> (nc_rows x) ∧ x' = set_nc_rows (nc_rows x') x
    end).
  { apply at_sql; cbn [settle]; [by intros ->|]. rewrite create_active. unfold base_row. destruct (nc_rows x !! ns) as [r|] eqn:E.
    - destruct (Z.eqb_spec (nr_generation r) (r_generation lrow)); cbn.
      + split; [done|]. rewrite insert_id by done. done.
      + split_and!; [done|done|]. intros _ (Hs & _). by apply Hs in E as [? _].
    - done. }
  intros [[]|e] x' Hst; [|by apply at_ret]. destruct Hst as [Hr Hx]. rewrite Hx, Hr.
  set (x1 := set_nc_rows _ x). assert (nc_rows x1 !! ns = Some (base_row now x)) as Hb by (cbn; by rewrite lookup_insert_eq).
  apply at_bind with (λ r x', match scan_row ns r with
    | inr e => e ≠ [] ∧ outside x x' ∧ (c = true → ¬ writable req x)
    | inl None => False
    | inl (Some cfg) => let row := update_row (patched (normalized req) now) (base_row now x) in
                        x' = set_nc_rows (<[ns := row]> (nc_rows x)) x ∧ scan_config ns row = inl cfg
    end).
  - apply at_sql; cbn [settle]; [by intros ->|]. unfold sql_patch. destruct (update_ok (normalized req)) eqn:Hu;
      [|split_and!; [done|done|intros _ (_ & _ & ? & _); congruence]]. rewrite (sql_update_spec _ _ _ _ _ Hb).
    assert (writable req x → row_ok (patched (normalized req) now (base_row now x))) as Hok.
    { intros (Hs & _ & _ & Hq). apply patched_ok; [by apply base_row_ok|done]. }
    destruct (denseSourceCheck _) eqn:Hd; [|split_and!; [done|done|intros _ Hwr; apply Hok in Hwr as [_ ?]; congruence]].
    split; [done|]. cbn [scan_row]. destruct (scan_config ns _) as [cfg|e] eqn:Hsc.
    + split; [|done]. cbn. unfold set_nc_rows, set_nc_tables. cbn. by rewrite insert_insert_eq.
    + apply scan_error in Hsc as [He Hno]. split_and!; [done|done|]. intros _ Hwr. apply Hno, advance_ok, Hok, Hwr.
  - intros r x2 H2. apply at_ret. destruct (scan_row ns r) as [[cfg|]|e]; done.
Qed.

Lemma at_GenerateFromPassword password now x (Q : string + error → NsConfigs → Prop) :
  (∀ e, e ≠ [] → (c = true → (bcryptMax < String.length password)%nat) → Q (inr e) x) →
  (∀ n x', same_tables x x' → Q (inl (bcrypt_hash n password)) x') →
  writes_at c (GenerateFromPassword password) l now x Q.
Proof.
  intros He Hok. unfold GenerateFromPassword. destruct (Nat.ltb_spec bcryptMax (String.length password)); [apply at_ret; by apply He|].
  apply at_maybe; [intros Hc; apply at_ret, He; [done|congruence]|]. apply at_draw. auto.
Qed.

Definition provisioning (req : UpsertRequest) : Prop := uq_ProvisionAPIKey req ≠ "".

(** The row holds what the configuration answered with says. *)
Definition answers (cfg : Config) (row : ConfigRow) : Prop :=
  cfg_Namespace cfg = ns ∧ cfg_Generation cfg = nr_generation row ∧ cfg_APIKeyHash cfg = default "" (nr_api_key_hash row) ∧
  cfg_UpdatedAt cfg = nr_updated_at row ∧ is_Some (decode_weights (nr_action_weights row)).

Lemma scan_answers r cfg : scan_config ns r = inl cfg → answers cfg r.
Proof.
  intros Hs. pose proof Hs as Hf. apply scan_fields in Hf as (? & ? & ? & ? & ?). split_and!; try done.
  unfold scan_config in Hs. by destruct (decode_weights _).
Qed.

Lemma record_provision_writes req desired cfg row now x :
  nc_rows x !! ns = Some row → answers cfg row → (provisioning req → nr_api_key_hash row = None) →
  writes_at c (record_provision ns req desired cfg) l now x (λ r x',
    outside x x' ∧
    (r.2 ≠ [] → provisioning req) ∧
    (r.2 = [] → ∃ cfg' key, r.1 = Some cfg' ∧ answers cfg' (keyed key row) ∧ nc_rows x' = <[ns := keyed key row]> (nc_rows x) ∧
       (key = None → ¬ provisioning req ∧ nc_provisions x' = nc_provisions x) ∧
       (∀ h, key = Some h → provisioning req ∧ bcrypt_compare h (uq_ProvisionAPIKey req) = true ∧
          nc_provisions x' = <[ns := desired]> (nc_provisions x)))).
Proof.
  intros Hr Ha Hk. unfold record_provision. destruct (bool_decide _) eqn:Hp; btests.
  { apply at_ret. split; [done|]. split; [done|]. intros _. exists cfg, None. cbn. rewrite insert_id by done. naive_solver. }
  apply at_bind with (λ h x', same_tables x x' ∧ match h with inl h => bcrypt_compare h (uq_ProvisionAPIKey req) = true | inr e => e ≠ [] end).
  { apply at_GenerateFromPassword; [done|]. intros n x' Hx. split; [done|]. apply bcrypt_matches. }
  intros [h|e] x1 [[Hr1 Hp1 Hc1 Ho1] Hh]; [|by apply at_ret; cbn; split; [split|]].
  eapply at_bind with (λ won x', (∃ e, won = inr e ∧ e ≠ [] ∧ outside x x') ∨
    (won = inl true ∧ x' = set_nc_rows (<[ns := keyed (Some h) row]> (nc_rows x1)) x1)).
  { apply at_sql; cbn [settle]; [intros _; left; by eexists|]. unfold sql_set_key. cbn. rewrite Hr1, Hr, decide_True by auto.
    split; [done|]. right. split; [done|]. cbn. by rewrite <- Hr1. }
  intros [won|e] x2 Hx2; [|destruct Hx2 as [(? & [= ->] & He & ?)|[? _]]; [|done]; apply at_ret; cbn; done].
  destruct Hx2 as [(? & ? & _)|[_ ->]]; [done|].
  apply at_bind with (λ r x', match r with
    | inr e => e ≠ [] ∧ outside x x'
    | inl _ => outside x x' ∧ nc_rows x' = <[ns := keyed (Some h) row]> (nc_rows x) ∧ nc_provisions x' = <[ns := desired]> (nc_provisions x)
    end).
  { apply at_sql; cbn [settle]; [by intros _|]. unfold sql_insert_provision. cbn. rewrite lookup_insert_eq.
    destruct (nc_provisions x1 !! ns); [done|]. cbn. rewrite Hp1, Hr1. done. }
  intros [[]|e] x3 Hx3; apply at_ret; cbn.
  - destruct Hx3 as (Ho & Hr3 & Hp3). split; [done|]. split; [done|]. intros _. exists (with_hash h cfg), (Some h). split_and!; try done.
    + destruct Ha as (? & ? & ? & ? & ?). done.
    + intros ? [= <-]. done.
  - destruct Hx3 as [He Ho]. by split.
Qed.

Definition final_row (req : UpsertRequest) (cq : option UpdateCatalogRequest) (key : option string) (now : Z) (x : NsConfigs) : ConfigRow :=
  with_catalog cq now (keyed key (update_row (patched (normalized req) now) (base_row now x))).

(** What the transaction of a request leaves, [x] being what it found. *)
Definition wrote (req : UpsertRequest) (cq : option UpdateCatalogRequest) (desired : string) (now : Z) (cfg : Config) (x x' : NsConfigs) : Prop :=
  ∃ key, let row := final_row req cq key now x in
    answers cfg row ∧ nc_rows x' = <[ns := row]> (nc_rows x) ∧ outside x x' ∧
    (key = None → ¬ provisioning req ∧ nc_provisions x' = nc_provisions x) ∧
    (∀ h, key = Some h → provisioning req ∧ bcrypt_compare h (uq_ProvisionAPIKey req) = true ∧
       nc_provisions x' = <[ns := desired]> (nc_provisions x)).

Lemma keyed_ok key r : row_ok r → row_ok (keyed key r).
Proof. by destruct key. Qed.

Lemma write_config_writes req cq desired now x :
  (provisioning req → nc_rows x !! ns = None) →
  writes_at c (write_config ns req cq desired) l now x (λ r x',
    outside x x' ∧ (r.2 = [] → ∃ cfg, r.1 = Some cfg ∧ wrote req cq desired now cfg x x') ∧
    (r.2 ≠ [] → c = true → provisioning req ∨ ¬ (writable req x ∧ opt_ok catalog_ok cq = true))).
Proof.
  intros Hnew. unfold write_config. eapply at_bind; [apply Upsert_writes|]. intros [cfg|e] x1 Hup; cbn in Hup;
    [|destruct Hup as (He & Ho & Hw); apply at_ret; cbn; split; [done|]; split; [done|]; intros _ Hc; right; intros [? _]; by apply Hw].
  set (row := update_row (patched (normalized req) now) (base_row now x)) in *. destruct Hup as [Hx1 Hs1].
  assert (nc_rows x1 !! ns = Some row) as Hr1 by (subst x1; cbn; by rewrite lookup_insert_eq).
  eapply at_bind; [apply (record_provision_writes req desired cfg row now x1 Hr1)|].
  { by apply scan_answers. }
  { intros Hp. apply Hnew in Hp. unfold row, base_row. by rewrite Hp. }
  intros [cfg1 e] x2 ([Hc2 Ho2] & He2 & Hok2). assert (outside x x2) as Hout by (subst x1; split; [exact Hc2|exact Ho2]).
  destruct e as [|s e]; cbn [nil_err negb fst snd] in *; [|apply at_ret; cbn; split; [done|]; split; [done|]; intros _ _; left; by apply He2].
  destruct (Hok2 eq_refl) as (cfg2 & key & -> & Ha2 & Hr2 & Hn2 & Hk2).
  assert (nc_rows x2 = <[ns := keyed key row]> (nc_rows x)) as Hrows by (rewrite Hr2; subst x1; cbn; by rewrite insert_insert_eq).
  assert (nc_provisions x1 = nc_provisions x) as Hpr by by subst x1. rewrite Hpr in Hn2, Hk2.
  destruct cq as [cq|].
  2:{ apply at_ret. split; [done|]. split; [|done]. intros _. exists cfg2. split; [done|]. exists key. cbv zeta. unfold final_row. cbn. done. }
  apply at_bind with (λ r x', outside x x' ∧ match r with
    | inr e => e ≠ [] ∧ (c = true → provisioning req ∨ ¬ (writable req x ∧ catalog_ok cq = true))
    | inl None => False
    | inl (Some cfg) => wrote req (Some cq) desired now cfg x x'
    end).
  - unfold UpsertCatalogConfig. assert (nc_rows x2 !! ns = Some (keyed key row)) as Hl2 by (rewrite Hrows; apply lookup_insert_eq).
    apply at_bind with (λ r x', outside x x' ∧ match r with
      | inr e => e ≠ [] ∧ (c = true → provisioning req ∨ ¬ (writable req x ∧ catalog_ok cq = true))
      | inl None => False
      | inl (Some r) => r = final_row req (Some cq) key now x ∧ nc_rows x' = <[ns := r]> (nc_rows x) ∧ nc_provisions x' = nc_provisions x2
      end).
    + apply at_sql; cbn [settle]; [by intros ->|]. unfold sql_catalog. destruct (catalog_ok cq) eqn:Hcq; [|split; [done|]; split; [done|]; intros _; right; intros [_ ?]; done].
      rewrite (sql_update_spec _ _ _ _ _ Hl2).
      assert (writable req x → row_ok (catalog_patched cq now (keyed key row))) as Hrk.
      { intros (Hst & _ & _ & Hso). apply catalog_patched_ok, keyed_ok, patched_ok; [by apply base_row_ok|done]. }
      destruct (denseSourceCheck _) eqn:Hd; [|split; [done|]; split; [done|]; intros _; right; intros [[_ ?]%Hrk _]; congruence].
      split; [done|]. split; [by destruct Hout; split|]. split; [done|]. cbn. rewrite Hrows, insert_insert_eq. done.
    + intros r x3 [Ho3 Hr3]. apply at_ret. split; [done|]. destruct r as [[r|]|e]; cbn; [|done|done].
      destruct Hr3 as (-> & Hr3 & Hp3). destruct (scan_config ns (final_row req (Some cq) key now x)) as [cfg3|e] eqn:Hs3.
      * cbn beta iota. exists key. cbv zeta. split; [by apply scan_answers|]. split; [done|]. rewrite Hp3. done.
      * cbn beta iota. apply scan_error in Hs3 as [He3 Hno]. split; [done|]. intros _. right. intros [(Hst & _ & _ & Hso) _]. apply Hno.
        unfold final_row. cbn. apply advance_ok, catalog_patched_ok, keyed_ok, advance_ok, patched_ok; [by apply base_row_ok|done].
  - intros r x3 [Ho3 Hr3]. apply at_ret. destruct r as [[cfg3|]|e]; cbn; [|done|].
    + split; [done|]. split; [|done]. intros _. by exists cfg3.
    + split; [done|]. split; [by intros ->; destruct Hr3|]. intros _. by apply Hr3.
Qed.

Definition digest (req : UpsertRequest) (cq : option UpdateCatalogRequest) : string := provision_digest (without_key req) cq.

(** A provisioning request that meets its own earlier success. *)
Definition replayed (req : UpsertRequest) (cq : option UpdateCatalogRequest) (cfg : Config) (x : NsConfigs) : Prop :=
  provisioning req ∧ request_marshal req = true ∧
  ∃ row, nc_rows x !! ns = Some row ∧ answers cfg row ∧ nc_provisions x !! ns = Some (digest req cq) ∧
    bcrypt_compare (cfg_APIKeyHash cfg) (uq_ProvisionAPIKey req) = true.

Lemma verify_provision_writes req cq cfg row now x :
  provisioning req → request_marshal req = true → nc_rows x !! ns = Some row → answers cfg row →
  writes_at c (verify_provision ns req (digest req cq) cfg) l now x (λ r x',
    x' = x ∧ (r.2 = [] → r.1 = Some cfg ∧ replayed req cq cfg x) ∧
    (r.2 ≠ [] → c = true → ¬ (nc_provisions x !! ns = Some (digest req cq) ∧ bcrypt_compare (cfg_APIKeyHash cfg) (uq_ProvisionAPIKey req) = true))).
Proof.
  intros Hp Hm Hr Ha. unfold verify_provision.
  apply at_bind with (λ r x', x' = x ∧ match r with inl s => s = nc_provisions x !! ns | inr e => e ≠ [] ∧ c = false end).
  { by apply (at_read Tx (λ _ d, db_provisions d !! ns)). }
  intros [[h|]|e] ? [-> Hs]; cbn in Hs.
  - destruct (bool_decide (h = digest req cq)) eqn:Hh, (bcrypt_compare _ _) eqn:Hb; cbn; apply at_ret; cbn; btests; (split; [done|]); split; try done.
    + intros _. split; [done|]. split; [done|]. split; [done|]. exists row. subst h. done.
    + by intros _ _ [_ ?].
    + intros _ _ [? _]. congruence.
    + by intros _ _ [_ ?].
  - apply at_ret. cbn. split; [done|]. split; [done|]. intros _ _ [? _]. congruence.
  - apply at_ret. cbn. destruct Hs. split; [done|]. split; [done|]. congruence.
Qed.

(** What a transaction needs to commit when nothing fails. *)
Definition replay_ok (req : UpsertRequest) (cq : option UpdateCatalogRequest) (x : NsConfigs) : Prop :=
  provisioning req ∧ request_marshal req = true ∧ ∃ row, nc_rows x !! ns = Some row ∧ is_Some (decode_weights (nr_action_weights row)) ∧
    nc_provisions x !! ns = Some (digest req cq) ∧ bcrypt_compare (default "" (nr_api_key_hash row)) (uq_ProvisionAPIKey req) = true.
Definition tx_ok (req : UpsertRequest) (cq : option UpdateCatalogRequest) (x : NsConfigs) : Prop :=
  (¬ provisioning req ∧ writable req x ∧ opt_ok catalog_ok cq = true) ∨ replay_ok req cq x.

Lemma upsert_tx_writes req cq now x :
  writes_at c (upsert_tx ns req cq) l now x (λ r x',
    outside x x' ∧ (r.2 ≠ [] → c = true → ¬ tx_ok req cq x) ∧
    (r.2 = [] → ∃ cfg, r.1 = Some cfg ∧
      (((provisioning req → nc_rows x !! ns = None ∧ request_marshal req = true) ∧ wrote req cq (digest req cq) now cfg x x') ∨ (x' = x ∧ replayed req cq cfg x)))).
Proof.
  unfold upsert_tx. apply at_bind with (λ r x', x' = x ∧ match r with inl _ => True | inr e => e ≠ [] ∧ c = false end).
  { apply at_sql; cbn [settle]; [by intros ->|]. cbn. split; [done|]. by rewrite set_tables_id. }
  intros [[]|e] ? [-> He]; [|apply at_ret; cbn; split; [done|]; split; [destruct He; congruence|by destruct He]].
  destruct (bool_decide (uq_ProvisionAPIKey req = "")) eqn:Hp; btests.
  { eapply at_mono; [apply write_config_writes; by intros []|]. intros r x' (Ho & Hok & Hbad). split; [done|]. split.
    - intros Hr Hc [[Hn Hw]|[[] _]]; [|done]. by destruct (Hbad Hr Hc).
    - intros Hr. destruct (Hok Hr) as (cfg & Hc & key & Ha & Hrw & Ho' & Hkn & Hks). exists cfg. split; [done|]. left.
      split; [by intros []|]. exists key. split_and!; try done. intros h Hh. by destruct (Hks h Hh) as [[] _]. }
  destruct (request_marshal req) eqn:Hm; cbn [negb]; [|apply at_ret; cbn; split; [done|]; split; [|done]; intros _ _ [[]|(_ & ? & _)]; [done|congruence]].
  unfold Get. apply at_bind with (λ r x', x' = x ∧ match r with
    | inl None => nc_rows x !! ns = None
    | inl (Some cfg) => ∃ row, nc_rows x !! ns = Some row ∧ answers cfg row
    | inr e => e ≠ [] ∧ (c = true → ∃ row, nc_rows x !! ns = Some row ∧ decode_weights (nr_action_weights row) = None) end).
  { apply at_bind with (λ r x', x' = x ∧ match r with inl o => o = nc_rows x !! ns | inr e => e ≠ [] ∧ c = false end).
    - by apply (at_read Tx (λ _ d, db_rows d !! ns)).
    - intros r ? [-> Hr]. apply at_ret. split; [done|]. destruct r as [[row|]|e]; cbn; [|done|destruct Hr; split; [done|congruence]].
      destruct (scan_config ns row) as [cfg|e] eqn:Hs; [exists row; split; [done|by apply scan_answers]|].
      pose proof Hs as Hse. apply scan_error in Hse as [? _]. split; [done|]. intros _. exists row. split; [done|]. unfold scan_config in Hs.
      by destruct (decode_weights _). }
  intros [[cfg|]|e] ? [-> Hg].
  - destruct Hg as (row & Hr & Ha). eapply at_mono; [by eapply verify_provision_writes|]. intros r ? (-> & Hv & Hbad). split; [done|]. split.
    + intros Hr' Hc [[] |(_ & _ & row' & Hr2 & _ & Hp2 & Hb2)]; [done|]. apply (Hbad Hr' Hc). split; [done|].
      destruct Ha as (_ & _ & -> & _). congruence.
    + intros Hr'. destruct (Hv Hr') as [-> Hrep]. exists cfg. split; [done|]. by right.
  - eapply at_mono; [by apply write_config_writes|]. intros r x' (Ho & Hok & Hbad). split; [done|].
    split; [intros _ _ [[]|(_ & _ & row & ? & _)]; [done|congruence]|]. intros Hr. destruct (Hok Hr) as (cfg & Hc & Hw). exists cfg. split; [done|]. by left.
  - apply at_ret. cbn. destruct Hg as [Hne Hbad]. split; [done|]. split; [|done].
    intros _ Hc [[]|(_ & _ & row & Hr & [w Hw] & _)]; [done|]. destruct (Hbad Hc) as (row' & Hr' & Hn). congruence.
Qed.

Lemma undone_same now x x' : outside (race now x) x' → same_tables (race now x) (undone now x x').
Proof. intros [? ?]. by split. Qed.

Lemma UpsertWithCatalog_writes req cq now x :
  writes_at c (UpsertWithCatalog ns req cq) l now x (λ r x', let y := race now x in
    match r with
    | inr e => e ≠ [] ∧ same_tables y x' ∧ (c = true → ¬ tx_ok req cq y)
    | inl cfg => ((provisioning req → nc_rows y !! ns = None ∧ request_marshal req = true) ∧ wrote req cq (digest req cq) now cfg y x') ∨
                 (x' = y ∧ replayed req cq cfg y)
    end).
Proof.
  unfold UpsertWithCatalog. eapply at_bind.
  - apply (at_tx None (λ _, upsert_tx ns req cq) now x (λ r x', let y := race now x in
      (r.2 ≠ [] → same_tables y x' ∧ (c = true → ¬ tx_ok req cq y)) ∧
      (r.2 = [] → ∃ cfg, r.1 = Some cfg ∧
        (((provisioning req → nc_rows y !! ns = None ∧ request_marshal req = true) ∧ wrote req cq (digest req cq) now cfg y x') ∨ (x' = y ∧ replayed req cq cfg y))))).
    + intros Hc. cbn. split; [intros _; split; [done|congruence]|done].
    + eapply at_mono; [apply upsert_tx_writes|]. intros r x' (Ho & Hbad & Hok). apply undone_same in Ho. split.
      * intros Hr. split; [intros _; split; [done|auto]|done].
      * intros Hr. split; [split; [done|auto]|]. intros Hc. cbn. split; [intros _; split; [done|congruence]|done].
  - intros [o e] x' [Hbad Hok]. apply at_ret. cbn in *. destruct e as [|s e].
    + by destruct (Hok eq_refl) as (cfg & -> & ?).
    + destruct (Hbad ltac:(done)). by destruct o.
Qed.
End upsert.
