(* ===== verification/NsConfigFacts.v ===== *)
(** * What configuration writes promise

    Over the service of [NsConfig], for every pattern of failures and every
    interference by other processes the statement does not exclude: the keys it
    hands out open the namespace, an upsert changes exactly what it names, a
    provisioning request is idempotent, and a rejected one leaves the tables
    alone. *)

From stdpp Require Import base tactics gmap sets strings list.
From Stdlib Require Import ZArith SpecFloat Lia.
From S2P Require Import Prelude GoLib NsNames NsLedger NsService Hoare Utf8 Float64 NamespaceConfig Strategy NsConfig NsConfigRules.

(** ** Keys *)

Lemma hex_length (raw : list N) : String.length (EncodeToString raw) = (2 * length raw)%nat.
Proof.
  unfold EncodeToString. assert (∀ l, String.length (string_of l) = length l) as Hs by (induction l as [|b l IH]; cbn; auto).
  rewrite Hs. induction raw as [|b raw IH]; [done|]. etransitivity; [exact (f_equal (λ n, S (S n)) IH)|]. cbn. lia.
Qed.

(** What others do to the row of a namespace. *)
Definition row_kept (r r' : ConfigRow) : Prop :=
  nr_generation r' = nr_generation r ∧ (is_Some (nr_api_key_hash r) → is_Some (nr_api_key_hash r')).

#[export] Instance row_kept_preorder : PreOrder row_kept.
Proof. split; [by intros r|]. intros r1 r2 r3 [] []. split; [congruence|auto]. Qed.

Definition rows_kept (x x' : NsConfigs) : Prop :=
  ∀ ns r, nc_rows x !! ns = Some r → ∃ r', nc_rows x' !! ns = Some r' ∧ row_kept r r'.

#[export] Instance rows_kept_preorder : PreOrder rows_kept.
Proof.
  split; [intros x ns r ?; by exists r|]. intros x1 x2 x3 H1 H2 ns r Hr. destruct (H1 ns r Hr) as (r2 & Hr2 & ?).
  destruct (H2 ns r2 Hr2) as (r3 & ? & ?). exists r3. split; [done|]. by transitivity r2.
Qed.

Lemma rows_kept_alter f ns x :
  (∀ r, row_kept r (f r)) → rows_kept x (set_nc_rows (alter f ns (nc_rows x)) x).
Proof.
  intros Hf ns' r Hr. cbn. destruct (decide (ns' = ns)) as [->|Hne].
  - rewrite lookup_alter_eq, Hr. exists (f r). auto.
  - rewrite lookup_alter_ne by done. by exists r.
Qed.

Lemma do_other_kept now o x : rows_kept x (do_other now o x).
Proof.
  destruct o; cbn; [..|intros ns r Hr; by exists r]; apply rows_kept_alter; intros r; split; cbn; try done.
  - by destruct (decide _).
  - destruct (decide _) as [H0|]; cbn; [|done]. rewrite H0. by intros [].
Qed.

Lemma race_kept now x : rows_kept x (race now x).
Proof.
  unfold race. destruct (nc_others x) as [|ops rest]; [done|].
  assert (∀ ops x, rows_kept x (foldl (λ x o, do_other now o x) x ops)) as Hf.
  { clear. induction ops as [|o ops IH]; intros x; [done|]. cbn. etransitivity; [apply do_other_kept|apply IH]. }
  apply Hf.
Qed.

(** Randomness drawn does not matter to the others. *)
Lemma do_other_same now o x x' : same_tables x x' → same_tables (do_other now o x) (do_other now o x').
Proof. intros [Hr Hp Hc Ho]. destruct o; split; cbn; congruence. Qed.

Lemma race_same now x x' : same_tables x x' → same_tables (race now x) (race now x').
Proof.
  intros Hs. unfold race. rewrite (st_others _ _ Hs). destruct (nc_others x) as [|ops rest]; [done|].
  assert (∀ ops x x', same_tables x x' → same_tables (foldl (λ x o, do_other now o x) x ops) (foldl (λ x o, do_other now o x) x' ops)) as Hf.
  { clear. induction ops as [|o ops IH]; intros x x' Hs; [done|]. cbn. by apply IH, do_other_same. }
  destruct (Hf ops x x' Hs) as [? ? ? ?]. by split.
Qed.

Section keys.
Context `{Bcrypt, CryptoRand, ProvisionDigest} {c : bool} {l : ledger}.

Lemma at_generateAPIKey now x (Q : (string * string) + error → NsConfigs → Prop) :
  (∀ e x', e ≠ [] → c = false → same_tables x x' → Q (inr e) x') →
  (∀ p h x', p ≠ "" → bcrypt_compare h p = true → same_tables x x' → Q (inl (p, h)) x') →
  writes_at c generateAPIKey l now x Q.
Proof.
  intros He Hok. unfold generateAPIKey. apply at_maybe; [intros Hc; apply at_ret; by apply He|].
  apply at_bind with (λ p x', same_tables x x' ∧ String.length p = 64%nat).
  { apply at_draw. intros x' Hx. split; [done|]. rewrite hex_length. by destruct (rand_bytes_ok (nc_draws x)) as [_ ->]. }
  intros p x1 [Hx1 Hp]. eapply at_bind with (λ h x', same_tables x x' ∧ match h with inl h => bcrypt_compare h p = true | inr e => e ≠ [] ∧ c = false end).
  - apply at_GenerateFromPassword.
    + intros e Hne Hlen. split; [done|]. split; [done|]. destruct c; [|done]. specialize (Hlen eq_refl). unfold bcryptMax in Hlen. lia.
    + intros n x' Hx'. split; [by etransitivity|]. apply bcrypt_matches.
  - intros [h|e] x2 [Hx2 Hh]; apply at_ret; [apply Hok; [intros ->; cbn in Hp; lia|done|done]|by destruct Hh; apply He].
Qed.

(** The last step of an upsert: who stored the first key hands it out. *)
Definition key_issued (ns : string) (cfg : Config) (x : NsConfigs) (r : option UpsertResponse * error) (x' : NsConfigs) : Prop :=
  (r.2 = [] → ∃ resp row h, r.1 = Some resp ∧ ur_Namespace resp = ns ∧ ur_Generation resp = nr_generation row ∧
     nc_rows x' !! ns = Some row ∧ nr_api_key_hash row = Some h ∧
     (ur_APIKey resp ≠ "" → bcrypt_compare h (ur_APIKey resp) = true) ∧
     (cfg_APIKeyHash cfg ≠ "" → x' = x ∧ ur_APIKey resp = "")) ∧
  (r.2 ≠ [] → r.1 = None ∧ cfg_APIKeyHash cfg = "").

(** Without others, nothing but the key changes, and a plaintext is handed out
    exactly when it did. *)
Definition only_key (ns : string) (row : ConfigRow) (x : NsConfigs) (r : option UpsertResponse * error) (x' : NsConfigs) : Prop :=
  nc_others x = [] → nc_others x' = [] ∧ nc_provisions x' = nc_provisions x ∧ nc_collections x' = nc_collections x ∧
    (nc_rows x' = nc_rows x ∧ (∀ resp, r.1 = Some resp → ur_APIKey resp = "" ∧ is_Some (nr_api_key_hash row)) ∨
     r.2 = [] ∧ nr_api_key_hash row = None ∧ (∃ resp, r.1 = Some resp ∧ ur_APIKey resp ≠ "") ∧
     ∃ h, nc_rows x' = <[ns := keyed (Some h) row]> (nc_rows x)).

Lemma first_key_writes ns cfg row now x :
  nc_rows x !! ns = Some row → answers ns cfg row →
  writes_at c (first_key ns cfg) l now x (λ r x',
    key_issued ns cfg x r x' ∧ (r.2 ≠ [] → c = false) ∧ only_key ns row x r x').
Proof.
  intros Hr (Hns & Hg & Hh & Hu & _). unfold first_key, key_issued, only_key. destruct (bool_decide (cfg_APIKeyHash cfg = "")) eqn:He; btests; cbn [negb].
  2:{ apply at_ret. cbn. destruct (nr_api_key_hash row) as [h|] eqn:Ek; [|done]. split_and!; [|done|done|].
      - intros _. eexists _, row, h. by split_and!.
      - intros Ho. split_and!; [done..|]. left. split; [done|]. by intros ? [= <-]. }
  eapply at_bind with (λ k x', same_tables x x' ∧ match k with inl (p, h) => p ≠ "" ∧ bcrypt_compare h p = true | inr e => e ≠ [] ∧ c = false end).
  { apply at_generateAPIKey; [done|]. intros p h x' ? ? ?. done. }
  intros [[p h]|e] x1 [Hx1 Hk].
  2:{ apply at_ret. cbn. destruct Hk as [Hne Hc]. split_and!; [done|done|done|]. intros Ho. destruct Hx1. split_and!; try congruence. left. split; [done|]. by intros ? [=]. }
  destruct Hk as [Hp Hb]. assert (same_tables (race now x) (race now x1)) as Hs by by apply race_same.
  destruct (race_kept now x ns row Hr) as (row' & Hr' & Hgk & Hkk).
  eapply at_bind with (λ won x', match won with
    | inr e => e ≠ [] ∧ c = false ∧ x' = race now x1
    | inl true => nr_api_key_hash row' = None ∧ x' = set_nc_rows (<[ns := keyed (Some h) row']> (nc_rows (race now x))) (race now x1)
    | inl false => is_Some (nr_api_key_hash row') ∧ x' = race now x1
    end).
  { apply at_sql; cbn [settle]; [by intros ->|]. unfold sql_set_key. cbn. rewrite (st_rows _ _ Hs), Hr'. destruct (decide _) as [Hn|Hn]; cbn.
    - split; [done|]. split; [done|]. by rewrite (st_rows _ _ Hs).
    - split; [done|]. rewrite set_tables_id. split; [|done]. by apply not_eq_None_Some. }
  assert (nc_others x = [] → race now x = x ∧ row' = row) as Hquiet.
  { intros Ho. rewrite race_quiet in Hr' |- * by done. split; congruence. }
  intros [[]|e] x2 Hx2; apply at_ret; cbn.
  - destruct Hx2 as [Hn ->]. split_and!; [|done|done|].
    + intros _. eexists _, (keyed (Some h) row'), h. split_and!; try done; [cbn; congruence|cbn; by rewrite lookup_insert_eq].
    + intros Ho. destruct (Hquiet Ho) as [Hx ->]. destruct Hs. split_and!; cbn; [congruence|congruence|congruence|]. right. split; [done|].
      split; [done|]. split; [by eexists|]. exists h. by rewrite Hx.
  - destruct Hx2 as [[h' Hn] ->]. split_and!; [|done|done|].
    + intros _. eexists _, row', h'. split_and!; try done; [cbn; congruence|]. by rewrite (st_rows _ _ Hs).
    + intros Ho. destruct (Hquiet Ho) as [Hx ->]. destruct Hs. split_and!; [congruence|congruence|congruence|]. left. split; [congruence|].
      intros ? [= <-]. split; [done|]. by exists h'.
  - destruct Hx2 as (Hne & Hc & ->). split_and!; [done|done|done|]. intros Ho. destruct (Hquiet Ho) as [Hx ->]. destruct Hs.
    split_and!; [congruence|congruence|congruence|]. left. split; [congruence|]. by intros ? [=].
Qed.
End keys.

(** ** The checks before a write *)

(** One of the dense collections of a generation exists. *)
Definition has_dense (ns : string) (generation : Z) (x : NsConfigs) : Prop :=
  ∃ kind name, kind ∈ [KindObjectsDense; KindSubjectsDense] ∧
    Incarnation_MustPhysicalName (NewIncarnation ns generation) kind = Some name ∧ name ∈ nc_collections x.

(** The dimension a namespace has after a request, as far as it is stored. *)
Definition stored_dimension (ns : string) (x : NsConfigs) : Z :=
  match nc_rows x !! ns with
  | Some r => if (0 <? nr_embedding_dim r)%Z then nr_embedding_dim r else schemaEmbeddingDim
  | None => schemaEmbeddingDim
  end.
Definition effective_dimension (ns : string) (requested : option Z) (x : NsConfigs) : Z :=
  match requested with Some d => if (0 <? d)%Z then d else stored_dimension ns x | None => stored_dimension ns x end.

(** The strategy exists and has the dimension. *)
Definition strategy_fits (s : ConfigService) (cq : UpdateCatalogRequest) (dim : Z) : Prop :=
  ∃ strategy, build_strategy s cq = inl strategy ∧ st_Dim strategy = dim.

Definition named (cq : UpdateCatalogRequest) : Prop := cq_StrategyID cq ≠ "" ∧ cq_StrategyVersion cq ≠ "".

Lemma Incarnation_names ns raw k :
  ns ≠ "" → is_Some (kind_store k) → ∃ n, Incarnation_MustPhysicalName (NewIncarnation ns raw) k = Some n.
Proof.
  intros Hns [st Hk]. unfold Incarnation_MustPhysicalName, MustPhysicalName, Generation. cbn.
  destruct (Z.ltb_spec raw 1); rewrite PhysicalName_cases, Hk, (decide_False (P := ns = "")) by done; rewrite decide_False by lia;
    destruct st; eauto.
Qed.

Section checks.
Context {c : bool} {l : ledger}.

Lemma at_Get r ns now x (Q : option Config + error → NsConfigs → Prop) :
  (c = false → Q (inr [ErrDriver]) (settle r now x)) →
  Q (scan_row ns (inl (nc_rows (settle r now x) !! ns))) (settle r now x) → writes_at c (Get r ns) l now x Q.
Proof.
  intros Hf HQ. unfold Get. eapply at_bind with (λ row x', x' = settle r now x ∧ (row = inl (nc_rows x' !! ns) ∨ row = inr [ErrDriver] ∧ c = false)).
  - apply (at_read r (λ _ d, db_rows d !! ns)); [by intros ->; split; [|right]|by split; [|left]].
  - intros row ? [-> [->|[-> Hc]]]; apply at_ret; [done|]. by apply Hf.
Qed.

Lemma at_any_collection inc kinds now x :
  writes_at c (any_collection inc kinds) l now x (λ r x', x' = x ∧
    (r.2 ≠ [] → c = true → ∃ kind, kind ∈ kinds ∧ Incarnation_MustPhysicalName inc kind = None) ∧
    (r.2 = [] → (r.1 = true ↔ ∃ kind name, kind ∈ kinds ∧ Incarnation_MustPhysicalName inc kind = Some name ∧ name ∈ nc_collections x))).
Proof.
  induction kinds as [|kind kinds IH]; cbn [any_collection].
  { apply at_ret. split; [done|]. split; [done|]. intros _. split; [done|]. by intros (? & ? & ?%elem_of_nil & _). }
  destruct (Incarnation_MustPhysicalName inc kind) as [name|] eqn:En.
  2:{ apply at_ret. split; [done|]. split; [|done]. intros _ _. exists kind. by split; [constructor|]. }
  apply at_maybe; [intros ->; by apply at_ret|].
  apply at_bind with (λ b x', x' = x ∧ b = bool_decide (name ∈ nc_collections x)); [intros w Hl Hx Hn Hc; cbn; rewrite Hx; by split|].
  intros b ? [-> ->]. destruct (bool_decide (name ∈ nc_collections x)) eqn:Eb; btests.
  { apply at_ret. split; [done|]. split; [done|]. intros _. split; [|done]. intros _. exists kind, name. by split; [constructor|]. }
  eapply at_mono; [exact IH|]. intros r ? (-> & Hbad & Hok). split; [done|]. split.
  - intros Hr Hc. destruct (Hbad Hr Hc) as (k & ? & ?). exists k. by split; [constructor|].
  - intros Hr. rewrite (Hok Hr). split; intros (k & n & Hk & Hn & Hin); exists k, n.
    + by split; [constructor|].
    + apply elem_of_cons in Hk as [->|Hk]; [|done]. congruence.
Qed.

Lemma at_DenseCollectionsExist ns generation now x :
  writes_at c (DenseCollectionsExist ns generation) l now x (λ r x', x' = x ∧ (r.2 = [] → (r.1 = true ↔ has_dense ns generation x)) ∧
    (r.2 ≠ [] → c = true → ns = "")).
Proof.
  eapply at_mono; [apply at_any_collection|]. intros r ? (-> & Hbad & Hok). split; [done|]. split; [done|]. intros Hr Hc.
  destruct (Hbad Hr Hc) as (kind & Hk & Hn). destruct (decide (ns = "")) as [|Hns]; [done|].
  assert (is_Some (kind_store kind)) as Hst by (repeat (apply elem_of_cons in Hk as [->|Hk]; [by eexists|]); by apply elem_of_nil in Hk).
  pose proof (Incarnation_names ns generation kind Hns Hst) as [n Hsome]. congruence.
Qed.

(** The guard lets a change of dimension pass only without dense collections. *)
Definition guarded (s : ConfigService) (ns : string) (req : UpsertRequest) (x : NsConfigs) : Prop :=
  cs_checker s = true → ¬ provisioning req → ∀ dim r, uq_EmbeddingDim req = Some dim → nc_rows x !! ns = Some r →
  nr_embedding_dim r = dim ∨ ¬ has_dense ns (nr_generation r) x.

Lemma guard_writes s ns req now x :
  writes_at c (guardEmbeddingDimChange s ns req) l now x (λ e x', (x' = x ∨ x' = race now x) ∧ (e = [] → guarded s ns req x') ∧
    (e ≠ [] → c = true → ns ≠ "" → (∀ r, nc_rows x' !! ns = Some r → row_ok r) → ¬ guarded s ns req x')).
Proof.
  unfold guardEmbeddingDimChange, guarded, provisioning. destruct (uq_EmbeddingDim req) as [dim|]; [|apply at_ret; by split; [left|]].
  destruct (cs_checker s); cbn [negb orb]; [|apply at_ret; by split; [left|]].
  destruct (bool_decide (uq_ProvisionAPIKey req = "")) eqn:Hp; btests; cbn [negb]; [|apply at_ret; split; [by left|]; split; [by intros _ _ []|done]].
  eapply at_bind with (λ g x', x' = race now x ∧ (g = scan_row ns (inl (nc_rows x' !! ns)) ∨ g = inr [ErrDriver] ∧ c = false)).
  { apply at_Get; cbn [settle]; [by intros ?; split; [|right]|by split; [|left]]. }
  intros g ? [-> [Hg|[-> Hc]]]; [|apply at_ret; split; [by right|]; split; [done|congruence]]. subst g. cbn.
  destruct (nc_rows (race now x) !! ns) as [r|] eqn:Er; [|apply at_ret; split; [by right|]; split; [|done]; congruence].
  destruct (scan_config ns r) as [cfg|e] eqn:Es.
  2:{ apply scan_error in Es as [He Hno]. apply at_ret. split; [by right|]. split; [done|]. intros _ _ _ Hall. by destruct (Hno (Hall r Er)). }
  apply scan_fields in Es as (_ & Hgen & _ & Hdim & _). destruct (Z.eqb_spec (cfg_EmbeddingDim cfg) dim) as [He|He].
  { apply at_ret. split; [by right|]. split; [|done]. intros _ _ _ d r' [= <-] Hr2. left. congruence. }
  eapply at_bind; [apply at_DenseCollectionsExist|]. intros [ex e] ? (-> & Hok & Hbad). cbn in Hok, Hbad.
  destruct e as [|e0 e]; cbn [nil_err negb]; apply at_ret; (split; [by right|]);
    [|split; [done|]; intros _ Hc Hns; by destruct (Hns (Hbad ltac:(done) Hc))].
  rewrite Hgen in Hok. destruct ex; (split; [|try done]).
  - done.
  - intros _ _ _ _ Hgu. destruct (Hgu eq_refl ltac:(by intros ?) dim r eq_refl Er) as [Hd|Hd]; [congruence|]. by apply Hd, Hok.
  - intros _ _ _ d r' [= <-] Hr2. right. rewrite Er in Hr2. injection Hr2 as <-. by intros ?%Hok.
Qed.

Lemma stored_dim_writes ns now x :
  writes_at c (stored_dim Pool ns) l now x (λ d x', x' = race now x ∧
    match d with inl d => d = stored_dimension ns x' | inr e => e ≠ [] ∧ (c = true → ∃ r, nc_rows x' !! ns = Some r ∧ ¬ row_ok r) end).
Proof.
  unfold stored_dim. eapply at_bind with (λ g x', x' = race now x ∧ (g = scan_row ns (inl (nc_rows x' !! ns)) ∨ g = inr [ErrDriver] ∧ c = false)).
  { apply at_Get; cbn [settle]; [by intros ?; split; [|right]|by split; [|left]]. }
  intros g ? [-> Hg]. apply at_ret. split; [done|]. destruct Hg as [->|[-> Hc]]; [|split; [done|congruence]].
  unfold stored_dimension. cbn. destruct (nc_rows (race now x) !! ns) as [r|]; [|done].
  destruct (scan_config ns r) as [cfg|e] eqn:Es.
  - apply scan_fields in Es as (_ & _ & _ & -> & _). done.
  - apply scan_error in Es as [He Hno]. split; [done|]. intros _. by exists r.
Qed.

(** A factory that builds nothing says why. *)
Definition factories_explain (r : Registry) : Prop := ∀ id version p e, Build r id version p = inr e → e ≠ [].

(** Only a check against the stored dimension reads the row. *)
Definition looked (ns : string) (requested : option Z) (now : Z) (x x' : NsConfigs) : Prop :=
  x' = x ∨ x' = race now x ∧ ∀ d, requested = Some d → (d <= 0)%Z.

Lemma validateCatalogStrategy_writes s ns cq requested now x :
  factories_explain (cs_registry s) →
  writes_at c (validateCatalogStrategy s ns cq requested) l now x (λ e x', looked ns requested now x x' ∧
    (e = [] → cq_Enabled cq = true → named cq ∧ strategy_fits s cq (effective_dimension ns requested x')) ∧
    (e ≠ [] → c = true → (∀ r, nc_rows x' !! ns = Some r → row_ok r) → ¬ (named cq ∧ strategy_fits s cq (effective_dimension ns requested x')))).
Proof.
  intros Hreg. unfold validateCatalogStrategy, named, strategy_fits, looked.
  destruct (cq_Enabled cq) eqn:Hen; cbn [negb]; [|apply at_ret; split; [by left|by split]].
  destruct (bool_decide (cq_StrategyID cq = "") || bool_decide (cq_StrategyVersion cq = "")) eqn:Hn.
  { apply at_ret. split; [by left|]. split; [done|]. intros _ _ _ [[? ?] _]. apply orb_true_iff in Hn as [Hn|Hn]; by btests. }
  btests. destruct (build_strategy s cq) as [st|e] eqn:Eb.
  2:{ apply at_ret. split; [by left|]. apply Hreg in Eb. split; [done|]. by intros _ _ _ [_ (? & ? & _)]. }
  eapply at_bind with (λ d x', looked ns requested now x x' ∧ match d with
    | inl d => d = effective_dimension ns requested x'
    | inr e => e ≠ [] ∧ (c = true → ∃ r, nc_rows x' !! ns = Some r ∧ ¬ row_ok r) end).
  { unfold effective_dim, effective_dimension, looked. destruct requested as [d|]; [destruct (Z.ltb_spec 0 d); [apply at_ret; by split; [left|]|]|];
      (eapply at_mono; [apply stored_dim_writes|]); intros d' x' [-> Hd]; (split; [right|done]); (split; [done|]); intros ? [= <-]; lia. }
  intros [d|e] x' [Hx Hd]; apply at_ret; (split; [done|]).
  - subst d. destruct (Z.eqb_spec (st_Dim st) (effective_dimension ns requested x')) as [He|He].
    + split; [|done]. intros _ _. split; [done|]. by exists st.
    + split; [done|]. intros _ _ _ [_ (st' & [= <-] & ?)]. done.
  - destruct Hd as [Hne Hbad]. split; [done|]. intros _ Hc Hall. destruct (Hbad Hc) as (r & Hr & Hno). by destruct (Hno (Hall r Hr)).
Qed.
End checks.

(** ** An upsert under its lease *)

Section active.
Context `{GoFmt, StringRange, Bcrypt, CryptoRand, ProvisionDigest} {c : bool} {l : ledger} (ns : string) (lrow : ns_row).
Context (Hrow : l_rows l !! ns = Some lrow) (Hact : r_state lrow = StateActive) (Hsys : y_state (l_sys l) = SystemActive).

(** The catalog half of the request, if any, names a strategy that fits the
    dimension the request leaves behind. *)
Definition catalog_fits (s : ConfigService) (req : UpsertRequest) (x : NsConfigs) : Prop :=
  ∀ cq, catalog_half req = Some cq → named cq ∧ strategy_fits s cq (effective_dimension ns (requested_dim req) x).

(** The transaction of the request committed, from [x] to [x']. *)
Definition committed (req : UpsertRequest) (now : Z) (cfg : Config) (x x' : NsConfigs) : Prop :=
  let base := base_half req in let cq := catalog_half req in
  ((provisioning base → nc_rows x !! ns = None ∧ request_marshal base = true) ∧ wrote ns lrow base cq (digest base cq) now cfg x x') ∨
  (x' = x ∧ replayed ns base cq cfg x).

Lemma committed_row req now cfg x x' : committed req now cfg x x' → ∃ row, nc_rows x' !! ns = Some row ∧ answers ns cfg row.
Proof.
  intros [(_ & key & Ha & Hr & _)|(-> & _ & _ & row & Hr & Ha & _)]; [|by exists row].
  eexists. split; [rewrite Hr; apply lookup_insert_eq|done].
Qed.

Lemma upsertActive_writes s req now x :
  factories_explain (cs_registry s) →
  writes_at c (upsertActive s ns req) l now x (λ r x', ∃ x1, (x1 = x ∨ x1 = race now x) ∧
    ((r.1 = None ∧ r.2 ≠ [] ∧ (same_tables x1 x' ∨ same_tables (race now x1) x') ∧
        (c = true → (∀ r, nc_rows x1 !! ns = Some r → row_ok r) →
          ¬ (tx_ok ns lrow (base_half req) (catalog_half req) (race now x1) ∧ catalog_fits s req x1))) ∨
     (∃ cfg row x2, catalog_fits s req x1 ∧ committed req now cfg (race now x1) x2 ∧ nc_rows x2 !! ns = Some row ∧ answers ns cfg row ∧
        key_issued ns cfg x2 r x' ∧ (r.2 ≠ [] → c = false) ∧ only_key ns row x2 r x'))).
Proof.
  intros Hreg. unfold upsertActive.
  eapply at_bind with (λ e x1, (x1 = x ∨ x1 = race now x) ∧ (e = [] → catalog_fits s req x1) ∧
    (e ≠ [] → c = true → (∀ r, nc_rows x1 !! ns = Some r → row_ok r) → ¬ catalog_fits s req x1)).
  { unfold catalog_fits. destruct (catalog_half req) as [cq|] eqn:Ec; [|apply at_ret; split; [by left|]; by split].
    assert (cq_Enabled cq = true) as Hen by (unfold catalog_half in Ec; case_decide; [by injection Ec as <-|done]).
    eapply at_mono; [by apply validateCatalogStrategy_writes|]. intros e x1 (Hx & Hok & Hbad). split; [destruct Hx as [->|[-> _]]; auto|]. split.
    - intros He ? [= <-]. by apply Hok.
    - intros He Hc Hall Hf. by apply (Hbad He Hc Hall), Hf. }
  intros e x1 (Hx & Hok & Hbad). destruct e as [|e0 e]; cbn [nil_err negb].
  2:{ apply at_ret. exists x1. split; [done|]. left. cbn. split; [done|]. split; [done|]. split; [by left|].
      intros Hc Hall [_ Hf]. by apply (Hbad ltac:(done) Hc Hall). }
  specialize (Hok eq_refl). eapply at_bind; [by apply (UpsertWithCatalog_writes ns lrow)|]. intros [cfg|e] x2 Hup; cbv zeta in Hup.
  - fold (committed req now cfg (race now x1) x2) in Hup. destruct (committed_row _ _ _ _ _ Hup) as (row & Hr2 & Ha2).
    eapply at_mono; [by apply (first_key_writes ns cfg row)|]. intros r x' (Hk & Hc & Ho). exists x1. split; [done|]. right.
    exists cfg, row, x2. done.
  - destruct Hup as (He & Hs & Hno). apply at_ret. exists x1. split; [done|]. left. cbn. split; [done|]. split; [done|]. split; [by right|].
    intros Hc _ [Ht _]. by apply (Hno Hc).
Qed.
End active.

(** ** Activation *)

Lemma repo_Activate_spec {X} ns (w : World X) :
  ∃ w1, core_same w w1 ∧ (w_faults w = [] → w1 = w) ∧
    (((repo_Activate ns w).1.2 = [ErrDriver] ∧ w_faults w ≠ [] ∧ (repo_Activate ns w).2 = w1) ∨
     (w_faults w1 = tail (w_faults w) ∧ (repo_Activate ns w).2 = set_ledger (sql_activate (w_now w) ns (w_ledger w)).2 w1 ∧
      ((repo_Activate ns w).1.2 = [] ↔ ∃ row l, sql_activate (w_now w) ns (w_ledger w) = (SqlRow row, l)))).
Proof.
  unfold repo_Activate, run_sql, bind. pose proof (fault_core w) as Hc. unfold fault, pop_fault in *.
  destruct (faults w) as [|[] fs] eqn:Ef; cbn in Ef, Hc; cbn [fst snd].
  - exists w. split; [done|]. split; [done|]. right. rewrite Ef. split; [done|]. split; [done|].
    destruct (sql_activate (w_now w) ns (w_ledger w)) as [[]]; cbn; naive_solver.
  - eexists. split; [exact Hc|]. rewrite Ef. split; [done|]. by left.
  - eexists. split; [exact Hc|]. split; [by rewrite Ef|]. right. rewrite Ef. split; [done|]. split; [done|]. cbn.
    destruct (sql_activate (w_now w) ns (w_ledger w)) as [[]]; cbn; naive_solver.
Qed.

Lemma Activate_cases {X} (c : bool) svc ns (w : World X) :
  (c = true → w_faults w = []) →
  let r := Activate svc ns w in
  w_ext r.2 = w_ext w ∧ w_now r.2 = w_now w ∧ (c = true → w_faults r.2 = []) ∧
  (w_ledger r.2 = w_ledger w ∨ w_ledger r.2 = (sql_activate (w_now w) ns (w_ledger w)).2) ∧
  (r.1.2 = [] → w_ledger r.2 = (sql_activate (w_now w) ns (w_ledger w)).2 ∧ y_state (l_sys (w_ledger w)) = SystemActive ∧
     ∃ row, sql_activate (w_now w) ns (w_ledger w) = (SqlRow row, w_ledger r.2)) ∧
  (c = true → y_state (l_sys (w_ledger w)) = SystemActive → (∃ row l, sql_activate (w_now w) ns (w_ledger w) = (SqlRow row, l)) → r.1.2 = []).
Proof.
  intros Hf. cbv zeta. unfold Activate, bind. destruct c.
  - destruct (acquirePair_balanced svc ns LockExclusive w (Hf eq_refl)) as (g & n & w1 & -> & Hf1 & Hl1 & Hn1 & Hx1 & Hrel). go.
    assert (require_active_system w1 = (if bool_decide (y_state (l_sys (w_ledger w)) = SystemActive) then [] else [ErrSystemResetting], w1)) as ->.
    { unfold require_active_system, repo_GetSystem, run_sql, bind. rewrite fault_nil by done. cbn [fst snd].
      replace (set_ledger (w_ledger w1) w1) with w1 by (by destruct w1). cbn. by rewrite Hl1. }
    case_bool_decide as Hy; go.
    + destruct (repo_Activate_spec ns w1) as (w2 & _ & Hsame & [(_ & ? & _)|(_ & Hw2 & Hiff)]); [done|]. rewrite (Hsame Hf1) in Hw2.
      rewrite Hl1, Hn1 in *. destruct (repo_Activate ns w1) as [out w3]. cbn [fst snd] in *. subst w3.
      destruct (Hrel (set_ledger (sql_activate (w_now w) ns (w_ledger w)).2 w1)) as (w4 & Hr4 & _ & Hl4 & Hx4 & Hn4); [done|].
      pose proof (releasePair_calm n g (set_ledger (sql_activate (w_now w) ns (w_ledger w)).2 w1) Hf1) as Hf4. rewrite Hr4 in Hf4 |- *. cbn in *.
      unfold errors_join. rewrite app_nil_r. split_and!; [congruence|congruence|done|right; congruence| |naive_solver].
      intros He. split; [done|]. split; [done|]. apply Hiff in He as (row & l & He). exists row. rewrite Hl4, He. done.
    + destruct (Hrel w1) as (w4 & Hr4 & _ & Hl4 & Hx4 & Hn4); [done|]. pose proof (releasePair_calm n g w1 Hf1) as Hf4.
      rewrite Hr4 in Hf4 |- *. cbn in *. split_and!; [congruence|congruence|done|left; congruence|done|done].
  - pose proof (acquirePair_core svc ns LockExclusive w) as [Hl1 Hn1 Hx1].
    destruct (acquirePair svc ns LockExclusive w) as [[[g n]|e] w1] eqn:E; cbn [fst snd] in *; go.
    2:{ apply acquirePair_error in E as ->. split_and!; [congruence|congruence|done|left; congruence|done|done]. }
    destruct (require_active_system_spec w1) as (w2 & [Hl2 Hn2 Hx2]%sbf_core & [(e & He & ->)|(Hy & ->)]); cbn [fst snd]; go.
    + apply refusal_not_nil in He. destruct e as [|e0 e]; [done|]. cbn [nil_err]. go. pose proof (releasePair_core n g w2) as [Hl3 Hn3 Hx3].
      destruct (releasePair n g w2) as [e' w3]. cbn in *. split_and!; [congruence|congruence|done|left; congruence|done|done].
    + destruct (repo_Activate_spec ns w2) as (w3 & [Hl3 Hn3 Hx3] & _ & Hcase).
      destruct (repo_Activate ns w2) as [out w4]. cbn [fst snd] in *. pose proof (releasePair_core n g w4) as [Hl5 Hn5 Hx5].
      destruct (releasePair n g w4) as [e' w5]. cbn [fst snd] in *. rewrite Hl2, Hn2, Hl1, Hn1 in Hcase.
      destruct Hcase as [(Ho & _ & ->)|(_ & -> & Hiff)]; cbn in *.
      * rewrite Ho. split_and!; [congruence|congruence|done|left; congruence|done|done].
      * split_and!; [congruence|congruence|done|right; congruence| |done]. unfold errors_join. intros [He ->]%app_eq_nil.
        split; [congruence|]. split; [congruence|]. apply Hiff in He as (row & l & He). exists row. rewrite Hl5, He. done.
Qed.
