(* ===== verification/NsConfigSamples.v ===== *)
(** * Sample configuration services

    Instances of the interfaces of [NsConfig] and a service over them, on which
    the statements about configuration writes are evaluated. *)

From stdpp Require Import base tactics gmap sets strings list.
From Stdlib Require Import ZArith SpecFloat Lia.
From S2P Require Import Prelude GoLib NsNames NsLedger NsService Float64 NamespaceConfig Strategy NsConfig NsConfigRules NsConfigFacts.

#[export] Instance sample_fmt : GoFmt := {| fmt_v _ := "?"; fmt_q s := s |}.
#[export] Instance sample_range : StringRange := {| range_keys A m := map_to_list m; range_keys_perm A m := reflexivity _ |}.
#[export] Program Instance sample_bcrypt : Bcrypt :=
  {| bcrypt_hash _ password := "$" +:+ password; bcrypt_compare h password := bool_decide (h = "$" +:+ password) |}.
Next Obligation. intros n p. by apply bool_decide_eq_true_2. Qed.
Next Obligation. done. Qed.
#[export] Program Instance sample_crypto : CryptoRand := {| rand_bytes n := repeat (N.of_nat n mod 256)%N 32 |}.
Next Obligation.
  intros n. split; [|apply repeat_length]. apply Forall_forall. intros b Hb%list_elem_of_In%repeat_spec. subst b. by apply N.mod_lt.
Qed.
#[export] Instance sample_digest : ProvisionDigest := {| provision_digest req _ := itoa (default 0%Z (uq_MaxResults req)) |}.

Definition sample_registry : Registry :=
  {| reg_factories := {[ ("hash", "v1") := λ _, inl {| st_ID := "hash"; st_Version := "v1"; st_Dim := 64; st_MaxInputBytes := 100; st_Embed _ := inr [] |} ]};
     reg_variants := ∅ |}.

Lemma sample_explain : factories_explain sample_registry.
Proof.
  intros id v p e. unfold Build, sample_registry. cbn. destruct (decide ((id, v) = ("hash", "v1"))) as [->|Hne].
  - by rewrite lookup_singleton_eq.
  - rewrite lookup_singleton_ne by done. by intros [= <-].
Qed.

Definition sample_service : ConfigService := {| cs_registry := sample_registry; cs_checker := true; cs_lifecycle := Some {| svc_pairwise := true |} |}.

Definition sample_stores : NsConfigs := {| nc_rows := ∅; nc_provisions := ∅; nc_collections := ∅; nc_draws := 0; nc_others := [] |}.
Definition sample_world (faults : list bool) (x : NsConfigs) : W :=
  {| w_ledger := {| l_rows := ∅; l_sys := {| y_state := SystemActive; y_disabled_at := None; y_evidence := None; y_last_error := None; y_updated_at := 0 |} |};
     w_now := 1000; w_adv := []; w_lockobjs := ∅; w_next := 0; w_faults := faults; w_ext := x |}.

Definition no_request : UpsertRequest :=
  {| uq_ProvisionAPIKey := ""; uq_ActionWeights := None; uq_Lambda := None; uq_Gamma := None; uq_MaxResults := None; uq_SeenItemsDays := None;
     uq_ExcludeAuthored := None; uq_Paused := None; uq_Alpha := None; uq_DenseSource := None; uq_EmbeddingDim := None; uq_DenseDistance := None;
     uq_CatalogStrategyID := None; uq_CatalogStrategyVersion := None; uq_CatalogStrategyParams := None; uq_TrendingWindow := None;
     uq_TrendingTTL := None; uq_LambdaTrending := None |}.
