(* ===== verification/NsConfigWrites.v ===== *)
(** * Upserts, keys and provisioning

    What [Service.Upsert] and [RotateAPIKey] promise: the keys handed out open
    the namespace, an upsert changes exactly the settings it names, a
    provisioning request can be retried, and a failure leaves the tables alone
    or the namespace without a key, never with half a configuration. *)

From stdpp Require Import base tactics gmap sets strings list.
From Stdlib Require Import ZArith SpecFloat Lia.
From S2P Require Import Prelude GoLib NsNames NsLedger NsService Hoare Utf8 Float64 NamespaceConfig Strategy NsConfig NsConfigRules NsConfigFacts NsConfigSamples.

Lemma activate_row now ns l row l' :
  sql_activate now ns l = (SqlRow row, l') → l_rows l' !! ns = Some row ∧ r_state row = StateActive ∧ l_sys l' = l_sys l.
Proof.
  unfold sql_activate. intros Ha. destruct (l_rows l !! ns) as [r|]; [destruct (r_state r)|].
  all: repeat match type of Ha with context [if ?b then _ else _] => destruct b end; try done.
  all: injection Ha as <- <-; cbn; by rewrite lookup_insert_eq.
Qed.

(** ** The row a request leaves *)

Lemma pg_eqb_refl x : pg_eqb x x = true.
Proof.
  destruct x as [s|s| |s m e]; try done; [by destruct s|]. cbn. unfold f64_eqb, SFeqb, SFcompare.
  destruct s; rewrite Z.compare_refl, Pos.compare_cont_refl; done.
Qed.

Lemma same_recommendations_refl r : same_recommendations r r = true.
Proof. unfold same_recommendations. by rewrite !pg_eqb_refl, !Z.eqb_refl, eqb_reflx. Qed.
Lemma same_signals_refl r : same_signals r r = true.
Proof. unfold same_signals. by rewrite pg_eqb_refl, bool_decide_eq_true_2. Qed.
Lemma same_trending_refl r : same_trending r r = true.
Proof. unfold same_trending. by rewrite !Z.eqb_refl, pg_eqb_refl. Qed.
Lemma same_embeddings_refl r : same_embeddings r r = true.
Proof. unfold same_embeddings. by rewrite Z.eqb_refl, !bool_decide_eq_true_2. Qed.

(** The request selects the catalog source. *)
Definition to_catalog (req : UpsertRequest) : Prop := uq_DenseSource req = Some DenseSourceCatalog.
#[export] Instance to_catalog_dec req : Decision (to_catalog req) := decide (_ = _).

(** Every column after a request, [base] being the row before it: what the
    request names has the value it gives, everything else is kept, and the
    catalog source is only ever entered. *)
Record applied (now : Z) (req : UpsertRequest) (base row : ConfigRow) : Prop := {
  ap_weights : nr_action_weights row = default (nr_action_weights base) (weights_doc <$> uq_ActionWeights req);
  ap_lambda : nr_time_decay_factor row = default (nr_time_decay_factor base) (uq_Lambda req);
  ap_gamma : nr_gamma row = default (nr_gamma base) (uq_Gamma req);
  ap_max_results : nr_max_results row = default (nr_max_results base) (uq_MaxResults req);
  ap_seen_items_days : nr_seen_items_days row = default (nr_seen_items_days base) (uq_SeenItemsDays req);
  ap_exclude_authored : nr_exclude_authored row = default (nr_exclude_authored base) (uq_ExcludeAuthored req);
  ap_alpha : nr_alpha row = default (nr_alpha base) (uq_Alpha req);
  ap_source : nr_dense_source row =
    if decide (to_catalog req ∨ nr_dense_source base = DenseSourceCatalog) then DenseSourceCatalog
    else default (nr_dense_source base) (uq_DenseSource req);
  ap_dim : nr_embedding_dim row = default (nr_embedding_dim base) (uq_EmbeddingDim req);
  ap_distance : nr_dense_distance row = default (nr_dense_distance base) (uq_DenseDistance req);
  ap_window : nr_trending_window row = default (nr_trending_window base) (uq_TrendingWindow req);
  ap_ttl : nr_trending_ttl row = default (nr_trending_ttl base) (uq_TrendingTTL req);
  ap_lambda_trending : nr_lambda_trending row = default (nr_lambda_trending base) (uq_LambdaTrending req);
  ap_strategy :
    (nr_strategy_id row, nr_strategy_version row, nr_strategy_params row) =
    if decide (to_catalog req)
    then (Some (default "" (uq_CatalogStrategyID req)), Some (default "" (uq_CatalogStrategyVersion req)),
          jsonb <$> default ∅ (uq_CatalogStrategyParams req))
    else (nr_strategy_id base, nr_strategy_version base, nr_strategy_params base);
  ap_limits : nr_max_attempts row = nr_max_attempts base ∧ nr_max_content_bytes row = nr_max_content_bytes base;
  ap_identity : nr_generation row = nr_generation base ∧ nr_created_at row = nr_created_at base ∧ nr_updated_at row = now;
  ap_paused : nr_paused_at row = match uq_Paused req with
                                 | None => nr_paused_at base
                                 | Some true => Some (default now (nr_paused_at base))
                                 | Some false => None
                                 end;
  ap_key : ∀ h, nr_api_key_hash base = Some h → nr_api_key_hash row = Some h;
  ap_recommendations : nr_recommendations_revision row =
    (nr_recommendations_revision base + if same_recommendations base row then 0 else 1)%Z;
  ap_signals : nr_signals_revision row = (nr_signals_revision base + if same_signals base row then 0 else 1)%Z;
  ap_trending : nr_trending_revision row = (nr_trending_revision base + if same_trending base row then 0 else 1)%Z;
  ap_embeddings : if same_embeddings base row then nr_embeddings_revision row = nr_embeddings_revision base
                  else (nr_embeddings_revision base < nr_embeddings_revision row <= nr_embeddings_revision base + 2)%Z;
}.

(** The three updates of a transaction on its row. *)
Definition final_row_of (req : UpsertRequest) (key : option string) (now : Z) (row : ConfigRow) : ConfigRow :=
  with_catalog (catalog_half req) now (keyed key (update_row (patched (normalized (base_half req)) now) row)).

(** The trigger, on one update. *)
Lemma update_revisions f r :
  let r' := update_row f r in
  nr_recommendations_revision r' = (nr_recommendations_revision r + if same_recommendations r (f r) then 0 else 1)%Z ∧
  nr_signals_revision r' = (nr_signals_revision r + if same_signals r (f r) then 0 else 1)%Z ∧
  nr_trending_revision r' = (nr_trending_revision r + if same_trending r (f r) then 0 else 1)%Z ∧
  nr_embeddings_revision r' = (nr_embeddings_revision r + if same_embeddings r (f r) then 0 else 1)%Z.
Proof.
  cbv zeta. unfold update_row, advance_revisions. cbn [nr_recommendations_revision nr_signals_revision nr_trending_revision nr_embeddings_revision].
  split_and!; destruct (_ : bool); lia.
Qed.

(** Storing a key advances no revision. *)
Lemma keyed_revisions key row :
  let row' := keyed key row in
  nr_recommendations_revision row' = nr_recommendations_revision row ∧ nr_signals_revision row' = nr_signals_revision row ∧
  nr_trending_revision row' = nr_trending_revision row ∧ nr_embeddings_revision row' = nr_embeddings_revision row.
Proof.
  pose proof (same_recommendations_refl row) as H1. pose proof (same_signals_refl row) as H2.
  pose proof (same_trending_refl row) as H3. pose proof (same_embeddings_refl row) as H4.
  cbv zeta. destruct key as [h|]; [|done]. unfold keyed, update_row, advance_revisions. cbn [nr_recommendations_revision nr_signals_revision nr_trending_revision nr_embeddings_revision].
  change (same_recommendations row (set_key _ _ row)) with (same_recommendations row row). rewrite H1.
  change (same_signals row (set_key _ _ row)) with (same_signals row row). rewrite H2.
  change (same_trending row (set_key _ _ row)) with (same_trending row row). rewrite H3.
  change (same_embeddings row (set_key _ _ row)) with (same_embeddings row row). by rewrite H4.
Qed.

Lemma applied_keyed now req base row h :
  nr_api_key_hash row = None → applied now req base row → applied now req base (keyed (Some h) row).
Proof.
  intros Hk []. destruct (keyed_revisions (Some h) row) as (H1 & H2 & H3 & H4). split; try done.
  - intros h' Hh. apply ap_key0 in Hh. congruence.
  - by rewrite H1.
  - by rewrite H2.
  - by rewrite H3.
  - change (same_embeddings base (keyed (Some h) row)) with (same_embeddings base row). by rewrite H4.
Qed.

(** The catalog half touches the embedding columns only. *)
Lemma catalog_half_revisions cq now row :
  let row' := update_row (catalog_patched cq now) row in
  nr_recommendations_revision row' = nr_recommendations_revision row ∧ nr_signals_revision row' = nr_signals_revision row ∧
  nr_trending_revision row' = nr_trending_revision row ∧
  nr_embeddings_revision row' = (nr_embeddings_revision row + if same_embeddings row (catalog_patched cq now row) then 0 else 1)%Z.
Proof.
  cbv zeta. destruct (update_revisions (catalog_patched cq now) row) as (-> & -> & -> & ->).
  change (same_recommendations row (catalog_patched cq now row)) with (same_recommendations row row). rewrite same_recommendations_refl.
  change (same_signals row (catalog_patched cq now row)) with (same_signals row row). rewrite same_signals_refl.
  change (same_trending row (catalog_patched cq now row)) with (same_trending row row). rewrite same_trending_refl.
  split_and!; try done; lia.
Qed.

Lemma applied_base now req row :
  ¬ to_catalog req → uq_DenseSource req ≠ Some "" → applied now req row (update_row (patched (normalized req) now) row).
Proof.
  intros Hc He. assert (normalized req = req) as ->.
  { unfold normalized. destruct req as [? ? ? ? ? ? ? ? ? src]. cbn in *. destruct src as [[|]|]; done. }
  split; cbn; try done.
  - unfold to_catalog in *. case_bool_decide as Hb; [rewrite decide_True by auto; done|]. rewrite decide_False by naive_solver. done.
  - by rewrite decide_False.
  - change (same_recommendations row _) with (same_recommendations row (patched req now row)). destruct (same_recommendations _ _); lia.
  - change (same_signals row (update_row _ _)) with (same_signals row (patched req now row)). destruct (same_signals _ _); lia.
  - change (same_trending row (update_row _ _)) with (same_trending row (patched req now row)). destruct (same_trending _ _); lia.
  - change (same_embeddings row (update_row _ _)) with (same_embeddings row (patched req now row)). destruct (same_embeddings _ _); lia.
Qed.

Lemma same_embeddings_true r r' :
  same_embeddings r r' = true ↔
  nr_dense_source r = nr_dense_source r' ∧ nr_embedding_dim r = nr_embedding_dim r' ∧ nr_dense_distance r = nr_dense_distance r' ∧
  nr_strategy_id r = nr_strategy_id r' ∧ nr_strategy_version r = nr_strategy_version r' ∧
  nr_strategy_params r = nr_strategy_params r' ∧ nr_max_attempts r = nr_max_attempts r' ∧
  nr_max_content_bytes r = nr_max_content_bytes r'.
Proof. unfold same_embeddings. rewrite !andb_true_iff, !bool_decide_eq_true, Z.eqb_eq. tauto. Qed.

Lemma applied_catalog now req row key :
  to_catalog req → (key ≠ None → nr_api_key_hash row = None) →
  applied now req row (final_row_of req key now row).
Proof.
  intros Hc Hk. unfold final_row_of, catalog_half, base_half. rewrite !decide_True by done. cbn [with_catalog].
  set (cq := {| cq_Enabled := true |}).
  assert (normalized (with_source None req) = with_source None req) as -> by done.
  set (p := update_row (patched (with_source None req) now) row).
  destruct (catalog_half_revisions cq now (keyed key p)) as (Hr1 & Hr2 & Hr3 & Hr4).
  destruct (keyed_revisions key p) as (Hk1 & Hk2 & Hk3 & Hk4).
  set (row' := update_row (catalog_patched cq now) (keyed key p)) in *.
  destruct (update_revisions (patched (with_source None req) now) row) as (Hp1 & Hp2 & Hp3 & Hp4). fold p in Hp1, Hp2, Hp3, Hp4.
  assert (if same_embeddings row row' then nr_embeddings_revision row' = nr_embeddings_revision row
          else (nr_embeddings_revision row < nr_embeddings_revision row' <= nr_embeddings_revision row + 2)%Z) as He.
  { rewrite Hr4, Hk4, Hp4. destruct (same_embeddings row row') eqn:E.
    - apply same_embeddings_true in E as (E1 & E2 & E3 & E4 & E5 & E6 & E7 & E8).
      replace (same_embeddings row _) with true; [replace (same_embeddings (keyed key p) _) with true; [lia|]|]; symmetry; apply same_embeddings_true.
      + unfold row' in *. destruct key; cbn in *; split_and!; try done; try congruence; by case_bool_decide.
      + unfold row' in *. destruct key; cbn in *; split_and!; try done; try congruence; by case_bool_decide.
    - destruct (same_embeddings row (patched _ _ _)) eqn:E1, (same_embeddings (keyed key p) _) eqn:E2; try lia.
      exfalso. apply same_embeddings_true in E1 as (? & ? & ? & _). apply same_embeddings_true in E2 as (? & ? & ? & ? & ? & ? & ? & ?).
      assert (same_embeddings row row' = true); [|congruence]. apply same_embeddings_true. unfold row'. destruct key; cbn in *; split_and!; try done; congruence. }
  destruct key as [h|]; split; try done.
  all: try (change (same_recommendations row row') with (same_recommendations row (patched (with_source None req) now row)); congruence).
  all: try (change (same_signals row row') with (same_signals row (patched (with_source None req) now row)); congruence).
  all: try (change (same_trending row row') with (same_trending row (patched (with_source None req) now row)); congruence).
  all: try (by rewrite decide_True by auto). intros h0 Hh. by rewrite Hk in Hh.
Qed.

Lemma applied_final now req row key :
  uq_DenseSource req ≠ Some "" → (key ≠ None → nr_api_key_hash row = None) → applied now req row (final_row_of req key now row).
Proof.
  intros He Hk. destruct (decide (to_catalog req)) as [Hc|Hc]; [by apply applied_catalog|].
  unfold final_row_of, catalog_half, base_half. rewrite !decide_False by done. cbn [with_catalog].
  destruct key as [h|]; [|by apply applied_base]. apply applied_keyed; [cbn; by apply Hk|by apply applied_base].
Qed.

(** ** What validation guarantees *)

Lemma first_failure_none gs : first_failure gs = None → Forall (λ g, g = None) gs.
Proof. induction gs as [|[e|] gs IH]; intros Hf; [constructor|done|]. constructor; auto. Qed.

Section validated.
Context `{GoFmt, StringRange}.

Lemma validated_weights req : validateUpsert req = None → weights_marshal (uq_ActionWeights req) = true.
Proof.
  intros Hv. apply first_failure_none in Hv. apply Forall_cons in Hv as [_ Hv]. apply Forall_cons in Hv as [Hw _].
  unfold weights_marshal. destruct (uq_ActionWeights req) as [m|]; [|done]. cbn in *. apply bool_decide_eq_true. intros k f Hkf.
  unfold check_weights in Hw. cbn in Hw. destruct (List.find _ (range_keys m)) as [[a v]|] eqn:E; [done|].
  assert ((k, f) ∈ range_keys m) as Hin by (rewrite range_keys_perm; by apply elem_of_map_to_list).
  apply list_elem_of_In in Hin. pose proof (find_none _ _ E _ Hin) as Hn. cbn in Hn. unfold is_finite.
  by apply orb_false_iff in Hn as [-> ->].
Qed.

Lemma validated_source req :
  validateUpsert req = None → uq_DenseSource req ≠ Some "" ∧ source_ok (normalized (base_half req)) = true ∧
  ∀ cq, catalog_half req = Some cq → named cq.
Proof.
  intros Hv. apply first_failure_none in Hv. do 7 apply Forall_cons in Hv as [_ Hv]. apply Forall_cons in Hv as [Hs _].
  unfold check_source in Hs. unfold source_ok, normalized, base_half, catalog_half, named.
  destruct (uq_DenseSource req) as [src|] eqn:Esrc.
  2:{ split; [done|]. rewrite !decide_False by done. cbn. by rewrite Esrc. }
  destruct (bool_decide (src = DenseSourceCatalog)) eqn:Ec; btests.
  - subst src. rewrite !decide_True by done. cbn. split; [done|]. split; [done|].
    intros cq [= <-]. cbn. destruct (_ || _) eqn:En; [done|]. by btests.
  - assert (Some src ≠ Some DenseSourceCatalog) as Hne by congruence. rewrite !decide_False by done. cbn. rewrite Esrc.
    case_decide as Hin; [|done]. destruct src as [|a t].
    { assert (bool_decide ("" ∈ upsertDenseSources) = false) as Hno by (by vm_compute). by apply bool_decide_eq_false in Hno. }
    split; [done|]. split; [|done]. cbn [opt_ok uq_DenseSource with_source]. unfold denseSourceCheck.
    by rewrite (bool_decide_eq_true_2 (_ ∈ upsertDenseSources)), orb_true_r.
Qed.
End validated.

Section service.
Context `{GoFmt, StringRange, Bcrypt, CryptoRand, ProvisionDigest}.

(** The ledger after the activation an upsert starts with. *)
Definition activated (ns : string) {X} (w : World X) : ledger := (sql_activate (w_now w) ns (w_ledger w)).2.

(** The steps of an upsert: refused before its section, or run under the lease. *)
Lemma service_Upsert_cases (c : bool) s svc ctx ns req (w : W) :
  cs_lifecycle s = Some svc → ctx_lease ctx = None → factories_explain (cs_registry s) → (c = true → w_faults w = []) →
  let r := service_Upsert s ctx ns req w in let now := w_now w in
  ∃ x0, (x0 = w_ext w ∨ x0 = race now (w_ext w)) ∧ (w_ledger r.2 = w_ledger w ∨ w_ledger r.2 = activated ns w) ∧
  ((r.1.1 = None ∧ r.1.2 ≠ [] ∧ w_ext r.2 = x0 ∧
      (c = true → ns ≠ "" → (∀ r, nc_rows x0 !! ns = Some r → row_ok r) →
       ¬ (validateUpsert req = None ∧ guarded s ns req x0 ∧ y_state (l_sys (w_ledger w)) = SystemActive ∧
          ∃ row l, sql_activate now ns (w_ledger w) = (SqlRow row, l)))) ∨
   (∃ lrow x1 , w_ledger r.2 = activated ns w ∧ l_rows (activated ns w) !! ns = Some lrow ∧ r_state lrow = StateActive ∧
      y_state (l_sys (activated ns w)) = SystemActive ∧
      validateUpsert req = None ∧ guarded s ns req x0 ∧ (x1 = x0 ∨ x1 = race now x0) ∧
      ((r.1.1 = None ∧ r.1.2 ≠ [] ∧ (same_tables x1 (w_ext r.2) ∨ same_tables (race now x1) (w_ext r.2)) ∧
          (c = true → (∀ r, nc_rows x1 !! ns = Some r → row_ok r) →
            ¬ (tx_ok ns lrow (base_half req) (catalog_half req) (race now x1) ∧ catalog_fits ns s req x1))) ∨
       (∃ cfg row x2, catalog_fits ns s req x1 ∧ committed ns lrow req now cfg (race now x1) x2 ∧ nc_rows x2 !! ns = Some row ∧
          answers ns cfg row ∧ key_issued ns cfg x2 r.1 (w_ext r.2) ∧ (r.1.2 ≠ [] → c = false) ∧ only_key ns row x2 r.1 (w_ext r.2))))).
Proof.
  intros Hlc Hctx Hreg Hf. cbv zeta. unfold service_Upsert. destruct (validateUpsert req) as [[sn tx]|].
  { exists (w_ext w). split; [by left|]. split; [by left|]. left. cbn. split_and!; try done. by intros _ _ _ [? _]. }
  unfold bind. destruct (at_run _ w _ (guard_writes (c := c) s ns req (w_now w) (w_ext w)) Hf) as ((Hx0 & Hgok & Hgbad) & [Hl0 Hn0 _ _] & Hf0).
  destruct (guardEmbeddingDimChange s ns req w) as [e w0]. cbn [fst snd] in *. exists (w_ext w0). split; [done|].
  destruct e as [|e0 e]; cbn [nil_err negb].
  2:{ split; [by left|]. left. cbn. split_and!; try done. intros Hc Hns Hall (_ & Hg & _). by apply (Hgbad ltac:(done) Hc Hns Hall). }
  specialize (Hgok eq_refl). rewrite Hlc. unfold RequireNamespaceLease. rewrite Hctx. cbn [nil_err negb]. unfold bind.
  destruct (Activate_cases c svc ns w0 Hf0) as (Hx1 & Hn1 & Hf1 & Hl1 & Hok1 & Hcalm1). rewrite Hl0, Hn0 in *.
  destruct (Activate svc ns w0) as [[o e] w1]. cbn [fst snd ret] in *. fold (activated ns w) in *.
  destruct e as [|e0 e]; cbn [nil_err negb].
  2:{ split; [done|]. left. cbn. split_and!; try done. intros Hc Hns Hall (_ & _ & Hy & Hsql). by specialize (Hcalm1 Hc Hy Hsql). }
  destruct (Hok1 eq_refl) as (Hl1' & Hy & lrow & Hsql). destruct (activate_row _ _ _ _ _ Hsql) as (Hrow & Hact & Hsys).
  rewrite Hl1' in Hrow, Hsys.
  assert (existing_lease ctx ns = None) as Hle by (unfold existing_lease; by rewrite Hctx).
  edestruct (WithWriter_writes_at c None svc ctx ns (λ _ _, upsertActive s ns req) w1 (λ row r x',
    ∃ x1, (x1 = w_ext w1 ∨ x1 = race (w_now w1) (w_ext w1)) ∧
    ((r.1 = None ∧ r.2 ≠ [] ∧ (same_tables x1 x' ∨ same_tables (race (w_now w1) x1) x') ∧
        (c = true → (∀ r, nc_rows x1 !! ns = Some r → row_ok r) →
          ¬ (tx_ok ns row (base_half req) (catalog_half req) (race (w_now w1) x1) ∧ catalog_fits ns s req x1))) ∨
     (∃ cfg cr x2, catalog_fits ns s req x1 ∧ committed ns row req (w_now w1) cfg (race (w_now w1) x1) x2 ∧ nc_rows x2 !! ns = Some cr ∧
        answers ns cfg cr ∧ key_issued ns cfg x2 r x' ∧ (r.2 ≠ [] → c = false) ∧ only_key ns cr x2 r x'))))
    as (Hl2 & _ & _ & Hcase); [done|done| |].
  { intros row Hr Hs Hy'. by apply upsertActive_writes. }
  destruct (WithWriter None svc ctx ns (λ _ _, upsertActive s ns req) w1) as [r w2]. cbn [fst snd] in *. split; [right; congruence|].
  destruct Hcase as [(e & He & -> & Hx2 & Hno)|(row & Hr & _ & _ & x1 & Hx1' & Hcase)].
  - left. cbn. apply refusal_not_nil in He as Hne. split_and!; [done|done|congruence|]. intros Hc _ _ _. apply (Hno Hc). rewrite Hl1'. split; [by rewrite Hsys|]. by exists lrow.
  - right. rewrite Hl1', Hrow in Hr. injection Hr as <-. rewrite Hn1, Hx1 in *. exists lrow, x1. split_and!; try done; congruence.
Qed.

Lemma provisioning_half req : provisioning (base_half req) ↔ provisioning req.
Proof. unfold provisioning, base_half. by case_decide. Qed.

Lemma committed_provision ns lrow req now cfg x x' :
  committed ns lrow req now cfg x x' → provisioning req →
  bcrypt_compare (cfg_APIKeyHash cfg) (uq_ProvisionAPIKey req) = true ∧
  nc_provisions x' !! ns = Some (digest (base_half req) (catalog_half req)).
Proof.
  assert (uq_ProvisionAPIKey (base_half req) = uq_ProvisionAPIKey req) as Hq by (unfold base_half; by case_decide).
  intros [(_ & key & (_ & _ & Hh & _) & _ & _ & Hn & Hk)|(-> & _ & _ & row & _ & _ & Hp & Hc)] Hprov; [|by rewrite <- Hq].
  destruct key as [h|]; [|destruct (Hn eq_refl) as [[] _]; by apply provisioning_half].
  destruct (Hk h eq_refl) as (_ & Hc & ->). rewrite Hh, lookup_insert_eq. split; [|done]. rewrite <- Hq, <- Hc. f_equal.
  unfold final_row, with_catalog. by destruct (catalog_half req).
Qed.

Lemma rotate_writes {c l} ns now x :
  writes_at c (rotateAPIKeyActive ns) l now x (λ r x',
    ∀ resp, r = (Some resp, []) → ∃ row h, nc_rows x' !! ns = Some row ∧ nr_api_key_hash row = Some h ∧
      rk_APIKey resp ≠ "" ∧ bcrypt_compare h (rk_APIKey resp) = true).
Proof.
  unfold rotateAPIKeyActive.
  eapply at_bind with (λ k x', match k with inl (p, h) => p ≠ "" ∧ bcrypt_compare h p = true | inr e => e ≠ [] end).
  { apply at_generateAPIKey; [done|]. by intros p h x' ? ? ?. }
  intros [[p h]|e] x1 Hk; [|by apply at_ret; intros resp [= ->]].
  eapply at_bind with (λ found x', found = inl true → ∃ row, nc_rows x' !! ns = Some row ∧ nr_api_key_hash row = Some h).
  - apply at_sql; [done|]. unfold sql_replace_key. cbn. destruct (nc_rows (race now x1) !! ns) as [r|]; cbn; [|done].
    split; [done|]. intros _. eexists. split; [by rewrite lookup_insert_eq|done].
  - intros [[]|e] x2 Hf; apply at_ret; intros resp; [|done|done]. intros [= <-]. destruct (Hf eq_refl) as (row & Hr & Hh).
    exists row, h. by destruct Hk.
Qed.

(** C29: The keys handed out are the keys stored, whatever fails and whatever
    other processes commit meanwhile: after a successful upsert the row has a
    key; the plaintext in the answer, if any, opens it, and so does the key of
    a provisioning request, which is never answered with another one. After a
    rotation the new plaintext opens the row. *)
Theorem issued_key_opens s svc ctx ns req (w : W) :
  cs_lifecycle s = Some svc → ctx_lease ctx = None → factories_explain (cs_registry s) →
  (∀ resp, (service_Upsert s ctx ns req w).1 = (Some resp, []) →
     ∃ row h, nc_rows (w_ext (service_Upsert s ctx ns req w).2) !! ns = Some row ∧ nr_api_key_hash row = Some h ∧
       ur_Namespace resp = ns ∧ ur_Generation resp = nr_generation row ∧
       (ur_APIKey resp ≠ "" → bcrypt_compare h (ur_APIKey resp) = true) ∧
       (provisioning req → ur_APIKey resp = "" ∧ bcrypt_compare h (uq_ProvisionAPIKey req) = true)) ∧
  (∀ resp, (RotateAPIKey s ctx ns w).1 = (Some resp, []) →
     ∃ row h, nc_rows (w_ext (RotateAPIKey s ctx ns w).2) !! ns = Some row ∧ nr_api_key_hash row = Some h ∧
       rk_APIKey resp ≠ "" ∧ bcrypt_compare h (rk_APIKey resp) = true).
Proof.
  intros Hlc Hctx Hreg. split; intros resp Hr.
  - destruct (service_Upsert_cases false s svc ctx ns req w Hlc Hctx Hreg ltac:(done)) as (x0 & _ & _ & Hcase). rewrite Hr in Hcase. cbn [fst snd] in Hcase.
    destruct Hcase as [(? & _)|(lrow & x1 & _ & _ & _ & _ & _ & _ & _ & [(? & _)|(cfg & row & x2 & _ & Hcm & Hx2 & Ha & Hk & _ & _)])]; [done|done|].
    destruct Hk as [Hk _]. destruct (Hk eq_refl) as (resp' & row' & h & [= <-] & Hns & Hg & Hrow & Hh & Hkey & Hold).
    exists row', h. split_and!; try done. intros Hp. destruct (committed_provision _ _ _ _ _ _ _ Hcm Hp) as [Hc _].
    assert (cfg_APIKeyHash cfg ≠ "") as Hne by (intros He; rewrite He, bcrypt_too_short in Hc; done).
    destruct (Hold Hne) as [Hx ->]. split; [done|]. destruct Ha as (_ & _ & Hah & _). rewrite Hx in Hrow. assert (row' = row) as -> by congruence.
    rewrite Hah, Hh in Hc. done.
  - unfold RotateAPIKey, with_writer in *. rewrite Hlc in *.
    destruct (WithWriter_writes_at false None svc ctx ns (λ _ _, rotateAPIKeyActive ns) w (λ _ r x', ∀ resp, r = (Some resp, []) →
      ∃ row h, nc_rows x' !! ns = Some row ∧ nr_api_key_hash row = Some h ∧ rk_APIKey resp ≠ "" ∧ bcrypt_compare h (rk_APIKey resp) = true))
      as (_ & _ & _ & Hcase); [unfold existing_lease; by rewrite Hctx|done|intros; apply rotate_writes|].
    rewrite Hr in Hcase. destruct Hcase as [(e & He & [= ->] & _)|(row & _ & _ & _ & HQ)]. by apply HQ.
Qed.

Lemma committed_applied ns lrow req now cfg x x' :
  uq_DenseSource req ≠ Some "" → committed ns lrow req now cfg x x' →
  (∃ row, nc_rows x' = <[ns := row]> (nc_rows x) ∧ answers ns cfg row ∧ outside x x' ∧ applied now req (base_row ns lrow now x) row ∧
     (¬ provisioning req → nc_provisions x' = nc_provisions x ∧ nr_api_key_hash row = nr_api_key_hash (base_row ns lrow now x))) ∨
  (x' = x ∧ provisioning req).
Proof.
  intros Hs [(Hnew & key & Ha & Hr & Ho & Hn & Hk)|(-> & Hp & _)]; [left|right; split; [done|by apply provisioning_half]].
  eexists. split; [exact Hr|]. split; [done|]. split; [done|]. split.
  - apply (applied_final now req (base_row ns lrow now x) key); [done|]. intros Hkey. destruct key as [h|]; [|done].
    destruct (Hk h eq_refl) as (Hp & _). unfold base_row. by rewrite (proj1 (Hnew Hp)).
  - intros Hnp. destruct key as [h|]; [|split; [by apply Hn|unfold final_row, with_catalog; by destruct (catalog_half req)]]. destruct (Hk h eq_refl) as (Hp & _). by destruct Hnp; apply provisioning_half.
Qed.

(** What an upsert that is not a provisioning request needs: valid fields that
    fit their columns, no dense collection in the way of a new dimension, an
    active system, a namespace that is not being deleted, and, to enter the
    catalog source, a strategy of the dimension the request leaves behind. *)
Record acceptable (s : ConfigService) (ns : string) (req : UpsertRequest) (lrow : ns_row) (w : W) : Prop := {
  ac_ns : ns ≠ "";
  ac_valid : validateUpsert req = None;
  ac_plain : ¬ provisioning req;
  ac_guarded : guarded s ns req (w_ext w);
  ac_system : y_state (l_sys (w_ledger w)) = SystemActive;
  ac_active : ∃ l, sql_activate (w_now w) ns (w_ledger w) = (SqlRow lrow, l);
  ac_stored : stored_ok ns lrow (w_ext w);
  ac_fits : update_ok (normalized (base_half req)) = true;
  ac_catalog : opt_ok catalog_ok (catalog_half req) = true;
  ac_strategy : catalog_fits ns s req (w_ext w);
}.

(** C30: An upsert applies what it names: when nothing fails and nobody else
    writes, an acceptable request succeeds, the namespace is active, every column
    the request names has its value and every other column is kept (for a new
    namespace, at the schema's default), save that a namespace whose dense source
    is the catalog keeps it whatever source the request names and enters it only
    together with a strategy; the revision of a group advances exactly when the
    group changed, no other row, provision or collection changes, the row has a
    key afterwards, and the answer carries a plaintext key exactly when the row
    had none before. *)
Theorem upsert_applies_exactly s svc ctx ns req lrow (w : W) :
  cs_lifecycle s = Some svc → ctx_lease ctx = None → factories_explain (cs_registry s) →
  w_faults w = [] → nc_others (w_ext w) = [] → acceptable s ns req lrow w →
  let r := service_Upsert s ctx ns req w in
  ∃ resp row, r.1 = (Some resp, []) ∧ l_rows (w_ledger r.2) !! ns = Some lrow ∧ r_state lrow = StateActive ∧
    nc_rows (w_ext r.2) = <[ns := row]> (nc_rows (w_ext w)) ∧ applied (w_now w) req (base_row ns lrow (w_now w) (w_ext w)) row ∧
    nc_provisions (w_ext r.2) = nc_provisions (w_ext w) ∧ nc_collections (w_ext r.2) = nc_collections (w_ext w) ∧
    is_Some (nr_api_key_hash row) ∧ (ur_APIKey resp ≠ "" ↔ nr_api_key_hash (base_row ns lrow (w_now w) (w_ext w)) = None).
Proof.
  intros Hlc Hctx Hreg Hf Hq [Hns Hv Hnp Hg Hy [l Hsql] Hst Hfit Hcat Hstr]. cbv zeta.
  assert (∀ r, nc_rows (w_ext w) !! ns = Some r → row_ok r) as Hall by (intros r Hr; by apply Hst).
  destruct (validated_source req Hv) as (Hsrc & Hsok & _).
  destruct (service_Upsert_cases true s svc ctx ns req w Hlc Hctx Hreg (λ _, Hf)) as (x0 & Hx0 & _ & Hcase). cbv zeta in Hcase.
  rewrite race_quiet in Hx0 by done. assert (x0 = w_ext w) as -> by (by destruct Hx0).
  destruct Hcase as [(_ & _ & _ & Hno)|(lrow' & x1 & Hl & Hlr & Hla & _ & _ & _ & Hx1 & Hcase)].
  { exfalso. apply (Hno eq_refl Hns Hall). split_and!; try done. by exists lrow, l. }
  rewrite race_quiet in Hx1 by done. assert (x1 = w_ext w) as -> by (by destruct Hx1). rewrite race_quiet in Hcase by done.
  destruct (activate_row _ _ _ _ _ Hsql) as (Hl1 & Hl2 & _). unfold activated in *. rewrite Hsql in *. cbn [snd] in *.
  assert (lrow' = lrow) as -> by congruence.
  destruct Hcase as [(_ & _ & _ & Hno)|(cfg & row & x2 & _ & Hcm & Hx2 & Ha & Hk & Hcalm & Honly)].
  { exfalso. apply (Hno eq_refl Hall). split; [|done]. left. split; [by rewrite provisioning_half|]. split; [|done].
    split; [done|]. split; [|done]. unfold base_half. case_decide; exact (validated_weights req Hv). }
  destruct (service_Upsert s ctx ns req w) as [[o e] w']. cbn [fst snd] in *.
  destruct e as [|e0 e]; [|exfalso; by specialize (Hcalm ltac:(done))].
  destruct (committed_applied _ _ _ _ _ _ _ Hsrc Hcm) as [(row2 & Hrows & _ & [Hcol Hoth] & Hap & Hprov)|[_ ?]]; [|done].
  assert (row2 = row) as -> by (rewrite Hrows, lookup_insert_eq in Hx2; congruence).
  destruct Hk as [Hk _]. destruct (Hk eq_refl) as (resp & row' & h & Ho' & _ & _ & Hr' & Hh & _ & Hold). cbn in Ho'. subst o.
  destruct (Honly ltac:(congruence)) as (_ & Hp & Hc & Hrows'). exists resp, row'. rewrite Hl.
  destruct Hrows' as [[Hsame Hquiet]|(_ & Hnone & (resp' & Hre & Hne) & h' & Hins)].
  - rewrite Hsame in Hr'. assert (row' = row) as -> by congruence. split_and!; try done.
    + congruence.
    + rewrite Hp. by apply Hprov.
    + congruence.
    + destruct (Hquiet resp eq_refl) as [-> [? Hkey]]. split; [done|]. intros Hbase. destruct (Hprov Hnp) as [_ Hkept]. congruence.
  - assert (row' = keyed (Some h') row) as -> by (rewrite Hins, lookup_insert_eq in Hr'; congruence). split_and!; try done.
    + rewrite Hins, Hrows. by rewrite insert_insert_eq.
    + by apply applied_keyed.
    + rewrite Hp. by apply Hprov.
    + congruence.
    + cbn in Hre. assert (resp' = resp) as -> by congruence. split; [|done]. intros _. destruct (Hprov Hnp) as [_ Hkept]. congruence.
Qed.

(** A failed upsert leaves no half-written configuration: whatever fails,
    if nobody else writes, an error leaves every row, provision and collection
    as it was, or, when only the key could not be stored, the configuration
    exactly as requested and without a usable key, so that a retry issues one.
    The lifecycle row is as before or activated. *)
Theorem failed_upsert_is_clean s svc ctx ns req (w : W) :
  cs_lifecycle s = Some svc → ctx_lease ctx = None → factories_explain (cs_registry s) → nc_others (w_ext w) = [] →
  let r := service_Upsert s ctx ns req w in
  r.1.2 ≠ [] →
  r.1.1 = None ∧ nc_provisions (w_ext r.2) = nc_provisions (w_ext w) ∧ nc_collections (w_ext r.2) = nc_collections (w_ext w) ∧
  (w_ledger r.2 = w_ledger w ∨ w_ledger r.2 = activated ns w) ∧
  (nc_rows (w_ext r.2) = nc_rows (w_ext w) ∨
   ∃ lrow row, l_rows (w_ledger r.2) !! ns = Some lrow ∧ nc_rows (w_ext r.2) = <[ns := row]> (nc_rows (w_ext w)) ∧
     applied (w_now w) req (base_row ns lrow (w_now w) (w_ext w)) row ∧ default "" (nr_api_key_hash row) = "").
Proof.
  intros Hlc Hctx Hreg Hq r. subst r.
  destruct (service_Upsert_cases false s svc ctx ns req w Hlc Hctx Hreg ltac:(done)) as (x0 & Hx0 & Hled & Hcase). cbv zeta in Hcase.
  rewrite race_quiet in Hx0 by done. assert (x0 = w_ext w) as -> by (by destruct Hx0). intros He.
  destruct Hcase as [(Hn & _ & -> & _)|(lrow & x1 & Hl & Hlr & Hla & _ & Hv & _ & Hx1 & Hcase)]; [split_and!; auto|].
  rewrite race_quiet in Hx1 by done. assert (x1 = w_ext w) as -> by (by destruct Hx1). rewrite race_quiet in Hcase by done.
  destruct Hcase as [(Hn & _ & Hs & _)|(cfg & row & x2 & _ & Hcm & Hx2 & (_ & _ & Hah & _) & Hk & _ & Honly)].
  { assert (same_tables (w_ext w) (w_ext (service_Upsert s ctx ns req w).2)) as [] by (by destruct Hs). split_and!; auto. }
  destruct Hk as [_ Hk]. destruct (Hk He) as [Hn Hhash]. split; [done|].
  assert (¬ provisioning req) as Hnp.
  { intros Hp. destruct (committed_provision _ _ _ _ _ _ _ Hcm Hp) as [Hc _]. by rewrite Hhash, bcrypt_too_short in Hc. }
  destruct (committed_applied _ _ _ _ _ _ _ (proj1 (validated_source req Hv)) Hcm) as [(row2 & Hrows & _ & [Hcol Hoth] & Hap & Hprov)|[_ ?]]; [|done].
  assert (row2 = row) as -> by (rewrite Hrows, lookup_insert_eq in Hx2; congruence).
  destruct (Honly ltac:(congruence)) as (_ & Hp & Hc & [[Hsame _]|(? & _)]); [|done]. split_and!; [|congruence|done|].
  - rewrite Hp. by apply Hprov.
  - right. exists lrow, row. rewrite Hl. split_and!; [done|congruence|done|congruence].
Qed.

(** The tables as a provisioning request leaves them. *)
Definition provisioned (ns : string) (req : UpsertRequest) (generation : Z) (x : NsConfigs) : Prop :=
  ∃ row, nc_rows x !! ns = Some row ∧ is_Some (decode_weights (nr_action_weights row)) ∧ nr_generation row = generation ∧
    bcrypt_compare (default "" (nr_api_key_hash row)) (uq_ProvisionAPIKey req) = true ∧
    nc_provisions x !! ns = Some (digest (base_half req) (catalog_half req)).

Lemma committed_marshal ns lrow req now cfg x x' :
  committed ns lrow req now cfg x x' → provisioning req → request_marshal (base_half req) = true.
Proof. intros [[Hnew _]|(_ & _ & Hm & _)] Hp; [|done]. apply Hnew. by apply provisioning_half. Qed.

Lemma validated_dim req d : validateUpsert req = None → uq_EmbeddingDim req = Some d → (0 < d)%Z.
Proof.
  intros Hv Hd. apply first_failure_none in Hv. do 8 apply Forall_cons in Hv as [_ Hv]. apply Forall_cons in Hv as [Hc _].
  rewrite Hd in Hc. cbn in Hc. unfold not_positive in Hc. destruct (Z.leb_spec d 0); [done|lia].
Qed.

(** The strategy of a provisioning request is checked against the dimension it
    creates the namespace with. *)
Lemma provision_fits ns s req x x' :
  provisioning req → validateUpsert req = None → catalog_fits ns s req x → catalog_fits ns s req x'.
Proof.
  intros Hp Hv Hf cq Hcq. destruct (Hf cq Hcq) as [Hn Hs]. split; [done|]. revert Hs. unfold requested_dim, effective_dimension.
  rewrite (bool_decide_eq_false_2 (_ = "")) by done. destruct (uq_EmbeddingDim req) as [d|] eqn:Ed; cbn; [|done].
  pose proof (validated_dim req d Hv Ed). by destruct (Z.ltb_spec 0 d); [|lia].
Qed.

Lemma provision_leaves s svc ctx ns req resp (w : W) :
  cs_lifecycle s = Some svc → ctx_lease ctx = None → factories_explain (cs_registry s) → provisioning req →
  (service_Upsert s ctx ns req w).1 = (Some resp, []) →
  let w' := (service_Upsert s ctx ns req w).2 in
  provisioned ns req (ur_Generation resp) (w_ext w') ∧ validateUpsert req = None ∧ request_marshal (base_half req) = true ∧
  (∀ x, catalog_fits ns s req x) ∧ y_state (l_sys (w_ledger w')) = SystemActive ∧
  ∃ lrow, l_rows (w_ledger w') !! ns = Some lrow ∧ r_state lrow = StateActive.
Proof.
  intros Hlc Hctx Hreg Hp Hr.
  destruct (service_Upsert_cases false s svc ctx ns req w Hlc Hctx Hreg ltac:(done)) as (x0 & _ & _ & Hcase). rewrite Hr in Hcase. cbn [fst snd] in Hcase.
  destruct Hcase as [(? & _)|(lrow & x1 & Hl & Hlr & Hla & Hy & Hv & _ & _ & [(? & _)|(cfg & row & x2 & Hfit & Hcm & Hx2 & Ha & Hk & _ & _)])]; [done|done|].
  destruct (committed_provision _ _ _ _ _ _ _ Hcm Hp) as [Hc Hprov]. destruct Hk as [Hk _].
  destruct (Hk eq_refl) as (resp' & row' & h & [= <-] & _ & Hg & Hrow' & _ & _ & Hold).
  assert (cfg_APIKeyHash cfg ≠ "") as Hne by (intros He; rewrite He, bcrypt_too_short in Hc; done).
  destruct (Hold Hne) as [Hx _]. cbv zeta. rewrite Hx, Hl in *. split_and!; [|done|by eapply committed_marshal|by intros x; eapply provision_fits|done|by eexists].
  exists row. destruct Ha as (_ & _ & <- & _ & ?). split_and!; try done. congruence.
Qed.

(** Provisioning can be retried: once a provisioning request has succeeded,
    whatever failed on the way, the same request on the same tables succeeds
    again, is answered with the same generation and no new key and changes
    nothing; a provisioning request with another configuration, or with a key
    that does not open the namespace, is refused and changes nothing. *)
Theorem provisioning_is_idempotent s svc ctx ns req resp (w w2 : W) :
  cs_lifecycle s = Some svc → ctx_lease ctx = None → factories_explain (cs_registry s) → provisioning req → ns ≠ "" →
  (service_Upsert s ctx ns req w).1 = (Some resp, []) →
  same_tables (w_ext (service_Upsert s ctx ns req w).2) (w_ext w2) → nc_others (w_ext w2) = [] →
  w_ledger w2 = w_ledger (service_Upsert s ctx ns req w).2 →
  (w_faults w2 = [] → (∀ r, nc_rows (w_ext w2) !! ns = Some r → row_ok r) →
   ∃ resp2, (service_Upsert s ctx ns req w2).1 = (Some resp2, []) ∧ ur_Generation resp2 = ur_Generation resp ∧ ur_APIKey resp2 = "" ∧
     w_ext (service_Upsert s ctx ns req w2).2 = w_ext w2 ∧ w_ledger (service_Upsert s ctx ns req w2).2 = w_ledger w2) ∧
  (∀ req', provisioning req' →
   digest (base_half req') (catalog_half req') ≠ digest (base_half req) (catalog_half req) ∨
   (∀ row, nc_rows (w_ext w2) !! ns = Some row → bcrypt_compare (default "" (nr_api_key_hash row)) (uq_ProvisionAPIKey req') = false) →
   (service_Upsert s ctx ns req' w2).1.1 = None ∧ (service_Upsert s ctx ns req' w2).1.2 ≠ [] ∧
   same_tables (w_ext w2) (w_ext (service_Upsert s ctx ns req' w2).2)).
Proof.
  intros Hlc Hctx Hreg Hp Hns Hr [Hrows Hprovs _ _] Hq Hled.
  destruct (provision_leaves s svc ctx ns req resp w Hlc Hctx Hreg Hp Hr) as ((row & Hrow & Hdec & Hgen & Hopen & Hpv) & Hv & Hm & Hfit & Hy & lrow & Hlr & Hla).
  rewrite <- Hrows in Hrow. rewrite <- Hprovs in Hpv. rewrite <- Hled in Hy, Hlr.
  pose proof (activate_active ns lrow Hlr Hla Hy (w_now w2)) as Hsql.
  split.
  - intros Hf Hall.
    destruct (service_Upsert_cases true s svc ctx ns req w2 Hlc Hctx Hreg (λ _, Hf)) as (x0 & Hx0 & _ & Hcase). cbv zeta in Hcase.
    rewrite race_quiet in Hx0 by done. assert (x0 = w_ext w2) as -> by (by destruct Hx0).
    destruct Hcase as [(_ & _ & _ & Hno)|(lrow' & x1 & Hl & Hlr' & _ & _ & _ & _ & Hx1 & Hcase)].
    { exfalso. apply (Hno eq_refl Hns Hall). split_and!; [done|by intros _ []|done|by eexists _, _]. }
    rewrite race_quiet in Hx1 by done. assert (x1 = w_ext w2) as -> by (by destruct Hx1). rewrite race_quiet in Hcase by done.
    unfold activated in Hl. rewrite Hsql in Hl. cbn [snd] in Hl.
    assert (uq_ProvisionAPIKey (base_half req) = uq_ProvisionAPIKey req) as Hkey by (unfold base_half; by case_decide).
    destruct Hcase as [(_ & _ & _ & Hno)|(cfg & row2 & x2 & _ & Hcm & Hx2 & (_ & Hg2 & Hh2 & _) & Hk & Hcalm & _)].
    { exfalso. apply (Hno eq_refl Hall). split; [|done]. right. split; [by apply provisioning_half|]. split; [done|]. exists row. rewrite Hkey. done. }
    destruct Hcm as [[Hnew _]|[-> _]]; [destruct (Hnew (proj2 (provisioning_half req) Hp)); congruence|].
    assert (row2 = row) as -> by congruence. destruct (service_Upsert s ctx ns req w2) as [[o e] w']. cbn [fst snd] in *.
    destruct e as [|e0 e]; [|by specialize (Hcalm ltac:(done))]. destruct Hk as [Hk _].
    destruct (Hk eq_refl) as (resp2 & row' & h & Ho & _ & Hg & Hr' & _ & _ & Hold). cbn in Ho. subst o.
    assert (cfg_APIKeyHash cfg ≠ "") as Hne by (intros He; rewrite He in Hh2; rewrite <- Hh2, bcrypt_too_short in Hopen; done).
    destruct (Hold Hne) as [Hx Hnk]. exists resp2. rewrite Hx in *. split_and!; try done. congruence.
  - intros req' Hp' Hdiff.
    destruct (service_Upsert_cases false s svc ctx ns req' w2 Hlc Hctx Hreg ltac:(done)) as (x0 & Hx0 & _ & Hcase). cbv zeta in Hcase.
    rewrite race_quiet in Hx0 by done. assert (x0 = w_ext w2) as -> by (by destruct Hx0).
    destruct Hcase as [(? & ? & -> & _)|(lrow' & x1 & _ & _ & _ & _ & _ & _ & Hx1 & Hcase)]; [done|].
    rewrite race_quiet in Hx1 by done. assert (x1 = w_ext w2) as -> by (by destruct Hx1). rewrite race_quiet in Hcase by done.
    destruct Hcase as [(? & ? & Hs & _)|(cfg & row2 & x2 & _ & Hcm & Hx2 & (_ & _ & Hh2 & _) & _)]; [split_and!; [done|done|by destruct Hs]|].
    exfalso. destruct (committed_provision _ _ _ _ _ _ _ Hcm Hp') as [Hc Hpv2].
    destruct Hcm as [[Hnew _]|[-> _]]; [destruct (Hnew (proj2 (provisioning_half req') Hp')); congruence|].
    destruct Hdiff as [Hd|Hd]; [congruence|]. rewrite Hh2, (Hd row2 Hx2) in Hc. done.
Qed.
End service.

(** ** Witnesses *)

Definition zeros : string := "0000000000000000000000000000000000000000000000000000000000000000".

Lemma issued_key_opens_witness :
  let r := service_Upsert sample_service background "demo" no_request (sample_world [] sample_stores) in
  ∃ row h, nc_rows (w_ext r.2) !! "demo" = Some row ∧ nr_api_key_hash row = Some h ∧ bcrypt_compare h zeros = true.
Proof.
  destruct (issued_key_opens sample_service {| svc_pairwise := true |} background "demo" no_request (sample_world [] sample_stores)) as [Hu _];
    [done|done|apply sample_explain|].
  destruct (Hu {| ur_Namespace := "demo"; ur_Generation := 1; ur_UpdatedAt := 1000; ur_APIKey := zeros |}) as (row & h & Hr & Hh & _ & _ & Ho & _);
    [vm_compute; reflexivity|]. exists row, h. split; [exact Hr|]. split; [exact Hh|]. by apply Ho.
Defined.

(** Enter the catalog source, and nothing else but one limit. *)
Definition catalog_request (strategy : string) : UpsertRequest :=
  {| uq_ProvisionAPIKey := ""; uq_ActionWeights := None; uq_Lambda := None; uq_Gamma := None; uq_MaxResults := Some 20%Z; uq_SeenItemsDays := None;
     uq_ExcludeAuthored := None; uq_Paused := None; uq_Alpha := None; uq_DenseSource := Some DenseSourceCatalog; uq_EmbeddingDim := None;
     uq_DenseDistance := None; uq_CatalogStrategyID := Some strategy; uq_CatalogStrategyVersion := Some "v1"; uq_CatalogStrategyParams := None;
     uq_TrendingWindow := None; uq_TrendingTTL := None; uq_LambdaTrending := None |}.

Definition sample_lifecycle : ns_row :=
  {| r_generation := 1; r_state := StateActive; r_activated_at := 1000; r_legacy := true; r_last_error := None; r_updated_at := 1000 |}.

Lemma sample_acceptable : acceptable sample_service "demo" (catalog_request "hash") sample_lifecycle (sample_world [] sample_stores).
Proof.
  split; try done; try (by vm_compute).
  - by eexists.
  - intros cq [= <-]. split; [done|]. eexists. by split.
Qed.

Lemma upsert_applies_exactly_witness :
  let r := service_Upsert sample_service background "demo" (catalog_request "hash") (sample_world [] sample_stores) in
  ∃ resp row, r.1 = (Some resp, []) ∧ nc_rows (w_ext r.2) !! "demo" = Some row ∧ nr_max_results row = 20%Z ∧
    nr_dense_source row = DenseSourceCatalog ∧ nr_embedding_dim row = 64%Z ∧ ur_APIKey resp ≠ "".
Proof.
  destruct (upsert_applies_exactly sample_service {| svc_pairwise := true |} background "demo" (catalog_request "hash") sample_lifecycle (sample_world [] sample_stores))
    as (resp & row & Hr & _ & _ & Hrows & Hap & _ & _ & _ & Hkey); [done|done|apply sample_explain|done|done|apply sample_acceptable|].
  exists resp, row. split; [exact Hr|]. split; [rewrite Hrows; apply lookup_insert_eq|]. split; [apply (ap_max_results _ _ _ _ Hap)|].
  split; [rewrite (ap_source _ _ _ _ Hap); by rewrite decide_True by (by left)|]. split; [apply (ap_dim _ _ _ _ Hap)|]. by apply Hkey.
Defined.

(** The key of a new namespace could not be stored. *)
Definition key_lost : list bool := repeat false 19 ++ [true].

Lemma failed_upsert_is_clean_witness :
  let r := service_Upsert sample_service background "demo" no_request (sample_world key_lost sample_stores) in
  r.1.2 = [ErrDriver] ∧ size (nc_rows (w_ext r.2)) = 1%nat ∧
  (nc_rows (w_ext r.2) = ∅ ∨ ∃ row, nc_rows (w_ext r.2) = <["demo" := row]> ∅ ∧ default "" (nr_api_key_hash row) = "").
Proof.
  split; [vm_compute; reflexivity|]. split; [vm_compute; reflexivity|].
  destruct (failed_upsert_is_clean sample_service {| svc_pairwise := true |} background "demo" no_request (sample_world key_lost sample_stores))
    as (_ & _ & _ & _ & Hrows); [done|done|apply sample_explain|done|vm_compute; discriminate|].
  destruct Hrows as [Hr|(lrow & row & _ & Hr & _ & Hh)]; [left; exact Hr|right].
  exists row. split; [exact Hr|exact Hh].
Defined.

Definition provision_request (limit : Z) : UpsertRequest :=
  {| uq_ProvisionAPIKey := zeros; uq_ActionWeights := None; uq_Lambda := None; uq_Gamma := None; uq_MaxResults := Some limit; uq_SeenItemsDays := None;
     uq_ExcludeAuthored := None; uq_Paused := None; uq_Alpha := None; uq_DenseSource := None; uq_EmbeddingDim := None; uq_DenseDistance := None;
     uq_CatalogStrategyID := None; uq_CatalogStrategyVersion := None; uq_CatalogStrategyParams := None; uq_TrendingWindow := None;
     uq_TrendingTTL := None; uq_LambdaTrending := None |}.

Lemma provisioning_is_idempotent_witness :
  let r := service_Upsert sample_service background "demo" (provision_request 5) (sample_world [] sample_stores) in
  (∃ resp, (service_Upsert sample_service background "demo" (provision_request 5) r.2).1 = (Some resp, []) ∧ ur_Generation resp = 1%Z) ∧
  (service_Upsert sample_service background "demo" (provision_request 6) r.2).1.1 = None.
Proof.
  pose (w := sample_world [] sample_stores). pose (r := service_Upsert sample_service background "demo" (provision_request 5) w).
  destruct (provisioning_is_idempotent sample_service {| svc_pairwise := true |} background "demo" (provision_request 5)
    {| ur_Namespace := "demo"; ur_Generation := 1; ur_UpdatedAt := 1000; ur_APIKey := "" |} w r.2) as [Hagain Hother];
    [done|done|apply sample_explain|done|done|vm_compute; reflexivity|reflexivity|vm_compute; reflexivity|reflexivity|].
  split.
  - destruct Hagain as (resp & Hr & Hg & _); [vm_compute; reflexivity| |exists resp; by split].
    intros row Hrow. assert (is_Some (nc_rows (w_ext r.2) !! "demo" ≫= λ r, decode_weights (nr_action_weights r)) ∧
      (denseSourceCheck ∘ nr_dense_source <$> nc_rows (w_ext r.2) !! "demo") = Some true) as [Hd Hs] by (vm_compute; by split; [eexists|]).
    rewrite Hrow in Hd, Hs. split; [exact Hd|]. by injection Hs.
  - destruct (Hother (provision_request 6)) as [Hn _]; [done|left; by vm_compute|exact Hn].
Defined.

(** An upsert refused for its strategy leaves no configuration, but the
    activation it began with stays: the namespace is active and has no row. *)
Example refused_strategy_activates :
  let r := service_Upsert sample_service background "demo" (catalog_request "unknown") (sample_world [] sample_stores) in
  r.1 = (None, [ErrUnknownStrategy]) ∧ nc_rows (w_ext r.2) = ∅ ∧ l_rows (w_ledger r.2) !! "demo" = Some sample_lifecycle.
Proof. vm_compute. split_and!; reflexivity. Qed.
