(* ===== verification/NsPatchFacts.v ===== *)
(** * What a configuration patch promises

    [PatchConfiguration] changes a group of settings only from the generation
    and revision its author saw, touches no column outside the group, never the
    shape of existing dense collections, and stores only configurations that
    validate; a validation-only call changes nothing. *)

From stdpp Require Import base tactics gmap sets strings list.
From Stdlib Require Import ZArith Ascii SpecFloat Lia.
From S2P Require Import Prelude GoLib NsNames NsLedger NsService Hoare Utf8 Float64 NamespaceConfig Strategy NsConfig NsConfiguration NsConfigRules NsConfigFacts NsConfigSamples NsConfigWrites.

(** ** Fields *)

(** The groups partition the fields. *)
Definition all_fields : list string := Eval vm_compute in mjoin (fields_of <$> groups).

Lemma view_group ns r g : g ∈ groups → cn_Groups (view ns r) !! g = Some (group_view r g).
Proof.
  intros Hg. unfold view. cbn [cn_Groups]. repeat (apply elem_of_cons in Hg as [->|Hg]; [vm_compute; reflexivity|]). by apply elem_of_nil in Hg.
Qed.

(** Decide a closed statement about names. *)
Ltac known := apply (bool_decide_unpack _); vm_compute; exact I.

Lemma locked_known f : f ∈ ["embedding_dim"; "dense_distance"] → f ∈ fields_of "embeddings" ∧ f ∈ all_fields.
Proof. intros [->| ->%list_elem_of_singleton]%elem_of_cons; split; known. Qed.

Lemma fields_nodup g : g ∈ groups → NoDup (fields_of g).
Proof.
  intros Hg. repeat (apply elem_of_cons in Hg as [->|Hg]; [known|]). by apply elem_of_nil in Hg.
Qed.

Lemma group_values r g f : g ∈ groups → f ∈ fields_of g → cg_Values (group_view r g) !! f = Some (column_value r f).
Proof.
  intros Hg Hf. unfold group_view. cbn [cg_Values]. apply elem_of_list_to_map_1.
  - rewrite <- list_fmap_compose. rewrite (list_fmap_ext _ id) by done. rewrite list_fmap_id. by apply fields_nodup.
  - apply list_elem_of_fmap. by exists f.
Qed.

Lemma view_values ns r f :
  f ∈ all_fields → map_fold (λ _ g m, cg_Values g ∪ m) ∅ (cn_Groups (view ns r)) !! f = Some (column_value r f).
Proof.
  intros Hf. unfold all_fields in Hf. repeat (apply elem_of_cons in Hf as [->|Hf]; [vm_compute; reflexivity|]). by apply elem_of_nil in Hf.
Qed.

Lemma merged_lookup ns r changes f :
  f ∈ all_fields → merged_values (view ns r) changes !! f = Some (default (column_value r f) (changes !! f)).
Proof.
  intros Hf. unfold merged_values. rewrite lookup_union, view_values by done. by destruct (changes !! f).
Qed.

(** Every column of the row a patch stores. *)
Lemma apply_spec changes now r r1 :
  apply_changes changes now r = Some r1 →
  new_col changes "alpha" col_float (nr_alpha r) = Some (nr_alpha r1) ∧ new_col changes "gamma" col_float (nr_gamma r) = Some (nr_gamma r1) ∧
  new_col changes "max_results" col_int (nr_max_results r) = Some (nr_max_results r1) ∧
  new_col changes "seen_items_days" col_int (nr_seen_items_days r) = Some (nr_seen_items_days r1) ∧
  new_col changes "exclude_authored" col_bool (nr_exclude_authored r) = Some (nr_exclude_authored r1) ∧
  new_col changes "action_weights" col_object (nr_action_weights r) = Some (nr_action_weights r1) ∧
  new_col changes "lambda" col_float (nr_time_decay_factor r) = Some (nr_time_decay_factor r1) ∧
  new_col changes "trending_window" col_int (nr_trending_window r) = Some (nr_trending_window r1) ∧
  new_col changes "trending_ttl" col_int (nr_trending_ttl r) = Some (nr_trending_ttl r1) ∧
  new_col changes "lambda_trending" col_float (nr_lambda_trending r) = Some (nr_lambda_trending r1) ∧
  new_col changes "dense_source" col_text (nr_dense_source r) = Some (nr_dense_source r1) ∧
  new_col changes "embedding_dim" col_int (nr_embedding_dim r) = Some (nr_embedding_dim r1) ∧
  new_col changes "dense_distance" col_text (nr_dense_distance r) = Some (nr_dense_distance r1) ∧
  new_col changes "catalog_strategy_id" (col_null col_text) (nr_strategy_id r) = Some (nr_strategy_id r1) ∧
  new_col changes "catalog_strategy_version" (col_null col_text) (nr_strategy_version r) = Some (nr_strategy_version r1) ∧
  new_col changes "catalog_strategy_params" col_object (nr_strategy_params r) = Some (nr_strategy_params r1) ∧
  new_col changes "catalog_max_attempts" (col_null col_int) (nr_max_attempts r) = Some (nr_max_attempts r1) ∧
  new_col changes "catalog_max_content_bytes" (col_null col_int) (nr_max_content_bytes r) = Some (nr_max_content_bytes r1) ∧
  nr_api_key_hash r1 = nr_api_key_hash r ∧ nr_generation r1 = nr_generation r ∧ nr_created_at r1 = nr_created_at r ∧
  nr_paused_at r1 = nr_paused_at r ∧ nr_updated_at r1 = now.
Proof.
  intros Ha. unfold apply_changes in Ha.
  repeat (apply bind_Some in Ha as (? & -> & Ha)). injection Ha as <-. cbn. by split_and!.
Qed.

(** ** Reading and validating *)

(** The row an active namespace has, as [ReadConfiguration] selects it. *)
Definition readable (l : ledger) (ns : string) (x : NsConfigs) (row : ConfigRow) : Prop :=
  nc_rows x !! ns = Some row ∧
  ∃ lrow, l_rows l !! ns = Some lrow ∧ r_state lrow = StateActive ∧ nr_generation row = r_generation lrow.

(** The merged values validate, and a catalog source has a strategy of the
    dimension they name. *)
Definition valid_values `{GoFmt, StringRange} (s : ConfigService) (values : gmap string RawMessage) : Prop :=
  ∃ req, decode_request values = Some req ∧ validateUpsert req = None ∧
    (to_catalog req → ∃ d, uq_EmbeddingDim req = Some d ∧ named (strategy_half req) ∧ strategy_fits s (strategy_half req) d).

Lemma decode_request_spec values req :
  decode_request values = Some req →
  member values "action_weights" decode_floats = Some (uq_ActionWeights req) ∧ member values "lambda" decode_float = Some (uq_Lambda req) ∧
  member values "gamma" decode_float = Some (uq_Gamma req) ∧ member values "max_results" decode_int64 = Some (uq_MaxResults req) ∧
  member values "seen_items_days" decode_int64 = Some (uq_SeenItemsDays req) ∧
  member values "exclude_authored" decode_bool = Some (uq_ExcludeAuthored req) ∧ member values "alpha" decode_float = Some (uq_Alpha req) ∧
  member values "dense_source" decode_string = Some (uq_DenseSource req) ∧ member values "embedding_dim" decode_int64 = Some (uq_EmbeddingDim req) ∧
  member values "dense_distance" decode_string = Some (uq_DenseDistance req) ∧
  member values "catalog_strategy_id" decode_string = Some (uq_CatalogStrategyID req) ∧
  member values "catalog_strategy_version" decode_string = Some (uq_CatalogStrategyVersion req) ∧
  member values "catalog_strategy_params" decode_any = Some (uq_CatalogStrategyParams req) ∧
  member values "trending_window" decode_int64 = Some (uq_TrendingWindow req) ∧ member values "trending_ttl" decode_int64 = Some (uq_TrendingTTL req) ∧
  member values "lambda_trending" decode_float = Some (uq_LambdaTrending req).
Proof.
  intros Hd. unfold decode_request in Hd. repeat (apply bind_Some in Hd as (? & ? & Hd)). injection Hd as <-. cbn. by split_and!.
Qed.

Lemma decode_int_some lo hi v z : decode_int lo hi v = Some z → v ≠ RawNull → ∃ n, v = RawInt n ∧ z = Some n ∧ (lo <= n <= hi)%Z.
Proof. destruct v; cbn; try done. destruct (_ && _) eqn:E; [|done]. intros [= <-] _. btests. by eexists. Qed.

Section validating.
Context `{GoFmt, StringRange} (Error : error → string) {c : bool} {l : ledger}.

Lemma ReadConfiguration_writes repo ns now x :
  writes_at c (ReadConfiguration repo ns) l now x (λ r x', x' = settle repo now x ∧
    match r.1 with
    | Some cfg => r.2 = ok ∧ ∃ row, readable l ns x' row ∧ cfg = view ns row
    | None => r.2.1 ≠ [] ∧ (c = true → ∀ row, ¬ readable l ns x' row)
    end).
Proof.
  unfold ReadConfiguration. eapply at_bind with (λ r x', x' = settle repo now x ∧ match r with
    | inl (Some row) => readable l ns x' row
    | inl None => ∀ row, ¬ readable l ns x' row
    | inr e => e ≠ [] ∧ c = false end).
  - apply at_sql; [by intros ->|]. unfold sql_read, readable. cbn [db_of db_rows db_ledger]. split; [done|]. rewrite set_tables_id. split; [done|].
    destruct (nc_rows (settle repo now x) !! ns) as [r|]; [|by intros row [? _]].
    destruct (l_rows l !! ns) as [lr|]; [|by intros row (_ & ? & ? & _)].
    destruct (bool_decide (r_state lr = StateActive) && (nr_generation r =? r_generation lr)%Z) eqn:E.
    + btests. split; [done|]. by exists lr.
    + intros row ([= <-] & ? & [= <-] & Hs & Hg). rewrite bool_decide_eq_true_2, Hg, Z.eqb_refl in E by done. done.
  - intros [[row|]|e] x' [-> Hr]; apply at_ret; (split; [done|]).
    + split; [done|]. by exists row.
    + by split.
    + cbn. destruct Hr. split; [done|]. congruence.
Qed.

Lemma configurationLocks_writes s ns cfg now x :
  writes_at c (configurationLocks s ns cfg) l now x (λ r x', x' = x ∧
    (r.2 = [] → ∃ b, r.1 = lock_fields b cfg) ∧ (r.2 ≠ [] → c = true → ns = "")).
Proof.
  unfold configurationLocks. destruct (cs_checker s); [|apply at_ret; split; [done|]; split; [by exists false|done]].
  eapply at_bind; [apply at_DenseCollectionsExist|]. intros [b e] ? (-> & _ & Hbad). cbn in Hbad.
  destruct e as [|e0 e]; cbn; apply at_ret; (split; [done|]); cbn; (split; [|done]); [by exists b|done].
Qed.

Lemma check_locks_writes ns current values fields now x :
  writes_at c (check_locks ns current values fields) l now x (λ f x', x' = x ∧
    (f.1 = [] → ∀ g, g ∈ fields → values !! g = (cn_Groups current !! "embeddings" ≫= λ v, cg_Values v !! g) ∨
       ¬ has_dense ns (cn_Generation current) x)).
Proof.
  induction fields as [|f fields IH]; cbn [check_locks]; [apply at_ret; split; [done|]; by intros _ g ?%elem_of_nil|].
  set (stored := match cn_Groups current !! "embeddings" with Some g => cg_Values g !! f | None => None end).
  assert (stored = (cn_Groups current !! "embeddings" ≫= λ v, cg_Values v !! f)) as Hst by (unfold stored; by destruct (_ !! "embeddings")).
  destruct (bool_decide (values !! f = stored)) eqn:E; btests.
  - eapply at_mono; [exact IH|]. intros r ? [-> Hr]. split; [done|]. intros Hok g [->|Hg]%elem_of_cons; [left; congruence|auto].
  - eapply at_bind; [apply at_DenseCollectionsExist|]. intros [b e] ? (-> & Hok & _). cbn in Hok.
    destruct e as [|e0 e]; cbn [nil_err negb]; [|by apply at_ret]. destruct b; [by apply at_ret|].
    eapply at_mono; [exact IH|]. intros r ? [-> Hr]. split; [done|]. intros Hf g [->|Hg]%elem_of_cons; [right; by intros ?%Hok|auto].
Qed.

(** Locks do not change what is compared and stored. *)
Lemma lock_fields_same b cfg :
  cn_Generation (lock_fields b cfg) = cn_Generation cfg ∧
  ∀ g f, (cn_Groups (lock_fields b cfg) !! g ≫= λ v, cg_Values v !! f) = (cn_Groups cfg !! g ≫= λ v, cg_Values v !! f).
Proof.
  destruct b; [|done]. split; [done|]. intros g f. cbn. destruct (decide (g = "embeddings")) as [->|Hne].
  - rewrite lookup_alter_eq. by destruct (cn_Groups cfg !! "embeddings").
  - by rewrite lookup_alter_ne.
Qed.

Lemma validateConfiguration_writes s ns patch current values v now x :
  factories_explain (cs_registry s) → values !! "embedding_dim" = Some v → v ≠ RawNull →
  writes_at c (validateConfiguration Error s ns patch current values) l now x (λ f x', x' = x ∧
    (f.1 = [] → valid_values s values ∧
       (cs_checker s = true → cp_Group patch = "embeddings" → ∀ g, g ∈ ["embedding_dim"; "dense_distance"] →
          values !! g = (cn_Groups current !! "embeddings" ≫= λ v, cg_Values v !! g) ∨ ¬ has_dense ns (cn_Generation current) x))).
Proof.
  intros Hreg Hv Hnn. unfold validateConfiguration.
  destruct (decode_request values) as [req|] eqn:Ed; [|by apply at_ret].
  destruct (validateUpsert req) as [[sn tx]|] eqn:Ev; [by apply at_ret|].
  destruct (opt_ok _ _); [|by apply at_ret]. destruct (existsb _ _); [by apply at_ret|].
  destruct (nil_err _) eqn:El; cbn [negb]; [|apply at_ret; split; [done|]; intros Hf; by rewrite Hf in El].
  assert (∃ d, uq_EmbeddingDim req = Some d ∧ (0 < d)%Z) as (d & Hdim & Hpos).
  { apply decode_request_spec in Ed as (_ & _ & _ & _ & _ & _ & _ & _ & Hd & _). unfold member in Hd. rewrite Hv in Hd. cbn in Hd.
    destruct (decode_int_some _ _ _ _ Hd Hnn) as (d & _ & Hd' & _). exists d. split; [done|]. by apply (validated_dim req). }
  eapply at_bind with (λ e x', x' = x ∧ (e = [] → to_catalog req → named (strategy_half req) ∧ strategy_fits s (strategy_half req) d)).
  { unfold to_catalog. case_decide; [|apply at_ret; by split]. rewrite Hdim.
    destruct (uq_CatalogStrategyID req); [|by apply at_ret]. destruct (uq_CatalogStrategyVersion req); [|by apply at_ret].
    eapply at_mono; [by apply validateCatalogStrategy_writes|]. intros e x' (Hx & Hok & _). unfold effective_dimension in Hok.
    destruct (Z.ltb_spec 0 d); [|lia]. split; [|intros He _; by apply Hok]. destruct Hx as [?|[_ Hx]]; [done|]. specialize (Hx d eq_refl). lia. }
  intros e ? [-> He]. destruct e as [|e0 e]; cbn [nil_err negb]; [|by apply at_ret].
  assert (valid_values s values) as Hvv by (exists req; split_and!; [done|done|]; intros Hc; exists d; split; [done|]; by apply He).
  destruct (cs_checker s && bool_decide (cp_Group patch = "embeddings")) eqn:Eg.
  - eapply at_mono; [apply check_locks_writes|]. intros f ? [-> Hf]. split; [done|]. intros Hok. split; [exact Hvv|]. intros _ _. by apply Hf.
  - apply at_ret. split; [done|]. intros _. split; [exact Hvv|]. intros Hck Hgr. rewrite Hck, bool_decide_eq_true_2 in Eg by done. done.
Qed.
End validating.

(** ** The transaction *)

Section patch.
Context `{GoFmt, StringRange} (Error : error → string).

(** A patch whose shape is right: a known group and only its own fields. *)
Record well_formed (req : ConfigurationPatch) : Prop := {
  wf_group : cp_Group req ∈ groups;
  wf_changes : ∀ f v, cp_Changes req !! f = Some v → f ∈ fields_of (cp_Group req) ∧ (v = RawNull → nullable f = true) ∧ decodes f v = true;
}.

Lemma check_changes_ok group fields changes :
  (check_changes group fields changes).1 = [] →
  ∀ f v, (f, v) ∈ changes → f ∈ fields ∧ (v = RawNull → nullable f = true) ∧ decodes f v = true.
Proof.
  induction changes as [|[f v] changes IH]; cbn [check_changes]; intros Hc f' v' Hin; [by apply elem_of_nil in Hin|].
  destruct (bool_decide (f ∈ fields)) eqn:E1; cbn [negb] in Hc; [|done].
  destruct (bool_decide (v = RawNull) && negb (nullable f)) eqn:E2; [done|]. destruct (decodes f v) eqn:E3; cbn [negb] in Hc; [|done].
  apply elem_of_cons in Hin as [[= -> ->]|Hin]; [|by apply IH]. btests. split; [done|]. split; [|done]. intros ->.
  rewrite bool_decide_eq_true_2 in E2 by done. by destruct (nullable f).
Qed.

Lemma patch_well_formed req : (validateConfigurationPatch req).1 = [] → well_formed req.
Proof.
  unfold validateConfigurationPatch. destruct (configurationFields (cp_Group req)) as [fields|] eqn:Ef; [|done].
  destruct (_ || _); [done|]. intros Hc. split.
  - unfold configurationFields in Ef. repeat (case_bool_decide as Hg; [rewrite Hg; set_solver|clear Hg]). done.
  - intros f v Hfv. unfold fields_of. rewrite Ef. cbn. apply (check_changes_ok _ _ _ Hc). rewrite range_keys_perm. by apply elem_of_map_to_list.
Qed.

Lemma fields_all g f : g ∈ groups → f ∈ fields_of g → f ∈ all_fields.
Proof.
  intros Hg Hf. unfold all_fields. repeat (apply elem_of_cons in Hg as [->|Hg];
    [repeat (apply elem_of_cons in Hf as [->|Hf]; [known|]); by apply elem_of_nil in Hf|]). by apply elem_of_nil in Hg.
Qed.

Lemma allowed_all req : well_formed req → allowed_changes (cp_Group req) (cp_Changes req) = cp_Changes req.
Proof. intros [_ Hch]. unfold allowed_changes. apply map_filter_id. intros f v Hfv. by destruct (Hch f v Hfv). Qed.

Lemma merged_dim ns row req : well_formed req → ∃ v, merged_values (view ns row) (cp_Changes req) !! "embedding_dim" = Some v ∧ v ≠ RawNull.
Proof.
  intros [_ Hch]. rewrite merged_lookup by known. eexists. split; [done|].
  destruct (cp_Changes req !! "embedding_dim") as [v|] eqn:E; cbn; [|done]. intros ->. by destruct (Hch _ _ E) as (_ & Hn & _); specialize (Hn eq_refl).
Qed.

(** What the row must be for the patch to apply. *)
Definition matches (req : ConfigurationPatch) (row : ConfigRow) : Prop :=
  nr_generation row = cp_Generation req ∧ group_revision row (cp_Group req) = cp_BaseRevision req.

Definition unlocked (s : ConfigService) (ns : string) (req : ConfigurationPatch) (row : ConfigRow) (x : NsConfigs) : Prop :=
  cs_checker s = true → cp_Group req = "embeddings" → ∀ f v, f ∈ ["embedding_dim"; "dense_distance"] →
  cp_Changes req !! f = Some v → v = column_value row f ∨ ¬ has_dense ns (nr_generation row) x.

Context {c : bool} {l : ledger}.

Lemma patch_validator_writes s ns req row now x :
  factories_explain (cs_registry s) → well_formed req →
  writes_at c (patch_validator Error s ns req (view ns row) (merged_values (view ns row) (cp_Changes req))) l now x (λ r x', x' = x ∧
    (r.2.1 = [] → valid_values s (merged_values (view ns row) (cp_Changes req)) ∧ unlocked s ns req row x)).
Proof.
  intros Hreg Hwf. unfold patch_validator. eapply at_bind; [apply configurationLocks_writes|]. intros [cur e] ? (-> & Hok & _). cbn in Hok.
  destruct e as [|e0 e]; cbn [nil_err negb]; [|by apply at_ret]. destruct (Hok eq_refl) as [b ->].
  destruct (merged_dim ns row req Hwf) as (v & Hv & Hnn). eapply at_bind; [by eapply validateConfiguration_writes|].
  intros f ? [-> Hf]. apply at_ret. split; [done|]. cbn. intros Hnil. destruct (Hf Hnil) as [Hvv Hun]. split; [done|].
  intros Hck Hgr g v' Hg Hch. destruct (lock_fields_same b (view ns row)) as [Hgen Hval]. specialize (Hun Hck Hgr g Hg).
  destruct (locked_known g Hg) as [Hin Hall]. assert ("embeddings" ∈ groups) as Hemb by known.
  rewrite Hgen, Hval, view_group in Hun by done. cbn [mbind option_bind] in Hun. rewrite group_values in Hun by done.
  destruct Hun as [Hun|]; [left|by right]. rewrite merged_lookup, Hch in Hun by done. by injection Hun.
Qed.

(** From [x] to [x'] the patch wrote [row'] over [row]. *)
Definition rewrote (ns : string) (req : ConfigurationPatch) (now : Z) (row row' : ConfigRow) (x x' : NsConfigs) : Prop :=
  ∃ r1, apply_changes (cp_Changes req) now row = Some r1 ∧ row' = advance_revisions row r1 ∧
    denseSourceCheck (nr_dense_source row') = true ∧ x' = set_nc_rows (<[ns := row']> (nc_rows x)) x.

(** What a patch that was not refused did. *)
Definition patched_ok (s : ConfigService) (ns : string) (req : ConfigurationPatch) (validateOnly : bool) (now : Z) (x x' : NsConfigs) (result : Configuration) : Prop :=
  ∃ row row', readable l ns x row ∧ matches req row ∧ valid_values s (merged_values (view ns row) (cp_Changes req)) ∧ unlocked s ns req row x ∧
    (x' = x ∧ row' = row ∧ (validateOnly = true ∨ cp_Changes req = ∅) ∨ validateOnly = false ∧ rewrote ns req now row row' x x') ∧
    ∃ locks, result = with_locks locks (view ns row').

Lemma write_changes_writes ns req validateOnly row now x :
  well_formed req → nc_rows x !! ns = Some row →
  writes_at c (write_changes ns req validateOnly) l now x (λ e x',
    (e ≠ [] → x' = x) ∧
    (e = [] → ∃ row', x' = x ∧ row' = row ∧ (validateOnly = true ∨ cp_Changes req = ∅) ∨ validateOnly = false ∧ rewrote ns req now row row' x x')).
Proof.
  intros Hwf Hr. unfold write_changes. rewrite (allowed_all req Hwf). destruct validateOnly; cbn [orb].
  { apply at_ret. split; [done|]. intros _. exists row. auto. }
  destruct (bool_decide (cp_Changes req = ∅)) eqn:E; btests; cbn [orb].
  { apply at_ret. split; [done|]. intros _. exists row. auto. }
  eapply at_bind with (λ r x', match r with
    | inr e => e ≠ [] ∧ x' = x
    | inl _ => ∃ row', rewrote ns req now row row' x x' end).
  - apply at_sql; cbn [settle]; [done|]. unfold sql_apply. cbn [db_of db_rows]. rewrite Hr.
    destruct (apply_changes (cp_Changes req) now row) as [r1|] eqn:Ea; [|done]. destruct (denseSourceCheck _) eqn:Ed; [|done].
    split; [done|]. exists (advance_revisions row r1). by exists r1.
  - intros [[]|e] x' Hx; apply at_ret; [|by destruct Hx]. split; [done|]. intros _. destruct Hx as [row' Hx]. exists row'. by right.
Qed.

Lemma readable_rewrote ns req now row row' x x' :
  rewrote ns req now row row' x x' → readable l ns x row → readable l ns x' row'.
Proof.
  intros (r1 & Ha & -> & _ & ->) (_ & lrow & Hl & Hs & Hg). split; [cbn; by rewrite lookup_insert_eq|]. exists lrow. split_and!; try done.
  cbn. rewrite <- Hg. apply apply_spec in Ha. by destruct_and? Ha.
Qed.

Lemma readable_unique ns x r1 r2 : readable l ns x r1 → readable l ns x r2 → r1 = r2.
Proof. intros [? _] [? _]. congruence. Qed.

Lemma change_tx_writes s ns req validateOnly now x :
  factories_explain (cs_registry s) → well_formed req →
  writes_at c (change_tx ns req validateOnly (patch_validator Error s ns req)) l now x (λ r x',
    outside x x' ∧ (r.2 = [] → ∃ result, r.1 = (Some result, None) ∧ patched_ok s ns req validateOnly now x x' result) ∧
    (r.2 ≠ [] → r.1.1 = None) ∧
    (c = true → ∀ row, readable l ns x row → ¬ matches req row → r = ((None, (conflict (view ns row)).2), [ErrConfiguration]))).
Proof.
  intros Hreg Hwf. unfold change_tx. eapply at_bind with (λ r x', x' = x ∧ match r with inl _ => True | inr e => e ≠ [] ∧ c = false end).
  { apply at_sql; cbn [settle]; [by intros ->|]. cbn. by rewrite set_tables_id. }
  intros [[]|e] ? [-> He]; [|destruct He as [? ->]; by apply at_ret].
  eapply at_bind with (λ r x', x' = x ∧ match r with inl o => o = nr_generation <$> nc_rows x !! ns | inr e => e ≠ [] ∧ c = false end).
  { apply at_sql; cbn [settle]; [by intros ->|]. cbn. by rewrite set_tables_id. }
  intros [o|e] ? [-> Ho]; [|destruct Ho as [? ->]; by apply at_ret].
  destruct o as [g|]; [|apply at_ret; split_and!; try done; intros _ row [Hr _]; rewrite Hr in Ho; done].
  eapply at_bind; [apply ReadConfiguration_writes|]. intros [cur f] ? [-> Hrd]. cbn [fst snd settle] in Hrd.
  destruct cur as [cur|]; [|destruct Hrd as [Hne Hno]; apply at_ret; split_and!; [done|done|done|]; intros Hc row Hr; by destruct (Hno Hc row)].
  destruct Hrd as (-> & row & Hrd & ->). cbn [cn_Generation view].
  assert (revision_of (view ns row) (cp_Group req) = group_revision row (cp_Group req)) as ->
    by (unfold revision_of; by rewrite view_group by apply Hwf).
  destruct (negb (nr_generation row =? cp_Generation req)%Z || negb (group_revision row (cp_Group req) =? cp_BaseRevision req)%Z) eqn:Em.
  { apply at_ret. cbn [fst snd]. split_and!; [done|discriminate|done|]. intros _ row2 Hr2 _. by rewrite (readable_unique _ _ _ _ Hrd Hr2). }
  btests. assert (matches req row) as Hmt by done.
  assert (∀ row2, readable l ns x row2 → ¬ matches req row2 → False) as Hcon by (intros row2 Hr2 Hn; by rewrite <- (readable_unique _ _ _ _ Hrd Hr2) in Hn).
  eapply at_bind; [by apply patch_validator_writes|]. intros [cur f] ? [-> Hval]. cbn [fst snd] in Hval.
  destruct (nil_err f.1) eqn:Ef; cbn [negb]; [|apply at_ret; cbn; split_and!; [done|intros Hf; by rewrite Hf in Ef|done|intros _ row2 Hr2 Hn; by destruct (Hcon row2)]].
  assert (f.1 = []) as Hf by (by destruct (f.1)). destruct (Hval Hf) as [Hvv Hun].
  eapply at_bind; [apply (write_changes_writes ns req validateOnly row); [done|apply Hrd]|]. intros e x1 [Hbad Hok].
  destruct e as [|e0 e]; cbn [nil_err negb].
  2:{ rewrite (Hbad ltac:(done)). apply at_ret. cbn. split_and!; [done|done|done|intros _ row2 Hr2 Hn; by destruct (Hcon row2)]. }
  destruct (Hok eq_refl) as (row' & Hx1). assert (readable l ns x1 row') as Hrd1.
  { destruct Hx1 as [(-> & -> & _)|[_ Hw]]; [done|by eapply readable_rewrote]. }
  assert (outside x x1) as Hout by (destruct Hx1 as [(-> & _)|(_ & ? & _ & _ & _ & ->)]; done).
  eapply at_bind; [apply ReadConfiguration_writes|]. intros [res f2] ? [-> Hrd2]. cbn [fst snd settle] in Hrd2. apply at_ret. cbn.
  destruct res as [res|]; cbn.
  - destruct Hrd2 as (-> & row2 & Hr2 & ->). rewrite <- (readable_unique _ _ _ _ Hrd1 Hr2). cbn. split_and!; [done| |done|intros _ row3 Hr3 Hn; by destruct (Hcon row3)].
    intros _. eexists. split; [done|]. exists row, row'. split_and!; [exact Hrd|exact Hmt|exact Hvv|exact Hun|exact Hx1|]. exists cur. reflexivity.
  - destruct Hrd2 as [Hne Hno]. split_and!; [done|done|done|intros _ row3 Hr3 Hn; by destruct (Hcon row3)].
Qed.
End patch.
