(* ===== verification/NsPatch.v ===== *)
(** * Conditional configuration edits

    The theorems about [PatchConfiguration]: an edit applies only to the
    generation and revision its author saw, changes exactly the fields it
    names, never the shape of existing dense collections, and a stale one is
    answered with the current values. *)

From stdpp Require Import base tactics gmap sets strings list.
From Stdlib Require Import ZArith Ascii SpecFloat Lia.
From S2P Require Import Prelude GoLib NsNames NsLedger NsService Hoare Utf8 Float64 NamespaceConfig Strategy NsConfig NsConfiguration NsConfigRules NsConfigFacts NsConfigSamples NsConfigWrites NsPatchFacts.

(** ** The columns of an edit *)

Definition float_fields : list string := ["alpha"; "gamma"; "lambda"; "lambda_trending"].

(** What a column holds after it was set to a value: the value, with integers
    read as doubles where the column is one, and without negative zeros. *)
Definition stored_raw (f : string) (v : RawMessage) : RawMessage :=
  if bool_decide (f ∈ float_fields) then match col_float v with Some z => raw_float z | None => v end
  else match v with RawObject m => RawObject (jsonb <$> m) | _ => v end.

Lemma stored_float f v z : f ∈ float_fields → col_float v = Some z → stored_raw f v = raw_float z.
Proof. intros Hf Hc. unfold stored_raw. by rewrite bool_decide_eq_true_2, Hc by done. Qed.

Lemma stored_other f v v' :
  bool_decide (f ∈ float_fields) = false → match v with RawObject m => RawObject (jsonb <$> m) | _ => v end = v' → stored_raw f v = v'.
Proof. intros Hf Hv. unfold stored_raw. by rewrite Hf. Qed.

Lemma col_int_raw v z : col_int v = Some z → v = RawInt z.
Proof. destruct v; cbn; try done. destruct (in_int4 _); [|done]. by intros [= ->]. Qed.
Lemma col_bool_raw v b : col_bool v = Some b → v = RawBool b.
Proof. destruct v; cbn; try done. by intros [= ->]. Qed.
Lemma col_text_raw v s : col_text v = Some s → v = RawString s.
Proof. destruct v; cbn; try done. destruct (pg_text _); [|done]. by intros [= ->]. Qed.
Lemma col_object_raw v m : col_object v = Some m → ∃ m', v = RawObject m' ∧ m = jsonb <$> m'.
Proof. destruct v; cbn [col_object]; try done. destruct (params_ok _); [|done]. intros [= <-]. by eexists. Qed.
Lemma col_null_text_raw v s : col_null col_text v = Some s → v = raw_text s.
Proof.
  destruct v; cbn; try done; [by intros [= <-]|]. destruct (pg_text _); [|done]. by intros [= <-].
Qed.
Lemma col_null_int_raw v z : col_null col_int v = Some z → v = raw_int z.
Proof.
  destruct v; cbn; try done; [by intros [= <-]|]. destruct (in_int4 _); [|done]. by intros [= <-].
Qed.

(** One column after an edit: [wrap] is how its type reads, [raw] that a value
    the column takes reads as itself. *)
Ltac edited_column r r1 H f proj wrap raw :=
  change (column_value r1 f) with (wrap (proj r1)); change (column_value r f) with (wrap (proj r));
  unfold new_col in H; destruct (_ !! f); [symmetry; apply stored_other; [vm_compute; reflexivity|]; rewrite (raw _ _ H); try (destruct (proj r1)); reflexivity|
    injection H as <-; reflexivity].
Ltac edited_float r r1 H f proj :=
  change (column_value r1 f) with (raw_float (proj r1)); change (column_value r f) with (raw_float (proj r));
  unfold new_col in H; destruct (_ !! f); [symmetry; apply stored_float; [known|exact H]|injection H as <-; reflexivity].
Ltac edited_object r r1 H f proj :=
  change (column_value r1 f) with (RawObject (proj r1)); change (column_value r f) with (RawObject (proj r));
  unfold new_col in H; destruct (_ !! f); [|injection H as <-; reflexivity];
  symmetry; apply stored_other; [vm_compute; reflexivity|]; apply col_object_raw in H as (? & -> & ->); reflexivity.

Lemma edit_field changes now r r1 f :
  apply_changes changes now r = Some r1 → f ∈ all_fields →
  column_value r1 f = match changes !! f with Some v => stored_raw f v | None => column_value r f end.
Proof.
  intros Ha Hf. apply apply_spec in Ha as (H1 & H2 & H3 & H4 & H5 & H6 & H7 & H8 & H9 & H10 & H11 & H12 & H13 & H14 & H15 & H16 & H17 & H18 & _).
  unfold all_fields in Hf. repeat (apply elem_of_cons in Hf as [->|Hf]); [..|by apply elem_of_nil in Hf].
  - edited_float r r1 H1 "alpha" nr_alpha.
  - edited_float r r1 H2 "gamma" nr_gamma.
  - edited_column r r1 H3 "max_results" nr_max_results RawInt col_int_raw.
  - edited_column r r1 H4 "seen_items_days" nr_seen_items_days RawInt col_int_raw.
  - edited_column r r1 H5 "exclude_authored" nr_exclude_authored RawBool col_bool_raw.
  - edited_object r r1 H6 "action_weights" nr_action_weights.
  - edited_float r r1 H7 "lambda" nr_time_decay_factor.
  - edited_column r r1 H8 "trending_window" nr_trending_window RawInt col_int_raw.
  - edited_column r r1 H9 "trending_ttl" nr_trending_ttl RawInt col_int_raw.
  - edited_float r r1 H10 "lambda_trending" nr_lambda_trending.
  - edited_column r r1 H11 "dense_source" nr_dense_source RawString col_text_raw.
  - edited_column r r1 H12 "embedding_dim" nr_embedding_dim RawInt col_int_raw.
  - edited_column r r1 H13 "dense_distance" nr_dense_distance RawString col_text_raw.
  - edited_column r r1 H14 "catalog_strategy_id" nr_strategy_id raw_text col_null_text_raw.
  - edited_column r r1 H15 "catalog_strategy_version" nr_strategy_version raw_text col_null_text_raw.
  - edited_object r r1 H16 "catalog_strategy_params" nr_strategy_params.
  - edited_column r r1 H17 "catalog_max_attempts" nr_max_attempts raw_int col_null_int_raw.
  - edited_column r r1 H18 "catalog_max_content_bytes" nr_max_content_bytes raw_int col_null_int_raw.
Qed.

(** ** Groups and revisions *)

Definition same_group (g : string) (r r' : ConfigRow) : bool :=
  if bool_decide (g = "recommendations") then same_recommendations r r'
  else if bool_decide (g = "signals") then same_signals r r'
  else if bool_decide (g = "trending") then same_trending r r'
  else same_embeddings r r'.

Lemma fields_disjoint g g' f : g ∈ groups → g' ∈ groups → f ∈ fields_of g → f ∈ fields_of g' → g = g'.
Proof.
  intros Hg Hg'. assert (Forall (λ g, Forall (λ g', Forall (λ f, f ∈ fields_of g' → g = g') (fields_of g)) groups) groups) as Hall by known.
  rewrite !Forall_forall in Hall. specialize (Hall g Hg). rewrite Forall_forall in Hall. specialize (Hall g' Hg').
  rewrite Forall_forall in Hall. apply Hall.
Qed.

Lemma group_unchanged req g f : well_formed req → g ∈ groups → g ≠ cp_Group req → f ∈ fields_of g → cp_Changes req !! f = None.
Proof.
  intros [Hg Hch] Hin Hne Hf. destruct (cp_Changes req !! f) as [v|] eqn:E; [|done]. destruct (Hch f v E) as [Hf' _].
  by destruct Hne; eapply fields_disjoint.
Qed.

Lemma group_same req now r r1 g :
  well_formed req → apply_changes (cp_Changes req) now r = Some r1 → g ∈ groups → g ≠ cp_Group req → same_group g r r1 = true.
Proof.
  intros Hwf Ha Hg Hne. pose proof (λ f, group_unchanged req g f Hwf Hg Hne) as Hno.
  apply apply_spec in Ha as (H1 & H2 & H3 & H4 & H5 & H6 & H7 & H8 & H9 & H10 & H11 & H12 & H13 & H14 & H15 & H16 & H17 & H18 & _).
  unfold new_col in *. unfold groups in Hg. repeat (apply elem_of_cons in Hg as [->|Hg]); [..|by apply elem_of_nil in Hg].
  - rewrite !Hno in H1, H2, H3, H4, H5 by known. change (same_recommendations r r1 = true). unfold same_recommendations.
    injection H1 as <-. injection H2 as <-. injection H3 as <-. injection H4 as <-. injection H5 as <-. apply (same_recommendations_refl r).
  - rewrite !Hno in H6, H7 by known. change (same_signals r r1 = true). unfold same_signals. injection H6 as <-. injection H7 as <-. apply (same_signals_refl r).
  - rewrite !Hno in H8, H9, H10 by known. change (same_trending r r1 = true). unfold same_trending.
    injection H8 as <-. injection H9 as <-. injection H10 as <-. apply (same_trending_refl r).
  - rewrite !Hno in H11, H12, H13, H14, H15, H16, H17, H18 by known. change (same_embeddings r r1 = true). apply same_embeddings_true. split_and!; congruence.
Qed.

Lemma group_advance g r r1 : g ∈ groups → group_revision (advance_revisions r r1) g = (group_revision r g + if same_group g r r1 then 0 else 1)%Z.
Proof.
  intros Hg. unfold groups in Hg. destruct (update_revisions (λ _, r1) r) as (H1 & H2 & H3 & H4). unfold update_row in *.
  repeat (apply elem_of_cons in Hg as [->|Hg]); [exact H1|exact H2|exact H3|exact H4|by apply elem_of_nil in Hg].
Qed.

(** What an edit does to the row: the fields it names take their values, every
    other field keeps its own, no other group changes, the revision of the
    group advances by one exactly when its values changed, and key, generation
    and pause are not touched. *)
Record edited (req : ConfigurationPatch) (row row' : ConfigRow) : Prop := {
  ed_fields : ∀ f, f ∈ all_fields →
    column_value row' f = match cp_Changes req !! f with Some v => stored_raw f v | None => column_value row f end;
  ed_own : ∀ f v, cp_Changes req !! f = Some v → f ∈ fields_of (cp_Group req);
  ed_others : ∀ g, g ∈ groups → g ≠ cp_Group req → same_group g row row' = true;
  ed_revisions : ∀ g, g ∈ groups → group_revision row' g = (group_revision row g + if same_group g row row' then 0 else 1)%Z;
  ed_rest : nr_api_key_hash row' = nr_api_key_hash row ∧ nr_generation row' = nr_generation row ∧
    nr_created_at row' = nr_created_at row ∧ nr_paused_at row' = nr_paused_at row;
}.

Lemma rewrote_edited ns req now row row' x x' : well_formed req → rewrote ns req now row row' x x' → edited req row row'.
Proof.
  intros Hwf (r1 & Ha & -> & _ & _). split.
  - intros f Hf. rewrite <- (edit_field _ _ _ _ _ Ha Hf). reflexivity.
  - intros f v Hfv. by destruct (wf_changes _ Hwf f v Hfv).
  - intros g Hg Hne. exact (group_same _ _ _ _ _ Hwf Ha Hg Hne).
  - intros g Hg. exact (group_advance g row r1 Hg).
  - apply apply_spec in Ha. by destruct_and? Ha.
Qed.

(** ** The service *)

Section patch.
Context `{GoFmt, StringRange} (Error : error → string).

Lemma ChangeConfiguration_writes {c l} s ns req validateOnly now x :
  factories_explain (cs_registry s) → well_formed req →
  writes_at c (ChangeConfiguration ns req validateOnly (patch_validator Error s ns req)) l now x (λ r x',
    (r.2 = [] → ∃ result, r.1 = (Some result, None) ∧ patched_ok (l := l) s ns req validateOnly now (race now x) x' result) ∧
    (r.2 ≠ [] → same_tables (race now x) x') ∧
    (c = true → ∀ row, readable l ns (race now x) row → ¬ matches req row → r = ((None, (conflict (view ns row)).2), [ErrConfiguration]))).
Proof.
  intros Hreg Hwf. unfold ChangeConfiguration. apply at_tx; [intros ->; split_and!; [done|intros _; reflexivity|discriminate]|].
  eapply at_mono; [by apply change_tx_writes|]. intros r x' (Ho & Hok & Hnone & Hcon). apply undone_same in Ho. split.
  - intros He. split_and!; [done|done|done].
  - intros He. split; [by split_and!|]. intros ->. split_and!; [done|intros _; exact Ho|discriminate].
Qed.

Lemma refresh_writes {c l} s ns ce now x :
  writes_at c (refresh_locks s ns ce) l now x (λ r x', x' = x ∧ (ce = None → r = (None, [])) ∧
    (∀ k cur, ce = Some k → ce_Current k = Some cur → c = true → ns ≠ "" → r.2 = [] ∧ ∃ b k', r.1 = Some k' ∧
       ce_Status k' = ce_Status k ∧ ce_Code k' = ce_Code k ∧ ce_Current k' = Some (lock_fields b cur))).
Proof.
  unfold refresh_locks. destruct ce as [k|]; [|apply at_ret; split_and!; [done|done|discriminate]].
  destruct (ce_Current k) as [cur|] eqn:Ec; [|apply at_ret; split_and!; [done|done|intros ? ? [= <-]; congruence]].
  eapply at_bind; [apply configurationLocks_writes|]. intros [cur' e] ? (-> & Hok & Hbad). apply at_ret. cbn [fst snd] in *.
  split_and!; [done|done|]. intros ? ? [= <-] Hc Hcalm Hns. rewrite Ec in Hc. injection Hc as <-.
  destruct e as [|e0 e]; [|by destruct Hns; apply Hbad]. split; [done|]. destruct (Hok eq_refl) as [b ->]. exists b. by eexists.
Qed.

Lemma outcome_error result e ce : e ≠ [] → (patch_outcome result e ce).2.1 ≠ [].
Proof. unfold patch_outcome. intros He. destruct (_ || _); [discriminate|]. destruct (errors_is _ _); [discriminate|exact He]. Qed.

(** A patch is refused and changes nothing, or does what the transaction did. *)
Lemma Patch_cases (c : bool) s svc ctx ns req validateOnly (w : W) :
  cs_lifecycle s = Some svc → ctx_lease ctx = None → factories_explain (cs_registry s) → (c = true → w_faults w = []) →
  let r := PatchConfiguration Error s ctx ns req validateOnly w in let now := w_now w in let y := race now (race now (w_ext w)) in
  (w_ledger r.2 = w_ledger w ∧ (c = true → w_faults r.2 = [])) ∧
  (r.1.2.1 ≠ [] ∧ (same_tables (w_ext w) (w_ext r.2) ∨ same_tables (race now (w_ext w)) (w_ext r.2) ∨ same_tables y (w_ext r.2)) ∨
   r.1.2.1 = [] ∧ well_formed req ∧ ∃ result, r.1.1 = Some result ∧ patched_ok (l := w_ledger w) s ns req validateOnly now y (w_ext r.2) result) ∧
  (c = true → ns ≠ "" → (validateConfigurationPatch req).1 = [] → y_state (l_sys (w_ledger w)) = SystemActive → nc_others (w_ext w) = [] →
   ∀ row, readable (w_ledger w) ns (w_ext w) row → ¬ matches req row →
   ∃ ce b, r.1 = (None, ([ErrConfiguration], Some ce)) ∧ ce_Status ce = 409%Z ∧ ce_Code ce = "configuration_conflict" ∧
     ce_Current ce = Some (lock_fields b (view ns row))).
Proof.
  intros Hlc Hctx Hreg Hf. cbv zeta. destruct (PatchConfiguration Error s ctx ns req validateOnly w) as [out w'] eqn:E. cbn [fst snd]. revert E.
  unfold PatchConfiguration. destruct (nil_err (validateConfigurationPatch req).1) eqn:Ev; cbn [negb].
  2:{ intros [= <- <-]. split; [done|]. split; [left; split; [intros He; cbn in He; by rewrite He in Ev|by left]|]. intros _ _ He. by rewrite He in Ev. }
  assert ((validateConfigurationPatch req).1 = []) as Hv by (by destruct (validateConfigurationPatch req).1). pose proof (patch_well_formed req Hv) as Hwf.
  unfold bind at 1. destruct (at_run _ w _ (ReadConfiguration_writes (c := c) Pool ns (w_now w) (w_ext w)) Hf) as ((Hx0 & Hrd) & [Hl0 Hn0 _ _] & Hf0).
  destruct (ReadConfiguration Pool ns w) as [[pre f] w0]. cbn [fst snd settle] in *. rewrite <- Hx0.
  destruct pre as [pre|].
  2:{ intros [= <- <-]. destruct Hrd as [Hne Hno]. split; [done|]. split; [left; split; [exact Hne|right; by left]|]. intros Hc _ _ _ Hq row Hr _.
      rewrite Hx0, race_quiet in Hno by done. by destruct (Hno Hc row). }
  destruct Hrd as (_ & row0 & Hrd0 & _). rewrite Hlc. unfold bind at 1.
  edestruct (WithWriter_writes_at c (None, None) svc ctx ns (λ _ _, ChangeConfiguration ns req validateOnly (patch_validator Error s ns req)) w0
    (λ _ r x', (r.2 = [] → ∃ result, r.1 = (Some result, None) ∧ patched_ok (l := w_ledger w0) s ns req validateOnly (w_now w0) (race (w_now w0) (w_ext w0)) x' result) ∧
      (r.2 ≠ [] → same_tables (race (w_now w0) (w_ext w0)) x') ∧
      (c = true → ∀ row, readable (w_ledger w0) ns (race (w_now w0) (w_ext w0)) row → ¬ matches req row → r = ((None, (conflict (view ns row)).2), [ErrConfiguration]))))
    as (Hl1 & Hn1 & Hf1 & Hcase); [unfold existing_lease; by rewrite Hctx|done|intros row _ _ _; by apply ChangeConfiguration_writes|].
  destruct (WithWriter (None, None) svc ctx ns _ w0) as [[[res ce] e] w1]. cbn [fst snd] in *. rewrite Hn0, Hl0 in *.
  unfold bind at 1. destruct (at_run _ w1 _ (refresh_writes (c := c) s ns ce (w_now w1) (w_ext w1)) Hf1) as ((Hx2 & Hno2 & Hcf2) & [Hl2 Hn2 _ _] & Hf2).
  destruct (refresh_locks s ns ce w1) as [[ce' le] w2]. cbn [fst snd] in *.
  assert (∀ b, (if negb b then ret (None, plain le) else ret (patch_outcome res e ce')) w2 = (if b then patch_outcome res e ce' else (None, plain le), w2)) as Hout by by intros [].
  rewrite Hout. intros [= <- <-]. rewrite Hl2, Hl1, Hx2. split; [by split|].
  destruct Hcase as [(e' & He' & Hr & Hx1 & Hcalm)|(row & Hr & Hs & Hy & Hok & Hbad & Hcon)].
  - injection Hr as -> -> ->. injection (Hno2 eq_refl) as -> ->. cbn [nil_err]. split.
    + left. split; [by apply outcome_error, refusal_not_nil|]. right. left. by rewrite Hx1.
    + intros Hc _ _ Hy Hq row (_ & lrow & Hl & Hs & _) _. destruct (Hcalm Hc). split; [done|]. by exists lrow.
  - destruct e as [|e0 e].
    + destruct (Hok eq_refl) as (result & [= -> ->] & Hp). injection (Hno2 eq_refl) as -> ->. split; [right; split_and!; [done|done|by exists result]|].
      intros Hc Hns _ _ Hq row' Hr' Hm'. rewrite Hx0, !(race_quiet _ (w_ext w)) in Hcon by (rewrite ?race_quiet; done).
      discriminate (Hcon Hc row' Hr' Hm').
    + split; [left; split; [|right; right; by apply Hbad]|].
      * destruct le; [by apply outcome_error|done].
      * intros Hc Hns _ _ Hq row' Hr' Hm'. rewrite Hx0, !(race_quiet _ (w_ext w)) in Hcon by (rewrite ?race_quiet; done).
        injection (Hcon Hc row' Hr' Hm') as -> -> -> ->. destruct (Hcf2 _ _ eq_refl eq_refl Hc Hns) as (-> & b & k' & -> & Hst & Hcd & Hcur).
        exists k', b. cbn in *. done.
Qed.

Lemma same_group_refl g row : same_group g row row = true.
Proof.
  unfold same_group. repeat case_bool_decide; [apply same_recommendations_refl|apply same_signals_refl|apply same_trending_refl|apply same_embeddings_refl].
Qed.

Lemma no_edit req row : cp_Changes req = ∅ → edited req row row.
Proof.
  intros He. split; rewrite ?He.
  - done.
  - intros f v Hf. by rewrite lookup_empty in Hf.
  - intros g _ _. apply same_group_refl.
  - intros g _. rewrite same_group_refl. lia.
  - done.
Qed.

(** A patch that was not refused left the row it found, edited. *)
Lemma patched_edited l s ns req validateOnly now x x' result :
  well_formed req → patched_ok (l := l) s ns req validateOnly now x x' result →
  ∃ row row', readable l ns x row ∧ matches req row ∧ unlocked s ns req row x ∧
    (if validateOnly then row' = row else edited req row row') ∧ x' = set_nc_rows (<[ns := row']> (nc_rows x)) x ∧ ∃ locks, result = with_locks locks (view ns row').
Proof.
  intros Hwf (row & row' & Hrd & Hm & _ & Hun & Hw & locks & ->). exists row, row'. split; [done|]. split; [done|]. split; [done|].
  split; [|split; [|by exists locks]].
  - destruct Hw as [(_ & -> & [->|He])|(-> & Hw)]; [done| |by eapply rewrote_edited]. destruct validateOnly; [done|]. by apply no_edit.
  - destruct Hw as [(-> & -> & _)|(_ & r1 & _ & _ & _ & ->)]; [|done]. destruct Hrd as [Hr _]. rewrite insert_id by done. by destruct x.
Qed.

(** C27: Whatever fails and whatever other processes do meanwhile, a patch that
    is answered with an error leaves the tables as the others left them; one
    that succeeds found, inside its transaction, the active row at the
    generation and group revision it was made from, and leaves that row with
    exactly the named fields of its own group changed (nothing, if only
    validating), which is what it answers. The lifecycle ledger, other rows and
    provisions are not touched either way. *)
Theorem patch_is_conditional s svc ctx ns req validateOnly (w : W) :
  cs_lifecycle s = Some svc → ctx_lease ctx = None → factories_explain (cs_registry s) →
  let r := PatchConfiguration Error s ctx ns req validateOnly w in let now := w_now w in
  w_ledger r.2 = w_ledger w ∧
  (r.1.2.1 ≠ [] → same_tables (w_ext w) (w_ext r.2) ∨ same_tables (race now (w_ext w)) (w_ext r.2) ∨
     same_tables (race now (race now (w_ext w))) (w_ext r.2)) ∧
  (r.1.2.1 = [] → let y := race now (race now (w_ext w)) in ∃ row row', readable (w_ledger w) ns y row ∧
     nr_generation row = cp_Generation req ∧ group_revision row (cp_Group req) = cp_BaseRevision req ∧
     (if validateOnly then row' = row else edited req row row') ∧ w_ext r.2 = set_nc_rows (<[ns := row']> (nc_rows y)) y ∧
     ∃ locks, r.1.1 = Some (with_locks locks (view ns row'))).
Proof.
  intros Hlc Hctx Hreg. cbv zeta. destruct (Patch_cases false s svc ctx ns req validateOnly w Hlc Hctx Hreg ltac:(done)) as ([Hl _] & Hc & _). split; [done|].
  split; intros He; [by destruct Hc as [[_ ?]|[? _]]|]. destruct Hc as [[? _]|(_ & Hwf & result & -> & Hp)]; [done|].
  destruct (patched_edited _ _ _ _ _ _ _ _ _ Hwf Hp) as (row & row' & Hrd & [Hg Hv] & _ & Hed & Hx & locks & ->).
  exists row, row'. split_and!; try done. by exists locks.
Qed.

(** C28: Once the namespace has dense collections, no patch changes the vector
    dimension or the distance they were created with: whatever the outcome, the
    two columns are those the other processes left. *)
Theorem patch_keeps_collections s svc ctx ns req validateOnly row row' (w : W) :
  cs_lifecycle s = Some svc → ctx_lease ctx = None → factories_explain (cs_registry s) → cs_checker s = true →
  nc_others (w_ext w) = [] → nc_rows (w_ext w) !! ns = Some row → has_dense ns (nr_generation row) (w_ext w) →
  nc_rows (w_ext (PatchConfiguration Error s ctx ns req validateOnly w).2) !! ns = Some row' →
  nr_embedding_dim row' = nr_embedding_dim row ∧ nr_dense_distance row' = nr_dense_distance row.
Proof.
  intros Hlc Hctx Hreg Hck Hq Hr Hd Hr'. pose proof (Patch_cases false s svc ctx ns req validateOnly w Hlc Hctx Hreg ltac:(done)) as (_ & Hc & _). cbv zeta in Hc.
  rewrite !(race_quiet _ (w_ext w)) in Hc by (rewrite ?race_quiet; done). destruct Hc as [[_ Hs]|(_ & Hwf & result & _ & Hp)].
  { assert (same_tables (w_ext w) (w_ext (PatchConfiguration Error s ctx ns req validateOnly w).2)) as [Hrows _ _ _] by tauto. rewrite Hrows in Hr'. split; congruence. }
  destruct (patched_edited _ _ _ _ _ _ _ _ _ Hwf Hp) as (row1 & row2 & [Hr1 _] & _ & Hun & Hed & Hx & _).
  rewrite Hx in Hr'. cbn in Hr'. rewrite lookup_insert_eq in Hr'. assert (row1 = row) as -> by congruence. assert (row2 = row') as -> by congruence.
  destruct validateOnly; [by subst|].
  assert (∀ f, f ∈ ["embedding_dim"; "dense_distance"] → column_value row' f = stored_raw f (column_value row f)) as Hcol.
  { intros f Hf. destruct (locked_known f Hf) as [Hemb Hall]. rewrite (ed_fields _ _ _ Hed f Hall).
    destruct (cp_Changes req !! f) as [v|] eqn:Ev; [|by apply elem_of_cons in Hf as [->| ->%list_elem_of_singleton]].
    destruct (wf_changes _ Hwf f v Ev) as [Hown _]. destruct (Hun Hck) with f v as [->|]; [|done..].
    eapply fields_disjoint; [apply Hwf|known|exact Hown|exact Hemb]. }
  specialize (Hcol "embedding_dim" ltac:(known)) as H1. specialize (Hcol "dense_distance" ltac:(known)) as H2. split.
  - change (RawInt (nr_embedding_dim row') = RawInt (nr_embedding_dim row)) in H1. congruence.
  - change (RawString (nr_dense_distance row') = RawString (nr_dense_distance row)) in H2. congruence.
Qed.

(** Nothing fails and nobody else writes. *)
Record calm (w : W) : Prop := {
  ca_faults : w_faults w = [];
  ca_others : nc_others (w_ext w) = [];
  ca_system : y_state (l_sys (w_ledger w)) = SystemActive;
}.

(** The answer to a patch made from an older revision of [row]. *)
Definition conflicted (ns : string) (row : ConfigRow) (answer : option Configuration * failure) : Prop :=
  ∃ ce b, answer = (None, ([ErrConfiguration], Some ce)) ∧ ce_Status ce = 409%Z ∧ ce_Code ce = "configuration_conflict" ∧
    ce_Current ce = Some (lock_fields b (view ns row)).

Lemma stale_refused s svc ctx ns req validateOnly row (w : W) :
  cs_lifecycle s = Some svc → ctx_lease ctx = None → factories_explain (cs_registry s) → calm w → ns ≠ "" →
  (validateConfigurationPatch req).1 = [] → readable (w_ledger w) ns (w_ext w) row → ¬ matches req row →
  let r := PatchConfiguration Error s ctx ns req validateOnly w in
  conflicted ns row r.1 ∧ same_tables (w_ext w) (w_ext r.2) ∧ w_ledger r.2 = w_ledger w.
Proof.
  intros Hlc Hctx Hreg [Hf Hq Hy] Hns Hv Hrd Hm. cbv zeta.
  destruct (Patch_cases true s svc ctx ns req validateOnly w Hlc Hctx Hreg ltac:(done)) as ([Hl _] & Hc & Hcon).
  destruct (Hcon eq_refl Hns Hv Hy Hq row Hrd Hm) as (ce & b & Hr & Hce). split; [by exists ce, b|]. split; [|done].
  rewrite !(race_quiet _ (w_ext w)) in Hc by (rewrite ?race_quiet; done). destruct Hc as [[_ ?]|[He _]]; [tauto|]. by rewrite Hr in He.
Qed.

(** When nothing fails, a well-formed patch made from a generation or group
    revision the namespace no longer has is answered with 409
    configuration_conflict and the current values of every group, and changes
    nothing. *)
Theorem stale_patch_conflicts s svc ctx ns req validateOnly row (w : W) :
  cs_lifecycle s = Some svc → ctx_lease ctx = None → factories_explain (cs_registry s) → calm w → ns ≠ "" →
  (validateConfigurationPatch req).1 = [] → readable (w_ledger w) ns (w_ext w) row →
  (nr_generation row ≠ cp_Generation req ∨ group_revision row (cp_Group req) ≠ cp_BaseRevision req) →
  let r := PatchConfiguration Error s ctx ns req validateOnly w in
  (∃ ce b, r.1 = (None, ([ErrConfiguration], Some ce)) ∧ ce_Status ce = 409%Z ∧ ce_Code ce = "configuration_conflict" ∧
     ce_Current ce = Some (lock_fields b (view ns row))) ∧ same_tables (w_ext w) (w_ext r.2) ∧ w_ledger r.2 = w_ledger w.
Proof.
  intros Hlc Hctx Hreg Hcalm Hns Hv Hrd Hm. eapply stale_refused; [done..|]. intros [? ?]. by destruct Hm.
Qed.

(** Of two administrators who edit the same group from the same revision,
    the second never overwrites the first: once a patch that changed the group
    has succeeded, the patch of the other is answered with the conflict and the
    values the first one wrote, and the row keeps them; the revisions of the
    other groups are unchanged. *)
Theorem second_editor_is_told s svc ctx ctx2 ns req1 req2 validateOnly row row1 (w : W) :
  cs_lifecycle s = Some svc → ctx_lease ctx = None → ctx_lease ctx2 = None → factories_explain (cs_registry s) → calm w → ns ≠ "" →
  let r1 := PatchConfiguration Error s ctx ns req1 false w in
  r1.1.2.1 = [] → nc_rows (w_ext w) !! ns = Some row → nc_rows (w_ext r1.2) !! ns = Some row1 →
  same_group (cp_Group req1) row row1 = false →
  (validateConfigurationPatch req2).1 = [] → cp_Group req2 = cp_Group req1 → cp_BaseRevision req2 = cp_BaseRevision req1 →
  let r2 := PatchConfiguration Error s ctx2 ns req2 validateOnly r1.2 in
  conflicted ns row1 r2.1 ∧ nc_rows (w_ext r2.2) !! ns = Some row1 ∧
  (∀ g, g ∈ groups → g ≠ cp_Group req1 → group_revision row1 g = group_revision row g).
Proof.
  intros Hlc Hctx Hctx2 Hreg [Hf Hq Hy] Hns. cbv zeta. intros He Hrow Hrow1 Hdiff Hv2 Hg2 Hb2.
  destruct (Patch_cases true s svc ctx ns req1 false w Hlc Hctx Hreg ltac:(done)) as ([Hl1 Hf1] & Hc & _). cbv zeta in *.
  destruct (PatchConfiguration Error s ctx ns req1 false w) as [out w1]. cbn [fst snd] in *.
  rewrite !(race_quiet _ (w_ext w)) in Hc by (rewrite ?race_quiet; done). destruct Hc as [[? _]|(_ & Hwf & result & _ & Hp)]; [done|].
  destruct (patched_edited _ _ _ _ _ _ _ _ _ Hwf Hp) as (row0 & row2 & Hrd & [_ Hbase] & _ & Hed & Hx & _).
  assert (row0 = row) as -> by (destruct Hrd; congruence).
  assert (row2 = row1) as -> by (rewrite Hx in Hrow1; cbn in Hrow1; rewrite lookup_insert_eq in Hrow1; congruence).
  destruct (stale_refused s svc ctx2 ns req2 validateOnly row1 w1) as (Hcon & [Hst _ _ _] & _); try done.
  - split; [by apply Hf1|by rewrite Hx|by rewrite Hl1].
  - destruct Hrd as (_ & lrow & Hl & Hs & Hg). split; [done|]. exists lrow. rewrite Hl1. split_and!; [done|done|].
    destruct (ed_rest _ _ _ Hed) as (_ & -> & _). done.
  - intros [_ Hm]. rewrite Hg2, Hb2, (ed_revisions _ _ _ Hed) in Hm by apply Hwf. rewrite Hdiff in Hm. lia.
  - split; [done|]. split; [by rewrite Hst|]. intros g Hg Hne. rewrite (ed_revisions _ _ _ Hed) by done.
    rewrite (ed_others _ _ _ Hed g Hg Hne). lia.
Qed.
End patch.

(** ** Witnesses *)

(** A namespace whose catalog is embedded with 64 dimensions. *)
Definition served : W := (service_Upsert sample_service background "demo" (catalog_request "hash") (sample_world [] sample_stores)).2.
Definition served_row : ConfigRow := default (new_row 0 0) (nc_rows (w_ext served) !! "demo").

Definition sample_patch (group : string) (base : Z) (changes : gmap string RawMessage) : ConfigurationPatch :=
  {| cp_Group := group; cp_Generation := 1; cp_BaseRevision := base; cp_Changes := changes |}.
Definition edit_limit (base limit : Z) : ConfigurationPatch := sample_patch "recommendations" base {[ "max_results" := RawInt limit ]}.

Definition quoted (e : error) : string := String.concat ": " e.

Lemma served_calm : calm served.
Proof. split; vm_compute; reflexivity. Qed.

Lemma served_readable : readable (w_ledger served) "demo" (w_ext served) served_row.
Proof. split; [vm_compute; reflexivity|]. exists sample_lifecycle. split_and!; vm_compute; reflexivity. Qed.

Lemma patch_is_conditional_witness :
  let r := PatchConfiguration quoted sample_service background "demo" (edit_limit 2 30) false served in
  r.1.2.1 = [] ∧ ∃ row, nc_rows (w_ext r.2) !! "demo" = Some row ∧ column_value row "max_results" = RawInt 30 ∧
    column_value row "embedding_dim" = RawInt 64 ∧ group_revision row "embeddings" = 2%Z.
Proof.
  cbv zeta. assert ((PatchConfiguration quoted sample_service background "demo" (edit_limit 2 30) false served).1.2.1 = []) as He by (vm_compute; reflexivity).
  split; [exact He|].
  destruct (patch_is_conditional quoted sample_service {| svc_pairwise := true |} background "demo" (edit_limit 2 30) false served)
    as (_ & _ & Hok); [reflexivity|reflexivity|apply sample_explain|].
  destruct (Hok He) as (row & row' & Hrd & _ & _ & Hed & Hx & _). cbv beta iota in Hed. rewrite !race_quiet in Hrd, Hx by (rewrite ?race_quiet; vm_compute; reflexivity).
  exists row'. split; [rewrite Hx; cbn; apply lookup_insert_eq|]. rewrite (readable_unique _ _ _ _ Hrd served_readable) in Hed.
  split_and!.
  - rewrite (ed_fields _ _ _ Hed) by known. vm_compute. reflexivity.
  - rewrite (ed_fields _ _ _ Hed) by known. vm_compute. reflexivity.
  - rewrite (ed_revisions _ _ _ Hed), (ed_others _ _ _ Hed) by (known || done). vm_compute. reflexivity.
Defined.

(** The namespace with its object collection. *)
Definition collected : W := set_ext {| nc_rows := nc_rows (w_ext served); nc_provisions := nc_provisions (w_ext served);
  nc_collections := list_to_set (option_list (Incarnation_MustPhysicalName (NewIncarnation "demo" 1) KindObjectsDense));
  nc_draws := nc_draws (w_ext served); nc_others := [] |} served.
Definition edit_dim (dim : Z) : ConfigurationPatch := sample_patch "embeddings" 2 {[ "embedding_dim" := RawInt dim; "catalog_max_attempts" := RawInt 3 ]}.

Lemma patch_keeps_collections_witness :
  ∃ row', nc_rows (w_ext (PatchConfiguration quoted sample_service background "demo" (edit_dim 128) false collected).2) !! "demo" = Some row' ∧
    nr_embedding_dim row' = 64%Z.
Proof.
  pose (row' := default served_row (nc_rows (w_ext (PatchConfiguration quoted sample_service background "demo" (edit_dim 128) false collected).2) !! "demo")).
  assert (nc_rows (w_ext (PatchConfiguration quoted sample_service background "demo" (edit_dim 128) false collected).2) !! "demo" = Some row') as Hr
    by (vm_compute; reflexivity).
  exists row'. split; [exact Hr|].
  destruct (patch_keeps_collections quoted sample_service {| svc_pairwise := true |} background "demo" (edit_dim 128) false served_row row' collected) as [Hd _];
    [reflexivity|reflexivity|apply sample_explain|reflexivity|vm_compute; reflexivity|vm_compute; reflexivity| |exact Hr|].
  - exists KindObjectsDense. eexists. split; [known|]. split; [vm_compute; reflexivity|]. apply (bool_decide_unpack _). vm_compute. exact I.
  - rewrite Hd. vm_compute. reflexivity.
Defined.

Lemma stale_patch_conflicts_witness :
  let r := PatchConfiguration quoted sample_service background "demo" (edit_limit 1 30) false served in
  (∃ ce, r.1.2 = ([ErrConfiguration], Some ce) ∧ ce_Status ce = 409%Z) ∧ nc_rows (w_ext r.2) !! "demo" = Some served_row.
Proof.
  destruct (stale_patch_conflicts quoted sample_service {| svc_pairwise := true |} background "demo" (edit_limit 1 30) false served_row served)
    as ((ce & b & Hr & Hs & _) & [Hrows _ _ _] & _);
    [reflexivity|reflexivity|apply sample_explain|exact served_calm|discriminate|vm_compute; reflexivity|exact served_readable|right; vm_compute; discriminate|].
  split; [exists ce; rewrite Hr; by split|]. rewrite Hrows. apply served_readable.
Defined.

Lemma second_editor_is_told_witness :
  let r1 := PatchConfiguration quoted sample_service background "demo" (edit_limit 2 30) false served in
  let r2 := PatchConfiguration quoted sample_service background "demo" (edit_limit 2 40) false r1.2 in
  ∃ row1, nr_max_results row1 = 30%Z ∧ conflicted "demo" row1 r2.1 ∧ nc_rows (w_ext r2.2) !! "demo" = Some row1.
Proof.
  cbv zeta. pose (row1 := default served_row (nc_rows (w_ext (PatchConfiguration quoted sample_service background "demo" (edit_limit 2 30) false served).2) !! "demo")).
  exists row1. split; [vm_compute; reflexivity|].
  destruct (second_editor_is_told quoted sample_service {| svc_pairwise := true |} background background "demo" (edit_limit 2 30) (edit_limit 2 40) false served_row row1 served)
    as (Hc & Hr & _); [reflexivity|reflexivity|reflexivity|apply sample_explain|exact served_calm|discriminate|vm_compute; reflexivity|vm_compute; reflexivity|
      vm_compute; reflexivity|vm_compute; reflexivity|vm_compute; reflexivity|reflexivity|reflexivity|]. by split.
Defined.

(** An upsert that names only a dimension is not checked against the strategy of
    a catalog source: the row keeps the 64-dimensional strategy. *)
Definition only_dim (dim : Z) : UpsertRequest :=
  {| uq_ProvisionAPIKey := ""; uq_ActionWeights := None; uq_Lambda := None; uq_Gamma := None; uq_MaxResults := None; uq_SeenItemsDays := None;
     uq_ExcludeAuthored := None; uq_Paused := None; uq_Alpha := None; uq_DenseSource := None; uq_EmbeddingDim := Some dim; uq_DenseDistance := None;
     uq_CatalogStrategyID := None; uq_CatalogStrategyVersion := None; uq_CatalogStrategyParams := None; uq_TrendingWindow := None;
     uq_TrendingTTL := None; uq_LambdaTrending := None |}.

Example upsert_dim_leaves_strategy :
  let r := service_Upsert sample_service background "demo" (only_dim 128) served in
  r.1.2 = [] ∧ (λ row, (nr_dense_source row, nr_embedding_dim row, nr_strategy_id row)) <$> nc_rows (w_ext r.2) !! "demo" =
    Some (DenseSourceCatalog, 128%Z, Some "hash").
Proof. vm_compute. split; reflexivity. Qed.
