(* ===== verification/Access.v ===== *)
(** * Operator accounts, sessions and service tokens

    [internal/core/access]: the shared PostgreSQL identity store at READ
    COMMITTED. Before every statement, inside a transaction as well, and before
    a commit, other replicas commit what the script [ax_others] says, except
    what has to wait for a lock the open transaction holds; they also act
    between the snapshot of the statement that issues a session and its
    insertion. A statement sees what is committed and what its own transaction
    wrote; the others see the transaction's writes when it commits. Timestamps
    keep their nanoseconds and all processes share a clock. *)

From stdpp Require Import base tactics gmap sets strings list sorting.
From Stdlib Require Import ZArith Ascii Lia.
From S2P Require Import Prelude GoLib NsNames NsLedger NsService Utf8 NsConfig ComputeVectors.

(** [crypto/sha256] *)
Class Sha256 := { sha256 : string → list N }.

(** ** types.go *)

Definition ErrCredentials : string := "access.ErrCredentials".
Definition ErrConflict : string := "access.ErrConflict".
Definition ErrInvalid : string := "access.ErrInvalid".
Definition ErrThrottled : string := "access.ErrThrottled".

Record Actor := {
  a_Name : string;
  a_Role : string;
  a_Permissions : list string;
  a_Namespaces : list string;
  a_Version : Z;
}.

Definition no_actor : Actor := {| a_Name := ""; a_Role := ""; a_Permissions := []; a_Namespaces := []; a_Version := 0 |}.

Definition Allows (a : Actor) (permission namespace : string) : bool :=
  if bool_decide (a_Role a = "owner") then true
  else if bool_decide (a_Role a = "admin") then bool_decide (permission = "admin:read") || bool_decide (permission = "admin:write")
  else bool_decide (permission ∈ a_Permissions a) &&
       (bool_decide (namespace = "") || bool_decide ("*" ∈ a_Namespaces a) || bool_decide (namespace ∈ a_Namespaces a)).

(** ** The tables (migration 028) *)

Record Account := {
  ac_hash : string;
  ac_role : string;
  ac_disabled : bool;
  ac_version : Z;
}.

Record SessionRow := {
  sr_username : string;
  sr_version : Z;
  sr_expires : Z;
}.

#[export] Instance SessionRow_eq_dec : EqDecision SessionRow.
Proof. solve_decision. Defined.

Record TokenRow := {
  tr_hash : string;
  tr_permissions : list string;
  tr_namespaces : list string;
  tr_revoked : bool;
}.

Record Bucket := {
  bk_attempts : Z;
  bk_expires : Z;
}.

Record AuditRow := {
  au_actor : string;
  au_action : string;
  au_target : string;
}.

Record Tables := {
  tb_accounts : gmap string Account;
  tb_sessions : gmap string SessionRow;
  tb_tokens : gmap string TokenRow;
  tb_buckets : gmap string Bucket;
  tb_audit : list AuditRow;
}.

Definition set_accounts (m : gmap string Account) (t : Tables) : Tables :=
  {| tb_accounts := m; tb_sessions := tb_sessions t; tb_tokens := tb_tokens t; tb_buckets := tb_buckets t; tb_audit := tb_audit t |}.
Definition set_sessions (m : gmap string SessionRow) (t : Tables) : Tables :=
  {| tb_accounts := tb_accounts t; tb_sessions := m; tb_tokens := tb_tokens t; tb_buckets := tb_buckets t; tb_audit := tb_audit t |}.
Definition set_tokens (m : gmap string TokenRow) (t : Tables) : Tables :=
  {| tb_accounts := tb_accounts t; tb_sessions := tb_sessions t; tb_tokens := m; tb_buckets := tb_buckets t; tb_audit := tb_audit t |}.
Definition set_buckets (m : gmap string Bucket) (t : Tables) : Tables :=
  {| tb_accounts := tb_accounts t; tb_sessions := tb_sessions t; tb_tokens := tb_tokens t; tb_buckets := m; tb_audit := tb_audit t |}.
Definition add_audit (actor action target : string) (t : Tables) : Tables :=
  {| tb_accounts := tb_accounts t; tb_sessions := tb_sessions t; tb_tokens := tb_tokens t; tb_buckets := tb_buckets t;
     tb_audit := tb_audit t ++ [{| au_actor := actor; au_action := action; au_target := target |}] |}.

(** ** Statements *)

Definition minute : Z := 60 * 1000000000.
Definition hour : Z := 60 * minute.

Definition live_owner (a : Account) : bool := bool_decide (ac_role a = "owner") && negb (ac_disabled a).
Definition count_owners (m : gmap string Account) : nat := size (filter (λ p, live_owner p.2 = true) m).

(** INSERT ... ON CONFLICT(username) DO UPDATE, the row it leaves; [None]: the
    version overflows. *)
Definition upserted_row (hash role : string) (disabled : bool) (old : option Account) : option Account :=
  match old with
  | None => Some {| ac_hash := hash; ac_role := role; ac_disabled := disabled; ac_version := 1 |}
  | Some a =>
      if (ac_version a + 1 <=? max_int64)%Z then
        Some {| ac_hash := if bool_decide (hash = "") then ac_hash a else hash; ac_role := role;
                ac_disabled := disabled; ac_version := ac_version a + 1 |}
      else None
  end.
Definition upsert_account (username hash role : string) (disabled : bool) (m : gmap string Account) : option (gmap string Account) :=
  (λ row, <[username := row]> m) <$> upserted_row hash role disabled (m !! username).

(** DELETE FROM admin_sessions WHERE username=$1 *)
Definition drop_sessions (username : string) (m : gmap string SessionRow) : gmap string SessionRow :=
  filter (λ p, sr_username p.2 ≠ username) m.

(** An enabled owner that the change would disable or demote. *)
Definition loses_owner (old : option Account) (role : string) (disabled : bool) : bool :=
  match old with Some a => live_owner a && (disabled || negb (bool_decide (role = "owner"))) | None => false end.

Definition attemptBudget : Z := 5.

(** INSERT INTO admin_login_buckets ... RETURNING attempts *)
Definition bump (now : Z) (b : option Bucket) : Bucket :=
  match b with
  | None => {| bk_attempts := 1; bk_expires := now + minute |}
  | Some b =>
      if (bk_expires b <=? now)%Z then {| bk_attempts := 1; bk_expires := now + minute |}
      else {| bk_attempts := Z.min (bk_attempts b + 1) 6; bk_expires := bk_expires b |}
  end.

Definition give_back (b : Bucket) : Bucket := {| bk_attempts := Z.max (bk_attempts b - 1) 0; bk_expires := bk_expires b |}.

(** The account a session may be issued for, in a snapshot. *)
Definition issuable (a : Actor) (m : gmap string Account) : bool :=
  match m !! a_Name a with Some c => (ac_version c =? a_Version a)%Z && negb (ac_disabled c) | None => false end.

(** SELECT ... FROM admin_sessions s JOIN admin_accounts a ... *)
Definition session_actor (now : Z) (digest : string) (t : Tables) : option Actor :=
  match tb_sessions t !! digest with
  | None => None
  | Some s =>
      match tb_accounts t !! sr_username s with
      | None => None
      | Some a =>
          if (now <? sr_expires s)%Z && negb (ac_disabled a) && (ac_version a =? sr_version s)%Z then
            Some {| a_Name := sr_username s; a_Role := ac_role a; a_Permissions := []; a_Namespaces := []; a_Version := ac_version a |}
          else None
      end
  end.

Definition has_digest (digest : string) (p : string * TokenRow) : bool := bool_decide (tr_hash p.2 = digest).

(** The row of a digest, which is unique. *)
Definition token_of (digest : string) (m : gmap string TokenRow) : option (string * TokenRow) :=
  head (filter (λ p, has_digest digest p = true) (map_to_list m)).

(** INSERT ... ON CONFLICT(name) DO NOTHING; [None] is a unique violation. *)
Definition insert_token (name : string) (row : TokenRow) (m : gmap string TokenRow) : option (gmap string TokenRow) :=
  match m !! name with
  | Some _ => Some m
  | None => match token_of (tr_hash row) m with Some _ => None | None => Some (<[name := row]> m) end
  end.

Definition revoke (r : TokenRow) : TokenRow :=
  {| tr_hash := tr_hash r; tr_permissions := tr_permissions r; tr_namespaces := tr_namespaces r; tr_revoked := true |}.

(** ** Other replicas *)

(** What another replica commits: the transactions and statements of this
    package, with what they were called with. [OIssue] may rest on a snapshot
    from before an account change; [version] is the one it saw. *)
Inductive Other :=
| OBootstrap (username hash : string)
| OAccount (username hash role : string) (disabled : bool)
| ORecover (username hash : string)
| OIssue (digest username : string) (version expires : Z)
| OLogout (digest : string)
| OProvision (name : string) (row : TokenRow)
| ORevoke (name : string)
| OAllow (bucket : string)
| ORefund (bucket : string)
| OAudit (actor action target : string)
| OPruneSessions
| OPruneBuckets.

Definition do_account (username hash role : string) (disabled : bool) (t : Tables) : Tables :=
  if bool_decide (role ∈ ["owner"; "admin"]) then
    match upsert_account username hash role disabled (tb_accounts t) with
    | Some m => set_sessions (drop_sessions username (tb_sessions t)) (set_accounts m t)
    | None => t
    end
  else t.

Definition do_other (now : Z) (o : Other) (t : Tables) : Tables :=
  match o with
  | OBootstrap u h =>
      if bool_decide (tb_accounts t = ∅)
      then set_accounts {[ u := {| ac_hash := h; ac_role := "owner"; ac_disabled := false; ac_version := 1 |} ]} t else t
  | OAccount u h role disabled =>
      if loses_owner (tb_accounts t !! u) role disabled && (count_owners (tb_accounts t) <=? 1)%nat
      then t else do_account u h role disabled t
  | ORecover u h => do_account u h "owner" false t
  | OIssue d u v e =>
      match tb_accounts t !! u, tb_sessions t !! d with
      | Some a, None => if (v <=? ac_version a)%Z
                        then set_sessions (<[d := {| sr_username := u; sr_version := v; sr_expires := e |}]> (tb_sessions t)) t else t
      | _, _ => t
      end
  | OLogout d => set_sessions (delete d (tb_sessions t)) t
  | OProvision name row => match insert_token name row (tb_tokens t) with Some m => set_tokens m t | None => t end
  | ORevoke name => set_tokens (alter revoke name (tb_tokens t)) t
  | OAllow b => set_buckets (<[b := bump now (tb_buckets t !! b)]> (tb_buckets t)) t
  | ORefund b => set_buckets (alter give_back b (tb_buckets t)) t
  | OAudit a b c => add_audit a b c t
  | OPruneSessions => set_sessions (filter (λ p, (now < sr_expires p.2)%Z) (tb_sessions t)) t
  | OPruneBuckets => set_buckets (filter (λ p, (now - hour < bk_expires p.2)%Z) (tb_buckets t)) t
  end.

(** ** Transactions *)

(** What a transaction holds until it ends: the advisory lock 5757001, the row
    of an account (locked for update, or written), the row of a service token,
    and the entry of a digest in its unique index. *)
Inductive TxLock :=
| LAccounts
| LAccount (username : string)
| LToken (name : string)
| LDigest (digest : string).

(** What has to wait for the lock. Every transaction on accounts takes the
    advisory lock first; a session references its account, so inserting one
    locks the account's row for key share. *)
Definition waits (l : TxLock) (o : Other) : bool :=
  match l, o with
  | LAccounts, (OBootstrap _ _ | OAccount _ _ _ _ | ORecover _ _) => true
  | LAccount u, (OBootstrap v _ | OAccount v _ _ _ | ORecover v _ | OIssue _ v _ _) => bool_decide (u = v)
  | LToken n, (OProvision n' _ | ORevoke n') => bool_decide (n = n')
  | LDigest d, OProvision _ row => bool_decide (d = tr_hash row)
  | _, _ => false
  end.

(** The locks a transaction took and the writes it made, in order; also what
    one statement takes and writes. *)
Record Tx := {
  tx_locks : list TxLock;
  tx_writes : Tables → Tables;
}.

Definition no_tx : Tx := {| tx_locks := []; tx_writes := λ t, t |}.
Definition writing (f : Tables → Tables) : Tx := {| tx_locks := []; tx_writes := f |}.
Definition locking (ls : list TxLock) : Tx := {| tx_locks := ls; tx_writes := λ t, t |}.
Definition and_then (tx tx' : Tx) : Tx := {| tx_locks := tx_locks tx ++ tx_locks tx'; tx_writes := λ t, tx_writes tx' (tx_writes tx t) |}.

Definition blocked (tx : Tx) (o : Other) : bool := existsb (λ l, waits l o) (tx_locks tx).

Record Access := {
  ax_tables : Tables;              (* what is committed *)
  ax_tx : Tx;                      (* the open transaction *)
  ax_draws : nat;                  (* randomness taken *)
  ax_others : list (list Other);   (* what others commit before each statement *)
}.

Abbreviation AW := (World Access).

Definition put_tables (t : Tables) (x : Access) : Access := {| ax_tables := t; ax_tx := ax_tx x; ax_draws := ax_draws x; ax_others := ax_others x |}.
Definition put_tx (tx : Tx) (x : Access) : Access := {| ax_tables := ax_tables x; ax_tx := tx; ax_draws := ax_draws x; ax_others := ax_others x |}.

(** An action that is blocked now may come later in the script. *)
Definition others_commit (now : Z) (x : Access) : Access :=
  match ax_others x with
  | [] => x
  | os :: rest =>
      {| ax_tables := foldl (λ t o, if blocked (ax_tx x) o then t else do_other now o t) (ax_tables x) os;
         ax_tx := ax_tx x; ax_draws := ax_draws x; ax_others := rest |}
  end.

Definition others_turn : M AW () := λ w, (tt, set_ext (others_commit (w_now w) (w_ext w)) w).

Definition tables : M AW Tables := gets (λ w, ax_tables (w_ext w)).
Definition set_tx (tx : Tx) : M AW () := modify (λ w, set_ext (put_tx tx (w_ext w)) w).

(** What a statement answers, takes and writes, given what it sees. *)
Definition SQL (A : Type) : Type := Z → Tables → (A * Tx) + error.

(** What the open transaction sees. *)
Definition view (x : Access) : Tables := tx_writes (ax_tx x) (ax_tables x).

(** One statement inside a transaction. *)
Definition tstmt {A} (f : SQL A) : M AW (A + error) :=
  others_turn ;;!
  let! b := fault in
  if b then ret (inr [ErrDriver])
  else λ w, match f (w_now w) (view (w_ext w)) with
            | inl (a, tx) => (inl a, set_ext (put_tx (and_then (ax_tx (w_ext w)) tx) (w_ext w)) w)
            | inr e => (inr e, w)
            end.

(** One statement over the pool. *)
Definition pstmt {A} (f : SQL A) : M AW (A + error) :=
  others_turn ;;!
  let! b := fault in
  if b then ret (inr [ErrDriver])
  else λ w, match f (w_now w) (ax_tables (w_ext w)) with
            | inl (a, tx) => (inl a, set_ext (put_tables (tx_writes tx (ax_tables (w_ext w))) (w_ext w)) w)
            | inr e => (inr e, w)
            end.

Definition committed (x : Access) : Access := put_tx no_tx (put_tables (view x) x).

(** [pgx.BeginFunc] *)
Definition in_tx (fn : M AW error) : M AW error :=
  others_turn ;;!
  let! b := fault in
  if b then ret [ErrDriver]
  else
    set_tx no_tx ;;!
    let! e := fn in
    if negb (nil_err e) then (set_tx no_tx ;;! ret e)
    else
      others_turn ;;!
      let! b := fault in
      if b then (set_tx no_tx ;;! ret [ErrDriver])
      else (modify (λ w, set_ext (committed (w_ext w)) w) ;;! ret []).

(** ** repository.go *)

Definition identifier_byte (c : ascii) : bool :=
  let n := N_of_ascii c in between 48 n 57 || between 97 n 122 || between 65 n 90.
Definition name_byte (c : ascii) : bool :=
  identifier_byte c || bool_decide (c = "_"%char) || bool_decide (c = "."%char) || bool_decide (c = "-"%char).

(** [^[a-zA-Z0-9][a-zA-Z0-9_.-]{0,63}$] *)
Definition namePattern (s : string) : bool :=
  match s with
  | EmptyString => false
  | String c rest => identifier_byte c && str_all name_byte rest && (String.length rest <=? 63)%nat
  end.

Definition draw {A} (f : nat → A) : M AW A := λ w,
  let x := w_ext w in (f (ax_draws x), set_ext {| ax_tables := ax_tables x; ax_tx := ax_tx x; ax_draws := S (ax_draws x); ax_others := ax_others x |} w).

Section store.
Context `{Sha256, Bcrypt, CryptoRand}.

Definition Digest (token : string) : string := EncodeToString (sha256 token).

Definition RandomToken : M AW (string + error) :=
  let! b := fault in
  if b then ret (inr [ErrDriver]) else draw (λ n, inl (EncodeToString (rand_bytes n))).

Definition devPassword : string := "dev-secret-key".

Definition passwordHash (password : string) : M AW (string + error) :=
  if (String.length password <? 12)%nat || (72 <? String.length password)%nat || bool_decide (password = devPassword)
  then ret (inr [ErrInvalid])
  else
    let! b := fault in
    if b then ret (inr [ErrDriver]) else draw (λ n, inl (bcrypt_hash n password)).

Definition sql_xact_lock : SQL () := λ now t, inl (tt, locking [LAccounts]).
Definition sql_count : SQL nat := λ now t, inl (size (tb_accounts t), no_tx).
Definition put_account (username : string) (a : Account) (t : Tables) : Tables := set_accounts (<[username := a]> (tb_accounts t)) t.
Definition sql_first_owner (username hash : string) : SQL () := λ now t,
  match tb_accounts t !! username with
  | Some _ => inr [ErrDriver]
  | None => inl (tt, and_then (locking [LAccount username])
                       (writing (put_account username {| ac_hash := hash; ac_role := "owner"; ac_disabled := false; ac_version := 1 |})))
  end.
Definition sql_audit (actor action target : string) : SQL () := λ now t,
  if forallb pg_text [actor; action; target] then inl (tt, writing (add_audit actor action target)) else inr [ErrDriver].

(** Statements of a transaction, one after the other until one fails. *)
Definition exec {A} (m : M AW (A + error)) (k : A → M AW error) : M AW error :=
  let! r := m in match r with inl a => k a | inr e => ret e end.

Definition last {A} (m : M AW (A + error)) : M AW error := let! r := m in ret (match r with inl _ => [] | inr e => e end).

Definition bootstrap_tx (username hash : string) : M AW error :=
  exec (tstmt sql_xact_lock) (λ _,
  exec (tstmt sql_count) (λ count,
  if (0 <? count)%nat then ret []
  else exec (tstmt (sql_first_owner username hash)) (λ _,
       last (tstmt (sql_audit "bootstrap" "account.create" username))))).

Definition Bootstrap (username password : string) : M AW error :=
  if negb (namePattern username) then ret [ErrInvalid]
  else
    let! hash := passwordHash password in
    match hash with
    | inr e => ret e
    | inl hash => in_tx (bootstrap_tx username hash)
    end.

Definition sql_select_account (username : string) : SQL (option Account) := λ now t,
  if pg_text username then inl (tb_accounts t !! username, no_tx) else inr [ErrDriver].
(** SELECT ... FOR UPDATE, which locks the row it finds *)
Definition sql_lock_account (username : string) : SQL (option Account) := λ now t,
  if pg_text username then
    inl (tb_accounts t !! username, match tb_accounts t !! username with Some _ => locking [LAccount username] | None => no_tx end)
  else inr [ErrDriver].
Definition sql_count_owners : SQL nat := λ now t, inl (count_owners (tb_accounts t), no_tx).
Definition sql_upsert_account (username hash role : string) (disabled : bool) : SQL () := λ now t,
  match upserted_row hash role disabled (tb_accounts t !! username) with
  | Some row => inl (tt, and_then (locking [LAccount username]) (writing (put_account username row)))
  | None => inr [ErrDriver]
  end.
(** The rows the statement found are removed when it is committed. *)
Definition remove_sessions (seen : gmap string SessionRow) (t : Tables) : Tables :=
  set_sessions (filter (λ p, seen !! p.1 ≠ Some p.2) (tb_sessions t)) t.
Definition sql_drop_sessions (username : string) : SQL () := λ now t,
  inl (tt, writing (remove_sessions (filter (λ p, sr_username p.2 = username) (tb_sessions t)))).

Definition write_account (actor username hash role : string) (disabled : bool) : M AW error :=
  exec (tstmt (sql_upsert_account username hash role disabled)) (λ _,
  exec (tstmt (sql_drop_sessions username)) (λ _,
  last (tstmt (sql_audit actor "account.update" username)))).

Definition set_account_tx (actor username hash role : string) (disabled recovery : bool) : M AW error :=
  exec (tstmt sql_xact_lock) (λ _,
  exec (tstmt (sql_lock_account username)) (λ old,
  if bool_decide (old = None) && bool_decide (hash = "") then ret [ErrInvalid]
  else if loses_owner old role disabled && negb recovery
  then exec (tstmt sql_count_owners) (λ owners,
       if (owners <=? 1)%nat then ret [ErrConflict] else write_account actor username hash role disabled)
  else write_account actor username hash role disabled)).

Definition SetAccount (actor username password role : string) (disabled recovery : bool) : M AW error :=
  if negb (namePattern username) || negb (bool_decide (role = "owner") || bool_decide (role = "admin")) then ret [ErrInvalid]
  else if bool_decide (password = "") then in_tx (set_account_tx actor username "" role disabled recovery)
  else
    let! hash := passwordHash password in
    match hash with
    | inr e => ret e
    | inl hash => in_tx (set_account_tx actor username hash role disabled recovery)
    end.

Definition account_le `{Collation} (p q : string * Account) : Prop := coll_ltb q.1 p.1 = false.
#[local] Instance account_le_dec `{Collation} p q : Decision (account_le p q).
Proof. unfold account_le. apply _. Defined.
Definition sql_accounts `{Collation} : SQL (list (string * Account)) := λ now t,
  inl (merge_sort account_le (map_to_list (tb_accounts t)), no_tx).
Definition Accounts `{Collation} : M AW (list (string * string * bool) + error) :=
  let! r := pstmt sql_accounts in
  ret (match r with inl l => inl ((λ p, (p.1, ac_role p.2, ac_disabled p.2)) <$> l) | inr e => inr e end).

Definition sql_allow (bucket : string) : SQL Z := λ now t,
  let b := bump now (tb_buckets t !! bucket) in inl (bk_attempts b, writing (λ t, set_buckets (<[bucket := b]> (tb_buckets t)) t)).

Definition AllowAttempt (ip : string) : M AW (bool * error) :=
  let! r := pstmt (sql_allow (Digest ip)) in
  ret (match r with inl attempts => ((attempts <=? attemptBudget)%Z, []) | inr e => (true, e) end).

Definition dummyHash : string := "$2a$10$7EqJtq98hPqEX7fNZaFWoO5RCPRgjfNL39..yhmEtV6ZQ2v9Z1e4S".

Definition account_actor (username : string) (a : Account) : Actor :=
  {| a_Name := username; a_Role := ac_role a; a_Permissions := []; a_Namespaces := []; a_Version := ac_version a |}.

Definition Login (ip username password : string) : M AW (Actor * error) :=
  let! ' (ok, e) := AllowAttempt ip in
  if negb (nil_err e) then ret (no_actor, e)
  else if negb ok then ret (no_actor, [ErrThrottled])
  else
    let! r := pstmt (sql_select_account username) in
    match r with
    | inr e => ret (no_actor, e)
    | inl row =>
        let hash := match row with Some a => if bool_decide (ac_hash a = "") then dummyHash else ac_hash a | None => dummyHash end in
        let valid := bcrypt_compare hash password in
        ret (match row with
             | Some a => if negb valid || ac_disabled a then (no_actor, [ErrCredentials]) else (account_actor username a, [])
             | None => (no_actor, [ErrCredentials])
             end)
    end.

Definition sessionTTL : Z := 8 * hour.

(** The insertion; [snapshot] is what the statement saw of the accounts. *)
Definition sql_issue (digest : string) (a : Actor) (expires : Z) (snapshot : gmap string Account) : SQL nat := λ now t,
  if issuable a snapshot then
    match tb_sessions t !! digest with
    | Some _ => inr [ErrDriver]
    | None =>
        inl (1%nat, writing (λ t, set_sessions (<[digest := {| sr_username := a_Name a; sr_version := a_Version a; sr_expires := expires |}]> (tb_sessions t)) t))
    end
  else inl (0%nat, no_tx).

Definition IssueSession (a : Actor) : M AW ((string * Z) + error) :=
  let! token := RandomToken in
  match token with
  | inr e => ret (inr e)
  | inl token =>
      let! expires := gets (λ w, (w_now w + sessionTTL)%Z) in
      others_turn ;;!
      let! t := tables in
      let! affected := pstmt (sql_issue (Digest token) a expires (tb_accounts t)) in
      ret (match affected with
           | inr e => inr e
           | inl n => if bool_decide (n = 1%nat) then inl (token, expires) else inr [ErrCredentials]
           end)
  end.

Definition sql_session (digest : string) : SQL (option Actor) := λ now t, inl (session_actor now digest t, no_tx).

(** A resolved identity, or the error. *)
Definition resolved (r : option Actor + error) : Actor * error :=
  match r with
  | inr e => (no_actor, e)
  | inl None => (no_actor, [ErrCredentials])
  | inl (Some a) => (a, [])
  end.

Definition Session (token : string) : M AW (Actor * error) :=
  let! r := pstmt (sql_session (Digest token)) in ret (resolved r).

Definition sql_revoke_session (digest : string) : SQL () := λ now t, inl (tt, writing (λ t, set_sessions (delete digest (tb_sessions t)) t)).
Definition RevokeSession (token : string) : M AW error := last (pstmt (sql_revoke_session (Digest token))).

Definition permissionVocabulary : list string := ["admin:read"; "admin:write"; "namespace:provision"; "data:read"; "data:write"].

Definition ValidateTokenSpec (token : string) (permissions namespaces : list string) : error :=
  match DecodeString token with
  | None => [ErrInvalid]
  | Some raw =>
      if negb (bool_decide (length raw = 32%nat)) then [ErrInvalid]
      else if bool_decide (permissions = []) || bool_decide (namespaces = []) then [ErrInvalid]
      else if negb (forallb (λ p, bool_decide (p ∈ permissionVocabulary)) permissions) then [ErrInvalid]
      else if negb (forallb (λ ns, bool_decide (ns = "*") || namePattern ns) namespaces) then [ErrInvalid]
      else []
  end.

(** INSERT ... ON CONFLICT(name) DO NOTHING *)
Definition sql_insert_token (name : string) (row : TokenRow) : SQL () := λ now t,
  match tb_tokens t !! name, insert_token name row (tb_tokens t) with
  | _, None => inr [ErrConflict]
  | Some _, Some _ => inl (tt, no_tx)
  | None, Some _ => inl (tt, and_then (locking [LToken name; LDigest (tr_hash row)]) (writing (λ t, set_tokens (<[name := row]> (tb_tokens t)) t)))
  end.
Definition sql_select_token (name : string) : SQL (option TokenRow) := λ now t, inl (tb_tokens t !! name, no_tx).

(** The stored row describes this credential. *)
Definition same_token (digest : string) (permissions namespaces : list string) (r : TokenRow) : bool :=
  bool_decide (tr_hash r = digest) && negb (tr_revoked r) &&
  bool_decide (sort_strings (tr_permissions r) = sort_strings permissions) &&
  bool_decide (sort_strings (tr_namespaces r) = sort_strings namespaces).

Definition provision_tx (actor name digest : string) (permissions namespaces : list string) : M AW error :=
  exec (tstmt (sql_insert_token name {| tr_hash := digest; tr_permissions := permissions; tr_namespaces := namespaces; tr_revoked := false |})) (λ _,
  exec (tstmt (sql_select_token name)) (λ row,
  match row with
  | None => ret [ErrDriver]
  | Some r => if negb (same_token digest permissions namespaces r) then ret [ErrConflict]
              else last (tstmt (sql_audit actor "token.provision" name))
  end)).

Definition ProvisionToken (actor name token : string) (permissions namespaces : list string) : M AW error :=
  if negb (namePattern name) then ret [ErrInvalid]
  else
    let e := ValidateTokenSpec token permissions namespaces in
    if negb (nil_err e) then ret e else in_tx (provision_tx actor name (Digest token) permissions namespaces).

Definition sql_service_token (digest : string) : SQL (option Actor) := λ now t,
  inl (match token_of digest (tb_tokens t) with
       | Some (name, r) => if tr_revoked r then None
                           else Some {| a_Name := name; a_Role := "service"; a_Permissions := tr_permissions r; a_Namespaces := tr_namespaces r; a_Version := 0 |}
       | None => None
       end, no_tx).

(** On an error the actor still has the role of a service. *)
Definition ServiceToken (token : string) : M AW (Actor * error) :=
  let! r := pstmt (sql_service_token (Digest token)) in
  ret (match resolved r with
       | (a, []) => (a, [])
       | (_, e) => ({| a_Name := ""; a_Role := "service"; a_Permissions := []; a_Namespaces := []; a_Version := 0 |}, e)
       end).

(** UPDATE ... WHERE name=$1: the row it finds, if there is one *)
Definition sql_revoke_token (name : string) : SQL () := λ now t,
  if pg_text name then
    inl (tt, match tb_tokens t !! name with
             | Some _ => and_then (locking [LToken name]) (writing (λ t, set_tokens (alter revoke name (tb_tokens t)) t))
             | None => no_tx
             end)
  else inr [ErrDriver].
Definition RevokeToken (actor name : string) : M AW error :=
  in_tx (exec (tstmt (sql_revoke_token name)) (λ _, last (tstmt (sql_audit actor "token.revoke" name)))).

Definition Audit (actor action target : string) : M AW error := last (pstmt (sql_audit actor action target)).

Definition sql_prune_sessions : SQL () := λ now t,
  inl (tt, writing (λ t, set_sessions (filter (λ p, (now < sr_expires p.2)%Z) (tb_sessions t)) t)).
Definition sql_prune_buckets : SQL () := λ now t,
  inl (tt, writing (λ t, set_buckets (filter (λ p, (now - hour < bk_expires p.2)%Z) (tb_buckets t)) t)).
Definition Prune : M AW error := exec (pstmt sql_prune_sessions) (λ _, last (pstmt sql_prune_buckets)).

Definition sql_refund (bucket : string) : SQL () := λ now t, inl (tt, writing (λ t, set_buckets (alter give_back bucket (tb_buckets t)) t)).
Definition RefundAttempt (ip : string) : M AW error := last (pstmt (sql_refund (Digest ip))).
End store.
