(* ===== verification/AccessRules.v ===== *)
(** * Reasoning about the identity store

    Rules for the statements and transactions of [Access], and the steps its
    tables take: whatever an operation does, with whatever failures and other
    replicas, is a sequence of the committed actions [Other]. An account change
    is one such action at the instant it commits, because the locks it holds
    keep everything it read as it was: so what the others are allowed to do is
    what this code does itself. *)

From stdpp Require Import base tactics gmap sets strings list sorting.
From Stdlib Require Import ZArith Ascii Lia.
From S2P Require Import Prelude GoLib NsNames NsLedger NsService Hoare Utf8 NsConfig ComputeVectors Access.

(** ** Steps *)

(** An action satisfying [ok]; [ok] may rule some out. *)
Definition step (ok : Other → Prop) (now : Z) (t t' : Tables) : Prop := ∃ o, ok o ∧ t' = do_other now o t.
Definition steps (ok : Other → Prop) (now : Z) : Tables → Tables → Prop := rtc (step ok now).

Definition anything : Other → Prop := λ _, True.

(** What the others are going to do. *)
Definition script_ok (ok : Other → Prop) (x : Access) : Prop := Forall (Forall ok) (ax_others x).

Lemma script_anything x : script_ok anything x.
Proof. apply Forall_forall. intros os _. by apply Forall_forall. Qed.

Section steps.
Context {ok : Other → Prop}.

Lemma step_one now o t : ok o → steps ok now t (do_other now o t).
Proof. intros Ho. apply rtc_once. by exists o. Qed.

Lemma steps_trans now t1 t2 t3 : steps ok now t1 t2 → steps ok now t2 t3 → steps ok now t1 t3.
Proof. apply transitivity. Qed.

Lemma others_steps now x : script_ok ok x → steps ok now (ax_tables x) (ax_tables (others_commit now x)) ∧ script_ok ok (others_commit now x).
Proof.
  unfold script_ok, others_commit. destruct (ax_others x) as [|os rest] eqn:Eo; [intros _; rewrite Eo; split; [apply rtc_refl|done]|].
  intros [Hos Hrest]%Forall_cons. cbn. split; [|done]. clear Eo Hrest. revert Hos. generalize (ax_tables x).
  induction os as [|o os IH]; intros t Hos; cbn; [apply rtc_refl|]. apply Forall_cons in Hos as [Ho Hos].
  destruct (blocked _ o); [by apply IH|]. eapply rtc_l; [by exists o|by apply IH].
Qed.

(** A property every action keeps is kept by every sequence of them. *)
Lemma steps_preserve (P : Tables → Prop) now t t' :
  (∀ o t, ok o → P t → P (do_other now o t)) → steps ok now t t' → P t → P t'.
Proof. intros Hone Hs. induction Hs as [|t1 t2 t3 (o & Ho & ->) _ IH]; auto. Qed.

(** A preorder every action respects is respected by every sequence of them. *)
Lemma steps_relate (R : Tables → Tables → Prop) `{!PreOrder R} now t t' :
  (∀ o t, ok o → R t (do_other now o t)) → steps ok now t t' → R t t'.
Proof. intros Hone Hs. induction Hs as [|t1 t2 t3 (o & Ho & ->) _ IH]; [reflexivity|]. etransitivity; [by apply Hone|exact IH]. Qed.
End steps.

(** ** Waiting for the open transaction *)

Lemma others_tx now x : ax_tx (others_commit now x) = ax_tx x.
Proof. unfold others_commit. by destruct (ax_others x). Qed.

(** While a lock is held, the others keep what every action that need not wait
    for it keeps. *)
Lemma others_keep (P : Tables → Prop) ls now x :
  ls ⊆ tx_locks (ax_tx x) → (∀ o t, (∀ l, l ∈ ls → waits l o = false) → P t → P (do_other now o t)) →
  P (ax_tables x) → P (ax_tables (others_commit now x)).
Proof.
  intros Hls Hone. unfold others_commit. destruct (ax_others x) as [|os rest]; [done|]. cbn. generalize (ax_tables x).
  induction os as [|o os IH]; intros t Ht; cbn; [done|]. apply IH. destruct (blocked (ax_tx x) o) eqn:Eb; [done|]. apply Hone; [|done].
  intros l Hl. apply not_true_is_false. intros Hw. apply not_true_iff_false in Eb. apply Eb. unfold blocked. apply existsb_exists.
  exists l. split; [by apply list_elem_of_In, Hls|done].
Qed.

Lemma locked_accounts now o t : waits LAccounts o = false → tb_accounts (do_other now o t) = tb_accounts t.
Proof.
  destruct o; cbn; try done.
  - intros _. destruct (tb_accounts t !! username), (tb_sessions t !! digest); try done. by destruct (_ <=? _)%Z.
  - intros _. by destruct (insert_token _ _ _).
Qed.

(** Nobody gets a session of an account whose row is locked, or that is not
    there while the accounts are locked. *)
Definition rows_of (u : string) (seen : gmap string SessionRow) (t : Tables) : Prop :=
  ∀ d s, tb_sessions t !! d = Some s → sr_username s = u → seen !! d = Some s.

Lemma account_sessions u v h role disabled seen t : rows_of u seen t → rows_of u seen (do_account v h role disabled t).
Proof.
  intros Hr. unfold do_account. case_bool_decide; [|done]. destruct (upsert_account _ _ _ _ _); [|done].
  intros d s Hs. cbn in Hs. unfold drop_sessions in Hs. apply map_lookup_filter_Some in Hs as [Hs _]. by apply Hr.
Qed.

Lemma locked_sessions now o t u seen : waits (LAccount u) o = false → rows_of u seen t → rows_of u seen (do_other now o t).
Proof.
  intros Hw Hr. destruct o; cbn in *; try exact Hr.
  - clear Hw. case_bool_decide; exact Hr.
  - destruct (_ && _); [done|by apply account_sessions].
  - by apply account_sessions.
  - destruct (tb_accounts t !! username), (tb_sessions t !! digest); try done. destruct (_ <=? _)%Z; [|done].
    apply bool_decide_eq_false in Hw. intros d s Hs Hu. cbn in Hs. apply lookup_insert_Some in Hs as [[<- <-]|[_ Hs]]; [by destruct Hw|by apply Hr].
  - intros d s Hs. cbn in Hs. apply lookup_delete_Some in Hs as [_ Hs]. by apply Hr.
  - by destruct (insert_token _ _ _).
  - intros d s Hs. cbn in Hs. apply map_lookup_filter_Some in Hs as [Hs _]. by apply Hr.
Qed.

(** ** Moves *)

Definition moved (ok : Other → Prop) (now : Z) (x x' : Access) : Prop :=
  script_ok ok x → steps ok now (ax_tables x) (ax_tables x') ∧ script_ok ok x'.

#[export] Instance moved_preorder ok now : PreOrder (moved ok now).
Proof.
  split; [intros x Hx; split; [apply rtc_refl|done]|]. intros x1 x2 x3 H12 H23 H1. destruct (H12 H1) as [S12 H2]. destruct (H23 H2) as [S23 H3].
  split; [by eapply steps_trans|done].
Qed.

Lemma moved_others ok now x : moved ok now x (others_commit now x).
Proof. intros Hx. by apply others_steps. Qed.

Lemma moved_put ok now t x : steps ok now (ax_tables x) t → moved ok now x (put_tables t x).
Proof. by intros Hs Hx. Qed.

(** Only randomness was taken, or a transaction went on. *)
Lemma moved_same ok now x x' : ax_tables x' = ax_tables x → ax_others x' = ax_others x → moved ok now x x'.
Proof. intros Ht Ho Hx. rewrite Ht. split; [apply rtc_refl|]. unfold script_ok. by rewrite Ho. Qed.

Lemma moved_others_tx ok now x tx : moved ok now x (put_tx tx (others_commit now x)).
Proof. etransitivity; [apply moved_others|by apply moved_same]. Qed.

(** ** Rules *)

Section rules.
Context {c : bool}.
Implicit Types (x : Access) (now : Z).

Lemma wr_others now x (Q : () → Access → Prop) : Q tt (others_commit now x) → writes c others_turn now x Q.
Proof. intros HQ w Hx Hn Hc. cbn. rewrite Hx, Hn. split; [by split|]. by split. Qed.

Lemma wr_maybe {A} (k : bool → M AW A) now x (Q : A → Access → Prop) :
  (c = false → writes c (k true) now x Q) → writes c (k false) now x Q → writes c (bind fault k) now x Q.
Proof.
  intros Ht Hk. apply writes_bind with (λ b x', x' = x ∧ (b = true → c = false)).
  - apply writes_fault; [by intros ->|done].
  - intros [] ? [-> Hb]; auto.
Qed.

(** The statement that follows the turn of the others. *)
Lemma wr_stmt {A} (m : M AW (A + error)) now x (Q : A + error → Access → Prop) :
  let y := others_commit now x in
  (c = false → Q (inr [ErrDriver]) y) → writes c m now y Q →
  writes c (others_turn ;;! let! b := fault in if b then ret (inr [ErrDriver]) else m) now x Q.
Proof.
  intros y Hf Hm. apply writes_bind with (λ _ x', x' = y); [by apply wr_others|]. intros _ ? ->.
  apply wr_maybe; [intros Hc; apply writes_ret; auto|done].
Qed.

Lemma wr_tstmt {A} (f : SQL A) now x (Q : A + error → Access → Prop) :
  let y := others_commit now x in
  (c = false → Q (inr [ErrDriver]) y) →
  match f now (view y) with inl (a, tx) => Q (inl a) (put_tx (and_then (ax_tx y) tx) y) | inr e => Q (inr e) y end →
  writes c (tstmt f) now x Q.
Proof.
  intros y Hf Hs. apply wr_stmt; [done|]. fold y. intros w Hx Hn Hc. rewrite Hx, Hn.
  destruct (f now (view y)) as [[a t]|e]; cbn [fst snd]; [by split_and!|]. split_and!; [done..|]. by rewrite Hx.
Qed.

Lemma wr_pstmt {A} (f : SQL A) now x (Q : A + error → Access → Prop) :
  let y := others_commit now x in
  (c = false → Q (inr [ErrDriver]) y) →
  match f now (ax_tables y) with inl (a, tx) => Q (inl a) (put_tables (tx_writes tx (ax_tables y)) y) | inr e => Q (inr e) y end →
  writes c (pstmt f) now x Q.
Proof.
  intros y Hf Hs. apply wr_stmt; [done|]. fold y. intros w Hx Hn Hc. rewrite Hx, Hn.
  destruct (f now (ax_tables y)) as [[a t]|e]; cbn [fst snd]; [by split_and!|]. split_and!; [done..|]. by rewrite Hx.
Qed.

(** A statement that only reads. *)
Lemma wr_read {A} (f : Z → Tables → A) now x (Q : A + error → Access → Prop) :
  let y := others_commit now x in
  (c = false → Q (inr [ErrDriver]) y) → Q (inl (f now (ax_tables y))) y → writes c (pstmt (λ now t, inl (f now t, no_tx))) now x Q.
Proof. intros y Hf HQ. apply wr_pstmt; [done|]. cbn. by replace (put_tables _ _) with (others_commit now x) by (by destruct (others_commit now x)). Qed.

Lemma wr_in_tx (fn : M AW error) now x (Q : error → Access → Prop) :
  let y := others_commit now x in
  (c = false → Q [ErrDriver] y) →
  writes c fn now (put_tx no_tx y) (λ e x', (e ≠ [] → Q e (put_tx no_tx x')) ∧
    (e = [] → let z := others_commit now x' in (c = false → Q [ErrDriver] (put_tx no_tx z)) ∧ Q [] (committed z))) →
  writes c (in_tx fn) now x Q.
Proof.
  intros y Hf Hfn. unfold in_tx. apply writes_bind with (λ _ x', x' = y); [by apply wr_others|]. intros _ ? ->.
  apply wr_maybe; [intros Hc; apply writes_ret; auto|].
  assert (∀ e' x', Q e' (put_tx no_tx x') → writes c (set_tx no_tx ;;! ret e') now x' Q) as Hundo.
  { intros e' x' HQ. apply writes_bind with (λ _ x'', x'' = put_tx no_tx x'); [by apply (writes_modify (put_tx no_tx))|]. intros _ ? ->. by apply writes_ret. }
  apply writes_bind with (λ _ x', x' = put_tx no_tx y); [by apply (writes_modify (put_tx no_tx))|]. intros _ ? ->.
  eapply writes_bind; [exact Hfn|]. intros e x' [He Hok]. destruct e as [|s e]; cbn [nil_err negb]; [|by apply Hundo, He].
  destruct (Hok eq_refl) as [Hc HQ]. apply writes_bind with (λ _ x'', x'' = others_commit now x'); [by apply wr_others|]. intros _ ? ->.
  apply wr_maybe; [intros Hf'; by apply Hundo, Hc|].
  apply writes_bind with (λ _ x'', x'' = committed (others_commit now x')); [by apply (writes_modify committed)|]. intros _ ? ->. by apply writes_ret.
Qed.

Lemma wr_exec {A} (m : M AW (A + error)) (k : A → M AW error) now x (Q : error → Access → Prop) :
  writes c m now x (λ r x', match r with inl a => writes c (k a) now x' Q | inr e => Q e x' end) → writes c (exec m k) now x Q.
Proof. intros Hm. unfold exec. eapply writes_bind; [exact Hm|]. intros [a|e] x' Hr; [done|by apply writes_ret]. Qed.

Lemma wr_last {A} (m : M AW (A + error)) now x (Q : error → Access → Prop) :
  writes c m now x (λ r x', match r with inl _ => Q [] x' | inr e => Q e x' end) → writes c (last m) now x Q.
Proof. intros Hm. unfold last. eapply writes_bind; [exact Hm|]. intros [a|e] x' Hr; by apply writes_ret. Qed.

Lemma wr_draw {A} (f : nat → A) now x (Q : A → Access → Prop) :
  Q (f (ax_draws x)) {| ax_tables := ax_tables x; ax_tx := ax_tx x; ax_draws := S (ax_draws x); ax_others := ax_others x |} → writes c (draw f) now x Q.
Proof. intros HQ w Hx Hn Hc. cbn. rewrite Hx. split; [by split|]. by split. Qed.
End rules.

Lemma put_nothing x : put_tables (tx_writes no_tx (ax_tables x)) x = x.
Proof. by destruct x. Qed.

(** ** The operations *)

Section store.
Context `{Sha256, Bcrypt, CryptoRand} {c : bool}.
Implicit Types (x : Access) (now : Z).

Lemma passwordHash_writes password now x (Q : string + error → Access → Prop) :
  (∀ e, e ≠ [] → Q (inr e) x) →
  (∀ n h, bcrypt_compare h password = true → Q (inl h) {| ax_tables := ax_tables x; ax_tx := ax_tx x; ax_draws := n; ax_others := ax_others x |}) →
  writes c (passwordHash password) now x Q.
Proof.
  intros He Hk. unfold passwordHash. destruct (_ || _); [by apply writes_ret, He|].
  apply wr_maybe; [intros _; by apply writes_ret, He|]. apply wr_draw, Hk, bcrypt_matches.
Qed.

(** The account a change leaves, and what was allowed. *)
Definition changed (actor u h role : string) (disabled recovery : bool) (t t' : Tables) : Prop :=
  (tb_accounts t !! u = None → h ≠ "") ∧
  (loses_owner (tb_accounts t !! u) role disabled = true → recovery = true ∨ (1 < count_owners (tb_accounts t))%nat) ∧
  ∃ m, upsert_account u h role disabled (tb_accounts t) = Some m ∧
    t' = add_audit actor "account.update" u (set_sessions (drop_sessions u (tb_sessions t)) (set_accounts m t)).

(** The advisory lock is held and the accounts are these. *)
Definition holding (m : gmap string Account) (x : Access) : Prop := LAccounts ∈ tx_locks (ax_tx x) ∧ tb_accounts (ax_tables x) = m.

Lemma holding_others m now x : holding m x → holding m (others_commit now x).
Proof.
  intros [Hl Hm]. split; [by rewrite others_tx|]. apply (others_keep (λ t, tb_accounts t = m) [LAccounts]); [set_solver| |done].
  intros o t Ho <-. apply locked_accounts, Ho. set_solver.
Qed.

Lemma holding_and_then m tx x : holding m x → holding m (put_tx (and_then (ax_tx x) tx) x).
Proof. intros [Hl Hm]. split; [cbn; set_solver|done]. Qed.

Lemma rows_others u seen now x : LAccount u ∈ tx_locks (ax_tx x) → rows_of u seen (ax_tables x) → rows_of u seen (ax_tables (others_commit now x)).
Proof.
  intros Hl. apply (others_keep (rows_of u seen) [LAccount u]); [set_solver|]. intros o t Ho. apply locked_sessions, Ho. set_solver.
Qed.

(** Removing the rows that were seen is removing all there are. *)
Lemma remove_seen u t0 t : rows_of u (tb_sessions t0) t →
  remove_sessions (filter (λ p, sr_username p.2 = u) (tb_sessions t0)) t = set_sessions (drop_sessions u (tb_sessions t)) t.
Proof.
  intros Hr. unfold remove_sessions, drop_sessions. f_equal. apply map_filter_ext. intros d s Hs. cbn. rewrite map_lookup_filter_Some. cbn. split.
  - intros Hn Hu. apply Hn. split; [by apply Hr|done].
  - intros Hn [_ Hu]. by apply Hn.
Qed.

Lemma write_account_writes ok actor u h role disabled m now x :
  holding m x → (∀ t, tx_writes (ax_tx x) t = t) →
  writes c (write_account actor u h role disabled) now x (λ e x', moved ok now x x' ∧ holding m x' ∧
    (e = [] → let z := others_commit now x' in ∃ row, upserted_row h role disabled (m !! u) = Some row ∧
      view z = add_audit actor "account.update" u (set_sessions (drop_sessions u (tb_sessions (ax_tables z))) (put_account u row (ax_tables z))))).
Proof.
  intros Hh Hid. unfold write_account. set (y := others_commit now x). assert (holding m y) as Hy by by apply holding_others.
  assert (moved ok now x y) as My by apply moved_others.
  apply wr_exec, wr_tstmt; fold y; [done|]. unfold view at 1. unfold sql_upsert_account, y. rewrite others_tx, Hid. fold y.
  rewrite (proj2 Hy). destruct (upserted_row _ _ _ _) as [row|] eqn:Hrow; [|done]. rewrite <- others_tx with now x. fold y.
  set (x1 := put_tx _ y). assert (holding m x1) as K1 by by apply holding_and_then.
  assert (moved ok now x x1) as M1 by (etransitivity; [exact My|by apply moved_same]).
  assert (LAccount u ∈ tx_locks (ax_tx x1)) as L1 by (cbn; set_solver).
  assert (∀ t, tx_writes (ax_tx x1) t = put_account u row t) as W1 by (intros t; cbn; unfold y; by rewrite others_tx, Hid).
  clearbody x1. clear Hy My y Hid Hh. set (y := others_commit now x1). assert (holding m y) as Hy by by apply holding_others.
  assert (moved ok now x y) as My by (etransitivity; [exact M1|apply moved_others]).
  apply wr_exec, wr_tstmt; fold y; [done|]. unfold sql_drop_sessions. cbn -[and_then].
  set (x2 := put_tx _ y). assert (holding m x2) as K2 by by apply holding_and_then.
  assert (moved ok now x x2) as M2 by (etransitivity; [exact My|by apply moved_same]).
  assert (LAccount u ∈ tx_locks (ax_tx x2)) as L2 by (cbn; unfold y; rewrite others_tx; set_solver).
  assert (rows_of u (tb_sessions (ax_tables x2)) (ax_tables x2)) as R2 by (intros d s Hs _; exact Hs).
  assert (∀ t, tx_writes (ax_tx x2) t = remove_sessions (filter (λ p, sr_username p.2 = u) (tb_sessions (ax_tables x2))) (put_account u row t)) as W2.
  { intros t. cbn. unfold view, y. rewrite others_tx, !W1. done. }
  clearbody x2. clear Hy My y. set (y := others_commit now x2). assert (holding m y) as Hy by by apply holding_others.
  assert (moved ok now x y) as My by (etransitivity; [exact M2|apply moved_others]).
  apply wr_last, wr_tstmt; fold y; [done|]. unfold sql_audit. destruct (forallb _ _); [|done].
  split; [etransitivity; [exact My|by apply moved_same]|]. split; [by apply holding_and_then|]. intros _. cbv zeta.
  set (x3 := put_tx _ y). exists row. split; [done|].
  assert (rows_of u (tb_sessions (ax_tables x2)) (ax_tables (others_commit now x3))) as R3.
  { apply rows_others; [cbn; unfold y; rewrite others_tx; set_solver|]. by apply rows_others. }
  unfold view. rewrite others_tx. cbn [x3 put_tx ax_tx and_then tx_writes writing]. unfold y at 1. rewrite others_tx, W2. f_equal.
  rewrite remove_seen; [done|exact R3].
Qed.

(** What the transaction will have done when it commits, if it can. *)
Definition will_change (actor u h role : string) (disabled recovery : bool) (m : gmap string Account) (now : Z) (x : Access) : Prop :=
  let z := others_commit now x in
  tb_accounts (ax_tables z) = m ∧ changed actor u h role disabled recovery (ax_tables z) (view z).

Lemma set_account_tx_writes ok actor u h role disabled recovery now x :
  ax_tx x = no_tx →
  writes c (set_account_tx actor u h role disabled recovery) now x (λ e x', moved ok now x x' ∧
    (e = [] → will_change actor u h role disabled recovery (tb_accounts (ax_tables (others_commit now x))) now x')).
Proof.
  intros Htx. unfold set_account_tx. set (y := others_commit now x). assert (moved ok now x y) as My by apply moved_others.
  apply wr_exec, wr_tstmt; fold y; [done|]. cbn -[and_then]. set (m := tb_accounts (ax_tables y)). set (x1 := put_tx _ y).
  assert (holding m x1) as K1 by (split; [cbn; set_solver|done]).
  assert (moved ok now x x1) as M1 by (etransitivity; [exact My|by apply moved_same]).
  assert (∀ t, tx_writes (ax_tx x1) t = t) as W1 by (intros t; cbn; unfold y; by rewrite others_tx, Htx).
  clearbody x1. set (y1 := others_commit now x1). assert (holding m y1) as Hy1 by by apply holding_others.
  assert (moved ok now x y1) as My1 by (etransitivity; [exact M1|apply moved_others]).
  apply wr_exec, wr_tstmt; fold y1; [done|]. unfold sql_lock_account. destruct (pg_text u); [|done].
  replace (view y1) with (ax_tables y1) by (unfold view, y1; by rewrite others_tx, W1). rewrite (proj2 Hy1).
  set (x2 := put_tx _ y1). assert (holding m x2) as K2 by by apply holding_and_then.
  assert (moved ok now x x2) as M2 by (etransitivity; [exact My1|by apply moved_same]).
  assert (∀ t, tx_writes (ax_tx x2) t = t) as W2 by (intros t; cbn; destruct (m !! u); cbn; unfold y1; by rewrite others_tx, W1).
  clearbody x2. clear Hy1 My1 y1 M1 K1 W1.
  destruct (bool_decide _ && bool_decide _) eqn:Eh; [by apply writes_ret|].
  assert (m !! u = None → h ≠ "") as Hh by (intros Hn ->; by rewrite Hn in Eh).
  assert (∀ x3, holding m x3 → moved ok now x x3 → (∀ t, tx_writes (ax_tx x3) t = t) →
    (loses_owner (m !! u) role disabled = true → recovery = true ∨ (1 < count_owners m)%nat) →
    writes c (write_account actor u h role disabled) now x3 (λ e x', moved ok now x x' ∧
      (e = [] → will_change actor u h role disabled recovery m now x'))) as Hwrite.
  { intros x3 K3 M3 W3 Hl. eapply writes_mono; [by apply (write_account_writes ok)|]. intros e x' (M' & H' & He).
    split; [by etransitivity|]. intros Hnil. destruct (He Hnil) as (row & Hrow & Hv). clear He.
    destruct (holding_others m now x' H') as [_ Hz]. split; [exact Hz|]. unfold changed. rewrite Hz. split; [done|]. split; [done|].
    exists (<[u := row]> m). unfold upsert_account. rewrite Hrow, Hv. split; [done|]. unfold put_account. by rewrite Hz. }
  destruct (loses_owner _ _ _ && negb recovery) eqn:El.
  - set (y2 := others_commit now x2). assert (holding m y2) as Hy2 by by apply holding_others.
    assert (moved ok now x y2) as My2 by (etransitivity; [exact M2|apply moved_others]).
    apply wr_exec, wr_tstmt; fold y2; [done|]. cbn -[and_then].
    replace (view y2) with (ax_tables y2) by (unfold view, y2; by rewrite others_tx, W2). rewrite (proj2 Hy2).
    destruct (count_owners _ <=? 1)%nat eqn:Ec; [apply writes_ret; split; [etransitivity; [exact My2|by apply moved_same]|done]|]. apply Nat.leb_gt in Ec.
    apply Hwrite; [by apply holding_and_then|etransitivity; [exact My2|by apply moved_same]| |by right].
    intros t. cbn. unfold y2. by rewrite others_tx, W2.
  - apply Hwrite; [done..|]. intros Hl. left. rewrite Hl in El. by destruct recovery.
Qed.

(** The tables an account change finds when it has the advisory lock. *)
Definition found (now : Z) (x : Access) : Tables := ax_tables (others_commit now (put_tx no_tx (others_commit now x))).

Lemma found_same now x x1 : ax_tables x1 = ax_tables x → ax_others x1 = ax_others x → ax_tx x1 = ax_tx x → found now x1 = found now x.
Proof.
  intros Ht Ho Hx. unfold found, others_commit. rewrite Ho, Ht, Hx. destruct (ax_others x) as [|os [|os2 rest]] eqn:Eo; cbn; rewrite ?Eo, ?Ho, ?Ht; done.
Qed.

(** An account change commits whole or not at all, as one change of the tables
    at the instant it commits. *)
Lemma SetAccount_writes ok actor u password role disabled recovery now x :
  writes c (SetAccount actor u password role disabled recovery) now x (λ e x',
    (e ≠ [] → moved ok now x x') ∧
    (e = [] → role ∈ ["owner"; "admin"] ∧ ∃ h y, moved ok now x y ∧ tb_accounts (ax_tables y) = tb_accounts (found now x) ∧
      changed actor u h role disabled recovery (ax_tables y) (ax_tables x') ∧ ax_others x' = ax_others y ∧
      (password = "" → h = "") ∧ (password ≠ "" → bcrypt_compare h password = true))).
Proof.
  unfold SetAccount. destruct (negb (namePattern u) || _) eqn:Er; [by apply writes_ret; split|].
  assert (role ∈ ["owner"; "admin"]) as Hrole.
  { apply orb_false_iff in Er as [_ Er]. apply negb_false_iff, orb_true_iff in Er as [Er|Er]; apply bool_decide_eq_true in Er; set_solver. }
  clear Er. set (Q := λ (e : error) x', _).
  assert (∀ x1 h, ax_tables x1 = ax_tables x → ax_others x1 = ax_others x → ax_tx x1 = ax_tx x →
    (password = "" → h = "") → (password ≠ "" → bcrypt_compare h password = true) →
    writes c (in_tx (set_account_tx actor u h role disabled recovery)) now x1 Q) as Htx.
  { intros x1 h Ht Ho Hx Hp Hn. assert (∀ x', moved ok now x1 x' → moved ok now x x') as M1 by (intros x' Hm; etransitivity; [by apply moved_same|exact Hm]).
    apply wr_in_tx; [intros _; split; [intros _; apply M1, moved_others|done]|].
    eapply writes_mono; [by apply (set_account_tx_writes ok)|]. intros e x' [Mx' Hch].
    assert (moved ok now x x') as M' by (apply M1; etransitivity; [apply moved_others_tx|exact Mx']).
    split; [intros He; split; [intros _; etransitivity; [exact M'|by apply moved_same]|done]|].
    intros He. destruct (Hch He) as [Hm Hc]. split.
    - intros _. split; [intros _; etransitivity; [exact M'|apply moved_others_tx]|done].
    - split; [done|]. intros _. split; [done|]. exists h, (others_commit now x'). split; [etransitivity; [exact M'|apply moved_others]|].
      split_and!; [by rewrite <- (found_same now x x1 Ht Ho Hx)|exact Hc|done|done|done]. }
  destruct (bool_decide (password = "")) eqn:Hp; apply bool_decide_eq_true in Hp || apply bool_decide_eq_false in Hp; [by apply Htx|]. eapply writes_bind.
  - apply passwordHash_writes with (Q := λ r x', (ax_tables x' = ax_tables x ∧ ax_others x' = ax_others x ∧ ax_tx x' = ax_tx x) ∧
      match r with inl h => bcrypt_compare h password = true | inr e => e ≠ [] end); [by intros e He|by intros n h Hh].
  - intros [h|e] x1 ((Ht & Ho & Hx) & Hh); [by apply Htx|]. apply writes_ret. split; [intros _; by apply moved_same|by intros ->].
Qed.
End store.
