(* ===== verification/AccessFacts.v ===== *)
(** * What the identity store guarantees

    Invariants of the tables under any sequence of committed actions, and the
    operations as such sequences: an owner always remains, accounts only gain
    versions, revoked tokens stay revoked. *)

From stdpp Require Import base tactics gmap sets strings list sorting.
From Stdlib Require Import ZArith Ascii Lia.
From S2P Require Import Prelude GoLib NsNames NsLedger NsService Hoare Utf8 NsConfig ComputeVectors Access AccessRules.

(** ** Owners *)

Definition has_owner (t : Tables) : Prop := ∃ u a, tb_accounts t !! u = Some a ∧ live_owner a = true.

Lemma owner_counted m u a : m !! u = Some a → live_owner a = true → (1 ≤ count_owners m)%nat.
Proof.
  intros Hu Ha. unfold count_owners. assert (filter (λ p, live_owner p.2 = true) m ≠ ∅) as Hne.
  { intros He. assert (filter (λ p, live_owner p.2 = true) m !! u = Some a) as Hin by (by apply map_lookup_filter_Some). by rewrite He in Hin. }
  apply map_size_non_empty_iff in Hne. lia.
Qed.

(** Of two owners, one is not [u]. *)
Lemma another_owner m u : (1 < count_owners m)%nat → ∃ v a, v ≠ u ∧ m !! v = Some a ∧ live_owner a = true.
Proof.
  unfold count_owners. intros Hc. set (f := filter (λ p, live_owner p.2 = true) m) in *.
  assert (delete u f ≠ ∅) as Hne.
  { intros He. pose proof (map_size_delete u f) as Hd. rewrite He, map_size_empty in Hd. assert (size f ≤ 1)%nat as Hle; [|exact (proj1 (Nat.lt_nge _ _) Hc Hle)].
    destruct (f !! u) in Hd; [|unfold id in Hd; rewrite <- Hd; lia]. destruct (size f) as [|[|n]]; [lia|lia|done]. }
  apply map_choose in Hne as (v & a & Hv). apply lookup_delete_Some in Hv as [Hne Hv]. apply map_lookup_filter_Some in Hv as [Hv Ha].
  exists v, a. by split_and!.
Qed.

Lemma upsert_lookup u h role disabled m m' :
  upsert_account u h role disabled m = Some m' →
  (∃ a, m' !! u = Some a ∧ ac_role a = role ∧ ac_disabled a = disabled ∧
     (∀ old, m !! u = Some old → ac_version a = (ac_version old + 1)%Z ∧ (h = "" → ac_hash a = ac_hash old)) ∧
     (m !! u = None → ac_version a = 1%Z) ∧ (h ≠ "" → ac_hash a = h)) ∧
  ∀ v, v ≠ u → m' !! v = m !! v.
Proof.
  unfold upsert_account, upserted_row. destruct (m !! u) as [old|] eqn:Hu.
  - destruct (_ <=? _)%Z; [|done]. intros [= <-]. split; [|intros v Hv; by apply lookup_insert_ne].
    eexists. split; [by rewrite lookup_insert_eq|]. cbn. split_and!; [done|done| |done|by intros Hh; rewrite bool_decide_eq_false_2].
    intros ? [= <-]. split; [done|]. intros ->. by rewrite bool_decide_eq_true_2.
  - intros [= <-]. split; [|intros v Hv; by apply lookup_insert_ne]. eexists. split; [by rewrite lookup_insert_eq|]. by split_and!.
Qed.

Lemma account_keeps_owner u h role disabled t :
  (loses_owner (tb_accounts t !! u) role disabled = true → (1 < count_owners (tb_accounts t))%nat) →
  has_owner t → has_owner (do_account u h role disabled t).
Proof.
  intros Hl (v & a & Hv & Ha). unfold do_account. case_bool_decide; [|by exists v, a].
  destruct (upsert_account _ _ _ _ _) as [m|] eqn:Hm; [|by exists v, a].
  apply upsert_lookup in Hm as [(a' & Hu & Hr & Hd & _) Hother]. cbn.
  destruct (decide (v = u)) as [->|Hne]; [|exists v, a; split; [cbn; by rewrite Hother|done]].
  destruct (loses_owner (tb_accounts t !! u) role disabled) eqn:El.
  - destruct (another_owner _ u (Hl eq_refl)) as (z & b & Hne & Hz & Hb). exists z, b. split; [cbn; by rewrite Hother|done].
  - exists u, a'. split; [done|]. unfold loses_owner in El. rewrite Hv, Ha in El. cbn in El. apply orb_false_iff in El as [El1 El2].
    unfold live_owner. rewrite Hr, Hd, El1. by apply negb_false_iff in El2 as ->.
Qed.

Lemma step_keeps_owner now o t : has_owner t → has_owner (do_other now o t).
Proof.
  intros Ho. destruct o; cbn; try exact Ho.
  - case_bool_decide as He; [|done]. destruct Ho as (u & a & Hu & _). rewrite He in Hu. done.
  - destruct (loses_owner _ _ _ && _) eqn:El; [done|]. apply account_keeps_owner; [|done]. intros Hl. rewrite Hl in El. by apply Nat.leb_gt in El.
  - apply account_keeps_owner; [|done]. unfold loses_owner. destruct (tb_accounts t !! username); [|done]. by rewrite andb_false_r.
  - destruct (tb_accounts t !! username), (tb_sessions t !! digest); try done. by destruct (_ <=? _)%Z.
  - by destruct (insert_token _ _ _).
Qed.

(** ** Versions *)

(** No account disappears or goes back to an earlier version. *)
Definition ages (t t' : Tables) : Prop :=
  ∀ u a, tb_accounts t !! u = Some a → ∃ a', tb_accounts t' !! u = Some a' ∧ (ac_version a <= ac_version a')%Z.

#[export] Instance ages_preorder : PreOrder ages.
Proof.
  split; [intros t u a Hu; by exists a|]. intros t1 t2 t3 H12 H23 u a Hu. destruct (H12 u a Hu) as (b & Hb & ?). destruct (H23 u b Hb) as (d & Hd & ?).
  exists d. split; [done|lia].
Qed.

Lemma account_ages u h role disabled t : ages t (do_account u h role disabled t).
Proof.
  unfold do_account. case_bool_decide; [|reflexivity]. destruct (upsert_account _ _ _ _ _) as [m|] eqn:Hm; [|reflexivity].
  apply upsert_lookup in Hm as [(a' & Hu & _ & _ & Hv & _) Hother]. intros v a Ha. cbn. destruct (decide (v = u)) as [->|Hne].
  - exists a'. split; [done|]. destruct (Hv a Ha). lia.
  - exists a. split; [by rewrite Hother|done].
Qed.

Lemma step_ages now o t : ages t (do_other now o t).
Proof.
  destruct o; cbn; try (intros u a Hu; by exists a).
  - case_bool_decide as He; [|reflexivity]. intros u a Hu. by rewrite He in Hu.
  - destruct (_ && _); [reflexivity|apply account_ages].
  - apply account_ages.
  - destruct (tb_accounts t !! username), (tb_sessions t !! digest); try reflexivity. destruct (_ <=? _)%Z; intros u b Hu; by exists b.
  - destruct (insert_token _ _ _); intros u a Hu; by exists a.
Qed.

Lemma steps_age ok now t t' : steps ok now t t' → ages t t'.
Proof. apply steps_relate; [apply _|]. intros o t0 _. apply step_ages. Qed.

(** ** Service tokens *)

(** Names keep their credential, and a revoked one stays revoked. *)
Definition token_kept (r r' : TokenRow) : Prop :=
  tr_hash r' = tr_hash r ∧ tr_permissions r' = tr_permissions r ∧ tr_namespaces r' = tr_namespaces r ∧ (tr_revoked r = true → tr_revoked r' = true).
Definition tokens_kept (t t' : Tables) : Prop :=
  ∀ n r, tb_tokens t !! n = Some r → ∃ r', tb_tokens t' !! n = Some r' ∧ token_kept r r'.

#[export] Instance tokens_kept_preorder : PreOrder tokens_kept.
Proof.
  split; [intros t n r Hn; by exists r|]. intros t1 t2 t3 H12 H23 n r Hr. destruct (H12 n r Hr) as (r' & Hr' & ? & ? & ? & ?).
  destruct (H23 n r' Hr') as (r'' & Hr'' & ? & ? & ? & ?). exists r''. split; [done|]. split_and!; try congruence. auto.
Qed.

Lemma account_tokens u h role disabled t : tb_tokens (do_account u h role disabled t) = tb_tokens t.
Proof. unfold do_account. case_bool_decide; [|done]. by destruct (upsert_account _ _ _ _ _). Qed.

Lemma step_keeps_tokens now o t : tokens_kept t (do_other now o t).
Proof.
  intros n r Hn. destruct o; cbn; try (by exists r).
  - case_bool_decide; by exists r.
  - destruct (_ && _); rewrite ?account_tokens; by exists r.
  - rewrite account_tokens. by exists r.
  - destruct (tb_accounts t !! username), (tb_sessions t !! digest); try (by exists r). destruct (_ <=? _)%Z; by exists r.
  - unfold insert_token. destruct (tb_tokens t !! name) eqn:Hnm; [by exists r|]. destruct (token_of _ _); [by exists r|].
    exists r. split; [|done]. cbn. by rewrite lookup_insert_ne by congruence.
  - destruct (decide (n = name)) as [->|Hne]; [exists (revoke r)|exists r]; (split; [|done]).
    + by rewrite lookup_alter_eq, Hn.
    + by rewrite lookup_alter_ne.
Qed.

Lemma steps_keep_tokens ok now t t' : steps ok now t t' → tokens_kept t t'.
Proof. apply steps_relate; [apply _|]. intros o t0 _. apply step_keeps_tokens. Qed.

(** The digest of a token names one row. *)
Definition digests_unique (t : Tables) : Prop :=
  ∀ n n' r r', tb_tokens t !! n = Some r → tb_tokens t !! n' = Some r' → tr_hash r = tr_hash r' → n = n'.

Lemma token_of_some d m n r : token_of d m = Some (n, r) → m !! n = Some r ∧ tr_hash r = d.
Proof.
  unfold token_of. intros Hh. apply head_Some_elem_of in Hh. apply list_elem_of_filter in Hh as [Hd Hin].
  apply elem_of_map_to_list in Hin. unfold has_digest in Hd. by apply bool_decide_eq_true in Hd.
Qed.

Lemma token_of_none d m : token_of d m = None → ∀ n r, m !! n = Some r → tr_hash r ≠ d.
Proof.
  unfold token_of. intros Hh n r Hr Hd. apply head_None in Hh. assert ((n, r) ∈ filter (λ p, has_digest d p = true) (map_to_list m)) as Hin.
  { apply list_elem_of_filter. split; [unfold has_digest; by apply bool_decide_eq_true_2|by apply elem_of_map_to_list]. }
  rewrite Hh in Hin. by apply elem_of_nil in Hin.
Qed.

Lemma step_unique now o t : digests_unique t → digests_unique (do_other now o t).
Proof.
  intros Hu. destruct o; cbn; try exact Hu.
  - case_bool_decide; exact Hu.
  - destruct (_ && _); [exact Hu|]. unfold digests_unique. rewrite account_tokens. exact Hu.
  - unfold digests_unique. rewrite account_tokens. exact Hu.
  - destruct (tb_accounts t !! username), (tb_sessions t !! digest); try done. by destruct (_ <=? _)%Z.
  - unfold insert_token. destruct (tb_tokens t !! name) eqn:Hnm; [done|]. destruct (token_of _ _) eqn:Ht; [done|].
    pose proof (token_of_none _ _ Ht) as Hno. intros n n' r r'. cbn. rewrite !lookup_insert_Some.
    intros [[<- <-]|[Hne Hr]] [[<- <-]|[Hne' Hr']] Hh; try done; [by destruct (Hno n' r')|by destruct (Hno n r)|by eapply Hu].
  - intros n n' r r' Hr Hr' Hh. cbn in Hr, Hr'. rewrite lookup_alter in Hr, Hr'.
    assert (∀ n r, (if decide (name = n) then revoke <$> tb_tokens t !! name else tb_tokens t !! n) = Some r →
      ∃ r0, tb_tokens t !! n = Some r0 ∧ tr_hash r0 = tr_hash r) as Hback.
    { intros m q. destruct (decide (name = m)) as [->|]; [|intros Hq; by exists q]. destruct (tb_tokens t !! m) as [r0|]; [|done]. intros [= <-]. by exists r0. }
    destruct (Hback n r Hr) as (r0 & Hr0 & Hh0). destruct (Hback n' r' Hr') as (r0' & Hr0' & Hh0'). eapply Hu; [done|done|congruence].
Qed.

(** ** The operations are sequences of actions *)

Section operations.
Context `{Sha256, Bcrypt, CryptoRand} {c : bool} {ok : Other → Prop} (Hok : ∀ o, (∀ b, o ≠ ORefund b) → ok o).
Implicit Types (x : Access) (now : Z).

(** A pool statement whose effect is an action, or none. *)
Lemma moved_pstmt {A} (f : SQL A) now x :
  (∀ t a tx, f now t = inl (a, tx) → steps ok now t (tx_writes tx t)) → writes c (pstmt f) now x (λ _ x', moved ok now x x').
Proof.
  intros Hf. apply wr_pstmt; [intros _; apply moved_others|]. destruct (f now _) as [[a t]|e] eqn:Ef; [|apply moved_others].
  etransitivity; [apply moved_others|]. apply moved_put. exact (Hf _ _ _ Ef).
Qed.

Lemma moved_last {A} (f : SQL A) now x :
  (∀ t a tx, f now t = inl (a, tx) → steps ok now t (tx_writes tx t)) → writes c (last (pstmt f)) now x (λ _ x', moved ok now x x').
Proof. intros Hf. apply wr_last. eapply writes_mono; [by apply moved_pstmt|]. by intros [a|e] x'. Qed.

Lemma moved_audit actor action target now t a tx : sql_audit actor action target now t = inl (a, tx) → steps ok now t (tx_writes tx t).
Proof. unfold sql_audit. destruct (forallb _ _); [|done]. intros [= _ <-]. by apply (step_one now (OAudit actor action target)), Hok. Qed.

Lemma changed_steps now actor u h role disabled recovery t t' :
  role ∈ ["owner"; "admin"] → (recovery = true → role = "owner" ∧ disabled = false) →
  changed actor u h role disabled recovery t t' → steps ok now t t'.
Proof.
  intros Hrole Hrec (_ & Hl & m & Hm & ->).
  assert (do_account u h role disabled t = set_sessions (drop_sessions u (tb_sessions t)) (set_accounts m t)) as Hdo.
  { unfold do_account. rewrite bool_decide_eq_true_2 by done. by rewrite Hm. }
  eapply steps_trans; [|by apply (step_one now (OAudit actor "account.update" u)), Hok]. rewrite <- Hdo. destruct recovery.
  - destruct (Hrec eq_refl) as [-> ->]. by apply (step_one now (ORecover u h)), Hok.
  - replace (do_account u h role disabled t) with (do_other now (OAccount u h role disabled) t); [by apply step_one, Hok|]. cbn.
    destruct (loses_owner _ _ _) eqn:El; [|done]. cbn. destruct (Hl eq_refl) as [|Hc]; [done|]. by rewrite (proj2 (Nat.leb_gt _ _) Hc).
Qed.

Lemma moved_SetAccount actor u password role disabled recovery now x :
  (recovery = true → role = "owner" ∧ disabled = false) →
  writes c (SetAccount actor u password role disabled recovery) now x (λ _ x', moved ok now x x').
Proof.
  intros Hrec. eapply writes_mono; [apply (SetAccount_writes ok)|]. intros e x' [Hno Hyes]. destruct e as [|e0 e]; [|by apply Hno].
  destruct (Hyes eq_refl) as (Hrole & h & y & My & _ & Hch & Hoth & _). intros Hx. destruct (My Hx) as [Hs Hy]. split; [|unfold script_ok; by rewrite Hoth].
  eapply steps_trans; [exact Hs|]. by eapply changed_steps.
Qed.

(** A transaction that, if it succeeds, has at its commit the effect of some
    actions. *)
Lemma moved_in_tx (fn : M AW error) now x (Q : Access → Prop) :
  (let x0 := put_tx no_tx (others_commit now x) in writes c fn now x0 (λ e x', moved ok now x0 x' ∧
     (e = [] → let z := others_commit now x' in steps ok now (ax_tables z) (view z) ∧ (moved ok now x z → Q (committed z))))) →
  writes c (in_tx fn) now x (λ e x', moved ok now x x' ∧ (e = [] → Q x')).
Proof.
  intros Hfn. apply wr_in_tx; [intros _; split; [apply moved_others|done]|].
  eapply writes_mono; [exact Hfn|]. intros e x' [M' Hyes].
  assert (moved ok now x x') as M by (etransitivity; [apply moved_others_tx|exact M']).
  split; [intros He; split; [etransitivity; [exact M|by apply moved_same]|done]|]. intros He. destruct (Hyes He) as [Hs HQ]. split.
  - intros _. split; [etransitivity; [exact M|apply moved_others_tx]|done].
  - assert (moved ok now x (others_commit now x')) as Mz by (etransitivity; [exact M|apply moved_others]).
    split; [|auto]. etransitivity; [exact Mz|]. etransitivity; [by apply moved_put|by apply moved_same].
Qed.

(** The first owner is there when the transaction commits, unless there were
    accounts when it had the lock. *)
Lemma Bootstrap_tx_writes u h now x :
  ax_tx x = no_tx →
  writes c (bootstrap_tx u h) now x (λ e x', moved ok now x x' ∧
    (e = [] → let z := others_commit now x' in steps ok now (ax_tables z) (view z) ∧
       tb_accounts (ax_tables z) = tb_accounts (ax_tables (others_commit now x)) ∧ (tb_accounts (ax_tables z) = ∅ → has_owner (view z)))).
Proof.
  intros Htx. unfold bootstrap_tx. set (y := others_commit now x). assert (moved ok now x y) as My by apply moved_others.
  apply wr_exec, wr_tstmt; fold y; [done|]. cbn -[and_then]. set (m := tb_accounts (ax_tables y)). set (x1 := put_tx _ y).
  assert (holding m x1) as K1 by (split; [cbn; set_solver|done]).
  assert (moved ok now x x1) as M1 by (etransitivity; [exact My|by apply moved_same]).
  assert (∀ t, tx_writes (ax_tx x1) t = t) as W1 by (intros t; cbn; unfold y; by rewrite others_tx, Htx).
  clearbody x1. set (y1 := others_commit now x1). assert (holding m y1) as Hy1 by by apply holding_others.
  assert (moved ok now x y1) as My1 by (etransitivity; [exact M1|apply moved_others]).
  apply wr_exec, wr_tstmt; fold y1; [done|]. cbn -[and_then].
  replace (view y1) with (ax_tables y1) by (unfold view, y1; by rewrite others_tx, W1). rewrite (proj2 Hy1).
  set (x2 := put_tx _ y1). assert (holding m x2) as K2 by by apply holding_and_then.
  assert (moved ok now x x2) as M2 by (etransitivity; [exact My1|by apply moved_same]).
  assert (∀ t, tx_writes (ax_tx x2) t = t) as W2 by (intros t; cbn; unfold y1; by rewrite others_tx, W1).
  clearbody x2. clear Hy1 My1 y1 M1 K1 W1.
  destruct (size m) as [|n] eqn:Es.
  2:{ apply writes_ret. split; [done|]. intros _. cbv zeta. destruct (holding_others m now x2 K2) as [_ Hz]. unfold view. rewrite others_tx, W2, Hz.
      split_and!; [apply rtc_refl|done|]. intros He. by rewrite He in Es. }
  assert (m = ∅) as He by (by apply map_size_empty_inv).
  set (y2 := others_commit now x2). assert (holding m y2) as Hy2 by by apply holding_others.
  assert (moved ok now x y2) as My2 by (etransitivity; [exact M2|apply moved_others]).
  apply wr_exec, wr_tstmt; fold y2; [done|]. unfold sql_first_owner.
  replace (view y2) with (ax_tables y2) by (unfold view, y2; by rewrite others_tx, W2). rewrite (proj2 Hy2), He, lookup_empty.
  set (a := {| ac_hash := h; ac_role := "owner"; ac_disabled := false; ac_version := 1 |}).
  set (x3 := put_tx _ y2). assert (holding m x3) as K3 by by apply holding_and_then.
  assert (moved ok now x x3) as M3 by (etransitivity; [exact My2|by apply moved_same]).
  assert (∀ t, tx_writes (ax_tx x3) t = put_account u a t) as W3 by (intros t; cbn; unfold y2; by rewrite others_tx, W2).
  clearbody x3. set (y3 := others_commit now x3). assert (moved ok now x y3) as My3 by (etransitivity; [exact M3|apply moved_others]).
  apply wr_last, wr_tstmt; fold y3; [done|]. unfold sql_audit. destruct (forallb _ _); [|done].
  split; [etransitivity; [exact My3|by apply moved_same]|]. intros _. cbv zeta. set (x4 := put_tx _ y3).
  destruct (holding_others m now x4) as [_ Hz]; [by apply holding_and_then, holding_others|]. set (z := others_commit now x4) in *.
  assert (view z = add_audit "bootstrap" "account.create" u (put_account u a (ax_tables z))) as ->.
  { unfold view, z. rewrite others_tx. cbn. unfold y3. by rewrite others_tx, W3. }
  split_and!; [|by rewrite Hz|intros _; exists u, a; split; [apply lookup_insert_eq|done]].
  eapply steps_trans; [by apply (step_one now (OBootstrap u h)), Hok|]. eapply steps_trans; [|by apply (step_one now (OAudit "bootstrap" "account.create" u)), Hok].
  cbn [do_other]. rewrite bool_decide_eq_true_2 by congruence. unfold put_account. rewrite Hz, He, insert_empty. apply rtc_refl.
Qed.

Lemma moved_Bootstrap u password now x : writes c (Bootstrap u password) now x (λ _ x', moved ok now x x').
Proof.
  unfold Bootstrap. destruct (negb _); [by apply writes_ret|]. eapply writes_bind.
  - apply passwordHash_writes with (Q := λ _ x', ax_tables x' = ax_tables x ∧ ax_others x' = ax_others x); [done|done].
  - intros [h|e] x1 [Ht Ho]; [|by apply writes_ret, moved_same]. eapply writes_mono.
    + apply (moved_in_tx (bootstrap_tx u h) now x1 (λ _, True)). eapply writes_mono; [by apply Bootstrap_tx_writes|].
      intros e x' [M' Hyes]. split; [done|]. intros He. split; [by apply Hyes|done].
    + intros e x' [M' _]. etransitivity; [by apply moved_same|exact M'].
Qed.

Lemma AllowAttempt_writes ip now x :
  writes c (AllowAttempt ip) now x (λ r x', let y := others_commit now x in
    match r with
    | (k, []) => let b := bump now (tb_buckets (ax_tables y) !! Digest ip) in
                  k = (bk_attempts b <=? attemptBudget)%Z ∧ x' = put_tables (do_other now (OAllow (Digest ip)) (ax_tables y)) y
    | _ => x' = y
    end).
Proof.
  unfold AllowAttempt. eapply writes_bind with (λ r x', let y := others_commit now x in match r with
    | inl n => n = bk_attempts (bump now (tb_buckets (ax_tables y) !! Digest ip)) ∧ x' = put_tables (do_other now (OAllow (Digest ip)) (ax_tables y)) y
    | inr e => e ≠ [] ∧ x' = y end).
  - by apply wr_pstmt.
  - intros [n|e] x' Hr; apply writes_ret; [by destruct Hr as [-> ->]|]. destruct Hr as [He ->]. by destruct e.
Qed.

Lemma moved_AllowAttempt ip now x : writes c (AllowAttempt ip) now x (λ _ x', moved ok now x x').
Proof.
  eapply writes_mono; [apply AllowAttempt_writes|]. intros [k [|e0 e]] x' Hr; cbn in Hr.
  - destruct Hr as [_ ->]. etransitivity; [apply moved_others|]. by apply moved_put, (step_one now (OAllow (Digest ip))), Hok.
  - rewrite Hr. apply moved_others.
Qed.

(** The account a login verified, as it was when it was read. *)
Definition verified (u password : string) (a : Actor) (t : Tables) : Prop :=
  ∃ acc, tb_accounts t !! u = Some acc ∧ a = account_actor u acc ∧ ac_disabled acc = false ∧
    bcrypt_compare (if bool_decide (ac_hash acc = "") then dummyHash else ac_hash acc) password = true.

Lemma Login_writes ip u password now x :
  writes c (Login ip u password) now x (λ r x', moved ok now x x' ∧ (r.2 = [] → verified u password r.1 (ax_tables x'))).
Proof.
  unfold Login. eapply writes_bind; [apply moved_AllowAttempt|]. intros [k e] x1 Hm.
  destruct e as [|e0 e]; cbn [nil_err negb]; [|by apply writes_ret]. destruct k; cbn [negb]; [|by apply writes_ret].
  assert (moved ok now x (others_commit now x1)) as Hm1 by (etransitivity; [exact Hm|apply moved_others]).
  eapply writes_bind with (λ r x', x' = others_commit now x1 ∧ match r with inl o => o = tb_accounts (ax_tables x') !! u | inr e => e ≠ [] end).
  - apply wr_pstmt; [done|]. unfold sql_select_account. destruct (pg_text u); [|done]. by rewrite put_nothing.
  - intros [row|e] x2 [-> Hr]; apply writes_ret; [|by split].
    split; [exact Hm1|]. destruct row as [a|]; [|done].
    cbv zeta. match goal with |- context [negb ?v || ac_disabled a] => destruct (negb v || ac_disabled a) eqn:Ev end; [done|]. intros _. apply orb_false_iff in Ev as [Ev Ed]. apply negb_false_iff in Ev.
    exists a. split_and!; [done|done|done|exact Ev].
Qed.

Lemma IssueSession_writes a now x :
  writes c (IssueSession a) now x (λ r x', moved ok now x x' ∧
    match r with
    | inl (token, expires) => expires = (now + sessionTTL)%Z ∧ (script_ok ok x → ∃ t, steps ok now (ax_tables x) t ∧ issuable a (tb_accounts t) = true) ∧
        tb_sessions (ax_tables x') !! Digest token = Some {| sr_username := a_Name a; sr_version := a_Version a; sr_expires := expires |}
    | inr e => e ≠ []
    end).
Proof.
  unfold IssueSession. eapply writes_bind with (λ r x', ax_tables x' = ax_tables x ∧ ax_others x' = ax_others x ∧ match r with inl _ => True | inr e => e ≠ [] end).
  { unfold RandomToken. apply wr_maybe; [intros _; by apply writes_ret|]. by apply wr_draw. }
  intros [token|e] x1 (Ht & Ho & He); [|apply writes_ret; split; [by apply moved_same|done]].
  eapply writes_bind with (λ e x', e = (now + sessionTTL)%Z ∧ x' = x1); [by intros w Hx Hn Hc; cbn; rewrite Hx, Hn|]. intros ? ? [-> ->].
  eapply writes_bind with (λ _ x', x' = others_commit now x1); [by apply wr_others|]. intros _ ? ->.
  set (y := others_commit now x1). eapply writes_bind with (λ t x', t = ax_tables y ∧ x' = y); [by apply (writes_gets ax_tables)|]. intros ? ? [-> ->].
  assert (moved ok now x y) as Hy by (etransitivity; [by apply moved_same|apply moved_others]).
  assert (moved ok now x (others_commit now y)) as Hy2 by (etransitivity; [exact Hy|apply moved_others]).
  eapply writes_bind with (λ r x', match r with
    | inl n => moved ok now x x' ∧ (n = 1%nat → issuable a (tb_accounts (ax_tables y)) = true ∧
        tb_sessions (ax_tables x') !! Digest token = Some {| sr_username := a_Name a; sr_version := a_Version a; sr_expires := (now + sessionTTL)%Z |})
    | inr e => moved ok now x x' ∧ e ≠ [] end).
  - apply wr_pstmt; [done|]. unfold sql_issue. destruct (issuable a _) eqn:Ei; [|by rewrite put_nothing].
    destruct (tb_sessions _ !! Digest token) eqn:Es; [done|]. split; [|intros _; split; [done|cbn; apply lookup_insert_eq]].
    etransitivity; [exact Hy2|]. apply moved_put. unfold issuable in Ei. destruct (tb_accounts (ax_tables y) !! a_Name a) as [acc|] eqn:Ea; [|done].
    apply andb_true_iff in Ei as [Ev _]. apply Z.eqb_eq in Ev.
    destruct (steps_age anything now _ _ (proj1 (others_steps now y (script_anything y))) _ _ Ea) as (acc' & Ha' & Hle).
    pose proof (step_one now (OIssue (Digest token) (a_Name a) (a_Version a) (now + sessionTTL)%Z) (ax_tables (others_commit now y)) (Hok (OIssue _ _ _ _) ltac:(intros; discriminate))) as Hstep.
    cbn in Hstep. rewrite Ha', Es in Hstep. by rewrite (proj2 (Z.leb_le _ _)) in Hstep by lia.
  - intros [n|e] x2 Hr; apply writes_ret; [|done]. destruct Hr as [Hm Hn]. split; [exact Hm|]. case_bool_decide as H1n; [|done].
    destruct (Hn H1n) as [Hi Hs]. split; [done|]. split; [|done]. intros Hx. exists (ax_tables y). split; [by apply Hy|done].
Qed.

Lemma Session_writes token now x :
  writes c (Session token) now x (λ r x', x' = others_commit now x ∧
    (r.2 = [] → session_actor now (Digest token) (ax_tables x') = Some r.1) ∧
    (c = true → r = resolved (inl (session_actor now (Digest token) (ax_tables x'))))).
Proof.
  unfold Session. eapply writes_bind with (λ r x', x' = others_commit now x ∧ match r with
    | inl o => o = session_actor now (Digest token) (ax_tables x') | inr e => e ≠ [] ∧ c = false end).
  - by apply (wr_read (λ now t, session_actor now (Digest token) t)).
  - intros [o|e] x' [-> Hr]; apply writes_ret; (split; [done|]); cbn in *; [rewrite Hr; split; [|done]; by destruct (session_actor _ _ _)|]. destruct Hr. split; [done|congruence].
Qed.

Lemma ServiceToken_writes token now x :
  writes c (ServiceToken token) now x (λ r x', x' = others_commit now x ∧ a_Role r.1 = "service" ∧
    (r.2 = [] → ∃ name row, token_of (Digest token) (tb_tokens (ax_tables x')) = Some (name, row) ∧ tr_revoked row = false ∧
       r.1 = {| a_Name := name; a_Role := "service"; a_Permissions := tr_permissions row; a_Namespaces := tr_namespaces row; a_Version := 0 |}) ∧
    (c = true → ∀ name row, token_of (Digest token) (tb_tokens (ax_tables x')) = Some (name, row) → tr_revoked row = false → r.2 = [])).
Proof.
  unfold ServiceToken. eapply writes_bind with (λ r x', x' = others_commit now x ∧ match r with
    | inl o => o = match token_of (Digest token) (tb_tokens (ax_tables x')) with
                   | Some (name, row) => if tr_revoked row then None else Some {| a_Name := name; a_Role := "service";
                       a_Permissions := tr_permissions row; a_Namespaces := tr_namespaces row; a_Version := 0 |}
                   | None => None end
    | inr e => e ≠ [] ∧ c = false end).
  - by apply (wr_read (λ now t, match token_of (Digest token) (tb_tokens t) with
                   | Some (name, row) => if tr_revoked row then None else Some {| a_Name := name; a_Role := "service";
                       a_Permissions := tr_permissions row; a_Namespaces := tr_namespaces row; a_Version := 0 |}
                   | None => None end)).
  - intros [o|e] x' [-> Hr]; apply writes_ret; (split; [done|]); cbn in *.
    + rewrite Hr. destruct (token_of _ _) as [[n row]|] eqn:Et; [|by split_and!]. destruct (tr_revoked row) eqn:Er; cbn.
      * split_and!; [done|done|]. intros _ ? ? [= <- <-]. congruence.
      * split_and!; [done| |done]. intros _. by exists n, row.
    + destruct Hr as [He ->]. by destruct e.
Qed.

(** Nobody else takes a name or a digest that is being inserted. *)
Definition vacant (name digest : string) (t : Tables) : Prop := tb_tokens t !! name = None ∧ token_of digest (tb_tokens t) = None.

Lemma vacant_step now o t name d :
  (∀ l, l ∈ [LToken name; LDigest d] → waits l o = false) → vacant name d t → vacant name d (do_other now o t).
Proof.
  intros Hw [Hn Hd]. assert (∀ t', tb_tokens t' = tb_tokens t → vacant name d t') as Hsame by (intros t' E; unfold vacant; by rewrite E).
  destruct o; cbn; try (by apply Hsame).
  - case_bool_decide; by apply Hsame.
  - destruct (_ && _); apply Hsame; [done|apply account_tokens].
  - apply Hsame, account_tokens.
  - destruct (tb_accounts t !! username), (tb_sessions t !! digest); try (by apply Hsame). destruct (_ <=? _)%Z; by apply Hsame.
  - pose proof (Hw (LToken name) ltac:(set_solver)) as Wn. pose proof (Hw (LDigest d) ltac:(set_solver)) as Wd. cbn in Wn, Wd.
    apply bool_decide_eq_false in Wn, Wd. unfold insert_token. destruct (tb_tokens t !! name0); [by apply Hsame|]. destruct (token_of (tr_hash row) _); [by apply Hsame|].
    split; cbn; [by rewrite lookup_insert_ne by congruence|]. destruct (token_of d (<[name0 := row]> _)) as [[n r]|] eqn:Et; [|done].
    apply token_of_some in Et as [Et Er]. apply lookup_insert_Some in Et as [[_ <-]|[_ Et]]; [congruence|]. by destruct (token_of_none _ _ Hd n r Et).
  - pose proof (Hw (LToken name) ltac:(set_solver)) as Wn. cbn in Wn. apply bool_decide_eq_false in Wn.
    split; cbn; [by rewrite lookup_alter_ne by congruence|]. destruct (token_of d (alter _ _ _)) as [[n r]|] eqn:Et; [|done].
    apply token_of_some in Et as [Et Er]. rewrite lookup_alter in Et. destruct (decide (name0 = n)) as [->|]; [|by destruct (token_of_none _ _ Hd n r Et)].
    destruct (tb_tokens t !! n) as [r0|] eqn:E0; [|done]. injection Et as <-. by destruct (token_of_none _ _ Hd n r0 E0).
Qed.

Lemma vacant_others now x name d :
  LToken name ∈ tx_locks (ax_tx x) → LDigest d ∈ tx_locks (ax_tx x) → vacant name d (ax_tables x) → vacant name d (ax_tables (others_commit now x)).
Proof. intros Hn Hd. apply (others_keep (vacant name d) [LToken name; LDigest d]); [set_solver|]. intros o t. apply vacant_step. Qed.

(** What the transaction inserts, if anything, it still can insert. *)
Definition inserting (name : string) (row : TokenRow) (tx : Tx) (t : Tables) : Prop :=
  ((∀ t, tx_writes tx t = t) ∧ is_Some (tb_tokens t !! name)) ∨
  ((∀ t, tx_writes tx t = set_tokens (<[name := row]> (tb_tokens t)) t) ∧ vacant name (tr_hash row) t ∧
   LToken name ∈ tx_locks tx ∧ LDigest (tr_hash row) ∈ tx_locks tx).

Lemma inserting_others now name row tx x :
  tx_locks tx ⊆ tx_locks (ax_tx x) → inserting name row tx (ax_tables x) → inserting name row tx (ax_tables (others_commit now x)).
Proof.
  intros Hls [[Hw [r Hr]]|(Hw & Hv & Hn & Hd)]; [left|right].
  - split; [done|]. destruct (steps_keep_tokens _ _ _ _ (proj1 (others_steps now x (script_anything x))) _ _ Hr) as (r' & Hr' & _). by exists r'.
  - split_and!; [done| |done|done]. apply vacant_others; [by apply Hls|by apply Hls|done].
Qed.

Lemma inserting_step now name row tx t : inserting name row tx t → tx_writes tx t = do_other now (OProvision name row) t.
Proof. cbn. unfold insert_token. intros [[Hw [r Hr]]|(Hw & [Hn Hd] & _)]; rewrite Hw; [|by rewrite Hn, Hd]. rewrite Hr. by destruct t. Qed.

Lemma insert_token_tx name row now x tx :
  (∀ t, tx_writes (ax_tx x) t = t) → sql_insert_token name row now (ax_tables x) = inl (tt, tx) → inserting name row (and_then (ax_tx x) tx) (ax_tables x).
Proof.
  intros Hw. unfold sql_insert_token, insert_token, inserting. destruct (tb_tokens (ax_tables x) !! name) as [r|] eqn:Er.
  - intros [= <-]. left. split; [intros t; cbn; apply Hw|]. by exists r.
  - destruct (token_of (tr_hash row) _) eqn:Et; [done|]. intros [= <-]. right. cbn. split_and!; [intros t; by rewrite Hw|done|set_solver|set_solver].
Qed.

(** The credential as the transaction saw it: stored before, or by it. *)
Definition stored (name d : string) (ps nss : list string) (now : Z) (x : Access) : Prop :=
  ∃ y t row, moved ok now x y ∧ steps ok now (ax_tables y) t ∧ tb_tokens t !! name = Some row ∧ same_token d ps nss row = true.

Lemma provision_tx_writes actor name d ps nss now x :
  ax_tx x = no_tx →
  writes c (provision_tx actor name d ps nss) now x (λ e x', moved ok now x x' ∧
    (e = [] → let z := others_commit now x' in steps ok now (ax_tables z) (view z) ∧ stored name d ps nss now x)).
Proof.
  intros Htx. unfold provision_tx. set (y := others_commit now x). assert (moved ok now x y) as My by apply moved_others.
  set (row := {| tr_hash := d; tr_permissions := ps; tr_namespaces := nss; tr_revoked := false |}).
  assert (∀ t, tx_writes (ax_tx y) t = t) as Wy by (intros t; unfold y; by rewrite others_tx, Htx).
  apply wr_exec, wr_tstmt; fold y; [done|]. replace (view y) with (ax_tables y) by (unfold view; by rewrite Wy).
  destruct (sql_insert_token name row now (ax_tables y)) as [[[] tx]|e] eqn:Ei.
  2:{ unfold sql_insert_token in Ei. destruct (tb_tokens _ !! name), (insert_token _ _ _); (injection Ei as <- || discriminate); by split. }
  apply insert_token_tx in Ei as I1; [|done]. set (x1 := put_tx _ y). change (inserting name row (ax_tx x1) (ax_tables x1)) in I1.
  assert (moved ok now x x1) as M1 by (etransitivity; [exact My|by apply moved_same]).
  clearbody x1. clear My Ei Wy y. set (y := others_commit now x1).
  assert (inserting name row (ax_tx x1) (ax_tables y)) as Iy by by apply inserting_others.
  assert (moved ok now x y) as My by (etransitivity; [exact M1|apply moved_others]).
  apply wr_exec, wr_tstmt; fold y; [done|]. cbn -[and_then].
  assert (steps ok now (ax_tables y) (view y)) as Sy.
  { unfold view, y. rewrite others_tx. fold y. rewrite (inserting_step now name row) by done. by apply step_one, Hok. }
  set (x2 := put_tx _ y). assert (moved ok now x x2) as M2 by (etransitivity; [exact My|by apply moved_same]).
  destruct (tb_tokens (view y) !! name) as [r|] eqn:Er; [|by apply writes_ret].
  destruct (same_token d ps nss r) eqn:Es; cbn [negb]; [|by apply writes_ret].
  set (y2 := others_commit now x2). assert (moved ok now x y2) as My2 by (etransitivity; [exact M2|apply moved_others]).
  apply wr_last, wr_tstmt; fold y2; [done|]. unfold sql_audit. destruct (forallb _ _); [|done].
  split; [etransitivity; [exact My2|by apply moved_same]|]. intros _. cbv zeta. split; [|by exists y, (view y), r].
  set (x3 := put_tx _ y2). set (z := others_commit now x3).
  assert (ax_tx z = and_then (and_then (ax_tx x1) no_tx) (writing (add_audit actor "token.provision" name))) as Hz.
  { unfold z. rewrite others_tx. cbn [x3 put_tx ax_tx]. unfold y2. rewrite others_tx. cbn [x2 put_tx ax_tx]. unfold y. by rewrite others_tx. }
  assert (inserting name row (ax_tx x1) (ax_tables z)) as Iz.
  { apply inserting_others; [rewrite <- others_tx with now x3; fold z; rewrite Hz; cbn; set_solver|].
    apply inserting_others; [cbn; unfold y; rewrite others_tx; set_solver|]. done. }
  unfold view. rewrite Hz. cbn [and_then tx_writes no_tx writing]. rewrite (inserting_step now name row) by done.
  eapply steps_trans; [by apply (step_one now (OProvision name row)), Hok|by apply (step_one now (OAudit actor "token.provision" name)), Hok].
Qed.

Lemma ProvisionToken_writes actor name token ps nss now x :
  writes c (ProvisionToken actor name token ps nss) now x (λ e x', moved ok now x x' ∧ (e = [] → stored name (Digest token) ps nss now x)).
Proof.
  unfold ProvisionToken. destruct (negb (namePattern name)); [by apply writes_ret|]. destruct (nil_err _) eqn:Ev; cbn [negb].
  2:{ apply writes_ret. split; [done|]. intros He. by rewrite He in Ev. }
  apply (moved_in_tx _ now x (λ _, stored name (Digest token) ps nss now x)). eapply writes_mono; [by apply provision_tx_writes|].
  intros e x' [M' Hyes]. split; [done|]. intros He. destruct (Hyes He) as [Hs (y & t & row & My & Hrow)]. split; [done|]. intros _.
  exists y, t, row. split; [|done]. etransitivity; [apply moved_others_tx|exact My].
Qed.

(** A revocation commits as one, of the row it found. *)
Lemma RevokeToken_writes actor name now x :
  writes c (RevokeToken actor name) now x (λ e x', moved ok now x x' ∧
    (e = [] → is_Some (tb_tokens (ax_tables x) !! name) → ∃ t, (script_ok ok x → steps ok now (ax_tables x) t) ∧
       ax_tables x' = add_audit actor "token.revoke" name (do_other now (ORevoke name) t))).
Proof.
  unfold RevokeToken. apply (moved_in_tx _ now x (λ x', is_Some (tb_tokens (ax_tables x) !! name) → ∃ t, (script_ok ok x → steps ok now (ax_tables x) t) ∧
    ax_tables x' = add_audit actor "token.revoke" name (do_other now (ORevoke name) t))).
  cbv zeta. set (x0 := put_tx no_tx _). set (y := others_commit now x0). assert (moved ok now x0 y) as My by apply moved_others.
  assert (is_Some (tb_tokens (ax_tables x) !! name) → is_Some (tb_tokens (ax_tables y) !! name)) as Hkept.
  { assert (moved anything now x y) as Many by (etransitivity; [apply moved_others_tx|apply moved_others]).
    intros [r Hr]. destruct (steps_keep_tokens _ _ _ _ (proj1 (Many (script_anything x))) _ _ Hr) as (r' & Hr' & _). by exists r'. }
  apply wr_exec, wr_tstmt; fold y; [done|]. unfold sql_revoke_token. destruct (pg_text name); [|done].
  replace (view y) with (ax_tables y) by (unfold view, y; by rewrite others_tx). set (x1 := put_tx _ y).
  assert (moved ok now x0 x1) as M1 by (etransitivity; [exact My|by apply moved_same]).
  set (y1 := others_commit now x1). assert (moved ok now x0 y1) as My1 by (etransitivity; [exact M1|apply moved_others]).
  apply wr_last, wr_tstmt; fold y1; [done|]. unfold sql_audit. destruct (forallb _ _); [|done].
  split; [etransitivity; [exact My1|by apply moved_same]|]. intros _. cbv zeta. set (x2 := put_tx _ y1). set (z := others_commit now x2).
  assert (view z = add_audit actor "token.revoke" name (tx_writes (match tb_tokens (ax_tables y) !! name with
    | Some _ => and_then (locking [LToken name]) (writing (λ t, set_tokens (alter revoke name (tb_tokens t)) t)) | None => no_tx end) (ax_tables z))) as Hz.
  { unfold view, z. rewrite others_tx. cbn [x2 put_tx ax_tx]. unfold y1. rewrite others_tx. cbn [x1 put_tx ax_tx]. unfold y. by rewrite others_tx. }
  destruct (tb_tokens (ax_tables y) !! name) as [r|]; cbn [tx_writes and_then locking writing no_tx] in Hz; rewrite Hz.
  - split; [eapply steps_trans; [by apply (step_one now (ORevoke name)), Hok|by apply (step_one now (OAudit actor "token.revoke" name)), Hok]|].
    intros Mz _. exists (ax_tables z). split; [intros Hx; by apply Mz|exact Hz].
  - split; [by apply (step_one now (OAudit actor "token.revoke" name)), Hok|]. intros _ Hr. by destruct (Hkept Hr).
Qed.
End operations.
