(* ===== verification/AccessSafety.v ===== *)
(** * The identity store over time

    Any schedule of calls to the store, at any times, with any failures and any
    actions of other replicas in between: an owner always remains, an account
    change ends every earlier session, revoked tokens stay revoked, and
    passwords can be tried only a few times per minute. *)

From stdpp Require Import base tactics gmap sets strings list sorting.
From Stdlib Require Import ZArith Ascii Lia.
From S2P Require Import Prelude GoLib NsNames NsLedger NsService Hoare Utf8 NsConfig NsConfigSamples ComputeVectors Access AccessRules AccessFacts.

(** A call as the handlers and the command line make it: only the command line
    asks for recovery, and always for an enabled owner. *)
Inductive Call :=
| CBootstrap (username password : string)
| CSetAccount (actor username password role : string) (disabled : bool)
| CRecover (username password : string)
| CLogin (ip username password : string)
| CIssue (a : Actor)
| CSession (token : string)
| CLogout (token : string)
| CProvision (actor name token : string) (permissions namespaces : list string)
| CToken (token : string)
| CRevoke (actor name : string)
| CAudit (actor action target : string)
| CPrune
| CAllow (ip : string)
| CRefund (ip : string).

Definition at_time {X} (now : Z) (w : World X) : World X :=
  {| w_ledger := w_ledger w; w_now := now; w_adv := w_adv w; w_lockobjs := w_lockobjs w; w_next := w_next w; w_faults := w_faults w; w_ext := w_ext w |}.

Abbreviation tables_of w := (ax_tables (w_ext w)).

(** At some times, any actions. *)
Definition later : Tables → Tables → Prop := rtc (λ t t', ∃ now, step anything now t t').

#[export] Instance later_preorder : PreOrder later.
Proof. unfold later. apply _. Qed.

Lemma steps_later now t t' : steps anything now t t' → later t t'.
Proof. intros Hs. induction Hs as [|t1 t2 t3 H12 _ IH]; [apply rtc_refl|]. eapply rtc_l; [by exists now|done]. Qed.

Lemma later_preserve (P : Tables → Prop) t t' : (∀ now o t, P t → P (do_other now o t)) → later t t' → P t → P t'.
Proof. intros Hone Hs. induction Hs as [|t1 t2 t3 (now & o & _ & ->) _ IH]; auto. Qed.

Lemma later_relate (R : Tables → Tables → Prop) `{!PreOrder R} t t' : (∀ now o t, R t (do_other now o t)) → later t t' → R t t'.
Proof. intros Hone Hs. induction Hs as [|t1 t2 t3 (now & o & _ & ->) _ IH]; [reflexivity|]. etransitivity; [apply Hone|exact IH]. Qed.

Section schedule.
Context `{Sha256, Bcrypt, CryptoRand}.

Definition drop {A} (m : M AW A) : M AW () := m ;;! ret tt.

Definition perform (k : Call) : M AW () :=
  match k with
  | CBootstrap u p => drop (Bootstrap u p)
  | CSetAccount actor u p role disabled => drop (SetAccount actor u p role disabled false)
  | CRecover u p => drop (SetAccount "local-recovery" u p "owner" false true)
  | CLogin ip u p => drop (Login ip u p)
  | CIssue a => drop (IssueSession a)
  | CSession t => drop (Session t)
  | CLogout t => drop (RevokeSession t)
  | CProvision actor n t ps nss => drop (ProvisionToken actor n t ps nss)
  | CToken t => drop (ServiceToken t)
  | CRevoke actor n => drop (RevokeToken actor n)
  | CAudit a b d => drop (Audit a b d)
  | CPrune => drop Prune
  | CAllow ip => drop (AllowAttempt ip)
  | CRefund ip => drop (RefundAttempt ip)
  end.

Fixpoint run_calls (l : list (Z * Call)) (w : AW) : AW :=
  match l with
  | [] => w
  | (now, k) :: l => run_calls l (perform k (at_time now w)).2
  end.

Lemma drop_writes {A} c (m : M AW A) now x (Q : Access → Prop) : writes c m now x (λ _, Q) → writes c (drop m) now x (λ _, Q).
Proof. intros Hm. unfold drop. eapply writes_bind; [exact Hm|]. intros a x' HQ. by apply writes_ret. Qed.

Definition refunds (k : Call) : option string := match k with CRefund ip => Some (Digest ip) | _ => None end.

(** Every call is a sequence of allowed actions. *)
Lemma perform_moved (ok : Other → Prop) k now x :
  (∀ o, (∀ b, o ≠ ORefund b) → ok o) → (∀ b, refunds k = Some b → ok (ORefund b)) → writes false (perform k) now x (λ _ x', moved ok now x x').
Proof.
  intros Hok Hr. destruct k; cbn [perform]; apply drop_writes.
  - by apply moved_Bootstrap.
  - by apply moved_SetAccount.
  - by apply moved_SetAccount.
  - eapply writes_mono; [exact (Login_writes Hok _ _ _ now x)|]. by intros ? ? [? _].
  - eapply writes_mono; [exact (IssueSession_writes Hok _ now x)|]. by intros ? ? [? _].
  - eapply writes_mono; [apply Session_writes|]. intros r x' [-> _]. apply moved_others.
  - apply moved_last. intros t a t' [= _ <-]. by apply (step_one now (OLogout (Digest token))), Hok.
  - eapply writes_mono; [exact (ProvisionToken_writes Hok _ _ _ _ _ now x)|]. by intros ? ? [? _].
  - eapply writes_mono; [apply ServiceToken_writes|]. intros r x' [-> _]. apply moved_others.
  - eapply writes_mono; [exact (RevokeToken_writes Hok _ _ now x)|]. by intros ? ? [? _].
  - apply moved_last. intros t a t'. by apply moved_audit.
  - unfold Prune. apply wr_exec. eapply writes_mono.
    + apply (moved_pstmt (ok := ok)). intros t a t' [= _ <-]. by apply (step_one now OPruneSessions), Hok.
    + intros [a|e] x' Hm; [|done]. eapply writes_mono.
      * apply (moved_last (ok := ok)). intros t b t' [= _ <-]. by apply (step_one now OPruneBuckets), Hok.
      * intros e x2 Hm2. by etransitivity.
  - by apply moved_AllowAttempt.
  - apply moved_last. intros t a t' [= _ <-]. by apply (step_one now (ORefund (Digest ip))), Hr.
Qed.

Lemma perform_later k now (w : AW) : later (tables_of w) (tables_of (perform k (at_time now w)).2).
Proof.
  eapply steps_later. eapply (writes_run (c := false) (perform k) (at_time now w) (λ _ x', moved anything now (w_ext w) x')); [|done|apply script_anything].
  by apply perform_moved.
Qed.

Lemma run_later l (w : AW) : later (tables_of w) (tables_of (run_calls l w)).
Proof.
  revert w. induction l as [|[now k] l IH]; intros w; cbn; [apply rtc_refl|]. etransitivity; [apply perform_later|apply IH].
Qed.

Lemma bootstrap_owner u p now x :
  tb_accounts (found now x) = ∅ → writes false (Bootstrap u p) now x (λ e x', e = [] → has_owner (ax_tables x')).
Proof.
  intros He. unfold Bootstrap. destruct (negb _); [by apply writes_ret|]. eapply writes_bind.
  - apply passwordHash_writes with (Q := λ r x', (ax_tables x' = ax_tables x ∧ ax_others x' = ax_others x ∧ ax_tx x' = ax_tx x) ∧
      match r with inl _ => True | inr e => e ≠ [] end); [done|done].
  - intros [h|e] x1 ((Ht & Ho & Hx) & Hn); [|by apply writes_ret]. rewrite <- (found_same now x x1 Ht Ho Hx) in He.
    apply wr_in_tx; [done|]. eapply writes_mono; [by apply (Bootstrap_tx_writes (ok := anything))|].
    intros e x' [_ Hyes]. split; [done|]. intros Hnil. split; [done|]. intros _. destruct (Hyes Hnil) as (_ & Hm & Hown). apply Hown. by rewrite Hm.
Qed.

(** C12: Whatever is called, fails or is done by other replicas, also between
    the statements of a transaction, the last enabled owner is never disabled or
    demoted: once there is an enabled owner there always is one. Only the
    advisory lock keeps two replicas from demoting two owners at once. And
    bootstrapping creates an owner when no account exists by the time it has
    that lock. *)
Theorem owner_survives l (w : AW) :
  (has_owner (tables_of w) → has_owner (tables_of (run_calls l w))) ∧
  (∀ u p, tb_accounts (found (w_now w) (w_ext w)) = ∅ → (Bootstrap u p w).1 = [] → has_owner (tables_of (Bootstrap u p w).2)).
Proof.
  split; [apply later_preserve with (P := has_owner); [intros now; apply step_keeps_owner|apply run_later]|].
  intros u p He Hb. apply (bootstrap_owner u p (w_now w) (w_ext w) He w eq_refl eq_refl ltac:(done)), Hb.
Qed.

(** ** Sessions *)

(** The tables a call reads, when it answers. *)
Lemma Session_accepts token (w : AW) a :
  (Session token w).1 = (a, []) → ∃ t, later (tables_of w) t ∧ session_actor (w_now w) (Digest token) t = Some a.
Proof.
  intros Hr. pose proof (writes_run (c := false) _ w _ (Session_writes (c := false) token (w_now w) (w_ext w)) ltac:(done)) as (Hx & Hok & _).
  rewrite Hr in Hok. exists (tables_of (Session token w).2). split; [|by apply Hok]. rewrite Hx.
  eapply steps_later, others_steps, script_anything.
Qed.

Lemma IssueSession_grants a (w : AW) r :
  (IssueSession a w).1 = inl r → ∃ t, later (tables_of w) t ∧ issuable a (tb_accounts t) = true.
Proof.
  intros Hr. pose proof (writes_run (c := false) _ w _ (IssueSession_writes (c := false) (ok := anything) ltac:(done) a (w_now w) (w_ext w)) ltac:(done)) as [_ Hi].
  rewrite Hr in Hi. destruct r as [token e]. destruct Hi as (_ & Ht & _). destruct (Ht (script_anything _)) as (t & Hs & Hi).
  exists t. split; [by eapply steps_later|done].
Qed.

Lemma Login_verifies ip u p (w : AW) a :
  (Login ip u p w).1 = (a, []) → later (tables_of w) (tables_of (Login ip u p w).2) ∧ verified u p a (tables_of (Login ip u p w).2).
Proof.
  intros Hr. pose proof (writes_run (c := false) _ w _ (Login_writes (c := false) (ok := anything) ltac:(done) ip u p (w_now w) (w_ext w)) ltac:(done)) as [Hm Hv].
  rewrite Hr in Hv. split; [|by apply Hv]. eapply steps_later, Hm, script_anything.
Qed.

(** The version an account has at least. *)
Definition past (u : string) (v : Z) (t : Tables) : Prop := ∃ a, tb_accounts t !! u = Some a ∧ (v < ac_version a)%Z.

Lemma past_later u v t t' : later t t' → past u v t → past u v t'.
Proof.
  intros Hl (a & Ha & Hv). destruct (later_relate ages t t' (λ now o t, step_ages now o t) Hl u a Ha) as (a' & Ha' & Hle). exists a'. split; [done|lia].
Qed.

(** C13: Changing an account ends everything that rested on its earlier state,
    for good: after a password change, a demotion or a disabling succeeded, on
    whatever schedule of calls with whatever failures and concurrent replicas,
    no session of the account is accepted unless it was issued under a later
    version, an operator verified before the change gets no session, and a
    login reports a later version. The sessions it had are gone at once. [old]
    is the account as the transaction found it when it had the advisory lock,
    after whatever the others did until then. *)
Theorem account_change_ends_sessions actor u password role disabled recovery old l (w : AW) :
  (SetAccount actor u password role disabled recovery w).1 = [] →
  tb_accounts (found (w_now w) (w_ext w)) !! u = Some old →
  let w1 := (SetAccount actor u password role disabled recovery w).2 in let w2 := run_calls l w1 in
  (∀ d s, tb_sessions (tables_of w1) !! d = Some s → sr_username s ≠ u) ∧
  (∀ token a, (Session token w2).1 = (a, []) → a_Name a = u →
     ∃ t s, later (tables_of w2) t ∧ tb_sessions t !! Digest token = Some s ∧ sr_username s = u ∧ (ac_version old < sr_version s)%Z) ∧
  (∀ a r, (IssueSession a w2).1 = inl r → a_Name a = u → (ac_version old < a_Version a)%Z) ∧
  (∀ ip p a, (Login ip u p w2).1 = (a, []) → (ac_version old < a_Version a)%Z).
Proof.
  intros Hok Hold. cbv zeta.
  pose proof (writes_run (c := false) _ w _ (SetAccount_writes (c := false) anything actor u password role disabled recovery (w_now w) (w_ext w)) ltac:(done)) as [_ Hch].
  destruct (Hch Hok) as (_ & h & y & _ & Hfound & (_ & _ & m & Hm & Ht) & _). rewrite <- Hfound in Hold.
  set (w1 := (SetAccount actor u password role disabled recovery w).2) in *. set (w2 := run_calls l w1).
  assert (past u (ac_version old) (tables_of w1)) as Hp1.
  { apply upsert_lookup in Hm as [(a & Ha & _ & _ & Hv & _) _]. exists a. rewrite Ht. split; [done|]. destruct (Hv old Hold). lia. }
  assert (∀ t, later (tables_of w2) t → past u (ac_version old) t) as Hpast.
  { intros t Hl. eapply past_later; [|exact Hp1]. etransitivity; [apply run_later|exact Hl]. }
  split_and!.
  - intros d s Hs. rewrite Ht in Hs. cbn in Hs. by apply map_lookup_filter_Some in Hs as [_ Hs].
  - intros token a Hs Hn. destruct (Session_accepts _ _ _ Hs) as (t & Hl & Ha). destruct (Hpast t Hl) as (acc & Hacc & Hv). unfold session_actor in Ha.
    destruct (tb_sessions t !! _) as [s|] eqn:Hs'; [|done]. destruct (tb_accounts t !! sr_username s) as [b|] eqn:Hb; [|done]. destruct (_ && _) eqn:Ev; [|done].
    injection Ha as <-. cbn in Hn. apply andb_true_iff in Ev as [_ Ev]. apply Z.eqb_eq in Ev. exists t, s. split_and!; [done|done|done|congruence].
  - intros a r Hi Hn. destruct (IssueSession_grants _ _ _ Hi) as (t & Hl & Ha). destruct (Hpast t Hl) as (acc & Hacc & Hv). unfold issuable in Ha.
    rewrite Hn, Hacc in Ha. apply andb_true_iff in Ha as [Ha _]. apply Z.eqb_eq in Ha. lia.
  - intros ip p a Hlog. destruct (Login_verifies _ _ _ _ _ Hlog) as [Hl (acc & Hacc & -> & _)]. destruct (Hpast _ Hl) as (acc' & Hacc' & Hv). cbn. congruence.
Qed.

(** ** Service tokens *)

Lemma ServiceToken_accepts token (w : AW) a :
  (ServiceToken token w).1 = (a, []) → ∃ t name row, later (tables_of w) t ∧ tb_tokens t !! name = Some row ∧ tr_hash row = Digest token ∧ tr_revoked row = false ∧
    a = {| a_Name := name; a_Role := "service"; a_Permissions := tr_permissions row; a_Namespaces := tr_namespaces row; a_Version := 0 |}.
Proof.
  intros Hr. pose proof (writes_run (c := false) _ w _ (ServiceToken_writes (c := false) token (w_now w) (w_ext w)) ltac:(done)) as (Hx & _ & Hok & _).
  rewrite Hr in Hok. destruct (Hok eq_refl) as (n & row & Ht & Hv & Ha). cbn in Ha. destruct (token_of_some _ _ _ _ Ht).
  exists (tables_of (ServiceToken token w).2), n, row. split_and!; try done. rewrite Hx. eapply steps_later, others_steps, script_anything.
Qed.

(** A row of the digest that is revoked. *)
Definition dead (name digest : string) (t : Tables) : Prop :=
  digests_unique t ∧ ∃ row, tb_tokens t !! name = Some row ∧ tr_hash row = digest ∧ tr_revoked row = true.

Lemma dead_later name d t t' : later t t' → dead name d t → dead name d t'.
Proof.
  intros Hl [Hu (row & Hr & Hh & Hv)]. split; [eapply later_preserve; [|exact Hl|exact Hu]; intros now o t0; apply step_unique|].
  destruct (later_relate tokens_kept t t' (λ now o t, step_keeps_tokens now o t) Hl name row Hr) as (row' & Hr' & Hh' & _ & _ & Hv'). exists row'. split_and!; auto. congruence.
Qed.

(** A dead credential is refused, whoever acts meanwhile. *)
Lemma dead_refused name token (w : AW) : dead name (Digest token) (tables_of w) → (ServiceToken token w).1.2 ≠ [].
Proof.
  intros Hd He. destruct (ServiceToken token w).1 as [a e] eqn:Es. cbn in He. subst e.
  destruct (ServiceToken_accepts _ _ _ Es) as (t & n & r & Hl & Hn & Hh & Hv & _).
  destruct (dead_later _ _ _ _ Hl Hd) as [Hu (r2 & Hn2 & Hh2 & Hv2)].
  assert (n = name) as -> by (eapply Hu; [done|done|congruence]). congruence.
Qed.

(** Revoking a token leaves it dead. *)
Lemma RevokeToken_dead actor name token row (w : AW) :
  digests_unique (tables_of w) → tb_tokens (tables_of w) !! name = Some row → tr_hash row = Digest token →
  (RevokeToken actor name w).1 = [] → dead name (Digest token) (tables_of (RevokeToken actor name w).2).
Proof.
  intros Hu Hr Hh Hok.
  pose proof (writes_run (c := false) _ w _ (RevokeToken_writes (c := false) (ok := anything) ltac:(done) actor name (w_now w) (w_ext w)) ltac:(done)) as [Hm Ht].
  destruct (Hm (script_anything _)) as [Hs _]. split; [eapply steps_preserve; [|exact Hs|exact Hu]; intros o t _; apply step_unique|].
  destruct (Ht Hok ltac:(by exists row)) as (t & Hst & Ht'). destruct (steps_keep_tokens _ _ _ _ (Hst (script_anything _)) _ _ Hr) as (r' & Hr' & Hh' & _).
  exists (revoke r'). rewrite Ht'. cbn. rewrite lookup_alter_eq, Hr'. cbn. split_and!; [done|congruence|done].
Qed.

(** C14: Revoking a service token is final: once it succeeded, on whatever
    schedule of calls, with whatever failures and concurrent replicas, the
    credential is never accepted again, and provisioning it again, under its
    own or another name, is refused. *)
Theorem revoked_token_stays_dead actor name token row l (w : AW) :
  digests_unique (tables_of w) → tb_tokens (tables_of w) !! name = Some row → tr_hash row = Digest token →
  (RevokeToken actor name w).1 = [] →
  let w2 := run_calls l (RevokeToken actor name w).2 in
  (ServiceToken token w2).1.2 ≠ [] ∧ ∀ actor' name' ps nss, (ProvisionToken actor' name' token ps nss w2).1 ≠ [].
Proof.
  intros Hu Hr Hh Hok. cbv zeta. set (w1 := (RevokeToken actor name w).2). set (w2 := run_calls l w1).
  assert (dead name (Digest token) (tables_of w2)) as Hdead.
  { eapply dead_later; [apply run_later|]. by eapply RevokeToken_dead. }
  split; [by eapply dead_refused|].
  intros actor' name' ps nss He.
  pose proof (writes_run (c := false) _ w2 _ (ProvisionToken_writes (c := false) (ok := anything) ltac:(done) actor' name' token ps nss (w_now w2) (w_ext w2)) ltac:(done)) as [Hm Hp].
  destruct (Hp He) as (y & t & r & My & Hs & Hn & Hsame). destruct (My (script_anything _)) as [Hs' _]. apply steps_later in Hs, Hs'.
  destruct (dead_later _ _ _ _ (transitivity Hs' Hs) Hdead) as [Hu2 (r2 & Hn2 & Hd2 & Hv2)]. unfold same_token in Hsame. btests.
  assert (name' = name) as -> by (eapply Hu2; [done|done|congruence]). congruence.
Qed.
End schedule.
