(* ===== verification/AccessLogin.v ===== *)
(** * Logins

    How often passwords can be tried, and that a verified login leads to a
    session that resolves to it until it expires; samples for the statements
    about the identity store. *)

From stdpp Require Import base tactics gmap sets strings list sorting.
From Stdlib Require Import ZArith Ascii Lia.
From S2P Require Import Prelude GoLib NsNames NsLedger NsService Hoare Utf8 NsConfig NsConfigRules NsConfigFacts NsConfigSamples NsConfigWrites ComputeVectors Access AccessRules AccessFacts AccessSafety.

(** ** The attempt budget *)










Section logins.
Context `{Sha256, Bcrypt, CryptoRand}.












(** ** From the password to the session *)

Lemma quiet_others now x : ax_others x = [] → others_commit now x = x.
Proof. unfold others_commit. by intros ->. Qed.

Lemma Login_calm ip u p now x :
  ax_others x = [] → writes true (Login ip u p) now x (λ r x', ax_others x' = [] ∧ (r.2 = [] → verified u p r.1 (ax_tables x'))).
Proof.
  intros Hq. unfold Login. eapply writes_bind with (λ r x', ax_others x' = [] ∧ True).
  - eapply writes_mono; [apply AllowAttempt_writes|]. rewrite quiet_others by done. intros [k [|e0 e]] x'; [intros [_ ->]|intros ->]; by split.
  - intros [k e] x1 [Hq1 _]. destruct e as [|e0 e]; cbn [nil_err negb]; [|by apply writes_ret]. destruct k; cbn [negb]; [|by apply writes_ret].
    eapply writes_bind with (λ r x', x' = x1 ∧ match r with inl o => o = tb_accounts (ax_tables x') !! u | inr e => e ≠ [] end).
    + apply wr_pstmt; rewrite quiet_others by done; [done|]. unfold sql_select_account. destruct (pg_text u); [|done]. by rewrite put_nothing.
    + intros [row|e] x2 [-> Hr]; apply writes_ret; [|by split]. split; [exact Hq1|]. destruct row as [a|]; [|done].
      cbv zeta. match goal with |- context [negb ?v || ac_disabled a] => destruct (negb v || ac_disabled a) eqn:Ev end; [done|]. intros _.
      apply orb_false_iff in Ev as [Ev Ed]. apply negb_false_iff in Ev. exists a. split_and!; [done|done|done|exact Ev].
Qed.

Lemma IssueSession_calm a now x :
  ax_others x = [] → writes true (IssueSession a) now x (λ r x', ax_others x' = [] ∧ tb_accounts (ax_tables x') = tb_accounts (ax_tables x) ∧
    ∀ token e, r = inl (token, e) → e = (now + sessionTTL)%Z ∧
      tb_sessions (ax_tables x') !! Digest token = Some {| sr_username := a_Name a; sr_version := a_Version a; sr_expires := e |}).
Proof.
  intros Hq. unfold IssueSession. eapply writes_bind with (λ r x', ax_tables x' = ax_tables x ∧ ax_others x' = []).
  { unfold RandomToken. apply wr_maybe; [intros _; by apply writes_ret|]. by apply wr_draw. }
  intros [token|e] x1 (Ht & Ho); [|apply writes_ret; by rewrite Ht].
  eapply writes_bind with (λ e x', e = (now + sessionTTL)%Z ∧ x' = x1); [by intros w Hx Hn Hc; cbn; rewrite Hx, Hn|]. intros ? ? [-> ->].
  eapply writes_bind with (λ _ x', x' = x1); [apply wr_others; by apply quiet_others|]. intros _ ? ->.
  eapply writes_bind with (λ t x', t = ax_tables x1 ∧ x' = x1); [by apply (writes_gets ax_tables)|]. intros ? ? [-> ->].
  eapply writes_bind with (λ r x', ax_others x' = [] ∧ tb_accounts (ax_tables x') = tb_accounts (ax_tables x) ∧
    (r = inl 1%nat → tb_sessions (ax_tables x') !! Digest token = Some {| sr_username := a_Name a; sr_version := a_Version a; sr_expires := (now + sessionTTL)%Z |})).
  - apply wr_pstmt; rewrite quiet_others by done; [done|]. unfold sql_issue. destruct (issuable a _); [|rewrite put_nothing, Ht; by split_and!].
    destruct (tb_sessions _ !! _); [rewrite Ht; by split_and!|]. cbn. rewrite Ht. split_and!; [done|done|]. intros _. apply lookup_insert_eq.
  - intros [n|e] x2 (Hq2 & Ha & Hr); apply writes_ret; [|by split_and!]. case_bool_decide as Hn; [|by split_and!]. split_and!; [done|done|].
    intros ? ? [= <- <-]. split; [done|]. apply Hr. congruence.
Qed.

(** C16: A verified login leads to a session that stands for it: when nothing
    fails and nobody else writes, the token issued after a login resolves to
    exactly the operator who logged in, until its eight hours are over, and to
    no one from then on. *)
Theorem session_roundtrip ip u p a token expires now (w : AW) :
  w_faults w = [] → ax_others (w_ext w) = [] →
  let l := Login ip u p w in l.1 = (a, []) →
  let s := IssueSession a l.2 in s.1 = inl (token, expires) →
  expires = (w_now w + sessionTTL)%Z ∧
  (Session token (at_time now s.2)).1 = (if (now <? expires)%Z then (a, []) else (no_actor, [ErrCredentials])).
Proof.
  intros Hf Hq. cbv zeta. intros Hl Hs.
  destruct (Login_calm ip u p _ _ Hq w eq_refl eq_refl (λ _, Hf)) as (Hso1 & Hf1 & Hq1 & Hv). rewrite Hl in Hv.
  destruct (Login ip u p w) as [r1 w1]. cbn [fst snd] in *. subst r1.
  destruct (IssueSession_calm a _ _ Hq1 w1 eq_refl eq_refl Hf1) as (Hso2 & Hf2 & Hq2 & Hacc & Hrow).
  destruct (Hrow token expires Hs) as [He Hsess]. destruct (IssueSession a w1) as [r2 w2]. cbn [fst snd] in *. subst r2.
  rewrite (so_now _ _ Hso1) in He. split; [done|].
  destruct (Session_writes (c := true) token now (w_ext (at_time now w2)) (at_time now w2) eq_refl eq_refl Hf2) as (_ & _ & Hx & _ & Hres).
  destruct (Hv eq_refl) as (acc & Ha & -> & Hd & _).
  assert (session_actor now (Digest token) (tables_of w2) = if (now <? expires)%Z then Some (account_actor u acc) else None) as Hsa.
  { unfold session_actor. rewrite Hsess. cbn [sr_username a_Name account_actor]. rewrite Hacc, Ha. cbn. rewrite Hd, Z.eqb_refl. cbn. by rewrite !andb_true_r. }
  rewrite Hx in Hres. rewrite quiet_others in Hres by done. change (w_ext (at_time now w2)) with (w_ext w2) in Hres.
  rewrite Hsa in Hres. rewrite (Hres eq_refl). by destruct (now <? expires)%Z.
Qed.
End logins.

(** ** Witnesses *)

#[export] Instance sample_sha : Sha256 := {| sha256 := bytes_of |}.

Definition no_tables : Tables := {| tb_accounts := ∅; tb_sessions := ∅; tb_tokens := ∅; tb_buckets := ∅; tb_audit := [] |}.
Definition access_world (faults : list bool) (t : Tables) (others : list (list Other)) : AW :=
  {| w_ledger := w_ledger (sample_world [] sample_stores); w_now := 1000; w_adv := []; w_lockobjs := ∅; w_next := 0; w_faults := faults;
     w_ext := {| ax_tables := t; ax_tx := no_tx; ax_draws := 0; ax_others := others |} |}.

Definition secret : string := "correct horse battery".
Definition one_owner : Tables := tables_of (Bootstrap "root" secret (access_world [] no_tables [])).2.

Definition two_owners : Tables := tables_of (SetAccount "root" "eve" secret "owner" false false (access_world [] one_owner [])).2.

(** Another replica disables the one owner while this one, having counted two,
    is about to disable the other: it has to wait, and then is refused. *)
Definition crossed : list (list Other) := let disable := [OAccount "eve" "" "owner" true] in [[]; []; []; []; disable; disable; disable; disable; disable].
Definition both : list (Z * Call) := [(1000%Z, CSetAccount "eve" "root" "" "owner" true); (2000%Z, CAudit "a" "b" "c")].

Lemma owner_survives_witness :
  has_owner (tables_of (run_calls both (access_world [] two_owners crossed))) ∧
  (ac_disabled <$> tb_accounts (tables_of (run_calls both (access_world [] two_owners crossed)))) = {[ "root" := true; "eve" := false ]} ∧
  has_owner (tables_of (Bootstrap "root" secret (access_world [] no_tables [[]; [OAudit "a" "b" "c"]; [OBootstrap "eve" secret]])).2).
Proof.
  destruct (owner_survives both (access_world [] two_owners crossed)) as [Hown _]. split_and!.
  - apply Hown. exists "root", {| ac_hash := "$" +:+ secret; ac_role := "owner"; ac_disabled := false; ac_version := 1 |}. split; vm_compute; reflexivity.
  - vm_compute. reflexivity.
  - destruct (owner_survives [] (access_world [] no_tables [[]; [OAudit "a" "b" "c"]; [OBootstrap "eve" secret]])) as [_ Hboot].
    apply Hboot; vm_compute; reflexivity.
Defined.

(** A password change, and the operator who had verified the old password. *)
Definition old_actor : Actor := {| a_Name := "root"; a_Role := "owner"; a_Permissions := []; a_Namespaces := []; a_Version := 1 |}.

Lemma account_change_ends_sessions_witness :
  let w1 := (SetAccount "root" "root" "another long secret" "owner" false false (access_world [] one_owner [])).2 in
  ∃ e, (IssueSession old_actor (run_calls [(2000%Z, CAudit "a" "b" "c")] w1)).1 = inr e.
Proof.
  cbv zeta.
  destruct (account_change_ends_sessions "root" "root" "another long secret" "owner" false false
    {| ac_hash := "$" +:+ secret; ac_role := "owner"; ac_disabled := false; ac_version := 1 |} [(2000%Z, CAudit "a" "b" "c")] (access_world [] one_owner []))
    as (_ & _ & Hi & _); [vm_compute; reflexivity|vm_compute; reflexivity|].
  destruct (IssueSession old_actor _).1 as [r|e] eqn:Hr; [|exists e; reflexivity]. specialize (Hi old_actor r Hr eq_refl). vm_compute in Hi. discriminate Hi.
Defined.

Definition machine : string := zeros.
Definition provisioned : AW := (ProvisionToken "root" "ci" machine ["data:read"] ["*"] (access_world [] one_owner [])).2.

Lemma revoked_token_stays_dead_witness :
  let w := run_calls [(2000%Z, CAudit "a" "b" "c")] (RevokeToken "root" "ci" provisioned).2 in
  (ServiceToken machine provisioned).1.2 = [] ∧ (ServiceToken machine w).1.2 ≠ [] ∧ (ProvisionToken "root" "ci2" machine ["data:read"] ["*"] w).1 ≠ [].
Proof.
  cbv zeta. split; [vm_compute; reflexivity|].
  destruct (revoked_token_stays_dead "root" "ci" machine {| tr_hash := Digest machine; tr_permissions := ["data:read"]; tr_namespaces := ["*"]; tr_revoked := false |} [(2000%Z, CAudit "a" "b" "c")] provisioned)
    as [Hs Hp]; [|vm_compute; reflexivity|reflexivity|vm_compute; reflexivity|split; [exact Hs|exact (Hp "root" "ci2" ["data:read"] ["*"])]].
  intros n n' r r' Hn Hn' _.
  assert (tb_tokens (tables_of provisioned) = {[ "ci" := {| tr_hash := Digest machine; tr_permissions := ["data:read"]; tr_namespaces := ["*"]; tr_revoked := false |} ]}) as Ht
    by (vm_compute; reflexivity).
  rewrite Ht in Hn, Hn'. apply lookup_singleton_Some in Hn as [<- _]. by apply lookup_singleton_Some in Hn' as [<- _].
Defined.



Lemma session_roundtrip_witness :
  let l := Login "10.0.0.1" "root" secret (access_world [] one_owner []) in
  l.1 = (old_actor, []) ∧ (Session zeros (at_time 5000 (IssueSession old_actor l.2).2)).1 = (old_actor, []).
Proof.
  cbv zeta. assert ((Login "10.0.0.1" "root" secret (access_world [] one_owner [])).1 = (old_actor, [])) as Hl by (vm_compute; reflexivity).
  split; [exact Hl|].
  destruct (session_roundtrip "10.0.0.1" "root" secret old_actor zeros (1000 + sessionTTL)%Z 5000 (access_world [] one_owner [])) as [_ Hs];
    [reflexivity|reflexivity|exact Hl|vm_compute; reflexivity|]. exact Hs.
Defined.
