(* ===== verification/Auth.v ===== *)
(** * Authentication of the data plane

    [internal/auth]: namespace keys, service credentials and the cache of
    rejected ones in front of the client-facing routes, and the token of the
    observability routes. What a request finds (the clock, the stored hash, the
    service credential its bearer resolves to) comes with it; the cache is
    explicit state. Requests run concurrently and touch the cache only in [hit]
    and [put], each under the mutex: [reached] holds the caches any
    interleaving of them produces. *)

From stdpp Require Import base tactics gmap sets strings list.
From Stdlib Require Import ZArith Lia.
From S2P Require Import Prelude GoLib NamespaceConfig NsConfig NsConfigSamples Access AccessLogin.

Record Request := {
  q_Method : string;
  q_Path : string;
  q_Authorization : string;   (* "" when absent *)
  q_Namespace : string;       (* what extractNamespace finds *)
}.

Definition bearer : string := "Bearer ".

Definition ExtractBearerToken (r : Request) : string :=
  if String.prefix bearer (q_Authorization r)
  then String.substring 7 (String.length (q_Authorization r) - 7) (q_Authorization r) else "".

Inductive Outcome :=
| Next
| Refused (status : Z) (code : string).

#[export] Instance Outcome_eq_dec : EqDecision Outcome.
Proof. solve_decision. Defined.

Definition unauthorized : Outcome := Refused 401 "unauthorized".
Definition forbidden : Outcome := Refused 403 "forbidden".

(** ** The negative cache *)

Definition negativeCacheTTL : Z := 30 * 1000000000.

(** Digests and the instants until which they are refused. *)
Abbreviation Cache := (gmap (list N) Z).

(** What a request finds: the clock at the cache lookup and, later, at the
    insertion; the service credential; the namespace's hash. *)
Record Env := {
  v_now : Z;
  v_later : Z;
  v_service : Actor * error;
  v_hash : string + error;
}.

Definition nul : string := String Ascii.zero "".

Lemma size_list_le {A} `{Countable A} (l : list A) : (size (list_to_set (C := gset A) l) <= length l)%nat.
Proof.
  induction l as [|x l IH]; cbn; [by rewrite size_empty|]. rewrite size_union_alt, size_singleton.
  assert (size (list_to_set (C := gset A) l ∖ {[x]}) <= size (list_to_set (C := gset A) l))%nat by (apply subseteq_size; set_solver). lia.
Qed.

Section auth.
Context `{Sha256, Bcrypt}.

Definition ConstantTimeEqual (a b : string) : bool := bool_decide (sha256 a = sha256 b).

(** Whether the credential is valid, and whether that is definitive. *)
Definition validateNamespaceKey (token adminKey : string) (hash : string + error) : bool * bool :=
  if bool_decide (token = "") then (false, true)
  else if negb (bool_decide (adminKey = "")) && ConstantTimeEqual token adminKey then (true, true)
  else
    match hash with
    | inr _ => (false, false)
    | inl h => if bool_decide (h = "") then (false, true) else (bcrypt_compare h token, true)
    end.


Definition negKey (token namespace : string) : list N := sha256 (namespace +:+ nul +:+ token).

Definition hit (now : Z) (token namespace : string) (c : Cache) : bool * Cache :=
  let key := negKey token namespace in
  match c !! key with
  | None => (false, c)
  | Some exp => if (exp <? now)%Z then (false, delete key c) else (true, c)
  end.

Definition put (now : Z) (token namespace : string) (c : Cache) : Cache :=
  <[negKey token namespace := (now + negativeCacheTTL)%Z]> (filter (λ p, (now <= p.2)%Z) c).

(** ** RequireNamespace *)

Definition isRankingRead (r : Request) : bool :=
  bool_decide (q_Method r = "POST") && bool_decide (q_Path r = "/v1/namespaces/" +:+ q_Namespace r +:+ "/rankings").

Definition permission (r : Request) : string :=
  if negb (bool_decide (q_Method r = "GET")) && negb (bool_decide (q_Method r = "HEAD")) && negb (isRankingRead r)
  then "data:write" else "data:read".

(** The namespace key, behind the cache. *)
Definition check_cached_key (adminKey : string) (v : Env) (token namespace : string) (c : Cache) : Outcome * Cache :=
  let '(hit_, c) := hit (v_now v) token namespace c in
  if hit_ then (unauthorized, c)
  else
    let '(valid, definitive) := validateNamespaceKey token adminKey (v_hash v) in
    if negb valid then (unauthorized, if definitive : bool then put (v_later v) token namespace c else c) else (Next, c).

Definition RequireNamespace (adminKey : string) (serviceTokens : bool) (v : Env) (r : Request) (c : Cache) : Outcome * Cache :=
  let token := ExtractBearerToken r in
  let namespace := q_Namespace r in
  if bool_decide (namespace = "") then (Next, c)
  else if serviceTokens && negb (bool_decide (token = "")) && nil_err (v_service v).2
  then (if Allows (v_service v).1 (permission r) namespace then Next else forbidden, c)
  else check_cached_key adminKey v token namespace c.

(** ** Paused namespaces *)

(** [cmd/api/paused.go]; [cfg] is what the configuration service returns. *)
Definition rejectPausedNamespace (cfg : option Config + error) (r : Request) : Outcome :=
  if bool_decide (q_Namespace r = "") then Next
  else
    match cfg with
    | inr _ => Refused 503 "namespace_config_unavailable"
    | inl (Some c) => if cfg_Paused c then Refused 409 "namespace_paused" else Next
    | inl None => Next
    end.

(** The middleware of the client-facing routes, as [cmd/api] chains it. *)
Definition client_routes (adminKey : string) (v : Env) (cfg : option Config + error) (r : Request) (c : Cache) : Outcome * Cache :=
  match RequireNamespace adminKey true v r c with
  | (Next, c) => (rejectPausedNamespace cfg r, c)
  | refused => refused
  end.

(** ** RequireObservability *)

Definition RequireObservability (token : string) (r : Request) : Outcome :=
  if bool_decide (token = "") then Refused 404 "not_found"
  else
    let provided := ExtractBearerToken r in
    if bool_decide (provided = "") || negb (ConstantTimeEqual provided token) then unauthorized else Next.

(** ** Caches *)


(** A definitive rejection: when it entered the cache, for which credential, and
    what the lookup of the namespace's hash had answered then. *)
Record Rejection := { rj_at : Z; rj_token : string; rj_namespace : string; rj_hash : string + error }.

(** The caches some interleaving of requests leaves, and the rejections it
    made. Keys may be issued, rotated and removed meanwhile: every rejection
    carries the hash it was made with. *)
Inductive reached (adminKey : string) : list Rejection → Cache → Prop :=
| reached_start : reached adminKey [] ∅
| reached_hit log c now token namespace : reached adminKey log c → reached adminKey log (hit now token namespace c).2
| reached_put log c now token namespace hash :
    reached adminKey log c → validateNamespaceKey token adminKey hash = (false, true) →
    reached adminKey ({| rj_at := now; rj_token := token; rj_namespace := namespace; rj_hash := hash |} :: log) (put now token namespace c).

(** Every entry stands for a rejection. *)
Lemma entry_rejected adminKey log c key exp :
  reached adminKey log c → c !! key = Some exp →
  ∃ j, j ∈ log ∧ key = negKey (rj_token j) (rj_namespace j) ∧ exp = (rj_at j + negativeCacheTTL)%Z ∧
    validateNamespaceKey (rj_token j) adminKey (rj_hash j) = (false, true).
Proof.
  intros Hr. revert key exp. induction Hr as [|log c now token ns Hr IH|log c now token ns hash Hr IH Hv]; intros key exp Hk.
  - by rewrite lookup_empty in Hk.
  - apply IH. unfold hit in Hk. destruct (c !! negKey token ns) as [e|] eqn:Ec; [|done]. destruct (e <? now)%Z; [|done].
    cbn in Hk. by apply lookup_delete_Some in Hk as [_ Hk].
  - unfold put in Hk. apply lookup_insert_Some in Hk as [[<- <-]|[_ Hk]].
    + eexists. split; [by left|]. by cbn.
    + apply map_lookup_filter_Some in Hk as [Hk _]. destruct (IH key exp Hk) as (j & Hj & ?). exists j. split; [by right|done].
Qed.






(** The credential a request was let in with. *)
Definition entitled (adminKey : string) (serviceTokens : bool) (v : Env) (r : Request) : Prop :=
  (serviceTokens = true ∧ (v_service v).2 = [] ∧ Allows (v_service v).1 (permission r) (q_Namespace r) = true) ∨
  (∃ h, v_hash v = inl h ∧ h ≠ "" ∧ bcrypt_compare h (ExtractBearerToken r) = true) ∨
  (adminKey ≠ "" ∧ sha256 (ExtractBearerToken r) = sha256 adminKey).

Lemma next_entitled adminKey serviceTokens v r c :
  (RequireNamespace adminKey serviceTokens v r c).1 = Next → q_Namespace r ≠ "" → entitled adminKey serviceTokens v r.
Proof.
  unfold RequireNamespace, check_cached_key. intros Hn Hns. rewrite bool_decide_eq_false_2 in Hn by done.
  destruct (serviceTokens && negb (bool_decide (ExtractBearerToken r = "")) && nil_err (v_service v).2) eqn:Es.
  - left. apply andb_true_iff in Es as [Es He]. apply andb_true_iff in Es as [-> _]. cbn in Hn. split; [done|].
    split; [by destruct (v_service v).2|]. by destruct (Allows _ _ _).
  - right. destruct (hit _ _ _ c) as [[] c']; [done|]. destruct (validateNamespaceKey _ _ _) as [valid d] eqn:Ev. destruct valid; [|done].
    unfold validateNamespaceKey in Ev. case_bool_decide; [done|]. destruct (negb _ && ConstantTimeEqual _ _) eqn:Ea.
    + right. apply andb_true_iff in Ea as [Ea Ec]. unfold ConstantTimeEqual in Ec. apply bool_decide_eq_true in Ec.
      apply negb_true_iff, bool_decide_eq_false in Ea. done.
    + left. destruct (v_hash v) as [h|e]; [|done]. case_bool_decide; [done|]. exists h. injection Ev as ? _. done.
Qed.

(** C17: A request reaches a namespace's handlers only while the namespace is not
    paused and only with a credential for it: a service credential that allows
    reading or, for anything but GET, HEAD and the ranking query, writing in
    that namespace; or a token that the stored hash matches; or the legacy key
    while it is configured. A caller without one is answered the same whether
    the namespace is paused or not. *)
Theorem data_plane_is_guarded adminKey v cfg r c :
  q_Namespace r ≠ "" →
  ((client_routes adminKey v cfg r c).1 = Next →
     entitled adminKey true v r ∧ ∃ config, cfg = inl config ∧ ∀ k, config = Some k → cfg_Paused k = false) ∧
  (¬ entitled adminKey true v r → ∀ cfg', client_routes adminKey v cfg' r c = client_routes adminKey v cfg r c).
Proof.
  intros Hns. pose proof (next_entitled adminKey true v r c) as He. unfold client_routes, rejectPausedNamespace.
  destruct (RequireNamespace adminKey true v r c) as [[] c']; cbn [fst] in *; [|done]. rewrite bool_decide_eq_false_2 by done.
  split; [|by intros Hno; destruct (Hno (He eq_refl Hns))]. intros Hn. split; [by apply He|].
  destruct cfg as [[k|]|]; [|by exists None|done]. exists (Some k). split; [done|]. intros ? [= <-]. by destruct (cfg_Paused k).
Qed.

(** After an insertion only rejections of the last thirty seconds are held. *)
Lemma put_bounded adminKey log c now token ns :
  reached adminKey log c →
  (size (put now token ns c) <= S (length (filter (λ j, (now - negativeCacheTTL <= rj_at j)%Z) log)))%nat.
Proof.
  intros Hr. unfold put. set (live := filter (λ p, (now <= p.2)%Z) c).
  assert (size live <= length (filter (λ j, (now - negativeCacheTTL <= rj_at j)%Z) log))%nat as Hle.
  { rewrite <- (size_dom live). set (keys := (λ j, negKey (rj_token j) (rj_namespace j)) <$> filter (λ j, (now - negativeCacheTTL <= rj_at j)%Z) log).
    transitivity (size (list_to_set (C := gset (list N)) keys)); [|rewrite size_list_le; unfold keys; by rewrite length_fmap].
    apply subseteq_size. intros k Hk. apply elem_of_dom in Hk as [e Hk]. apply map_lookup_filter_Some in Hk as [Hk Hle]. cbn in Hle.
    destruct (entry_rejected _ _ _ _ _ Hr Hk) as (j & Hj & -> & -> & _). apply elem_of_list_to_set, list_elem_of_fmap. exists j. split; [done|].
    apply list_elem_of_filter. split; [lia|done]. }
  destruct (live !! negKey token ns) as [e|] eqn:El.
  - rewrite map_size_insert_Some by done. lia.
  - rewrite map_size_insert_None by done. lia.
Qed.
End auth.

(** ** Witnesses *)

Definition request (method token : string) : Request :=
  {| q_Method := method; q_Path := "/v1/namespaces/demo/events"; q_Authorization := bearer +:+ token; q_Namespace := "demo" |}.
Definition found (now : Z) : Env := {| v_now := now; v_later := now; v_service := (no_actor, [ErrCredentials]); v_hash := inl "$k" |}.





Lemma data_plane_is_guarded_witness : ∃ h, h ≠ "" ∧ bcrypt_compare h "k" = true.
Proof.
  destruct (data_plane_is_guarded "" (found 6) (inl None) (request "POST" "k") ∅) as [Hin _]; [discriminate|].
  destruct Hin as [[(_ & Hs & _)|[(h & _ & Hh & Hc)|[Ha _]]] _]; [vm_compute; reflexivity|discriminate Hs|exists h; split; [exact Hh|exact Hc]|by destruct Ha].
Defined.
