(* ===== verification/Identity.v ===== *)
(** * The boundary of the admin plane

    [internal/admin/identity.go] over the identity store of [Access]: who a
    request comes from, which credential it carries, what that credential may
    do, and the handlers that manage credentials. [net], [net/netip], [net/url]
    and [strings.EqualFold] are interfaces; a JSON body is what it decodes to. *)

From stdpp Require Import base tactics gmap sets strings list sorting.
From Stdlib Require Import ZArith Ascii Lia.
From S2P Require Import Prelude GoLib NsNames NsLedger NsService Hoare Utf8 NsConfig NsConfigSamples Access AccessRules AccessFacts AccessSafety AccessLogin.

Record URL := {
  u_Scheme : string;
  u_User : bool;       (* has user information *)
  u_Host : string;
  u_Path : string;
  u_RawQuery : string;
  u_Fragment : string;
}.

Class GoNet := {
  Addr : Type;
  Prefix : Type;
  SplitHostPort : string → option string;   (* the host *)
  ParseAddr : string → option Addr;
  AddrString : Addr → string;
  ParsePrefix : string → option Prefix;
  PrefixContains : Prefix → Addr → bool;
  url_Parse : string → option URL;
  EqualFold : string → string → bool;
}.

(** [strings.Split(s, ",")] *)
Fixpoint split_comma (s : string) : list string :=
  match s with
  | EmptyString => [""]
  | String c rest =>
      match split_comma rest with
      | [] => []
      | first :: more => if bool_decide (c = ","%char) then "" :: first :: more else String c first :: more
      end
  end.

Definition has_suffix (suffix s : string) : bool :=
  (String.length suffix <=? String.length s)%nat &&
  bool_decide (String.substring (String.length s - String.length suffix) (String.length suffix) s = suffix).

(** ** Requests *)

Record HttpRequest := {
  r_Method : string;
  r_Path : string;
  r_Pattern : string;         (* chi's route pattern *)
  r_Ns : string;              (* the path parameter ns *)
  r_RemoteAddr : string;
  r_Host : string;
  r_TLS : bool;
  r_Authorization : string;
  r_Cookie : option string;   (* codohue_admin_session *)
  r_ForwardedFor : string;
  r_ForwardedProto : string;
  r_CSRF : string;            (* X-Codohue-CSRF *)
  r_Origin : string;
}.

Inductive Answer :=
| Served (a : Actor) (watch : option (string * bool))   (* next runs; the credential a stream is watched with *)
| Rejected (status : Z) (code : string).

Definition sessionCookieName : string := "codohue_admin_session".

Section identity.
Context `{GoNet, Sha256, Bcrypt, CryptoRand}.

Record IdentityOptions := {
  io_SecureCookies : bool;
  io_TrustedProxies : list Prefix;
  io_AllowedOrigin : string;
}.

Definition clientIP (r : HttpRequest) : string := default (r_RemoteAddr r) (SplitHostPort (r_RemoteAddr r)).

Definition trusted (o : IdentityOptions) (a : Addr) : bool := existsb (λ p, PrefixContains p a) (io_TrustedProxies o).

Definition trustedProxy (o : IdentityOptions) (r : HttpRequest) : bool :=
  match ParseAddr (clientIP r) with Some a => trusted o a | None => false end.

(** From the edge towards the caller: the first address that is not a proxy. *)
Fixpoint walk (o : IdentityOptions) (chain : list string) : option string :=
  match chain with
  | [] => None
  | s :: rest =>
      match ParseAddr (trim_space s) with
      | None => None
      | Some a => if trusted o a then walk o rest else Some (AddrString a)
      end
  end.

Definition remoteIP (o : IdentityOptions) (r : HttpRequest) : string :=
  if trustedProxy o r then default (clientIP r) (walk o (reverse (split_comma (r_ForwardedFor r)))) else clientIP r.

Definition secureCookie (o : IdentityOptions) (r : HttpRequest) : bool :=
  io_SecureCookies o || r_TLS r || (trustedProxy o r && EqualFold (r_ForwardedProto r) "https").

Definition csrfOK (o : IdentityOptions) (r : HttpRequest) : bool :=
  if bool_decide (r_Method r ∈ ["GET"; "HEAD"; "OPTIONS"]) then true
  else if negb (bool_decide (r_CSRF r = "1")) then false
  else if bool_decide (r_Origin r = "") then true
  else if negb (bool_decide (io_AllowedOrigin o = "")) && bool_decide (r_Origin r = io_AllowedOrigin o) then true
  else
    match url_Parse (r_Origin r) with
    | None => false
    | Some u =>
        if u_User u || negb (bool_decide (u_Path u = "")) || negb (bool_decide (u_RawQuery u = "")) || negb (bool_decide (u_Fragment u = ""))
        then false
        else bool_decide (u_Scheme u = if secureCookie o r then "https" else "http") && EqualFold (u_Host u) (r_Host r)
    end.

Definition identityError (e : error) : Answer :=
  if errors_is e ErrThrottled then Rejected 429 "rate_limited"
  else if errors_is e ErrCredentials then Rejected 401 "unauthorized"
  else if errors_is e ErrInvalid then Rejected 400 "invalid_request"
  else if errors_is e ErrConflict then Rejected 409 "conflict"
  else Rejected 503 "identity_unavailable".

(** ** RequireIdentity *)

Definition legacyActor : Actor :=
  {| a_Name := "legacy"; a_Role := "service"; a_Permissions := ["admin:read"; "admin:write"; "namespace:provision"]; a_Namespaces := ["*"]; a_Version := 0 |}.

Definition constantTimeEqual (a b : string) : bool := bool_decide (sha256 a = sha256 b).

(** A credential: the actor with the session and service tokens, or the answer. *)
Definition identified : Type := (Actor * string * string) + Answer.

(** The legacy key, checked within the attempt budget. *)
Definition legacy_bearer (o : IdentityOptions) (legacyKey token : string) (r : HttpRequest) : M AW identified :=
  let! ' (allowed, limitErr) := AllowAttempt (remoteIP o r) in
  if negb (nil_err limitErr) then ret (inr (identityError limitErr))
  else if negb allowed then ret (inr (identityError [ErrThrottled]))
  else if constantTimeEqual token legacyKey then
    let! refundErr := RefundAttempt (remoteIP o r) in
    if negb (nil_err refundErr) then ret (inr (identityError refundErr)) else ret (inl (legacyActor, "", ""))
  else ret (inr (identityError [ErrCredentials])).

Definition by_bearer (o : IdentityOptions) (legacyKey : string) (r : HttpRequest) : M AW identified :=
  if negb (String.prefix "Bearer " (r_Authorization r)) then ret (inr (identityError [ErrCredentials]))
  else
    let token := String.substring 7 (String.length (r_Authorization r) - 7) (r_Authorization r) in
    let! ' (a, e) := ServiceToken token in
    if nil_err e then ret (inl (a, "", token))
    else if errors_is e ErrCredentials && negb (bool_decide (legacyKey = "")) then legacy_bearer o legacyKey token r
    else ret (inr (identityError e)).

Definition by_cookie (o : IdentityOptions) (r : HttpRequest) : M AW identified :=
  match r_Cookie r with
  | None => ret (inr (identityError [ErrCredentials]))
  | Some token =>
      let! ' (a, e) := Session token in
      if negb (nil_err e) then ret (inr (identityError e))
      else if negb (csrfOK o r) then ret (inr (Rejected 403 "csrf"))
      else ret (inl (a, token, ""))
  end.

Definition reads (r : HttpRequest) : bool := bool_decide (r_Method r = "GET") || bool_decide (r_Method r = "HEAD").

Definition sensitive (r : HttpRequest) : bool :=
  String.prefix "/api/admin/v1/accounts" (r_Path r) || String.prefix "/api/admin/v1/service-tokens" (r_Path r) ||
  bool_decide (r_Path r = "/api/admin/v1/reset").

Definition sessionRoute (r : HttpRequest) : bool := String.prefix "/api/v1/auth/sessions/" (r_Path r).

Definition containsWildcard (namespaces : list string) : bool := existsb (λ ns, bool_decide (ns = "*")) namespaces.

Definition provisions (r : HttpRequest) : bool :=
  bool_decide (r_Method r = "PUT") && negb (bool_decide (r_Ns r = "")) && bool_decide (r_Path r = "/api/admin/v1/namespaces/" +:+ r_Ns r).

Definition may (a : Actor) (r : HttpRequest) : bool :=
  let allowed := Allows a (if reads r then "admin:read" else "admin:write") (r_Ns r) in
  let allowed := if bool_decide (a_Role a = "service") && bool_decide (r_Ns r = "") then allowed && containsWildcard (a_Namespaces a) else allowed in
  let allowed := if provisions r then allowed || Allows a "namespace:provision" (r_Ns r) else allowed in
  let allowed := if sensitive r then bool_decide (a_Role a = "owner") else allowed in
  if sessionRoute r then bool_decide (r_Authorization r = "") else allowed.

(** The credential a stream is watched with. *)
Definition watched (r : HttpRequest) (sessionToken serviceToken : string) : option (string * bool) :=
  if (negb (bool_decide (sessionToken = "")) || negb (bool_decide (serviceToken = ""))) && has_suffix "/stream" (r_Path r)
  then Some (if bool_decide (serviceToken = "") then sessionToken else serviceToken, negb (bool_decide (serviceToken = ""))) else None.

Definition RequireIdentity (o : IdentityOptions) (legacyKey : string) (r : HttpRequest) : M AW Answer :=
  let! id := (if bool_decide (r_Authorization r = "") then by_cookie o r else by_bearer o legacyKey r) in
  match id with
  | inr answer => ret answer
  | inl (a, sessionToken, serviceToken) =>
      if negb (may a r) then ret (Rejected 403 "forbidden")
      else
        let! e := (if reads r then ret []
                   else Audit (a_Role a +:+ ":" +:+ a_Name a) (r_Method r +:+ " " +:+ r_Pattern r) (r_Path r)) in
        if negb (nil_err e) then ret (identityError e) else ret (Served a (watched r sessionToken serviceToken))
  end.

(** ** Streams *)

(** Look the credential up at every tick; the instant at which it was refused. *)
Fixpoint watchCredential (ticks : list Z) (token : string) (service : bool) (w : AW) : option Z :=
  match ticks with
  | [] => None
  | now :: ticks =>
      let '((_, e), w) := (if service then ServiceToken token else Session token) (at_time now w) in
      if negb (nil_err e) then Some now else watchCredential ticks token service w
  end.

(** ** Handlers *)

Inductive SessionAnswer :=
| Created (token : string) (secure : bool) (expires : Z) (name role : string)
| NotCreated (a : Answer).

Definition createOperatorSession (o : IdentityOptions) (r : HttpRequest) (body : option (string * string)) : M AW SessionAnswer :=
  if negb (csrfOK o r) then ret (NotCreated (Rejected 403 "csrf"))
  else
    match body with
    | None => ret (NotCreated (Rejected 400 "invalid_request"))
    | Some (username, password) =>
        let! ' (a, e) := Login (remoteIP o r) username password in
        if negb (nil_err e) then ret (NotCreated (identityError e))
        else
          let! e := Audit ("operator:" +:+ a_Name a) "session.create" (a_Name a) in
          if negb (nil_err e) then ret (NotCreated (identityError e))
          else
            let! s := IssueSession a in
            ret (match s with
                 | inr e => NotCreated (identityError e)
                 | inl (token, expires) => Created token (secureCookie o r) expires (a_Name a) (a_Role a)
                 end)
    end.

(** The status of a handler that answers 204 or an error. *)
Definition no_content (e : error) : option Answer := if nil_err e then None else Some (identityError e).

Definition PutAccount (current : Actor) (username : string) (body : option (string * string * bool)) : M AW (option Answer) :=
  match body with
  | None => ret (Some (Rejected 400 "invalid_request"))
  | Some (password, role, disabled) =>
      let! e := SetAccount ("operator:" +:+ a_Name current) username password role disabled false in ret (no_content e)
  end.

Definition PutServiceToken (current : Actor) (name : string) (body : option (string * list string * list string)) : M AW (option Answer) :=
  match body with
  | None => ret (Some (Rejected 400 "invalid_request"))
  | Some (token, permissions, namespaces) =>
      let! e := ProvisionToken ("operator:" +:+ a_Name current) name token permissions namespaces in ret (no_content e)
  end.

Definition DeleteServiceToken (current : Actor) (name : string) : M AW (option Answer) :=
  let! e := RevokeToken ("operator:" +:+ a_Name current) name in ret (no_content e).

(** Logging out revokes the presented session. *)
Definition DeleteCurrentSession (r : HttpRequest) : M AW (option Answer) :=
  match r_Cookie r with
  | None => ret None
  | Some token => let! e := RevokeSession token in ret (no_content e)
  end.

Definition ListAccounts `{Collation} : M AW (list (string * string * bool) + Answer) :=
  let! r := Accounts in ret (match r with inl l => inl l | inr e => inr (identityError e) end).

(** [None] is an error. *)
Fixpoint parse_prefixes (l : list string) : option (list Prefix) :=
  match l with
  | [] => Some []
  | s :: rest =>
      let s := trim_space s in
      if bool_decide (s = "") then parse_prefixes rest
      else match ParsePrefix s with
           | None => None
           | Some p => match parse_prefixes rest with Some ps => Some (p :: ps) | None => None end
           end
  end.

Definition ParseTrustedProxies (raw : string) : option (list Prefix) := parse_prefixes (split_comma raw).
End identity.
