(* ===== verification/IdentityFacts.v ===== *)
(** * What the admin boundary guarantees

    For every request, failure and action of other replicas: who is let in,
    with which credential and permission, that the attempt is on record, that
    machine credentials stay within their grant, that streams end with the
    credential they were opened with, and that forged forwarding headers do not
    move a caller to another budget. *)

From stdpp Require Import base tactics gmap sets strings list sorting.
From Stdlib Require Import ZArith Ascii Lia.
From S2P Require Import Prelude GoLib NsNames NsLedger NsService Hoare Utf8 NsConfig NsConfigSamples Access AccessRules AccessFacts AccessSafety AccessLogin Identity.

Section boundary.
Context `{GoNet, Sha256, Bcrypt, CryptoRand}.

(** ** Who is asking *)

(** The actor a stored service token stands for. *)
Definition token_actor (name : string) (row : TokenRow) : Actor :=
  {| a_Name := name; a_Role := "service"; a_Permissions := tr_permissions row; a_Namespaces := tr_namespaces row; a_Version := 0 |}.

(** The request carries a credential of [a]: a live session with the CSRF
    header, a service token that is not revoked, or the legacy key. *)
Definition credential (o : IdentityOptions) (legacyKey : string) (r : HttpRequest) (now : Z) (a : Actor) (t : Tables) : Prop :=
  (r_Authorization r = "" ∧ ∃ token, r_Cookie r = Some token ∧ session_actor now (Digest token) t = Some a ∧ csrfOK o r = true) ∨
  (∃ token, r_Authorization r = "Bearer " +:+ token ∧
     ((∃ name row, tb_tokens t !! name = Some row ∧ tr_hash row = Digest token ∧ tr_revoked row = false ∧ a = token_actor name row) ∨
      (legacyKey ≠ "" ∧ sha256 token = sha256 legacyKey ∧ a = legacyActor))).

(** What identification leaves: an actor only for a credential. *)
Definition identifies (o : IdentityOptions) (legacyKey : string) (r : HttpRequest) (now : Z) (x : Access) (id : identified) (x' : Access) : Prop :=
  moved anything now x x' ∧ match id with
    | inl (a, _, v) => credential o legacyKey r now a (ax_tables x') ∧
        (v ≠ "" → ∃ row, tb_tokens (ax_tables x') !! a_Name a = Some row ∧ tr_hash row = Digest v)
    | inr answer => ∀ a watch, answer ≠ Served a watch
    end.

Lemma identityError_refuses e a watch : identityError e ≠ Served a watch.
Proof. unfold identityError. repeat case_match; done. Qed.
#[local] Hint Resolve identityError_refuses : core.

Lemma substring_all s : String.substring 0 (String.length s) s = s.
Proof. induction s as [|c s IH]; [done|]. cbn [String.length String.substring]. by rewrite IH. Qed.

Lemma bearer_cut s : String.prefix "Bearer " s = true → s = "Bearer " +:+ String.substring 7 (String.length s - 7) s.
Proof.
  do 7 (destruct s as [|? s]; [done|]; cbn [String.prefix]; match goal with |- context [ascii_dec ?a ?b] => destruct (ascii_dec a b) as [<-|]; [|done] end).
  intros _. cbn [String.length Nat.sub String.substring]. by rewrite Nat.sub_0_r, substring_all.
Qed.

Lemma legacy_bearer_identifies o legacyKey token r now x :
  legacyKey ≠ "" → r_Authorization r = "Bearer " +:+ token →
  writes false (legacy_bearer o legacyKey token r) now x (identifies o legacyKey r now x).
Proof.
  intros Hk Hr. unfold legacy_bearer. eapply writes_bind; [by apply (moved_AllowAttempt (ok := anything))|].
  intros [allowed e] x1 Hm. destruct (negb (nil_err e)); [by apply writes_ret|]. destruct (negb allowed); [by apply writes_ret|].
  destruct (constantTimeEqual token legacyKey) eqn:Hc; [|by apply writes_ret].
  unfold constantTimeEqual in Hc. apply bool_decide_eq_true in Hc. eapply writes_bind.
  - apply (moved_last (ok := anything)). intros t a t' [= _ <-]. by apply (step_one now (ORefund (Digest (remoteIP o r)))).
  - intros e' x2 Hm2. assert (moved anything now x x2) by (by etransitivity). destruct (negb (nil_err e')); apply writes_ret; [by split|].
    split; [done|]. split; [|done]. right. exists token. split; [done|]. by right.
Qed.

Lemma by_bearer_identifies o legacyKey r now x : writes false (by_bearer o legacyKey r) now x (identifies o legacyKey r now x).
Proof.
  unfold by_bearer. destruct (String.prefix _ _) eqn:Hp; cbn [negb]; [|by apply writes_ret].
  pose proof (bearer_cut _ Hp) as Hcut. set (token := String.substring _ _ _) in *. eapply writes_bind; [apply ServiceToken_writes|].
  intros [a e] x1 (-> & _ & Hok & _). destruct (nil_err e) eqn:He.
  - apply writes_ret. split; [apply moved_others|]. destruct e; [|done]. destruct (Hok eq_refl) as (name & row & Ht & Hv & Ha).
    apply token_of_some in Ht as [Ht Hh]. cbn in Ha. subst a. split; [|intros _; by exists row]. right. exists token. split; [done|]. left. by exists name, row.
  - destruct (errors_is e ErrCredentials && _) eqn:El; [|apply writes_ret; split; [apply moved_others|auto]].
    apply andb_true_iff in El as [_ El]. apply negb_true_iff, bool_decide_eq_false in El.
    eapply writes_mono; [by apply legacy_bearer_identifies|]. intros id x2 [Hm Hid]. split; [|done]. etransitivity; [apply moved_others|exact Hm].
Qed.

Lemma by_cookie_identifies o legacyKey r now x :
  r_Authorization r = "" → writes false (by_cookie o r) now x (identifies o legacyKey r now x).
Proof.
  intros Hr. unfold by_cookie. destruct (r_Cookie r) as [token|] eqn:Hc; [|by apply writes_ret]. eapply writes_bind; [apply Session_writes|].
  intros [a e] x1 (-> & Hok & _). pose proof (moved_others anything now x).
  destruct e; cbn [nil_err negb]; [|apply writes_ret; split; [done|auto]]. destruct (csrfOK o r) eqn:Hs; cbn [negb]; apply writes_ret; [|by split].
  split; [done|]. split; [|done]. left. split; [done|]. exists token. auto.
Qed.

Lemma Audit_records actor action target now x :
  writes false (Audit actor action target) now x (λ e x', moved anything now x x' ∧
    (e = [] → ∃ log, tb_audit (ax_tables x') = log ++ [{| au_actor := actor; au_action := action; au_target := target |}])).
Proof.
  pose proof (moved_others anything now x) as Hm. unfold Audit. apply wr_last, wr_pstmt; [done|]. unfold sql_audit. destruct (forallb _ _); [|done].
  split; [etransitivity; [exact Hm|]; by apply moved_put, (step_one now (OAudit actor action target))|]. intros _. by eexists.
Qed.

(** ** What it may do *)

Definition needed (r : HttpRequest) : string := if reads r then "admin:read" else "admin:write".

(** The grant a request needs. *)
Definition permitted (a : Actor) (r : HttpRequest) : Prop :=
  if sessionRoute r then r_Authorization r = ""
  else if sensitive r then a_Role a = "owner"
  else (Allows a (needed r) (r_Ns r) = true ∧ (a_Role a = "service" → r_Ns r = "" → "*" ∈ a_Namespaces a)) ∨
       (provisions r = true ∧ Allows a "namespace:provision" (r_Ns r) = true).

Lemma wildcard_spec l : containsWildcard l = true ↔ "*" ∈ l.
Proof.
  unfold containsWildcard. rewrite existsb_exists. split.
  - intros (s & Hs & He). apply bool_decide_eq_true in He as ->. by apply list_elem_of_In.
  - intros Hin. exists "*". split; [by apply list_elem_of_In|]. by apply bool_decide_eq_true.
Qed.

Lemma may_permits a r : may a r = true → permitted a r.
Proof.
  unfold may, permitted, needed. destruct (sessionRoute r); [apply bool_decide_eq_true|]. destruct (sensitive r); [apply bool_decide_eq_true|].
  destruct (provisions r); [rewrite orb_true_iff; intros [Ha|Ha]; [left|by right]|intros Ha; left];
    (destruct (bool_decide (a_Role a = "service") && bool_decide (r_Ns r = "")) eqn:Es;
     [apply andb_true_iff in Ha as [Ha Hw]; split; [done|]; intros _ _; by apply wildcard_spec
     |split; [done|]; intros Hs Hn; rewrite Hs, Hn in Es; by vm_compute in Es]).
Qed.

Lemma watched_service r s v token : watched r s v = Some (token, true) → v ≠ "" ∧ v = token.
Proof. unfold watched. destruct (_ && _); [|done]. case_bool_decide; [done|]. by intros [= ->]. Qed.

Lemma RequireIdentity_writes o legacyKey r now x :
  writes false (RequireIdentity o legacyKey r) now x (λ answer x', moved anything now x x' ∧ ∀ a watch, answer = Served a watch →
    (∃ x1, moved anything now x x1 ∧ moved anything now x1 x' ∧ credential o legacyKey r now a (ax_tables x1) ∧
       ∀ token, watch = Some (token, true) → ∃ row, tb_tokens (ax_tables x1) !! a_Name a = Some row ∧ tr_hash row = Digest token) ∧ permitted a r ∧
    (reads r = false → ∃ log, tb_audit (ax_tables x') = log ++
      [{| au_actor := a_Role a +:+ ":" +:+ a_Name a; au_action := r_Method r +:+ " " +:+ r_Pattern r; au_target := r_Path r |}])).
Proof.
  unfold RequireIdentity. eapply writes_bind with (identifies o legacyKey r now x).
  { case_bool_decide; [by apply by_cookie_identifies|apply by_bearer_identifies]. }
  intros [[[a s] v]|answer] x1 [Hm Hid]; [destruct Hid as [Hid Hv]|apply writes_ret; split; [done|]; intros a watch ->; by destruct (Hid a watch)].
  destruct (may a r) eqn:Hmay; cbn [negb]; [|by apply writes_ret]. apply may_permits in Hmay.
  eapply writes_bind with (λ e x2, moved anything now x1 x2 ∧ (e = [] → reads r = false → ∃ log, tb_audit (ax_tables x2) = log ++
      [{| au_actor := a_Role a +:+ ":" +:+ a_Name a; au_action := r_Method r +:+ " " +:+ r_Pattern r; au_target := r_Path r |}])).
  - destruct (reads r); [by apply writes_ret|]. eapply writes_mono; [apply Audit_records|]. intros e x2 [? Hlog]. split; [done|]. auto.
  - intros e x2 [Hm2 Hlog]. assert (moved anything now x x2) by (by etransitivity).
    destruct e; cbn [nil_err negb]; apply writes_ret; (split; [done|]); intros a' watch Ha; [|by destruct (identityError_refuses _ _ _ Ha)].
    injection Ha as <- <-. split; [|auto]. exists x1. split_and!; [done..|]. intros token Hw. apply watched_service in Hw as [Hn <-]. by apply Hv.
Qed.

Lemma moved_later now x x' : moved anything now x x' → later (ax_tables x) (ax_tables x').
Proof. intros Hm. eapply steps_later, Hm, script_anything. Qed.

(** C11: Whoever reaches an admin handler was identified and authorised, and the
    attempt is on record: in the tables at some instant between the arrival of
    the request and the call, the request's credential is a live session of
    [a] (with the CSRF header and an allowed origin when it changes anything),
    or an unrevoked service token of [a], or the configured legacy key; the
    actor holds what the route needs; and unless the request is a GET or a HEAD
    the last row of the audit log is this attempt. Whatever fails, and whatever
    other replicas do. *)
Theorem admin_access_is_authorized o legacyKey r (w : AW) a watch :
  (RequireIdentity o legacyKey r w).1 = Served a watch →
  let t' := tables_of (RequireIdentity o legacyKey r w).2 in
  (∃ t, later (tables_of w) t ∧ later t t' ∧ credential o legacyKey r (w_now w) a t) ∧ permitted a r ∧
  (reads r = false → ∃ log, tb_audit t' = log ++
    [{| au_actor := a_Role a +:+ ":" +:+ a_Name a; au_action := r_Method r +:+ " " +:+ r_Pattern r; au_target := r_Path r |}]).
Proof.
  intros Hs. cbv zeta.
  pose proof (writes_run (c := false) _ w _ (RequireIdentity_writes o legacyKey r (w_now w) (w_ext w)) ltac:(done)) as [_ Hr].
  destruct (Hr a watch Hs) as ((x1 & Hm & Hm' & Hc & _) & Hp & Hlog). split; [|done].
  exists (ax_tables x1). split_and!; [by eapply moved_later|by eapply moved_later|done].
Qed.

(** ** Machine credentials *)

Lemma service_grant a permission ns :
  a_Role a = "service" → Allows a permission ns = true → permission ∈ a_Permissions a ∧ (ns = "" ∨ "*" ∈ a_Namespaces a ∨ ns ∈ a_Namespaces a).
Proof.
  unfold Allows. intros -> Ha. cbn in Ha. apply andb_true_iff in Ha as [Hp Ha]. apply bool_decide_eq_true in Hp. split; [done|].
  apply orb_true_iff in Ha as [Ha|Ha]; [apply orb_true_iff in Ha as [Ha|Ha]|]; apply bool_decide_eq_true in Ha; auto.
Qed.

Lemma bearer_role o legacyKey r now a t : credential o legacyKey r now a t → r_Authorization r ≠ "" → a_Role a = "service".
Proof. by intros [[-> _]|(token & _ & [(name & row & _ & _ & _ & ->)|(_ & _ & ->)])]. Qed.

Lemma provisions_ns r : provisions r = true → r_Ns r ≠ "".
Proof. unfold provisions. intros Hp. btests. done. Qed.

(** A machine credential stays within its grant: a request admitted by a
    bearer token is never one for accounts, service tokens, the reset or the
    browser's session routes; the token holds the permission the method needs,
    or the one to provision while it puts a namespace; and it names the
    namespace of the route or the wildcard, which alone opens the routes that
    belong to no namespace. *)
Theorem machine_credentials_confined o legacyKey r (w : AW) a watch :
  (RequireIdentity o legacyKey r w).1 = Served a watch → r_Authorization r ≠ "" →
  sensitive r = false ∧ sessionRoute r = false ∧
  (needed r ∈ a_Permissions a ∨ (provisions r = true ∧ "namespace:provision" ∈ a_Permissions a)) ∧
  ("*" ∈ a_Namespaces a ∨ (r_Ns r ≠ "" ∧ r_Ns r ∈ a_Namespaces a)).
Proof.
  intros Hs Hb.
  pose proof (writes_run (c := false) _ w _ (RequireIdentity_writes o legacyKey r (w_now w) (w_ext w)) ltac:(done)) as [_ Hr].
  destruct (Hr a watch Hs) as ((x1 & _ & _ & Hc & _) & Hp & _). pose proof (bearer_role _ _ _ _ _ _ Hc Hb) as Hrole. unfold permitted in Hp.
  destruct (sessionRoute r); [done|]. destruct (sensitive r); [congruence|]. split; [done|]. split; [done|]. destruct Hp as [[Ha Hw]|[Hv Ha]]; apply service_grant in Ha as [Ha Hn]; try done.
  - split; [by left|]. destruct (decide (r_Ns r = "")); [left; by apply Hw|destruct Hn as [|[|]]; [done|by left|by right]].
  - split; [by right|]. pose proof (provisions_ns r Hv). destruct Hn as [|[|]]; [done|by left|by right].
Qed.

(** ** Streams *)

(** C19: A stream ends with its credential: when a request with a service token
    opened a stream, on whatever schedule of calls before and after, with
    whatever failures and other replicas, the first check after the token was
    revoked closes the stream. *)
Theorem revoked_token_closes_stream o legacyKey r (w : AW) a token actor l l' now ticks :
  digests_unique (tables_of w) → (RequireIdentity o legacyKey r w).1 = Served a (Some (token, true)) →
  let w1 := run_calls l (RequireIdentity o legacyKey r w).2 in (RevokeToken actor (a_Name a) w1).1 = [] →
  watchCredential (now :: ticks) token true (run_calls l' (RevokeToken actor (a_Name a) w1).2) = Some now.
Proof.
  intros Hu Hs. cbv zeta. intros Hok.
  pose proof (writes_run (c := false) _ w _ (RequireIdentity_writes o legacyKey r (w_now w) (w_ext w)) ltac:(done)) as [Hm Hr].
  destruct (Hr a _ Hs) as ((x1 & _ & Hm1 & _ & Hrow) & _). destruct (Hrow token eq_refl) as (row & Hrow1 & Hh). clear Hr Hrow Hs.
  set (w1 := run_calls l _) in *. set (w2 := run_calls l' _).
  assert (later (ax_tables x1) (tables_of w1)) as Hl1 by (etransitivity; [by eapply moved_later|apply run_later]).
  assert (later (tables_of w) (tables_of w1)) as Hl by (etransitivity; [by eapply moved_later|apply run_later]).
  destruct (later_relate tokens_kept _ _ (λ now o t, step_keeps_tokens now o t) Hl1 _ _ Hrow1) as (row' & Hrow' & Hh' & _).
  assert (digests_unique (tables_of w1)) as Hu1 by (eapply later_preserve; [|exact Hl|exact Hu]; intros n q t; apply step_unique).
  assert (dead (a_Name a) (Digest token) (tables_of w2)) as Hd.
  { eapply dead_later; [apply run_later|]. eapply RevokeToken_dead; [done|done|congruence|done]. }
  cbn [watchCredential]. pose proof (dead_refused (a_Name a) token (at_time now w2) Hd) as Hno. destruct (ServiceToken token (at_time now w2)) as [[b e] w3]. cbn in Hno. by destruct e.
Qed.

(** ** Forwarded addresses *)

Lemma split_comma_cons s : ∃ first more, split_comma s = first :: more.
Proof.
  induction s as [|c s (first & more & IH)]; [by eexists _, _|]. cbn. rewrite IH. case_bool_decide; by eexists _, _.
Qed.

Lemma split_comma_app s1 s2 : split_comma (s1 +:+ "," +:+ s2) = split_comma s1 ++ split_comma s2.
Proof.
  induction s1 as [|c s1 IH].
  - destruct (split_comma_cons s2) as (first & more & E). change ("" +:+ "," +:+ s2) with (String "," s2). cbn. by rewrite E.
  - change (String c s1 +:+ "," +:+ s2) with (String c (s1 +:+ "," +:+ s2)). cbn [split_comma]. rewrite IH.
    destruct (split_comma_cons s1) as (first & more & ->). cbn. by case_bool_decide.
Qed.

(** An entry that a trusted proxy added for a trusted proxy. *)
Definition proxy_entry (o : IdentityOptions) (s : string) : Prop := ∃ p, ParseAddr (trim_space s) = Some p ∧ trusted o p = true.

Lemma walk_proxies o proxies rest : Forall (proxy_entry o) proxies → walk o (proxies ++ rest) = walk o rest.
Proof. induction 1 as [|s proxies (p & Hp & Ht) _ IH]; [done|]. cbn. by rewrite Hp, Ht. Qed.

Lemma remoteIP_walk o r before entry proxies :
  trustedProxy o r = true → split_comma (r_ForwardedFor r) = before ++ entry :: proxies →
  Forall (proxy_entry o) proxies → ¬ proxy_entry o entry →
  remoteIP o r = match ParseAddr (trim_space entry) with Some a => AddrString a | None => clientIP r end.
Proof.
  unfold remoteIP. intros -> -> Hp Hn. rewrite reverse_app, reverse_cons, <- app_assoc, walk_proxies by (by apply Forall_reverse).
  cbn. destruct (ParseAddr (trim_space entry)) as [a|] eqn:Ha; [|done]. destruct (trusted o a) eqn:Ht; [|done]. destruct Hn. by exists a.
Qed.

(** C20: The address a caller is counted under cannot be forged. A peer that is
    not a trusted proxy is counted under the address of its connection, whatever
    header it sends. Behind a trusted proxy, the entries of X-Forwarded-For are
    read from the right past those of trusted proxies, and the entry met there
    decides, be it the first, a middle or the only one: the caller is counted
    under its address, or under the address of the connection when it is no
    address or when every entry is a proxy; and nothing the caller writes in
    front of the header can change that. *)
Theorem forged_forwarding_ignored o r :
  (trustedProxy o r = false → remoteIP o r = clientIP r) ∧
  (trustedProxy o r = true → Forall (proxy_entry o) (split_comma (r_ForwardedFor r)) → remoteIP o r = clientIP r) ∧
  (∀ before entry proxies, trustedProxy o r = true → split_comma (r_ForwardedFor r) = before ++ entry :: proxies →
   Forall (proxy_entry o) proxies → ¬ proxy_entry o entry →
   remoteIP o r = match ParseAddr (trim_space entry) with Some a => AddrString a | None => clientIP r end) ∧
  (∀ forged chain before entry proxies, trustedProxy o r = true →
   r_ForwardedFor r = forged +:+ "," +:+ chain → split_comma chain = before ++ entry :: proxies →
   Forall (proxy_entry o) proxies → ¬ proxy_entry o entry →
   remoteIP o r = match ParseAddr (trim_space entry) with Some a => AddrString a | None => clientIP r end).
Proof.
  split_and!.
  - unfold remoteIP. by intros ->.
  - unfold remoteIP. intros -> Hp. rewrite <- (app_nil_r (reverse _)). by rewrite walk_proxies by (by apply Forall_reverse).
  - intros ???. apply remoteIP_walk.
  - intros forged chain before entry proxies Ht Hf Hc. apply (remoteIP_walk o r (split_comma forged ++ before)); [done|].
    by rewrite Hf, split_comma_app, Hc, app_assoc.
Qed.
End boundary.

(** ** Witnesses *)

(** Addresses and prefixes as texts; a prefix holds itself. *)
#[export] Instance sample_net : GoNet :=
  {| Addr := string; Prefix := string; SplitHostPort s := if bool_decide (s = "") then None else Some s;
     ParseAddr s := if bool_decide (s = "") then None else Some s; AddrString s := s;
     ParsePrefix s := if bool_decide (s = "") then None else Some s; PrefixContains p a := bool_decide (p = a);
     url_Parse _ := None; EqualFold s1 s2 := bool_decide (s1 = s2) |}.

Definition one_proxy : IdentityOptions := {| io_SecureCookies := true; io_TrustedProxies := ["10.0.0.1"]; io_AllowedOrigin := "" |}.
Definition admin_request (method path ns authorization : string) (cookie : option string) : HttpRequest :=
  {| r_Method := method; r_Path := path; r_Pattern := path; r_Ns := ns; r_RemoteAddr := "10.0.0.1"; r_Host := "admin"; r_TLS := true;
     r_Authorization := authorization; r_Cookie := cookie; r_ForwardedFor := "6.6.6.6,192.0.2.1,10.0.0.1"; r_ForwardedProto := "https"; r_CSRF := "1"; r_Origin := "" |}.

Definition reset : HttpRequest := admin_request "POST" "/api/admin/v1/reset" "" "" (Some machine).
Definition signed_in : AW := (IssueSession old_actor (access_world [] one_owner [])).2.

Lemma admin_access_is_authorized_witness :
  ∃ log, tb_audit (tables_of (RequireIdentity one_proxy "" reset signed_in).2) =
    log ++ [{| au_actor := "owner:root"; au_action := "POST /api/admin/v1/reset"; au_target := "/api/admin/v1/reset" |}].
Proof.
  destruct (admin_access_is_authorized one_proxy "" reset signed_in old_actor None) as (_ & _ & Hlog); [vm_compute; reflexivity|]. apply Hlog. reflexivity.
Defined.

Definition watcher : AW := (ProvisionToken "root" "ci" machine ["admin:read"] ["demo"] (access_world [] one_owner [])).2.
Definition events : HttpRequest := admin_request "GET" "/api/admin/v1/namespaces/demo/events/stream" "demo" ("Bearer " +:+ machine) None.
Definition machine_actor : Actor := {| a_Name := "ci"; a_Role := "service"; a_Permissions := ["admin:read"]; a_Namespaces := ["demo"]; a_Version := 0 |}.

Lemma watcher_served : (RequireIdentity one_proxy "" events watcher).1 = Served machine_actor (Some (machine, true)).
Proof. vm_compute. reflexivity. Qed.

Lemma machine_credentials_confined_witness : needed events = "admin:read" ∧ ("*" ∈ ["demo"] ∨ (r_Ns events ≠ "" ∧ r_Ns events ∈ ["demo"])).
Proof.
  split; [reflexivity|]. destruct (machine_credentials_confined one_proxy "" events watcher machine_actor (Some (machine, true))) as (_ & _ & _ & Hn);
    [apply watcher_served|discriminate|exact Hn].
Defined.

Lemma revoked_token_closes_stream_witness :
  let w1 := run_calls [(1500%Z, CPrune)] (RequireIdentity one_proxy "" events watcher).2 in
  watchCredential [16000%Z; 31000%Z] machine true (run_calls [(2500%Z, CAudit "a" "b" "c")] (RevokeToken "root" (a_Name machine_actor) w1).2) = Some 16000%Z.
Proof.
  cbv zeta. refine (revoked_token_closes_stream one_proxy "" events watcher machine_actor machine "root" [(1500%Z, CPrune)] [(2500%Z, CAudit "a" "b" "c")] 16000 [31000%Z]
    _ watcher_served _); [|vm_compute; reflexivity].
  intros n n' r r' Hn Hn' _.
  assert (tb_tokens (tables_of watcher) = {[ "ci" := {| tr_hash := Digest machine; tr_permissions := ["admin:read"]; tr_namespaces := ["demo"]; tr_revoked := false |} ]}) as Ht
    by (vm_compute; reflexivity).
  rewrite Ht in Hn, Hn'. apply lookup_singleton_Some in Hn as [<- _]. by apply lookup_singleton_Some in Hn' as [<- _].
Defined.

(** One entry only, written by the proxy. *)
Definition single_entry : HttpRequest :=
  {| r_Method := "GET"; r_Path := "/"; r_Pattern := "/"; r_Ns := ""; r_RemoteAddr := "10.0.0.1"; r_Host := "admin"; r_TLS := true;
     r_Authorization := ""; r_Cookie := None; r_ForwardedFor := " 192.0.2.7"; r_ForwardedProto := "https"; r_CSRF := "1"; r_Origin := "" |}.

Lemma forged_forwarding_ignored_witness : remoteIP one_proxy events = "192.0.2.1" ∧ remoteIP one_proxy single_entry = "192.0.2.7".
Proof.
  split.
  - destruct (forged_forwarding_ignored one_proxy events) as (_ & _ & _ & Hf).
    refine (Hf "6.6.6.6" "192.0.2.1,10.0.0.1" [] "192.0.2.1" ["10.0.0.1"] eq_refl eq_refl eq_refl _ _).
    + repeat constructor. exists "10.0.0.1". split; reflexivity.
    + intros (p & [= <-] & [=]).
  - destruct (forged_forwarding_ignored one_proxy single_entry) as (_ & _ & Hf & _).
    refine (Hf [] " 192.0.2.7" [] eq_refl eq_refl (Forall_nil_2 _) _). intros (p & [= <-] & [=]).
Defined.
