(* ===== verification/CatalogOps.v ===== *)
(** * Operating the catalog

    The catalog operations of the admin plane ([internal/admin]:
    catalog_ops_service.go, catalog_ops_repository.go, catalog_ops_handler.go,
    and the strategy picker of cmd/admin) on the stores the embedder works on:
    re-embedding a namespace, redriving failed items, deleting an item. A NULL
    strategy or error is the empty text, as in [Embedder]. *)

From stdpp Require Import base tactics gmap sets strings list sorting.
From Stdlib Require Import ZArith Lia.
From S2P Require Import Prelude GoLib NsNames NsLedger NsService Hoare Float64 NamespaceConfig Strategy StreamConsumer Catalog Embedder EmbedderFacts EmbedderRecovery.

Definition ErrReembedAlreadyRunning : string := "admin.ErrReembedAlreadyRunning".
Definition ErrNamespacePaused : string := "admin.ErrNamespacePaused".
Definition ErrCatalogStrategyPickerUnavailable : string := "admin.ErrCatalogStrategyPickerUnavailable".
Definition ErrNotWired : string := "admin: stream publisher not wired".
Definition ErrNoVersion : string := "catalog mode enabled but no strategy_version".

(** What the wiring layer installed. *)
Record CatalogOps := {
  co_picker : bool;
  co_redis : bool;
  co_deleter : bool;
  co_lifecycle : option Service;
}.

Record CatalogReembedTarget := { rt_ID : Z; rt_ObjectID : string }.

Record CatalogReEmbedResponse := {
  rr_BatchRunID : Z;
  rr_Namespace : string;
  rr_StrategyID : string;
  rr_StrategyVersion : string;
  rr_StaleItems : nat;
  rr_OnlyState : string;
  rr_StartedAt : Z;
}.

(** ** Configuration reads *)

(** Strategy, version, generation, and whether the namespace embeds its catalog. *)
Definition GetCatalogStrategy (ns : string) : M W ((string * string * Z * bool) + error) :=
  let! r := nsCfg_Get ns in
  ret (match r with
       | inr e => inr e
       | inl (Some cfg) =>
           if bool_decide (cfg_DenseSource cfg = DenseSourceCatalog)
           then inl (cfg_CatalogStrategyID cfg, cfg_CatalogStrategyVersion cfg, cfg_Generation cfg, true)
           else inl ("", "", 0%Z, false)
       | inl None => inl ("", "", 0%Z, false)
       end).

Definition namespaceGeneration (ns : string) : M W (Z + error) :=
  let! r := nsCfg_Get ns in
  ret (match r with
       | inr e => inr e
       | inl None => inl 1%Z
       | inl (Some cfg) => inl (Generation (NewIncarnation ns (cfg_Generation cfg)))
       end).

(** ** The repository *)

Definition newer (a b : RunRow) : Prop := (rl_StartedAt b <= rl_StartedAt a)%Z.
#[global] Instance newer_dec a b : Decision (newer a b).
Proof. unfold newer. apply _. Defined.

Definition FindRunningReembedRun (ns : string) : M W (option RunRow + error) :=
  stmt (λ _ d, (head (merge_sort newer (filter (λ r, rl_Namespace r = ns ∧ open_run r) (ed_runs d))), d)).

Definition ReembedOnlyStateAll : string := "all".
Definition ReembedOnlyStateEmbedded : string := "embedded".
Definition ReembedOnlyStateFailed : string := "failed".

Definition settled_states : list CatalogState := [StateEmbedded; StateFailed; StateDeadLetter].
Definition other_strategy (sid sver : string) (i : Item) : bool :=
  bool_decide (ci_StrategyID i = "") || bool_decide (ci_StrategyVersion i = "") ||
  negb (bool_decide ((ci_StrategyID i, ci_StrategyVersion i) = (sid, sver))).

(** The rows [reembedResetSQL] names. *)
Definition reembed_hits (onlyState ns sid sver : string) (i : Item) : bool :=
  bool_decide (ci_Namespace i = ns) &&
  (if bool_decide (onlyState = ReembedOnlyStateAll) then bool_decide (ci_State i ∈ settled_states)
   else if bool_decide (onlyState = ReembedOnlyStateEmbedded) then bool_decide (ci_State i = StateEmbedded)
   else if bool_decide (onlyState = ReembedOnlyStateFailed) then bool_decide (ci_State i ∈ [StateFailed; StateDeadLetter])
   else bool_decide (ci_State i ∈ settled_states) && other_strategy sid sver i).

(** A row that is to be embedded again, with the strategy version it keeps. *)
Definition requeued_row (now : Z) (sver : string) (i : Item) : Item :=
  {| ci_ID := ci_ID i; ci_Namespace := ci_Namespace i; ci_ObjectID := ci_ObjectID i; ci_Content := ci_Content i;
     ci_ContentHash := ci_ContentHash i; ci_Metadata := ci_Metadata i; ci_State := StatePending; ci_StrategyID := ci_StrategyID i;
     ci_StrategyVersion := sver; ci_EmbeddedAt := ci_EmbeddedAt i; ci_AttemptCount := 0; ci_LastError := "";
     ci_CreatedAt := ci_CreatedAt i; ci_UpdatedAt := now |}.

Definition reset_row (now : Z) (i : Item) : Item := requeued_row now "" i.
Definition redriven_row (now : Z) (i : Item) : Item := requeued_row now (ci_StrategyVersion i) i.

(** UPDATE ... WHERE hits RETURNING id, object_id; the rows come in some order. *)
Definition update_items (hits : Item → bool) (f : Item → Item) (m : gmap Z Item) : gmap Z Item := (λ i, if hits i then f i else i) <$> m.
Definition targets_of (hits : Item → bool) (m : gmap Z Item) : list CatalogReembedTarget :=
  (λ i, {| rt_ID := ci_ID i; rt_ObjectID := ci_ObjectID i |}) <$> filter (λ i, hits i = true) (map_to_list m).*2.

Definition reembed_run (nextRun : Z) (ns sid sver : string) (startedAt : Z) : RunRow :=
  {| rl_ID := nextRun; rl_Namespace := ns; rl_TriggerSource := TriggerReembed; rl_TargetID := sid; rl_TargetVersion := sver;
     rl_StartedAt := startedAt; rl_CompletedAt := None; rl_DurationMs := 0; rl_Processed := 0; rl_Success := false; rl_Error := None |}.

(** The transaction: begin, the insertion (which needs the namespace's
    configuration row and is seen by nobody yet), the update with its rows, the
    commit. [nextRun] is what the sequence of the table yields. *)
Definition StartReembedRun (nextRun : Z) (ns sid sver onlyState : string) (startedAt : Z) : M W ((Z * list CatalogReembedTarget) + error) :=
  let! b := fault in
  if b then ret (inr [ErrDriver])
  else
    let! r := stmt (λ _ d, (bool_decide (is_Some (ed_configs d !! ns)), d)) in
    match r with
    | inr e => ret (inr e)
    | inl false => ret (inr [ErrDriver])
    | inl true =>
        let! scan := fault in
        let! commit := fault in
        if scan || commit then ret (inr [ErrDriver])
        else
          stmt (λ now d, let hits := reembed_hits onlyState ns sid sver in
            ((nextRun, targets_of hits (ed_items d)),
             set_ed_runs (ed_runs d ++ [reembed_run nextRun ns sid sver startedAt]) (set_ed_items (update_items hits (reset_row now) (ed_items d)) d)))
    end.

(** The attribution, which only the detail view shows, is left out. *)
Definition GetCatalogItem (ns : string) (id : Z) : M W (option Item + error) :=
  stmt (λ _ d, (match ed_items d !! id with Some i => if bool_decide (ci_Namespace i = ns) then Some i else None | None => None end, d)).

Definition redrivable (ns : string) (i : Item) : bool := bool_decide (ci_Namespace i = ns) && bool_decide (ci_State i ∈ [StateFailed; StateDeadLetter]).

Definition repo_RedriveCatalogItem (ns : string) (id : Z) : M W (option Item + error) :=
  stmt (λ now d, update_item id (redrivable ns) (redriven_row now) d).

Definition dead_lettered (ns : string) (i : Item) : bool := bool_decide (ci_Namespace i = ns) && bool_decide (ci_State i = StateDeadLetter).

Definition repo_BulkRedriveDeadletter (ns : string) : M W (list CatalogReembedTarget + error) :=
  stmt (λ now d, (targets_of (dead_lettered ns) (ed_items d), set_ed_items (update_items (dead_lettered ns) (redriven_row now) (ed_items d)) d)).

Definition repo_DeleteCatalogItem (ns : string) (id : Z) : M W (option string + error) :=
  stmt (λ _ d, match ed_items d !! id with
               | Some i => if bool_decide (ci_Namespace i = ns) then (Some (ci_ObjectID i), set_ed_items (delete id (ed_items d)) d) else (None, d)
               | None => (None, d)
               end).

Definition LookupNumericObjectID (ns obj : string) : M W (option Z + error) := stmt (λ _ d, (ed_ids d !! (ns, obj), d)).

(** The state counts of the backlog panel. *)
Definition CountCatalogItemStates (ns : string) : M W ((CatalogState → nat) + error) :=
  stmt (λ _ d, (λ st, length (filter (λ i, ci_Namespace i = ns ∧ ci_State i = st) (map_to_list (ed_items d)).*2), d)).

(** ** The service *)

Definition catalogStreamName (ns : string) (generation : Z) : option string :=
  Incarnation_MustPhysicalName (NewIncarnation ns generation) KindEmbedStream.

Definition enqueue_entry (stream ns : string) (generation : Z) (sid sver : string) (now : Z) (t : CatalogReembedTarget) : EmbedEntry :=
  {| ee_Stream := stream; ee_ItemID := rt_ID t; ee_Namespace := ns; ee_Generation := generation; ee_ObjectID := rt_ObjectID t;
     ee_StrategyID := sid; ee_StrategyVersion := sver; ee_EnqueuedAt := now |}.

(** XADD creates a missing stream; an entry is owed to an existing group. *)
Definition publishCatalogEnqueue (s : CatalogOps) (ns : string) (generation : Z) (t : CatalogReembedTarget) (sid sver : string) : M W error :=
  if negb (co_redis s) then ret [ErrNotWired]
  else
    match catalogStreamName ns generation with
    | None => ret [ErrPanic]
    | Some stream =>
        let! now := gets w_now in
        let! r := stmt (λ _ d, ((), set_ed_streams
                    (<[stream := match ed_streams d !! stream with
                                 | Some (Some (lag, pending)) => Some ((lag + 1)%Z, pending)
                                 | _ => None
                                 end]> (ed_streams d)) (ed_added d ++ [enqueue_entry stream ns generation sid sver now t]) d)) in
        ret (match r with inr e => e | inl _ => [] end)
    end.

(** A failed publication is only logged; a panic unwinds. *)
Fixpoint publish_all (s : CatalogOps) (ns : string) (generation : Z) (targets : list CatalogReembedTarget) (sid sver : string) : M W error :=
  match targets with
  | [] => ret []
  | t :: rest =>
      let! e := publishCatalogEnqueue s ns generation t sid sver in
      if errors_is e ErrPanic then ret e else publish_all s ns generation rest sid sver
  end.

(** [busy]: another call of this process holds the namespace in [runningReembed]. *)
Definition TriggerReEmbed (s : CatalogOps) (busy : bool) (nextRun : Z) (ns onlyState : string) : M W (option CatalogReEmbedResponse * error) :=
  if negb (co_picker s) then ret (None, [ErrCatalogStrategyPickerUnavailable])
  else
    let! r := GetCatalogStrategy ns in
    match r with
    | inr e => ret (None, e)
    | inl (sid, sver, generation, enabled) =>
        if negb enabled then ret (None, [])
        else
          let! c := nsCfg_Get ns in
          match c with
          | inr e => ret (None, e)
          | inl nsConfig =>
              if match nsConfig with Some cfg => cfg_Paused cfg | None => false end then ret (None, [ErrNamespacePaused])
              else if bool_decide (sver = "") then ret (None, [ErrNoVersion])
              else if busy then ret (None, [ErrReembedAlreadyRunning])
              else
                let! existing := FindRunningReembedRun ns in
                match existing with
                | inr e => ret (None, e)
                | inl (Some _) => ret (None, [ErrReembedAlreadyRunning])
                | inl None =>
                    let! startedAt := gets w_now in
                    let! started := StartReembedRun nextRun ns sid sver onlyState startedAt in
                    match started with
                    | inr e => ret (None, e)
                    | inl (batchID, targets) =>
                        let! e := publish_all s ns generation targets sid sver in
                        if negb (nil_err e) then ret (None, e)
                        else ret (Some {| rr_BatchRunID := batchID; rr_Namespace := ns; rr_StrategyID := sid; rr_StrategyVersion := sver;
                                          rr_StaleItems := length targets; rr_OnlyState := onlyState; rr_StartedAt := startedAt |}, [])
                    end
                end
          end
    end.

(** The id, the object and the state of the row. *)
Definition RedriveCatalogItem (s : CatalogOps) (ns : string) (id : Z) : M W (option (Z * string * CatalogState) * error) :=
  if negb (co_picker s) then ret (None, [ErrCatalogStrategyPickerUnavailable])
  else
    let! r := GetCatalogStrategy ns in
    match r with
    | inr e => ret (None, e)
    | inl (sid, sver, generation, enabled) =>
        if negb enabled then ret (None, [])
        else
          let! item := repo_RedriveCatalogItem ns id in
          match item with
          | inr e => ret (None, e)
          | inl None => ret (None, [])
          | inl (Some item) =>
              let! e := publish_all s ns generation [{| rt_ID := ci_ID item; rt_ObjectID := ci_ObjectID item |}] sid sver in
              if negb (nil_err e) then ret (None, e) else ret (Some (ci_ID item, ci_ObjectID item, ci_State item), [])
          end
    end.

Definition BulkRedriveDeadletter (s : CatalogOps) (ns : string) : M W (option nat * error) :=
  if negb (co_picker s) then ret (None, [ErrCatalogStrategyPickerUnavailable])
  else
    let! r := GetCatalogStrategy ns in
    match r with
    | inr e => ret (None, e)
    | inl (sid, sver, generation, enabled) =>
        if negb enabled then ret (None, [])
        else
          let! targets := repo_BulkRedriveDeadletter ns in
          match targets with
          | inr e => ret (None, e)
          | inl targets =>
              let! e := publish_all s ns generation targets sid sver in
              if negb (nil_err e) then ret (None, e) else ret (Some (length targets), [])
          end
    end.

(** A missing collection is not an error. *)
Definition DeletePoint (collection : string) (numericID : Z) : M W error :=
  let! r := stmt (λ _ d, ((), set_ed_collections (alter (on_points (delete numericID)) collection (ed_collections d)) d)) in
  ret (match r with inr e => e | inl _ => [] end).

Definition delete_point_of (s : CatalogOps) (ns : string) (generation : Z) (item : Item) : M W error :=
  if negb (co_deleter s) then ret []
  else
    let! n := LookupNumericObjectID ns (ci_ObjectID item) in
    match n with
    | inr e => ret e
    | inl None => ret []
    | inl (Some numID) =>
        match Incarnation_MustPhysicalName (NewIncarnation ns generation) KindObjectsDense with
        | None => ret [ErrPanic]
        | Some collection => DeletePoint collection numID
        end
    end.

Definition deleteCatalogItemGeneration (s : CatalogOps) (ns : string) (generation id : Z) : M W error :=
  let! item := GetCatalogItem ns id in
  match item with
  | inr e => ret e
  | inl None => ret []
  | inl (Some item) =>
      let! e := delete_point_of s ns generation item in
      if negb (nil_err e) then ret e
      else
        let! r := repo_DeleteCatalogItem ns id in
        ret (match r with inr e => e | inl _ => [] end)
  end.

Definition DeleteCatalogItem (s : CatalogOps) (ctx : Ctx) (ns : string) (id : Z) : M W error :=
  match co_lifecycle s with
  | Some svc =>
      let! ' (_, e) := WithWriter tt svc ctx ns (λ _ current, let! e := deleteCatalogItemGeneration s ns (nl_generation current) id in ret (tt, e)) in ret e
  | None =>
      let! g := namespaceGeneration ns in
      match g with
      | inr e => ret e
      | inl generation => deleteCatalogItemGeneration s ns generation id
      end
  end.

(** ** Handlers *)

(** [CatalogReEmbedRequest.Valid] *)
Definition valid_only_state (s : string) : bool :=
  bool_decide (s ∈ [""; ReembedOnlyStateAll; ReembedOnlyStateEmbedded; ReembedOnlyStateFailed]).

(** Status and code; the body is what it decodes to, [None] when it does not. *)
Definition TriggerReEmbed_handler (s : CatalogOps) (busy : bool) (nextRun : Z) (ns : string) (body : option string) : M W (Z * string) :=
  if bool_decide (ns = "") then ret (400, "missing_namespace")%Z
  else
    match body with
    | None => ret (400, "invalid_request")%Z
    | Some onlyState =>
        if negb (valid_only_state onlyState) then ret (400, "invalid_request")%Z
        else
          let! ' (resp, err) := TriggerReEmbed s busy nextRun ns onlyState in
          ret (if negb (nil_err err) then
                 if errors_is err ErrCatalogStrategyPickerUnavailable then (503, "catalog_unavailable")
                 else if errors_is err ErrNamespacePaused then (409, "namespace_paused")
                 else if errors_is err ErrReembedAlreadyRunning then (409, "reembed_running")
                 else (500, "internal_error")
               else match resp with None => (404, "not_found") | Some _ => (202, "") end)%Z
    end.

(** [strconv.ParseInt] and the check for a positive id. *)
Definition item_id (raw : string) : option Z := match parse_int raw with Some id => if (id <=? 0)%Z then None else Some id | None => None end.

Definition redrive_failure (err : error) : Z * string :=
  if errors_is err ErrCatalogStrategyPickerUnavailable then (503, "catalog_unavailable")%Z else (500, "internal_error")%Z.

Definition RedriveCatalogItem_handler (s : CatalogOps) (ns rawID : string) : M W (Z * string) :=
  match item_id rawID with
  | None => ret (400, "invalid_id")%Z
  | Some id =>
      let! ' (resp, err) := RedriveCatalogItem s ns id in
      ret (if negb (nil_err err) then redrive_failure err else match resp with None => (404, "not_found") | Some _ => (202, "") end)%Z
  end.

Definition BulkRedriveDeadletter_handler (s : CatalogOps) (ns : string) : M W (Z * string) :=
  if bool_decide (ns = "") then ret (400, "missing_namespace")%Z
  else
    let! ' (resp, err) := BulkRedriveDeadletter s ns in
    ret (if negb (nil_err err) then redrive_failure err else match resp with None => (404, "not_found") | Some _ => (200, "") end)%Z.

Definition DeleteCatalogItem_handler (s : CatalogOps) (ctx : Ctx) (ns rawID : string) : M W (Z * string) :=
  match item_id rawID with
  | None => ret (400, "invalid_id")%Z
  | Some id => let! err := DeleteCatalogItem s ctx ns id in ret (if negb (nil_err err) then (500, "internal_error") else (204, ""))%Z
  end.

(** ** Status reads *)

Definition FindLatestReembedRun (ns : string) : M W (option RunRow + error) :=
  stmt (λ _ d, (head (merge_sort newer (filter (λ r, rl_Namespace r = ns ∧ rl_TriggerSource r = TriggerReembed) (ed_runs d))), d)).

Definition ReembedTargetFromBatchRow (row : option RunRow) : string * string :=
  match row with None => ("", "") | Some r => (rl_TargetID r, rl_TargetVersion r) end.

(** MAX(embedded_at) *)
Definition GetLastCatalogEmbeddedAt (ns : string) : M W (option Z + error) :=
  stmt (λ _ d, (foldr (λ t acc, Some (match acc with Some u => Z.max t u | None => t end)) None
    (omap ci_EmbeddedAt (filter (λ i, ci_Namespace i = ns ∧ ci_State i = StateEmbedded) (map_to_list (ed_items d)).*2)), d)).
