(* ===== verification/CatalogOpsFacts.v ===== *)
(** * What operating the catalog guarantees

    A re-embed restarts exactly the rows it names, together with its run row or
    not at all, and the watcher leaves the run open while one of them waits;
    redriving and deleting change exactly what they should. Two races that the
    code does not exclude are shown by example. *)

From stdpp Require Import base tactics gmap sets strings list sorting.
From Stdlib Require Import ZArith Lia.
From S2P Require Import Prelude GoLib NsNames NsLedger NsService Hoare Float64 NamespaceConfig Strategy StreamConsumer Catalog Embedder EmbedderFacts EmbedderRecovery CatalogOps.

Lemma catalogStreamName_total ns g : ns ≠ "" → ∃ stream, catalogStreamName ns g = Some stream.
Proof. intros Hns. destruct (Incarnation_total ns g KindEmbedStream Hns ltac:(by eexists)) as (_ & (n & Hn & _) & _). by exists n. Qed.

(** Only entries were added, for some of the targets in their order. *)
Definition enqueued (all : bool) (s : CatalogOps) (stream ns : string) (g : Z) (sid sver : string) (now : Z) (targets : list CatalogReembedTarget) (d d' : EmbedDB) : Prop :=
  ∃ streams entries, d' = set_ed_streams streams (ed_added d ++ entries) d ∧
    sublist entries (enqueue_entry stream ns g sid sver now <$> targets) ∧
    (all = true → co_redis s = true → entries = enqueue_entry stream ns g sid sver now <$> targets).

Section rules.
Context {c : bool}.

(** A failure that calm runs do not have. *)
Lemma wr_fault {A} (k : bool → M W A) now x (Q : A → EmbedWorld → Prop) :
  (c = false → writes c (k true) now x Q) → writes c (k false) now x Q → writes c (bind fault k) now x Q.
Proof.
  intros Ht Hk. eapply (writes_bind _ _ _ _ (λ b x', x' = x ∧ (b = true → c = false))); [by apply writes_fault|]. intros [] ? [-> Hb]; auto.
Qed.

Lemma wr_read_bind {A B} (f : Z → EmbedDB → A) (k : A + error → M W B) now x (Q : B → EmbedWorld → Prop) :
  quiet x → (c = false → writes c (k (inr [ErrDriver])) now x Q) → writes c (k (inl (f now (ew_db x)))) now x Q →
  writes c (bind (stmt (λ now d, (f now d, d))) k) now x Q.
Proof.
  intros Hq He Hk. eapply (writes_bind _ _ _ _ (λ r x', x' = x ∧ (r = inr [ErrDriver] ∧ c = false ∨ r = inl (f now (ew_db x))))).
  - apply writes_read; [done|by auto|by auto].
  - intros r ? [-> [[-> Hc]| ->]]; auto.
Qed.

Lemma publish_writes s ns g stream t sid sver now x :
  quiet x → catalogStreamName ns g = Some stream →
  writes c (publishCatalogEnqueue s ns g t sid sver) now x (λ e x', errors_is e ErrPanic = false ∧ ∃ d', x' = set_db d' x ∧
    enqueued c s stream ns g sid sver now [t] (ew_db x) d').
Proof.
  intros Hq Hs. assert (c = false ∨ co_redis s = false → ∃ d', x = set_db d' x ∧ enqueued c s stream ns g sid sver now [t] (ew_db x) d') as Hno.
  { intros Hc. exists (ew_db x). split; [by rewrite set_db_id|]. exists (ed_streams (ew_db x)), []. split; [by rewrite app_nil_r; destruct x as [[]]|].
    split; [apply sublist_nil_l|]. intros -> Hr. destruct Hc; congruence. }
  unfold publishCatalogEnqueue. destruct (co_redis s) eqn:Hr; cbn [negb]; [|apply writes_ret; split; [done|by auto]]. rewrite Hs.
  eapply (writes_bind _ _ _ _ (λ t x', t = now ∧ x' = x)); [by apply writes_gets_now|]. intros ? ? [-> ->].
  eapply (writes_bind _ _ _ _ (λ r x', match r with inl _ => True | inr e => e = [ErrDriver] end ∧ ∃ d', x' = set_db d' x ∧ enqueued c s stream ns g sid sver now [t] (ew_db x) d')).
  - apply writes_stmt; [done|by auto|]. split; [done|]. eexists. split; [done|]. eexists _, [enqueue_entry stream ns g sid sver now t]. by split.
  - intros [u|e] x' [He Hx]; apply writes_ret; [by split|]. subst e. by split.
Qed.

Lemma publish_all_writes s ns g stream targets sid sver now x :
  quiet x → catalogStreamName ns g = Some stream →
  writes c (publish_all s ns g targets sid sver) now x (λ e x', e = [] ∧ ∃ d', x' = set_db d' x ∧
    enqueued c s stream ns g sid sver now targets (ew_db x) d').
Proof.
  intros Hq Hs. revert x Hq. induction targets as [|t targets IH]; intros x Hq; cbn [publish_all].
  { apply writes_ret. split; [done|]. exists (ew_db x). split; [by rewrite set_db_id|]. exists (ed_streams (ew_db x)), []. split; [by rewrite app_nil_r; destruct x as [[]]|]. by split. }
  eapply writes_bind; [by apply publish_writes|]. intros e x1 (-> & d1 & -> & st1 & en1 & -> & Hsub1 & Hall1).
  eapply writes_mono; [by apply IH|]. intros e' x' (-> & d' & -> & st & en & -> & Hsub & Hall). split; [done|]. eexists. split; [done|].
  exists st, (en1 ++ en). split; [cbn; by rewrite <- app_assoc|]. rewrite fmap_cons. split; [by apply (sublist_app en1 [_])|].
  intros Hc Hr. rewrite (Hall1 Hc Hr), (Hall Hc Hr). done.
Qed.

(** ** Re-embedding *)

(** What a re-embed that started leaves. *)
Definition restarted (s : CatalogOps) (stream ns onlyState : string) (cfg : Config) (now : Z) (resp : CatalogReEmbedResponse) (d d' : EmbedDB) : Prop :=
  let sid := cfg_CatalogStrategyID cfg in let sver := cfg_CatalogStrategyVersion cfg in
  let hits := reembed_hits onlyState ns sid sver in
  enqueued c s stream ns (cfg_Generation cfg) sid sver now (targets_of hits (ed_items d))
    (set_ed_runs (ed_runs d ++ [reembed_run (rr_BatchRunID resp) ns sid sver now]) (set_ed_items (update_items hits (reset_row now) (ed_items d)) d)) d' ∧
  rr_StaleItems resp = length (targets_of hits (ed_items d)).

(** The namespace may be re-embedded now. *)
Definition ready (s : CatalogOps) (busy : bool) (ns : string) (cfg : Config) (d : EmbedDB) : Prop :=
  co_picker s = true ∧ busy = false ∧ ed_configs d !! ns = Some cfg ∧ cfg_DenseSource cfg = DenseSourceCatalog ∧ cfg_Paused cfg = false ∧
  cfg_CatalogStrategyVersion cfg ≠ "" ∧ ∀ r, r ∈ ed_runs d → rl_Namespace r = ns → ¬ open_run r.

Lemma head_sorted_none {A} (R : A → A → Prop) `{!∀ x y, Decision (R x y)} (l : list A) : head (merge_sort R l) = None ↔ l = [].
Proof.
  pose proof (merge_sort_Permutation R l) as Hp. split.
  - intros Hh. destruct (merge_sort R l); [|done]. by apply Permutation_nil in Hp.
  - intros ->. by apply Permutation_nil_r in Hp as ->.
Qed.

Lemma no_open_runs ns (l : list RunRow) :
  head (merge_sort newer (filter (λ r, rl_Namespace r = ns ∧ open_run r) l)) = None ↔ ∀ r, r ∈ l → rl_Namespace r = ns → ¬ open_run r.
Proof.
  rewrite (head_sorted_none newer). split.
  - intros Hn r Hr Hns Ho. assert (r ∈ filter (λ r, rl_Namespace r = ns ∧ open_run r) l) as Hin by (by apply list_elem_of_filter). rewrite Hn in Hin. by apply elem_of_nil in Hin.
  - intros Hno. apply list_filter_none. intros r Hr [Hns Ho]. by eapply Hno.
Qed.

Lemma StartReembedRun_writes nextRun ns sid sver onlyState startedAt cfg now x :
  quiet x → ed_configs (ew_db x) !! ns = Some cfg →
  writes c (StartReembedRun nextRun ns sid sver onlyState startedAt) now x (λ r x', match r with
    | inr e => x' = x ∧ c = false ∧ e ≠ []
    | inl (batchID, targets) => let hits := reembed_hits onlyState ns sid sver in
        batchID = nextRun ∧ targets = targets_of hits (ed_items (ew_db x)) ∧
        x' = set_db (set_ed_runs (ed_runs (ew_db x) ++ [reembed_run nextRun ns sid sver startedAt]) (set_ed_items (update_items hits (reset_row now) (ed_items (ew_db x))) (ew_db x))) x
    end).
Proof.
  intros Hq Hcfg. unfold StartReembedRun. apply wr_fault; [intros Hc; by apply writes_ret|].
  apply wr_read_bind; [done|intros Hc; by apply writes_ret|]. rewrite Hcfg. rewrite bool_decide_eq_true_2 by (by eexists).
  apply wr_fault; [intros Hc; apply wr_fault; [intros _|]; by apply writes_ret|]. apply wr_fault; [intros Hc; by apply writes_ret|]. by apply writes_stmt.
Qed.

Lemma TriggerReEmbed_writes s busy nextRun ns onlyState now x :
  quiet x → ns ≠ "" →
  writes c (TriggerReEmbed s busy nextRun ns onlyState) now x (λ r x',
    (r.1 = None ∧ x' = x ∧ (c = true → ∀ cfg, ¬ ready s busy ns cfg (ew_db x))) ∨
    (∃ cfg resp stream d', r = (Some resp, []) ∧ ready s busy ns cfg (ew_db x) ∧ x' = set_db d' x ∧
       catalogStreamName ns (cfg_Generation cfg) = Some stream ∧ rr_BatchRunID resp = nextRun ∧ restarted s stream ns onlyState cfg now resp (ew_db x) d')).
Proof.
  intros Hq Hns. set (Q := λ _ _, _ ∨ _).
  assert (∀ e : error, (c = true → ∀ cfg, ¬ ready s busy ns cfg (ew_db x)) → writes c (ret (None, e)) now x Q) as Hno.
  { intros e Hr. apply writes_ret. by left. }
  assert (∀ e : error, c = false → writes c (ret (None, e)) now x Q) as Hfail by (intros e Hc; apply Hno; congruence).
  unfold TriggerReEmbed. destruct (co_picker s) eqn:Hp; cbn [negb]; [|apply Hno; intros _ cfg (? & _); congruence].
  unfold GetCatalogStrategy. eapply (writes_bind _ _ _ _ (λ r x', x' = x ∧ (r = inr [ErrDriver] ∧ c = false ∨ r = match ed_configs (ew_db x) !! ns with
    | Some cfg => if bool_decide (cfg_DenseSource cfg = DenseSourceCatalog) then inl (cfg_CatalogStrategyID cfg, cfg_CatalogStrategyVersion cfg, cfg_Generation cfg, true) else inl ("", "", 0%Z, false)
    | None => inl ("", "", 0%Z, false) end))).
  { apply wr_read_bind; [done|intros Hc; apply writes_ret; by auto|]. apply writes_ret. split; [done|]. right. by destruct (ed_configs (ew_db x) !! ns). }
  intros r ? [-> [[-> Hc]| ->]]; [by apply Hfail|].
  destruct (ed_configs (ew_db x) !! ns) as [cfg|] eqn:Hcfg; [|apply Hno; intros _ cfg (_ & _ & ? & _); congruence].
  assert (∀ cfg', ready s busy ns cfg' (ew_db x) → cfg' = cfg) as Huniq by (intros cfg' (_ & _ & ? & _); congruence).
  case_bool_decide as Hd; cbn [negb]; [|apply Hno; intros _ cfg' Hr; pose proof (Huniq _ Hr) as ->; by destruct Hr as (_ & _ & _ & ? & _)].
  apply wr_read_bind; [done|intros Hc; by apply Hfail|]. rewrite Hcfg.
  destruct (cfg_Paused cfg) eqn:Hpa; [apply Hno; intros _ cfg' Hr; pose proof (Huniq _ Hr) as ->; destruct Hr as (_ & _ & _ & _ & ? & _); congruence|].
  case_bool_decide as Hv; [apply Hno; intros _ cfg' Hr; pose proof (Huniq _ Hr) as ->; by destruct Hr as (_ & _ & _ & _ & _ & ? & _)|].
  destruct busy; [apply Hno; by intros _ cfg' (_ & ? & _)|].
  apply wr_read_bind; [done|intros Hc; by apply Hfail|]. pose proof (no_open_runs ns (ed_runs (ew_db x))) as Hopen.
  destruct (head (merge_sort newer _)) as [run|]; [apply Hno; intros _ cfg' (_ & _ & _ & _ & _ & _ & Hr); by apply Hopen in Hr|].
  eapply (writes_bind _ _ _ _ (λ t x', t = now ∧ x' = x)); [by apply writes_gets_now|]. intros ? ? [-> ->].
  eapply writes_bind; [by eapply StartReembedRun_writes|]. intros [[batchID targets]|e] x1; [|intros (-> & Hc & _); by apply Hfail].
  intros (-> & -> & ->). destruct (catalogStreamName_total ns (cfg_Generation cfg) Hns) as [stream Hs].
  eapply writes_bind; [by apply publish_all_writes|]. intros e x2 (-> & d' & -> & He). apply writes_ret. right.
  eexists cfg, _, stream, d'. split; [done|]. split; [split_and!; try done; by apply Hopen|]. split_and!; [done|done|done|]. by split.
Qed.
End rules.

(** C34: A re-embed starts whole or not at all: whatever fails, either it reports
    nothing started and every store is as before, or the namespace was ready
    (catalog mode, not paused, a strategy version, no open run), exactly the
    rows its filter names are pending again without attempts, error and strategy
    version, the open run for the current strategy is there, and the stream of
    the configured generation got entries for some of these rows in order; for
    all of them when nothing fails. A ready namespace is started when nothing
    fails. *)
Theorem reembed_all_or_nothing s busy nextRun ns onlyState w :
  quiet (w_ext w) → ns ≠ "" →
  let r := TriggerReEmbed s busy nextRun ns onlyState w in
  let d := ew_db (w_ext w) in
  ((r.1.1 = None ∧ w_ext r.2 = w_ext w) ∨
   ∃ cfg resp stream d', r.1 = (Some resp, []) ∧ ready s busy ns cfg d ∧ w_ext r.2 = set_db d' (w_ext w) ∧
     catalogStreamName ns (cfg_Generation cfg) = Some stream ∧ rr_BatchRunID resp = nextRun ∧
     restarted (c := bool_decide (w_faults w = [])) s stream ns onlyState cfg (w_now w) resp d d') ∧
  (w_faults w = [] → ∀ cfg, ready s busy ns cfg d → r.1.1 ≠ None).
Proof.
  intros Hq Hns. cbv zeta.
  pose proof (writes_run (c := bool_decide (w_faults w = [])) _ w _ (TriggerReEmbed_writes s busy nextRun ns onlyState (w_now w) (w_ext w) Hq Hns)) as Hr.
  destruct Hr as [(Hn & Hx & Hno)|(cfg & resp & stream & d' & Hr & Hready & Hx & Hs & Hid & Hre)]; [by intros Hf%bool_decide_eq_true| |].
  - split; [by left|]. intros Hf cfg Hready _. by apply (Hno (bool_decide_eq_true_2 _ Hf) cfg).
  - split; [|intros _ cfg' _; by rewrite Hr]. right. by exists cfg, resp, stream, d'.
Qed.

(** ** The run and its items *)

(** A row of the run's namespace that was reset and has not been embedded since. *)
Definition waiting (run : RunRow) (d : EmbedDB) : Prop :=
  ∃ id i, ed_items d !! id = Some i ∧ ci_Namespace i = rl_Namespace run ∧ ci_State i ∈ [StatePending; StateInFlight; StateFailed] ∧ ci_StrategyVersion i = "".

Lemma waiting_stale run d : waiting run d → ¬ no_stale d run.
Proof. intros (id & i & Hi & Hns & Hst & Hv) Hno. apply (Hno id i Hi). split; [done|]. split; [done|]. auto. Qed.

Lemma waiting_kept svc ctx run w :
  quiet (w_ext w) → ctx_lease ctx = None → NoDup (rl_ID <$> ed_runs (ew_db (w_ext w))) → run ∈ ed_runs (ew_db (w_ext w)) → waiting run (ew_db (w_ext w)) →
  run ∈ ed_runs (ew_db (w_ext (watcher_tick (Some svc) ctx w).2)).
Proof.
  intros Hq Hctx Hnd Hin Hw. destruct (watcher_closes_finished_runs svc ctx w Hq Hctx Hnd) as (runs' & -> & Hrows). cbn.
  apply list_elem_of_lookup in Hin as [k Hk]. destruct (Forall2_lookup_l _ _ _ _ _ Hrows Hk) as (r' & Hk' & Hr).
  destruct Hr as [[-> _]|(p & _ & [Hno _] & _)]; [by eapply list_elem_of_lookup_2|]. by destruct (waiting_stale _ _ Hw).
Qed.

Lemma targets_wait onlyState ns sid sver now batchID d :
  (0 < length (targets_of (reembed_hits onlyState ns sid sver) (ed_items d)))%nat →
  waiting (reembed_run batchID ns sid sver now) (set_ed_items (update_items (reembed_hits onlyState ns sid sver) (reset_row now) (ed_items d)) d).
Proof.
  unfold targets_of. rewrite length_fmap. destruct (filter _ _) as [|i l] eqn:Ef; [cbn; lia|]. intros _.
  assert (i ∈ filter (λ i, reembed_hits onlyState ns sid sver i = true) (map_to_list (ed_items d)).*2) as Hi by (rewrite Ef; by left).
  apply list_elem_of_filter in Hi as [Hh ([id i'] & -> & Hi%elem_of_map_to_list)%list_elem_of_fmap]. cbn in Hh.
  exists id, (reset_row now i'). cbn. unfold update_items. rewrite lookup_fmap, Hi. cbn. rewrite Hh. split; [done|].
  unfold reembed_hits in Hh. apply andb_true_iff in Hh as [Hh _]. apply bool_decide_eq_true in Hh. split; [done|]. split; [by left|done].
Qed.

(** C35: A run is not closed over waiting work: the run a successful re-embed
    opened waits from its first instant unless it had nothing to do, and as long
    as one of the rows it reset has not been embedded or given up, in whatever
    later state of the stores and whatever fails, a tick of the embedder's
    watcher leaves the run open. *)
Theorem reembed_run_waits s busy nextRun ns onlyState w resp :
  quiet (w_ext w) → ns ≠ "" → (TriggerReEmbed s busy nextRun ns onlyState w).1 = (Some resp, []) →
  let d1 := ew_db (w_ext (TriggerReEmbed s busy nextRun ns onlyState w).2) in
  ∃ run, run ∈ ed_runs d1 ∧ rl_ID run = rr_BatchRunID resp ∧ open_run run ∧ ((0 < rr_StaleItems resp)%nat → waiting run d1) ∧
  ∀ svc ctx w2, quiet (w_ext w2) → ctx_lease ctx = None → NoDup (rl_ID <$> ed_runs (ew_db (w_ext w2))) →
    run ∈ ed_runs (ew_db (w_ext w2)) → waiting run (ew_db (w_ext w2)) → run ∈ ed_runs (ew_db (w_ext (watcher_tick (Some svc) ctx w2).2)).
Proof.
  intros Hq Hns Hr. cbv zeta.
  pose proof (writes_run (c := false) _ w _ (TriggerReEmbed_writes s busy nextRun ns onlyState (w_now w) (w_ext w) Hq Hns) ltac:(done)) as Hw. rewrite Hr in Hw.
  destruct Hw as [(? & _)|(cfg & resp' & stream & d' & [= <-] & _ & -> & _ & Hid & (st & en & -> & _) & Hn)]; [done|]. cbn.
  eexists. split; [apply elem_of_app; right; by left|]. split; [done|]. split; [done|]. split.
  - intros Hpos. rewrite Hn in Hpos. exact (targets_wait _ _ _ _ _ _ _ Hpos).
  - intros svc ctx w2. apply waiting_kept.
Qed.

(** ** Redriving *)

(** Redriving the dead letters restarts exactly them, or nothing. *)
Lemma BulkRedriveDeadletter_exact s ns w :
  quiet (w_ext w) → ns ≠ "" →
  let r := BulkRedriveDeadletter s ns w in let d := ew_db (w_ext w) in
  (r.1.1 = None ∧ w_ext r.2 = w_ext w) ∨
  ∃ cfg stream d', ed_configs d !! ns = Some cfg ∧ r.1 = (Some (length (targets_of (dead_lettered ns) (ed_items d))), []) ∧ w_ext r.2 = set_db d' (w_ext w) ∧
    catalogStreamName ns (cfg_Generation cfg) = Some stream ∧
    enqueued (bool_decide (w_faults w = [])) s stream ns (cfg_Generation cfg) (cfg_CatalogStrategyID cfg) (cfg_CatalogStrategyVersion cfg) (w_now w)
      (targets_of (dead_lettered ns) (ed_items d)) (set_ed_items (update_items (dead_lettered ns) (redriven_row (w_now w)) (ed_items d)) d) d'.
Proof.
  intros Hq Hns. cbv zeta. set (c := bool_decide (w_faults w = [])).
  refine (writes_run (c := c) (BulkRedriveDeadletter s ns) w (λ r x', (r.1 = None ∧ x' = w_ext w) ∨ ∃ cfg stream d', _ ∧ r = _ ∧ x' = set_db d' (w_ext w) ∧ _ ∧ _) _ _);
    [|by intros Hf%bool_decide_eq_true].
  unfold BulkRedriveDeadletter. destruct (negb (co_picker s)); [apply writes_ret; by left|]. unfold GetCatalogStrategy.
  eapply (writes_bind _ _ _ _ (λ r x', x' = w_ext w ∧ match r with inl (sid, sver, g, true) => ∃ cfg, ed_configs (ew_db (w_ext w)) !! ns = Some cfg ∧
    (sid, sver, g) = (cfg_CatalogStrategyID cfg, cfg_CatalogStrategyVersion cfg, cfg_Generation cfg) | _ => True end)).
  { apply wr_read_bind; [done|intros _; by apply writes_ret|]. apply writes_ret. split; [done|]. destruct (ed_configs _ !! ns) as [cfg|]; [|done]. case_bool_decide; [|done]. by exists cfg. }
  intros [[[[sid sver] g] []]|e] ? [-> Hr]; cbn [negb]; [|apply writes_ret; by left..]. destruct Hr as (cfg & Hcfg & [= -> -> ->]).
  destruct (catalogStreamName_total ns (cfg_Generation cfg) Hns) as [stream Hs].
  eapply (writes_bind _ _ _ _ (λ r x', match r with inr _ => x' = w_ext w | inl targets => targets = targets_of (dead_lettered ns) (ed_items (ew_db (w_ext w))) ∧
    x' = set_db (set_ed_items (update_items (dead_lettered ns) (redriven_row (w_now w)) (ed_items (ew_db (w_ext w)))) (ew_db (w_ext w))) (w_ext w) end)); [by apply writes_stmt|].
  intros [targets|e] x1; [|intros ->; apply writes_ret; by left]. intros [-> ->]. eapply writes_bind; [by apply publish_all_writes|].
  intros e x2 (-> & d' & -> & He). apply writes_ret. right. exists cfg, stream, d'. by split_and!.
Qed.

(** ** Deleting an item *)

(** The collections without the point of the object in generation [g]. *)
Definition without_point (ns : string) (g : Z) (obj : string) (d : EmbedDB) : gmap string EmbedCollection :=
  match ed_ids d !! (ns, obj), Incarnation_MustPhysicalName (NewIncarnation ns g) KindObjectsDense with
  | Some n, Some collection => alter (on_points (delete n)) collection (ed_collections d)
  | _, _ => ed_collections d
  end.

(** What deleting leaves: nothing changed; the point gone and the row kept; or
    both gone. *)
Definition item_deleted (calm : bool) (ns : string) (g id : Z) (d : EmbedDB) (e : error) (d' : EmbedDB) : Prop :=
  (d' = d ∧ (e = [] → ∀ i, ed_items d !! id = Some i → ci_Namespace i ≠ ns) ∧ (calm = true → e = [])) ∨
  ∃ i, ed_items d !! id = Some i ∧ ci_Namespace i = ns ∧
    let kept := set_ed_collections (without_point ns g (ci_ObjectID i) d) d in
    (d' = kept ∧ e ≠ [] ∧ calm = false) ∨ (d' = set_ed_items (delete id (ed_items d)) kept ∧ e = []).

Section deletion.
Context {c : bool}.

Lemma delete_point_writes s ns g item now x :
  quiet x → ns ≠ "" → co_deleter s = true →
  writes c (delete_point_of s ns g item) now x (λ e x',
    (e ≠ [] ∧ c = false ∧ x' = x) ∨ (e = [] ∧ x' = set_db (set_ed_collections (without_point ns g (ci_ObjectID item) (ew_db x)) (ew_db x)) x)).
Proof.
  intros Hq Hns Hd. unfold delete_point_of. rewrite Hd. cbn [negb]. apply wr_read_bind; [done|intros Hc; apply writes_ret; by left|].
  unfold without_point. destruct (ed_ids (ew_db x) !! (ns, ci_ObjectID item)) as [n|]; [|apply writes_ret; right; split; [done|by destruct x as [[]]]].
  destruct (Incarnation_total ns g KindObjectsDense Hns ltac:(by eexists)) as (_ & (collection & -> & _) & _). unfold DeletePoint.
  eapply (writes_bind _ _ _ _ (λ r x', match r with inr e => e ≠ [] ∧ c = false ∧ x' = x | inl _ => x' = set_db (set_ed_collections (alter (on_points (delete n)) collection (ed_collections (ew_db x))) (ew_db x)) x end)); [by apply writes_stmt|].
  intros [u|e] x' Hx; apply writes_ret; auto.
Qed.

Lemma deleteCatalogItemGeneration_writes s ns g id now x :
  quiet x → ns ≠ "" → co_deleter s = true →
  writes c (deleteCatalogItemGeneration s ns g id) now x (λ e x', ∃ d', x' = set_db d' x ∧ item_deleted c ns g id (ew_db x) e d').
Proof.
  intros Hq Hns Hd. assert (∀ e : error, (e = [] → ∀ i, ed_items (ew_db x) !! id = Some i → ci_Namespace i ≠ ns) → (c = true → e = []) →
    ∃ d', x = set_db d' x ∧ item_deleted c ns g id (ew_db x) e d') as Hno.
  { intros e He Hc. exists (ew_db x). split; [by rewrite set_db_id|]. by left. }
  unfold deleteCatalogItemGeneration. apply wr_read_bind; [done|intros Hc; apply writes_ret, Hno; [done|congruence]|]. 
  destruct (ed_items (ew_db x) !! id) as [i|] eqn:Hi; [|apply writes_ret, Hno; congruence].
  case_bool_decide as Hn; [|apply writes_ret, Hno; [intros _ ? [= <-]; done|done]].
  eapply writes_bind; [by apply delete_point_writes|]. intros e x1 [(He & Hc & ->)|[-> ->]].
  { destruct e as [|y e]; [done|]. cbn [nil_err negb]. apply writes_ret, Hno; [done|congruence]. }
  cbn [nil_err negb]. set (kept := set_ed_collections _ _).
  eapply (writes_bind _ _ _ _ (λ r x', match r with inr e => e ≠ [] ∧ c = false ∧ x' = set_db kept x | inl _ => x' = set_db (set_ed_items (delete id (ed_items (ew_db x))) kept) x end)).
  - apply writes_stmt; [done|done|]. cbn. rewrite Hi, bool_decide_eq_true_2 by done. done.
  - intros [u|e] x' Hx; apply writes_ret; eexists; [split; [exact Hx|]|destruct Hx as (He & Hc & Hx); split; [exact Hx|]]; right; exists i; (split; [done|]); (split; [done|]); [by right|by left].
Qed.
End deletion.

(** C36: Deleting an item leaves no orphan behind: whatever fails, nothing but the
    row of that id and the point of its object in the collection of the active
    generation can go; the row goes only after the point, so that an attempt
    that failed can be repeated; an id of another namespace is left alone; and
    when nothing fails in a live namespace the row is gone. *)
Theorem delete_item_leaves_no_orphan s svc ctx ns id w :
  co_lifecycle s = Some svc → co_deleter s = true → quiet (w_ext w) → existing_lease ctx ns = None → ns ≠ "" →
  let r := DeleteCatalogItem s ctx ns id w in let d := ew_db (w_ext w) in
  (∃ d', w_ext r.2 = set_db d' (w_ext w) ∧
     (d' = d ∨ ∃ row, l_rows (w_ledger w) !! ns = Some row ∧ r_state row = StateActive ∧ item_deleted (bool_decide (w_faults w = [])) ns (r_generation row) id d r.1 d') ∧
     (w_faults w = [] → namespace_live ns w → r.1 = [] ∧ ∀ i, ed_items d' !! id = Some i → ci_Namespace i ≠ ns)).
Proof.
  intros Hl Hd Hq Hctx Hns. cbv zeta. set (c := bool_decide (w_faults w = [])). destruct (DeleteCatalogItem s ctx ns id w) as [e0 w0] eqn:E.
  unfold DeleteCatalogItem in E. rewrite Hl in E. unfold bind at 1 in E.
  match type of E with context [WithWriter tt svc ctx ns ?f w] =>
    pose proof (WithWriter_writes c tt svc ctx ns f w (λ row r x', ∃ d', x' = set_db d' (w_ext w) ∧ item_deleted c ns (r_generation row) id (ew_db (w_ext w)) r.2 d')
      Hctx ltac:(by intros Hf%bool_decide_eq_true)) as HW end.
  cbv zeta in HW. match type of HW with context [WithWriter tt svc ctx ns ?f w] => destruct (WithWriter tt svc ctx ns f w) as [[u e] w1] end. cbn [fst snd] in *. injection E as <- <-.
  destruct HW as (_ & _ & _ & [(e' & Hrefuse & [= _ ->] & Hx & Hno)|(row & Hrow & Hs & Hy & d' & Hx & Hdel)]).
  - intros row Hrow Hs Hy. eapply writes_bind; [by apply deleteCatalogItemGeneration_writes|]. intros e' x' Hx. by apply writes_ret.
  - exists (ew_db (w_ext w)). rewrite set_db_id. split; [done|]. split; [by left|]. intros Hf Hlive. by destruct (Hno (bool_decide_eq_true_2 _ Hf) Hlive).
  - exists d'. split; [done|]. split; [right; by exists row|]. intros Hf _. assert (c = true) as Hc by (by apply bool_decide_eq_true_2). rewrite Hc in Hdel.
    destruct Hdel as [(-> & Hmiss & He)|(i & Hi & Hn & [(_ & _ & ?)|[-> ->]])]; [|done|].
    + split; [by apply He|]. by apply Hmiss, He.
    + split; [done|]. cbn. intros j Hj. by rewrite lookup_delete_eq in Hj.
Qed.

(** ** Witnesses *)

Definition wired_ops : CatalogOps := {| co_picker := true; co_redis := true; co_deleter := true; co_lifecycle := Some pair_service |}.

(** An item that was embedded under an older version, with its point. *)
Definition old_item : Item := embedded_row 5 "sample" "v0" 5 (embed_item "text" "h").
Definition old_point : EmbedPoint :=
  {| eb_object_id := "o"; eb_namespace := "demo"; eb_strategy_id := "sample"; eb_strategy_version := "v0"; eb_embedded_at := 5; eb_created_at := None; eb_vector := [f32_of_Z 1; f32_of_Z 0] |}.
Definition old_db : EmbedDB := set_ed_collections {["demo_g3_objects_dense" := {| cl_size := 2; cl_distance := DistanceCosine; cl_points := {[7%Z := old_point]} |}]} (set_ed_ids {[("demo", "o") := 7%Z]} 8 (embed_db old_item)).

Lemma old_ready : ready wired_ops false "demo" embed_config old_db.
Proof. split_and!; try reflexivity; [discriminate|]. intros r Hr. by apply elem_of_nil in Hr. Qed.

Lemma reembed_all_or_nothing_witness :
  let r := TriggerReEmbed wired_ops false 4 "demo" "" (embed_world old_db [] []) in
  r.1.1 ≠ None ∧ ed_items (ew_db (w_ext r.2)) = {[1%Z := reset_row 9 old_item]} ∧ length (ed_runs (ew_db (w_ext r.2))) = 1%nat.
Proof.
  cbv zeta. destruct (reembed_all_or_nothing wired_ops false 4 "demo" "" (embed_world old_db [] [])) as [_ Hstart]; [reflexivity|discriminate|].
  split; [apply (Hstart eq_refl embed_config old_ready)|]. split; vm_compute; reflexivity.
Defined.

Lemma reembed_run_waits_witness :
  ∃ run, run ∈ ed_runs (ew_db (w_ext (watcher_tick (Some pair_service) background (TriggerReEmbed wired_ops false 4 "demo" "" (embed_world old_db [] [])).2).2)) ∧ open_run run.
Proof.
  destruct (reembed_run_waits wired_ops false 4 "demo" "" (embed_world old_db [] [])
    {| rr_BatchRunID := 4; rr_Namespace := "demo"; rr_StrategyID := "sample"; rr_StrategyVersion := "v1"; rr_StaleItems := 1; rr_OnlyState := ""; rr_StartedAt := 9 |})
    as (run & Hin & _ & Ho & Hw & Hk); [reflexivity|discriminate|vm_compute; reflexivity|].
  exists run. split; [|exact Ho]. apply Hk; [reflexivity|reflexivity| |exact Hin|apply Hw; cbn; lia].
  apply (bool_decide_unpack _). vm_compute. exact I.
Defined.

Lemma delete_item_leaves_no_orphan_witness :
  let w := embed_world old_db [] [] in let r := DeleteCatalogItem wired_ops background "demo" 1 w in
  r.1 = [] ∧ (ew_db (w_ext r.2)).(ed_items) !! 1%Z = None ∧ cl_points <$> ed_collections (ew_db (w_ext r.2)) !! "demo_g3_objects_dense" = Some ∅.
Proof.
  cbv zeta. destruct (delete_item_leaves_no_orphan wired_ops pair_service background "demo" 1 (embed_world old_db [] [])) as (d' & _ & _ & Hdone);
    [reflexivity|reflexivity|reflexivity|reflexivity|discriminate|].
  split; [apply Hdone; [reflexivity|]|split; vm_compute; reflexivity]. split; [reflexivity|]. eexists. split; vm_compute; reflexivity.
Defined.

(** ** Two races *)

(** Another replica starts a re-embed after this one looked for an open run. *)
Definition other_trigger (d : EmbedDB) : EmbedDB := ew_db (w_ext (TriggerReEmbed wired_ops false 5 "demo" "" (embed_world d [] [])).2).

(** The check for an open run and the insertion are separate statements, and
    the guard in memory is per process: two replicas both start. *)
Example two_replicas_both_start :
  let r := TriggerReEmbed wired_ops false 4 "demo" "" (embed_world old_db [id; id; id; other_trigger] []) in
  r.1.2 = [] ∧ rl_ID <$> filter open_run (ed_runs (ew_db (w_ext r.2))) = [5; 4]%Z.
Proof. vm_compute. split; reflexivity. Qed.

(** The operator moves the namespace to the next version and re-embeds while the
    item is being embedded. *)
Definition set_ed_configs (m : gmap string Config) (d : EmbedDB) : EmbedDB :=
  {| ed_items := ed_items d; ed_configs := m; ed_ids := ed_ids d; ed_next_id := ed_next_id d; ed_collections := ed_collections d;
     ed_streams := ed_streams d; ed_added := ed_added d; ed_acked := ed_acked d; ed_runs := ed_runs d |}.
Definition next_version (c : Config) : Config :=
  {| cfg_Namespace := cfg_Namespace c; cfg_Generation := cfg_Generation c; cfg_ActionWeights := cfg_ActionWeights c; cfg_Lambda := cfg_Lambda c; cfg_Gamma := cfg_Gamma c;
     cfg_MaxResults := cfg_MaxResults c; cfg_SeenItemsDays := cfg_SeenItemsDays c; cfg_ExcludeAuthored := cfg_ExcludeAuthored c; cfg_Paused := cfg_Paused c; cfg_APIKeyHash := cfg_APIKeyHash c;
     cfg_Alpha := cfg_Alpha c; cfg_DenseSource := cfg_DenseSource c; cfg_EmbeddingDim := cfg_EmbeddingDim c; cfg_DenseDistance := cfg_DenseDistance c;
     cfg_TrendingWindow := cfg_TrendingWindow c; cfg_TrendingTTL := cfg_TrendingTTL c; cfg_LambdaTrending := cfg_LambdaTrending c; cfg_CatalogStrategyID := cfg_CatalogStrategyID c;
     cfg_CatalogStrategyVersion := "v2"; cfg_CatalogStrategyParams := cfg_CatalogStrategyParams c; cfg_CatalogMaxAttempts := cfg_CatalogMaxAttempts c;
     cfg_CatalogMaxContentBytes := cfg_CatalogMaxContentBytes c; cfg_CreatedAt := cfg_CreatedAt c; cfg_UpdatedAt := cfg_UpdatedAt c |}.
Definition operator_moves_on (d : EmbedDB) : EmbedDB :=
  ew_db (w_ext (TriggerReEmbed wired_ops false 4 "demo" "all" (embed_world (set_ed_configs (next_version <$> ed_configs d) d) [] [])).2).

(** An item in flight is left alone, as already on the embedder's path; but it
    is on the path of the old version, is recorded as embedded under it, and no
    longer counts as stale: the run is closed as a success over it. *)
Example in_flight_item_escapes :
  let w := embed_world (embed_db (embed_item "text" "h")) [id; id; id; operator_moves_on] [] in
  let r := ProcessItem sample_registry no_text sample_service background 1 w in
  let d := ew_db (w_ext (watcher_tick (Some pair_service) background r.2).2) in
  r.1 = (OutcomeEmbedded, []) ∧
  (λ i, (ci_State i, ci_StrategyVersion i)) <$> ed_items d !! 1%Z = Some (StateEmbedded, "v1") ∧
  (λ r, (rl_TargetVersion r, rl_CompletedAt r, rl_Success r)) <$> ed_runs d = [("v2", Some 9%Z, true)].
Proof. vm_compute. split_and!; reflexivity. Qed.
